(* ===== verification/_CoqProject ===== *)
-Q . S2P
Prelude.v
StateError.v
CType.v
LexerSource.v
LexerChars.v
Tokens.v
Lexer.v
LexerSafety.v
LexerSpec.v
LexerNames.v
LexerLiterals.v
MacroTable.v
MacroExpander.v
MacroExpanderSafety.v
MacroExpanderSpec.v
PPExpr.v
PPExprSpec.v
PPConditional.v
PPIncludeStack.v
PPInclude.v
PPDirectives.v
PreprocessorHost.v
PPBuiltins.v
PreprocessorSafety.v
PPGuard.v
TargetLayout.v
LiteralUtils.v
LiteralTyping.v
AST.v
ParsedTypes.v
TypeInfo.v
Semantic.v
TypeChecker.v
RecordLayout.v
RecordLayoutSpec.v
ConstEval.v
ConstEvalSpec.v
ControlFlow.v
ControlFlowSpec.v
UnitsDim.v
UnitsRegistry.v
UnitsParser.v
UnitsDiag.v
UnitsTables.v
UnitsMath.v
UnitsExpr.v
UnitsTyping.v
UnitsScale.v
UnitsSoundness.v
UnitsSamples.v
ParserState.v
AstBuild.v
ParserAttributes.v
ParserCalls.v
ParserTypes.v
ParserDeclarators.v
ParserInitializers.v
ParserExpr.v
ParserFunc.v
ParserDecl.v
ParserStmt.v
ParserMain.v
ParserGrammar.v
ParserSpec.v
ParserComplete.v
ParserSamples.v
Memcheck.v
MemcheckTable.v
MemcheckSpec.v
MemcheckSafety.v
MemcheckJson.v
