(* ===== verification/Prelude.v ===== *)
(** * fisiCs, a C compiler front end with units of measure: a verification library

    The library translates the core of the compiler from C into Rocq definitions and proves what
    makes each part correct.  Paths are below src/src/ unless they say otherwise.

    ** The program and its model

    A compilation goes source text -> tokens -> preprocessed tokens -> syntax tree -> semantic
    passes -> LLVM IR.  The parts hand each other plain data (token buffers, the tree, types)
    and share a few tables (macros, include stack, tags and symbols, diagnostics).

    - Text and tokens (Lexer/).  [LexerSource]: trigraphs, splices, digraphs and the position map
      of [lexer_init]; [#line].  [LexerChars]: UTF-8 and universal character names.  [Tokens]:
      tokens, source ranges, the token buffer.  [Lexer]: [getNextToken] and its handlers; reads
      behind the terminator are errors of the model ([UndefinedOp]).  [LexerSafety], [LexerSpec],
      [LexerNames], [LexerLiterals] hold the theorems.
    - Preprocessor (Preprocessor/).  [MacroTable]: macro_table.c with its array, its expansion
      stack of pointers into the array and their dangling.  [MacroExpander]: macro_expander.c and
      its support file as a state monad over the expander.  [PPExpr]: the [#if] evaluator on
      64-bit values.  [PPConditional]: the frames of [#if] groups and the token driver, against
      an interface [PPHost] for the directives; [PPDirectives], [PPInclude], [PPIncludeStack]
      and [PreprocessorHost] implement the host: [#define], [#include], the hash set of open
      files, the include records.  [PPBuiltins]: predefined and command-line macros.
      [MacroExpanderSafety], [MacroExpanderSpec], [PPExprSpec], [PreprocessorSafety], [PPGuard]
      hold the theorems.
    - Types and constants (Syntax/, Parser/Helpers/, AST/).  [TargetLayout]: target_layout.c.
      [LiteralUtils]: literal_utils.c.  [AST]: the tree and the types as data; children are part
      of a node, nodes a type points to are addresses in a store.  [ParsedTypes]:
      parsed_type_ops.c.  [TypeInfo], [TypeChecker]: type_checker.c and
      type_checker_arithmetic.c.  [Semantic]: tag and symbol tables, scopes and diagnostics,
      the state [SemState] of the passes.  [RecordLayout] and [ConstEval]: layout.c and
      const_eval.c, which call each other; each takes the other's entry as a parameter, the
      class [LayoutCalls] says what the layout relies on, and [ConstEval.calls] ties the knot.
      [ControlFlow]: control_flow.c.  [LiteralTyping], [RecordLayoutSpec], [ConstEvalSpec],
      [ControlFlowSpec] hold the theorems.
    - Parser (Parser/, AST/ast_node.c).  A state monad [PM] over [PState]: the token buffer with
      a cursor, scopes of ordinary names, typedefs, tags, diagnostics and the store of nodes
      ([ParserState]).  The functions call each other in circles; [ParserCalls] is the class of
      the ones that others call, and [ParserMain.parser_calls] ties the knot.  [AstBuild]: the
      constructors of nodes; [ParserAttributes]: parser_attributes.c; [ParserTypes]:
      parsed_type.c; [ParserDeclarators]: parser_declarator_core.c and parseArraySize;
      [ParserInitializers]: the rest of parser_array.c; [ParserExpr]: the Pratt parser, its type
      forms and parser_lookahead.c; [ParserFunc], [ParserDecl], [ParserStmt], [ParserMain]:
      parser_func.c, parser_decl.c with parser_decl_typedef.c, parser_stmt.c with
      parser_switch.c, parser_main.c.  [ParserGrammar] is the grammar of expressions as an
      inductive relation, [ParserSpec] a logic of runs that move over tokens,
      [ParserComplete] holds the theorems, [ParserSamples] sample sources.
    - Units (Extensions/Units/).  [UnitsDim]: dimension vectors of [int8_t]; [UnitsRegistry]:
      the unit table, its audit and conversion in [SpecFloat] doubles; [UnitsParser]: dimension
      expressions and their printed form.  [UnitsTables]: the result and annotation tables of
      units_attachment.c and units_registry.c over node addresses; [UnitsDiag]: the messages;
      [UnitsMath]: the effects of the calls to libm; [UnitsExpr]: the walk over the tree of
      units_expr_semantics.c and its siblings (declarations, calls, initializers, returns,
      conversions) and the hook [fisics_extension_run_semantic_scaffold].  [UnitsTyping],
      [UnitsScale] and [UnitsSoundness] hold the theorems, [UnitsSamples] sample programs.
    - Memory checker (src/runtime/memory_check/).  [Memcheck]: the run-time functions on the slot
      table, counters, messages and calls of libc; [MemcheckTable]: open addressing;
      [MemcheckSpec]: refinement of a ledger; [MemcheckSafety], [MemcheckJson]: legality of the
      libc calls, the leak report and its JSON.

    [Prelude] has machine integers, the hint database [fisics] and lemmas on lists; [CType] the
    character functions; [StateError] the monad [ST] of stateful code: no result ([None]) when
    fuel ends or undefined behaviour is reached, [Some (None, _)] for a C failure.

    ** What is proved

    - Every part returns: the lexer and the filled buffer (C25, C26), the [#if] evaluator (C6),
      the token driver ([preprocess_tokens_terminates]), macro expansion (C30), the whole
      preprocessor in strict mode (C35), the control-flow analysis (C40).
    - Tables refine what they stand for: macro table and map (C1, C2, C5), expansion stack
      (C3), include stack and list of frames (C34), memory checker and ledger (C17).
    - Results are those of C, on the inputs where the code follows it: positions and line numbers
      (C21, C22), where tokens start (C25), UTF-8 (C23), identifiers and keywords (C24), operators,
      numbers and character constants (C27 to C29), [#if] values (C7: no conversions at [?:]), what
      is copied and which group is selected (C8 to C10), arguments, argument counts and object-like
      macros against the hide-set algorithm (C31 to C33), guard skipping (C36), types of integer
      constants (C37), integer constant expressions (C38: [agrees]), struct layout (C39), no run off
      the end of a function that is accepted (C40).
    - The Pratt parser reads every expression of a grammar of C expressions without type names and
      returns its tree (C11).
    - Units: laws of dimensions (C12), lookup and conversion (C13, C14), print and parse (C15).
      The hook keeps its tables well formed: a result it marks resolved carries a real
      dimension and a unit of that dimension (C4).  What it says about an arithmetic expression
      is sound: when the base units are rescaled, the real value of an expression whose conditions
      have results too scales by the power its dimension names (C16).
    - Memory checker: only legal libc calls, [realloc] to size 0 apart (C18), what the leak report
      lists (C19), JSON (C20).

    The [Example]s next to the theorems show where a hypothesis is needed, and what the code does
    on inputs where it departs from C.

    ** Fuel

    Recursion that is not structural has fuel, and a theorem or lemma says how much is enough:
    the length of the text for the lexer's loops and the dimension parser, the tokens left for
    the evaluator and the driver, a rank on macros not being expanded for the expander, the
    room on the include stack (its limit) for nested files, the number of symbols for chains of
    typedefs ([type_info_enough], when a chain ends at all), [node_height] for the control-flow
    analysis ([check_returns]).  [UnitsSoundness.walk_ends] shows that the walk of the units
    ends on every arithmetic expression; the budgets 17 and 65 of its helpers are the depth
    limits of the code.  The knot of [ConstEval.calls] and comparing function pointers take any
    fuel; their theorems hold at every one.  [parser_calls n d] has [n] rounds for each loop and
    [d] levels of nesting; the number of tokens is enough for both on expressions (C11).

    ** Not modelled

    - Allocation failure, unless a struct keeps a flag for it; profiling and debug output.
    - Files, processes and the clock: included files are a function from paths to texts; the
      include resolver's search, its caches and the external preprocessor are left out.
    - [strtold], [analyzeExpression] and [evalOffsetofFieldPath] are parameters of constant
      evaluation; bit-field descriptors of accesses are not kept in [TypeInfo].
    - The recursive-descent mode of parser_expr.c, which nothing selects, and the functions of
      the parser that nothing calls; the printed form of types.
    - The passes over declarations and expressions, goto checks, physical
      semantics, metadata, the coverage reports of the units, project graphs and their writers.
      Code generation only calls the LLVM C API, which is not part of the repository.
    - The soundness of units (C16) is about real numbers and arithmetic expressions: rounding,
      assignments, [++], [--], accesses and conversions to integers are outside of it, and
      [UnitsSamples] shows what the pass accepts there. *)
From Stdlib Require Export ZArith Lia Ascii String.
From stdpp Require Export base tactics list strings gmap option.
Export list_basics.list list_relations.list list_monad.list list_misc.list.
#[global] Open Scope Z_scope.

Declare Scope fisics_scope.
Delimit Scope fisics_scope with fisics.
#[global] Open Scope fisics_scope.

(** ** Machine integers: [w]-bit values kept as [Z], wrap-around written out. *)

Definition wrapU (w z : Z) : Z := z `mod` 2 ^ w.
Definition wrapS (w z : Z) : Z := (z + 2 ^ (w - 1)) `mod` 2 ^ w - 2 ^ (w - 1).
Definition inU (w z : Z) : bool := (0 <=? z) && (z <? 2 ^ w).
Definition inS (w z : Z) : bool := (- 2 ^ (w - 1) <=? z) && (z <? 2 ^ (w - 1)).

(** Width-specific abbreviations, named after the C types. *)
Abbreviation u64 := (wrapU 64).
Abbreviation i64 := (wrapS 64).
Abbreviation u32 := (wrapU 32).
Abbreviation i32 := (wrapS 32).

Create HintDb fisics.

Lemma pow2_split (w : Z) : 0 < w -> 2 ^ w = 2 * 2 ^ (w - 1).
Proof. intros Hw. rewrite <- Z.pow_succ_r by lia. f_equal. lia. Qed.

Lemma pow2_pos (w : Z) : 0 <= w -> 0 < 2 ^ w.
Proof. intros. apply Z.pow_pos_nonneg; lia. Qed.

Lemma wrapU_range (w z : Z) : 0 <= w -> 0 <= wrapU w z < 2 ^ w.
Proof. intros. apply Z.mod_pos_bound, pow2_pos; lia. Qed.

Lemma wrapS_range (w z : Z) : 0 < w -> - 2 ^ (w - 1) <= wrapS w z < 2 ^ (w - 1).
Proof.
  intros Hw. unfold wrapS.
  pose proof (Z.mod_pos_bound (z + 2 ^ (w - 1)) (2 ^ w) ltac:(apply pow2_pos; lia)).
  pose proof (pow2_split w Hw). lia.
Qed.

Lemma wrapU_small (w z : Z) : 0 <= z < 2 ^ w -> wrapU w z = z.
Proof. intros. apply Z.mod_small. lia. Qed.

Lemma wrapS_small (w z : Z) : 0 < w -> - 2 ^ (w - 1) <= z < 2 ^ (w - 1) -> wrapS w z = z.
Proof.
  intros Hw Hz. unfold wrapS. pose proof (pow2_split w Hw).
  rewrite Z.mod_small; lia.
Qed.

Lemma wrapU_wrapS (w z : Z) : 0 < w -> wrapU w (wrapS w z) = wrapU w z.
Proof.
  intros Hw. unfold wrapU, wrapS. pose proof (pow2_pos w ltac:(lia)).
  rewrite Zminus_mod, Zmod_mod, <- Zminus_mod. f_equal. lia.
Qed.

Lemma wrapS_wrapU (w z : Z) : 0 < w -> wrapS w (wrapU w z) = wrapS w z.
Proof.
  intros Hw. unfold wrapU, wrapS. pose proof (pow2_pos w ltac:(lia)).
  f_equal. rewrite Zplus_mod, Zmod_mod, <- Zplus_mod. reflexivity.
Qed.

Lemma inS_spec (w z : Z) : inS w z = true <-> - 2 ^ (w - 1) <= z < 2 ^ (w - 1).
Proof. unfold inS. rewrite andb_true_iff, Z.leb_le, Z.ltb_lt. lia. Qed.

Lemma inU_spec (w z : Z) : inU w z = true <-> 0 <= z < 2 ^ w.
Proof. unfold inU. rewrite andb_true_iff, Z.leb_le, Z.ltb_lt. lia. Qed.

(** ** Growable arrays: the capacity a [realloc]-doubling array has after a push. *)

Definition grow_capacity (initial count capacity : nat) : nat :=
  if decide (count < capacity)%nat then capacity
  else if decide (capacity = 0)%nat then initial else (capacity * 2)%nat.

Lemma grow_capacity_room (initial count capacity : nat) :
  (0 < initial)%nat -> (count <= capacity)%nat ->
  (count < grow_capacity initial count capacity)%nat.
Proof. intros. unfold grow_capacity. repeat case_decide; lia. Qed.

Lemma grow_capacity_ge (initial count capacity : nat) :
  (capacity <= grow_capacity initial count capacity)%nat.
Proof. unfold grow_capacity. repeat case_decide; lia. Qed.

(** ** Removal by moving the last element into the hole. *)

Definition swap_remove {A} (i : nat) (l : list A) : list A :=
  let n := pred (length l) in
  take n (match l !! n with Some x => <[i := x]> l | None => l end).

Lemma length_swap_remove {A} (i : nat) (l : list A) :
  (i < length l)%nat -> length (swap_remove i l) = pred (length l).
Proof.
  intros Hi. unfold swap_remove. destruct (l !! _) eqn:E.
  - rewrite length_take, length_insert. lia.
  - rewrite length_take. lia.
Qed.

Lemma swap_remove_perm {A} (i : nat) (l : list A) (x : A) :
  l !! i = Some x -> l ≡ₚ x :: swap_remove i l.
Proof.
  intros Hi. pose proof (lookup_lt_Some _ _ _ Hi) as Hlt.
  destruct (exists_last (l := l)) as [l' [y ->]]; [destruct l; simpl in *; [lia|done]|].
  unfold swap_remove. rewrite length_app in *. simpl in *.
  replace (pred (length l' + 1)) with (length l') by lia.
  rewrite lookup_app_r, Nat.sub_diag by lia. simpl.
  destruct (decide (i = length l')) as [->|Hne].
  - rewrite lookup_app_r, Nat.sub_diag in Hi by lia. simpl in Hi. simplify_eq.
    rewrite insert_app_r_alt, Nat.sub_diag by lia. simpl.
    rewrite take_app_length. symmetry. apply Permutation_cons_append.
  - rewrite lookup_app_l in Hi by lia.
    rewrite insert_app_l by lia.
    rewrite take_app_length' by (rewrite length_insert; lia).
    rewrite <- (take_drop_middle l' i x Hi) at 1.
    rewrite insert_take_drop by lia.
    rewrite <- !app_assoc. simpl. solve_Permutation.
Qed.

Lemma alter_insert_same {A} (f : A -> A) (i : nat) (l : list A) (x : A) :
  alter f i (<[i := x]> l) = <[i := f x]> l.
Proof.
  revert i. induction l as [|y l IH]; intros [|i]; simpl; [done..|].
  f_equal. apply IH.
Qed.

Lemma alter_snoc {A} (f : A -> A) (l : list A) (x : A) :
  alter f (length l) (l ++ [x]) = l ++ [f x].
Proof. induction l as [|y l IH]; simpl; [done|]. f_equal. apply IH. Qed.

(** ** Maximal runs: [span p l] splits [l] at the first element that fails [p]. *)

Fixpoint span {A} (p : A -> bool) (l : list A) : list A * list A :=
  match l with
  | [] => ([], [])
  | x :: l' => if p x then let '(a, b) := span p l' in (x :: a, b) else ([], l)
  end.

Lemma span_app {A} (p : A -> bool) (l : list A) : (span p l).1 ++ (span p l).2 = l.
Proof.
  induction l as [|x l IH]; simpl; [done|].
  destruct (p x); [|done]. destruct (span p l); simpl in *. by rewrite IH.
Qed.

Lemma span_all {A} (p : A -> bool) (l : list A) : Forall (fun x => p x = true) (span p l).1.
Proof.
  induction l as [|x l IH]; simpl; [constructor|].
  destruct (p x) eqn:E; [|constructor]. destruct (span p l). by constructor.
Qed.

Lemma span_stop {A} (p : A -> bool) (a b : list A) :
  Forall (fun x => p x = true) a -> (forall y, head b = Some y -> p y = false) ->
  span p (a ++ b) = (a, b).
Proof.
  intros Ha Hb. induction Ha as [|x a Hx _ IH]; simpl.
  - destruct b as [|y b]; [done|]. simpl. by rewrite (Hb y eq_refl).
  - by rewrite Hx, IH.
Qed.

Lemma filter_list_fmap {A B} (f : A -> B) (p : B -> bool) (l : list A) :
  filter (fun y => p y = true) (f <$> l) = f <$> filter (fun x => p (f x) = true) l.
Proof.
  induction l as [|x l IH]; [done|]. cbn [fmap list_fmap]. rewrite !filter_cons.
  destruct (decide _); cbn [fmap list_fmap]; by rewrite IH.
Qed.

(** ** How many elements satisfy a test; a list updated at one index. *)

Definition count_if {A} (f : A -> bool) (l : list A) : nat := length (filter (fun x => f x = true) l).

Lemma count_if_cons {A} (f : A -> bool) (x : A) (l : list A) :
  count_if f (x :: l) = ((if f x then 1 else 0) + count_if f l)%nat.
Proof. unfold count_if. rewrite filter_cons. by destruct (f x). Qed.

Lemma count_if_app {A} (f : A -> bool) (l k : list A) :
  count_if f (l ++ k) = (count_if f l + count_if f k)%nat.
Proof. unfold count_if. by rewrite filter_app, length_app. Qed.

Lemma count_if_perm {A} (f : A -> bool) (l k : list A) : l ≡ₚ k -> count_if f l = count_if f k.
Proof. unfold count_if. by intros ->. Qed.

Lemma count_if_pos {A} (f : A -> bool) (l : list A) (x : A) : x ∈ l -> f x = true -> (0 < count_if f l)%nat.
Proof.
  intros Hx Hf. unfold count_if. assert (x ∈ filter (fun x => f x = true) l) as H by by apply list_elem_of_filter.
  destruct (filter _ l); [by apply not_elem_of_nil in H|simpl; lia].
Qed.

Lemma count_if_exists {A} (f : A -> bool) (l : list A) :
  (0 < count_if f l)%nat -> exists x, x ∈ l /\ f x = true.
Proof.
  unfold count_if. destruct (filter _ l) as [|x k] eqn:E; simpl; [lia|]. intros _. exists x.
  assert (x ∈ filter (fun x => f x = true) l) as [? ?]%list_elem_of_filter by (rewrite E; by left). done.
Qed.

(** The rest of the list is the same whatever is written at the index. *)
Lemma update_perm {A} (l : list A) (i : nat) (x : A) :
  l !! i = Some x -> exists rest, l ≡ₚ x :: rest /\ forall y, <[i := y]> l ≡ₚ y :: rest.
Proof.
  intros Hi. exists (take i l ++ drop (S i) l). split.
  - rewrite <- (take_drop_middle l i x Hi) at 1. symmetry. apply Permutation_middle.
  - intros y. rewrite insert_take_drop by (by eapply lookup_lt_Some). symmetry. apply Permutation_middle.
Qed.

Lemma count_if_insert {A} (f : A -> bool) (l : list A) (j : nat) (x y : A) :
  l !! j = Some x ->
  (count_if f (<[j := y]> l) + (if f x then 1 else 0) = count_if f l + (if f y then 1 else 0))%nat.
Proof.
  intros (rest & H1 & H2)%update_perm. rewrite (count_if_perm _ _ _ H1), (count_if_perm _ _ _ (H2 y)), !count_if_cons.
  lia.
Qed.

(** ** A non-negative number in decimal, as [printf] writes it ([fuel] digits at most). *)

Fixpoint decimal_digits (fuel : nat) (n : Z) : list ascii :=
  match fuel with
  | O => []
  | S fuel' => (if n <? 10 then [] else decimal_digits fuel' (n / 10)) ++
               [ascii_of_N (Z.to_N (48 + n mod 10))]
  end.

#[global] Arguments decimal_digits : simpl never.

(** [snprintf ("%d")]. *)
Definition int_text (n : Z) : string :=
  string_of_list_ascii ((if n <? 0 then ["-"%char] else []) ++ decimal_digits 20 (Z.abs n)).

#[export] Hint Resolve grow_capacity_room grow_capacity_ge : fisics.
Create Rewrite HintDb fisics_len.
#[export] Hint Rewrite @length_app @length_take @length_insert : fisics_len.

(** Equalities between regrouped concatenations, and their lengths. *)
Ltac app_eq := repeat (progress (simpl; rewrite <- ?app_assoc)); simpl; first [done | congruence].
Ltac len_eq := repeat (progress (simpl; rewrite ?length_app)); simpl; lia.

(** Case analysis on every boolean or option the goal matches on. *)
Ltac case_all := repeat (case_match; simplify_eq/=; try done).
