(* ===== verification/StateError.v ===== *)
(** * Stateful code that may fail: a small monad.

    [ST S A]: from a state, no result at all ([None]: the fuel of a recursion ended, or
    freed memory was read), a C [false] ([Some (None, _)]) or a value, with the new state. *)
From S2P Require Import Prelude.

Definition ST (S A : Type) : Type := S -> option (option A * S).

Section ST.
Context {S : Type}.

Definition ret {A} (a : A) : ST S A := fun s => Some (Some a, s).
Definition fail {A} : ST S A := fun s => Some (None, s).
Definition stuck {A} : ST S A := fun _ => None.

Definition bind {A B} (m : ST S A) (k : A -> ST S B) : ST S B := fun s =>
  match m s with
  | None => None
  | Some (None, s) => Some (None, s)
  | Some (Some a, s) => k a s
  end.

(** [ok = m ()]: the failure as a value. *)
Definition attempt {A} (m : ST S A) : ST S (option A) := fun s =>
  match m s with None => None | Some (r, s) => Some (Some r, s) end.

Definition get : ST S S := fun s => Some (Some s, s).
Definition put (s : S) : ST S unit := fun _ => Some (Some tt, s).
Definition modify (f : S -> S) : ST S unit := fun s => Some (Some tt, f s).
Definition lift {A} (o : option A) : ST S A := match o with Some a => ret a | None => stuck end.

(** [for (x : l) a = f (a, x)]. *)
Fixpoint for_each {A B} (f : A -> B -> ST S A) (a : A) (l : list B) : ST S A :=
  match l with
  | [] => ret a
  | x :: rest => bind (f a x) (fun a => for_each f a rest)
  end.
End ST.

Notation "'let*' x := m 'in' k" := (bind m (fun x => k))
  (at level 10, x name, m at level 100, k at level 200) : fisics_scope.
Notation "'let*' ' p := m 'in' k" := (bind m (fun x => match x with p => k end))
  (at level 10, p pattern, m at level 100, k at level 200) : fisics_scope.

(** What a run of [m >>= k] went through. *)
Lemma bind_inv {S A B} (m : ST S A) (k : A -> ST S B) (s s' : S) (r : option B) :
  bind m k s = Some (r, s') ->
  (m s = Some (None, s') /\ r = None) \/ (exists a s1, m s = Some (Some a, s1) /\ k a s1 = Some (r, s')).
Proof.
  unfold bind. destruct (m s) as [[[a|] s1]|]; [|intros [= <- <-]; by left|done].
  intros H. right. by exists a, s1.
Qed.

Lemma bind_some {S A B} (m : ST S A) (k : A -> ST S B) (s s' : S) (b : B) :
  bind m k s = Some (Some b, s') -> exists a s1, m s = Some (Some a, s1) /\ k a s1 = Some (Some b, s').
Proof. intros [[_ ?]|H]%bind_inv; done. Qed.

Lemma lift_some {S A} (o : option A) (a : A) (s s' : S) :
  lift o s = Some (Some a, s') -> o = Some a /\ s' = s.
Proof. destruct o; [|done]. by intros [= <- <-]. Qed.

(** What holds of the elements passed so far, the accumulator and the state holds at the end. *)
Lemma for_each_ind {S A B} (f : A -> B -> ST S A) (Q : B -> Prop) (P : list B -> A -> S -> Prop) (l pre : list B)
    (a a' : A) (s s' : S) :
  (forall pre a x s a' s', Q x -> P pre a s -> f a x s = Some (Some a', s') -> P (pre ++ [x]) a' s') ->
  Forall Q l -> P pre a s -> for_each f a l s = Some (Some a', s') -> P (pre ++ l) a' s'.
Proof.
  intros Hstep. revert pre a s. induction l as [|x l IH]; intros pre a s Hall Hp; cbn [for_each].
  - intros [= <- <-]. by rewrite app_nil_r.
  - intros (a1 & s1 & Hf & Hrest)%bind_some. apply Forall_cons in Hall as [Hx Hall].
    rewrite cons_middle, app_assoc. apply (IH (pre ++ [x]) a1 s1); [done| |done]. by apply (Hstep pre a x s).
Qed.

(** ** Parts of the state that stay as they are *)

Definition preserves {S T A} (f : S -> T) (m : ST S A) : Prop := forall s r s', m s = Some (r, s') -> f s' = f s.

Section Preserves.
Context {S T : Type} (f : S -> T).

Lemma preserves_ret {A} (a : A) : preserves f (ret a).
Proof. by intros s r s' [= <- <-]. Qed.
Lemma preserves_fail {A} : preserves f (fail (A := A)).
Proof. by intros s r s' [= <- <-]. Qed.
Lemma preserves_stuck {A} : preserves f (stuck (A := A)).
Proof. done. Qed.
Lemma preserves_get : preserves f get.
Proof. by intros s r s' [= <- <-]. Qed.
Lemma preserves_modify (g : S -> S) : (forall s, f (g s) = f s) -> preserves f (modify g).
Proof. by intros Hg s r s' [= <- <-]. Qed.
Lemma preserves_lift {A} (o : option A) : preserves f (lift o).
Proof. destruct o; [apply preserves_ret|apply preserves_stuck]. Qed.
Lemma preserves_bind {A B} (m : ST S A) (k : A -> ST S B) :
  preserves f m -> (forall a, preserves f (k a)) -> preserves f (bind m k).
Proof.
  intros Hm Hk s r s' [[H ->]|(a & s1 & H & H')]%bind_inv; [by apply (Hm _ _ _ H)|].
  by rewrite (Hk a _ _ _ H'), (Hm _ _ _ H).
Qed.
Lemma preserves_attempt {A} (m : ST S A) : preserves f m -> preserves f (attempt m).
Proof. intros Hm s r s'. unfold attempt. destruct (m s) as [[r1 s1]|] eqn:E; [|done]. intros [= <- <-]. by apply (Hm _ _ _ E). Qed.
Lemma preserves_for_each {A B} (g : A -> B -> ST S A) (a : A) (l : list B) :
  (forall a x, preserves f (g a x)) -> preserves f (for_each g a l).
Proof. intros Hg. revert a. induction l as [|x l IH]; intros a; [apply preserves_ret|]. by apply preserves_bind. Qed.
(** Behind [get], a [put] is read off the state it changes. *)
Lemma preserves_get_bind {A} (k : S -> ST S A) :
  (forall s r s', k s s = Some (r, s') -> f s' = f s) -> preserves f (bind get k).
Proof. intros H s r s' Hr. by apply (H s r). Qed.
Lemma preserves_put_bind {A} (s0 s s' : S) (k : unit -> ST S A) (r : option A) :
  f s0 = f s -> preserves f (k tt) -> bind (put s0) k s = Some (r, s') -> f s' = f s.
Proof. intros <- Hk H. by apply (Hk _ r). Qed.
End Preserves.

#[export] Hint Resolve preserves_ret preserves_fail preserves_stuck preserves_get preserves_lift preserves_bind
  preserves_attempt preserves_for_each : fisics.

(** ** Invariants of the state

    [triple I m Q]: from a state in [I], [m] ends in one; a value it returns satisfies [Q]. *)

Definition triple {S A} (I : S -> Prop) (m : ST S A) (Q : A -> Prop) : Prop :=
  forall s r s', I s -> m s = Some (r, s') -> I s' /\ (forall a, r = Some a -> Q a).

Section Triples.
Context {S : Type} (I : S -> Prop).

Lemma triple_ret {A} (a : A) (Q : A -> Prop) : Q a -> triple I (ret a) Q.
Proof. intros Ha s r s' Hs [= <- <-]. split; [done|]. by intros ? [= <-]. Qed.
Lemma triple_fail {A} (Q : A -> Prop) : triple I fail Q.
Proof. by intros s r s' Hs [= <- <-]. Qed.
Lemma triple_stuck {A} (Q : A -> Prop) : triple I stuck Q.
Proof. done. Qed.
Lemma triple_get : triple I get I.
Proof. intros s r s' Hs [= <- <-]. split; [done|]. by intros ? [= <-]. Qed.
Lemma triple_modify (f : S -> S) : (forall s, I s -> I (f s)) -> triple I (modify f) (fun _ => True).
Proof. intros Hf s r s' Hs [= <- <-]. by split; [apply Hf|]. Qed.
Lemma triple_lift {A} (o : option A) (Q : A -> Prop) : (forall a, o = Some a -> Q a) -> triple I (lift o) Q.
Proof. destruct o as [a|]; intros H; [|apply triple_stuck]. by apply triple_ret, H. Qed.
Lemma triple_mono {A} (m : ST S A) (P Q : A -> Prop) : triple I m P -> (forall a, P a -> Q a) -> triple I m Q.
Proof. intros Hm HPQ s r s' Hs Hr. destruct (Hm s r s' Hs Hr) as [Hs' HP]. split; [done|]. eauto. Qed.
Lemma triple_any {A} (m : ST S A) (P : A -> Prop) : triple I m P -> triple I m (fun _ => True).
Proof. intros H. by apply (triple_mono _ _ _ H). Qed.
Lemma triple_bind {A B} (m : ST S A) (k : A -> ST S B) (P : A -> Prop) (Q : B -> Prop) :
  triple I m P -> (forall a, P a -> triple I (k a) Q) -> triple I (bind m k) Q.
Proof.
  intros Hm Hk s r s' Hs [[H ->]|(a & s1 & H & H')]%bind_inv.
  - destruct (Hm _ _ _ Hs H) as [? _]. by split.
  - destruct (Hm _ _ _ Hs H) as [Hs1 HP]. by apply (Hk a (HP a eq_refl) s1).
Qed.
Lemma triple_attempt {A} (m : ST S A) (Q : A -> Prop) :
  triple I m Q -> triple I (attempt m) (fun o => forall a, o = Some a -> Q a).
Proof.
  intros Hm s r s' Hs. unfold attempt. destruct (m s) as [[r1 s1]|] eqn:E; [|done]. intros [= <- <-].
  destruct (Hm s r1 s1 Hs E) as [? HQ]. split; [done|]. by intros ? [= <-].
Qed.
Lemma triple_for_each {A B} (f : A -> B -> ST S A) (a : A) (l : list B) (Q : A -> Prop) :
  (forall a x, Q a -> triple I (f a x) Q) -> Q a -> triple I (for_each f a l) Q.
Proof.
  intros Hf. revert a. induction l as [|x l IH]; intros a Ha; cbn [for_each]; [by apply triple_ret|].
  apply (triple_bind _ _ Q); [by apply Hf|]. intros a' Ha'. by apply IH.
Qed.
End Triples.

(** ** Running to a result

    [runs inv s m Q]: with enough fuel [m] runs from [s] to a result that no more fuel
    changes, to a state related to [s] by [inv]; a value satisfies [Q]. *)

Section Runs.
Context {S : Type} (inv : S -> S -> Prop) `{!PreOrder inv}.

Definition runs {A} (s : S) (m : nat -> ST S A) (Q : A -> Prop) : Prop :=
  exists fuel r s', (forall fuel', (fuel <= fuel')%nat -> m fuel' s = Some (r, s')) /\
    inv s s' /\ (forall a, r = Some a -> Q a).

Lemma runs_ret {A} (s : S) (a : A) (Q : A -> Prop) : Q a -> runs s (fun _ => ret a) Q.
Proof. intros Ha. exists 0%nat, (Some a), s. split_and!; [done|done|by intros ? [= <-]]. Qed.

Lemma runs_fail {A} (s : S) (Q : A -> Prop) : runs s (fun _ => fail) Q.
Proof. exists 0%nat, None, s. by split_and!. Qed.

Lemma runs_mono {A} (s : S) (m : nat -> ST S A) (P Q : A -> Prop) :
  runs s m P -> (forall a, P a -> Q a) -> runs s m Q.
Proof. intros (f & r & s' & H & Hk & HP) HPQ. exists f, r, s'. split_and!; eauto. Qed.

Lemma runs_bind {A B} (s : S) (m : nat -> ST S A) (k : nat -> A -> ST S B) (P : A -> Prop) (Q : B -> Prop) :
  runs s m P -> (forall s' a, inv s s' -> P a -> runs s' (fun n => k n a) Q) ->
  runs s (fun n => bind (m n) (k n)) Q.
Proof.
  intros (f1 & [a|] & s1 & H1 & Hk1 & HP) Hk.
  - destruct (Hk s1 a Hk1 (HP a eq_refl)) as (f2 & r & s2 & H2 & Hk2 & HQ).
    exists (f1 `max` f2)%nat, r, s2. split_and!; [|by etrans|done].
    intros f Hf. unfold bind. rewrite H1 by lia. apply H2. lia.
  - exists f1, None, s1. split_and!; [|done|done]. intros f Hf. unfold bind. by rewrite H1.
Qed.

(** An operation whose result is known. *)
Lemma runs_bind_eq {A B} (s s' : S) (m : ST S A) (k : nat -> A -> ST S B) (a : A) (Q : B -> Prop) :
  m s = Some (Some a, s') -> inv s s' -> runs s' (fun n => k n a) Q -> runs s (fun n => bind m (k n)) Q.
Proof.
  intros Hm Hi (f & r & s2 & H & Hk & HQ). exists f, r, s2. split_and!; [|by etrans|done].
  intros f' Hf. unfold bind. rewrite Hm. by apply H.
Qed.

Lemma runs_attempt {A} (s : S) (m : nat -> ST S A) (P : A -> Prop) :
  runs s m P -> runs s (fun n => attempt (m n)) (fun o => forall a, o = Some a -> P a).
Proof.
  intros (f & r & s' & H & Hk & HP). exists f, (Some r), s'. split_and!; [|done|by intros ? [= <-]].
  intros f' Hf. unfold attempt. by rewrite H.
Qed.

Lemma runs_get {A} (s : S) (k : nat -> S -> ST S A) (Q : A -> Prop) :
  runs s (fun n => k n s) Q -> runs s (fun n => bind get (k n)) Q.
Proof. done. Qed.

Lemma runs_modify (s : S) (g : S -> S) (Q : unit -> Prop) : inv s (g s) -> Q tt -> runs s (fun _ => modify g) Q.
Proof. intros Hg HQ. exists 0%nat, (Some tt), (g s). split_and!; [done|done|by intros [] _]. Qed.

Lemma runs_put (s s' : S) (Q : unit -> Prop) : inv s s' -> Q tt -> runs s (fun _ => put s') Q.
Proof. intros. by apply (runs_modify s (fun _ => s')). Qed.

Lemma runs_lift {A} (s : S) (o : option A) (a : A) (Q : A -> Prop) : o = Some a -> Q a -> runs s (fun _ => lift o) Q.
Proof. intros -> Ha. by apply runs_ret. Qed.
End Runs.

(** [f n] is the same, and [ok], from some [n] on. *)
Definition settles {A} (f : nat -> A) (ok : A -> Prop) : Prop :=
  exists n a, (forall n', (n <= n')%nat -> f n' = a) /\ ok a.

Lemma settles_const {A} (a : A) (ok : A -> Prop) : ok a -> settles (fun _ => a) ok.
Proof. intros Ha. by exists 0%nat, a. Qed.

Lemma settles_mono {A} (f : nat -> A) (P Q : A -> Prop) : settles f P -> (forall a, P a -> Q a) -> settles f Q.
Proof. intros (n & a & H & Ha) HPQ. exists n, a. auto. Qed.

Lemma settles_bind {A B} (f : nat -> A) (g : nat -> A -> B) (P : A -> Prop) (Q : B -> Prop) :
  settles f P -> (forall a, P a -> settles (fun n => g n a) Q) -> settles (fun n => g n (f n)) Q.
Proof.
  intros (n1 & a & H1 & Ha) Hg. destruct (Hg a Ha) as (n2 & b & H2 & Hb).
  exists (n1 `max` n2)%nat, b. split; [|done]. intros n Hn. rewrite H1 by lia. apply H2. lia.
Qed.

(** A result that is an error in [G] or a value in [Q]. *)
Definition res_ok {E A} (G : E -> Prop) (Q : A -> Prop) (r : E + A) : Prop :=
  match r with inl e => G e | inr a => Q a end.
