(* ===== verification/CType.v ===== *)
(** * The character functions of the C locale, on bytes.

    [chr] is the byte's value as an [unsigned char]; the predicates are those of
    <ctype.h> for the C locale, false on every byte from 128 up. *)
From S2P Require Import Prelude.

Definition chr (c : ascii) : Z := Z.of_N (N_of_ascii c).

Definition NUL : ascii := ascii_of_N 0.

Definition is_digit (c : ascii) : bool := (48 <=? chr c) && (chr c <=? 57).
Definition is_upper (c : ascii) : bool := (65 <=? chr c) && (chr c <=? 90).
Definition is_lower (c : ascii) : bool := (97 <=? chr c) && (chr c <=? 122).
Definition is_alpha (c : ascii) : bool := is_upper c || is_lower c.
Definition is_alnum (c : ascii) : bool := is_alpha c || is_digit c.
Definition is_space (c : ascii) : bool := (chr c =? 32) || ((9 <=? chr c) && (chr c <=? 13)).
Definition is_xdigit (c : ascii) : bool :=
  is_digit c || ((97 <=? chr c) && (chr c <=? 102)) || ((65 <=? chr c) && (chr c <=? 70)).
Definition is_print (c : ascii) : bool := (32 <=? chr c) && (chr c <=? 126).

(** The value of a digit in bases up to 36; 99 for other characters. *)
Definition digit_value (c : ascii) : Z :=
  if is_digit c then chr c - 48
  else if is_lower c then chr c - 87
  else if is_upper c then chr c - 55
  else 99.

Definition in_base (base : Z) (c : ascii) : bool := digit_value c <? base.

Definition digits_value (base : Z) (ds : list ascii) : Z :=
  foldl (fun acc c => acc * base + digit_value c) 0 ds.

Lemma chr_range (c : ascii) : 0 <= chr c < 256.
Proof. unfold chr. pose proof (N_ascii_bounded c). lia. Qed.

Lemma chr_inj (a b : ascii) : chr a = chr b -> a = b.
Proof.
  unfold chr. intros H. rewrite <- (ascii_N_embedding a), <- (ascii_N_embedding b).
  f_equal. lia.
Qed.

Lemma chr_ascii (n : Z) : 0 <= n < 256 -> chr (ascii_of_N (Z.to_N n)) = n.
Proof. intros H. unfold chr. rewrite N_ascii_embedding by lia. lia. Qed.

(** Comparing bytes is comparing their values. *)
Lemma ascii_eqb_chr (a b : ascii) : Ascii.eqb a b = (chr a =? chr b).
Proof.
  destruct (Ascii.eqb_spec a b) as [->|Hne]; [by rewrite Z.eqb_refl|].
  symmetry. apply Z.eqb_neq. intros H. by apply Hne, chr_inj.
Qed.

Ltac ctype := unfold is_xdigit, is_alnum, is_alpha, is_upper, is_lower, is_digit, is_space, is_print in *.

(** ** Characters and C strings *)

Notation "a =c b" := (Ascii.eqb a b) (at level 70, no associativity) : fisics_scope.

Definition NEWLINE : ascii := ascii_of_N 10.
Definition RETURN : ascii := ascii_of_N 13.
Definition TAB : ascii := ascii_of_N 9.
Definition DQUOTE : ascii := ascii_of_N 34.
Definition QUOTE : ascii := ascii_of_N 39.
Definition BACKSLASH : ascii := ascii_of_N 92.

(** [s[k]] of a C string: [NUL] at its end.  A string is the bytes before the first [NUL]. *)
Definition at_index (s : list ascii) (k : nat) : ascii := nth k s NUL.

Definition is_blank (c : ascii) : bool := (c =c " "%char) || (c =c TAB).
Definition is_ident_char (c : ascii) : bool := is_alnum c || (c =c "_"%char).

Lemma ascii_eqb_eq (a b : ascii) : (a =c b) = true <-> a = b.
Proof. apply Ascii.eqb_eq. Qed.

Lemma at_index_lookup (s : list ascii) (k : nat) :
  at_index s k = default NUL (s !! k).
Proof. unfold at_index. revert k. induction s as [|c s IH]; intros [|k]; simpl; auto. Qed.
