(* ===== verification/LexerSource.v ===== *)
(** * Source text before tokens (src/Lexer/lexer.c): trigraphs, line splices and digraphs,
    the map from translated to physical positions, and [#line] renumbering.

    The raw text is the list of its bytes before the terminating NUL.  [int] counters of
    lines and columns are exact: a source of 2^31 bytes is out of scope. *)
From Stdlib Require Import Sorting.Sorted.
From S2P Require Import Prelude CType.

(** ** Phases 1 and 2: [translate_source] *)

Definition translate_trigraph_char (c : ascii) : option ascii :=
  if c =c "=" then Some "#"%char
  else if c =c "/" then Some BACKSLASH
  else if c =c QUOTE then Some "^"%char
  else if c =c "<" then Some "{"%char
  else if c =c ">" then Some "}"%char
  else if c =c "!" then Some "|"%char
  else if c =c "(" then Some "["%char
  else if c =c ")" then Some "]"%char
  else if c =c "-" then Some "~"%char
  else None.

(** [count] characters further in the raw text, or up to its end. *)
Fixpoint advance_raw_position (s : list ascii) (count : nat) (line column : Z)
    {struct count} : list ascii * Z * Z :=
  match count, s with
  | S count', c :: s' =>
      if c =c NEWLINE then advance_raw_position s' count' (line + 1) 1
      else advance_raw_position s' count' line (column + 1)
  | _, _ => (s, line, column)
  end.

Definition trigraph_at (enableTrigraphs : bool) (s : list ascii) : option ascii :=
  if enableTrigraphs && (at_index s 0 =c "?") && (at_index s 1 =c "?")
  then translate_trigraph_char (at_index s 2) else None.

(** What the text at a position translates to: the characters written with their column
    offsets, the number of raw characters read, whether it was a trigraph. *)
Definition translate_step (enableTrigraphs : bool) (s : list ascii)
    : list (ascii * Z) * nat * bool :=
  let a := at_index s in
  match trigraph_at enableTrigraphs s with
  | Some mapped =>
      if (mapped =c BACKSLASH) && (a 3%nat =c NEWLINE) then ([], 4%nat, true)
      else if (mapped =c BACKSLASH) && (a 3%nat =c RETURN) && (a 4%nat =c NEWLINE)
      then ([], 5%nat, true)
      else ([(mapped, 0)], 3%nat, true)
  | None =>
      if (a 0%nat =c BACKSLASH) && (a 1%nat =c NEWLINE) then ([], 2%nat, false)
      else if (a 0%nat =c BACKSLASH) && (a 1%nat =c RETURN) && (a 2%nat =c NEWLINE)
      then ([], 3%nat, false)
      else if (a 0%nat =c "%") && (a 1%nat =c ":") && (a 2%nat =c "%") && (a 3%nat =c ":")
      then ([("#"%char, 0); ("#"%char, 2)], 4%nat, false)
      else if (a 0%nat =c "%") && (a 1%nat =c ":") then ([("#"%char, 0)], 2%nat, false)
      else if (a 0%nat =c "<") && (a 1%nat =c ":") then ([("["%char, 0)], 2%nat, false)
      else if (a 0%nat =c ":") && (a 1%nat =c ">") then ([("]"%char, 0)], 2%nat, false)
      else if (a 0%nat =c "<") && (a 1%nat =c "%") then ([("{"%char, 0)], 2%nat, false)
      else if (a 0%nat =c "%") && (a 1%nat =c ">") then ([("}"%char, 0)], 2%nat, false)
      else ([(a 0%nat, 0)], 1%nat, false)
  end.

(** A written character with its physical line and column. *)
Record Written := mkWritten { w_char : ascii; w_line : Z; w_column : Z }.

Record Translation := mkTranslation {
  tr_written : list Written;
  tr_end : Z * Z;          (* the position recorded for the terminator *)
  tr_sawTrigraph : bool
}.

Fixpoint translate_loop (fuel : nat) (enableTrigraphs : bool) (s : list ascii) (line column : Z)
    : option Translation :=
  match s with
  | [] => Some (mkTranslation [] (line, column) false)
  | _ :: _ =>
      match fuel with
      | O => None
      | S fuel' =>
          let '(emitted, count, saw) := translate_step enableTrigraphs s in
          let '(s', line', column') := advance_raw_position s count line column in
          rest ← translate_loop fuel' enableTrigraphs s' line' column';
          Some (mkTranslation
                  (((fun e => mkWritten e.1 line (column + e.2)) <$> emitted) ++ tr_written rest)
                  (tr_end rest) (saw || tr_sawTrigraph rest))
      end
  end.

(** Every step reads a character: the length of the text is enough fuel. *)
Definition translate_source (source : list ascii) (enableTrigraphs : bool) : option Translation :=
  translate_loop (length source) enableTrigraphs source 1 1.

Definition tr_out (tr : Translation) : list ascii := w_char <$> tr_written tr.
Definition tr_lineMap (tr : Translation) : list Z := (w_line <$> tr_written tr) ++ [(tr_end tr).1].
Definition tr_columnMap (tr : Translation) : list Z := (w_column <$> tr_written tr) ++ [(tr_end tr).2].

(** ** [#line] directives *)

Definition skip_blanks (s : list ascii) : list ascii := (span is_blank s).2.

(** The digits of the line number; refused as soon as they exceed [INT_MAX]. *)
Fixpoint requested_line (ds : list ascii) (requested : Z) : option Z :=
  match ds with
  | [] => Some requested
  | c :: ds' =>
      let requested := requested * 10 + (chr c - 48) in
      if 2147483647 <? requested then None else requested_line ds' requested
  end.

(** The number and, when the directive names one, the file. *)
Definition lexer_parse_line_directive (line : list ascii) : option (Z * option (list ascii)) :=
  match skip_blanks line with
  | h :: p =>
      let p := skip_blanks p in
      if (h =c "#") && bool_decide (take 4 p = list_ascii_of_string "line") &&
         negb (is_ident_char (at_index p 4))
      then
        let '(ds, p) := span is_digit (skip_blanks (drop 4 p)) in
        if bool_decide (ds = []) then None
        else
          requested ← requested_line ds 0;
          if requested <=? 0 then None
          else match skip_blanks p with
               | q :: p =>
                   if q =c DQUOTE then
                     let '(file, p) := span (fun c => negb (c =c DQUOTE)) p in
                     match p with
                     | [] => None
                     | _ :: _ => Some (requested, Some file)
                     end
                   else Some (requested, None)
               | [] => Some (requested, None)
               end
      else None
  | [] => None
  end.

(** [#], blanks and a backslash at the end of the line. *)
Definition lexer_line_is_spliced_hash_directive_prefix (line : list ascii) : bool :=
  match skip_blanks line with
  | h :: p =>
      (h =c "#") &&
      match skip_blanks p with
      | b :: p => (b =c BACKSLASH) &&
                  bool_decide ((span (fun c => is_blank c || (c =c RETURN)) p).2 = [])
      | [] => false
      end
  | [] => false
  end.

Definition before_newline (s : list ascii) : list ascii * list ascii :=
  span (fun c => negb (c =c NEWLINE)) s.

(** [nextLine] is the text behind the newline, [None] at the end of the source. *)
Definition lexer_parse_spliced_line_directive (line : list ascii) (nextLine : option (list ascii))
    : option (Z * option (list ascii)) :=
  if lexer_line_is_spliced_hash_directive_prefix line then
    next ← nextLine;
    lexer_parse_line_directive ("#"%char :: (before_newline next).1)
  else None.

(** The offset and file in force. *)
Record LineState := mkLineState { ls_offset : Z; ls_file : option (list ascii) }.

Definition apply_directive (st : LineState) (nextPhysical : Z) (d : Z * option (list ascii)) : LineState :=
  mkLineState (d.1 - nextPhysical)
    match d.2 with Some (c :: f) => Some (c :: f) | _ => ls_file st end.

Definition scan_line (st : LineState) (currentLine : Z) (line : list ascii)
    (nextLine : option (list ascii)) : LineState :=
  match lexer_parse_line_directive line with
  | Some d => apply_directive st (currentLine + 1) d
  | None => match lexer_parse_spliced_line_directive line nextLine with
            | Some d => apply_directive st (currentLine + 2) d
            | None => st
            end
  end.

(** The lines before [physicalLine], from [currentLine] on. *)
Fixpoint scan_lines (fuel : nat) (p : list ascii) (currentLine physicalLine : Z) (st : LineState)
    : option LineState :=
  match p with
  | [] => Some st
  | _ :: _ =>
      if currentLine <? physicalLine then
        match fuel with
        | O => None
        | S fuel' =>
            let '(line, p) := before_newline p in
            let next := tail p in
            let st := scan_line st currentLine line
                        match p with [] => None | _ :: next => Some next end in
            scan_lines fuel' next (currentLine + 1) physicalLine st
        end
      else Some st
  end.

(** The logical line and, when a directive set it, the logical file, cut to the 4095 bytes
    of the caller's buffer. *)
Definition lexer_map_logical_location (source : list ascii) (physicalLine : Z)
    : option (Z * option (list ascii)) :=
  if physicalLine <=? 0 then Some (physicalLine, None)
  else
    st ← scan_lines (length source) source 1 physicalLine (mkLineState 0 None);
    Some (Z.max 1 (i32 (physicalLine + ls_offset st)), take 4095 <$> ls_file st).

(** ** Physical positions of translated characters *)

(** The line and column behind a prefix of the raw text. *)
Definition raw_line (prefix : list ascii) : Z :=
  1 + Z.of_nat (length (filter (fun c => (c =c NEWLINE) = true) prefix)).

Definition raw_column (prefix : list ascii) : Z :=
  1 + Z.of_nat (length (before_newline (reverse prefix)).1).

Lemma raw_line_snoc (p : list ascii) (c : ascii) :
  raw_line (p ++ [c]) = if c =c NEWLINE then raw_line p + 1 else raw_line p.
Proof.
  unfold raw_line. rewrite filter_app, filter_cons, filter_nil, length_app.
  destruct (c =c NEWLINE); simpl; lia.
Qed.

Lemma raw_column_snoc (p : list ascii) (c : ascii) :
  raw_column (p ++ [c]) = if c =c NEWLINE then 1 else raw_column p + 1.
Proof.
  unfold raw_column, before_newline. rewrite reverse_app. simpl.
  destruct (c =c NEWLINE); simpl; [done|]. destruct (span _ (reverse p)); simpl. lia.
Qed.

Lemma raw_line_run (p l : list ascii) :
  Forall (fun c => (c =c NEWLINE) = false) l -> raw_line (p ++ l) = raw_line p.
Proof.
  induction l as [|c l IH] using rev_ind; [by rewrite app_nil_r|].
  rewrite app_assoc, raw_line_snoc. intros [Hl Hc]%Forall_app.
  inversion_clear Hc as [|? ? Hc' _]. rewrite Hc'. auto.
Qed.

Lemma raw_column_run (p l : list ascii) :
  Forall (fun c => (c =c NEWLINE) = false) l ->
  raw_column (p ++ l) = raw_column p + Z.of_nat (length l).
Proof.
  induction l as [|c l IH] using rev_ind; [rewrite app_nil_r; simpl; lia|].
  rewrite app_assoc, raw_column_snoc, length_app. intros [Hl Hc]%Forall_app.
  inversion_clear Hc as [|? ? Hc' _]. rewrite Hc', IH by done. simpl. lia.
Qed.

Lemma advance_raw_spec (n : nat) (p s : list ascii) :
  advance_raw_position s n (raw_line p) (raw_column p)
  = (drop n s, raw_line (p ++ take n s), raw_column (p ++ take n s)).
Proof.
  revert p s. induction n as [|n IH]; intros p s; [by destruct s; rewrite take_0, app_nil_r|].
  destruct s as [|c s]; simpl; [by rewrite app_nil_r|].
  specialize (IH (p ++ [c]) s). rewrite raw_line_snoc, raw_column_snoc, <- app_assoc in IH.
  simpl in IH. destruct (c =c NEWLINE); exact IH.
Qed.

(** [c], the [k]-th character behind the start of a step at [s], is one the step writes. *)
Definition writes (enableTrigraphs : bool) (s : list ascii) (k : nat) (c : ascii) : Prop :=
  (c, Z.of_nat k) ∈ (translate_step enableTrigraphs s).1.1.

(** The written character [w] comes from the raw character [i]. *)
Definition comes_from (enableTrigraphs : bool) (source : list ascii) (i : nat) (w : Written) : Prop :=
  (i < length source)%nat /\
  w_line w = raw_line (take i source) /\ w_column w = raw_column (take i source) /\
  exists k, (k <= i)%nat /\ writes enableTrigraphs (drop (i - k) source) k (w_char w).

Lemma at_index_nonnul (s : list ascii) (k : nat) (c : ascii) :
  (at_index s k =c c) = true -> c <> NUL -> s !! k = Some c.
Proof.
  intros H%ascii_eqb_eq Hc. rewrite at_index_lookup in H. destruct (s !! k); simpl in *; congruence.
Qed.

Lemma translate_trigraph_NUL : translate_trigraph_char NUL = None.
Proof. reflexivity. Qed.

(** One step reads at least one character, and what it writes sits on the line it starts on. *)
Lemma translate_step_shape (tri : bool) (s : list ascii) :
  s <> [] ->
  let '(emitted, count, _) := translate_step tri s in
  (1 <= count)%nat /\
  (emitted.*2 = [] \/ emitted.*2 = [0] \/
   emitted.*2 = [0; 2] /\ (4 <= count)%nat /\ (4 <= length s)%nat /\
     Forall (fun c => (c =c NEWLINE) = false) (take 2 s)).
Proof.
  intros Hs. unfold translate_step. cbv zeta.
  repeat (case_match; simplify_eq/=); (split; [lia|]); try (by auto).
  right; right. match goal with H : _ && _ && _ && _ = true |- _ => rename H into Hd end.
  rewrite !andb_true_iff in Hd. destruct Hd as [[[E0 E1] E2] E3].
  apply at_index_nonnul in E0, E1, E2, E3; [|done..].
  pose proof (lookup_lt_Some _ _ _ E3).
  destruct s as [|c0 [|c1 s]]; simplify_eq/=. split_and!; [done|lia|lia|by repeat constructor].
Qed.

Lemma translate_loop_spec (tri : bool) (source : list ascii) (fuel : nat) (p s : list ascii) :
  source = p ++ s -> (length s <= fuel)%nat ->
  exists tr idx, translate_loop fuel tri s (raw_line p) (raw_column p) = Some tr /\
    StronglySorted lt idx /\ Forall (fun i => length p <= i)%nat idx /\
    Forall2 (comes_from tri source) idx (tr_written tr) /\
    tr_end tr = (raw_line source, raw_column source).
Proof.
  revert p s. induction fuel as [|fuel IH]; intros p s Hsrc Hlen.
  - destruct s; [|simpl in Hlen; lia]. rewrite app_nil_r in Hsrc. subst.
    eexists _, []. split_and!; [done|constructor..|done].
  - destruct s as [|c0 s0]; [rewrite app_nil_r in Hsrc; subst;
      eexists _, []; split_and!; [done|constructor..|done]|].
    cbn [translate_loop]. set (s := c0 :: s0) in *.
    pose proof (translate_step_shape tri s ltac:(done)) as Hshape.
    assert (forall c k, (c, Z.of_nat k) ∈ (translate_step tri s).1.1 -> writes tri s k c) as Hw by done.
    destruct (translate_step tri s) as [[emitted count] saw]. simpl in Hw.
    destruct Hshape as [Hcount Hem].
    rewrite advance_raw_spec.
    destruct (IH (p ++ take count s) (drop count s)) as (tr & idx & Htr & Hsort & Hge & Hall & Hend).
    { by rewrite <- app_assoc, take_drop. }
    { rewrite length_drop. lia. }
    rewrite Htr. simpl.
    assert (0 < length s)%nat as Hpos by (simpl; lia).
    rewrite length_app, length_take in Hge.
    assert (forall k, (k < length s)%nat -> drop (length p + k - k) source = s) as Hdrop.
    { intros k _. replace (length p + k - k)%nat with (length p) by lia. subst source. apply drop_app_length. }
    assert (forall k c, (k < length s)%nat -> (c, Z.of_nat k) ∈ emitted ->
      Forall (fun c => (c =c NEWLINE) = false) (take k s) ->
      comes_from tri source (length p + k) (mkWritten c (raw_line p) (raw_column p + Z.of_nat k))) as Hfrom.
    { intros k c Hk Hin Hnl. split; [subst source; rewrite length_app; lia|].
      assert (take (length p + k) source = p ++ take k s) as ->
        by (subst source; rewrite take_app_add; done).
      cbn [w_line w_column w_char].
      rewrite raw_line_run, raw_column_run by done. rewrite length_take.
      split_and!; [done|lia|]. exists k. split; [lia|]. rewrite Hdrop by done. by apply Hw. }
    assert (Forall (fun c => (c =c NEWLINE) = false) (take 0 s)) as Hnil by (rewrite take_0; constructor).
    destruct Hem as [Hem|[Hem|(Hem & Hc4 & Hs4 & Hnl)]].
    + apply fmap_nil_inv in Hem as ->. eexists _, idx. split_and!; [done|done| |done|done].
      eapply Forall_impl; [exact Hge|]. simpl. lia.
    + destruct emitted as [|[c k] [|? ?]]; simplify_eq/=.
      eexists _, (length p + 0 :: idx)%nat. split_and!; [done| | | |done].
      * constructor; [done|]. eapply Forall_impl; [exact Hge|]. simpl. lia.
      * constructor; [lia|]. eapply Forall_impl; [exact Hge|]. simpl. lia.
      * constructor; [apply (Hfrom 0%nat); [done|by left|done]|done].
    + destruct emitted as [|[c1 k1] [|[c2 k2] [|? ?]]]; simplify_eq/=.
      eexists _, (length p + 0 :: length p + 2 :: idx)%nat. split_and!; [done| | | |done].
      * assert (forall j, (j < 4)%nat -> Forall (lt (length p + j)) idx) as Hlt
          by (intros; eapply Forall_impl; [exact Hge|]; simpl; lia).
        constructor; [constructor; [done|apply Hlt; lia]|].
        constructor; [lia|apply Hlt; lia].
      * constructor; [lia|]. constructor; [lia|]. eapply Forall_impl; [exact Hge|]. simpl. lia.
      * constructor; [apply (Hfrom 0%nat); [done|by left|done]|].
        constructor; [apply (Hfrom 2%nat); [lia|by right; left|done]|done].
Qed.

Lemma translate_source_total (source : list ascii) (tri : bool) : is_Some (translate_source source tri).
Proof.
  destruct (translate_loop_spec tri source (length source) [] source) as (tr & idx & H & _); [done..|].
  by exists tr.
Qed.

(** C21: [translate_source] always returns, and its maps are exact: the written characters
    come, in order, from distinct raw characters, each from the step that read it, and
    each is recorded with the physical line and column of its raw character; the
    terminator is recorded at the end of the raw text. *)
Theorem translate_source_positions (source : list ascii) (tri : bool) :
  exists tr idx, translate_source source tri = Some tr /\
    StronglySorted lt idx /\ Forall2 (comes_from tri source) idx (tr_written tr) /\
    tr_end tr = (raw_line source, raw_column source).
Proof.
  destruct (translate_loop_spec tri source (length source) [] source) as (tr & idx & H1 & H2 & _ & H3 & H4);
    [done..|]. by exists tr, idx.
Qed.

(** ** Logical lines *)

(** The text of complete lines. *)
Definition text_of (lines : list (list ascii)) : list ascii := lines ≫= (fun l => l ++ [NEWLINE]).

Definition one_line (l : list ascii) : Prop := Forall (fun c => negb (c =c NEWLINE) = true) l.

Definition plain_line (l : list ascii) : Prop :=
  lexer_parse_line_directive l = None /\ lexer_line_is_spliced_hash_directive_prefix l = false.

Lemma before_newline_line (l rest : list ascii) :
  one_line l -> before_newline (l ++ NEWLINE :: rest) = (l, NEWLINE :: rest).
Proof. intros Hl. apply span_stop; [done|]. intros y [= <-]. reflexivity. Qed.

Lemma scan_lines_step (fuel : nat) (l rest : list ascii) (cur phys : Z) (st : LineState) :
  one_line l -> cur < phys ->
  scan_lines (S fuel) (l ++ NEWLINE :: rest) cur phys st
  = scan_lines fuel rest (cur + 1) phys (scan_line st cur l (Some rest)).
Proof.
  intros Hl Hlt. cbn [scan_lines].
  rewrite before_newline_line by done. rewrite (proj2 (Z.ltb_lt _ _) Hlt).
  by destruct l.
Qed.

Lemma text_of_cons (l : list ascii) (ls : list (list ascii)) (rest : list ascii) :
  text_of (l :: ls) ++ rest = l ++ NEWLINE :: (text_of ls ++ rest).
Proof. unfold text_of. simpl. by rewrite <- !app_assoc. Qed.

(** Complete lines before [phys] are scanned, plain ones without effect. *)
Lemma scan_lines_text (ls : list (list ascii)) (fuel : nat) (rest : list ascii) (cur phys : Z)
    (st : LineState) :
  Forall one_line ls -> cur + Z.of_nat (length ls) <= phys -> (length ls <= fuel)%nat ->
  exists st', scan_lines fuel (text_of ls ++ rest) cur phys st
    = scan_lines (fuel - length ls) rest (cur + Z.of_nat (length ls)) phys st' /\
    (Forall plain_line ls -> st' = st).
Proof.
  revert fuel cur st. induction ls as [|l ls IH]; intros fuel cur st Hls Hphys Hf.
  - exists st. simpl. by rewrite Z.add_0_r, Nat.sub_0_r.
  - inversion_clear Hls as [|? ? Hl Hls']. cbn [length] in *. destruct fuel as [|fuel]; [lia|].
    destruct (IH fuel (cur + 1) (scan_line st cur l (Some (text_of ls ++ rest))) Hls') as (st' & Heq & Hpl);
      [lia|lia|].
    exists st'. rewrite text_of_cons, scan_lines_step by (done || lia). rewrite Heq. split.
    + f_equal. lia.
    + intros [[Hp Hs] Hpls]%Forall_cons. rewrite (Hpl Hpls). unfold scan_line. rewrite Hp.
      unfold lexer_parse_spliced_line_directive. by rewrite Hs.
Qed.

Lemma scan_lines_reached (fuel : nat) (p : list ascii) (phys : Z) (st : LineState) :
  scan_lines fuel p phys phys st = Some st.
Proof. destruct fuel, p; simpl; by rewrite ?Z.ltb_irrefl. Qed.

Lemma length_text_of (ls : list (list ascii)) : (length ls <= length (text_of ls))%nat.
Proof.
  induction ls as [|l ls IH]; [done|].
  change (text_of (l :: ls)) with ((l ++ [NEWLINE]) ++ text_of ls). rewrite !length_app. simpl. lia.
Qed.

Lemma requested_line_bound (ds : list ascii) (n r : Z) :
  0 <= n <= 2147483647 -> Forall (fun c => is_digit c = true) ds ->
  requested_line ds n = Some r -> 0 <= r <= 2147483647.
Proof.
  revert n. induction ds as [|c ds IH]; simpl; intros n Hn Hds H; [by simplify_eq|].
  inversion_clear Hds as [|? ? Hc Hds']. case_match; [done|].
  eapply IH; [|exact Hds'|exact H]. ctype. lia.
Qed.

Lemma parse_line_directive_bound (l : list ascii) (n : Z) (f : option (list ascii)) :
  lexer_parse_line_directive l = Some (n, f) -> 1 <= n <= 2147483647.
Proof.
  unfold lexer_parse_line_directive. intros Hparse. repeat (case_match; simplify_eq/=).
  all: apply bind_Some in Hparse as (r & Hr & Hparse);
    destruct (Z.leb_spec r 0); [done|]; simplify_eq/=;
    match goal with E : span is_digit ?x = _ |- _ => pose proof (span_all is_digit x) as Ha; rewrite E in Ha end;
    pose proof (requested_line_bound _ 0 _ ltac:(lia) Ha Hr); lia.
Qed.

(** C22: below a [#line] directive physical lines count on from its number, until the next
    directive, whatever came before; the file it names is the one reported.  Without any
    directive a line keeps its number. *)
Theorem line_directive_renumbers (pre mid : list (list ascii)) (dir rest : list ascii) (n : Z)
    (file : option (list ascii)) :
  Forall one_line (pre ++ dir :: mid) -> Forall plain_line mid ->
  lexer_parse_line_directive dir = Some (n, file) ->
  n + Z.of_nat (length mid) <= 2147483647 -> Z.of_nat (length (pre ++ dir :: mid)) < 2147483647 ->
  (exists f, lexer_map_logical_location (text_of (pre ++ dir :: mid) ++ rest)
       (Z.of_nat (length (pre ++ dir :: mid)) + 1)
     = Some (n + Z.of_nat (length mid), take 4095 <$> f) /\
     (forall c name, file = Some (c :: name) -> f = Some (c :: name))) /\
  lexer_map_logical_location (text_of mid ++ rest) (Z.of_nat (length mid) + 1)
  = Some (Z.of_nat (length mid) + 1, None).
Proof.
  intros Hone Hplain Hdir Hn Hlen. pose proof (parse_line_directive_bound _ _ _ Hdir) as Hn1.
  apply Forall_app in Hone as [Hpre [Hd Hmid]%Forall_cons].
  unfold lexer_map_logical_location. rewrite length_app in *. simpl length in *.
  split.
  - set (phys := Z.of_nat (length pre + S (length mid)) + 1).
    destruct (Z.leb_spec phys 0); [lia|].
    set (source := text_of (pre ++ dir :: mid) ++ rest).
    assert (source = text_of pre ++ (dir ++ NEWLINE :: (text_of mid ++ rest))) as Hsrc.
    { subst source. unfold text_of. rewrite bind_app. simpl. by rewrite <- !app_assoc. }
    assert (length pre + S (length mid) <= length source)%nat as Hfuel.
    { rewrite Hsrc, !length_app. simpl. rewrite length_app.
      pose proof (length_text_of pre). pose proof (length_text_of mid). lia. }
    destruct (scan_lines_text pre (length source) (dir ++ NEWLINE :: (text_of mid ++ rest)) 1 phys
                (mkLineState 0 None) Hpre) as (st & Heq & _); [lia|lia|].
    rewrite <- Hsrc in Heq. rewrite Heq.
    replace (length source - length pre)%nat with (S (length source - length pre - 1)) by lia.
    rewrite scan_lines_step by (done || lia).
    destruct (scan_lines_text mid (length source - length pre - 1) rest (1 + Z.of_nat (length pre) + 1) phys
                (scan_line st (1 + Z.of_nat (length pre)) dir (Some (text_of mid ++ rest))) Hmid)
      as (st' & Heq' & Hst'); [lia|lia|]. rewrite Heq'.
    replace (1 + Z.of_nat (length pre) + 1 + Z.of_nat (length mid)) with phys by lia.
    rewrite scan_lines_reached, (Hst' Hplain). unfold scan_line. rewrite Hdir. simpl.
    exists match file with Some (c :: f) => Some (c :: f) | _ => ls_file st end.
    split; [|by intros c name ->].
    rewrite wrapS_small, Z.max_r by (simpl; lia). f_equal. f_equal. lia.
  - destruct (Z.leb_spec (Z.of_nat (length mid) + 1) 0); [lia|].
    destruct (scan_lines_text mid (length (text_of mid ++ rest)) rest 1 (Z.of_nat (length mid) + 1)
                (mkLineState 0 None) Hmid) as (st' & -> & Hst');
      [lia|rewrite length_app; pose proof (length_text_of mid); lia|].
    rewrite (Z.add_comm 1), scan_lines_reached, (Hst' Hplain). simpl.
    f_equal. f_equal. rewrite Z.add_0_r, wrapS_small by (simpl; lia). lia.
Qed.

Lemma line_directive_renumbers_witness :
  lexer_map_logical_location
    (text_of [list_ascii_of_string "int a;"; list_ascii_of_string "#line 100"; list_ascii_of_string "int b;"] ++ [])
    (Z.of_nat 3 + 1) = Some (101, None).
Proof.
  destruct (line_directive_renumbers [list_ascii_of_string "int a;"] [list_ascii_of_string "int b;"]
              (list_ascii_of_string "#line 100") [] 100 None) as [(f & Hf & _) _];
    [repeat constructor|repeat constructor|reflexivity|simpl; lia|simpl; lia|].
  etransitivity; [exact Hf|]. vm_compute in Hf. simplify_eq. by destruct f.
Defined.

(** Digraphs are replaced in the text, string literals included; a C digraph is a token, and
    the string [<%d>] is left alone. *)
Example digraph_in_string_literal :
  tr_out <$> translate_source (DQUOTE :: list_ascii_of_string "<%d>" ++ [DQUOTE]) false
  = Some (DQUOTE :: list_ascii_of_string "{d>" ++ [DQUOTE]).
Proof. reflexivity. Qed.
