(* ===== verification/LexerChars.v ===== *)
(** * Extended identifier characters (src/Lexer/lexer.c): universal character names, UTF-8
    and the normal spelling of identifiers.

    A position in the source is the text from it on.  [unsigned] arithmetic on code points
    keeps 32 bits. *)
From S2P Require Import Prelude CType.

Definition lexer_hex_value (c : ascii) : Z :=
  if (48 <=? chr c) && (chr c <=? 57) then chr c - 48
  else if (97 <=? chr c) && (chr c <=? 102) then chr c - 97 + 10
  else if (65 <=? chr c) && (chr c <=? 70) then chr c - 65 + 10
  else -1.

Definition between (lo hi x : Z) : bool := (lo <=? x) && (x <=? hi).

Definition lexer_ucn_is_supported_identifier_character (codepoint : Z) : bool :=
  between 0x0370 0x0373 codepoint || between 0x0376 0x0377 codepoint ||
  between 0x037B 0x037D codepoint || (codepoint =? 0x037F) || (codepoint =? 0x0386) ||
  between 0x0388 0x038A codepoint || (codepoint =? 0x038C) ||
  between 0x038E 0x03A1 codepoint || between 0x03A3 0x03F5 codepoint ||
  between 0x03F7 0x03FF codepoint.

(** [n] hex digits at the start of [s], onto [codepoint]. *)
Fixpoint read_hex (n : nat) (s : list ascii) (codepoint : Z) : option Z :=
  match n, s with
  | O, _ => Some codepoint
  | S n', c :: s' =>
      if lexer_hex_value c <? 0 then None
      else read_hex n' s' (u32 (Z.lor (Z.shiftl codepoint 4) (lexer_hex_value c)))
  | S _, [] => None
  end.

Definition ucn_digits (c : ascii) : nat := if c =c "u" then 4 else 8.

(** The name's hex value, when [s] starts with a complete one. *)
Definition read_ucn (s : list ascii) : option (Z * nat) :=
  if (at_index s 0 =c BACKSLASH) && ((at_index s 1 =c "u") || (at_index s 1 =c "U")) then
    codepoint ← read_hex (ucn_digits (at_index s 1)) (drop 2 s) 0;
    Some (codepoint, (ucn_digits (at_index s 1) + 2)%nat)
  else None.

Definition lexer_identifier_ucn_length (s : list ascii) : nat :=
  match read_ucn s with
  | Some (codepoint, n) =>
      if (0x10FFFF <? codepoint) || between 0xD800 0xDFFF codepoint ||
         negb (lexer_ucn_is_supported_identifier_character codepoint)
      then 0 else n
  | None => 0
  end.

(** [n] continuation bytes. *)
Fixpoint utf8_tail (n : nat) (s : list ascii) (codepoint : Z) : option Z :=
  match n, s with
  | O, _ => Some codepoint
  | S n', b :: s' =>
      if Z.land (chr b) 0xC0 =? 0x80
      then utf8_tail n' s' (Z.lor (Z.shiftl codepoint 6) (Z.land (chr b) 0x3F)) else None
  | S _, [] => None
  end.

(** The code point and its number of bytes; [None] for the C function's 0. *)
Definition lexer_decode_utf8 (s : list ascii) : option (Z * nat) :=
  b ← head s;
  '(length, codepoint) ←
    (if between 0xC2 0xDF (chr b) then Some (2%nat, Z.land (chr b) 0x1F)
     else if between 0xE0 0xEF (chr b) then Some (3%nat, Z.land (chr b) 0x0F)
     else if between 0xF0 0xF4 (chr b) then Some (4%nat, Z.land (chr b) 0x07)
     else None);
  codepoint ← utf8_tail (length - 1) (tail s) codepoint;
  if (bool_decide (length = 3%nat) && (codepoint <? 0x800)) ||
     (bool_decide (length = 4%nat) && (codepoint <? 0x10000)) ||
     (0x10FFFF <? codepoint) || between 0xD800 0xDFFF codepoint
  then None else Some (codepoint, length).

Definition lexer_identifier_utf8_length (s : list ascii) : nat :=
  match lexer_decode_utf8 s with
  | Some (codepoint, n) => if lexer_ucn_is_supported_identifier_character codepoint then n else 0
  | None => 0
  end.

(** The conversion to [char] keeps the low byte. *)
Definition byte (n : Z) : ascii := ascii_of_N (Z.to_N (n mod 256)).

Definition lexer_encode_utf8 (codepoint : Z) : list ascii :=
  let cont k := byte (Z.lor 0x80 (Z.land (Z.shiftr codepoint k) 0x3F)) in
  if codepoint <=? 0x7F then [byte codepoint]
  else if codepoint <=? 0x7FF then [byte (Z.lor 0xC0 (Z.shiftr codepoint 6)); cont 0]
  else if codepoint <=? 0xFFFF then [byte (Z.lor 0xE0 (Z.shiftr codepoint 12)); cont 6; cont 0]
  else [byte (Z.lor 0xF0 (Z.shiftr codepoint 18)); cont 12; cont 6; cont 0].

(** Universal character names become UTF-8, other characters stay.  Every iteration reads a
    character. *)
Fixpoint normalize_loop (fuel : nat) (text : list ascii) : list ascii :=
  match fuel, text with
  | S fuel', c :: rest =>
      match read_ucn text with
      | Some (codepoint, n) => lexer_encode_utf8 codepoint ++ normalize_loop fuel' (drop n text)
      | None => c :: normalize_loop fuel' rest
      end
  | _, _ => []
  end.

Definition lexer_normalize_identifier_spelling (text : list ascii) : list ascii :=
  normalize_loop (length text) text.

(** ** Bits as arithmetic *)

Lemma lor_shiftl_add (a b k : Z) : 0 <= k -> 0 <= b < 2 ^ k -> Z.lor (Z.shiftl a k) b = a * 2 ^ k + b.
Proof.
  intros Hk Hb. rewrite <- Z.shiftl_mul_pow2 by done.
  assert (Z.land (Z.shiftl a k) b = 0) as Hland.
  { apply Z.bits_inj'. intros n Hn. rewrite Z.land_spec, Z.bits_0.
    destruct (Z.ltb_spec n k).
    - by rewrite Z.shiftl_spec_low by done.
    - replace b with (b mod 2 ^ k) by (by apply Z.mod_small).
      rewrite Z.mod_pow2_bits_high by lia. apply andb_false_r. }
  by rewrite <- Z.lxor_lor, <- Z.add_nocarry_lxor by done.
Qed.

Lemma land_3F (x : Z) : Z.land x 0x3F = x mod 64.
Proof. exact (Z.land_ones x 6 ltac:(lia)). Qed.

Lemma chr_byte (n : Z) : chr (byte n) = n mod 256.
Proof. apply chr_ascii, Z.mod_pos_bound. lia. Qed.

Lemma lead_byte (base k x : Z) :
  0 <= k -> base mod 2 ^ k = 0 -> 0 <= x < 2 ^ k -> Z.lor base x = base + x.
Proof.
  intros Hk Hbase Hx.
  assert (base = Z.shiftl (base / 2 ^ k) k) as Hb.
  { rewrite Z.shiftl_mul_pow2 by done. pose proof (pow2_pos k Hk).
    pose proof (Z.div_mod base (2 ^ k) ltac:(lia)). lia. }
  rewrite Hb at 1. rewrite lor_shiftl_add by done.
  rewrite Z.shiftl_mul_pow2 in Hb by done. lia.
Qed.

(** A continuation byte carries six bits. *)
Lemma continuation_byte (x : Z) :
  let b := chr (byte (Z.lor 0x80 (Z.land x 0x3F))) in
  b = 128 + x mod 64 /\ (Z.land b 0xC0 =? 0x80) = true /\ Z.land b 0x3F = x mod 64.
Proof.
  cbv zeta. rewrite land_3F. pose proof (Z.mod_pos_bound x 64 ltac:(lia)).
  rewrite (lead_byte 0x80 6) by (done || lia). rewrite chr_byte, Z.mod_small by lia.
  split_and!; [done| |by rewrite land_3F, <- Zplus_mod_idemp_l, Z.add_0_l, Zmod_mod].
  assert (forallb (fun r => Z.land (128 + r) 0xC0 =? 0x80) (seqZ 0 64) = true) as Hall by reflexivity.
  rewrite forallb_forall in Hall. apply Hall, list_elem_of_In, elem_of_seqZ. lia.
Qed.

(** [unsigned char] tests of continuation bytes. *)
Lemma continuation_range (b : ascii) :
  (Z.land (chr b) 0xC0 =? 0x80) = true -> 128 <= chr b < 192.
Proof.
  assert (forallb (fun r => implb (Z.land r 0xC0 =? 0x80) (between 128 191 r)) (seqZ 0 256) = true)
    as Hall by reflexivity.
  rewrite forallb_forall in Hall. pose proof (chr_range b).
  specialize (Hall (chr b) ltac:(apply list_elem_of_In, elem_of_seqZ; lia)).
  intros Hb. rewrite Hb in Hall. unfold between in Hall. simpl in Hall. lia.
Qed.

(** ** Round trips *)

(** The Unicode scalar values. *)
Definition scalar_value (cp : Z) : Prop := 0 <= cp <= 0x10FFFF /\ ~ (0xD800 <= cp <= 0xDFFF).

(** UTF-8, as Unicode defines it. *)
Definition utf8 (cp : Z) : list ascii :=
  let tail k := byte (0x80 + cp / 64 ^ k mod 64) in
  if cp <? 0x80 then [byte cp]
  else if cp <? 0x800 then [byte (0xC0 + cp / 64); tail 0]
  else if cp <? 0x10000 then [byte (0xE0 + cp / 64 ^ 2); tail 1; tail 0]
  else [byte (0xF0 + cp / 64 ^ 3); tail 2; tail 1; tail 0].

Lemma encode_is_utf8 (cp : Z) : 0 <= cp <= 0x10FFFF -> lexer_encode_utf8 cp = utf8 cp.
Proof.
  intros Hcp. unfold lexer_encode_utf8, utf8. rewrite !Z.shiftr_div_pow2 by lia.
  assert (forall x, byte (Z.lor 0x80 (Z.land x 0x3F)) = byte (0x80 + x mod 64)) as Hcont.
  { intros x. rewrite land_3F, (lead_byte 0x80 6); [done..|]. apply Z.mod_pos_bound. lia. }
  rewrite !Hcont. change (64 ^ 0) with (2 ^ 0). change (64 ^ 1) with (2 ^ 6). change (64 ^ 2) with (2 ^ 12).
  change (64 ^ 3) with (2 ^ 18). change 64 with (2 ^ 6).
  destruct (Z.leb_spec cp 0x7F), (Z.ltb_spec cp 0x80); try lia; [done|].
  destruct (Z.leb_spec cp 0x7FF), (Z.ltb_spec cp 0x800); try lia.
  { rewrite (lead_byte 0xC0 5); [done..|]. Z.to_euclidean_division_equations; lia. }
  destruct (Z.leb_spec cp 0xFFFF), (Z.ltb_spec cp 0x10000); try lia.
  { rewrite (lead_byte 0xE0 4); [done..|]. Z.to_euclidean_division_equations; lia. }
  rewrite (lead_byte 0xF0 3); [done..|]. Z.to_euclidean_division_equations; lia.
Qed.

Lemma utf8_tail_cons (n : nat) (x cp : Z) (rest : list ascii) :
  utf8_tail (S n) (byte (Z.lor 0x80 (Z.land x 0x3F)) :: rest) cp = utf8_tail n rest (cp * 64 + x mod 64).
Proof.
  destruct (continuation_byte x) as (_ & H1 & H2). cbn [utf8_tail]. rewrite H1, H2.
  rewrite lor_shiftl_add; [done|lia|]. apply Z.mod_pos_bound. lia.
Qed.

Lemma shiftr_div (cp k : Z) : 0 <= k -> Z.shiftr cp k = cp / 2 ^ k.
Proof. apply Z.shiftr_div_pow2. Qed.

Lemma lead_value (k base x : Z) :
  0 <= k -> base mod 2 ^ k = 0 -> 0 <= x < 2 ^ k -> 0 <= base -> base + 2 ^ k <= 256 ->
  chr (byte (Z.lor base x)) = base + x /\ Z.land (base + x) (Z.ones k) = x.
Proof.
  intros Hk Hb Hx Hb0 Hb1. rewrite (lead_byte base k) by done. rewrite chr_byte, Z.mod_small by lia.
  split; [done|]. rewrite Z.land_ones, <- Zplus_mod_idemp_l, Hb by done.
  apply Z.mod_small. lia.
Qed.

(** The condition the goal branches on is settled by arithmetic. *)
Ltac settle :=
  match goal with
  | |- context [if ?b then _ else _] => let E := fresh "E" in destruct b eqn:E; try (exfalso; lia)
  end.

Lemma decode_encode_utf8 (cp : Z) (rest : list ascii) :
  scalar_value cp -> 0x80 <= cp ->
  lexer_decode_utf8 (lexer_encode_utf8 cp ++ rest) = Some (cp, length (lexer_encode_utf8 cp)).
Proof.
  intros [Hcp Hsur] Hnon. unfold lexer_encode_utf8. rewrite !shiftr_div, Z.div_1_r by lia.
  destruct (Z.leb_spec cp 0x7F); [lia|].
  pose proof (Z.div_mod cp 64 ltac:(lia)). pose proof (Z.mod_pos_bound cp 64 ltac:(lia)).
  pose proof (Z.div_mod (cp / 64) 64 ltac:(lia)). pose proof (Z.mod_pos_bound (cp / 64) 64 ltac:(lia)).
  pose proof (Z.div_mod (cp / 64 / 64) 64 ltac:(lia)).
  pose proof (Z.mod_pos_bound (cp / 64 / 64) 64 ltac:(lia)).
  assert (cp / 2 ^ 12 = cp / 64 / 64) as -> by (rewrite Z.div_div; [done|lia..]).
  assert (cp / 2 ^ 18 = cp / 64 / 64 / 64) as -> by (rewrite !Z.div_div; [done|lia..]).
  change (2 ^ 6) with 64. unfold lexer_decode_utf8, between.
  destruct (Z.leb_spec cp 0x7FF); [|destruct (Z.leb_spec cp 0xFFFF)]; cbn [app head tail mbind option_bind].
  - destruct (lead_value 5 0xC0 (cp / 64)) as [Hl Hm]; [done|done|lia|done|done|].
    rewrite Hl. change 0x1F with (Z.ones 5). rewrite Hm. settle. cbn [mbind option_bind Nat.sub].
    rewrite utf8_tail_cons. cbn [mbind option_bind utf8_tail length].
    replace (cp / 64 * 64 + cp mod 64) with cp by lia.
    rewrite !bool_decide_false by lia. by settle.
  - destruct (lead_value 4 0xE0 (cp / 64 / 64)) as [Hl Hm]; [done|done|lia|done|done|].
    rewrite Hl. change 0x0F with (Z.ones 4). rewrite Hm. do 2 settle. cbn [mbind option_bind Nat.sub].
    rewrite !utf8_tail_cons. cbn [mbind option_bind utf8_tail length].
    replace ((cp / 64 / 64 * 64 + cp / 64 mod 64) * 64 + cp mod 64) with cp by lia.
    rewrite bool_decide_true, bool_decide_false by lia. by settle.
  - destruct (lead_value 3 0xF0 (cp / 64 / 64 / 64)) as [Hl Hm]; [done|done|lia|done|done|].
    rewrite Hl. change 0x07 with (Z.ones 3). rewrite Hm. do 3 settle. cbn [mbind option_bind Nat.sub].
    rewrite !utf8_tail_cons. cbn [mbind option_bind utf8_tail length].
    replace (((cp / 64 / 64 / 64 * 64 + cp / 64 / 64 mod 64) * 64 + cp / 64 mod 64) * 64 + cp mod 64)
      with cp by lia.
    rewrite bool_decide_false, bool_decide_true by lia. by settle.
Qed.

Lemma utf8_tail_inv (n : nat) (s : list ascii) (cp r : Z) :
  utf8_tail (S n) s cp = Some r ->
  exists b s', s = b :: s' /\ 128 <= chr b < 192 /\ utf8_tail n s' (cp * 64 + (chr b - 128)) = Some r.
Proof.
  destruct s as [|b s']; [done|]. cbn [utf8_tail].
  destruct (Z.land (chr b) 0xC0 =? 0x80) eqn:E; [|done]. pose proof (continuation_range b E) as Hb.
  rewrite land_3F. replace (chr b mod 64) with (chr b - 128) by (Z.to_euclidean_division_equations; lia).
  rewrite lor_shiftl_add by (simpl; lia). intros H. by exists b, s'.
Qed.

Lemma byte_chr (b : ascii) (n : Z) : chr b = n -> byte n = b.
Proof. intros <-. apply chr_inj. rewrite chr_byte. apply Z.mod_small, chr_range. Qed.

Lemma continuation_is (b : ascii) (x : Z) :
  128 <= chr b < 192 -> x mod 64 = chr b - 128 -> byte (Z.lor 0x80 (Z.land x 0x3F)) = b.
Proof.
  intros Hb Hx. apply chr_inj. destruct (continuation_byte x) as (-> & _ & _). lia.
Qed.

Lemma lead_is (b : ascii) (k base x : Z) :
  0 <= k -> base mod 2 ^ k = 0 -> 0 <= x < 2 ^ k -> chr b = base + x -> byte (Z.lor base x) = b.
Proof. intros Hk Hb Hx Hc. apply byte_chr. rewrite (lead_byte base k); done. Qed.

Lemma land_lead (b : ascii) (k base : Z) :
  0 <= k -> base mod 2 ^ k = 0 -> base <= chr b < base + 2 ^ k -> Z.land (chr b) (Z.ones k) = chr b - base.
Proof.
  intros Hk Hb Hr. rewrite Z.land_ones by done.
  replace (chr b) with (base + (chr b - base)) at 1 by lia.
  rewrite <- Zplus_mod_idemp_l, Hb. apply Z.mod_small. lia.
Qed.

Ltac euclid := first [done | simpl; Z.to_euclidean_division_equations; lia].

Lemma encode_decode_utf8 (s : list ascii) (cp : Z) (n : nat) :
  lexer_decode_utf8 s = Some (cp, n) -> (scalar_value cp /\ 0x80 <= cp) /\ lexer_encode_utf8 cp = take n s.
Proof.
  unfold lexer_decode_utf8, between. destruct s as [|b s]; [done|]. cbn [head tail mbind option_bind].
  destruct ((_ <=? chr b) && (chr b <=? 0xDF)) eqn:E2;
    [|destruct ((_ <=? chr b) && (chr b <=? 0xEF)) eqn:E3;
      [|destruct ((_ <=? chr b) && (chr b <=? 0xF4)) eqn:E4; [|done]]];
    cbn [mbind option_bind Nat.sub]; intros H; apply bind_Some in H as (cp' & Ht & H);
    destruct (_ || _ || _ || _) eqn:Eb in H; [done| |done| |done|]; simplify_eq;
    unfold lexer_encode_utf8, scalar_value.
  - change 0x1F with (Z.ones 5) in Ht. rewrite (land_lead b 5 0xC0) in Ht by (simpl; lia || done).
    apply utf8_tail_inv in Ht as (b1 & s1 & -> & Hb1 & [= Ht]).
    destruct (Z.leb_spec cp 0x7F); [lia|]. destruct (Z.leb_spec cp 0x7FF); [|lia].
    split; [lia|]. rewrite !shiftr_div, Z.div_1_r by lia.
    rewrite (lead_is b 5), (continuation_is b1) by euclid. done.
  - change 0x0F with (Z.ones 4) in Ht. rewrite (land_lead b 4 0xE0) in Ht by (simpl; lia || done).
    apply utf8_tail_inv in Ht as (b1 & s1 & -> & Hb1 & Ht).
    apply utf8_tail_inv in Ht as (b2 & s2 & -> & Hb2 & [= Ht]).
    rewrite bool_decide_true in Eb by done.
    destruct (Z.leb_spec cp 0x7F); [lia|]. destruct (Z.leb_spec cp 0x7FF); [lia|].
    destruct (Z.leb_spec cp 0xFFFF); [|lia].
    split; [lia|]. rewrite !shiftr_div, Z.div_1_r by lia.
    rewrite (lead_is b 4), (continuation_is b1), (continuation_is b2) by euclid. done.
  - change 0x07 with (Z.ones 3) in Ht. rewrite (land_lead b 3 0xF0) in Ht by (simpl; lia || done).
    apply utf8_tail_inv in Ht as (b1 & s1 & -> & Hb1 & Ht).
    apply utf8_tail_inv in Ht as (b2 & s2 & -> & Hb2 & Ht).
    apply utf8_tail_inv in Ht as (b3 & s3 & -> & Hb3 & [= Ht]).
    rewrite (bool_decide_true (4%nat = 4%nat)) in Eb by done.
    destruct (Z.leb_spec cp 0x7F); [lia|]. destruct (Z.leb_spec cp 0x7FF); [lia|].
    destruct (Z.leb_spec cp 0xFFFF); [lia|].
    split; [lia|]. rewrite !shiftr_div, Z.div_1_r by lia.
    rewrite (lead_is b 3), (continuation_is b1), (continuation_is b2), (continuation_is b3) by euclid. done.
Qed.

Lemma decode_ascii (cp : Z) (s : list ascii) :
  0 <= cp < 0x80 -> lexer_encode_utf8 cp = [byte cp] /\ lexer_decode_utf8 (byte cp :: s) = None.
Proof.
  intros Hcp. unfold lexer_encode_utf8, lexer_decode_utf8, between. cbn [head mbind option_bind].
  rewrite (proj2 (Z.leb_le _ _)) by lia. split; [done|]. rewrite chr_byte, Z.mod_small by lia.
  do 3 (rewrite (proj2 (Z.leb_gt _ (cp))) by lia). done.
Qed.

(** C23: the UTF-8 codec of identifiers.  Every scalar value is encoded as Unicode says.  The
    characters whose encoding the decoder reads back are the Unicode scalar values outside ASCII; an ASCII character is encoded as itself,
    and as a single byte it is not the decoder's, which refuses it.  What decodes is encoded
    as exactly the bytes read (overlong forms, surrogates and values above U+10FFFF are
    refused). *)
Theorem utf8_codec (s : list ascii) (cp : Z) :
  (scalar_value cp -> lexer_encode_utf8 cp = utf8 cp) /\
  (scalar_value cp /\ 0x80 <= cp <->
   lexer_decode_utf8 (lexer_encode_utf8 cp ++ s) = Some (cp, length (lexer_encode_utf8 cp))) /\
  (0 <= cp < 0x80 -> lexer_encode_utf8 cp = [byte cp] /\ lexer_decode_utf8 (byte cp :: s) = None) /\
  (forall n, lexer_decode_utf8 s = Some (cp, n) -> lexer_encode_utf8 cp = take n s).
Proof.
  split_and!; [intros [Hs _]; by apply encode_is_utf8|split|apply decode_ascii|].
  - intros [Hs Ha]. by apply decode_encode_utf8.
  - intros H. by apply encode_decode_utf8 in H as [H _].
  - intros n H. by apply encode_decode_utf8 in H as [_ H].
Qed.

(** ** The normal spelling *)

Lemma hex_value_digit (c : ascii) :
  is_xdigit c = true -> lexer_hex_value c = digit_value c /\ 0 <= digit_value c < 16.
Proof.
  unfold lexer_hex_value, digit_value. ctype. intros H.
  repeat case_match; first [split; lia | exfalso; lia].
Qed.

Lemma read_hex_digits (ds rest : list ascii) (cp : Z) :
  Forall (fun c => is_xdigit c = true) ds -> 0 <= cp -> (cp + 1) * 16 ^ Z.of_nat (length ds) <= 2 ^ 32 ->
  read_hex (length ds) (ds ++ rest) cp
  = Some (foldl (fun acc c => acc * 16 + digit_value c) cp ds).
Proof.
  revert cp. induction ds as [|c ds IH]; intros cp Hds Hcp Hb; [done|].
  inversion_clear Hds as [|? ? Hc Hds']. destruct (hex_value_digit c Hc) as [Hv Hr].
  cbn [length app read_hex foldl] in *. rewrite Hv. destruct (Z.ltb_spec (digit_value c) 0); [lia|].
  rewrite lor_shiftl_add by (simpl; lia).
  rewrite Nat2Z.inj_succ, Z.pow_succ_r in Hb by lia.
  assert (0 < 16 ^ Z.of_nat (length ds)) by (apply Z.pow_pos_nonneg; lia).
  change (2 ^ 4) with 16. rewrite wrapU_small by nia.
  apply IH; [done|lia|nia].
Qed.

(** A character written as itself or by its universal character name. *)
Inductive Piece : Type :=
| Plain (c : ascii)
| Ucn (long : bool) (digits : list ascii).

Definition piece_ok (p : Piece) : Prop :=
  match p with
  | Plain c => c <> BACKSLASH
  | Ucn long ds => length ds = (if long then 8 else 4)%nat /\ Forall (fun c => is_xdigit c = true) ds
  end.

Definition piece_text (p : Piece) : list ascii :=
  match p with
  | Plain c => [c]
  | Ucn long ds => BACKSLASH :: (if long then "U" else "u")%char :: ds
  end.

Definition piece_bytes (p : Piece) : list ascii :=
  match p with
  | Plain c => [c]
  | Ucn _ ds => lexer_encode_utf8 (digits_value 16 ds)
  end.

Lemma read_ucn_plain (c : ascii) (s : list ascii) : c <> BACKSLASH -> read_ucn (c :: s) = None.
Proof.
  intros Hc. unfold read_ucn. cbn [at_index nth].
  replace (c =c BACKSLASH) with false; [done|]. symmetry. by apply Ascii.eqb_neq.
Qed.

Lemma read_ucn_name (long : bool) (ds s : list ascii) :
  piece_ok (Ucn long ds) ->
  read_ucn (piece_text (Ucn long ds) ++ s) = Some (digits_value 16 ds, (length ds + 2)%nat).
Proof.
  intros [Hlen Hds]. unfold read_ucn. cbn [piece_text app at_index nth drop].
  change (BACKSLASH =c BACKSLASH) with true.
  assert ((((if long then "U" else "u")%char =c "u") || ((if long then "U" else "u")%char =c "U")) = true)
    as -> by (by destruct long).
  assert (ucn_digits (if long then "U" else "u")%char = length ds) as -> by (rewrite Hlen; by destruct long).
  cbn [andb]. rewrite drop_0, (read_hex_digits ds s 0); [done|done|lia|].
  rewrite Hlen. by destruct long.
Qed.

Lemma normalize_pieces (ps : list Piece) (fuel : nat) :
  Forall piece_ok ps -> (length (ps ≫= piece_text) <= fuel)%nat ->
  normalize_loop fuel (ps ≫= piece_text) = ps ≫= piece_bytes.
Proof.
  revert fuel. induction ps as [|p ps IH]; intros fuel Hps Hf; [by destruct fuel|].
  inversion_clear Hps as [|? ? Hp Hps'].
  rewrite !bind_cons in *. rewrite length_app in Hf. destruct p as [c|long ds].
  - destruct fuel as [|fuel]; cbn [piece_text app length normalize_loop] in *; [lia|].
    rewrite read_ucn_plain by done. rewrite IH by (done || lia). done.
  - destruct fuel as [|fuel]; [simpl in Hf; lia|].
    pose proof (read_ucn_name long ds (ps ≫= piece_text) Hp) as Hr.
    cbn [piece_text app normalize_loop] in *. rewrite Hr.
    simpl in Hf. rewrite Nat.add_comm. simpl. rewrite drop_app_length, IH by (done || lia). done.
Qed.

(** The spelling an identifier token carries does not depend on how its characters were
    written: universal character names of four or eight digits become the UTF-8 bytes of
    their code points, everything else is kept. *)
Theorem identifier_spelling_normal (ps : list Piece) :
  Forall piece_ok ps ->
  lexer_normalize_identifier_spelling (ps ≫= piece_text) = ps ≫= piece_bytes.
Proof. intros Hps. by apply normalize_pieces. Qed.

Lemma identifier_spelling_normal_witness :
  let name := [Plain "x"%char; Ucn false (list_ascii_of_string "03b1")] in
  lexer_normalize_identifier_spelling (name ≫= piece_text)
  = "x"%char :: lexer_encode_utf8 0x03b1.
Proof.
  cbv zeta. rewrite identifier_spelling_normal; [reflexivity|].
  repeat constructor; discriminate.
Defined.
