(* ===== verification/Tokens.v ===== *)
(** * Tokens: the data the lexer hands to the preprocessor.

    [TokenType] lists the enumerators of src/Lexer/token_type.h in their order;
    [TokenType_code] is the enumerator's integer, which the preprocessor compares
    with [<].  [Token] and the source positions follow src/Lexer/tokens.h and
    src/Lexer/source_range.h ([char *] fields are [option string], [NULL] is
    [None]).  [TokenBuffer] is the growable array of src/Lexer/token_buffer.c:
    [tb_tokens] holds the [count] live entries. *)
From S2P Require Import Prelude.

Inductive TokenType : Set :=
  | TOKEN_INT | TOKEN_FLOAT | TOKEN_CHAR | TOKEN_DOUBLE | TOKEN_LONG | TOKEN_SHORT | TOKEN_SIGNED
  | TOKEN_UNSIGNED | TOKEN_VOID | TOKEN_BOOL | TOKEN_ENUM | TOKEN_UNION | TOKEN_STRUCT
  | TOKEN_TYPEDEF | TOKEN_IF | TOKEN_ELSE | TOKEN_WHILE | TOKEN_FOR | TOKEN_DO | TOKEN_SWITCH
  | TOKEN_CASE | TOKEN_DEFAULT | TOKEN_RETURN | TOKEN_GOTO | TOKEN_BREAK | TOKEN_CONTINUE
  | TOKEN_EXTERN | TOKEN_STATIC | TOKEN_AUTO | TOKEN_REGISTER | TOKEN_THREAD_LOCAL | TOKEN_CONST
  | TOKEN_VOLATILE | TOKEN_RESTRICT | TOKEN_INLINE | TOKEN_ATOMIC | TOKEN_NORETURN
  | TOKEN_COMPLEX | TOKEN_IMAGINARY | TOKEN_NULL | TOKEN_SIZEOF | TOKEN_ALIGNOF
  | TOKEN_STATIC_ASSERT | TOKEN_IDENTIFIER | TOKEN_INCLUDE | TOKEN_INCLUDE_NEXT | TOKEN_DEFINE
  | TOKEN_UNDEF | TOKEN_IFDEF | TOKEN_IFNDEF | TOKEN_ENDIF | TOKEN_PRAGMA | TOKEN_ONCE
  | TOKEN_PREPROCESSOR_OTHER | TOKEN_PP_IF | TOKEN_PP_ELIF | TOKEN_PP_ELSE | TOKEN_NUMBER
  | TOKEN_FLOAT_LITERAL | TOKEN_STRING | TOKEN_CHAR_LITERAL | TOKEN_ASSIGN | TOKEN_PLUS_ASSIGN
  | TOKEN_MINUS_ASSIGN | TOKEN_MULT_ASSIGN | TOKEN_DIV_ASSIGN | TOKEN_MOD_ASSIGN | TOKEN_PLUS
  | TOKEN_MINUS | TOKEN_ASTERISK | TOKEN_DIVIDE | TOKEN_MODULO | TOKEN_INCREMENT
  | TOKEN_DECREMENT | TOKEN_EQUAL | TOKEN_NOT_EQUAL | TOKEN_LESS | TOKEN_LESS_EQUAL
  | TOKEN_GREATER | TOKEN_GREATER_EQUAL | TOKEN_LOGICAL_AND | TOKEN_LOGICAL_OR
  | TOKEN_LOGICAL_NOT | TOKEN_BITWISE_AND | TOKEN_BITWISE_OR | TOKEN_BITWISE_XOR
  | TOKEN_BITWISE_NOT | TOKEN_LEFT_SHIFT | TOKEN_RIGHT_SHIFT | TOKEN_BITWISE_AND_ASSIGN
  | TOKEN_BITWISE_OR_ASSIGN | TOKEN_BITWISE_XOR_ASSIGN | TOKEN_LEFT_SHIFT_ASSIGN
  | TOKEN_RIGHT_SHIFT_ASSIGN | TOKEN_SEMICOLON | TOKEN_COLON | TOKEN_COMMA | TOKEN_DOT
  | TOKEN_ELLIPSIS | TOKEN_QUESTION | TOKEN_HASH | TOKEN_DOUBLE_HASH | TOKEN_LPAREN
  | TOKEN_RPAREN | TOKEN_LBRACE | TOKEN_RBRACE | TOKEN_LBRACKET | TOKEN_RBRACKET | TOKEN_ARROW
  | TOKEN_LINE_COMMENT | TOKEN_BLOCK_COMMENT | TOKEN_ASM | TOKEN_EOF | TOKEN_UNKNOWN.

Definition TokenType_code (t : TokenType) : Z :=
  match t with
  | TOKEN_INT => 0 | TOKEN_FLOAT => 1 | TOKEN_CHAR => 2 | TOKEN_DOUBLE => 3 | TOKEN_LONG => 4
  | TOKEN_SHORT => 5 | TOKEN_SIGNED => 6 | TOKEN_UNSIGNED => 7 | TOKEN_VOID => 8
  | TOKEN_BOOL => 9 | TOKEN_ENUM => 10 | TOKEN_UNION => 11 | TOKEN_STRUCT => 12
  | TOKEN_TYPEDEF => 13 | TOKEN_IF => 14 | TOKEN_ELSE => 15 | TOKEN_WHILE => 16 | TOKEN_FOR => 17
  | TOKEN_DO => 18 | TOKEN_SWITCH => 19 | TOKEN_CASE => 20 | TOKEN_DEFAULT => 21
  | TOKEN_RETURN => 22 | TOKEN_GOTO => 23 | TOKEN_BREAK => 24 | TOKEN_CONTINUE => 25
  | TOKEN_EXTERN => 26 | TOKEN_STATIC => 27 | TOKEN_AUTO => 28 | TOKEN_REGISTER => 29
  | TOKEN_THREAD_LOCAL => 30 | TOKEN_CONST => 31 | TOKEN_VOLATILE => 32 | TOKEN_RESTRICT => 33
  | TOKEN_INLINE => 34 | TOKEN_ATOMIC => 35 | TOKEN_NORETURN => 36 | TOKEN_COMPLEX => 37
  | TOKEN_IMAGINARY => 38 | TOKEN_NULL => 39 | TOKEN_SIZEOF => 40 | TOKEN_ALIGNOF => 41
  | TOKEN_STATIC_ASSERT => 42 | TOKEN_IDENTIFIER => 43 | TOKEN_INCLUDE => 44
  | TOKEN_INCLUDE_NEXT => 45 | TOKEN_DEFINE => 46 | TOKEN_UNDEF => 47 | TOKEN_IFDEF => 48
  | TOKEN_IFNDEF => 49 | TOKEN_ENDIF => 50 | TOKEN_PRAGMA => 51 | TOKEN_ONCE => 52
  | TOKEN_PREPROCESSOR_OTHER => 53 | TOKEN_PP_IF => 54 | TOKEN_PP_ELIF => 55
  | TOKEN_PP_ELSE => 56 | TOKEN_NUMBER => 57 | TOKEN_FLOAT_LITERAL => 58 | TOKEN_STRING => 59
  | TOKEN_CHAR_LITERAL => 60 | TOKEN_ASSIGN => 61 | TOKEN_PLUS_ASSIGN => 62
  | TOKEN_MINUS_ASSIGN => 63 | TOKEN_MULT_ASSIGN => 64 | TOKEN_DIV_ASSIGN => 65
  | TOKEN_MOD_ASSIGN => 66 | TOKEN_PLUS => 67 | TOKEN_MINUS => 68 | TOKEN_ASTERISK => 69
  | TOKEN_DIVIDE => 70 | TOKEN_MODULO => 71 | TOKEN_INCREMENT => 72 | TOKEN_DECREMENT => 73
  | TOKEN_EQUAL => 74 | TOKEN_NOT_EQUAL => 75 | TOKEN_LESS => 76 | TOKEN_LESS_EQUAL => 77
  | TOKEN_GREATER => 78 | TOKEN_GREATER_EQUAL => 79 | TOKEN_LOGICAL_AND => 80
  | TOKEN_LOGICAL_OR => 81 | TOKEN_LOGICAL_NOT => 82 | TOKEN_BITWISE_AND => 83
  | TOKEN_BITWISE_OR => 84 | TOKEN_BITWISE_XOR => 85 | TOKEN_BITWISE_NOT => 86
  | TOKEN_LEFT_SHIFT => 87 | TOKEN_RIGHT_SHIFT => 88 | TOKEN_BITWISE_AND_ASSIGN => 89
  | TOKEN_BITWISE_OR_ASSIGN => 90 | TOKEN_BITWISE_XOR_ASSIGN => 91
  | TOKEN_LEFT_SHIFT_ASSIGN => 92 | TOKEN_RIGHT_SHIFT_ASSIGN => 93 | TOKEN_SEMICOLON => 94
  | TOKEN_COLON => 95 | TOKEN_COMMA => 96 | TOKEN_DOT => 97 | TOKEN_ELLIPSIS => 98
  | TOKEN_QUESTION => 99 | TOKEN_HASH => 100 | TOKEN_DOUBLE_HASH => 101 | TOKEN_LPAREN => 102
  | TOKEN_RPAREN => 103 | TOKEN_LBRACE => 104 | TOKEN_RBRACE => 105 | TOKEN_LBRACKET => 106
  | TOKEN_RBRACKET => 107 | TOKEN_ARROW => 108 | TOKEN_LINE_COMMENT => 109
  | TOKEN_BLOCK_COMMENT => 110 | TOKEN_ASM => 111 | TOKEN_EOF => 112 | TOKEN_UNKNOWN => 113
  end.

Definition all_token_types : list TokenType :=
  [TOKEN_INT; TOKEN_FLOAT; TOKEN_CHAR; TOKEN_DOUBLE; TOKEN_LONG; TOKEN_SHORT; TOKEN_SIGNED;
   TOKEN_UNSIGNED; TOKEN_VOID; TOKEN_BOOL; TOKEN_ENUM; TOKEN_UNION; TOKEN_STRUCT; TOKEN_TYPEDEF;
   TOKEN_IF; TOKEN_ELSE; TOKEN_WHILE; TOKEN_FOR; TOKEN_DO; TOKEN_SWITCH; TOKEN_CASE;
   TOKEN_DEFAULT; TOKEN_RETURN; TOKEN_GOTO; TOKEN_BREAK; TOKEN_CONTINUE; TOKEN_EXTERN;
   TOKEN_STATIC; TOKEN_AUTO; TOKEN_REGISTER; TOKEN_THREAD_LOCAL; TOKEN_CONST; TOKEN_VOLATILE;
   TOKEN_RESTRICT; TOKEN_INLINE; TOKEN_ATOMIC; TOKEN_NORETURN; TOKEN_COMPLEX; TOKEN_IMAGINARY;
   TOKEN_NULL; TOKEN_SIZEOF; TOKEN_ALIGNOF; TOKEN_STATIC_ASSERT; TOKEN_IDENTIFIER; TOKEN_INCLUDE;
   TOKEN_INCLUDE_NEXT; TOKEN_DEFINE; TOKEN_UNDEF; TOKEN_IFDEF; TOKEN_IFNDEF; TOKEN_ENDIF;
   TOKEN_PRAGMA; TOKEN_ONCE; TOKEN_PREPROCESSOR_OTHER; TOKEN_PP_IF; TOKEN_PP_ELIF; TOKEN_PP_ELSE;
   TOKEN_NUMBER; TOKEN_FLOAT_LITERAL; TOKEN_STRING; TOKEN_CHAR_LITERAL; TOKEN_ASSIGN;
   TOKEN_PLUS_ASSIGN; TOKEN_MINUS_ASSIGN; TOKEN_MULT_ASSIGN; TOKEN_DIV_ASSIGN; TOKEN_MOD_ASSIGN;
   TOKEN_PLUS; TOKEN_MINUS; TOKEN_ASTERISK; TOKEN_DIVIDE; TOKEN_MODULO; TOKEN_INCREMENT;
   TOKEN_DECREMENT; TOKEN_EQUAL; TOKEN_NOT_EQUAL; TOKEN_LESS; TOKEN_LESS_EQUAL; TOKEN_GREATER;
   TOKEN_GREATER_EQUAL; TOKEN_LOGICAL_AND; TOKEN_LOGICAL_OR; TOKEN_LOGICAL_NOT;
   TOKEN_BITWISE_AND; TOKEN_BITWISE_OR; TOKEN_BITWISE_XOR; TOKEN_BITWISE_NOT; TOKEN_LEFT_SHIFT;
   TOKEN_RIGHT_SHIFT; TOKEN_BITWISE_AND_ASSIGN; TOKEN_BITWISE_OR_ASSIGN;
   TOKEN_BITWISE_XOR_ASSIGN; TOKEN_LEFT_SHIFT_ASSIGN; TOKEN_RIGHT_SHIFT_ASSIGN; TOKEN_SEMICOLON;
   TOKEN_COLON; TOKEN_COMMA; TOKEN_DOT; TOKEN_ELLIPSIS; TOKEN_QUESTION; TOKEN_HASH;
   TOKEN_DOUBLE_HASH; TOKEN_LPAREN; TOKEN_RPAREN; TOKEN_LBRACE; TOKEN_RBRACE; TOKEN_LBRACKET;
   TOKEN_RBRACKET; TOKEN_ARROW; TOKEN_LINE_COMMENT; TOKEN_BLOCK_COMMENT; TOKEN_ASM; TOKEN_EOF;
   TOKEN_UNKNOWN].

Lemma TokenType_code_lookup (t : TokenType) :
  all_token_types !! Z.to_nat (TokenType_code t) = Some t.
Proof. by destruct t. Qed.

Lemma TokenType_code_inj (t1 t2 : TokenType) :
  TokenType_code t1 = TokenType_code t2 -> t1 = t2.
Proof.
  intros H. pose proof (TokenType_code_lookup t1). pose proof (TokenType_code_lookup t2).
  rewrite H in *. congruence.
Qed.

#[export] Instance TokenType_eq_dec : EqDecision TokenType.
Proof.
  intros t1 t2. destruct (decide (TokenType_code t1 = TokenType_code t2)) as [H|H].
  - left. by apply TokenType_code_inj.
  - right. congruence.
Defined.

(** [t1 == t2] on enumerators, as a boolean. *)
Definition tt_eqb (t1 t2 : TokenType) : bool := TokenType_code t1 =? TokenType_code t2.

Lemma tt_eqb_spec (t1 t2 : TokenType) : tt_eqb t1 t2 = true <-> t1 = t2.
Proof.
  unfold tt_eqb. rewrite Z.eqb_eq. split; [apply TokenType_code_inj | by intros ->].
Qed.

Lemma tt_eqb_refl (t : TokenType) : tt_eqb t t = true.
Proof. by apply tt_eqb_spec. Qed.

Record SourceLocation := mkSourceLocation {
  loc_file : option string;
  loc_line : Z;
  loc_column : Z
}.

Record SourceRange := mkSourceRange {
  range_start : SourceLocation;
  range_end : SourceLocation
}.

Record Token := mkToken {
  tok_type : TokenType;
  tok_value : option string;
  tok_line : Z;
  tok_spellingLine : Z;
  tok_spellingColumn : Z;
  tok_location : SourceRange;
  tok_macroCallSite : SourceRange;
  tok_macroDefinition : SourceRange
}.

Definition null_location : SourceLocation := mkSourceLocation None 0 0.

Definition empty_source_range : SourceRange := mkSourceRange null_location null_location.

(** A token with only the fields the expression evaluator reads. *)
Definition plain_token (ty : TokenType) (value : string) (line : Z) : Token :=
  mkToken ty (Some value) line line 1 empty_source_range empty_source_range empty_source_range.

Definition kTokenBufferUnknownFile : string := "<unknown>".

Definition token_buffer_sentinel : Token :=
  let loc := mkSourceLocation (Some kTokenBufferUnknownFile) 0 0 in
  mkToken TOKEN_EOF (Some "EOF"%string) 0 0 0 (mkSourceRange loc loc)
    empty_source_range empty_source_range.

Record TokenBuffer := mkTokenBuffer {
  tb_tokens : list Token;
  tb_capacity : nat
}.

Definition tb_count (b : TokenBuffer) : nat := length (tb_tokens b).

Definition token_buffer_init : TokenBuffer := mkTokenBuffer [] 0.

Definition token_buffer_destroy (b : TokenBuffer) : TokenBuffer := mkTokenBuffer [] 0.

Definition token_buffer_append (b : TokenBuffer) (token : Token) : TokenBuffer :=
  mkTokenBuffer (tb_tokens b ++ [token])
    (if decide (tb_count b = tb_capacity b)
     then if decide (tb_capacity b = 0%nat) then 64%nat else (tb_capacity b * 2)%nat
     else tb_capacity b).

Definition token_buffer_peek (b : TokenBuffer) (index : nat) : Token :=
  if decide (tb_count b = 0%nat) then token_buffer_sentinel
  else if decide (tb_count b <= index)%nat
       then default token_buffer_sentinel (tb_tokens b !! (tb_count b - 1)%nat)
       else default token_buffer_sentinel (tb_tokens b !! index).

(** The array never holds more live tokens than it has room for. *)
Definition token_buffer_ok (b : TokenBuffer) : Prop := (tb_count b <= tb_capacity b)%nat.

Lemma token_buffer_append_ok (b : TokenBuffer) (t : Token) :
  token_buffer_ok b -> token_buffer_ok (token_buffer_append b t).
Proof.
  unfold token_buffer_ok, token_buffer_append, tb_count; simpl. intros H.
  rewrite length_app; simpl. repeat case_decide; lia.
Qed.

Lemma token_buffer_append_tokens (b : TokenBuffer) (t : Token) :
  tb_tokens (token_buffer_append b t) = tb_tokens b ++ [t].
Proof. done. Qed.

#[export] Hint Resolve token_buffer_append_ok : fisics.
