(* ===== verification/Lexer.v ===== *)
(** * The lexer (src/Lexer/lexer.c, lexer_token_handlers.c, keyword_lookup.c).

    [LexerText] is what a lexer never changes: the translated source with its position maps,
    the raw source and the file name.  [Lexer] is what it changes: the cursor, the line
    counters, the error count, with two ghost lists: the errors reported and the undefined
    operations executed.

    Reads are checked: [rd] of an index behind the terminating NUL is [None], and so is a
    loop out of fuel; [LexerSafety] proves that neither happens. *)
From S2P Require Import Prelude CType LexerSource LexerChars Tokens.

Record LexerText := mkLexerText {
  lt_source : list ascii;          (* translated, without the terminator *)
  lt_filePath : option string;
  lt_rawSource : list ascii;
  lt_rawLineMap : list Z;
  lt_rawColumnMap : list Z;
  lt_enableTrigraphs : bool
}.

Record LexerError := mkLexerError {
  le_message : string;
  le_got : string;
  le_file : string;
  le_line : Z;
  le_column : Z
}.

(** Undefined operations: [free] of a string constant, overflow of an [int]. *)
Inductive UndefinedOp : Set := FreeOfConstant | IntOverflow.

Record Lexer := mkLexer {
  lx_position : nat;
  lx_line : Z;
  lx_lineStart : nat;
  lx_fatalErrorCount : Z;
  lx_errors : list LexerError;
  lx_undefined : list UndefinedOp
}.

Record LexerMark := mkMark { mk_position : nat; mk_line : Z; mk_lineStart : nat }.

Definition lexer_mark (lx : Lexer) : LexerMark :=
  mkMark (lx_position lx) (lx_line lx) (lx_lineStart lx).

(** [initLexer]: the source is translated, the cursor is at its start. *)
Definition initLexer (source : list ascii) (filePath : option string) (enableTrigraphs : bool)
    : option (LexerText * Lexer) :=
  tr ← translate_source source enableTrigraphs;
  Some (mkLexerText (tr_out tr) filePath source (tr_lineMap tr) (tr_columnMap tr) enableTrigraphs,
        mkLexer 0 1 0 0 [] []).

Definition lexer_compute_column (position lineStart : nat) : Z :=
  let column := Z.of_nat position - Z.of_nat lineStart + 1 in
  if column <? 1 then 1 else column.

(** ** Keywords *)

Definition kKeywords : list string :=
  ["int"; "char"; "float"; "double"; "long"; "short"; "signed"; "unsigned"; "enum"; "union";
   "struct"; "typedef"; "void"; "if"; "else"; "for"; "while"; "do"; "switch"; "case"; "default";
   "return"; "goto"; "break"; "continue"; "extern"; "static"; "auto"; "register";
   "_Thread_local"; "__thread"; "const"; "volatile"; "restrict"; "inline"; "_Atomic";
   "_Noreturn"; "sizeof"; "_Alignof"; "alignof"; "_Static_assert"; "_Bool"; "asm"; "_Complex";
   "_Imaginary"; "pragma"; "once"]%string.

Definition in_keyword_set (str : string) : option string :=
  List.find (fun name => String.eqb name str) kKeywords.

Definition keyword_types : list (list string * TokenType) :=
  [(["int"], TOKEN_INT); (["char"], TOKEN_CHAR); (["float"], TOKEN_FLOAT);
   (["double"], TOKEN_DOUBLE); (["_Bool"], TOKEN_BOOL);
   (["_Complex"; "__complex"; "__complex__"], TOKEN_COMPLEX);
   (["_Imaginary"; "__imaginary"; "__imaginary__"], TOKEN_IMAGINARY);
   (["long"], TOKEN_LONG); (["short"], TOKEN_SHORT); (["signed"], TOKEN_SIGNED);
   (["__signed"; "__signed__"], TOKEN_SIGNED); (["unsigned"], TOKEN_UNSIGNED);
   (["enum"], TOKEN_ENUM); (["union"], TOKEN_UNION); (["struct"], TOKEN_STRUCT);
   (["typedef"], TOKEN_TYPEDEF); (["void"], TOKEN_VOID);
   (["__inline"; "__inline__"], TOKEN_INLINE); (["if"], TOKEN_IF); (["else"], TOKEN_ELSE);
   (["for"], TOKEN_FOR); (["while"], TOKEN_WHILE); (["do"], TOKEN_DO);
   (["switch"], TOKEN_SWITCH); (["case"], TOKEN_CASE); (["default"], TOKEN_DEFAULT);
   (["return"], TOKEN_RETURN); (["goto"], TOKEN_GOTO); (["break"], TOKEN_BREAK);
   (["continue"], TOKEN_CONTINUE); (["extern"], TOKEN_EXTERN); (["static"], TOKEN_STATIC);
   (["auto"], TOKEN_AUTO); (["register"], TOKEN_REGISTER);
   (["_Thread_local"; "__thread"], TOKEN_THREAD_LOCAL); (["const"], TOKEN_CONST);
   (["__const"; "__const__"], TOKEN_CONST); (["volatile"], TOKEN_VOLATILE);
   (["restrict"; "__restrict"; "__restrict__"], TOKEN_RESTRICT); (["inline"], TOKEN_INLINE);
   (["_Atomic"], TOKEN_ATOMIC); (["_Noreturn"], TOKEN_NORETURN); (["sizeof"], TOKEN_SIZEOF);
   (["_Alignof"; "alignof"], TOKEN_ALIGNOF); (["_Static_assert"], TOKEN_STATIC_ASSERT);
   (["asm"], TOKEN_ASM); (["pragma"], TOKEN_PRAGMA); (["once"], TOKEN_ONCE)]%string.

(** The first row that names the word. *)
Definition word_type (rows : list (list string * TokenType)) (word : string) : TokenType :=
  match List.find (fun row => existsb (String.eqb word) row.1) rows with
  | Some row => row.2
  | None => TOKEN_IDENTIFIER
  end.

Definition keywordToTokenType (word : string) : TokenType := word_type keyword_types word.

(** The alternate spellings tested after the keyword table. *)
Definition alternate_types : list (list string * TokenType) :=
  [(["__signed"; "__signed__"], TOKEN_SIGNED); (["_Float16"; "__fp16"], TOKEN_FLOAT);
   (["__inline"; "__inline__"], TOKEN_INLINE); (["__const"; "__const__"], TOKEN_CONST);
   (["__restrict"; "__restrict__"], TOKEN_RESTRICT); (["__asm"; "__asm__"], TOKEN_ASM);
   (["__complex"; "__complex__"], TOKEN_COMPLEX);
   (["__imaginary"; "__imaginary__"], TOKEN_IMAGINARY)]%string.

Definition identifier_type (text : string) : TokenType :=
  match in_keyword_set text with
  | Some name => keywordToTokenType name
  | None => word_type alternate_types text
  end.

Definition directive_types : list (list string * TokenType) :=
  [(["include"], TOKEN_INCLUDE); (["include_next"], TOKEN_INCLUDE_NEXT);
   (["define"], TOKEN_DEFINE); (["undef"], TOKEN_UNDEF); (["ifdef"], TOKEN_IFDEF);
   (["ifndef"], TOKEN_IFNDEF); (["if"], TOKEN_PP_IF); (["elif"], TOKEN_PP_ELIF);
   (["else"], TOKEN_PP_ELSE); (["endif"], TOKEN_ENDIF); (["pragma"], TOKEN_PRAGMA)]%string.

Definition directive_type (directive : string) : TokenType :=
  match List.find (fun row => existsb (String.eqb directive) row.1) directive_types with
  | Some row => row.2
  | None => TOKEN_PREPROCESSOR_OTHER
  end.

Definition system_prefixes : list string :=
  ["/usr/include/"; "/usr/local/include/"; "/opt/homebrew/include/"; "/Library/Developer/";
   "/Applications/Xcode.app/"; "/Applications/Xcode-beta.app/"; "/Library/Frameworks/";
   "/System/Library/"]%string.

Definition lexer_is_system_header_path (file : string) : bool :=
  existsb (fun p => String.prefix p file) system_prefixes.

(** ** One lexer *)

Section Lexing.
Context (T : LexerText).

Definition text_length : nat := length (lt_source T).
Definition char_at (p : nat) : ascii := at_index (lt_source T) p.

(** [lexer->source[p]]: the terminator is readable, what is behind it is not. *)
Definition rd (p : nat) : option ascii :=
  if decide (p <= text_length)%nat then Some (char_at p) else None.

(** [while (f (lexer->source[p])) p++], for an [f] the terminator fails. *)
Definition scan (f : ascii -> bool) (p : nat) : option nat :=
  if decide (p <= text_length)%nat
  then Some (p + length (span f (drop p (lt_source T))).1)%nat else None.

(** The text between two positions. *)
Definition slice (a b : nat) : list ascii := take (b - a) (drop a (lt_source T)).
Definition slice_string (a b : nat) : string := string_of_list_ascii (slice a b).

Definition at_eof (p : nat) : bool := bool_decide (text_length <= p)%nat || (char_at p =c NUL).
Definition isEOF (lx : Lexer) : bool := at_eof (lx_position lx).

Definition seek (lx : Lexer) (p : nat) : Lexer :=
  mkLexer p (lx_line lx) (lx_lineStart lx) (lx_fatalErrorCount lx) (lx_errors lx) (lx_undefined lx).

(** Over a newline at the cursor. *)
Definition newline (lx : Lexer) : Lexer :=
  mkLexer (S (lx_position lx)) (lx_line lx + 1) (S (lx_position lx)) (lx_fatalErrorCount lx)
    (lx_errors lx) (lx_undefined lx).

Definition undefined (lx : Lexer) (ops : list UndefinedOp) : Lexer :=
  mkLexer (lx_position lx) (lx_line lx) (lx_lineStart lx) (lx_fatalErrorCount lx)
    (lx_errors lx) (ops ++ lx_undefined lx).

(** *** Locations and errors *)

Definition lexer_file_path : string := default "<unknown>"%string (lt_filePath T).

Definition lexer_raw_location_for_position (position : nat) (fallbackLine : Z)
    (fallbackLineStart : nat) : Z * Z :=
  let translatedColumn := lexer_compute_column position fallbackLineStart in
  match lt_rawLineMap T !! position, lt_rawColumnMap T !! position with
  | Some mappedLine, Some mappedColumn =>
      if 0 <? mappedLine then
        (mappedLine, if negb (mappedLine =? fallbackLine) && (0 <? mappedColumn)
                     then mappedColumn else translatedColumn)
      else (fallbackLine, translatedColumn)
  | _, _ => (fallbackLine, translatedColumn)
  end.

Definition lexer_mark_source_location (mark : LexerMark) : Z * Z :=
  lexer_raw_location_for_position (mk_position mark) (mk_line mark) (mk_lineStart mark).

Definition report_lexer_error (lx : Lexer) (start : LexerMark) (message got : string)
    : option Lexer :=
  let '(rawLine, rawColumn) := lexer_mark_source_location start in
  '(logicalLine, logicalFile) ← lexer_map_logical_location (lt_rawSource T) rawLine;
  let file := match logicalFile with
              | Some f => string_of_list_ascii f | None => lexer_file_path end in
  Some (mkLexer (lx_position lx) (lx_line lx) (lx_lineStart lx) (lx_fatalErrorCount lx + 1)
          (mkLexerError message got file logicalLine rawColumn :: lx_errors lx) (lx_undefined lx)).

Definition report_unsupported_ucn_identifier (lx : Lexer) (start : LexerMark) (text : string)
    : option Lexer :=
  report_lexer_error lx start
    "universal character names in identifiers are not supported yet" text.

Definition lexer_build_location (position : nat) (line : Z) (lineStart : nat) : SourceLocation :=
  mkSourceLocation (Some lexer_file_path) line (lexer_compute_column position lineStart).

Definition lexer_build_range (lx : Lexer) (start : LexerMark) : SourceRange :=
  mkSourceRange (lexer_build_location (mk_position start) (mk_line start) (mk_lineStart start))
    (lexer_build_location (lx_position lx) (lx_line lx) (lx_lineStart lx)).

Definition make_token (lx : Lexer) (type : TokenType) (value : string) (start : LexerMark) : Token :=
  let '(spellingLine, spellingColumn) := lexer_mark_source_location start in
  mkToken type (Some value) (mk_line start) spellingLine spellingColumn
    (lexer_build_range lx start) empty_source_range empty_source_range.

(** A token from [start] to the cursor [lx]. *)
Definition token (lx : Lexer) (type : TokenType) (value : string) (start : LexerMark)
    : option (Token * Lexer) := Some (make_token lx type value start, lx).

(** An error at [mark], then an unknown token. *)
Definition error_token (lx : Lexer) (mark start : LexerMark) (message got value : string)
    : option (Token * Lexer) :=
  lx ← report_lexer_error lx mark message got;
  token lx TOKEN_UNKNOWN value start.

(** [prepend_literal_prefix]: it frees the old value, which is a constant when the literal
    was refused ([heap = false]). *)
Definition prepend_literal_prefix (tok : Token) (prefix : string) : Token :=
  mkToken (tok_type tok) (append prefix <$> tok_value tok) (tok_line tok) (tok_spellingLine tok)
    (tok_spellingColumn tok) (tok_location tok) (tok_macroCallSite tok) (tok_macroDefinition tok).

Definition prepend_to_literal (r : option (Token * Lexer)) (prefix : string)
    : option (Token * Lexer) :=
  '(tok, lx) ← r;
  Some (prepend_literal_prefix tok prefix,
        if tt_eqb (tok_type tok) TOKEN_UNKNOWN then undefined lx [FreeOfConstant] else lx).

Definition mark_ambiguous_narrow_string_literal (tok : Token) : Token :=
  match tok_value tok with
  | Some v => if tt_eqb (tok_type tok) TOKEN_STRING && (String.prefix "W|" v || String.prefix "U8|" v)
              then prepend_literal_prefix tok "N|" else tok
  | None => tok
  end.

(** *** Identifiers *)

Definition from (p : nat) : list ascii := drop p (lt_source T).

(** Every iteration reads a character. *)
Fixpoint identifier_end (fuel p : nat) : option nat :=
  match fuel with
  | O => None
  | S fuel' =>
      current ← rd p;
      if is_ident_char current then identifier_end fuel' (S p)
      else let ucnLength := lexer_identifier_ucn_length (from p) in
           if decide (0 < ucnLength)%nat then identifier_end fuel' (p + ucnLength)
           else let utf8Length := lexer_identifier_utf8_length (from p) in
                if decide (0 < utf8Length)%nat then identifier_end fuel' (p + utf8Length)
                else Some p
  end.

Definition handleIdentifierOrKeyword (lx : Lexer) : option (Token * Lexer) :=
  let start := lexer_mark lx in
  e ← identifier_end (S text_length) (lx_position lx);
  let text := string_of_list_ascii
                (lexer_normalize_identifier_spelling (slice (lx_position lx) e)) in
  token (seek lx e) (identifier_type text) text start.

(** *** Numbers *)

Record NumberPrefix := mkPrefix {
  np_end : nat;
  np_isHex : bool;
  np_isBinary : bool;
  np_invalidOctalDigit : bool;
  np_invalidBinaryDigit : bool;
  np_radixDigits : nat
}.

Definition is_x (c : ascii) : bool := (c =c "x") || (c =c "X").
Definition is_b (c : ascii) : bool := (c =c "b") || (c =c "B").
Definition is_binary_digit (c : ascii) : bool := (c =c "0") || (c =c "1").
Definition is_89 (c : ascii) : bool := (c =c "8") || (c =c "9").

(** The digits up to a point, an exponent or a suffix. *)
Definition number_prefix (startPos : nat) : option NumberPrefix :=
  c0 ← rd startPos;
  if c0 =c "0" then
    c1 ← rd (S startPos);
    if is_x c1 then
      e ← scan is_xdigit (startPos + 2);
      Some (mkPrefix e true false false false (e - (startPos + 2)))
    else if is_b c1 then
      e1 ← scan is_binary_digit (startPos + 2);
      e2 ← scan is_digit e1;
      Some (mkPrefix e2 false true false (bool_decide (e1 < e2)%nat) (e1 - (startPos + 2)))
    else
      e ← scan is_digit startPos;
      Some (mkPrefix e false false (existsb is_89 (slice startPos e)) false 0)
  else
    e ← scan is_digit startPos;
    Some (mkPrefix e false false false false 0).

(** A point and the digits behind it: the end and, if there was one, how many hex digits. *)
Definition number_fraction (isHex : bool) (p : nat) : option (nat * bool * nat) :=
  c ← rd p;
  if c =c "." then
    e ← scan (if isHex then is_xdigit else is_digit) (S p);
    Some (e, true, if isHex then (e - S p)%nat else 0%nat)
  else Some (p, false, 0%nat).

Definition is_exponent_mark (isHex : bool) (c : ascii) : bool :=
  if isHex then (c =c "p") || (c =c "P") else (c =c "e") || (c =c "E").

(** [inl p]: an exponent without digits, its text ends at [p]. *)
Definition number_exponent (isHex : bool) (p : nat) : option (nat + nat * bool) :=
  c ← rd p;
  if is_exponent_mark isHex c then
    s ← rd (S p);
    let p' := if (s =c "+") || (s =c "-") then S (S p) else S p in
    e ← scan is_digit p';
    if decide (e = p') then e' ← scan is_ident_char p'; Some (inl e') else Some (inr (e, true))
  else Some (inr (p, false)).

(** The suffix characters: one [u], two [l]s, any [f], [i] and [j]. *)
Fixpoint number_suffix (fuel p : nat) (seenU : bool) (lCount : nat) (isFloat : bool)
    : option (nat * bool) :=
  match fuel with
  | O => None
  | S fuel' =>
      c ← rd p;
      if (c =c "u") || (c =c "U") then
        if seenU then Some (p, isFloat) else number_suffix fuel' (S p) true lCount isFloat
      else if (c =c "l") || (c =c "L") then
        if decide (2 <= lCount)%nat then Some (p, isFloat)
        else number_suffix fuel' (S p) seenU (S lCount) isFloat
      else if (c =c "f") || (c =c "F") || (c =c "i") || (c =c "I") || (c =c "j") || (c =c "J") then
        number_suffix fuel' (S p) seenU lCount true
      else Some (p, isFloat)
  end.

Definition numeric_diagnostic_mark_if_raw_line_changed (start candidate : LexerMark) : LexerMark :=
  let startRawLine := (lexer_mark_source_location start).1 in
  let candidateRawLine := (lexer_mark_source_location candidate).1 in
  if (0 <? startRawLine) && (0 <? candidateRawLine) && negb (startRawLine =? candidateRawLine)
  then candidate else start.

(** The refusal of a number that ends at [e]. *)
Definition number_error (lx : Lexer) (e : nat) (mark : LexerMark) (message : string)
    : option (Token * Lexer) :=
  let text := slice_string (lx_position lx) e in
  error_token (seek lx e) mark (lexer_mark lx) message text text.

Definition handleNumber (lx : Lexer) : option (Token * Lexer) :=
  let start := lexer_mark lx in
  np ← number_prefix (lx_position lx);
  '(pf, sawFraction, hexFractionDigits) ← number_fraction (np_isHex np) (np_end np);
  ex ← number_exponent (np_isHex np) pf;
  match ex with
  | inl e =>
      number_error lx e
        (numeric_diagnostic_mark_if_raw_line_changed start (lexer_mark (seek lx pf)))
        "Malformed floating literal exponent"
  | inr (pe, sawExp) =>
      '(e, isFloat) ← number_suffix (S text_length) pe false 0 (sawFraction || sawExp);
      c ← rd e;
      let isBinary := np_isBinary np in
      let isHex := np_isHex np in
      if isBinary && (sawFraction || sawExp || isFloat || (c =c "p") || (c =c "P")) then
        e ← (if (c =c "p") || (c =c "P") then scan is_ident_char e else Some e);
        number_error lx e start "Binary literals do not support fractional or exponent forms"
      else if isBinary && np_invalidBinaryDigit np then
        number_error lx e start "Invalid digit in binary literal"
      else if isBinary && bool_decide (np_radixDigits np = 0%nat) then
        number_error lx e start "Binary literal requires at least one binary digit"
      else if negb isHex && negb isBinary && np_invalidOctalDigit np && negb sawFraction &&
              negb sawExp && negb isFloat then
        number_error lx e start "Invalid digit in octal literal"
      else if isHex && negb sawFraction && bool_decide (np_radixDigits np = 0%nat) then
        number_error lx e
          (numeric_diagnostic_mark_if_raw_line_changed start (lexer_mark (seek lx e)))
          "Hex literal requires at least one hex digit"
      else if isHex && sawFraction && bool_decide (np_radixDigits np = 0%nat) &&
              bool_decide (hexFractionDigits = 0%nat) then
        number_error lx e start "Hex floating literal requires at least one mantissa digit"
      else if isHex && sawFraction && negb sawExp then
        number_error lx e start "Hex floating literal requires a 'p' exponent"
      else if is_alpha c || (c =c "_") then
        e ← scan is_ident_char e;
        number_error lx e start "Invalid numeric literal suffix"
      else
        token (seek lx e) (if isFloat then TOKEN_FLOAT_LITERAL else TOKEN_NUMBER)
          (slice_string (lx_position lx) e) start
  end.

(** *** String literals *)

(** How the scan of a literal ends: closed, the cursor on the closing quote for a string and
    behind it for a character; or refused, with the message, what was found, the token's value. *)
Inductive StringEnd : Type :=
| StringClosed (p : nat)
| StringRefused (p : nat) (message got value : string).

Fixpoint consume_string_literal_tail_after_error (fuel p : nat) : option nat :=
  match fuel with
  | O => None
  | S fuel' =>
      if at_eof p then Some p
      else
        c ← rd p;
        if c =c DQUOTE then Some (S p)
        else if c =c NEWLINE then Some p
        else if c =c BACKSLASH then
          if at_eof (S p) then Some (S p)
          else e ← rd (S p);
               if e =c NEWLINE then Some (S p)
               else consume_string_literal_tail_after_error fuel' (S (S p))
        else consume_string_literal_tail_after_error fuel' (S p)
  end.

Definition string_refused (p : nat) (message got value : string) : option (nat + StringEnd) :=
  p ← consume_string_literal_tail_after_error (S text_length) p;
  Some (inr (StringRefused p message got value)).

Definition is_simple_escape (e : ascii) : bool :=
  existsb (Ascii.eqb e) ["n"; "t"; "r"; "b"; "f"; "a"; "v"; BACKSLASH; QUOTE; DQUOTE; "?"]%char.

Definition is_octal (c : ascii) : bool := (48 <=? chr c) && (chr c <=? 55).

(** At most [n] characters that satisfy [f], from [p]. *)
Fixpoint scan_at_most (f : ascii -> bool) (n p : nat) : option nat :=
  match n with
  | O => Some p
  | S n' => c ← rd p; if f c then scan_at_most f n' (S p) else Some p
  end.

(** [format_simple_escape] *)
Definition format_simple_escape (e : ascii) : string := string_of_list_ascii [BACKSLASH; e].

(** The escape whose character behind the backslash is [e], at [p]: the position behind it. *)
Definition string_escape (p : nat) (e : ascii) : option (nat + StringEnd) :=
  if is_simple_escape e then Some (inl (S p))
  else if e =c "x" then
    h ← rd (S p);
    if is_xdigit h then e ← scan is_xdigit (S p); Some (inl e)
    else string_refused (S p) "Invalid \x escape in string literal" "\x" "Invalid \x escape"
  else if e =c "u" then
    q ← scan_at_most is_xdigit 4 (S p);
    if decide (q = S p + 4)%nat then Some (inl q)
    else string_refused q "Invalid \u escape in string literal" "\u" "Invalid \u escape"
  else if e =c "U" then
    q ← scan_at_most is_xdigit 8 (S p);
    if decide (q = S p + 8)%nat then Some (inl q)
    else string_refused q "Invalid \U escape in string literal" "\U" "Invalid \U escape"
  else if is_octal e then
    q ← scan_at_most is_octal 2 (S p);
    Some (inl q)
  else string_refused p "Invalid escape in string literal" (format_simple_escape e) "Invalid escape".

Definition unterminated_string (p : nat) : StringEnd :=
  StringRefused p "Unterminated string literal" (string_of_list_ascii [DQUOTE]) "Unterminated string".

Fixpoint string_loop (fuel p : nat) : option StringEnd :=
  match fuel with
  | O => None
  | S fuel' =>
      c ← rd p;
      if (c =c NUL) || (c =c NEWLINE) then Some (unterminated_string p)
      else if c =c DQUOTE then Some (StringClosed p)
      else if c =c BACKSLASH then
        e ← rd (S p);
        if (e =c NUL) || (e =c NEWLINE) then Some (unterminated_string (S p))
        else r ← string_escape (S p) e;
             match r with
             | inl p => string_loop fuel' p
             | inr r => Some r
             end
      else string_loop fuel' (S p)
  end.

(** At the opening quote. *)
Definition handleStringLiteral (lx : Lexer) : option (Token * Lexer) :=
  let start := lexer_mark lx in
  let first := S (lx_position lx) in
  r ← string_loop (S text_length) first;
  match r with
  | StringClosed p => token (seek lx (S p)) TOKEN_STRING (slice_string first p) start
  | StringRefused p message got value => error_token (seek lx p) start start message got value
  end.

(** *** Character literals *)

(** The value read so far: the packed bytes, how many characters, the last one's value, the
    overflows of [int]. *)
Record CharState := mkCharState {
  cs_accum : Z;
  cs_count : nat;
  cs_lastVal : Z;
  cs_overflow : list UndefinedOp
}.

Inductive CharEnd : Type :=
| CharClosed (p : nat) (st : CharState)
| CharRefused (p : nat) (message got value : string) (overflow : list UndefinedOp).

Fixpoint consume_char_literal_tail_after_error (fuel p : nat) : option nat :=
  match fuel with
  | O => None
  | S fuel' =>
      if at_eof p then Some p
      else c ← rd p;
           if c =c QUOTE then Some (S p)
           else if c =c NEWLINE then Some p
           else consume_char_literal_tail_after_error fuel' (S p)
  end.

(** An [int] result: the wrapped value, and whether it overflowed. *)
Definition int_result (z : Z) : Z * list UndefinedOp :=
  (i32 z, if inS 32 z then [] else [IntOverflow]).

(** [n] hex digits at most, from [p]: where they end, their value, how many. *)
Fixpoint char_hex (n p : nat) (hex : Z) (count : nat) : option (nat * Z * nat * list UndefinedOp) :=
  match n with
  | O => Some (p, hex, count, [])
  | S n' =>
      h ← rd p;
      if is_xdigit h then
        let '(hex, o) := int_result (Z.lor (Z.shiftl hex 4) (digit_value h)) in
        '(p, hex, count, o') ← char_hex n' (S p) hex (S count);
        Some (p, hex, count, o ++ o')
      else Some (p, hex, count, [])
  end.

(** All the hex digits of [ds], as [hex * 16 + digit] in [int]. *)
Definition char_hex_value (ds : list ascii) : Z * list UndefinedOp :=
  foldl (fun '(hex, o) h =>
    let '(m, o1) := int_result (hex * 16) in
    let '(v, o2) := int_result (m + digit_value h) in (v, o ++ o1 ++ o2)) (0, []) ds.

Definition simple_escapes : list (ascii * Z) :=
  [("n", 10); ("t", 9); ("r", 13); ("b", 8); ("f", 12); ("a", 7); ("v", 11);
   (BACKSLASH, 92); (QUOTE, 39); (DQUOTE, 34); ("?", 63)]%char.

(** An escape's end: its value and the position behind it, or a refusal. *)
Definition EscapeEnd : Type := (nat * Z + nat * string * string * string) * list UndefinedOp.

Definition char_refused (p : nat) (message got value : string) (o : list UndefinedOp)
    : option EscapeEnd :=
  p ← consume_char_literal_tail_after_error (S text_length) p;
  Some (inr (p, message, got, value), o).

(** The escape of [e], [p] behind it. *)
Definition char_escape (p : nat) (e : ascii) : option EscapeEnd :=
  match List.find (fun row => e =c row.1) simple_escapes with
  | Some row => Some (inl (p, row.2), [])
  | None =>
      if e =c "u" then
        '(p, hex, count, o) ← char_hex 4 p 0 0;
        if decide (count = 4%nat) then Some (inl (p, hex), o)
        else char_refused p "Invalid \u escape in character literal" "\u" "Invalid \u escape" o
      else if e =c "U" then
        '(p, hex, count, o) ← char_hex 8 p 0 0;
        if decide (count = 8%nat) then Some (inl (p, hex), o)
        else char_refused p "Invalid \U escape in character literal" "\U" "Invalid \U escape" o
      else if e =c "x" then
        q ← scan is_xdigit p;
        if decide (q = p)
        then char_refused p "Invalid \x escape in character literal" "\x" "Invalid \x escape" []
        else let '(hex, o) := char_hex_value (slice p q) in Some (inl (q, hex), o)
      else if is_octal e then
        q ← scan_at_most is_octal 2 p;
        Some (inl (q, foldl (fun oct d => Z.shiftl oct 3 + (chr d - 48)) (chr e - 48) (slice p q)), [])
      else char_refused p "Invalid escape in character literal" (format_simple_escape e)
             "Invalid escape" []
  end.

Definition add_char (st : CharState) (val : Z) (o : list UndefinedOp) : CharState :=
  mkCharState
    (if decide (cs_count st = 0%nat) then Z.land val 255
     else Z.lor (u64 (Z.shiftl (cs_accum st) 8)) (Z.land val 255))
    (S (cs_count st)) val (o ++ cs_overflow st).

Fixpoint char_loop (fuel p : nat) (st : CharState) : option CharEnd :=
  match fuel with
  | O => None
  | S fuel' =>
      ch ← rd p;
      if (ch =c NUL) || (ch =c NEWLINE)
      then Some (CharRefused p "Unterminated character literal" "'" "Invalid character literal"
                   (cs_overflow st))
      else if ch =c QUOTE then Some (CharClosed (S p) st)
      else if ch =c BACKSLASH then
        e ← rd (S p);
        '(r, o) ← char_escape (S (S p)) e;
        match r with
        | inl (p, val) => char_loop fuel' p (add_char st val o)
        | inr (p, message, got, value) => Some (CharRefused p message got value (o ++ cs_overflow st))
        end
      else char_loop fuel' (S p) (add_char st (chr ch) [])
  end.

Definition char_value (st : CharState) : Z :=
  if decide (cs_count st = 1%nat) then u64 (cs_lastVal st) else cs_accum st.

(** At the opening quote. *)
Definition handleCharLiteral (lx : Lexer) : option (Token * Lexer) :=
  let start := lexer_mark lx in
  r ← char_loop (S text_length) (S (lx_position lx)) (mkCharState 0 0 0 []);
  match r with
  | CharRefused p message got value o =>
      error_token (undefined (seek lx p) o) start start message got value
  | CharClosed p st =>
      let lx := undefined (seek lx p) (cs_overflow st) in
      if decide (cs_count st = 0%nat)
      then error_token lx start start "Empty character literal" "''" "Invalid character literal"
      else token lx TOKEN_CHAR_LITERAL (string_of_list_ascii (decimal_digits 20 (char_value st))) start
  end.

(** *** Directives *)

Definition is_line_blank (c : ascii) : bool := is_blank c || (c =c RETURN).

(** [while (isspace (...))], counting lines. *)
Fixpoint skip_space (fuel : nat) (lx : Lexer) : option Lexer :=
  match fuel with
  | O => None
  | S fuel' =>
      c ← rd (lx_position lx);
      if is_space c then
        skip_space fuel' (if c =c NEWLINE then newline lx else seek lx (S (lx_position lx)))
      else Some lx
  end.

(** At the [#]. *)
Definition handlePreprocessorDirective (lx : Lexer) : option (Token * Lexer) :=
  let start := lexer_mark lx in
  let p := lx_position lx in
  let atLineStart := forallb is_line_blank (slice (lx_lineStart lx) p) in
  if negb atLineStart then
    c ← rd (S p);
    if c =c "#" then token (seek lx (S (S p))) TOKEN_DOUBLE_HASH "##" start
    else token (seek lx (S p)) TOKEN_HASH "#" start
  else
    lx ← skip_space (S text_length) (seek lx (S p));
    c ← rd (lx_position lx);
    if negb (is_alpha c) && negb (c =c "_") then token lx TOKEN_HASH "#" start
    else
      e ← scan is_ident_char (lx_position lx);
      let directive := slice_string (lx_position lx) e in
      token (seek lx e) (directive_type directive) directive start.

(** *** Comments *)

(** The body of a block comment: behind the [*/], or, when there is none, at the terminator. *)
Fixpoint block_comment (fuel : nat) (lx : Lexer) : option (Lexer * bool) :=
  match fuel with
  | O => None
  | S fuel' =>
      let p := lx_position lx in
      c ← rd p;
      n ← (if c =c "*" then rd (S p) else Some NUL);
      if (c =c "*") && (n =c "/") then Some (seek lx (S (S p)), true)
      else if c =c NUL then Some (lx, false)
      else block_comment fuel' (if c =c NEWLINE then newline lx else seek lx (S p))
  end.

(** At a [/]; [next] is the lexer behind a comment. *)
Definition handleComment (next : Lexer -> option (Token * Lexer)) (lx : Lexer)
    : option (Token * Lexer) :=
  let start := lexer_mark lx in
  let p := lx_position lx in
  c ← rd p;
  n ← (if c =c NUL then Some NUL else rd (S p));
  if (c =c NUL) || (n =c NUL) then token (seek lx (S p)) TOKEN_DIVIDE "/" start
  else if n =c "=" then token (seek lx (S (S p))) TOKEN_DIV_ASSIGN "/=" start
  else if n =c "/" then
    e ← scan (fun c => negb (c =c NEWLINE) && negb (c =c NUL)) (S (S p));
    next (seek lx e)
  else if n =c "*" then
    '(lx, closed) ← block_comment (S text_length) (seek lx (S (S p)));
    if (closed : bool) then next lx
    else error_token lx start start "Unterminated block comment" "/*" "Unterminated comment"
  else token (seek lx (S p)) TOKEN_DIVIDE "/" start.

(** *** Operators and punctuation *)

Definition bad_text (bad : ascii) : string :=
  if is_print bad then string_of_list_ascii [bad]
  else let hex d := if d <? 10 then ascii_of_N (Z.to_N (48 + d)) else ascii_of_N (Z.to_N (55 + d)) in
       string_of_list_ascii [BACKSLASH; "x"%char; hex (chr bad / 16); hex (chr bad mod 16)].

Definition handleUnknownToken (lx : Lexer) : option (Token * Lexer) :=
  let start := lexer_mark lx in
  let p := lx_position lx in
  bad ← rd p;
  if bad =c "@" then
    if lexer_is_system_header_path lexer_file_path then token (seek lx (S p)) TOKEN_UNKNOWN "@" start
    else error_token (seek lx (S p)) start start "Invalid character in source" "@" "ERROR"
  else error_token (seek lx (S p)) start start "Invalid character in source" (bad_text bad) "ERROR".

Definition single_punctuation : list (ascii * (TokenType * string)) :=
  [("?"%char, (TOKEN_QUESTION, "?")); (";"%char, (TOKEN_SEMICOLON, ";")); (","%char, (TOKEN_COMMA, ","));
   ("("%char, (TOKEN_LPAREN, "(")); (")"%char, (TOKEN_RPAREN, ")")); ("{"%char, (TOKEN_LBRACE, "{"));
   ("}"%char, (TOKEN_RBRACE, "}")); ("["%char, (TOKEN_LBRACKET, "[")); ("]"%char, (TOKEN_RBRACKET, "]"));
   (":"%char, (TOKEN_COLON, ":"))]%string.

Definition handlePunctuation (lx : Lexer) : option (Token * Lexer) :=
  let start := lexer_mark lx in
  let p := lx_position lx in
  current ← rd p;
  if current =c "." then
    c1 ← rd (S p);
    c2 ← (if c1 =c "." then rd (S (S p)) else Some NUL);
    if (c1 =c ".") && (c2 =c ".") then token (seek lx (p + 3)) TOKEN_ELLIPSIS "..." start
    else token (seek lx (S p)) TOKEN_DOT "." start
  else match List.find (fun row => current =c row.1) single_punctuation with
       | Some row => token (seek lx (S p)) row.2.1 row.2.2 start
       | None => token (seek lx (S p)) TOKEN_UNKNOWN "Unknown punctuation" start
       end.

(** An operator's longer forms, tested in order at the character behind it: that character,
    the token, and the token when [=] follows, if the form has one. *)
Definition Form : Type := ascii * (TokenType * string) * option (TokenType * string).

Definition Operator : Type := ascii * (TokenType * string) * list Form.

Definition operator_forms : list Operator :=
  let eq ty v : Form := ("="%char, (ty, v), None) in
  [("="%char, (TOKEN_ASSIGN, "="), [eq TOKEN_EQUAL "=="]);
   ("+"%char, (TOKEN_PLUS, "+"),
     [("+"%char, (TOKEN_INCREMENT, "++"), None); eq TOKEN_PLUS_ASSIGN "+="]);
   ("-"%char, (TOKEN_MINUS, "-"),
     [("-"%char, (TOKEN_DECREMENT, "--"), None); eq TOKEN_MINUS_ASSIGN "-=";
      (">"%char, (TOKEN_ARROW, "->"), None)]);
   ("*"%char, (TOKEN_ASTERISK, "*"), [eq TOKEN_MULT_ASSIGN "*="]);
   ("%"%char, (TOKEN_MODULO, "%"), [eq TOKEN_MOD_ASSIGN "%="]);
   ("<"%char, (TOKEN_LESS, "<"),
     [("<"%char, (TOKEN_LEFT_SHIFT, "<<"), Some (TOKEN_LEFT_SHIFT_ASSIGN, "<<="));
      eq TOKEN_LESS_EQUAL "<="]);
   (">"%char, (TOKEN_GREATER, ">"),
     [(">"%char, (TOKEN_RIGHT_SHIFT, ">>"), Some (TOKEN_RIGHT_SHIFT_ASSIGN, ">>="));
      eq TOKEN_GREATER_EQUAL ">="]);
   ("!"%char, (TOKEN_LOGICAL_NOT, "!"), [eq TOKEN_NOT_EQUAL "!="]);
   ("&"%char, (TOKEN_BITWISE_AND, "&"),
     [("&"%char, (TOKEN_LOGICAL_AND, "&&"), None); eq TOKEN_BITWISE_AND_ASSIGN "&="]);
   ("|"%char, (TOKEN_BITWISE_OR, "|"),
     [("|"%char, (TOKEN_LOGICAL_OR, "||"), None); eq TOKEN_BITWISE_OR_ASSIGN "|="]);
   ("^"%char, (TOKEN_BITWISE_XOR, "^"), [eq TOKEN_BITWISE_XOR_ASSIGN "^="]);
   ("~"%char, (TOKEN_BITWISE_NOT, "~"), [])]%string.

Definition handleOperator (next : Lexer -> option (Token * Lexer)) (lx : Lexer)
    : option (Token * Lexer) :=
  let start := lexer_mark lx in
  let p := lx_position lx in
  current ← rd p;
  if current =c "/" then handleComment next lx
  else match List.find (fun row : Operator => current =c row.1.1) operator_forms with
       | Some (_, (ty, v), forms) =>
           c ← rd (S p);
           match List.find (fun form : Form => c =c form.1.1) forms with
           | Some (_, (ty, v), None) => token (seek lx (S (S p))) ty v start
           | Some (_, (ty, v), Some (tyEq, vEq)) =>
               e ← rd (S (S p));
               if e =c "=" then token (seek lx (p + 3)) tyEq vEq start
               else token (seek lx (S (S p))) ty v start
           | None => token (seek lx (S p)) ty v start
           end
       | None =>
           if existsb (Ascii.eqb current) [";"; ","; "."; "("; ")"; "{"; "}"; "["; "]"]%char
           then handlePunctuation lx
           else handleUnknownToken (seek lx (S p))
       end.

(** *** The next token *)

Fixpoint skip_whitespace (fuel : nat) (lx : Lexer) : option Lexer :=
  match fuel with
  | O => None
  | S fuel' =>
      let p := lx_position lx in
      if decide (p < text_length)%nat then
        let c := char_at p in
        let next := char_at (S p) in
        let next2 := char_at (S (S p)) in
        if (c =c BACKSLASH) && (next =c NEWLINE) then skip_whitespace fuel' (seek lx (p + 2))
        else if (c =c BACKSLASH) && (next =c RETURN) && (next2 =c NEWLINE)
        then skip_whitespace fuel' (seek lx (p + 3))
        else if negb (is_space c) then Some lx
        else skip_whitespace fuel' (if c =c NEWLINE then newline lx else seek lx (S p))
      else Some lx
  end.

Definition skipWhitespace (lx : Lexer) : option Lexer := skip_whitespace (S text_length) lx.

(** A [\u] or [\U] that starts no identifier. *)
Definition unsupported_ucn (lx : Lexer) (n : ascii) : option (Token * Lexer) :=
  let start := lexer_mark lx in
  let p := lx_position lx in
  e ← scan_at_most is_xdigit (ucn_digits n) (p + 2);
  let text := slice_string p e in
  lx ← report_unsupported_ucn_identifier (seek lx e) start text;
  token lx TOKEN_UNKNOWN text start.

Definition member (c : ascii) (s : list ascii) : bool := existsb (Ascii.eqb c) s.

(** The dispatch on the first characters, behind white space and not at the end. *)
Definition dispatch (next : Lexer -> option (Token * Lexer)) (lx : Lexer) : option (Token * Lexer) :=
  let p := lx_position lx in
  let c := char_at p in
  let n := char_at (S p) in
  let n2 := char_at (S (S p)) in
  if (c =c "u") && (n =c "8") && (n2 =c DQUOTE) then
    prepend_to_literal (handleStringLiteral (seek lx (p + 2))) "U8|"
  else if ((c =c "L") || (c =c "u") || (c =c "U")) && (n =c DQUOTE) then
    prepend_to_literal (handleStringLiteral (seek lx (p + 1))) "W|"
  else if ((c =c "L") || (c =c "u") || (c =c "U")) && (n =c QUOTE) then
    prepend_to_literal (handleCharLiteral (seek lx (p + 1))) "W|"
  else if (c =c BACKSLASH) && ((n =c "u") || (n =c "U")) then
    if decide (0 < lexer_identifier_ucn_length (from p))%nat
    then handleIdentifierOrKeyword lx else unsupported_ucn lx n
  else if is_alpha c || (c =c "_") || bool_decide (0 < lexer_identifier_utf8_length (from p))%nat then
    handleIdentifierOrKeyword lx
  else if is_digit c then handleNumber lx
  else if (c =c ".") && bool_decide (S p < text_length)%nat && is_digit n then handleNumber lx
  else if c =c DQUOTE then
    '(tok, lx) ← handleStringLiteral lx;
    Some (mark_ambiguous_narrow_string_literal tok, lx)
  else if c =c QUOTE then handleCharLiteral lx
  else if c =c "#" then handlePreprocessorDirective lx
  else if c =c "/" then handleComment next lx
  else if member c ["="; "+"; "-"; "*"; "/"; "%"; "<"; ">"; "!"; "&"; "|"; "^"; "~"]%char
  then handleOperator next lx
  else if member c ["?"; ":"; ";"; ","; "("; ")"; "{"; "}"; "["; "]"; "."]%char
  then handlePunctuation lx
  else handleUnknownToken lx.

(** [fuel] counts the comments skipped on the way to a token. *)
Fixpoint next_token (fuel : nat) (lx : Lexer) : option (Token * Lexer) :=
  match fuel with
  | O => None
  | S fuel' =>
      lx ← skipWhitespace lx;
      if isEOF lx
      then let start := lexer_mark lx in
           token (seek lx (S (lx_position lx))) TOKEN_EOF "EOF" start
      else dispatch (next_token fuel') lx
  end.

(** A comment takes two characters, so the text holds fewer comments than characters. *)
Definition getNextToken (lx : Lexer) : option (Token * Lexer) := next_token (S text_length) lx.

(** *** Filling a token buffer *)

Definition safety_limit : nat := if decide (0 < text_length)%nat then (text_length * 4 + 4096)%nat else 4096%nat.

(** [left] is what the safety counter leaves. *)
Fixpoint fill_loop (left : nat) (buffer : TokenBuffer) (lx : Lexer)
    : option (bool * TokenBuffer * Lexer) :=
  '(tok, lx) ← getNextToken lx;
  let buffer := token_buffer_append buffer tok in
  if tt_eqb (tok_type tok) TOKEN_EOF then Some (true, buffer, lx)
  else match left with
       | O => Some (false, buffer, lx)
       | S left' => fill_loop left' buffer lx
       end.

Definition token_buffer_fill_from_lexer (buffer : TokenBuffer) (lx : Lexer)
    : option (bool * TokenBuffer * Lexer) := fill_loop safety_limit buffer lx.

End Lexing.

(** The tokens of a source text, as the front end reads them. *)
Definition lex (source : list ascii) (filePath : option string) : option (bool * list Token * Lexer) :=
  '(T, lx) ← initLexer source filePath false;
  '(ok, buffer, lx) ← token_buffer_fill_from_lexer T token_buffer_init lx;
  Some (ok, tb_tokens buffer, lx).

Definition lex_summary (source : string) : option (list (TokenType * string) * Z * list UndefinedOp) :=
  '(_, toks, lx) ← lex (list_ascii_of_string source) None;
  Some (map (fun t => (tok_type t, default ""%string (tok_value t))) toks, lx_fatalErrorCount lx,
        lx_undefined lx).

Example lex_declaration :
  lex_summary "int x = 0x1F + .5e3; /* c */ x <<= 2;"
  = Some ([(TOKEN_INT, "int"); (TOKEN_IDENTIFIER, "x"); (TOKEN_ASSIGN, "="); (TOKEN_NUMBER, "0x1F");
           (TOKEN_PLUS, "+"); (TOKEN_FLOAT_LITERAL, ".5e3"); (TOKEN_SEMICOLON, ";");
           (TOKEN_IDENTIFIER, "x"); (TOKEN_LEFT_SHIFT_ASSIGN, "<<="); (TOKEN_NUMBER, "2");
           (TOKEN_SEMICOLON, ";"); (TOKEN_EOF, "EOF")]%string, 0, []).
Proof. by vm_compute. Qed.
