(* ===== verification/LexerSafety.v ===== *)
(** * The lexer reads only its source, always returns, and counts lines right.

    [wp Q r]: the computation [r] returned (no read behind the terminator, fuel enough) and
    its result satisfies [Q].  [good] is the invariant of the lexer's state between tokens;
    every handler is shown to keep it. *)
From Stdlib Require Import Sorting.Sorted.
From S2P Require Import Prelude CType LexerSource LexerChars Tokens Lexer.

Definition wp {A} (Q : A -> Prop) (r : option A) : Prop :=
  match r with Some x => Q x | None => False end.

Lemma wp_bind {A B} (Q : B -> Prop) (r : option A) (k : A -> option B) :
  wp (fun x => wp Q (k x)) r -> wp Q (r ≫= k).
Proof. by destruct r. Qed.

Lemma wp_mono {A} (P Q : A -> Prop) (r : option A) :
  wp P r -> (forall x, P x -> Q x) -> wp Q r.
Proof. destruct r; simpl; auto. Qed.

Lemma wp_Some {A} (Q : A -> Prop) (r : option A) : wp Q r -> exists x, r = Some x /\ Q x.
Proof. destruct r as [x|]; [|done]. intros. by exists x. Qed.

(** Reporting an error never fails: the scan for [#line] has fuel enough. *)
Lemma scan_lines_total (fuel : nat) (p : list ascii) (cur phys : Z) (st : LineState) :
  (length p <= fuel)%nat -> is_Some (scan_lines fuel p cur phys st).
Proof.
  revert p cur st. induction fuel as [|fuel IH]; intros p cur st Hf.
  - destruct p; [done|simpl in Hf; lia].
  - destruct p as [|c p]; [done|]. cbn [scan_lines]. destruct (cur <? phys); [|done].
    pose proof (span_app (fun c => negb (c =c NEWLINE)) (c :: p)) as Happ.
    unfold before_newline. destruct (span _ (c :: p)) as [l r] eqn:E. simpl in Happ.
    apply IH. apply (f_equal length) in Happ. rewrite length_app in Happ.
    destruct r as [|d r]; simpl in *; [lia|lia].
Qed.

Lemma map_logical_location_total (source : list ascii) (physicalLine : Z) :
  is_Some (lexer_map_logical_location source physicalLine).
Proof.
  unfold lexer_map_logical_location. destruct (physicalLine <=? 0); [done|].
  destruct (scan_lines_total (length source) source 1 physicalLine (mkLineState 0 None)) as [st Hst]; [lia|].
  by rewrite Hst.
Qed.

(** Names and encodings lie inside the text and hold no newline. *)
Definition printed (s : list ascii) (n : nat) : Prop :=
  (n <= length s)%nat /\ forall i, (i < n)%nat -> at_index s i <> NEWLINE.

Lemma printed_cons (c : ascii) (s : list ascii) (n : nat) :
  c <> NEWLINE -> printed s n -> printed (c :: s) (S n).
Proof.
  intros Hc [Hn Hs]. split; [simpl; lia|]. intros [|i] Hi; [done|]. apply Hs. lia.
Qed.

Lemma read_hex_printed (n : nat) (s : list ascii) (cp r : Z) :
  read_hex n s cp = Some r -> printed s n.
Proof.
  revert s cp. induction n as [|n IH]; intros s cp H; [split; [lia|intros; lia]|].
  destruct s as [|c s]; [done|]. cbn [read_hex] in H.
  destruct (Z.ltb_spec (lexer_hex_value c) 0) as [|Hc]; [done|].
  apply printed_cons; [by intros ->|by eapply IH].
Qed.

Lemma ucn_printed (s : list ascii) : printed s (lexer_identifier_ucn_length s).
Proof.
  unfold lexer_identifier_ucn_length, read_ucn.
  assert (printed s 0) as H0 by (split; [lia|intros; lia]).
  destruct ((at_index s 0 =c BACKSLASH) && _) eqn:E; [|done].
  destruct (read_hex _ _ _) as [cp|] eqn:Hr; [|done]. simpl. case_match; [done|].
  apply andb_true_iff in E as [E0 E1].
  destruct s as [|c0 [|c1 s]]; [done..|]. apply read_hex_printed in Hr. cbn [drop] in Hr. simpl in E0.
  change (at_index (c0 :: c1 :: s) 1) with c1 in *. rewrite Nat.add_comm. apply printed_cons; [by intros ->|]. apply printed_cons; [by intros ->|done].
Qed.

Lemma utf8_tail_printed (n : nat) (s : list ascii) (cp r : Z) :
  utf8_tail n s cp = Some r -> printed s n.
Proof.
  revert s cp. induction n as [|n IH]; intros s cp H; [split; [lia|intros; lia]|].
  apply utf8_tail_inv in H as (b & s' & -> & Hb & H).
  apply printed_cons; [|by eapply IH]. intros ->. change (chr NEWLINE) with 10 in Hb. lia.
Qed.

Lemma utf8_printed (s : list ascii) : printed s (lexer_identifier_utf8_length s).
Proof.
  unfold lexer_identifier_utf8_length, lexer_decode_utf8.
  assert (printed s 0) as H0 by (split; [lia|intros; lia]).
  destruct s as [|b s]; [done|]. cbn [head tail mbind option_bind].
  destruct (if between _ _ _ then _ else _) as [[n cp0]|] eqn:E; cbn [mbind option_bind]; [|done].
  destruct (utf8_tail _ _ _) as [cp|] eqn:Ht; cbn [mbind option_bind]; [|done].
  destruct (_ || _ || _ || _); [done|].
  destruct (lexer_ucn_is_supported_identifier_character cp); [|done].
  apply utf8_tail_printed in Ht. apply (printed_cons b) in Ht.
  - replace n with (S (n - 1)); [done|]. repeat case_match; simplify_eq; done.
  - intros ->. vm_compute in E. done.
Qed.

Section Safety.
Context (T : LexerText).

Abbreviation len := (text_length T).
Abbreviation at_ := (char_at T).

(** No backslash at the end of a line: what [translate_source] leaves of a source whose
    splices are not doubled. *)
Definition no_splice : Prop :=
  forall i, at_ i = BACKSLASH ->
    at_ (S i) <> NEWLINE /\ (at_ (S i) = RETURN -> at_ (S (S i)) <> NEWLINE).

(** The cursor moves from [p] to [q] without a newline. *)
Definition moves (p q : nat) : Prop :=
  (p <= q <= S len)%nat /\ (no_splice -> forall i, (p <= i < q)%nat -> at_ i <> NEWLINE).

Record good (lx : Lexer) : Prop := {
  g_position : (lx_position lx <= S len)%nat;
  g_fatal : 0 <= lx_fatalErrorCount lx;
  g_undefined : FreeOfConstant ∈ lx_undefined lx -> 0 < lx_fatalErrorCount lx;
  g_line : no_splice -> lx_line lx = raw_line (take (lx_position lx) (lt_source T));
  g_column : no_splice -> (lx_position lx <= len)%nat ->
    (lx_lineStart lx <= lx_position lx)%nat /\
    raw_column (take (lx_position lx) (lt_source T))
    = Z.of_nat (lx_position lx) - Z.of_nat (lx_lineStart lx) + 1
}.

(** A token carries the line and column of a position of the text. *)
Definition located (tok : Token) (p : nat) : Prop :=
  no_splice ->
  tok_line tok = raw_line (take p (lt_source T)) /\
  loc_line (range_start (tok_location tok)) = raw_line (take p (lt_source T)) /\
  ((p <= len)%nat -> loc_column (range_start (tok_location tok)) = raw_column (take p (lt_source T))).

(** ** Where a token starts *)

(** A line splice at [p] that ends at [q]. *)
Definition splice (p q : nat) : Prop :=
  at_ p = BACKSLASH /\
  (at_ (S p) = NEWLINE /\ q = (p + 2)%nat \/ at_ (S p) = RETURN /\ at_ (S (S p)) = NEWLINE /\ q = (p + 3)%nat).

(** The rest of a block comment: up to the first star with a slash behind it. *)
Definition closes (p : nat) : Prop := at_ p = "*"%char /\ at_ (S p) = "/"%char.

Inductive comment_rest : nat -> nat -> Prop :=
  | rest_closes p : closes p -> comment_rest p (S (S p))
  | rest_char p q : at_ p <> NUL -> ~ closes p -> comment_rest (S p) q -> comment_rest p q.

Definition line_end (c : ascii) : Prop := c = NEWLINE \/ c = NUL.

Inductive comment (p : nat) : nat -> Prop :=
  | line_comment q :
      at_ p = "/"%char -> at_ (S p) = "/"%char -> (S (S p) <= q)%nat ->
      (forall i, (S (S p) <= i < q)%nat -> ~ line_end (at_ i)) -> line_end (at_ q) -> comment p q
  | closed_comment q :
      at_ p = "/"%char -> at_ (S p) = "*"%char -> comment_rest (S (S p)) q -> comment p q.

(** White space, line splices and comments from [p] to [q]. *)
Inductive gap : nat -> nat -> Prop :=
  | gap_nil p : gap p p
  | gap_space p q : is_space (at_ p) = true -> gap (S p) q -> gap p q
  | gap_splice p p' q : splice p p' -> gap p' q -> gap p q
  | gap_comment p p' q : comment p p' -> gap p' q -> gap p q.

Definition token_start (p : nat) : Prop :=
  is_space (at_ p) = false /\ (forall q, ~ splice p q) /\ (forall q, ~ comment p q).

(** The prefix of a string or character literal, which is marked at its quote. *)
Definition literal_prefix (p : nat) : nat :=
  let wide := (at_ p =c "L") || (at_ p =c "u") || (at_ p =c "U") in
  if (at_ p =c "u") && (at_ (S p) =c "8") && (at_ (S (S p)) =c DQUOTE) then 2
  else if wide && (at_ (S p) =c DQUOTE) then 1
  else if wide && (at_ (S p) =c QUOTE) then 1
  else 0.

Lemma comment_rest_lt (p q : nat) : comment_rest p q -> (p < q)%nat.
Proof. induction 1; lia. Qed.

Lemma comment_lt (p q : nat) : comment p q -> (p < q)%nat.
Proof. intros [? ? ? ?|? ? ? ?%comment_rest_lt]; lia. Qed.

Lemma gap_trans (p q r : nat) : gap p q -> gap q r -> gap p r.
Proof. induction 1; eauto using gap_space, gap_splice, gap_comment. Qed.

Lemma gap_le (p q : nat) : gap p q -> (p <= q)%nat.
Proof.
  induction 1 as [p|p q _ _ IH|p p' q [_ H] _ IH|p p' q H%comment_lt _ IH]; [lia|lia| |lia].
  destruct H as [(_ & ->)|(_ & _ & ->)]; lia.
Qed.

Lemma token_start_not_slash (p : nat) :
  is_space (at_ p) = false -> (forall q, ~ splice p q) -> at_ p <> "/"%char -> token_start p.
Proof. intros Hs Hsp Hc. split_and!; [done..|]. intros q Hq. by destruct Hq. Qed.

(** ** Positions *)

Lemma at_end (p : nat) : (len <= p)%nat -> at_ p = NUL.
Proof.
  intros H. unfold char_at. rewrite at_index_lookup, lookup_ge_None_2; [done|exact H].
Qed.

Lemma at_inside (p : nat) : at_ p <> NUL -> (p < len)%nat.
Proof. intros H. destruct (decide (len <= p)%nat); [|lia]. by rewrite at_end in H. Qed.

Lemma lookup_at (p : nat) : (p < len)%nat -> lt_source T !! p = Some (at_ p).
Proof.
  intros H. destruct (lookup_lt_is_Some_2 _ _ H) as [c Hc].
  unfold char_at. by rewrite at_index_lookup, Hc.
Qed.

Lemma wp_rd (Q : ascii -> Prop) (p : nat) : (p <= len)%nat -> Q (at_ p) -> wp Q (rd T p).
Proof. intros H HQ. unfold rd. by rewrite decide_True by done. Qed.

Lemma moves_refl (p : nat) : (p <= S len)%nat -> moves p p.
Proof. intros. split; [lia|]. intros; lia. Qed.

Lemma moves_trans (p q r : nat) : moves p q -> moves q r -> moves p r.
Proof.
  intros [H1 H2] [H3 H4]. split; [lia|]. intros Hn i Hi.
  destruct (decide (i < q)%nat); [apply H2; [done|lia]|apply H4; [done|lia]].
Qed.

Lemma moves_step (p : nat) : at_ p <> NEWLINE -> (p <= len)%nat -> moves p (S p).
Proof. intros Hc Hp. split; [lia|]. intros _ i Hi. by replace i with p by lia. Qed.

(** A character that is neither the terminator nor a newline. *)
Definition ordinary (c : ascii) : Prop := c <> NUL /\ c <> NEWLINE.

Lemma step_ordinary (p : nat) : ordinary (at_ p) -> (S p <= len)%nat /\ moves p (S p).
Proof.
  intros [H1 H2]. apply at_inside in H1. split; [lia|]. apply moves_step; [done|lia].
Qed.

Lemma ordinary_if (f : ascii -> bool) (c : ascii) :
  f NUL = false -> f NEWLINE = false -> f c = true -> ordinary c.
Proof. intros H1 H2 H. split; intros ->; congruence. Qed.

Lemma ordinary_eqb (c d : ascii) : (c =c d) = true -> ordinary d -> ordinary c.
Proof. by intros ->%ascii_eqb_eq. Qed.

Lemma span_prefix (f : ascii -> bool) (l : list ascii) :
  (length (span f l).1 <= length l)%nat /\
  (forall i, (i < length (span f l).1)%nat -> f (at_index l i) = true) /\
  (f NUL = false -> f (at_index l (length (span f l).1)) = false).
Proof.
  induction l as [|c l (IH1 & IH2 & IH3)]; simpl; [split_and!; [lia|intros; lia|done]|].
  destruct (f c) eqn:Ec; simpl; [|split_and!; [lia|intros; lia|done]].
  destruct (span f l) as [a b]; simpl in *. split_and!; [lia| |done].
  intros [|i] Hi; [done|]. apply IH2. lia.
Qed.

(** A scanning loop stops at the first character that fails the test. *)
Lemma wp_scan (Q : nat -> Prop) (f : ascii -> bool) (p : nat) :
  f NEWLINE = false -> f NUL = false -> (p <= len)%nat ->
  (forall e, (p <= e <= len)%nat -> moves p e ->
     (forall i, (p <= i < e)%nat -> f (at_ i) = true) -> f (at_ e) = false -> Q e) ->
  wp Q (scan T f p).
Proof.
  intros Hf Hnul Hp HQ. unfold scan. rewrite decide_True by done. simpl.
  destruct (span_prefix f (drop p (lt_source T))) as (Hlen & Hall & Hend).
  rewrite length_drop in Hlen. change (length (lt_source T)) with len in Hlen.
  assert (forall i, at_index (drop p (lt_source T)) i = at_ (p + i)%nat) as Hat.
  { intros i. unfold char_at. by rewrite !at_index_lookup, lookup_drop. }
  set (n := length (span f (drop p (lt_source T))).1) in *.
  assert (forall i, (p <= i < p + n)%nat -> f (at_ i) = true) as Hin.
  { intros i Hi. specialize (Hall (i - p)%nat ltac:(lia)). rewrite Hat in Hall.
    by replace (p + (i - p))%nat with i in Hall by lia. }
  apply HQ; [lia| |done|by rewrite <- Hat; apply Hend].
  split; [lia|]. intros _ i Hi Hn. specialize (Hin i Hi). congruence.
Qed.

(** ** The state *)

Lemma take_moves (p q : nat) :
  moves p q -> no_splice ->
  exists r, take q (lt_source T) = take p (lt_source T) ++ r /\
    Forall (fun c => (c =c NEWLINE) = false) r /\ ((q <= len)%nat -> length r = (q - p)%nat).
Proof.
  intros [Hpq Hm] Hns. exists (take (q - p) (drop p (lt_source T))). split_and!.
  - rewrite take_take_drop. f_equal. lia.
  - apply Forall_lookup_2. intros i c Hc.
    assert (i < q - p)%nat by (apply lookup_lt_Some in Hc; rewrite length_take in Hc; lia).
    rewrite lookup_take_lt, lookup_drop in Hc by done.
    apply Ascii.eqb_neq. intros ->. apply (Hm Hns (p + i)%nat); [lia|].
    unfold char_at. by rewrite at_index_lookup, Hc.
  - intros Hq. rewrite length_take, length_drop. change (length (lt_source T)) with len. lia.
Qed.

Lemma good_seek (lx : Lexer) (q : nat) :
  good lx -> moves (lx_position lx) q -> good (seek lx q).
Proof.
  intros [Hp Hf Hu Hl Hc] Hm. split; simpl; [destruct Hm; lia|done|done| |].
  - intros Hns. destruct (take_moves _ _ Hm Hns) as (r & -> & Hr & _).
    by rewrite raw_line_run, <- Hl.
  - intros Hns Hq. destruct (take_moves _ _ Hm Hns) as (r & -> & Hr & Hlen).
    specialize (Hlen Hq). destruct Hm as [Hm _]. destruct (Hc Hns ltac:(lia)) as [H1 H2].
    rewrite raw_column_run by done. lia.
Qed.

Lemma good_newline (lx : Lexer) :
  good lx -> at_ (lx_position lx) = NEWLINE -> good (newline lx).
Proof.
  intros [Hp Hf Hu Hl Hc] Hn.
  assert (lx_position lx < len)%nat as Hlt by (apply at_inside; rewrite Hn; done).
  assert (take (S (lx_position lx)) (lt_source T) = take (lx_position lx) (lt_source T) ++ [NEWLINE]) as Ht.
  { erewrite take_S_r; [done|]. rewrite lookup_at by done. by rewrite Hn. }
  split; simpl; [lia|done|done| |]; rewrite Ht.
  - intros Hns. rewrite raw_line_snoc. simpl. by rewrite Hl.
  - intros _ _. rewrite raw_column_snoc. simpl. split; [done|lia].
Qed.

Lemma good_undefined (lx : Lexer) (o : list UndefinedOp) :
  good lx -> (FreeOfConstant ∈ o -> 0 < lx_fatalErrorCount lx) -> good (undefined lx o).
Proof.
  intros [] Ho. split; simpl; try done. intros [H|H]%elem_of_app; auto.
Qed.

Lemma wp_report (Q : Lexer -> Prop) (lx : Lexer) (mark : LexerMark) (message got : string) :
  good lx ->
  (forall lx', good lx' -> lx_position lx' = lx_position lx ->
     lx_fatalErrorCount lx' = lx_fatalErrorCount lx + 1 -> Q lx') ->
  wp Q (report_lexer_error T lx mark message got).
Proof.
  intros [Hp Hf Hu Hl Hc] HQ. unfold report_lexer_error.
  destruct (lexer_mark_source_location T mark) as [rawLine rawColumn].
  destruct (map_logical_location_total (lt_rawSource T) rawLine) as [[l f] ->]. simpl.
  apply HQ; [|done|done]. split; simpl; try done; [lia|]. intros. specialize (Hu H). lia.
Qed.

Lemma located_token (lx lx0 : Lexer) (ty : TokenType) (v : string) :
  good lx0 -> located (make_token T lx ty v (lexer_mark lx0)) (lx_position lx0).
Proof.
  intros [Hp Hf Hu Hl Hc] Hns. unfold make_token.
  destruct (lexer_mark_source_location T (lexer_mark lx0)). simpl.
  split_and!; [by apply Hl|by apply Hl|]. intros Hle. destruct (Hc Hns Hle) as [H1 H2].
  rewrite H2. unfold lexer_compute_column. destruct (Z.ltb_spec (Z.of_nat (lx_position lx0) - Z.of_nat (lx_lineStart lx0) + 1) 1); lia.
Qed.

(** ** Tokens *)

(** A handler's token starts at the cursor and ends before the new one; it is not the end of
    the file. *)
Definition result (lx : Lexer) (r : Token * Lexer) : Prop :=
  good r.2 /\ tok_type r.1 <> TOKEN_EOF /\
  (lx_position lx < lx_position r.2)%nat /\ located r.1 (lx_position lx).

Lemma wp_token (lx lx' : Lexer) (ty : TokenType) (v : string) :
  good lx -> good lx' -> (lx_position lx < lx_position lx')%nat -> ty <> TOKEN_EOF ->
  wp (result lx) (token T lx' ty v (lexer_mark lx)).
Proof.
  intros Hg Hg' Hlt Hty. unfold token. simpl. split_and!; simpl; [done| |done|by apply located_token].
  - unfold make_token. by destruct (lexer_mark_source_location T (lexer_mark lx)).
Qed.

(** A refused token leaves a counted error. *)
Lemma wp_error_token (lx lx' : Lexer) (mark : LexerMark) (message got v : string) :
  good lx -> good lx' -> (lx_position lx < lx_position lx')%nat ->
  wp (fun r => result lx r /\ 0 < lx_fatalErrorCount r.2)
    (error_token T lx' mark (lexer_mark lx) message got v).
Proof.
  intros Hg Hg' Hlt. unfold error_token. apply wp_bind. apply wp_report; [done|].
  intros lx2 Hg2 Hp2 Hf2. pose proof (g_fatal lx' Hg').
  split; [|simpl; lia]. exact (wp_token lx lx2 TOKEN_UNKNOWN v Hg Hg2 ltac:(lia) ltac:(done)).
Qed.

(** ** Identifiers *)

Lemma at_from (p i : nat) : at_index (from T p) i = at_ (p + i)%nat.
Proof. unfold from, char_at. by rewrite !at_index_lookup, lookup_drop. Qed.

Lemma printed_moves (p n : nat) : (p <= len)%nat -> printed (from T p) n -> (p + n <= len)%nat /\ moves p (p + n).
Proof.
  intros Hp [Hn Hc]. unfold from in Hn. rewrite length_drop in Hn. change (length (lt_source T)) with len in Hn.
  split; [lia|]. split; [lia|]. intros _ i Hi. replace i with (p + (i - p))%nat by lia.
  rewrite <- at_from. apply Hc. lia.
Qed.

Definition starts_identifier (p : nat) : Prop :=
  is_ident_char (at_ p) = true \/ (0 < lexer_identifier_ucn_length (from T p))%nat \/
  (0 < lexer_identifier_utf8_length (from T p))%nat.

Lemma wp_identifier_end (fuel p : nat) :
  (p <= len)%nat -> (len - p < fuel)%nat ->
  wp (fun e => (p <= e <= len)%nat /\ moves p e /\ (starts_identifier p -> (p < e)%nat))
    (identifier_end T fuel p).
Proof.
  revert p. induction fuel as [|fuel IH]; intros p Hp Hf; [lia|].
  cbn [identifier_end]. apply wp_bind, wp_rd; [done|].
  assert (forall q, moves p q -> (p < q <= len)%nat ->
    wp (fun e => (p <= e <= len)%nat /\ moves p e /\ (starts_identifier p -> (p < e)%nat))
      (identifier_end T fuel q)) as Hnext.
  { intros q Hm Hq. eapply wp_mono; [apply IH; lia|]. intros e (He & Hme & _).
    split_and!; [lia|lia|by eapply moves_trans|lia]. }
  destruct (is_ident_char (at_ p)) eqn:Ei.
  - destruct (step_ordinary p) as [H1 H2]; [by apply (ordinary_if is_ident_char)|].
    apply Hnext; [done|lia].
  - case_decide.
    + destruct (printed_moves p _ Hp (ucn_printed (from T p))). apply Hnext; [done|lia].
    + case_decide.
      * destruct (printed_moves p _ Hp (utf8_printed (from T p))). apply Hnext; [done|lia].
      * simpl. split_and!; [lia|lia|apply moves_refl; lia|].
        intros [?|[?|?]]; [congruence|lia|lia].
Qed.

Lemma word_type_not_eof (rows : list (list string * TokenType)) (w : string) :
  Forall (fun row => row.2 <> TOKEN_EOF) rows -> word_type rows w <> TOKEN_EOF.
Proof.
  intros Hall. unfold word_type. destruct (List.find _ rows) as [row|] eqn:E; [|done].
  apply find_some in E as [E _]. rewrite Forall_forall in Hall. by apply Hall, list_elem_of_In.
Qed.

Lemma identifier_type_not_eof (text : string) : identifier_type text <> TOKEN_EOF.
Proof.
  unfold identifier_type. destruct (in_keyword_set text);
    apply word_type_not_eof; repeat constructor; done.
Qed.

Lemma wp_identifier (lx : Lexer) :
  good lx -> (lx_position lx <= len)%nat -> starts_identifier (lx_position lx) ->
  wp (result lx) (handleIdentifierOrKeyword T lx).
Proof.
  intros Hg Hp Hs. unfold handleIdentifierOrKeyword. apply wp_bind.
  eapply wp_mono; [apply wp_identifier_end; [done|unfold len; lia]|].
  intros e (He & Hm & Hlt). apply wp_token; [done|by apply good_seek|auto|apply identifier_type_not_eof].
Qed.

(** ** Numbers *)

Ltac ord := first [by apply (ordinary_if is_digit) | by apply (ordinary_if is_x)
  | by apply (ordinary_if is_b) | eapply ordinary_eqb; [eassumption|split; done]].

(** Steps over known characters and scans compose. *)
Ltac steps := repeat first
  [ done | lia | assumption
  | match goal with H : moves ?p ?q |- moves ?p ?r => apply (moves_trans p q r); [exact H|] end
  | match goal with |- moves ?p ?p => apply moves_refl; lia end ].

Lemma wp_number_prefix (p : nat) :
  (p <= len)%nat ->
  wp (fun np => (p <= np_end np <= len)%nat /\ moves p (np_end np) /\
                (is_digit (at_ p) = true -> (p < np_end np)%nat)) (number_prefix T p).
Proof.
  intros Hp. unfold number_prefix. apply wp_bind, wp_rd; [done|].
  assert (forall Q : nat -> Prop,
    (forall e, (p <= e <= len)%nat -> moves p e -> (is_digit (at_ p) = true -> (p < e)%nat) -> Q e) ->
    wp Q (scan T is_digit p)) as Hdigits.
  { intros Q HQ. apply wp_scan; [done..|]. intros e He Hm Hall Hend. apply HQ; [done..|].
    intros Hd. destruct (decide (p = e)) as [->|]; [congruence|lia]. }
  destruct (at_ p =c "0") eqn:E0; [|apply wp_bind, Hdigits; simpl; auto].
  destruct (step_ordinary p) as [Hp1 Hm1]; [by ord|].
  apply wp_bind, wp_rd; [done|].
  assert (is_x (at_ (S p)) || is_b (at_ (S p)) = true -> (p + 2 <= len)%nat /\ moves p (p + 2)) as H2.
  { intros Hc. destruct (step_ordinary (S p)) as [Hp2 Hm2].
    - apply (ordinary_if (fun c => is_x c || is_b c)); done.
    - replace (p + 2)%nat with (S (S p)) by lia. split; [done|steps]. }
  destruct (is_x (at_ (S p))) eqn:Ex; [|destruct (is_b (at_ (S p))) eqn:Eb].
  - destruct (H2 eq_refl). apply wp_bind, wp_scan; [done..|].
    intros e He Hm _ _. simpl. split_and!; steps.
  - destruct (H2 eq_refl). apply wp_bind, wp_scan; [done..|].
    intros e1 He1 Hme1 _ _. apply wp_bind, wp_scan; [done|done|lia|].
    intros e2 He2 Hme2 _ _. simpl. split_and!; steps.
  - apply wp_bind, Hdigits. simpl. auto.
Qed.

Lemma wp_number_fraction (isHex : bool) (p : nat) :
  (p <= len)%nat ->
  wp (fun r => (p <= r.1.1 <= len)%nat /\ moves p r.1.1 /\ ((at_ p =c ".") = true -> (p < r.1.1)%nat))
    (number_fraction T isHex p).
Proof.
  intros Hp. unfold number_fraction. apply wp_bind, wp_rd; [done|].
  destruct (at_ p =c ".") eqn:E; [|simpl; split_and!; steps].
  destruct (step_ordinary p) as [Hp1 Hm1]; [by ord|].
  apply wp_bind, wp_scan; [by destruct isHex..|done|]. intros e He Hm _ _. simpl. split_and!; steps.
Qed.

Lemma wp_number_exponent (isHex : bool) (p : nat) :
  (p <= len)%nat ->
  wp (fun r => let e := match r with inl e => e | inr (e, _) => e end in
               (p <= e <= len)%nat /\ moves p e) (number_exponent T isHex p).
Proof.
  intros Hp. unfold number_exponent. apply wp_bind, wp_rd; [done|].
  destruct (is_exponent_mark isHex (at_ p)) eqn:E; [|simpl; split_and!; steps].
  destruct (step_ordinary p) as [Hp1 Hm1].
  { by apply (ordinary_if (is_exponent_mark isHex)); [destruct isHex..|]. }
  apply wp_bind, wp_rd; [done|].
  match goal with |- context [if ?b then S (S p) else S p] => set (p' := if b then S (S p) else S p) end.
  assert ((S p <= p' <= len)%nat /\ moves p p') as [Hp' Hm'].
  { subst p'. destruct (_ || _) eqn:Es; [|split; steps].
    destruct (step_ordinary (S p)) as [Hp2 Hm2].
    - by apply (ordinary_if (fun s => (s =c "+") || (s =c "-"))).
    - split; steps. }
  apply wp_bind, wp_scan; [done|done|lia|]. intros e He Hm _ _. case_decide.
  - apply wp_bind, wp_scan; [done|done|lia|]. intros e' He' Hme' _ _. simpl. split; steps.
  - simpl. split; steps.
Qed.

Lemma wp_number_suffix (fuel p : nat) (seenU : bool) (lCount : nat) (isFloat : bool) :
  (p <= len)%nat -> (len - p < fuel)%nat ->
  wp (fun r => (p <= r.1 <= len)%nat /\ moves p r.1) (number_suffix T fuel p seenU lCount isFloat).
Proof.
  revert p seenU lCount isFloat. induction fuel as [|fuel IH]; intros p seenU lCount isFloat Hp Hf; [lia|].
  cbn [number_suffix]. apply wp_bind, wp_rd; [done|].
  assert (wp (fun r : nat * bool => (p <= r.1 <= len)%nat /\ moves p r.1) (Some (p, isFloat))) as Hstop
    by (simpl; split; steps).
  assert (forall u l b, ordinary (at_ p) ->
    wp (fun r => (p <= r.1 <= len)%nat /\ moves p r.1) (number_suffix T fuel (S p) u l b)) as Hgo.
  { intros u l b Ho. destruct (step_ordinary p Ho). eapply wp_mono; [apply IH; lia|].
    intros r [Hr Hm]. split; steps. }
  destruct ((at_ p =c "u") || _) eqn:Eu.
  { destruct seenU; [done|]. apply Hgo. by apply (ordinary_if (fun c => (c =c "u") || (c =c "U"))). }
  destruct ((at_ p =c "l") || _) eqn:El.
  { case_decide; [done|]. apply Hgo. by apply (ordinary_if (fun c => (c =c "l") || (c =c "L"))). }
  destruct ((at_ p =c "f") || _ || _ || _ || _ || _) eqn:Ef; [|done]. apply Hgo.
  by apply (ordinary_if (fun c => (c =c "f") || (c =c "F") || (c =c "i") || (c =c "I") || (c =c "j") || (c =c "J"))).
Qed.

Lemma wp_number_error (lx : Lexer) (e : nat) (mark : LexerMark) (message : string) :
  good lx -> (lx_position lx < e)%nat -> moves (lx_position lx) e ->
  wp (result lx) (number_error T lx e mark message).
Proof.
  intros Hg Hlt Hm. eapply wp_mono; [apply wp_error_token; [done|by apply good_seek|done]|].
  by intros r [Hr _].
Qed.

Lemma wp_number (lx : Lexer) :
  good lx -> (lx_position lx <= len)%nat ->
  is_digit (at_ (lx_position lx)) = true \/ (at_ (lx_position lx) =c ".") = true ->
  wp (result lx) (handleNumber T lx).
Proof.
  intros Hg Hp Hstart. unfold handleNumber.
  apply wp_bind. eapply wp_mono; [by apply wp_number_prefix|]. intros np (Hnp & Hmnp & Hdig).
  apply wp_bind. eapply wp_mono; [apply wp_number_fraction; lia|].
  intros [[pf saw] hf] (Hpf & Hmpf & Hdot). cbn [fst snd] in *.
  assert (lx_position lx < pf)%nat as Hlt.
  { destruct Hstart as [Hd|Hd]; [specialize (Hdig Hd); lia|].
    destruct (decide (lx_position lx = np_end np)) as [Heq|]; [|lia].
    rewrite Heq in Hd. specialize (Hdot Hd). lia. }
  assert (moves (lx_position lx) pf) as Hm by steps.
  apply wp_bind. eapply wp_mono; [apply wp_number_exponent; lia|].
  intros [e|[pe sawExp]] [He Hme]; [apply wp_number_error; steps|].
  apply wp_bind. eapply wp_mono; [apply wp_number_suffix; [lia|unfold len; lia]|].
  intros [e isFloat] [He' Hme']. cbn [fst] in *.
  assert (moves (lx_position lx) e) as Hmove by steps.
  apply wp_bind, wp_rd; [lia|].
  assert (forall Q, (forall e', (e <= e' <= len)%nat -> moves (lx_position lx) e' -> Q e') ->
    wp Q (scan T is_ident_char e)) as Hident.
  { intros Q HQ. apply wp_scan; [done|done|lia|]. intros e' He2 Hm2 _ _. apply HQ; steps. }
  destruct (np_isBinary np && _).
  { apply wp_bind. destruct (_ || _); simpl.
    - apply Hident. intros. apply wp_number_error; steps.
    - apply wp_number_error; steps. }
  repeat (match goal with |- wp _ (if ?b then _ else _) => destruct b end;
          [try (apply wp_number_error; steps)|]).
  - apply wp_bind, Hident. intros. apply wp_number_error; steps.
  - apply wp_token; [done|by apply good_seek|simpl; lia|by destruct isFloat].
Qed.

(** ** String literals *)

Lemma at_eof_false (p : nat) : at_eof T p = false -> (p < len)%nat /\ at_ p <> NUL.
Proof.
  unfold at_eof. intros [H1 H2]%orb_false_iff. rewrite bool_decide_eq_false in H1.
  split; [lia|]. by apply Ascii.eqb_neq.
Qed.

Lemma eqb_false (a b : ascii) : (a =c b) = false -> a <> b.
Proof. apply Ascii.eqb_neq. Qed.

(** Where the scan of a literal may go from [p]. *)
Definition reach (p q : nat) : Prop := (p <= q <= len)%nat /\ moves p q.

Lemma reach_refl (p : nat) : (p <= len)%nat -> reach p p.
Proof. intros. split; [lia|apply moves_refl; lia]. Qed.

Lemma reach_trans (p q r : nat) : reach p q -> reach q r -> reach p r.
Proof. intros [H1 H2] [H3 H4]. split; [lia|by eapply moves_trans]. Qed.

Lemma reach_step (p : nat) : ordinary (at_ p) -> reach p (S p).
Proof. intros Ho. destruct (step_ordinary p Ho). split; [lia|done]. Qed.

(** After a loop's step, the loop's own lemma from there. *)
Lemma wp_reach (p q : nat) (r : option nat) :
  reach p q -> wp (reach q) r -> wp (reach p) r.
Proof. intros Hpq Hr. eapply wp_mono; [exact Hr|]. intros e. by apply reach_trans. Qed.

Lemma wp_scan_reach (f : ascii -> bool) (p : nat) :
  f NEWLINE = false -> f NUL = false -> (p <= len)%nat -> wp (reach p) (scan T f p).
Proof. intros Hf Hn Hp. apply wp_scan; [done..|]. intros e He Hm _ _. by split. Qed.

Lemma wp_scan_at_most (f : ascii -> bool) (n p : nat) :
  f NEWLINE = false -> f NUL = false -> (p <= len)%nat -> wp (reach p) (scan_at_most T f n p).
Proof.
  intros Hf Hn. revert p. induction n as [|n IH]; intros p Hp; [by apply reach_refl|].
  cbn [scan_at_most]. apply wp_bind, wp_rd; [done|].
  destruct (f (at_ p)) eqn:E; [|by apply reach_refl].
  assert (reach p (S p)) as Hs by (apply reach_step; by apply (ordinary_if f)).
  apply (wp_reach p (S p)); [done|]. apply IH. destruct Hs; lia.
Qed.

Lemma wp_string_tail (fuel p : nat) :
  (p <= len)%nat -> (len - p < fuel)%nat ->
  wp (reach p) (consume_string_literal_tail_after_error T fuel p).
Proof.
  revert p. induction fuel as [|fuel IH]; intros p Hp Hf; [lia|].
  cbn [consume_string_literal_tail_after_error].
  destruct (at_eof T p) eqn:Eeof; [by apply reach_refl|].
  apply at_eof_false in Eeof as [Hlt Hnul]. apply wp_bind, wp_rd; [done|].
  destruct (at_ p =c DQUOTE) eqn:Eq; [apply reach_step; by ord|].
  destruct (at_ p =c NEWLINE) eqn:En; [apply reach_refl; lia|].
  assert (reach p (S p)) as Hs by (apply reach_step; split; [done|by apply eqb_false]).
  destruct (at_ p =c BACKSLASH); [|apply (wp_reach p (S p)); [done|apply IH; lia]].
  destruct (at_eof T (S p)) eqn:Eeof2; [done|].
  apply at_eof_false in Eeof2 as [Hlt2 Hnul2]. apply wp_bind, wp_rd; [lia|].
  destruct (at_ (S p) =c NEWLINE) eqn:En2; [done|].
  assert (reach (S p) (S (S p))) as Hs2 by (apply reach_step; split; [done|by apply eqb_false]).
  apply (wp_reach p (S (S p))); [by eapply reach_trans|]. apply IH; lia.
Qed.

Definition string_end (p : nat) (r : StringEnd) : Prop :=
  match r with
  | StringClosed q => reach p q /\ at_ q = DQUOTE
  | StringRefused q _ _ _ => reach p q
  end.

Definition string_escape_end (p : nat) (r : nat + StringEnd) : Prop :=
  match r with inl q => reach p q | inr r => string_end p r end.

Lemma wp_string_refused (p0 p : nat) (m g v : string) :
  reach p0 p -> wp (string_escape_end p0) (string_refused T p m g v).
Proof.
  intros Hr. apply wp_bind. eapply wp_mono.
  - apply (wp_reach p0 p); [exact Hr|]. destruct Hr. apply wp_string_tail; [lia|unfold len; lia].
  - by intros q Hq.
Qed.

Lemma wp_string_escape (p : nat) :
  ordinary (at_ p) -> wp (string_escape_end p) (string_escape T p (at_ p)).
Proof.
  intros Ho. pose proof (reach_step p Ho) as Hs. assert (S p <= len)%nat as Hp by (destruct Hs; lia).
  unfold string_escape.
  destruct (is_simple_escape (at_ p)); [done|].
  destruct (at_ p =c "x").
  { apply wp_bind, wp_rd; [done|]. destruct (is_xdigit (at_ (S p))); [|by apply wp_string_refused].
    apply wp_bind. eapply wp_mono; [by apply (wp_scan_reach is_xdigit)|].
    intros e He. by apply (reach_trans p (S p)). }
  assert (forall f n, f NEWLINE = false -> f NUL = false -> wp (reach p) (scan_at_most T f n (S p))) as Hsc.
  { intros f n H1 H2. apply (wp_reach p (S p)); [done|]. by apply wp_scan_at_most. }
  destruct (at_ p =c "u"); [|destruct (at_ p =c "U"); [|destruct (is_octal (at_ p))]].
  1-2: apply wp_bind; eapply wp_mono; [by apply Hsc|]; intros q Hq; case_decide; [done|by apply wp_string_refused].
  - apply wp_bind. eapply wp_mono; [by apply Hsc|]. by intros q Hq.
  - apply wp_string_refused, reach_refl. lia.
Qed.

Lemma string_end_trans (p q : nat) (r : StringEnd) : reach p q -> string_end q r -> string_end p r.
Proof. destruct r; simpl; [intros ? []; split|intros]; eauto using reach_trans. Qed.

Lemma wp_string_loop (fuel p : nat) :
  (p <= len)%nat -> (len - p < fuel)%nat -> wp (string_end p) (string_loop T fuel p).
Proof.
  revert p. induction fuel as [|fuel IH]; intros p Hp Hf; [lia|].
  cbn [string_loop]. apply wp_bind, wp_rd; [done|].
  destruct ((at_ p =c NUL) || _) eqn:E0; [by apply reach_refl|].
  apply orb_false_iff in E0 as [E0 E1].
  assert (reach p (S p)) as Hs by (apply reach_step; split; by apply eqb_false).
  assert (S p <= len)%nat as Hp1 by (destruct Hs; lia).
  destruct (at_ p =c DQUOTE) eqn:Eq; [split; [by apply reach_refl|by apply ascii_eqb_eq]|].
  destruct (at_ p =c BACKSLASH).
  - apply wp_bind, wp_rd; [done|].
    destruct ((at_ (S p) =c NUL) || _) eqn:E2; [done|]. apply orb_false_iff in E2 as [E2 E3].
    assert (ordinary (at_ (S p))) as Ho by (split; by apply eqb_false).
    apply wp_bind. eapply wp_mono; [by apply wp_string_escape|].
    intros [q|r] Hq; simpl in Hq.
    + assert (reach p q) as Hpq by (by eapply reach_trans).
      eapply wp_mono; [apply IH; destruct Hq; lia|]. intros r. by apply string_end_trans.
    + by apply (string_end_trans p (S p)).
  - eapply wp_mono; [apply IH; lia|]. intros r. by apply string_end_trans.
Qed.

(** A literal's handler, entered at its opening quote: a refusal is a counted error. *)
Definition literal_result (lx : Lexer) (r : Token * Lexer) : Prop :=
  result lx r /\ (tok_type r.1 = TOKEN_UNKNOWN -> 0 < lx_fatalErrorCount r.2).

Lemma literal_token (lx lx' : Lexer) (ty : TokenType) (v : string) :
  ty <> TOKEN_UNKNOWN -> wp (result lx) (token T lx' ty v (lexer_mark lx)) ->
  wp (literal_result lx) (token T lx' ty v (lexer_mark lx)).
Proof.
  intros Hty H. split; [exact H|]. simpl. unfold make_token.
  by destruct (lexer_mark_source_location T (lexer_mark lx)).
Qed.

Lemma literal_error (lx lx' : Lexer) (message got v : string) :
  good lx -> good lx' -> (lx_position lx < lx_position lx')%nat ->
  wp (literal_result lx) (error_token T lx' (lexer_mark lx) (lexer_mark lx) message got v).
Proof.
  intros H1 H2 H3. eapply wp_mono; [by apply wp_error_token|]. intros r [Hr Hf]. by split.
Qed.

Lemma wp_string_literal (lx : Lexer) :
  good lx -> at_ (lx_position lx) = DQUOTE ->
  wp (literal_result lx) (handleStringLiteral T lx).
Proof.
  intros Hg Hq. unfold handleStringLiteral.
  assert (reach (lx_position lx) (S (lx_position lx))) as Hs by (apply reach_step; rewrite Hq; done).
  apply wp_bind. eapply wp_mono; [apply wp_string_loop; [destruct Hs; lia|unfold len; lia]|].
  intros [p|p m g v]; simpl.
  - intros [Hr Hend].
    assert (reach p (S p)) as Hs2 by (apply reach_step; rewrite Hend; done).
    assert (reach (lx_position lx) (S p)) as [Hr2 Hm2] by (eapply reach_trans; [eapply reach_trans|]; done).
    apply literal_token; [done|]. apply wp_token; [done|by apply good_seek| |done].
    destruct Hr; simpl; lia.
  - intros Hr. assert (reach (lx_position lx) p) as [Hr2 Hm2] by (by eapply reach_trans).
    apply literal_error; [done|by apply good_seek|]. destruct Hr; simpl; lia.
Qed.

(** ** Character literals *)

Lemma moves_past_end (p : nat) : at_ p = NUL -> (p <= len)%nat -> moves p (S p).
Proof. intros H Hp. apply moves_step; [by rewrite H|done]. Qed.

Lemma wp_char_tail (fuel p : nat) :
  (p <= S len)%nat -> (len - p < fuel)%nat ->
  wp (moves p) (consume_char_literal_tail_after_error T fuel p).
Proof.
  revert p. induction fuel as [|fuel IH]; intros p Hp Hf; [lia|].
  cbn [consume_char_literal_tail_after_error].
  destruct (at_eof T p) eqn:Eeof; [by apply moves_refl|].
  apply at_eof_false in Eeof as [Hlt Hnul]. apply wp_bind, wp_rd; [lia|].
  destruct (at_ p =c QUOTE) eqn:Eq; [apply step_ordinary; by ord|].
  destruct (at_ p =c NEWLINE) eqn:En; [apply moves_refl; lia|].
  destruct (step_ordinary p) as [Hp1 Hm1]; [split; [done|by apply eqb_false]|].
  eapply wp_mono; [apply IH; lia|]. intros q. by apply moves_trans.
Qed.

Lemma wp_char_hex (n p : nat) (hex : Z) (count : nat) :
  (p <= len)%nat ->
  wp (fun r => reach p r.1.1.1 /\ FreeOfConstant ∉ r.2) (char_hex T n p hex count).
Proof.
  revert p hex count. induction n as [|n IH]; intros p hex count Hp.
  - split; [by apply reach_refl|apply not_elem_of_nil].
  - cbn [char_hex]. apply wp_bind, wp_rd; [done|].
    destruct (is_xdigit (at_ p)) eqn:E; [|split; [by apply reach_refl|apply not_elem_of_nil]].
    assert (reach p (S p)) as Hs by (apply reach_step; by apply (ordinary_if is_xdigit)).
    unfold int_result. apply wp_bind. eapply wp_mono; [apply IH; destruct Hs; lia|].
    intros [[[q v] k] o] [Hq Ho]. simpl in *. split; [by eapply reach_trans|].
    rewrite elem_of_app. intros [H|H]; [|done]. destruct (inS 32 _); set_solver.
Qed.

Lemma char_hex_value_overflow (ds : list ascii) : FreeOfConstant ∉ (char_hex_value ds).2.
Proof.
  unfold char_hex_value.
  assert (forall acc : Z * list UndefinedOp, FreeOfConstant ∉ acc.2 ->
    FreeOfConstant ∉ (foldl (fun '(hex, o) h =>
      let '(m, o1) := int_result (hex * 16) in
      let '(v, o2) := int_result (m + digit_value h) in (v, o ++ o1 ++ o2)) acc ds).2) as Hgen.
  { induction ds as [|d ds IH]; intros [hex o] Ho; [done|]. simpl. apply IH. simpl in *.
    rewrite !elem_of_app. intros [H|[H|H]]; [done| |]; destruct (inS 32 _); set_solver. }
  apply Hgen. apply not_elem_of_nil.
Qed.

(** An escape from [p] behind its character: the value's end is inside the text, a refusal
    may be behind the terminator. *)
Definition char_escape_end (p : nat) (r : EscapeEnd) : Prop :=
  (FreeOfConstant ∉ r.2) /\
  match r.1 with inl (q, _) => reach p q | inr (q, _, _, _) => moves p q end.

Lemma wp_char_refused (p0 p : nat) (m g v : string) (o : list UndefinedOp) :
  moves p0 p -> FreeOfConstant ∉ o -> wp (char_escape_end p0) (char_refused T p m g v o).
Proof.
  intros Hm Ho. apply wp_bind. eapply wp_mono; [apply wp_char_tail; destruct Hm; [lia|unfold len; lia]|].
  intros q Hq. split; [done|]. by eapply moves_trans.
Qed.

Lemma wp_char_escape (p : nat) (e : ascii) :
  (p <= S len)%nat -> (e <> NUL -> (p <= len)%nat) -> wp (char_escape_end p) (char_escape T p e).
Proof.
  intros Hp He. unfold char_escape.
  assert (forall c : ascii, (e =c c) = true -> c <> NUL -> (p <= len)%nat) as Hc
    by (intros c ->%ascii_eqb_eq; auto).
  assert (FreeOfConstant ∉ ([] : list UndefinedOp)) as Hnil by apply not_elem_of_nil.
  destruct (List.find _ simple_escapes) as [row|] eqn:Ef.
  { split; [done|]. apply reach_refl. apply find_some in Ef as [Hin Heq]. apply (Hc _ Heq).
    simpl in Hin. repeat (destruct Hin as [<-|Hin]; [done|]). done. }
  assert (forall n, (p <= len)%nat ->
    wp (fun r => char_escape_end p (inl (r.1.1.1, r.1.1.2), r.2) /\ moves p r.1.1.1 /\ FreeOfConstant ∉ r.2)
      (char_hex T n p 0 0)) as Hhex.
  { intros n Hn. eapply wp_mono; [by apply wp_char_hex|]. intros r [Hr Ho]. destruct Hr. by split_and!. }
  destruct (e =c "u") eqn:Eu; [|destruct (e =c "U") eqn:EU].
  1-2: apply wp_bind; eapply wp_mono; [apply Hhex; eapply Hc; [eassumption|done]|];
    intros [[[q hex] k] o] (Hok & Hm & Ho); case_decide; [done|by apply wp_char_refused].
  destruct (e =c "x") eqn:Ex.
  { apply wp_bind. eapply wp_mono; [apply (wp_scan_reach is_xdigit); [done|done|by apply (Hc "x"%char)]|].
    intros q Hq. case_decide; [by apply wp_char_refused; [apply moves_refl|]|].
    pose proof (char_hex_value_overflow (slice T p q)). destruct (char_hex_value (slice T p q)). by split. }
  destruct (is_octal e) eqn:Eo.
  { apply wp_bind. eapply wp_mono; [apply (wp_scan_at_most is_octal); [done|done|apply He; by intros ->]|].
    intros q Hq. by split. }
  apply wp_char_refused; [by apply moves_refl|done].
Qed.

Definition char_end (p : nat) (r : CharEnd) : Prop :=
  match r with
  | CharClosed q st => moves p q /\ (q <= len)%nat /\ FreeOfConstant ∉ cs_overflow st
  | CharRefused q _ _ _ o => moves p q /\ FreeOfConstant ∉ o
  end.

Lemma char_end_trans (p q : nat) (r : CharEnd) : moves p q -> char_end q r -> char_end p r.
Proof. destruct r; simpl; [intros ? (? & ? & ?)|intros ? (? & ?)]; split_and!; eauto using moves_trans. Qed.

Lemma wp_char_loop (fuel p : nat) (st : CharState) :
  (p <= len)%nat -> (len - p < fuel)%nat -> FreeOfConstant ∉ cs_overflow st ->
  wp (char_end p) (char_loop T fuel p st).
Proof.
  revert p st. induction fuel as [|fuel IH]; intros p st Hp Hf Hst; [lia|].
  cbn [char_loop]. apply wp_bind, wp_rd; [done|].
  destruct ((at_ p =c NUL) || _) eqn:E0; [split; [apply moves_refl; lia|done]|].
  apply orb_false_iff in E0 as [E0 E1].
  destruct (step_ordinary p) as [Hp1 Hm1]; [split; by apply eqb_false|].
  destruct (at_ p =c QUOTE); [by split_and!|].
  destruct (at_ p =c BACKSLASH) eqn:Eb.
  - apply wp_bind, wp_rd; [done|].
    assert (moves p (S (S p))) as Hm2.
    { destruct Hm1 as [_ Hm1]. split; [lia|]. intros Hns i Hi.
      destruct (decide (i = S p)) as [->|]; [|apply Hm1; [done|lia]].
      apply (Hns p). by apply ascii_eqb_eq. }
    apply wp_bind. eapply wp_mono.
    { apply wp_char_escape; [lia|]. intros He. apply at_inside in He. lia. }
    intros [r o] [Ho Hr]. cbn [fst snd] in *.
    assert (FreeOfConstant ∉ (o ++ cs_overflow st)) as Happ by (rewrite elem_of_app; tauto).
    destruct r as [[q v]|[[[q m] g] v]].
    + destruct Hr as [Hq Hmq]. eapply wp_mono; [apply IH; [lia|lia|done]|].
      intros r. apply char_end_trans. by eapply moves_trans.
    + split; [by eapply moves_trans|done].
  - eapply wp_mono; [apply IH; [lia|lia|done]|]. intros r. by apply char_end_trans.
Qed.

Lemma wp_char_literal (lx : Lexer) :
  good lx -> at_ (lx_position lx) = QUOTE -> wp (literal_result lx) (handleCharLiteral T lx).
Proof.
  intros Hg Hq. unfold handleCharLiteral.
  destruct (step_ordinary (lx_position lx)) as [Hp1 Hm1]; [by rewrite Hq|].
  apply wp_bind. eapply wp_mono; [apply wp_char_loop; [done|unfold len; lia|apply not_elem_of_nil]|].
  intros [p st|p m g v o]; simpl.
  - intros (Hm & Hp & Ho).
    assert (good (undefined (seek lx p) (cs_overflow st))) as Hg'.
    { apply good_undefined; [|done]. apply good_seek; [done|]. by eapply moves_trans. }
    assert (lx_position lx < p)%nat by (destruct Hm; lia).
    case_decide; [by apply literal_error|]. apply literal_token; [done|]. by apply wp_token.
  - intros (Hm & Ho).
    assert (good (undefined (seek lx p) o)) as Hg'.
    { apply good_undefined; [|done]. apply good_seek; [done|]. by eapply moves_trans. }
    apply literal_error; [done|done|]. destruct Hm; simpl; lia.
Qed.

(** ** Directives *)

Lemma wp_skip_space (fuel : nat) (lx : Lexer) :
  good lx -> (lx_position lx <= len)%nat -> (len - lx_position lx < fuel)%nat ->
  wp (fun lx' => good lx' /\ (lx_position lx <= lx_position lx' <= len)%nat) (skip_space T fuel lx).
Proof.
  revert lx. induction fuel as [|fuel IH]; intros lx Hg Hp Hf; [lia|].
  cbn [skip_space]. apply wp_bind, wp_rd; [done|].
  destruct (is_space (at_ (lx_position lx))) eqn:Es; [|by split_and!].
  assert (lx_position lx < len)%nat as Hlt by (apply at_inside; by intros H; rewrite H in Es).
  destruct (at_ (lx_position lx) =c NEWLINE) eqn:En.
  - eapply wp_mono; [apply IH; simpl; [|lia..]; apply good_newline; [done|by apply ascii_eqb_eq]|].
    simpl. intros lx' [? ?]. split; [done|lia].
  - eapply wp_mono; [apply IH; simpl; [|lia..]; apply good_seek; [done|];
                     apply moves_step; [by apply eqb_false|done]|].
    simpl. intros lx' [? ?]. split; [done|lia].
Qed.

Lemma wp_directive (lx : Lexer) :
  good lx -> at_ (lx_position lx) = "#"%char -> wp (result lx) (handlePreprocessorDirective T lx).
Proof.
  intros Hg Hh. unfold handlePreprocessorDirective.
  destruct (step_ordinary (lx_position lx)) as [Hp1 Hm1]; [by rewrite Hh|].
  destruct (negb _).
  - apply wp_bind, wp_rd; [done|]. destruct (at_ (S (lx_position lx)) =c "#") eqn:E2.
    + destruct (step_ordinary (S (lx_position lx))) as [Hp2 Hm2]; [by ord|].
      apply wp_token; [done| |simpl; lia|done]. apply good_seek; [done|]. by eapply moves_trans.
    + apply wp_token; [done|by apply good_seek|simpl; lia|done].
  - apply wp_bind. eapply wp_mono.
    { apply wp_skip_space; [by apply good_seek|done|simpl; unfold len; lia]. }
    simpl. intros lx' [Hg' Hp']. apply wp_bind, wp_rd; [lia|].
    destruct (_ && _); [apply wp_token; [done|done|lia|done]|].
    apply wp_bind, wp_scan; [done|done|lia|]. intros e He Hm _ _.
    apply wp_token; [done|by apply good_seek|simpl; lia|].
    unfold directive_type. destruct (List.find _ directive_types) as [row|] eqn:E; [|done].
    apply find_some in E as [E _]. simpl in E. repeat (destruct E as [<-|E]; [done|]). done.
Qed.

(** ** Comments *)

(** The next token, or the end of the file at the terminator: it starts behind white space and
    comments and is marked at its start, behind the prefix of a literal. *)
Definition outcome (lx : Lexer) (r : Token * Lexer) : Prop :=
  0 <= lx_fatalErrorCount r.2 /\
  (FreeOfConstant ∈ lx_undefined r.2 -> 0 < lx_fatalErrorCount r.2) /\
  exists p, gap (lx_position lx) p /\ token_start p /\
    (p + literal_prefix p < lx_position r.2)%nat /\ located r.1 (p + literal_prefix p) /\
    if decide (tok_type r.1 = TOKEN_EOF) then at_ p = NUL else good r.2.

(** Behind white space, what is read at the cursor is the next token. *)
Lemma result_outcome (lx : Lexer) (k : nat) (r : Token * Lexer) :
  token_start (lx_position lx) -> literal_prefix (lx_position lx) = k ->
  result (seek lx (lx_position lx + k)) r -> outcome lx r.
Proof.
  intros Hs <- (Hg & Hty & Hp & Hloc). split; [by apply g_fatal|]. split; [by apply g_undefined|].
  exists (lx_position lx). split_and!; [constructor|done|done|done|]. by rewrite decide_False by done.
Qed.

Lemma seek_here (lx : Lexer) : seek lx (lx_position lx) = lx.
Proof. by destruct lx. Qed.

Lemma outcome_from (lx lx' : Lexer) (r : Token * Lexer) :
  gap (lx_position lx) (lx_position lx') -> outcome lx' r -> outcome lx r.
Proof.
  intros Hle (Hf & Hu & p & Hp & Hrest). split_and!; [done|done|]. exists p. split; [by eapply gap_trans|done].
Qed.

Lemma wp_outcome_at (lx : Lexer) (k : nat) (r : option (Token * Lexer)) :
  token_start (lx_position lx) -> literal_prefix (lx_position lx) = k ->
  wp (result (seek lx (lx_position lx + k))) r -> wp (outcome lx) r.
Proof. intros Hs Hk H. eapply wp_mono; [exact H|]. intros x. by apply result_outcome. Qed.

Lemma wp_outcome (lx : Lexer) (r : option (Token * Lexer)) :
  token_start (lx_position lx) -> literal_prefix (lx_position lx) = 0%nat -> wp (result lx) r -> wp (outcome lx) r.
Proof. intros Hs Hk H. apply (wp_outcome_at lx 0); [done..|]. by rewrite Nat.add_0_r, seek_here. Qed.

Lemma wp_block_comment (fuel : nat) (lx : Lexer) :
  good lx -> (lx_position lx <= len)%nat -> (len - lx_position lx < fuel)%nat ->
  wp (fun r => good r.1 /\ (lx_position lx <= lx_position r.1 <= len)%nat /\
        if (r.2 : bool) then comment_rest (lx_position lx) (lx_position r.1)
        else forall q, ~ comment_rest (lx_position lx) q) (block_comment T fuel lx).
Proof.
  revert lx. induction fuel as [|fuel IH]; intros lx Hg Hp Hf; [lia|].
  cbn [block_comment]. apply wp_bind, wp_rd; [done|].
  set (p := lx_position lx) in *.
  assert ((at_ p =c "*") = true -> (S p <= len)%nat /\ moves p (S p)) as Hstar
    by (intros H; apply step_ordinary; by ord).
  apply wp_bind.
  assert (forall Q, (forall n, ((at_ p =c "*") = true -> n = at_ (S p)) -> wp Q (Some n)) ->
    wp Q (if at_ p =c "*" then rd T (S p) else Some NUL)) as Hrd.
  { intros Q HQ. destruct (at_ p =c "*") eqn:E; [|by apply HQ].
    destruct (Hstar eq_refl). apply wp_rd; [done|]. by apply HQ. }
  apply Hrd. intros n Hn. simpl.
  destruct ((at_ p =c "*") && (n =c "/")) eqn:Eclose.
  { apply andb_true_iff in Eclose as [E1 E2]. destruct (Hstar E1) as [Hp1 Hm1]. specialize (Hn E1). subst n.
    destruct (step_ordinary (S p)) as [Hp2 Hm2]; [by ord|].
    split_and!; simpl; [apply good_seek; [done|]; by eapply moves_trans|lia|lia|].
    constructor. split; by apply ascii_eqb_eq. }
  assert (~ closes p) as Hclose.
  { intros [E1 E2]. rewrite E1 in Hn, Eclose. specialize (Hn eq_refl). subst n. by rewrite E2 in Eclose. }
  assert (forall (closed : bool) q, at_ p <> NUL ->
    (if closed then comment_rest (S p) q else forall q, ~ comment_rest (S p) q) ->
    if closed then comment_rest p q else forall q, ~ comment_rest p q) as Hrest.
  { intros [] q Hnul H; [by apply rest_char|]. intros q' Hq'. inversion Hq'; subst; [done|]. by eapply H. }
  destruct (at_ p =c NUL) eqn:E0.
  { split_and!; [done|done|done|]. intros q Hq. apply ascii_eqb_eq in E0. by inversion Hq. }
  assert (p < len)%nat as Hlt by (apply at_inside; by apply eqb_false).
  destruct (at_ p =c NEWLINE) eqn:En.
  - eapply wp_mono; [apply IH; simpl; [apply good_newline; [done|by apply ascii_eqb_eq]|lia..]|].
    simpl. intros r (? & ? & ?). split_and!; [done|lia|lia|]. apply Hrest; [by apply eqb_false|done].
  - eapply wp_mono; [apply IH; simpl; [apply good_seek; [done|]; apply moves_step; [by apply eqb_false|done]|lia..]|].
    simpl. intros r (? & ? & ?). split_and!; [done|lia|lia|]. apply Hrest; [by apply eqb_false|done].
Qed.

(** What a handler may rely on when it calls the lexer behind a comment. *)
Definition next_ok (next : Lexer -> option (Token * Lexer)) (lx : Lexer) : Prop :=
  forall lx', good lx' -> (lx_position lx < lx_position lx' <= len)%nat -> wp (outcome lx') (next lx').

Lemma wp_comment (next : Lexer -> option (Token * Lexer)) (lx : Lexer) :
  good lx -> (lx_position lx <= len)%nat -> next_ok next lx ->
  (forall q, ~ splice (lx_position lx) q) ->
  at_ (lx_position lx) = "/"%char -> wp (outcome lx) (handleComment T next lx).
Proof.
  intros Hg Hp Hnext Hsp Hslash. unfold handleComment. apply wp_bind, wp_rd; [done|].
  destruct (step_ordinary (lx_position lx)) as [Hp1 Hm1]; [by rewrite Hslash|].
  rewrite Hslash. change ("/" =c NUL) with false. cbv iota.
  apply wp_bind, wp_rd; [done|]. set (p := lx_position lx) in *.
  assert ((forall q, ~ comment p q) -> forall r, wp (result lx) r -> wp (outcome lx) r) as Hstart.
  { intros Hc r. apply wp_outcome; unfold token_start, literal_prefix; fold p; rewrite Hslash; [by split_and!|done]. }
  assert ((at_ (S p) =c "/") = false -> (at_ (S p) =c "*") = false -> forall q, ~ comment p q) as Hother.
  { intros H1%eqb_false H2%eqb_false q Hq. by inversion Hq. }
  assert ((at_ (S p) =c "/") = false -> (at_ (S p) =c "*") = false ->
    wp (outcome lx) (token T (seek lx (S p)) TOKEN_DIVIDE "/" (lexer_mark lx))) as Hdiv.
  { intros. apply Hstart; [by apply Hother|]. apply wp_token; [done|by apply good_seek|simpl; lia|done]. }
  destruct (at_ (S p) =c NUL) eqn:E0; [apply Hdiv; by apply ascii_eqb_eq in E0 as ->|]. cbn [orb].
  assert (forall c : ascii, (at_ (S p) =c c) = true -> ordinary c ->
    (S (S p) <= len)%nat /\ good (seek lx (S (S p)))) as Hsecond.
  { intros c Hc Ho. destruct (step_ordinary (S p)) as [Hp2 Hm2]; [by eapply ordinary_eqb|].
    split; [done|]. apply good_seek; [done|]. by eapply moves_trans. }
  destruct (at_ (S p) =c "=") eqn:Eeq.
  { destruct (Hsecond _ Eeq) as [Hp2 Hg2]; [done|]. apply ascii_eqb_eq in Eeq.
    apply Hstart; [apply Hother; by rewrite Eeq|]. apply wp_token; [done|done|simpl; lia|done]. }
  destruct (at_ (S p) =c "/") eqn:Esl.
  { destruct (Hsecond _ Esl) as [Hp2 Hg2]; [done|].
    apply wp_bind, wp_scan; [done|done|done|]. intros e He Hm Hin Hend.
    eapply wp_mono; [apply Hnext|intros r; apply outcome_from].
    - by apply (good_seek (seek lx (S (S p)))).
    - simpl. lia.
    - apply (gap_comment _ e); [|constructor].
      assert (forall c, negb (c =c NEWLINE) && negb (c =c NUL) = true <-> ~ line_end c) as Hle.
      { intros c. rewrite andb_true_iff, !negb_true_iff. unfold line_end.
        split; [intros [H1%eqb_false H2%eqb_false]; tauto|]. intros H. split; apply Ascii.eqb_neq; tauto. }
      apply line_comment; [done|by apply ascii_eqb_eq|lia|..].
      + intros i Hi. by apply Hle, Hin.
      + apply andb_false_iff in Hend as [H%negb_false_iff%ascii_eqb_eq|H%negb_false_iff%ascii_eqb_eq]; [by left|by right]. }
  destruct (at_ (S p) =c "*") eqn:Est; [|by apply Hdiv].
  destruct (Hsecond _ Est) as [Hp2 Hg2]; [done|]. apply ascii_eqb_eq in Est.
  apply wp_bind. eapply wp_mono; [apply wp_block_comment; [done|done|simpl; unfold len; lia]|].
  intros [lx' closed] (Hg' & Hp' & Hc). simpl in *. destruct closed.
  - eapply wp_mono; [apply Hnext; [done|lia]|]. intros r. apply outcome_from.
    apply (gap_comment _ (lx_position lx')); [|constructor]. by apply closed_comment.
  - apply Hstart. { intros q Hq. inversion Hq as [? ? Hbad|]; [by rewrite Est in Hbad|]. by eapply Hc. }
    eapply wp_mono; [apply wp_error_token; [done|done|lia]|]. by intros r [Hr _].
Qed.

(** ** Operators and punctuation *)

Lemma wp_unknown (lx : Lexer) :
  good lx -> ordinary (at_ (lx_position lx)) -> wp (result lx) (handleUnknownToken T lx).
Proof.
  intros Hg Ho. unfold handleUnknownToken. destruct (step_ordinary _ Ho) as [Hp Hm].
  assert (good (seek lx (S (lx_position lx)))) as Hg' by (by apply good_seek).
  apply wp_bind, wp_rd; [lia|].
  assert (forall g, wp (result lx) (error_token T (seek lx (S (lx_position lx))) (lexer_mark lx) (lexer_mark lx)
            "Invalid character in source" g "ERROR")) as Herr.
  { intros g. eapply wp_mono; [apply wp_error_token; [done|done|simpl; lia]|]. by intros r [Hr _]. }
  destruct (at_ (lx_position lx) =c "@"); [|done].
  destruct (lexer_is_system_header_path _); [|done]. apply wp_token; [done|done|simpl; lia|done].
Qed.

Lemma wp_punctuation (lx : Lexer) :
  good lx -> ordinary (at_ (lx_position lx)) -> wp (result lx) (handlePunctuation T lx).
Proof.
  intros Hg Ho. unfold handlePunctuation. destruct (step_ordinary _ Ho) as [Hp Hm].
  set (p := lx_position lx) in *.
  assert (forall ty v, ty <> TOKEN_EOF ->
    wp (result lx) (token T (seek lx (S p)) ty v (lexer_mark lx))) as Htok.
  { intros. apply wp_token; [done|by apply good_seek|simpl; lia|done]. }
  apply wp_bind, wp_rd; [lia|]. destruct (at_ p =c ".").
  - apply wp_bind, wp_rd; [done|]. destruct (at_ (S p) =c ".") eqn:E1; [|by apply Htok].
    destruct (step_ordinary (S p)) as [Hp2 Hm2]; [by ord|].
    apply wp_bind, wp_rd; [done|]. destruct (at_ (S (S p)) =c ".") eqn:E2; [|by apply Htok].
    destruct (step_ordinary (S (S p))) as [Hp3 Hm3]; [by ord|].
    replace (p + 3)%nat with (S (S (S p))) by lia.
    apply wp_token; [done| |simpl; lia|done]. apply good_seek; [done|].
    eapply moves_trans; [|exact Hm3]. by eapply moves_trans.
  - destruct (List.find _ single_punctuation) as [row|] eqn:E; [|by apply Htok].
    apply Htok. apply find_some in E as [E _]. simpl in E. repeat (destruct E as [<-|E]; [done|]). done.
Qed.

Lemma operator_forms_not_eof :
  Forall (fun row : Operator => row.1.2.1 <> TOKEN_EOF /\
    Forall (fun form : Form => ordinary form.1.1 /\ form.1.2.1 <> TOKEN_EOF /\
              (forall q, form.2 = Some q -> q.1 <> TOKEN_EOF)) row.2) operator_forms.
Proof. repeat constructor; simpl; try done; by intros ? [= <-]. Qed.

Lemma wp_operator (next : Lexer -> option (Token * Lexer)) (lx : Lexer) :
  good lx -> ordinary (at_ (lx_position lx)) -> (at_ (lx_position lx) =c "/") = false ->
  (exists row, row ∈ operator_forms /\ (at_ (lx_position lx) =c row.1.1) = true) ->
  wp (result lx) (handleOperator T next lx).
Proof.
  intros Hg Ho Esl (row & Hrow & Heq). unfold handleOperator. destruct (step_ordinary _ Ho) as [Hp Hm].
  apply wp_bind, wp_rd; [lia|].
  rewrite Esl. set (p := lx_position lx) in *.
  destruct (List.find _ operator_forms) as [[[c0 [ty v]] forms]|] eqn:Ef.
  2: { apply find_none with (x := row) in Ef; [congruence|by apply list_elem_of_In]. }
  apply find_some in Ef as [Ein _]. pose proof operator_forms_not_eof as Hall.
  rewrite Forall_forall in Hall. apply list_elem_of_In, Hall in Ein as [Hty Hforms]. simpl in Hty, Hforms.
  apply wp_bind, wp_rd; [done|].
  destruct (List.find _ forms) as [[[c1 [ty1 v1]] o]|] eqn:Eform.
  - apply find_some in Eform as [Ein1 Eq1]. rewrite Forall_forall in Hforms.
    apply list_elem_of_In, Hforms in Ein1 as (Ho1 & Hty1 & Ho2). simpl in *.
    destruct (step_ordinary (S p)) as [Hp2 Hm2]; [by eapply ordinary_eqb|].
    assert (moves p (S (S p))) as Hm12 by (by eapply moves_trans).
    assert (wp (result lx) (token T (seek lx (S (S p))) ty1 v1 (lexer_mark lx))) as Htok
      by (apply wp_token; [done|by apply good_seek|simpl; lia|done]).
    destruct o as [[ty2 v2]|]; [|done].
    apply wp_bind, wp_rd; [done|]. destruct (at_ (S (S p)) =c "=") eqn:E3; [|done].
    destruct (step_ordinary (S (S p))) as [Hp3 Hm3]; [by ord|].
    replace (p + 3)%nat with (S (S (S p))) by lia.
    apply wp_token; [done| |simpl; lia|by apply (Ho2 (ty2, v2))]. apply good_seek; [done|by eapply moves_trans].
  - apply wp_token; [done|by apply good_seek|simpl; lia|done].
Qed.

(** ** The next token *)

(** What the white space leads to. *)
Definition skipped (lx lx' : Lexer) : Prop :=
  good lx' /\ gap (lx_position lx) (lx_position lx') /\
  is_space (at_ (lx_position lx')) = false /\ (forall q, ~ splice (lx_position lx') q).

Lemma wp_skip_whitespace (fuel : nat) (lx : Lexer) :
  good lx -> (len - lx_position lx < fuel)%nat -> wp (skipped lx) (skip_whitespace T fuel lx).
Proof.
  revert lx. induction fuel as [|fuel IH]; intros lx Hg Hf; [lia|].
  cbn [skip_whitespace]. set (p := lx_position lx) in *.
  case_decide as Hlt.
  2: { unfold skipped. simpl. fold p. rewrite at_end by lia. split_and!; [done|constructor|done|].
       intros q [H _]. by rewrite at_end in H by lia. }
  assert (forall lx', good lx' -> (p < lx_position lx')%nat -> (forall q, gap (lx_position lx') q -> gap p q) ->
    wp (skipped lx) (skip_whitespace T fuel lx')) as Hgo.
  { intros lx' Hg' Hp' Hgap. eapply wp_mono; [apply IH; [done|lia]|]. intros lx2 (? & ? & ? & ?). split_and!; [done|by apply Hgap|done|done]. }
  destruct ((at_ p =c BACKSLASH) && (at_ (S p) =c NEWLINE)) eqn:E1.
  { apply andb_true_iff in E1 as [E1%ascii_eqb_eq E2%ascii_eqb_eq]. apply Hgo; [|simpl; lia|].
    - assert (S p < len)%nat by (apply at_inside; by rewrite E2).
      apply good_seek; [done|]. split; [lia|]. intros Hns. by destruct (Hns p E1).
    - intros q. apply gap_splice. split; [done|by left]. }
  destruct ((at_ p =c BACKSLASH) && (at_ (S p) =c RETURN) && _) eqn:E2.
  { apply andb_true_iff in E2 as [[E2%ascii_eqb_eq E3%ascii_eqb_eq]%andb_true_iff E4%ascii_eqb_eq].
    apply Hgo; [|simpl; lia|].
    - assert (S (S p) < len)%nat by (apply at_inside; by rewrite E4).
      apply good_seek; [done|]. split; [lia|]. intros Hns. destruct (Hns p E2) as [_ Hcr]. by apply Hcr in E3.
    - intros q. apply gap_splice. split; [done|by right]. }
  destruct (is_space (at_ p)) eqn:Es; simpl.
  - destruct (at_ p =c NEWLINE) eqn:En; (apply Hgo; [|simpl; lia|intros q; by apply gap_space]).
    + apply good_newline; [done|by apply ascii_eqb_eq].
    + apply good_seek; [done|]. apply moves_step; [by apply eqb_false|lia].
  - split_and!; [done|constructor|done|]. intros q [Hb [[Hn _]|(Hr & Hn & _)]]; fold p in Hb, Hn.
    + by rewrite Hb, Hn in E1.
    + fold p in Hr. by rewrite Hb, Hr, Hn in E2.
Qed.

(** A prefix is put before a literal, which is marked where it starts. *)
Lemma wp_prepend (lx : Lexer) (r : option (Token * Lexer)) (prefix : string) :
  wp (literal_result lx) r -> wp (result lx) (prepend_to_literal r prefix).
Proof.
  intros Hr. apply wp_bind. eapply wp_mono; [exact Hr|].
  intros [tok lx2] [(Hg & Hty & Hp & Hloc) Hu]. simpl in *. split_and!; simpl.
  - destruct (tt_eqb _ _) eqn:E; [|done]. apply good_undefined; [done|].
    intros _. apply Hu. by apply tt_eqb_spec.
  - done.
  - by destruct (tt_eqb _ _).
  - done.
Qed.

Lemma mark_ambiguous_fields (tok : Token) :
  tok_type (mark_ambiguous_narrow_string_literal tok) = tok_type tok /\
  tok_line (mark_ambiguous_narrow_string_literal tok) = tok_line tok /\
  tok_location (mark_ambiguous_narrow_string_literal tok) = tok_location tok.
Proof. unfold mark_ambiguous_narrow_string_literal. by repeat case_match. Qed.

Lemma wp_unsupported_ucn (lx : Lexer) (n : ascii) :
  good lx -> (lx_position lx + 2 <= len)%nat -> moves (lx_position lx) (lx_position lx + 2) ->
  wp (result lx) (unsupported_ucn T lx n).
Proof.
  intros Hg Hp Hm. unfold unsupported_ucn. apply wp_bind.
  eapply wp_mono; [by apply (wp_scan_at_most is_xdigit)|]. intros e [He Hme].
  apply wp_bind. apply wp_report; [apply good_seek; [done|by eapply moves_trans]|].
  intros lx' Hg' Hp' _. simpl in Hp'. apply wp_token; [done|done|lia|done].
Qed.

Lemma member_operator (c : ascii) :
  member c ["="; "+"; "-"; "*"; "/"; "%"; "<"; ">"; "!"; "&"; "|"; "^"; "~"]%char = true -> (c =c "/") = false ->
  exists row, row ∈ operator_forms /\ (c =c row.1.1) = true.
Proof.
  unfold member. intros H Hsl. apply existsb_exists in H as (d & Hd & Heq).
  apply Ascii.eqb_eq in Heq as ->. simpl in Hd.
  assert (forall c : ascii, existsb (fun row : Operator => c =c row.1.1) operator_forms = true ->
    exists row, row ∈ operator_forms /\ (c =c row.1.1) = true) as Hrow.
  { intros c Hc. apply existsb_exists in Hc as (row & Hin & Hr). exists row.
    split; [by apply list_elem_of_In|done]. }
  repeat (destruct Hd as [<-|Hd]; [first [by apply Hrow | done]|]). done.
Qed.

Lemma utf8_not_slash (s : list ascii) : (0 < lexer_identifier_utf8_length s)%nat -> at_index s 0 <> "/"%char.
Proof. destruct s as [|c s]; [done|]. intros H E. change (c = "/"%char) in E. subst c. vm_compute in H. lia. Qed.

Lemma wp_dispatch (next : Lexer -> option (Token * Lexer)) (lx : Lexer) :
  good lx -> ordinary (at_ (lx_position lx)) -> next_ok next lx ->
  is_space (at_ (lx_position lx)) = false -> (forall q, ~ splice (lx_position lx) q) ->
  wp (outcome lx) (dispatch T next lx).
Proof.
  intros Hg Ho Hnext Hsp Hspl. unfold dispatch. destruct (step_ordinary _ Ho) as [Hp1 Hm1].
  set (p := lx_position lx) in *.
  assert (forall q, moves p q -> good (seek lx q)) as Hseek by (intros; by apply good_seek).
  assert (at_ p <> "/"%char -> token_start p) as Hst by (by apply token_start_not_slash).
  destruct ((at_ p =c "u") && (at_ (S p) =c "8") && (at_ (S (S p)) =c DQUOTE)) eqn:E1.
  { assert (literal_prefix p = 2%nat) as Hpre by (unfold literal_prefix; by rewrite E1).
    apply andb_true_iff in E1 as [[E1a%ascii_eqb_eq E1b]%andb_true_iff E1c%ascii_eqb_eq].
    destruct (step_ordinary (S p)) as [Hp2 Hm2]; [by ord|].
    apply (wp_outcome_at lx 2); [apply Hst; by rewrite E1a|done|]. fold p. apply wp_prepend, wp_string_literal.
    - apply Hseek. replace (p + 2)%nat with (S (S p)) by lia. by eapply moves_trans.
    - simpl. by replace (p + 2)%nat with (S (S p)) by lia. }
  assert (forall q, moves p (S p) -> at_ (S p) = q ->
    good (seek lx (p + 1)) /\ at_ (lx_position (seek lx (p + 1))) = q) as Hone.
  { intros q Hm Hq. simpl. replace (p + 1)%nat with (S p) by lia. by split; [apply Hseek|]. }
  assert ((at_ p =c "L") || (at_ p =c "u") || (at_ p =c "U") = true -> token_start p) as Hwide.
  { intros H. apply Hst. intros E. by rewrite E in H. }
  destruct (_ && (at_ (S p) =c DQUOTE)) eqn:E2.
  { apply (wp_outcome_at lx 1); fold p; [by apply andb_true_iff in E2 as [E2 _]; apply Hwide
      |unfold literal_prefix; by rewrite E1, E2|].
    apply andb_true_iff in E2 as [_ E2%ascii_eqb_eq]. destruct (Hone _ Hm1 E2). by apply wp_prepend, wp_string_literal. }
  destruct (_ && (at_ (S p) =c QUOTE)) eqn:E3.
  { apply (wp_outcome_at lx 1); fold p; [by apply andb_true_iff in E3 as [E3 _]; apply Hwide
      |unfold literal_prefix; by rewrite E1, E2, E3|].
    apply andb_true_iff in E3 as [_ E3%ascii_eqb_eq]. destruct (Hone _ Hm1 E3). by apply wp_prepend, wp_char_literal. }
  assert (at_ p <> "/"%char -> forall r, wp (result lx) r -> wp (outcome lx) r) as Hplain.
  { intros Hns r. apply wp_outcome; fold p; [by apply Hst|]. unfold literal_prefix. by rewrite E1, E2, E3. }
  clear Hone Hwide Hst.
  destruct ((at_ p =c BACKSLASH) && _) eqn:E4.
  { apply andb_true_iff in E4 as [E4b%ascii_eqb_eq E4]. apply Hplain; [by rewrite E4b|].
    destruct (step_ordinary (S p)) as [Hp2 Hm2].
    { by apply (ordinary_if (fun n => (n =c "u") || (n =c "U"))). }
    case_decide; [apply wp_identifier; [done|lia|by right; left]|].
    apply wp_unsupported_ucn; [done|fold p; lia|fold p; replace (p + 2)%nat with (S (S p)) by lia; by eapply moves_trans]. }
  destruct (is_alpha (at_ p) || _ || _) eqn:E5.
  { apply Hplain.
    - intros E. rewrite E in E5. change (false || false || bool_decide (0 < lexer_identifier_utf8_length (from T p))%nat = true) in E5.
      apply bool_decide_eq_true, utf8_not_slash in E5. by rewrite at_from, Nat.add_0_r in E5.
    - apply wp_identifier; [done|lia|].
      apply orb_true_iff in E5 as [E5|E5]; [left|right; right; by apply bool_decide_eq_true in E5].
      fold p. unfold is_ident_char, is_alnum. apply orb_true_iff in E5 as [->| ->]; [done|by rewrite orb_true_r]. }
  destruct (at_ p =c "/") eqn:Esl.
  { apply ascii_eqb_eq in Esl. rewrite Esl. apply wp_comment; [done|fold p; lia|done..]. }
  specialize (Hplain (eqb_false _ _ Esl)). apply Hplain. clear Hplain.
  destruct (is_digit (at_ p)) eqn:E6; [apply wp_number; [done|lia|by left]|].
  destruct ((at_ p =c ".") && _ && _) eqn:E7.
  { apply andb_true_iff in E7 as [[E7 _]%andb_true_iff _]. apply wp_number; [done|lia|by right]. }
  destruct (at_ p =c DQUOTE) eqn:E8.
  { apply wp_bind. eapply wp_mono; [apply wp_string_literal; [done|by apply ascii_eqb_eq]|].
    intros [tok lx2] [(Hg2 & Hty & Hp2 & Hloc) _]. simpl in *.
    destruct (mark_ambiguous_fields tok) as (Ht & Hl & Hlo).
    split_and!; simpl; [done|by rewrite Ht|done|]. unfold located in *. by rewrite Hl, Hlo. }
  destruct (at_ p =c QUOTE) eqn:E9.
  { eapply wp_mono; [apply wp_char_literal; [done|by apply ascii_eqb_eq]|]. by intros r [Hr _]. }
  destruct (at_ p =c "#") eqn:E10; [apply wp_directive; [done|by apply ascii_eqb_eq]|].
  destruct (member _ _) eqn:E12; [apply wp_operator; [done|done|done|by apply member_operator]|].
  match goal with |- context [if ?b then handlePunctuation _ _ else _] => destruct b end;
    [by apply wp_punctuation|by apply wp_unknown].
Qed.

Lemma wp_next_token (fuel : nat) (lx : Lexer) :
  good lx -> (len - lx_position lx < fuel)%nat -> wp (outcome lx) (next_token T fuel lx).
Proof.
  revert lx. induction fuel as [|fuel IH]; intros lx Hg Hf; [lia|].
  cbn [next_token]. apply wp_bind.
  eapply wp_mono; [apply wp_skip_whitespace; [done|unfold len; lia]|]. intros lx' (Hg' & Hgap & Hs & Hspl).
  pose proof (gap_le _ _ Hgap) as Hp'. eapply wp_mono; [|intros r; by apply (outcome_from lx lx')].
  unfold isEOF. destruct (at_eof T (lx_position lx')) eqn:Eeof.
  - assert (at_ (lx_position lx') = NUL) as Hnul.
    { unfold at_eof in Eeof. apply orb_true_iff in Eeof as [E|E]; [|by apply ascii_eqb_eq].
      apply bool_decide_eq_true in E. by apply at_end. }
    unfold outcome. simpl. split_and!; [exact (g_fatal lx' Hg')|exact (g_undefined lx' Hg')|].
    assert (literal_prefix (lx_position lx') = 0%nat) as Hpre by (unfold literal_prefix; by rewrite Hnul).
    exists (lx_position lx'). rewrite Hpre, Nat.add_0_r.
    split_and!; [constructor|apply token_start_not_slash; [done|done|by rewrite Hnul]|lia|by apply located_token|].
    unfold make_token. by destruct (lexer_mark_source_location T (lexer_mark lx')).
  - apply at_eof_false in Eeof as [Hlt Hnul].
    apply wp_dispatch; [done|split; [done|by intros H; rewrite H in Hs]| |done|done].
    intros lx2 Hg2 Hp2. apply IH; [done|lia].
Qed.

Lemma wp_get_next_token (lx : Lexer) : good lx -> wp (outcome lx) (getNextToken T lx).
Proof. intros Hg. apply wp_next_token; [done|unfold len; lia]. Qed.

(** ** Whole texts *)

Lemma outcome_progress (lx : Lexer) (tok : Token) (lx' : Lexer) :
  outcome lx (tok, lx') -> tok_type tok <> TOKEN_EOF ->
  good lx' /\ (lx_position lx < lx_position lx')%nat.
Proof.
  intros (_ & _ & p & Hgap & _ & Hp & _ & Hg) Hty. simpl in *. apply gap_le in Hgap. rewrite decide_False in Hg by done.
  split; [done|lia].
Qed.

(** What filling adds to the buffer: tokens in the order of their positions, the end of the
    file last and only there. *)
Definition filled (lx : Lexer) (added : list Token) (lx' : Lexer) : Prop :=
  exists ts eof ps, added = ts ++ [eof] /\ tok_type eof = TOKEN_EOF /\
    Forall (fun t => tok_type t <> TOKEN_EOF) ts /\
    StronglySorted lt ps /\ Forall (fun p => lx_position lx <= p)%nat ps /\
    Forall2 located added ps /\
    (FreeOfConstant ∈ lx_undefined lx' -> 0 < lx_fatalErrorCount lx').

Lemma filled_eof (lx lx' : Lexer) (tok : Token) (p : nat) :
  tok_type tok = TOKEN_EOF -> (lx_position lx <= p)%nat -> located tok p ->
  (FreeOfConstant ∈ lx_undefined lx' -> 0 < lx_fatalErrorCount lx') -> filled lx [tok] lx'.
Proof.
  intros Ht Hp Hl Hu. exists [], tok, [p]. split_and!; [done|done|done| | | |done].
  - constructor; constructor.
  - constructor; [done|constructor].
  - constructor; [done|constructor].
Qed.

Lemma wp_fill_loop (left : nat) (buffer : TokenBuffer) (lx : Lexer) :
  good lx -> (S len - lx_position lx <= left)%nat ->
  wp (fun r => r.1.1 = true /\ exists added, tb_tokens r.1.2 = tb_tokens buffer ++ added /\
                 filled lx added r.2 /\ (length added <= S (S len - lx_position lx))%nat)
    (fill_loop T left buffer lx).
Proof.
  revert buffer lx. induction left as [|left IH]; intros buffer lx Hg Hleft;
    cbn [fill_loop]; apply wp_bind; (eapply wp_mono; [by apply wp_get_next_token|]);
    intros [tok lx'] Hout; pose proof (outcome_progress lx tok lx' Hout) as Hprog;
    destruct Hout as (Hf & Hu & p0 & Hgap & _ & Hp & Hloc & _); cbn [fst snd] in *;
    apply gap_le in Hgap; set (p := (p0 + literal_prefix p0)%nat) in *;
    (destruct (tt_eqb (tok_type tok) TOKEN_EOF) eqn:Eeof;
     [apply tt_eqb_spec in Eeof; simpl; split; [done|]; exists [tok]; split_and!; [done| |simpl; lia];
      by apply (filled_eof lx lx' tok p); [|lia| |]|]);
    assert (tok_type tok <> TOKEN_EOF) as Hty by (intros Ht; by rewrite Ht, tt_eqb_refl in Eeof);
    destruct (Hprog Hty) as [Hg' Hlt]; pose proof (g_position lx' Hg').
  - lia.
  - eapply wp_mono; [apply IH; [done|lia]|].
    intros [[ok b] lx2] (Hok & added & Htok & (ts & eof & ps & Hadd & Heof & Hts & Hsort & Hge & Hlocs & Hu2) & Hlen).
    simpl in *. split; [done|]. exists (tok :: added). split_and!.
    + rewrite Htok. by rewrite <- app_assoc.
    + exists (tok :: ts), eof, (p :: ps). split_and!; [by rewrite Hadd|done|by constructor| | |by constructor|done].
      * constructor; [done|]. eapply Forall_impl; [exact Hge|]. simpl. lia.
      * constructor; [lia|]. eapply Forall_impl; [exact Hge|]. simpl. lia.
    + simpl. lia.
Qed.

Lemma good_initial : good (mkLexer 0 1 0 0 [] []).
Proof.
  split; simpl; [lia|lia|by intros ?%not_elem_of_nil|done|done].
Qed.

(** C25: from every good state the lexer returns a token and never reads behind the
    terminator.  The token starts at the first position behind the cursor that is not white
    space, a line splice or a comment; where the text has no line splices (translation removes
    them) it carries the line and column of that position, a literal with an encoding prefix
    those of its quote.  Unless it is the end of the file, at the terminator, the cursor has
    moved on and the state is good again. *)
Theorem getNextToken_safe (lx : Lexer) :
  good lx ->
  exists tok lx' p, getNextToken T lx = Some (tok, lx') /\
    gap (lx_position lx) p /\ token_start p /\
    (p + literal_prefix p < lx_position lx')%nat /\ located tok (p + literal_prefix p) /\
    (tok_type tok = TOKEN_EOF -> at_ p = NUL) /\
    (tok_type tok <> TOKEN_EOF -> good lx').
Proof.
  intros Hg. destruct (wp_Some _ _ (wp_get_next_token lx Hg)) as ([tok lx'] & Heq & _ & _ & p & Hgap & Hs & Hp & Hl & Hd).
  exists tok, lx', p. simpl in *. split_and!; [done..| |]; intros Ht.
  - by rewrite decide_True in Hd by done.
  - by rewrite decide_False in Hd by done.
Qed.

End Safety.

Definition sample_text (s : string) : LexerText :=
  mkLexerText (list_ascii_of_string s) None (list_ascii_of_string s) [] [] false.
Definition start_lexer : Lexer := mkLexer 0 1 0 0 [] [].

Definition sample_start : LexerText := sample_text "  /* a */ x <<= 2;".

Lemma getNextToken_safe_witness :
  good sample_start start_lexer /\
  exists tok lx' p, getNextToken sample_start start_lexer = Some (tok, lx') /\
    gap sample_start 0 p /\ token_start sample_start p /\
    (p + literal_prefix sample_start p < lx_position lx')%nat /\
    located sample_start tok (p + literal_prefix sample_start p) /\
    (tok_type tok = TOKEN_EOF -> char_at sample_start p = NUL) /\
    (tok_type tok <> TOKEN_EOF -> good sample_start lx').
Proof.
  split; [apply good_initial|].
  apply (getNextToken_safe sample_start start_lexer). apply good_initial.
Defined.

(** C26: every source text is tokenised: filling succeeds, the safety break is never
    reached, the tokens are in the order of the text with their lines and columns, the
    end-of-file token is the last and only one, and there are at most two tokens more than
    translated characters.  A constant is freed only if an error was reported. *)
Theorem token_buffer_fill_complete (source : list ascii) (filePath : option string) (tri : bool) :
  exists T lx buffer lx', initLexer source filePath tri = Some (T, lx) /\
    token_buffer_fill_from_lexer T token_buffer_init lx = Some (true, buffer, lx') /\
    filled T lx (tb_tokens buffer) lx' /\ (tb_count buffer <= text_length T + 2)%nat.
Proof.
  destruct (translate_source_total source tri) as [tr Htr].
  unfold initLexer. rewrite Htr. simpl.
  set (T := mkLexerText _ _ _ _ _ _). set (lx := mkLexer 0 1 0 0 [] []).
  assert (S (text_length T) - lx_position lx <= safety_limit T)%nat as Hlim
    by (unfold safety_limit; case_decide; simpl; lia).
  destruct (wp_Some _ _ (wp_fill_loop T (safety_limit T) token_buffer_init lx (good_initial T) Hlim))
    as ([[ok buffer] lx'] & Heq & Hok & added & Htok & Hfill & Hlen). simpl in *. subst ok added.
  exists T, lx, buffer, lx'. split_and!; [done|exact Heq|done|]. unfold tb_count. lia.
Qed.
