(* ===== verification/LexerSpec.v ===== *)
(** * What the lexer's tokens are: operators by longest match, words, numeric, string and
    character literals of the C grammar.

    [rest_at p s]: the text from position [p] on is [s].  The grammars are written on the
    text, without the lexer's positions. *)
From S2P Require Import Prelude CType LexerSource LexerChars Tokens Lexer LexerSafety.

Section Spec.
Context (T : LexerText).

Abbreviation len := (text_length T).
Abbreviation at_ := (char_at T).

Definition rest_at (p : nat) (s : list ascii) : Prop := (p <= len)%nat /\ drop p (lt_source T) = s.

Lemma rest_at_app (p : nat) (a b : list ascii) : rest_at p (a ++ b) -> rest_at (p + length a) b.
Proof.
  intros [Hp Hd]. assert (length (drop p (lt_source T)) = length a + length b)%nat as Hl
    by (by rewrite Hd, length_app).
  rewrite length_drop in Hl. change (length (lt_source T)) with len in Hl. split; [lia|].
  rewrite <- drop_drop, Hd. by rewrite drop_app_length.
Qed.

Lemma rest_at_cons (p : nat) (c : ascii) (s : list ascii) : rest_at p (c :: s) -> rest_at (S p) s.
Proof. intros H. apply (rest_at_app p [c] s) in H. by rewrite Nat.add_comm in H. Qed.

Lemma char_rest (p i : nat) (s : list ascii) : rest_at p s -> at_ (p + i) = at_index s i.
Proof. intros [_ <-]. unfold char_at. by rewrite !at_index_lookup, lookup_drop. Qed.

Lemma char_rest0 (p : nat) (s : list ascii) : rest_at p s -> at_ p = at_index s 0.
Proof. intros H. rewrite <- (char_rest p 0 s H). by rewrite Nat.add_0_r. Qed.

Lemma rd_rest (p : nat) (s : list ascii) : rest_at p s -> rd T p = Some (at_index s 0).
Proof. intros H. unfold rd. rewrite decide_True by (by destruct H). by rewrite (char_rest0 p s). Qed.

Lemma scan_rest (f : ascii -> bool) (p : nat) (a b : list ascii) :
  rest_at p (a ++ b) -> Forall (fun c => f c = true) a -> f (at_index b 0) = false ->
  scan T f p = Some (p + length a)%nat.
Proof.
  intros [Hp Hd] Ha Hb. unfold scan. rewrite decide_True, Hd by done.
  rewrite span_stop; [done|done|]. destruct b as [|y b]; [done|]. by intros ? [= <-].
Qed.

Lemma slice_rest (p : nat) (a b : list ascii) : rest_at p (a ++ b) -> slice T p (p + length a) = a.
Proof.
  intros [_ Hd]. unfold slice. rewrite Hd. replace (p + length a - p)%nat with (length a) by lia.
  by rewrite take_app_length.
Qed.

(** ** Operators *)

(** The C operators the lexer knows by their spellings. *)
Definition operator_table : list (string * TokenType) :=
  [("=", TOKEN_ASSIGN); ("==", TOKEN_EQUAL); ("+", TOKEN_PLUS); ("++", TOKEN_INCREMENT);
   ("+=", TOKEN_PLUS_ASSIGN); ("-", TOKEN_MINUS); ("--", TOKEN_DECREMENT);
   ("-=", TOKEN_MINUS_ASSIGN); ("->", TOKEN_ARROW); ("*", TOKEN_ASTERISK);
   ("*=", TOKEN_MULT_ASSIGN); ("%", TOKEN_MODULO); ("%=", TOKEN_MOD_ASSIGN); ("<", TOKEN_LESS);
   ("<<", TOKEN_LEFT_SHIFT); ("<<=", TOKEN_LEFT_SHIFT_ASSIGN); ("<=", TOKEN_LESS_EQUAL);
   (">", TOKEN_GREATER); (">>", TOKEN_RIGHT_SHIFT); (">>=", TOKEN_RIGHT_SHIFT_ASSIGN);
   (">=", TOKEN_GREATER_EQUAL); ("!", TOKEN_LOGICAL_NOT); ("!=", TOKEN_NOT_EQUAL);
   ("&", TOKEN_BITWISE_AND); ("&&", TOKEN_LOGICAL_AND); ("&=", TOKEN_BITWISE_AND_ASSIGN);
   ("|", TOKEN_BITWISE_OR); ("||", TOKEN_LOGICAL_OR); ("|=", TOKEN_BITWISE_OR_ASSIGN);
   ("^", TOKEN_BITWISE_XOR); ("^=", TOKEN_BITWISE_XOR_ASSIGN); ("~", TOKEN_BITWISE_NOT)]%string.

(** The text [s] starts with the spelling. *)
Fixpoint starts_with (spelling s : list ascii) : bool :=
  match spelling with
  | [] => true
  | c :: spelling' => (at_index s 0 =c c) && starts_with spelling' (tail s)
  end.

Definition spelled (s : list ascii) (row : string * TokenType) : bool :=
  starts_with (list_ascii_of_string row.1) s.

(** [row] is the longest spelling [s] starts with. *)
Definition longest (s : list ascii) (row : string * TokenType) : bool :=
  spelled s row && existsb (fun r => String.eqb r.1 row.1 && tt_eqb r.2 row.2) operator_table &&
  forallb (fun r => implb (spelled s r) (String.length r.1 <=? String.length row.1)%nat) operator_table.

Lemma at_tail (s : list ascii) (k : nat) : at_index (tail s) k = at_index s (S k).
Proof. by destruct s, k. Qed.

(** The choice [handleOperator] makes on the first three characters. *)
Definition operator_choice (c d e : ascii) : option (string * TokenType) :=
  match List.find (fun row : Operator => c =c row.1.1) operator_forms with
  | Some (_, (ty, v), forms) =>
      Some match List.find (fun form : Form => d =c form.1.1) forms with
           | Some (_, (ty, v), None) => (v, ty)
           | Some (_, (ty, v), Some (tyEq, vEq)) => if e =c "=" then (vEq, tyEq) else (v, ty)
           | None => (v, ty)
           end
  | None => None
  end.

Lemma operator_choice_longest (s : list ascii) (row : string * TokenType) :
  operator_choice (at_index s 0) (at_index s 1) (at_index s 2) = Some row -> longest s row = true.
Proof.
  unfold operator_choice. intros H.
  destruct (List.find _ operator_forms) as [[[c0 [ty v]] forms]|] eqn:Ef; [|done].
  apply find_some in Ef as [Hin Hc%ascii_eqb_eq]. simpl in Hc.
  unfold longest, spelled, operator_table. cbn [list_ascii_of_string starts_with fst snd forallb].
  rewrite !at_tail, Hc. revert H.
  remember (at_index s 1) as d eqn:Hd. remember (at_index s 2) as e eqn:He.
  simpl in Hin. repeat (destruct Hin as [[= <- <- <- <-]|Hin]; [|]); [..|done];
    cbn [List.find fst snd];
    repeat (let E := fresh "E" in
            match goal with |- context [if ?x =c ?y then _ else _] => destruct (x =c y) eqn:E end);
    intros [= <-]; cbn [fst snd list_ascii_of_string starts_with];
    rewrite ?at_tail, ?Hc, <- ?Hd, <- ?He; clear Hc Hd He;
    repeat match goal with E : (?x =c _) = true |- _ => apply ascii_eqb_eq in E; subst x end;
    repeat match goal with E : (_ =c _) = _ |- _ => rewrite ?E; revert E end; intros; reflexivity.
Qed.

Lemma operator_choice_Some (c d e : ascii) :
  existsb (Ascii.eqb c) ["="; "+"; "-"; "*"; "%"; "<"; ">"; "!"; "&"; "|"; "^"; "~"]%char = true ->
  is_Some (operator_choice c d e).
Proof.
  intros H. apply existsb_exists in H as (c0 & Hin & ->%Ascii.eqb_eq). simpl in Hin.
  unfold operator_choice. repeat (destruct Hin as [<-|Hin]; [by eexists|]). done.
Qed.

(** The forms are chosen by a character that is not the terminator. *)
Lemma form_char (row : Operator) (form : Form) (d : ascii) :
  row ∈ operator_forms -> form ∈ row.2 -> (d =c form.1.1) = true -> d <> NUL.
Proof.
  intros Hr Hf Hd ->. pose proof operator_forms_not_eof as Hall. rewrite Forall_forall in Hall.
  destruct (Hall row Hr) as [_ Hforms]. rewrite Forall_forall in Hforms.
  destruct (Hforms form Hf) as [[Ho _] _]. apply ascii_eqb_eq in Hd. congruence.
Qed.

(** Every spelling is as long as the characters it is chosen by. *)
Lemma row_length (row : Operator) : row ∈ operator_forms -> String.length row.1.2.2 = 1%nat.
Proof.
  intros H. assert (Forall (fun row : Operator => String.length row.1.2.2 = 1%nat) operator_forms) as Hall
    by (repeat constructor).
  rewrite Forall_forall in Hall. by apply Hall.
Qed.

Lemma form_lengths (row : Operator) (form : Form) :
  row ∈ operator_forms -> form ∈ row.2 ->
  form.1.1 <> NUL /\ String.length form.1.2.2 = 2%nat /\
  (forall q, form.2 = Some q -> String.length q.2 = 3%nat).
Proof.
  intros Hr Hf. assert (Forall (fun row : Operator => Forall (fun form : Form =>
    form.1.1 <> NUL /\ String.length form.1.2.2 = 2%nat /\
    (forall q, form.2 = Some q -> String.length q.2 = 3%nat)) row.2) operator_forms) as Hall
    by (repeat constructor; simpl; try done; by intros ? [= <-]).
  rewrite Forall_forall in Hall. specialize (Hall row Hr). rewrite Forall_forall in Hall. by apply Hall.
Qed.

Lemma nonnul_cons (s : list ascii) : at_index s 0 <> NUL -> exists c s', s = c :: s'.
Proof. destruct s as [|c s']; [done|]. intros _. by exists c, s'. Qed.

Definition operator_char (c : ascii) : bool :=
  existsb (Ascii.eqb c) ["="; "+"; "-"; "*"; "%"; "<"; ">"; "!"; "&"; "|"; "^"; "~"]%char.

(** C27: operators are read by longest match: on a text that starts with an operator
    character other than [/] the token is the longest spelling of the operator table the
    text starts with, and the cursor stands behind it. *)
Theorem operator_longest_match (next : Lexer -> option (Token * Lexer)) (lx : Lexer) (s : list ascii) :
  rest_at (lx_position lx) s -> operator_char (at_index s 0) = true ->
  exists row, longest s row = true /\
    let lx' := seek lx (lx_position lx + String.length row.1) in
    handleOperator T next lx = Some (make_token T lx' row.2 row.1 (lexer_mark lx), lx').
Proof.
  intros Hs Hop.
  destruct (operator_choice_Some (at_index s 0) (at_index s 1) (at_index s 2) Hop) as [row Hrow].
  exists row. split; [by apply operator_choice_longest|]. cbv zeta.
  destruct (nonnul_cons s) as (c & s1 & ->); [intros H; by rewrite H in Hop|].
  unfold handleOperator. rewrite (rd_rest _ _ Hs). cbn [mbind option_bind at_index nth] in *.
  destruct (c =c "/") eqn:Esl; [by apply ascii_eqb_eq in Esl as ->|].
  unfold operator_choice in Hrow.
  destruct (List.find _ operator_forms) as [[[c0 [ty v]] forms]|] eqn:Ef; [|done].
  apply find_some in Ef as [Hin%list_elem_of_In _].
  pose proof (rest_at_cons _ _ _ Hs) as Hs1. rewrite (rd_rest _ _ Hs1). cbn [mbind option_bind].
  change (nth 0 s1 NUL) with (at_index s1 0) in Hrow.
  assert (forall k v' ty', row = (v', ty') -> String.length v' = k ->
    token T (seek lx (lx_position lx + k)) ty' v' (lexer_mark lx) =
    Some (make_token T (seek lx (lx_position lx + String.length row.1)) row.2 row.1 (lexer_mark lx),
          seek lx (lx_position lx + String.length row.1))) as Htok by (by intros k v' ty' -> <-).
  destruct (List.find _ forms) as [[[d [ty1 v1]] o]|] eqn:Eform.
  - apply find_some in Eform as [Hin1%list_elem_of_In Hd]. pose proof (form_char _ _ _ Hin Hin1 Hd) as Hnul.
    destruct (nonnul_cons s1 Hnul) as (d' & s2 & ->). pose proof (rest_at_cons _ _ _ Hs1) as Hs2.
    pose proof (form_lengths _ _ Hin Hin1) as (_ & Hl1 & Hl2). simpl in Hl1, Hl2.
    destruct o as [[tyEq vEq]|].
    + rewrite (rd_rest _ _ Hs2). cbn [mbind option_bind].
      change (nth 1 (d' :: s2) NUL) with (at_index s2 0) in Hrow.
      destruct (at_index s2 0 =c "="); simplify_eq.
      * apply Htok; [done|]. by apply (Hl2 (tyEq, vEq)).
      * replace (S (S (lx_position lx))) with (lx_position lx + 2)%nat by lia. by apply Htok.
    + simplify_eq. replace (S (S (lx_position lx))) with (lx_position lx + 2)%nat by lia. by apply Htok.
  - simplify_eq. replace (S (lx_position lx)) with (lx_position lx + 1)%nat by lia. apply Htok; [done|].
    by apply (row_length _ Hin).
Qed.

End Spec.

Lemma operator_longest_match_witness :
  rest_at (sample_text "<<=2") 0 (list_ascii_of_string "<<=2") /\
  exists row, longest (list_ascii_of_string "<<=2") row = true /\
    let lx' := seek start_lexer (0 + String.length row.1) in
    handleOperator (sample_text "<<=2") (fun _ => None) start_lexer
    = Some (make_token (sample_text "<<=2") lx' row.2 row.1 (lexer_mark start_lexer), lx').
Proof.
  split; [split; [vm_compute; lia|done]|].
  apply (operator_longest_match (sample_text "<<=2") (fun _ => None) start_lexer (list_ascii_of_string "<<=2"));
    [split; [vm_compute; lia|done]|done].
Defined.

(** ** Observed divergences, evaluated. *)

(** A null directive takes the directive name from the next line: the declaration's first
    word is read as the directive's name. *)
Example null_directive_swallows_line :
  lex_summary ("#" ++ String NEWLINE "int x;")%string
  = Some ([(TOKEN_PREPROCESSOR_OTHER, "int"); (TOKEN_IDENTIFIER, "x"); (TOKEN_SEMICOLON, ";");
           (TOKEN_EOF, "EOF")]%string, 0, []).
Proof. by vm_compute. Qed.

(** A comment in front of a directive makes it a plain [#]. *)
Example comment_hides_directive :
  lex_summary "/* c */ #define X"
  = Some ([(TOKEN_HASH, "#"); (TOKEN_IDENTIFIER, "define"); (TOKEN_IDENTIFIER, "X");
           (TOKEN_EOF, "EOF")]%string, 0, []).
Proof. by vm_compute. Qed.

(** A prefixed string literal that is not terminated frees a string constant. *)
Example unterminated_wide_string_frees_constant :
  lx_undefined <$> (snd <$> lex (list_ascii_of_string ("L" ++ String DQUOTE "abc")%string) None)
  = Some [FreeOfConstant].
Proof. by vm_compute. Qed.

(** A [\x] escape of nine digits overflows [int]. *)
Example long_hex_escape_overflows :
  lx_undefined <$> (snd <$> lex (list_ascii_of_string "'\x123456789'") None)
  = Some [IntOverflow].
Proof. by vm_compute. Qed.
