(* ===== verification/LexerNames.v ===== *)
(** * Identifiers and keywords: one token with the spelling in UTF-8.

    A name is a list of [NameChar]s: letters, digits and underscores, and the extended
    characters the lexer supports, each written in UTF-8 or as a universal character name.
    [name_text] is how it stands in the source, [name_spelling] what it spells. *)
From S2P Require Import Prelude CType LexerSource LexerChars Tokens Lexer LexerSafety LexerSpec.

(** An extended character as its UTF-8 bytes, or by four or eight hexadecimal digits. *)
Inductive Writing : Type := Itself | ByName (long : bool) (digits : list ascii).
Inductive NameChar : Type := Basic (c : ascii) | Extended (cp : Z) (how : Writing).

Definition name_char_ok (n : NameChar) : Prop :=
  match n with
  | Basic c => is_ident_char c = true
  | Extended cp how =>
      lexer_ucn_is_supported_identifier_character cp = true /\
      match how with
      | Itself => True
      | ByName long ds =>
          length ds = (if long then 8 else 4)%nat /\ Forall (fun c => is_xdigit c = true) ds /\ digits_value 16 ds = cp
      end
  end.

Definition char_text (n : NameChar) : list ascii :=
  match n with
  | Basic c => [c]
  | Extended cp Itself => utf8 cp
  | Extended _ (ByName long ds) => BACKSLASH :: (if long then "U" else "u")%char :: ds
  end.

Definition char_spelling (n : NameChar) : list ascii :=
  match n with Basic c => [c] | Extended cp _ => utf8 cp end.

Definition name_text (ns : list NameChar) : list ascii := ns ≫= char_text.
Definition name_spelling (ns : list NameChar) : list ascii := ns ≫= char_spelling.

(** What may follow a name: nothing that would go on with it. *)
Definition stops_name (b : list ascii) : Prop :=
  is_ident_char (at_index b 0) = false /\ lexer_identifier_ucn_length b = 0%nat /\ lexer_identifier_utf8_length b = 0%nat.

(** ** Extended characters *)

Lemma supported_range (cp : Z) :
  lexer_ucn_is_supported_identifier_character cp = true -> 0x370 <= cp <= 0x3FF.
Proof. unfold lexer_ucn_is_supported_identifier_character, between. lia. Qed.

Lemma supported_scalar (cp : Z) :
  lexer_ucn_is_supported_identifier_character cp = true -> scalar_value cp /\ 0x80 <= cp.
Proof. intros H%supported_range. unfold scalar_value. lia. Qed.

Lemma utf8_two (cp : Z) :
  0x370 <= cp <= 0x3FF -> exists b1 b2, utf8 cp = [b1; b2] /\ 192 <= chr b1 < 256 /\ 128 <= chr b2 < 192.
Proof.
  intros Hcp. unfold utf8. destruct (Z.ltb_spec cp 0x80); [lia|]. destruct (Z.ltb_spec cp 0x800); [|lia].
  do 2 eexists. split; [done|]. rewrite !chr_byte. Z.to_euclidean_division_equations; lia.
Qed.

Lemma high_not_ident (c : ascii) : 128 <= chr c -> is_ident_char c = false /\ c <> BACKSLASH.
Proof.
  intros Hc. split.
  - unfold is_ident_char. ctype. destruct (Ascii.eqb_spec c "_"); [subst; by vm_compute in Hc|].
    destruct ((65 <=? chr c) && (chr c <=? 90)) eqn:E1; [lia|]. destruct ((97 <=? chr c) && (chr c <=? 122)) eqn:E2; [lia|].
    destruct ((48 <=? chr c) && (chr c <=? 57)) eqn:E3; [lia|]. done.
  - intros ->. by vm_compute in Hc.
Qed.

Lemma utf8_length_itself (cp : Z) (s : list ascii) :
  lexer_ucn_is_supported_identifier_character cp = true -> lexer_identifier_utf8_length (utf8 cp ++ s) = length (utf8 cp).
Proof.
  intros Hs. destruct (supported_scalar cp Hs) as [Hsc Hn]. unfold lexer_identifier_utf8_length.
  rewrite <- (encode_is_utf8 cp) by (destruct Hsc; lia). by rewrite decode_encode_utf8, Hs.
Qed.

Lemma ucn_length_other (c : ascii) (s : list ascii) : c <> BACKSLASH -> lexer_identifier_ucn_length (c :: s) = 0%nat.
Proof. intros Hc. unfold lexer_identifier_ucn_length. by rewrite read_ucn_plain. Qed.

Lemma ucn_length_name (long : bool) (ds s : list ascii) :
  piece_ok (Ucn long ds) -> lexer_ucn_is_supported_identifier_character (digits_value 16 ds) = true ->
  lexer_identifier_ucn_length (piece_text (Ucn long ds) ++ s) = length (piece_text (Ucn long ds)).
Proof.
  intros Hok Hs. unfold lexer_identifier_ucn_length. rewrite (read_ucn_name long ds s Hok), Hs.
  apply supported_range in Hs. unfold between.
  destruct ((0x10FFFF <? _) || _ || _) eqn:E; [lia|]. simpl. lia.
Qed.

(** ** The token *)

(** The pieces the normalisation works on. *)
Definition pieces (n : NameChar) : list Piece :=
  match n with
  | Basic c => [Plain c]
  | Extended cp Itself => Plain <$> utf8 cp
  | Extended _ (ByName long ds) => [Ucn long ds]
  end.

Lemma plain_text (l : list ascii) : (Plain <$> l) ≫= piece_text = l /\ (Plain <$> l) ≫= piece_bytes = l.
Proof. induction l as [|c l [IH1 IH2]]; [done|]. cbn. by rewrite IH1, IH2. Qed.

Lemma pieces_spec (n : NameChar) :
  name_char_ok n ->
  Forall piece_ok (pieces n) /\ pieces n ≫= piece_text = char_text n /\ pieces n ≫= piece_bytes = char_spelling n.
Proof.
  destruct n as [c|cp [|long ds]]; cbn -[utf8].
  - intros Hc. split_and!; [|done..]. constructor; [|constructor]. simpl. intros ->. by vm_compute in Hc.
  - intros [Hs _]. destruct (plain_text (utf8 cp)) as [H1 H2]. split_and!; [|done..].
    destruct (utf8_two cp (supported_range cp Hs)) as (b1 & b2 & -> & Hb1 & Hb2).
    repeat constructor; simpl; apply high_not_ident; lia.
  - intros (Hs & Hlen & Hds & Hcp). split_and!; [by constructor|by rewrite app_nil_r|].
    rewrite Hcp, app_nil_r. apply supported_range in Hs. apply encode_is_utf8. lia.
Qed.

Lemma name_normal (ns : list NameChar) :
  Forall name_char_ok ns -> lexer_normalize_identifier_spelling (name_text ns) = name_spelling ns.
Proof.
  intros Hns. assert (Forall piece_ok (ns ≫= pieces) /\ (ns ≫= pieces) ≫= piece_text = name_text ns /\
    (ns ≫= pieces) ≫= piece_bytes = name_spelling ns) as (Hok & <- & <-).
  { induction Hns as [|n ns Hn _ (IH1 & IH2 & IH3)]; [done|]. destruct (pieces_spec n Hn) as (H1 & H2 & H3).
    unfold name_text, name_spelling in *. cbn [mbind list_bind]. rewrite !bind_app, H2, H3.
    split_and!; [by apply Forall_app|by f_equal|by f_equal]. }
  by apply normalize_pieces.
Qed.

Section Names.
Context (T : LexerText).

Lemma from_rest (p : nat) (s : list ascii) : rest_at T p s -> from T p = s.
Proof. by intros [_ H]. Qed.

Lemma char_text_nonempty (n : NameChar) : name_char_ok n -> (0 < length (char_text n))%nat.
Proof.
  destruct n as [c|cp [|long ds]]; cbn -[utf8]; [lia| |lia]. intros [Hs%supported_range _].
  destruct (utf8_two cp Hs) as (? & ? & -> & _). simpl. lia.
Qed.

Lemma name_end (ns : list NameChar) (b : list ascii) (fuel p : nat) :
  Forall name_char_ok ns -> stops_name b -> rest_at T p (name_text ns ++ b) -> (length (name_text ns) < fuel)%nat ->
  identifier_end T fuel p = Some (p + length (name_text ns))%nat.
Proof.
  intros Hns (Hb1 & Hb2 & Hb3). revert fuel p. induction Hns as [|n ns Hn _ IH]; intros fuel p Hr Hf;
    (destruct fuel as [|fuel]; [lia|]); cbn [identifier_end]; rewrite (rd_rest T p _ Hr); cbn [mbind option_bind];
    rewrite (from_rest p _ Hr).
  - cbn [name_text mbind list_bind app length] in *. rewrite Hb1, Hb2, Hb3. simpl. by rewrite Nat.add_0_r.
  - change (name_text (n :: ns)) with (char_text n ++ name_text ns) in *. rewrite <- app_assoc in *.
    pose proof (rest_at_app T p _ _ Hr) as Hr'. rewrite length_app in *. pose proof (char_text_nonempty n Hn) as Hpos.
    assert (identifier_end T fuel (p + length (char_text n)) =
      Some (p + (length (char_text n) + length (name_text ns)))%nat) as Hnext.
    { rewrite IH; [f_equal; lia|done|lia]. }
    destruct n as [c|cp [|long ds]].
    + cbn [char_text app at_index nth name_char_ok length] in *. rewrite Hn. by rewrite Nat.add_1_r in Hnext.
    + destruct Hn as [Hs _]. cbn [char_text] in *. rewrite (utf8_length_itself cp _ Hs).
      destruct (utf8_two cp (supported_range cp Hs)) as (b1 & b2 & E & H1 & _). rewrite E in *.
      destruct (high_not_ident b1) as [Hi Hbs]; [lia|]. cbn [app at_index nth]. rewrite Hi, ucn_length_other by done.
      rewrite decide_False by lia. rewrite decide_True by (simpl; lia). done.
    + destruct Hn as (Hs & Hlen & Hds & <-). cbn [char_text] in *.
      change (BACKSLASH :: (if long then "U" else "u")%char :: ds) with (piece_text (Ucn long ds)) in *.
      rewrite (ucn_length_name long ds _ (conj Hlen Hds) Hs). rewrite decide_True by lia. exact Hnext.
Qed.

Lemma identifier_token (lx : Lexer) (ns : list NameChar) (b : list ascii) :
  Forall name_char_ok ns -> stops_name b -> rest_at T (lx_position lx) (name_text ns ++ b) ->
  let lx' := seek lx (lx_position lx + length (name_text ns)) in
  let text := string_of_list_ascii (name_spelling ns) in
  handleIdentifierOrKeyword T lx = Some (make_token T lx' (identifier_type text) text (lexer_mark lx), lx').
Proof.
  intros Hns Hb Hr lx' text. unfold handleIdentifierOrKeyword.
  rewrite (name_end ns b) by (try done; destruct Hr as [Hp Hd]; apply (f_equal length) in Hd;
    rewrite length_drop, length_app in Hd; unfold text_length; lia).
  cbn [mbind option_bind]. rewrite (slice_rest T _ _ _ Hr), name_normal by done. done.
Qed.

(** A name does not start with a digit. *)
Definition starts_name (n : NameChar) : Prop := match n with Basic c => is_digit c = false | Extended _ _ => True end.

(** How the first characters of a name look to the lexer. *)
Lemma name_start (p : nat) (n : NameChar) (s : list ascii) :
  name_char_ok n -> starts_name n -> rest_at T p (char_text n ++ s) ->
  is_space (char_at T p) = false /\ char_at T p <> NUL /\
  if char_at T p =c BACKSLASH
  then (char_at T (S p) =c "u") || (char_at T (S p) =c "U") = true /\ (0 < lexer_identifier_ucn_length (from T p))%nat
  else is_alpha (char_at T p) || (char_at T p =c "_") ||
       bool_decide (0 < lexer_identifier_utf8_length (from T p))%nat = true.
Proof.
  intros Hn Hs Hr. rewrite (from_rest p _ Hr), (char_rest0 T p _ Hr).
  rewrite <- (Nat.add_1_r p), (char_rest T p 1 _ Hr).
  destruct n as [c|cp [|long ds]].
  - simpl in *. unfold at_index. simpl. unfold is_ident_char, is_alnum in Hn. rewrite Hs, orb_false_r in Hn.
    destruct (Ascii.eqb_spec c BACKSLASH) as [->|Hc]; [by vm_compute in Hn|]. rewrite Hn. split_and!; [|by intros ->|done].
    apply orb_true_iff in Hn as [Hn|Hn%ascii_eqb_eq]; [|by subst]. clear -Hn. ctype. lia.
  - destruct Hn as [Hsup _]. cbn [char_text]. rewrite (utf8_length_itself cp s Hsup).
    destruct (utf8_two cp (supported_range cp Hsup)) as (b1 & b2 & -> & H1 & _). unfold at_index. cbn [app nth].
    destruct (high_not_ident b1) as [_ Hbs]; [lia|]. apply Ascii.eqb_neq in Hbs. rewrite Hbs.
    rewrite bool_decide_true by (simpl; lia). rewrite orb_true_r. destruct H1 as [H1 _].
    split_and!; [|intros ->; by vm_compute in H1|done]. clear -H1. ctype. lia.
  - destruct Hn as (Hsup & Hlen & Hds & <-). cbn [char_text].
    pose proof (ucn_length_name long ds s (conj Hlen Hds) Hsup) as Hl. cbn [piece_text] in Hl. rewrite Hl.
    unfold at_index. cbn [app nth]. split_and!; [done|done|]. change (BACKSLASH =c BACKSLASH) with true. cbn iota.
    split; [by destruct long|simpl; lia].
Qed.

(** C24: an identifier or keyword is one token.  At a name that does not start with a digit,
    is not continued by what follows it and is no prefix of a string or character literal, the
    lexer returns a token with the name's spelling, in UTF-8 however its extended characters are
    written, whose type is the keyword of that spelling or identifier, and goes on behind it. *)
Theorem identifier_read (lx : Lexer) (n : NameChar) (ns : list NameChar) (b : list ascii) :
  Forall name_char_ok (n :: ns) -> starts_name n -> stops_name b ->
  rest_at T (lx_position lx) (name_text (n :: ns) ++ b) -> literal_prefix T (lx_position lx) = 0%nat ->
  let lx' := seek lx (lx_position lx + length (name_text (n :: ns))) in
  let text := string_of_list_ascii (name_spelling (n :: ns)) in
  getNextToken T lx = Some (make_token T lx' (identifier_type text) text (lexer_mark lx), lx').
Proof.
  intros Hns Hs Hb Hr Hpre lx' text. etransitivity; [|exact (identifier_token lx (n :: ns) b Hns Hb Hr)].
  assert (rest_at T (lx_position lx) (char_text n ++ name_text ns ++ b)) as Hr'.
  { change (name_text (n :: ns)) with (char_text n ++ name_text ns) in Hr. by rewrite <- app_assoc in Hr. }
  apply Forall_cons in Hns as [Hn _]. destruct (name_start _ n _ Hn Hs Hr') as (Hsp & Hnul & Hfirst). clear Hr Hr'.
  set (p := lx_position lx) in *. assert (p < text_length T)%nat as Hlt by (by apply (at_inside T)).
  unfold getNextToken. cbn [next_token]. unfold skipWhitespace. cbn [skip_whitespace]. fold p. rewrite decide_True by done.
  assert ((char_at T p =c BACKSLASH) && (char_at T (S p) =c NEWLINE) = false /\
    (char_at T p =c BACKSLASH) && (char_at T (S p) =c RETURN) && (char_at T (S (S p)) =c NEWLINE) = false) as [-> ->].
  { destruct (char_at T p =c BACKSLASH); [|done]. destruct Hfirst as [[H%ascii_eqb_eq|H%ascii_eqb_eq]%orb_true_iff _]; by rewrite H. }
  rewrite Hsp. cbn [negb mbind option_bind]. unfold isEOF, at_eof. fold p. rewrite bool_decide_false by lia.
  apply Ascii.eqb_neq in Hnul. rewrite Hnul. cbn [orb]. unfold dispatch. fold p. unfold literal_prefix in Hpre. fold p in Hpre.
  destruct (_ && _ && _); [done|]. destruct (_ && (char_at T (S p) =c DQUOTE)); [done|].
  destruct (_ && (char_at T (S p) =c QUOTE)); [done|].
  destruct (char_at T p =c BACKSLASH); cbn [andb].
  - destruct Hfirst as [-> Hucn]. by rewrite decide_True.
  - by rewrite Hfirst.
Qed.
End Names.

(** ** At concrete texts *)

(** [x\u03b1 +]: the second character by its name. *)
Definition sample_name : list NameChar := [Basic "x"; Extended 0x3b1 (ByName false (list_ascii_of_string "03b1"))]%char.
Definition name_sample : LexerText :=
  let text := name_text sample_name ++ list_ascii_of_string " +" in mkLexerText text None text [] [] false.

Lemma identifier_read_witness :
  getNextToken name_sample start_lexer =
    Some (make_token name_sample (seek start_lexer 7) TOKEN_IDENTIFIER
            (string_of_list_ascii ("x"%char :: utf8 0x3b1)) (lexer_mark start_lexer), seek start_lexer 7).
Proof.
  refine (identifier_read name_sample start_lexer (Basic "x") [Extended 0x3b1 (ByName false (list_ascii_of_string "03b1"))]
    (list_ascii_of_string " +") _ eq_refl _ _ eq_refl).
  - repeat (apply Forall_cons; split); [reflexivity| |apply Forall_nil; exact I].
    split; [reflexivity|]. split; [reflexivity|]. split; [|reflexivity]. repeat (apply Forall_cons; split; [reflexivity|]).
    apply Forall_nil; exact I.
  - repeat split.
  - split; [apply Nat.le_0_l|reflexivity].
Defined.
