(* ===== verification/LexerLiterals.v ===== *)
(** * The literals of the lexer: numbers of the C grammar and character constants.

    A [Numeral] is a number written by parts; [numeral_ok] are the rules the lexer holds it
    to.  [numeral_text] is its text and [numeral_type] the token it becomes.  A character
    constant is a list of [CharItem]s with their values. *)
From S2P Require Import Prelude CType LexerSource LexerChars Tokens Lexer LexerSafety LexerSpec.

(** ** Numbers *)

(** The radix with the letter that marks it. *)
Inductive Radix : Set := Decimal | Hexadecimal (mark : ascii) | Binary (mark : ascii).

(** An exponent: its letter, its sign ([[]] or one character), its digits. *)
Record Exponent := mkExponent { ex_mark : ascii; ex_sign : list ascii; ex_digits : list ascii }.

Record Numeral := mkNumeral {
  nm_radix : Radix;
  nm_digits : list ascii;
  nm_fraction : option (list ascii);
  nm_exponent : option Exponent;
  nm_suffix : list ascii
}.

Definition radix_text (r : Radix) : list ascii :=
  match r with Decimal => [] | Hexadecimal m => ["0"%char; m] | Binary m => ["0"%char; m] end.

Definition fraction_text (f : option (list ascii)) : list ascii :=
  match f with None => [] | Some ds => "."%char :: ds end.

Definition exponent_text (e : option Exponent) : list ascii :=
  match e with None => [] | Some e => ex_mark e :: ex_sign e ++ ex_digits e end.

Definition numeral_text (n : Numeral) : list ascii :=
  radix_text (nm_radix n) ++ nm_digits n ++ fraction_text (nm_fraction n) ++
  exponent_text (nm_exponent n) ++ nm_suffix n.

Definition is_hex_radix (r : Radix) : bool := match r with Hexadecimal _ => true | _ => false end.
Definition is_bin_radix (r : Radix) : bool := match r with Binary _ => true | _ => false end.

Definition radix_digit (r : Radix) : ascii -> bool :=
  match r with Decimal => is_digit | Hexadecimal _ => is_xdigit | Binary _ => is_binary_digit end.

Definition is_u (c : ascii) : bool := (c =c "u") || (c =c "U").
Definition is_l (c : ascii) : bool := (c =c "l") || (c =c "L").
Definition is_f (c : ascii) : bool := (c =c "f") || (c =c "F").
Definition is_fij (c : ascii) : bool :=
  (c =c "f") || (c =c "F") || (c =c "i") || (c =c "I") || (c =c "j") || (c =c "J").

Definition count_of (f : ascii -> bool) (s : list ascii) : nat := length (List.filter f s).

Definition numeral_is_float (n : Numeral) : bool :=
  bool_decide (is_Some (nm_fraction n)) || bool_decide (is_Some (nm_exponent n)) ||
  existsb is_fij (nm_suffix n).

Definition numeral_type (n : Numeral) : TokenType :=
  if numeral_is_float n then TOKEN_FLOAT_LITERAL else TOKEN_NUMBER.

(** At most one [u], at most two [l]s, any of the floating and imaginary letters. *)
Definition suffix_ok (u l : nat) (s : list ascii) : bool :=
  forallb (fun c => is_u c || is_l c || is_fij c) s &&
  bool_decide (count_of is_u s <= u)%nat && bool_decide (count_of is_l s <= l)%nat.

Definition exponent_ok (hex : bool) (e : Exponent) : bool :=
  is_exponent_mark hex (ex_mark e) && forallb is_digit (ex_digits e) &&
  negb (bool_decide (ex_digits e = [])) &&
  match ex_sign e with [] => true | [c] => (c =c "+") || (c =c "-") | _ => false end.

Definition radix_ok (n : Numeral) : bool :=
  let digits := default [] (nm_fraction n) in
  match nm_radix n with
  | Decimal =>
      negb (bool_decide (nm_digits n = []) && bool_decide (digits = [])) &&
      (* a leading zero makes an integer octal *)
      (numeral_is_float n || negb (at_index (nm_digits n) 0 =c "0") ||
       negb (existsb is_89 (nm_digits n)))
  | Hexadecimal m =>
      is_x m && negb (bool_decide (nm_digits n = []) && bool_decide (digits = [])) &&
      (bool_decide (nm_fraction n = None) || bool_decide (is_Some (nm_exponent n))) &&
      (* without an exponent an [f] would be a digit *)
      (bool_decide (is_Some (nm_exponent n)) || negb (is_f (at_index (nm_suffix n) 0)))
  | Binary m => is_b m && negb (bool_decide (nm_digits n = [])) && negb (numeral_is_float n)
  end.

Definition numeral_ok (n : Numeral) : bool :=
  radix_ok n && forallb (radix_digit (nm_radix n)) (nm_digits n) &&
  forallb (if is_hex_radix (nm_radix n) then is_xdigit else is_digit) (default [] (nm_fraction n)) &&
  match nm_exponent n with None => true | Some e => exponent_ok (is_hex_radix (nm_radix n)) e end &&
  suffix_ok 1 2 (nm_suffix n).

(** What may follow a number for the number to end there. *)
Definition stops_number (c : ascii) : bool := negb (is_ident_char c) && negb (c =c ".").

Definition suffix_char (c : ascii) : bool := is_u c || is_l c || is_fij c.

(** A suffix character or a character that stops the number is none of the characters the
    scans before it look for. *)
Lemma suffix_or_stop (c : ascii) :
  (suffix_char c || stops_number c) = true ->
  is_digit c = false /\ (c =c ".") = false /\ is_x c = false /\ is_b c = false /\
  (forall hex, is_exponent_mark hex c = false) /\ is_binary_digit c = false /\
  (is_f c = false -> is_xdigit c = false).
Proof. destruct c as [[] [] [] [] [] [] [] []]; try done; intros _; split_and!; try done; by intros []. Qed.

Lemma stops_alpha (c : ascii) :
  stops_number c = true -> is_alpha c = false /\ (c =c "_") = false /\ (c =c "p") = false /\
  (c =c "P") = false /\ is_u c = false /\ is_l c = false /\ is_fij c = false.
Proof. destruct c as [[] [] [] [] [] [] [] []]; try done; by repeat split. Qed.

Lemma suffix_head (u l : nat) (s b : list ascii) :
  suffix_ok u l s = true -> stops_number (at_index b 0) = true ->
  (suffix_char (at_index (s ++ b) 0) || stops_number (at_index (s ++ b) 0)) = true.
Proof.
  destruct s as [|c s]; simpl; [by intros _ ->; rewrite orb_true_r|].
  intros [[[Hc _]%andb_true_iff _]%andb_true_iff _]%andb_true_iff _. unfold suffix_char, at_index. simpl. by rewrite Hc.
Qed.

Lemma mark_not_digit (hex : bool) (c : ascii) :
  is_exponent_mark hex c = true ->
  is_digit c = false /\ (c =c ".") = false /\ is_x c = false /\ is_b c = false /\
  (hex = true -> is_xdigit c = false).
Proof. destruct hex, c as [[] [] [] [] [] [] [] []]; try done; intros _; by split_and!. Qed.

Section Numbers.
Context (T : LexerText).

(** The suffix is read to its end. *)
Lemma number_suffix_read (s b : list ascii) (fuel p : nat) (seenU isFloat : bool) (lCount : nat) :
  rest_at T p (s ++ b) -> stops_number (at_index b 0) = true -> (length s < fuel)%nat ->
  suffix_ok (if seenU then 0 else 1) (2 - lCount) s = true -> (lCount <= 2)%nat ->
  number_suffix T fuel p seenU lCount isFloat = Some (p + length s, isFloat || existsb is_fij s)%nat.
Proof.
  revert fuel p seenU isFloat lCount. induction s as [|c s IH]; intros [|fuel] p seenU isFloat lCount Hr Hb Hf Hok Hl;
    try (simpl in Hf; lia).
  - simpl. rewrite (rd_rest _ _ _ Hr). cbn [mbind option_bind].
    destruct (stops_alpha _ Hb) as (_ & _ & _ & _ & Hu & Hll & Hff). unfold is_u, is_l, is_fij in *. simpl in *.
    rewrite Hu, Hll, Hff. by rewrite Nat.add_0_r, orb_false_r.
  - simpl. rewrite (rd_rest _ _ _ Hr). cbn [mbind option_bind at_index nth app].
    pose proof (rest_at_cons _ _ _ _ Hr) as Hr'. simpl in Hf.
    unfold suffix_ok, count_of in *. cbn [forallb List.filter] in Hok.
    rewrite !andb_true_iff, !bool_decide_eq_true in Hok. destruct Hok as [[[Hc Hs] Hcu] Hcl].
    change ((c =c "u") || (c =c "U")) with (is_u c). change ((c =c "l") || (c =c "L")) with (is_l c).
    change ((c =c "f") || (c =c "F") || (c =c "i") || (c =c "I") || (c =c "j") || (c =c "J")) with (is_fij c).
    assert (forall x, existsb is_fij s || x = x || existsb is_fij s) as Hcomm by (intros; apply orb_comm).
    rewrite <- Nat.add_succ_comm.
    destruct (is_u c) eqn:Eu; [|destruct (is_l c) eqn:El; [|destruct (is_fij c) eqn:Ef; [|done]]].
    + assert (is_fij c = false /\ is_l c = false) as [-> El] by (clear -Eu; destruct c as [[] [] [] [] [] [] [] []]; done).
      rewrite El in Hcl. destruct seenU; simpl in Hcu; [lia|].
      rewrite (IH fuel (S p) true isFloat lCount Hr' Hb); [done|lia| |done].
      rewrite Hs, !andb_true_l, !bool_decide_true; [done|lia|lia].
    + assert (is_fij c = false) as -> by (clear -El; destruct c as [[] [] [] [] [] [] [] []]; done).
      simpl in Hcl. rewrite decide_False by lia.
      rewrite (IH fuel (S p) seenU isFloat (S lCount) Hr' Hb); [done|lia| |lia].
      rewrite Hs, !andb_true_l. by rewrite !bool_decide_true by lia.
    + rewrite (IH fuel (S p) seenU true lCount Hr' Hb); [by rewrite orb_true_r|lia| |done].
      rewrite Hs, !andb_true_l. by rewrite !bool_decide_true by lia.
Qed.

Lemma digit_not_mark (c : ascii) : is_digit c = true -> is_x c = false /\ is_b c = false.
Proof. destruct c as [[] [] [] [] [] [] [] []]; try done; intros _; by split_and!. Qed.

(** A character that ends the digits of the radix. *)
Definition ends_digits (r : Radix) (c : ascii) : bool :=
  negb (is_digit c) && negb (is_x c) && negb (is_b c) && negb (radix_digit r c).

Definition octal_refused (ds : list ascii) : bool := (at_index ds 0 =c "0") && existsb is_89 ds.

Lemma decimal_prefix_read (ds R : list ascii) (p : nat) :
  rest_at T p (ds ++ R) -> forallb is_digit ds = true -> ends_digits Decimal (at_index R 0) = true ->
  number_prefix T p = Some (mkPrefix (p + length ds) false false (octal_refused ds) false 0).
Proof.
  intros Hr Hds HR. unfold ends_digits in HR. rewrite !andb_true_iff, !negb_true_iff in HR.
  destruct HR as [[[Hdig Hx] Hb] _]. unfold number_prefix, octal_refused.
  rewrite (rd_rest _ _ _ Hr). cbn [mbind option_bind].
  rewrite forallb_forall in Hds. setoid_rewrite <- list_elem_of_In in Hds. rewrite <- Forall_forall in Hds.
  rewrite (scan_rest T is_digit p ds R) by done. cbn [mbind option_bind].
  destruct ds as [|c ds].
  - simpl. destruct (at_index R 0 =c "0") eqn:E0; [|done].
    apply ascii_eqb_eq in E0. by rewrite E0 in Hdig.
  - cbn [app at_index nth]. destruct (c =c "0"); [|done].
    pose proof (rest_at_cons T p c (ds ++ R) Hr) as Hr1. rewrite (rd_rest _ _ _ Hr1). cbn [mbind option_bind].
    assert (is_x (at_index (ds ++ R) 0) = false /\ is_b (at_index (ds ++ R) 0) = false) as [-> ->].
    { destruct ds as [|d ds]; [done|]. inversion_clear Hds as [|?? _ Hd]. inversion_clear Hd. by apply digit_not_mark. }
    by rewrite (slice_rest T p (c :: ds) R Hr).
Qed.

Lemma marked_prefix_read (r : Radix) (ds R : list ascii) (p : nat) :
  rest_at T p (radix_text r ++ ds ++ R) -> forallb (radix_digit r) ds = true ->
  ends_digits r (at_index R 0) = true ->
  match r with Decimal => False | Hexadecimal m => is_x m = true | Binary m => is_b m = true end ->
  number_prefix T p = Some (mkPrefix (p + (2 + length ds)) (is_hex_radix r) (is_bin_radix r) false false (length ds)).
Proof.
  intros Hr Hds HR Hm. unfold ends_digits in HR. rewrite !andb_true_iff, !negb_true_iff in HR.
  destruct HR as [[[Hdig Hx] Hb] Hrad].
  rewrite forallb_forall in Hds. setoid_rewrite <- list_elem_of_In in Hds. rewrite <- Forall_forall in Hds.
  unfold number_prefix. destruct r as [|m|m]; [done| |];
    (rewrite (rd_rest _ _ _ Hr); cbn [mbind option_bind radix_text app at_index nth Ascii.eqb eqb];
     rewrite (rd_rest _ _ _ (rest_at_cons T p "0"%char (m :: ds ++ R) Hr)); cbn [mbind option_bind at_index nth]).
  - rewrite Hm. pose proof (rest_at_app T p ["0"%char; m] _ Hr) as Hr2. simpl in Hr2.
    rewrite (scan_rest T is_xdigit (p + 2) ds R) by done. cbn [mbind option_bind].
    do 2 f_equal; lia.
  - assert (is_x m = false) as -> by (clear -Hm; destruct m as [[] [] [] [] [] [] [] []]; done).
    rewrite Hm. pose proof (rest_at_app T p ["0"%char; m] _ Hr) as Hr2. simpl in Hr2.
    rewrite (scan_rest T is_binary_digit (p + 2) ds R) by done. cbn [mbind option_bind].
    pose proof (rest_at_app T _ _ _ Hr2) as Hr3.
    rewrite (scan_rest T is_digit _ [] R Hr3) by done. cbn [mbind option_bind length].
    rewrite Nat.add_0_r, bool_decide_false by lia. do 2 f_equal; lia.
Qed.

Lemma prefix_read (n : Numeral) (R : list ascii) (p : nat) :
  rest_at T p (radix_text (nm_radix n) ++ nm_digits n ++ R) ->
  forallb (radix_digit (nm_radix n)) (nm_digits n) = true -> radix_ok n = true ->
  ends_digits (nm_radix n) (at_index R 0) = true ->
  number_prefix T p =
    Some (mkPrefix (p + length (radix_text (nm_radix n) ++ nm_digits n)) (is_hex_radix (nm_radix n))
            (is_bin_radix (nm_radix n))
            match nm_radix n with Decimal => octal_refused (nm_digits n) | _ => false end false
            match nm_radix n with Decimal => 0 | _ => length (nm_digits n) end).
Proof.
  intros Hr Hds Hok HR. destruct n as [[|m|m] ds f e s]; simpl in *.
  - by apply (decimal_prefix_read ds R).
  - apply (marked_prefix_read (Hexadecimal m) ds R p); [done..|]. unfold radix_ok in Hok. simpl in Hok.
    rewrite !andb_true_iff in Hok. by destruct_and!.
  - apply (marked_prefix_read (Binary m) ds R p); [done..|]. unfold radix_ok in Hok. simpl in Hok.
    rewrite !andb_true_iff in Hok. by destruct_and!.
Qed.

Lemma fraction_read (hex : bool) (f : option (list ascii)) (R : list ascii) (p : nat) :
  rest_at T p (fraction_text f ++ R) ->
  forallb (if hex then is_xdigit else is_digit) (default [] f) = true ->
  (f = None -> (at_index R 0 =c ".") = false) ->
  (is_Some f -> (if hex then is_xdigit else is_digit) (at_index R 0) = false) ->
  number_fraction T hex p =
    Some (p + length (fraction_text f), bool_decide (is_Some f),
          if hex then length (default [] f) else 0)%nat.
Proof.
  intros Hr Hds Hdot HR. unfold number_fraction. rewrite (rd_rest _ _ _ Hr). cbn [mbind option_bind].
  destruct f as [ds|]; simpl in *.
  - cbn [at_index nth Ascii.eqb eqb]. pose proof (rest_at_cons _ _ _ _ Hr) as Hr'.
    rewrite forallb_forall in Hds. setoid_rewrite <- list_elem_of_In in Hds. rewrite <- Forall_forall in Hds.
    rewrite (scan_rest T (if hex then is_xdigit else is_digit) (S p) ds R Hr' Hds) by (apply HR; eauto).
    cbn [mbind option_bind].
    f_equal. f_equal; [f_equal; lia|destruct hex; lia].
  - rewrite Hdot by done. rewrite Nat.add_0_r. by destruct hex.
Qed.

Lemma exponent_read (hex : bool) (e : option Exponent) (R : list ascii) (p : nat) :
  rest_at T p (exponent_text e ++ R) ->
  match e with None => true | Some e => exponent_ok hex e end = true ->
  is_exponent_mark hex (at_index R 0) = false -> is_digit (at_index R 0) = false ->
  number_exponent T hex p = Some (inr (p + length (exponent_text e), bool_decide (is_Some e)))%nat.
Proof.
  intros Hr Hok HR Hd. unfold number_exponent. rewrite (rd_rest _ _ _ Hr). cbn [mbind option_bind].
  destruct e as [[m sg ds]|]; simpl in *.
  - unfold exponent_ok in Hok. simpl in Hok. rewrite !andb_true_iff, negb_true_iff, bool_decide_eq_false in Hok.
    destruct Hok as [[[Hm Hds] Hne] Hsg]. cbn [at_index nth]. rewrite Hm.
    pose proof (rest_at_cons _ _ _ _ Hr) as Hr'. rewrite (rd_rest _ _ _ Hr'). cbn [mbind option_bind].
    rewrite <- app_assoc in Hr'.
    assert ((if (at_index ((sg ++ ds) ++ R) 0 =c "+") || (at_index ((sg ++ ds) ++ R) 0 =c "-")
             then S (S p) else S p) = S p + length sg)%nat as ->.
    { destruct sg as [|c [|? ?]]; [|simpl; cbn [at_index nth]; rewrite Hsg; lia|done].
      destruct ds as [|d ds]; [done|]. cbn [app at_index nth]. simpl in Hds. apply andb_true_iff in Hds as [Hd' _].
      assert ((d =c "+") || (d =c "-") = false) as ->
        by (clear -Hd'; destruct d as [[] [] [] [] [] [] [] []]; done). simpl. lia. }
    pose proof (rest_at_app T _ _ _ Hr') as Hr2.
    rewrite forallb_forall in Hds. setoid_rewrite <- list_elem_of_In in Hds. rewrite <- Forall_forall in Hds.
    rewrite (scan_rest T is_digit _ ds R Hr2 Hds Hd). cbn [mbind option_bind].
    destruct ds as [|d ds]; [done|]. rewrite decide_False by (simpl; lia).
    do 3 f_equal. rewrite !length_app. simpl. lia.
  - rewrite HR. by rewrite Nat.add_0_r.
Qed.

Lemma numeral_ok_parts (n : Numeral) :
  numeral_ok n = true ->
  radix_ok n = true /\ forallb (radix_digit (nm_radix n)) (nm_digits n) = true /\
  forallb (if is_hex_radix (nm_radix n) then is_xdigit else is_digit) (default [] (nm_fraction n)) = true /\
  match nm_exponent n with None => true | Some e => exponent_ok (is_hex_radix (nm_radix n)) e end = true /\
  suffix_ok 1 2 (nm_suffix n) = true.
Proof. unfold numeral_ok. rewrite !andb_true_iff. intros. by destruct_and!. Qed.

(** What the scan of the digits meets behind them. *)
Definition quiet (r : Radix) (c : ascii) : Prop :=
  is_digit c = false /\ (c =c ".") = false /\ is_x c = false /\ is_b c = false /\
  radix_digit r c = false /\ (is_hex_radix r = true -> is_xdigit c = false).

Lemma head_exponent (n : Numeral) (b : list ascii) :
  numeral_ok n = true -> stops_number (at_index b 0) = true ->
  quiet (nm_radix n) (at_index (exponent_text (nm_exponent n) ++ nm_suffix n ++ b) 0).
Proof.
  intros (Hrad & _ & _ & Hex & Hsuf)%numeral_ok_parts Hb. unfold quiet.
  destruct (nm_exponent n) as [e|] eqn:Ee.
  - simpl. unfold exponent_ok in Hex. rewrite !andb_true_iff in Hex. destruct_and!.
    destruct (mark_not_digit (is_hex_radix (nm_radix n)) (ex_mark e)) as (K1 & K2 & K3 & K4 & K5); [done|].
    unfold at_index. simpl. split_and!; try done. destruct (nm_radix n); simpl; auto.
    clear -K1. unfold is_binary_digit. by destruct (ex_mark e) as [[] [] [] [] [] [] [] []].
  - destruct (suffix_or_stop _ (suffix_head 1 2 _ b Hsuf Hb)) as (H1 & H2 & H3 & H4 & _ & H5 & H6).
    cbn [exponent_text app].
    assert (is_hex_radix (nm_radix n) = true -> is_f (at_index (nm_suffix n ++ b) 0) = false) as Hf.
    { intros Hhex. unfold radix_ok in Hrad. destruct (nm_radix n); [done| |done]. rewrite Ee, !andb_true_iff in Hrad.
      destruct Hrad as [_ Hrad]. rewrite bool_decide_false in Hrad by (by intros [? ?]).
      destruct (nm_suffix n) as [|c s]; [|by apply negb_true_iff in Hrad].
      destruct (stops_alpha _ Hb) as (_ & _ & _ & _ & _ & _ & Hfij). simpl. clear -Hfij.
      unfold is_fij, is_f in *. by destruct (at_index b 0 =c "f"), (at_index b 0 =c "F"). }
    split_and!; try done; [|auto]. destruct (nm_radix n); simpl; auto.
Qed.

Lemma head_fraction (n : Numeral) (b : list ascii) :
  numeral_ok n = true -> stops_number (at_index b 0) = true ->
  ends_digits (nm_radix n)
    (at_index (fraction_text (nm_fraction n) ++ exponent_text (nm_exponent n) ++ nm_suffix n ++ b) 0) = true.
Proof.
  intros Hok Hb. pose proof (head_exponent n b Hok Hb) as (H1 & _ & H3 & H4 & H5 & _).
  destruct (nm_fraction n) as [f|]; simpl; [by destruct (nm_radix n)|].
  unfold ends_digits. by rewrite H1, H3, H4, H5.
Qed.

(** The checks behind the scan all pass. *)
Lemma radix_checks (n : Numeral) :
  radix_ok n = true ->
  let isHex := is_hex_radix (nm_radix n) in
  let isBinary := is_bin_radix (nm_radix n) in
  let digits := match nm_radix n with Decimal => 0%nat | _ => length (nm_digits n) end in
  let octal := match nm_radix n with Decimal => octal_refused (nm_digits n) | _ => false end in
  let sawFraction := bool_decide (is_Some (nm_fraction n)) in
  let sawExp := bool_decide (is_Some (nm_exponent n)) in
  let isFloat := numeral_is_float n in
  isBinary && (sawFraction || sawExp || isFloat || false || false) = false /\
  isBinary && bool_decide (digits = 0%nat) = false /\
  negb isHex && negb isBinary && octal && negb sawFraction && negb sawExp && negb isFloat = false /\
  isHex && negb sawFraction && bool_decide (digits = 0%nat) = false /\
  isHex && sawFraction && bool_decide (digits = 0%nat) &&
    bool_decide ((if isHex then length (default [] (nm_fraction n)) else 0%nat) = 0%nat) = false /\
  isHex && sawFraction && negb sawExp = false.
Proof.
  assert (forall l : list ascii, bool_decide (length l = 0%nat) = bool_decide (l = [])) as Hlen.
  { intros l. apply bool_decide_ext. destruct l; simpl; split; congruence. }
  intros Hok. unfold radix_ok in Hok. destruct n as [[|m|m] ds f e s];
    cbn [nm_radix nm_digits nm_fraction nm_exponent nm_suffix is_hex_radix is_bin_radix] in *.
  - rewrite !andb_true_iff in Hok. destruct Hok as [_ Hok]. split_and!; try done. unfold octal_refused.
    destruct (numeral_is_float _); [by rewrite andb_false_r|].
    destruct (at_index ds 0 =c "0"), (existsb is_89 ds); done.
  - rewrite !andb_true_iff in Hok. destruct_and!. rewrite !Hlen.
    destruct f, e; simpl in *; split_and!;
      repeat case_bool_decide; simpl in *; simplify_eq; try done; by exfalso; eauto using is_Some_None.
  - rewrite !andb_true_iff, !negb_true_iff in Hok. destruct Hok as [[_ Hne] Hfl]. rewrite Hlen, Hne, Hfl.
    unfold numeral_is_float in Hfl. apply orb_false_iff in Hfl as [Hfl _]. simpl in Hfl. by rewrite Hfl.
Qed.

(** C28: every number of the C grammar (with binary literals and imaginary suffixes), not
    followed by a letter, a digit or a point, is one token: its text, and the floating or
    the integer type by its point, exponent and suffix. *)
Theorem number_read (lx : Lexer) (n : Numeral) (b : list ascii) :
  numeral_ok n = true -> rest_at T (lx_position lx) (numeral_text n ++ b) ->
  stops_number (at_index b 0) = true ->
  let lx' := seek lx (lx_position lx + length (numeral_text n)) in
  handleNumber T lx =
    Some (make_token T lx' (numeral_type n) (string_of_list_ascii (numeral_text n)) (lexer_mark lx), lx').
Proof.
  intros Hok Hr Hb lx'. pose proof (numeral_ok_parts n Hok) as (Hrad & Hds & Hfr & Hex & Hsuf).
  pose proof (slice_rest T _ _ _ Hr) as Hslice.
  pose proof Hr as Hr0. unfold numeral_text in Hr0. rewrite <- !app_assoc in Hr0.
  pose proof (prefix_read n _ _ Hr0 Hds Hrad (head_fraction n b Hok Hb)) as Hprefix.
  rewrite app_assoc in Hr0. apply rest_at_app in Hr0.
  pose proof (head_exponent n b Hok Hb) as (Hq1 & Hq2 & _ & _ & _ & Hq5).
  pose proof (suffix_or_stop _ (suffix_head 1 2 _ b Hsuf Hb)) as (Hs1 & _ & _ & _ & Hs5 & _).
  pose proof (fraction_read (is_hex_radix (nm_radix n)) _ _ _ Hr0 Hfr (fun _ => Hq2)
    ltac:(intros _; destruct (nm_radix n); simpl in *; auto)) as Hfraction.
  apply rest_at_app in Hr0. pose proof (exponent_read _ _ _ _ Hr0 Hex (Hs5 _) Hs1) as Hexponent.
  apply rest_at_app in Hr0.
  assert (length (nm_suffix n) < S (text_length T))%nat as Hfuel.
  { destruct Hr0 as [Hp Hd]. apply (f_equal length) in Hd. rewrite length_drop, !length_app in Hd.
    unfold text_length. lia. }
  pose proof (number_suffix_read _ b (S (text_length T)) _ false
    (bool_decide (is_Some (nm_fraction n)) || bool_decide (is_Some (nm_exponent n))) 0 Hr0 Hb Hfuel Hsuf
    ltac:(lia)) as Hsuffix.
  apply rest_at_app in Hr0. unfold handleNumber. rewrite Hprefix. cbn [mbind option_bind np_end np_isHex].
  rewrite Hfraction. cbn [mbind option_bind]. rewrite Hexponent. cbn [mbind option_bind].
  rewrite Hsuffix. cbn [mbind option_bind]. rewrite (rd_rest _ _ _ Hr0). cbn [mbind option_bind].
  change (bool_decide (is_Some (nm_fraction n)) || bool_decide (is_Some (nm_exponent n)) ||
    existsb is_fij (nm_suffix n)) with (numeral_is_float n).
  destruct (stops_alpha _ Hb) as (Ha & Hund & Hp & HP & _).
  match goal with |- context [seek lx ?e] => replace e with (lx_position lx + length (numeral_text n))%nat
    by (unfold numeral_text; rewrite !length_app; lia) end.
  cbn [np_isBinary np_invalidBinaryDigit np_radixDigits np_invalidOctalDigit].
  destruct (radix_checks n Hrad) as (Cfl & Cbin & Coct & Chex & Chexf & Cexp). cbv zeta in *.
  rewrite Hp, HP, Ha, Hund, Cfl, andb_false_r, Cbin, Coct, Chex, Chexf, Cexp. cbn [orb].
  unfold slice_string. by rewrite Hslice.
Qed.

End Numbers.

(** ** Character constants *)

(** A character or an escape: simple, one to three octal digits, [\x] with hex digits, a
    universal character name with four or eight. *)
Inductive CharItem : Set :=
| Plain (c : ascii)
| Simple (e : ascii) (v : Z)
| Octal (d : ascii) (ds : list ascii)
| Hex (ds : list ascii)
| Ucn (ds : list ascii)
| LongUcn (ds : list ascii).

Definition item_text (i : CharItem) : list ascii :=
  match i with
  | Plain c => [c]
  | Simple e _ => [BACKSLASH; e]
  | Octal d ds => BACKSLASH :: d :: ds
  | Hex ds => BACKSLASH :: "x"%char :: ds
  | Ucn ds => BACKSLASH :: "u"%char :: ds
  | LongUcn ds => BACKSLASH :: "U"%char :: ds
  end.

Definition item_value (i : CharItem) : Z :=
  match i with
  | Plain c => chr c
  | Simple _ v => v
  | Octal d ds => digits_value 8 (d :: ds)
  | Hex ds | Ucn ds | LongUcn ds => digits_value 16 ds
  end.

(** The item is well formed in front of the character [next]; its value fits an [int]. *)
Definition item_ok (i : CharItem) (next : ascii) : Prop :=
  match i with
  | Plain c => c <> NUL /\ c <> NEWLINE /\ c <> QUOTE /\ c <> BACKSLASH
  | Simple e v => (e, v) ∈ simple_escapes
  | Octal d ds =>
      is_octal d = true /\ Forall (fun c => is_octal c = true) ds /\ (length ds <= 2)%nat /\
      (length ds = 2%nat \/ is_octal next = false)
  | Hex ds =>
      ds <> [] /\ Forall (fun c => is_xdigit c = true) ds /\ is_xdigit next = false /\
      digits_value 16 ds < 2 ^ 31
  | Ucn ds => length ds = 4%nat /\ Forall (fun c => is_xdigit c = true) ds
  | LongUcn ds =>
      length ds = 8%nat /\ Forall (fun c => is_xdigit c = true) ds /\ digits_value 16 ds < 2 ^ 31
  end.

Definition items_text (items : list CharItem) : list ascii := items ≫= item_text.

Fixpoint items_ok (items : list CharItem) : Prop :=
  match items with
  | [] => True
  | i :: items' => item_ok i (at_index (items_text items' ++ [QUOTE]) 0) /\ items_ok items'
  end.

(** One character has its own value, several are packed with the first one highest. *)
Definition constant_value (items : list CharItem) : Z :=
  match items with
  | [i] => item_value i
  | _ => u64 (foldl (fun acc v => acc * 256 + v `mod` 256) 0 (item_value <$> items))
  end.

Lemma xdigit_value (c : ascii) : is_xdigit c = true -> 0 <= digit_value c < 16.
Proof. destruct c as [[] [] [] [] [] [] [] []]; try done; intros _; vm_compute; by split. Qed.

Lemma octal_value (c : ascii) : is_octal c = true -> digit_value c = chr c - 48 /\ 0 <= digit_value c < 8.
Proof. destruct c as [[] [] [] [] [] [] [] []]; try done; intros _; vm_compute; by repeat split. Qed.

(** Digits read behind the value [v]. *)
Definition digits_from (base v : Z) (ds : list ascii) : Z :=
  foldl (fun acc c => acc * base + digit_value c) v ds.

Lemma digits_from_ge (base v : Z) (ds : list ascii) :
  1 <= base -> 0 <= v -> Forall (fun c => 0 <= digit_value c) ds -> v <= digits_from base v ds.
Proof.
  intros Hb Hv Hds. revert v Hv. induction Hds as [|c ds Hc _ IH]; intros v Hv; simpl; [lia|].
  specialize (IH (v * base + digit_value c) ltac:(nia)). unfold digits_from in *. nia.
Qed.

Lemma xdigits_nonneg (ds : list ascii) :
  Forall (fun c => is_xdigit c = true) ds -> Forall (fun c => 0 <= digit_value c) ds.
Proof. intros H. apply (Forall_impl _ _ _ H). intros c Hc%xdigit_value. lia. Qed.

Lemma digits_from_lt (v : Z) (ds : list ascii) :
  Forall (fun c => is_xdigit c = true) ds -> digits_from 16 v ds < (v + 1) * 16 ^ Z.of_nat (length ds).
Proof.
  intros Hds. revert v. induction Hds as [|c ds Hc _ IH]; intros v; [simpl; lia|].
  change (digits_from 16 v (c :: ds)) with (digits_from 16 (v * 16 + digit_value c) ds).
  pose proof (xdigit_value c Hc). specialize (IH (v * 16 + digit_value c)). cbn [length].
  rewrite Nat2Z.inj_succ, Z.pow_succ_r by lia. pose proof (Z.pow_pos_nonneg 16 (Z.of_nat (length ds))). nia.
Qed.

Lemma int_result_fits (z : Z) : 0 <= z < 2 ^ 31 -> int_result z = (z, []).
Proof.
  intros Hz. unfold int_result. rewrite wrapS_small by lia.
  assert (inS 32 z = true) as -> by (rewrite inS_spec; lia). done.
Qed.

Lemma char_hex_value_digits (ds : list ascii) :
  Forall (fun c => is_xdigit c = true) ds -> digits_value 16 ds < 2 ^ 31 ->
  char_hex_value ds = (digits_value 16 ds, []).
Proof.
  unfold char_hex_value. change (digits_value 16 ds) with (digits_from 16 0 ds). intros Hds.
  enough (forall v, 0 <= v -> digits_from 16 v ds < 2 ^ 31 ->
    foldl (fun '(hex, o) h => let '(m, o1) := int_result (hex * 16) in
      let '(w, o2) := int_result (m + digit_value h) in (w, o ++ o1 ++ o2)) (v, []) ds
    = (digits_from 16 v ds, [])) as Hgen by (by apply Hgen).
  induction Hds as [|c ds Hc Hds IH]; intros v Hv Hlt; [done|]. cbn [foldl].
  change (digits_from 16 v (c :: ds)) with (digits_from 16 (v * 16 + digit_value c) ds) in *.
  pose proof (xdigit_value c Hc).
  pose proof (digits_from_ge 16 (v * 16 + digit_value c) ds ltac:(lia) ltac:(nia) (xdigits_nonneg ds Hds)).
  rewrite !int_result_fits by lia. apply IH; [nia|done].
Qed.

Section Characters.
Context (T : LexerText).

Lemma char_hex_digits (ds R : list ascii) (p : nat) (v : Z) (count : nat) :
  rest_at T p (ds ++ R) -> Forall (fun c => is_xdigit c = true) ds -> 0 <= v ->
  digits_from 16 v ds < 2 ^ 31 ->
  char_hex T (length ds) p v count = Some ((p + length ds)%nat, digits_from 16 v ds, (count + length ds)%nat, []).
Proof.
  intros Hr Hds. revert p v count Hr. induction Hds as [|c ds Hc Hds IH]; intros p v count Hr Hv Hlt;
    cbn [length char_hex].
  - by rewrite !Nat.add_0_r.
  - rewrite (rd_rest _ _ _ Hr). cbn [mbind option_bind app at_index nth]. rewrite Hc.
    pose proof (xdigit_value c Hc).
    change (digits_from 16 v (c :: ds)) with (digits_from 16 (v * 16 + digit_value c) ds) in *.
    pose proof (digits_from_ge 16 (v * 16 + digit_value c) ds ltac:(lia) ltac:(nia) (xdigits_nonneg ds Hds)).
    rewrite lor_shiftl_add by lia. change (2 ^ 4) with 16. rewrite int_result_fits by lia.
    rewrite (IH (S p) _ (S count) (rest_at_cons _ _ _ _ Hr)) by lia. cbn [mbind option_bind app].
    by rewrite <- !Nat.add_succ_comm.
Qed.

Lemma scan_at_most_octal (n : nat) (ds R : list ascii) (p : nat) :
  rest_at T p (ds ++ R) -> Forall (fun c => is_octal c = true) ds -> (length ds <= n)%nat ->
  (length ds = n \/ is_octal (at_index R 0) = false) ->
  scan_at_most T is_octal n p = Some (p + length ds)%nat.
Proof.
  intros Hr Hds. revert n p Hr. induction Hds as [|c ds Hc Hds IH]; intros [|n] p Hr Hn Hstop; simpl in *;
    [by rewrite Nat.add_0_r| |lia|].
  - rewrite (rd_rest _ _ _ Hr). cbn [mbind option_bind]. destruct Hstop as [?| ->]; [done|]. by rewrite Nat.add_0_r.
  - rewrite (rd_rest _ _ _ Hr). cbn [mbind option_bind at_index nth]. rewrite Hc.
    rewrite (IH n (S p) (rest_at_cons _ _ _ _ Hr) ltac:(lia)); [f_equal; lia|].
    destruct Hstop; [left; lia|by right].
Qed.

Lemma octal_digits (d : ascii) (ds : list ascii) :
  is_octal d = true -> Forall (fun c => is_octal c = true) ds ->
  foldl (fun oct d => Z.shiftl oct 3 + (chr d - 48)) (chr d - 48) ds = digits_value 8 (d :: ds).
Proof.
  intros Hd Hds. unfold digits_value. cbn [foldl]. rewrite Z.mul_0_l, Z.add_0_l. destruct (octal_value d Hd) as [-> _].
  generalize (chr d - 48) as v. induction Hds as [|c ds Hc _ IH]; intros v; [done|]. cbn [foldl].
  destruct (octal_value c Hc) as [-> _]. rewrite <- IH. by rewrite Z.shiftl_mul_pow2 by lia.
Qed.
(** An item whose text starts with a backslash is an escape with its value. *)
Lemma char_escape_read (i : CharItem) (R : list ascii) (e : ascii) (rest : list ascii) (p : nat) :
  item_ok i (at_index R 0) -> item_text i = BACKSLASH :: e :: rest -> rest_at T p (rest ++ R) ->
  char_escape T p e = Some (inl (p + length rest, item_value i)%nat, []).
Proof.
  intros Hok Ht Hr. unfold char_escape. destruct i as [c|e' v|d ds|ds|ds|ds]; simpl in Ht; simplify_eq; simpl in Hok.
  - assert (Forall (fun row : ascii * Z =>
      List.find (fun r => row.1 =c r.1) simple_escapes = Some row) simple_escapes) as Hall by (by repeat constructor).
    rewrite Forall_forall in Hall. specialize (Hall _ Hok). cbn [fst] in Hall. rewrite Hall. by rewrite Nat.add_0_r.
  - destruct Hok as (Hd & Hds & Hlen & Hnext).
    assert (List.find (fun row : ascii * Z => e =c row.1) simple_escapes = None /\
      (e =c "u") = false /\ (e =c "U") = false /\ (e =c "x") = false) as (-> & -> & -> & ->)
      by (clear -Hd; destruct e as [[] [] [] [] [] [] [] []]; done).
    rewrite Hd, (scan_at_most_octal 2 rest R p Hr Hds Hlen Hnext). cbn [mbind option_bind].
    by rewrite (slice_rest _ _ _ _ Hr), octal_digits.
  - destruct Hok as (Hne & Hds & Hnext & Hlt). simpl.
    rewrite (scan_rest T is_xdigit p rest R Hr Hds Hnext). cbn [mbind option_bind].
    rewrite decide_False by (destruct rest; [done|simpl; lia]).
    by rewrite (slice_rest _ _ _ _ Hr), char_hex_value_digits.
  - destruct Hok as [Hlen Hds].
    change (List.find _ simple_escapes) with (@None (ascii * Z)). change ("u"%char =c "u") with true. cbv iota.
    rewrite <- Hlen at 1.
    pose proof (digits_from_lt 0 rest Hds) as Hlt. rewrite Hlen in Hlt.
    rewrite (char_hex_digits rest R p 0 0 Hr Hds) by lia. cbn [mbind option_bind].
    by rewrite decide_True.
  - destruct Hok as (Hlen & Hds & Hlt). change (List.find _ simple_escapes) with (@None (ascii * Z)).
    change ("U"%char =c "u") with false. change ("U"%char =c "U") with true. cbv iota. rewrite <- Hlen at 1.
    rewrite (char_hex_digits rest R p 0 0 Hr Hds) by done. cbn [mbind option_bind].
    by rewrite decide_True.
Qed.

Lemma items_head (items : list CharItem) (b : list ascii) :
  at_index (items_text items ++ [QUOTE]) 0 = at_index (items_text items ++ QUOTE :: b) 0.
Proof. by destruct (items_text items). Qed.

Definition add_items (st : CharState) (items : list CharItem) : CharState :=
  foldl (fun st i => add_char st (item_value i) []) st items.

Lemma char_loop_read (items : list CharItem) (b : list ascii) (fuel p : nat) (st : CharState) :
  items_ok items -> rest_at T p (items_text items ++ QUOTE :: b) -> (length items < fuel)%nat ->
  char_loop T fuel p st = Some (CharClosed (S (p + length (items_text items))) (add_items st items)).
Proof.
  revert fuel p st. induction items as [|i items IH]; intros [|fuel] p st Hok Hr Hf; try (simpl in Hf; lia);
    cbn [char_loop]; rewrite (rd_rest _ _ _ Hr); cbn [mbind option_bind].
  - simpl. by rewrite Nat.add_0_r.
  - destruct Hok as [Hi Hok]. rewrite (items_head items b) in Hi. unfold items_text in Hr.
    cbn [mbind list_bind] in Hr. rewrite <- app_assoc in Hr. fold (items_text items) in Hr.
    assert (length (items_text (i :: items)) = length (item_text i) + length (items_text items))%nat as ->
      by (unfold items_text; cbn [mbind list_bind]; by rewrite length_app).
    simpl in Hf. pose proof (rest_at_app _ _ _ _ Hr) as Hr'. unfold items_text. cbn [mbind list_bind].
    destruct (item_text i) as [|c0 [|e rest]] eqn:Et; [by destruct i| |].
    + destruct i; simpl in Et; simplify_eq. destruct Hi as (H1 & H2 & H3 & H4). cbn [app at_index nth].
      rewrite (proj2 (Ascii.eqb_neq c0 NUL)), (proj2 (Ascii.eqb_neq c0 NEWLINE)), (proj2 (Ascii.eqb_neq c0 QUOTE)),
        (proj2 (Ascii.eqb_neq c0 BACKSLASH)) by done. cbn [orb].
      simpl in Hr'. rewrite Nat.add_1_r in Hr'. rewrite (IH fuel (S p)); [|done..|lia]. simpl.
      by rewrite <- !Nat.add_succ_comm.
    + assert (c0 = BACKSLASH) as -> by (by destruct i; simpl in Et; simplify_eq).
      cbn [app at_index nth]. cbn [Ascii.eqb NUL].
      pose proof (rest_at_cons _ _ _ _ Hr) as Hr1. pose proof (rest_at_cons _ _ _ _ Hr1) as Hr2.
      change (BACKSLASH =c NUL) with false. change (BACKSLASH =c NEWLINE) with false.
      change (BACKSLASH =c QUOTE) with false. change (BACKSLASH =c BACKSLASH) with true. cbn [orb].
      rewrite (rd_rest _ _ _ Hr1). cbn [mbind option_bind at_index nth app].
      rewrite (char_escape_read i _ e rest (S (S p)) Hi Et Hr2). cbn [mbind option_bind].
      rewrite (IH fuel); [|done| |lia].
      * simpl. f_equal. f_equal. unfold items_text. lia.
      * simpl in Hr'. by replace (S (S p) + length rest)%nat with (p + S (S (length rest)))%nat by lia.
Qed.

Lemma item_value_range (i : CharItem) (next : ascii) : item_ok i next -> 0 <= item_value i < 2 ^ 31.
Proof.
  assert (forall ds, Forall (fun c => is_xdigit c = true) ds -> 0 <= digits_value 16 ds) as Hpos.
  { intros ds Hds. apply (digits_from_ge 16 0 ds ltac:(lia) ltac:(lia) (xdigits_nonneg ds Hds)). }
  destruct i as [c|e v|d ds|ds|ds|ds]; cbn [item_ok item_value]; intros H.
  - pose proof (chr_range c). lia.
  - assert (Forall (fun row : ascii * Z => 0 <= row.2 < 2 ^ 31) simple_escapes) as Hall
      by (repeat constructor; simpl; lia).
    rewrite Forall_forall in Hall. by apply (Hall (e, v)).
  - destruct H as (Hd & Hds & Hlen & _). destruct (octal_value d Hd) as [_ Hv].
    destruct ds as [|c1 [|c2 [|]]]; [| | |simpl in Hlen; lia]; unfold digits_value; cbn [foldl];
      repeat match goal with H : Forall _ (_ :: _) |- _ => inversion_clear H end;
      repeat match goal with H : is_octal ?c = true |- _ => apply octal_value in H as [_ ?] end; lia.
  - destruct H as (_ & Hds & _ & Hlt). split; [by apply Hpos|done].
  - destruct H as [Hlen Hds]. pose proof (digits_from_lt 0 ds Hds) as Hlt. rewrite Hlen in Hlt.
    split; [by apply Hpos|]. unfold digits_from in Hlt. unfold digits_value. lia.
  - destruct H as (_ & Hds & Hlt). split; [by apply Hpos|done].
Qed.

Lemma pack_byte (v m : Z) : 0 <= m < 256 -> Z.lor (u64 (u64 v * 2 ^ 8)) m = u64 (v * 256 + m).
Proof.
  intros Hm. unfold wrapU. rewrite Zmult_mod_idemp_l. change (2 ^ 8) with 256. change (2 ^ 64) with (2 ^ 56 * 256).
  rewrite Z.mul_mod_distr_r by lia. pose proof (Z.mod_pos_bound v (2 ^ 56) ltac:(lia)).
  rewrite (lead_byte _ 8) by (try rewrite Z.mod_mul; lia).
  apply (Z.mod_unique_pos _ _ (v / 2 ^ 56)); [lia|]. pose proof (Z.div_mod v (2 ^ 56) ltac:(lia)). lia.
Qed.

(** The packed value is the big-endian number modulo 2^64. *)
Lemma add_items_accum (items : list CharItem) (st : CharState) (v : Z) :
  cs_accum st = u64 v -> (cs_count st = 0%nat -> v = 0) -> cs_overflow st = [] ->
  let st' := add_items st items in
  cs_accum st' = u64 (foldl (fun acc v => acc * 256 + v `mod` 256) v (item_value <$> items)) /\
  cs_count st' = (cs_count st + length items)%nat /\ cs_overflow st' = [] /\
  cs_lastVal st' = default (cs_lastVal st) (last (item_value <$> items)).
Proof.
  revert st v. induction items as [|i items IH]; intros st v Ha Hc Ho.
  - simpl. by rewrite Nat.add_0_r.
  - cbn [add_items foldl fmap list_fmap]. change (foldl _ ?s items) with (add_items s items).
    destruct (IH (add_char st (item_value i) []) (v * 256 + item_value i `mod` 256)) as (H1 & H2 & H3 & H4).
    + simpl. change 255 with (Z.ones 8). rewrite Z.land_ones by lia. change (2 ^ 8) with 256.
      pose proof (Z.mod_pos_bound (item_value i) 256 ltac:(lia)).
      case_decide as Hz; [rewrite (Hc Hz), wrapU_small; lia|]. rewrite Ha, Z.shiftl_mul_pow2 by lia. change 256 with (2 ^ 8) at 1.
      by apply pack_byte.
    + done.
    + simpl. by rewrite Ho.
    + split_and!; [done|simpl in H2; simpl; lia|done|]. rewrite H4. rewrite last_cons. simpl.
      by destruct (last (item_value <$> items)).
Qed.

Lemma constant_value_read (items : list CharItem) :
  items <> [] -> items_ok items ->
  char_value (add_items (mkCharState 0 0 0 []) items) = constant_value items.
Proof.
  intros Hne Hok. destruct (add_items_accum items (mkCharState 0 0 0 []) 0) as (Ha & Hc & _ & Hl); [done..|].
  unfold char_value. rewrite Hc, Ha, Hl. simpl (cs_count _). destruct items as [|i [|j items]]; [done| |done].
  cbn. destruct Hok as [Hi _]. rewrite decide_True by done. pose proof (item_value_range i _ Hi).
  apply wrapU_small. lia.
Qed.

(** C29: a well-formed character constant is one token whose value is, for one character,
    the value of the character or escape, and for several their low bytes packed big-endian
    modulo 2^64; nothing undefined is executed. *)
Theorem char_constant_read (lx : Lexer) (items : list CharItem) (b : list ascii) :
  items <> [] -> items_ok items ->
  rest_at T (lx_position lx) (QUOTE :: items_text items ++ QUOTE :: b) ->
  let lx' := seek lx (lx_position lx + (2 + length (items_text items))) in
  handleCharLiteral T lx =
    Some (make_token T lx' TOKEN_CHAR_LITERAL
            (string_of_list_ascii (decimal_digits 20 (constant_value items))) (lexer_mark lx), lx').
Proof.
  intros Hne Hok Hr lx'. pose proof (rest_at_cons _ _ _ _ Hr) as Hr1. unfold handleCharLiteral.
  assert (length items < S (text_length T))%nat as Hfuel.
  { destruct Hr1 as [_ Hd]. apply (f_equal length) in Hd. rewrite length_drop, length_app in Hd.
    assert (length items <= length (items_text items))%nat; [|unfold text_length; simpl in Hd; lia].
    clear. induction items as [|i items IH]; [done|]. unfold items_text in *. cbn [mbind list_bind].
    rewrite length_app. destruct i; simpl; lia. }
  rewrite (char_loop_read items b _ _ _ Hok Hr1 Hfuel). cbn [mbind option_bind].
  destruct (add_items_accum items (mkCharState 0 0 0 []) 0) as (_ & Hc & Ho & _); [done..|].
  rewrite Ho, Hc, decide_False by (destruct items; simpl; [done|lia]).
  rewrite constant_value_read by done.
  replace (undefined _ []) with lx'; [done|]. unfold lx', undefined, seek. cbn. f_equal. lia.
Qed.

End Characters.

Definition sample_numeral : Numeral :=
  mkNumeral (Hexadecimal "x") (list_ascii_of_string "1") (Some (list_ascii_of_string "8"))
    (Some (mkExponent "p" (list_ascii_of_string "+") (list_ascii_of_string "3"))) (list_ascii_of_string "f").

Lemma number_read_witness :
  numeral_ok sample_numeral = true /\
  let T := sample_text "0x1.8p+3f;" in
  let lx' := seek start_lexer (0 + length (numeral_text sample_numeral)) in
  handleNumber T start_lexer =
    Some (make_token T lx' (numeral_type sample_numeral)
            (string_of_list_ascii (numeral_text sample_numeral)) (lexer_mark start_lexer), lx').
Proof.
  split; [done|]. cbv zeta.
  apply (number_read (sample_text "0x1.8p+3f;") start_lexer sample_numeral (list_ascii_of_string ";"));
    [done|split; [vm_compute; lia|done]|done].
Defined.

Definition sample_items : list CharItem :=
  [Plain "a"%char; Octal "1"%char (list_ascii_of_string "7"); Hex (list_ascii_of_string "fF")].

Lemma char_constant_read_witness :
  items_ok sample_items /\
  let T := mkLexerText (QUOTE :: items_text sample_items ++ [QUOTE]) None [] [] [] false in
  let lx' := seek start_lexer (0 + (2 + length (items_text sample_items))) in
  handleCharLiteral T start_lexer =
    Some (make_token T lx' TOKEN_CHAR_LITERAL
            (string_of_list_ascii (decimal_digits 20 (constant_value sample_items))) (lexer_mark start_lexer), lx').
Proof.
  assert (items_ok sample_items) as Hok.
  { cbn. split_and!; try done; try (by right); repeat constructor; done. }
  split; [exact Hok|]. cbv zeta. apply (char_constant_read _ start_lexer _ []); [done|exact Hok|].
  split; [vm_compute; lia|done].
Defined.
