(* ===== verification/MacroTable.v ===== *)
(** * The macro table of the preprocessor (src/Preprocessor/macro_table.c).

    [MacroTable] is the C struct: [mt_macros] holds the [macroCount] live slots of
    the [macros] array, in array order.  A [const MacroDefinition *] into that
    array is a [MacroPtr]: the array's allocation ([realloc] starts a new one) and
    the slot, so that reading through a pointer that a later [realloc] or removal
    has killed has no result ([deref] is [None]).  Allocation succeeds. *)
From S2P Require Import Prelude Tokens.

Inductive MacroKind : Set := MACRO_OBJECT | MACRO_FUNCTION.

Record MacroParamList := mkMacroParamList {
  mp_names : list string;
  mp_variadic : bool;
  mp_hasVaOpt : bool
}.

Record MacroDefinition := mkMacroDefinition {
  md_name : string;
  md_kind : MacroKind;
  md_params : MacroParamList;
  md_body : list Token;
  md_definitionRange : SourceRange
}.

Record MacroPtr := mkMacroPtr { ptr_base : nat; ptr_slot : nat }.

#[export] Instance MacroPtr_eq_dec : EqDecision MacroPtr.
Proof. solve_decision. Defined.

Record MacroExpansionFrame := mkMacroExpansionFrame {
  mf_macro : MacroPtr;
  mf_callSiteRange : SourceRange;
  mf_expansionRange : SourceRange
}.

Inductive MacroExpansionError : Set := MT_ERR_NONE | MT_ERR_RECURSION | MT_ERR_DEPTH.

Record MacroTable := mkMacroTable {
  mt_macros : list MacroDefinition;
  mt_macroCapacity : nat;
  mt_base : nat;
  mt_expansionStack : list MacroExpansionFrame;
  mt_expansionCapacity : nat;
  mt_expansionLimit : nat;
  mt_lastError : MacroExpansionError;
  mt_mutationSerial : Z
}.

(** A zeroed slot, as [memset (slot, 0, sizeof *slot)] leaves it. *)
Definition zero_definition : MacroDefinition :=
  mkMacroDefinition "" MACRO_OBJECT (mkMacroParamList [] false false) [] empty_source_range.

Definition macro_body_copy (src : list Token) : list Token := src.

(** Returns early, flags untouched, when the list has no names. *)
Definition macro_params_destroy (p : MacroParamList) : MacroParamList :=
  match mp_names p with
  | [] => p
  | _ :: _ => mkMacroParamList [] false false
  end.

Definition macro_params_copy (dest : MacroParamList) (names : list string)
    (variadic hasVaOpt : bool) : MacroParamList :=
  let dest := macro_params_destroy dest in
  match names with
  | [] => mkMacroParamList [] variadic hasVaOpt
  | _ :: _ => mkMacroParamList names variadic hasVaOpt
  end.

Definition macro_definition_reset (def : MacroDefinition) : MacroDefinition :=
  mkMacroDefinition "" MACRO_OBJECT (macro_params_destroy (md_params def)) []
    empty_source_range.

(** The slot [strcmp] finds first: [macro_table_find_mut] and [macro_table_lookup]. *)
Definition macro_table_find_mut (t : MacroTable) (name : string) : option nat :=
  fst <$> list_find (fun d => md_name d = name) (mt_macros t).

Definition macro_table_lookup (t : MacroTable) (name : string) : option MacroPtr :=
  mkMacroPtr (mt_base t) ∘ fst <$> list_find (fun d => md_name d = name) (mt_macros t).

(** Reading [*p]: only a live slot of the array's current allocation. *)
Definition deref (t : MacroTable) (p : MacroPtr) : option MacroDefinition :=
  if decide (ptr_base p = mt_base t) then mt_macros t !! ptr_slot p else None.

Definition macro_table_grow (t : MacroTable) : MacroTable :=
  if decide (length (mt_macros t) < mt_macroCapacity t)%nat then t
  else
    let newCapacity := if decide (mt_macroCapacity t = 0%nat) then 8%nat
                       else (mt_macroCapacity t * 2)%nat in
    mkMacroTable (mt_macros t) newCapacity (S (mt_base t)) (mt_expansionStack t)
      (mt_expansionCapacity t) (mt_expansionLimit t) (mt_lastError t)
      (mt_mutationSerial t).

Definition set_macros (t : MacroTable) (ms : list MacroDefinition) : MacroTable :=
  mkMacroTable ms (mt_macroCapacity t) (mt_base t) (mt_expansionStack t)
    (mt_expansionCapacity t) (mt_expansionLimit t) (mt_lastError t) (mt_mutationSerial t).

Definition bump_serial (t : MacroTable) : MacroTable :=
  mkMacroTable (mt_macros t) (mt_macroCapacity t) (mt_base t) (mt_expansionStack t)
    (mt_expansionCapacity t) (mt_expansionLimit t) (mt_lastError t)
    (u64 (mt_mutationSerial t + 1)).

Definition macro_table_create : MacroTable := mkMacroTable [] 0 0 [] 0 1000 MT_ERR_NONE 0.

Definition rename (def : MacroDefinition) (name : string) : MacroDefinition :=
  mkMacroDefinition name (md_kind def) (md_params def) (md_body def) (md_definitionRange def).

(** The slot to fill for [name]: the existing one, reset, or a new zeroed one. *)
Definition macro_table_upsert (t : MacroTable) (name : string) : MacroTable * nat :=
  match macro_table_find_mut t name with
  | Some i =>
      let old := default zero_definition (mt_macros t !! i) in
      (set_macros t (<[i := rename (macro_definition_reset old) name]> (mt_macros t)), i)
  | None =>
      let t := macro_table_grow t in
      (set_macros t (mt_macros t ++ [rename zero_definition name]), length (mt_macros t))
  end.

Definition update_slot (t : MacroTable) (i : nat)
    (f : MacroDefinition -> MacroDefinition) : MacroTable :=
  set_macros t (alter f i (mt_macros t)).

Definition macro_table_define_object (t : MacroTable) (name : string)
    (bodyTokens : list Token) (definitionRange : SourceRange) : MacroTable :=
  let '(t, slot) := macro_table_upsert t name in
  bump_serial (update_slot t slot (fun def =>
    mkMacroDefinition (md_name def) MACRO_OBJECT (md_params def)
      (macro_body_copy bodyTokens) definitionRange)).

Definition macro_table_define_function (t : MacroTable) (name : string)
    (params : list string) (variadic hasVaOpt : bool) (bodyTokens : list Token)
    (definitionRange : SourceRange) : MacroTable :=
  let '(t, slot) := macro_table_upsert t name in
  bump_serial (update_slot t slot (fun def =>
    mkMacroDefinition (md_name def) MACRO_FUNCTION
      (macro_params_copy (md_params def) params variadic hasVaOpt)
      (macro_body_copy bodyTokens) definitionRange)).

Definition macro_table_undef (t : MacroTable) (name : string) : bool * MacroTable :=
  match macro_table_find_mut t name with
  | Some i => (true, bump_serial (set_macros t (swap_remove i (mt_macros t))))
  | None => (false, t)
  end.

Definition macro_table_mutation_serial (t : MacroTable) : Z := mt_mutationSerial t.

(** [frame->macro->name] is read for every frame: [None] when one frame's macro
    is no longer live (reading freed memory). *)
Fixpoint is_expanding_from (t : MacroTable) (frames : list MacroExpansionFrame)
    (name : string) : option bool :=
  match frames with
  | [] => Some false
  | frame :: rest =>
      def ← deref t (mf_macro frame);
      if decide (md_name def = name) then Some true else is_expanding_from t rest name
  end.

Definition macro_table_is_expanding (t : MacroTable) (name : string) : option bool :=
  is_expanding_from t (mt_expansionStack t) name.

Definition macro_expansion_grow (t : MacroTable) : MacroTable :=
  if decide (length (mt_expansionStack t) < mt_expansionCapacity t)%nat then t
  else
    let newCapacity := if decide (mt_expansionCapacity t = 0%nat) then 8%nat
                       else (mt_expansionCapacity t * 2)%nat in
    mkMacroTable (mt_macros t) (mt_macroCapacity t) (mt_base t) (mt_expansionStack t)
      newCapacity (mt_expansionLimit t) (mt_lastError t) (mt_mutationSerial t).

Definition set_expansion (t : MacroTable) (st : list MacroExpansionFrame)
    (err : MacroExpansionError) : MacroTable :=
  mkMacroTable (mt_macros t) (mt_macroCapacity t) (mt_base t) st (mt_expansionCapacity t)
    (mt_expansionLimit t) err (mt_mutationSerial t).

Definition macro_table_push_expansion (t : MacroTable) (macro : MacroPtr)
    (callSite expansionRange : SourceRange) : option (bool * MacroTable) :=
  if decide (0 < mt_expansionLimit t /\
             mt_expansionLimit t <= length (mt_expansionStack t))%nat
  then Some (false, set_expansion t (mt_expansionStack t) MT_ERR_DEPTH)
  else
    def ← deref t macro;
    expanding ← macro_table_is_expanding t (md_name def);
    if (expanding : bool)
    then Some (false, set_expansion t (mt_expansionStack t) MT_ERR_RECURSION)
    else
      let t := macro_expansion_grow t in
      Some (true, set_expansion t
        (mt_expansionStack t ++ [mkMacroExpansionFrame macro callSite expansionRange])
        MT_ERR_NONE).

(** The topmost frame of [macro], searched from index [i - 1] down. *)
Fixpoint scan_frames (st : list MacroExpansionFrame) (macro : MacroPtr) (i : nat)
    : option nat :=
  match i with
  | O => None
  | S j =>
      match st !! j with
      | Some frame => if decide (mf_macro frame = macro) then Some j
                      else scan_frames st macro j
      | None => scan_frames st macro j
      end
  end.

Definition macro_table_pop_expansion (t : MacroTable) (macro : option MacroPtr) : MacroTable :=
  let st := mt_expansionStack t in
  let n := length st in
  let popped := set_expansion t (take (n - 1) st) (mt_lastError t) in
  match list.last st with
  | None => t
  | Some frame =>
      match macro with
      | None => popped
      | Some m =>
          if decide (mf_macro frame = m) then popped
          else match scan_frames st m n with
               | Some i => set_expansion t (take i st) (mt_lastError t)
               | None => popped
               end
      end
  end.

Definition macro_table_current_expansion (t : MacroTable) : list MacroExpansionFrame * nat :=
  (mt_expansionStack t, length (mt_expansionStack t)).

Definition macro_table_last_error (t : MacroTable)
    : MacroExpansionError * option MacroExpansionFrame :=
  (mt_lastError t, list.last (mt_expansionStack t)).

Definition macro_table_set_expansion_limit (t : MacroTable) (limit : nat) : MacroTable :=
  mkMacroTable (mt_macros t) (mt_macroCapacity t) (mt_base t) (mt_expansionStack t)
    (mt_expansionCapacity t) limit (mt_lastError t) (mt_mutationSerial t).

(** The definition a clone re-defines, by its kind. *)
Definition clone_one (clone : MacroTable) (def : MacroDefinition) : MacroTable :=
  match md_kind def with
  | MACRO_OBJECT =>
      macro_table_define_object clone (md_name def) (md_body def) (md_definitionRange def)
  | MACRO_FUNCTION =>
      macro_table_define_function clone (md_name def) (mp_names (md_params def))
        (mp_variadic (md_params def)) (mp_hasVaOpt (md_params def))
        (md_body def) (md_definitionRange def)
  end.

Definition macro_table_clone (src : MacroTable) : MacroTable :=
  foldl clone_one macro_table_create (mt_macros src).

(** ** Specification: the table is a finite map from names to definitions. *)

Definition table_map (t : MacroTable) : gmap string MacroDefinition :=
  list_to_map ((fun d => (md_name d, d)) <$> mt_macros t).

Record table_ok (t : MacroTable) : Prop := {
  ok_nodup : NoDup (md_name <$> mt_macros t);
  ok_capacity : (length (mt_macros t) <= mt_macroCapacity t)%nat;
  ok_expansion : (length (mt_expansionStack t) <= mt_expansionCapacity t)%nat
}.

(** What a frame's macro is called, when it is live. *)
Definition frame_name (t : MacroTable) (f : MacroExpansionFrame) : option string :=
  md_name <$> deref t (mf_macro f).

(** The expansion discipline: every frame live, no macro inside its own expansion,
    and never more frames than the limit (when there is one). *)
Record expansion_ok (t : MacroTable) : Prop := {
  exp_live : Forall (fun f => is_Some (deref t (mf_macro f))) (mt_expansionStack t);
  exp_nodup : NoDup (omap (frame_name t) (mt_expansionStack t));
  exp_limit : mt_expansionLimit t = 0%nat \/
              (length (mt_expansionStack t) <= mt_expansionLimit t)%nat
}.

(** The definition [define_object] stores, given what the table had under the name. *)
Definition object_definition (t : MacroTable) (name : string) (body : list Token)
    (range : SourceRange) : MacroDefinition :=
  let params := match table_map t !! name with
                | Some old => macro_params_destroy (md_params old)
                | None => mkMacroParamList [] false false
                end in
  mkMacroDefinition name MACRO_OBJECT params body range.

Definition function_definition (name : string) (params : list string)
    (variadic hasVaOpt : bool) (body : list Token) (range : SourceRange) : MacroDefinition :=
  mkMacroDefinition name MACRO_FUNCTION (mkMacroParamList params variadic hasVaOpt) body range.

(** A clone drops the parameter list of an object-like macro. *)
Definition clone_definition (d : MacroDefinition) : MacroDefinition :=
  match md_kind d with
  | MACRO_OBJECT => mkMacroDefinition (md_name d) MACRO_OBJECT
      (mkMacroParamList [] false false) (md_body d) (md_definitionRange d)
  | MACRO_FUNCTION => d
  end.

(** ** The map an array of definitions denotes. *)

Definition mmap (ms : list MacroDefinition) : gmap string MacroDefinition :=
  list_to_map ((fun d => (md_name d, d)) <$> ms).

Lemma mmap_names (ms : list MacroDefinition) :
  ((fun d => (md_name d, d)) <$> ms).*1 = md_name <$> ms.
Proof. rewrite <- list_fmap_compose. done. Qed.

Lemma mmap_perm (l k : list MacroDefinition) :
  NoDup (md_name <$> l) -> l ≡ₚ k -> mmap l = mmap k.
Proof.
  intros Hnd Hp. apply list_to_map_proper; [by rewrite mmap_names|]. by rewrite Hp.
Qed.

Lemma mmap_lookup (ms : list MacroDefinition) (n : string) (d : MacroDefinition) :
  NoDup (md_name <$> ms) -> mmap ms !! n = Some d <-> d ∈ ms /\ md_name d = n.
Proof.
  intros Hnd. unfold mmap. rewrite <- elem_of_list_to_map by by rewrite mmap_names.
  rewrite list_elem_of_fmap. split.
  - intros (d' & ? & ?); simplify_eq. done.
  - intros [? <-]. eauto.
Qed.

Lemma mmap_lookup_None (ms : list MacroDefinition) (n : string) :
  mmap ms !! n = None <-> n ∉ md_name <$> ms.
Proof. unfold mmap. rewrite <- not_elem_of_list_to_map, mmap_names. done. Qed.

Lemma mmap_cons (d : MacroDefinition) (ms : list MacroDefinition) :
  mmap (d :: ms) = <[md_name d := d]> (mmap ms).
Proof. done. Qed.

Lemma mmap_snoc (ms : list MacroDefinition) (d : MacroDefinition) :
  NoDup (md_name <$> ms) -> md_name d ∉ md_name <$> ms ->
  mmap (ms ++ [d]) = <[md_name d := d]> (mmap ms).
Proof.
  intros Hnd Hd. rewrite <- mmap_cons. apply mmap_perm.
  - rewrite fmap_app, (Permutation_app_comm (md_name <$> ms)). by constructor.
  - symmetry. apply Permutation_cons_append.
Qed.

Lemma names_insert (ms : list MacroDefinition) (i : nat) (old new : MacroDefinition) :
  ms !! i = Some old -> md_name new = md_name old ->
  md_name <$> <[i := new]> ms = md_name <$> ms.
Proof.
  intros Hi Hn. rewrite list_fmap_insert. apply list_insert_id.
  by rewrite list_lookup_fmap, Hi, Hn.
Qed.

Lemma mmap_insert (ms : list MacroDefinition) (i : nat) (old new : MacroDefinition) :
  NoDup (md_name <$> ms) -> ms !! i = Some old -> md_name new = md_name old ->
  mmap (<[i := new]> ms) = <[md_name old := new]> (mmap ms).
Proof.
  intros Hnd Hi Hn. pose proof (lookup_lt_Some _ _ _ Hi).
  assert (length (take i ms) = i) as Hlen by (rewrite length_take; lia).
  rewrite <- (take_drop_middle ms i old Hi) in Hnd.
  rewrite <- (take_drop_middle ms i old Hi) at 1 2.
  rewrite insert_app_r_alt, Hlen, Nat.sub_diag by lia. simpl.
  assert (forall d, md_name d = md_name old ->
            mmap (take i ms ++ d :: drop (S i) ms) =
            <[md_name d := d]> (mmap (take i ms ++ drop (S i) ms))) as Hmid.
  { intros d Hd. rewrite <- mmap_cons. apply mmap_perm; [|solve_Permutation].
    rewrite fmap_app in *. simpl in *. by rewrite Hd. }
  rewrite !Hmid, Hn by done. by rewrite insert_insert_eq.
Qed.

Lemma mmap_swap_remove (ms : list MacroDefinition) (i : nat) (d : MacroDefinition) :
  NoDup (md_name <$> ms) -> ms !! i = Some d ->
  NoDup (md_name <$> swap_remove i ms) /\
  mmap (swap_remove i ms) = delete (md_name d) (mmap ms).
Proof.
  intros Hnd Hi. pose proof (swap_remove_perm i ms d Hi) as Hp.
  pose proof (mmap_perm _ _ Hnd Hp) as Hm. rewrite Hp in Hnd. simpl in Hnd.
  apply NoDup_cons in Hnd as [Hout Hnd]. split; [done|].
  rewrite Hm, mmap_cons, delete_insert_eq, delete_id; [done|].
  by apply mmap_lookup_None.
Qed.

Lemma find_Some (t : MacroTable) (name : string) (i : nat) :
  macro_table_find_mut t name = Some i ->
  exists d, mt_macros t !! i = Some d /\ md_name d = name.
Proof.
  unfold macro_table_find_mut. intros H. apply fmap_Some in H as ([j d] & H & ->).
  apply list_find_Some in H as (? & ? & ?). eauto.
Qed.

Lemma find_None (t : MacroTable) (name : string) :
  macro_table_find_mut t name = None -> name ∉ md_name <$> mt_macros t.
Proof.
  unfold macro_table_find_mut. intros H. apply fmap_None, list_find_None in H.
  rewrite Forall_forall in H. rewrite list_elem_of_fmap. intros (d & -> & Hd).
  by apply (H d Hd).
Qed.

(** The slot [upsert] hands out, before it is filled. *)
Definition fresh_slot (t : MacroTable) (name : string) : MacroDefinition :=
  rename (match table_map t !! name with
          | Some old => macro_definition_reset old
          | None => zero_definition
          end) name.

Lemma define_slot (t : MacroTable) (name : string) (f : MacroDefinition -> MacroDefinition) :
  table_ok t -> (forall d, md_name (f d) = md_name d) ->
  let t' := bump_serial (update_slot (macro_table_upsert t name).1
                                     (macro_table_upsert t name).2 f) in
  table_ok t' /\ table_map t' = <[name := f (fresh_slot t name)]> (table_map t) /\
  mt_macros t' = match macro_table_find_mut t name with
                 | Some i => <[i := f (fresh_slot t name)]> (mt_macros t)
                 | None => mt_macros t ++ [f (fresh_slot t name)]
                 end.
Proof.
  intros [Hnd Hcap Hexp] Hf. unfold macro_table_upsert, fresh_slot.
  change (table_map ?t) with (mmap (mt_macros t)).
  destruct (macro_table_find_mut t name) as [i|] eqn:E; simpl.
  - apply find_Some in E as (d & Hi & <-). rewrite Hi. simpl.
    pose proof (lookup_lt_Some _ _ _ Hi) as Hlt.
    assert (mmap (mt_macros t) !! md_name d = Some d) as ->.
    { apply mmap_lookup; [done|]. split; [|done]. by apply (list_elem_of_lookup_2 _ i). }
    rewrite ?alter_insert_same. split; [|split]; [|unfold table_map; simpl|done].
    + split; cbn [bump_serial update_slot set_macros mt_macros mt_macroCapacity
                  mt_expansionStack mt_expansionCapacity].
      * rewrite alter_insert_same. rewrite (names_insert _ _ d) by (rewrite ?Hf; done). done.
      * by rewrite alter_insert_same, length_insert.
      * done.
    + change (list_to_map _) with
        (mmap (<[i := f (rename (macro_definition_reset d) (md_name d))]> (mt_macros t))).
      by rewrite (mmap_insert _ _ d) by (rewrite ?Hf; done).
  - pose proof (find_None _ _ E) as Hout.
    rewrite (proj2 (mmap_lookup_None _ name)) by done.
    assert (mt_macros (macro_table_grow t) = mt_macros t) as Hg.
    { unfold macro_table_grow. by case_decide. }
    rewrite ?Hg, ?alter_snoc. split; [|split]; [|unfold table_map; simpl|done].
    + split; cbn [bump_serial update_slot set_macros mt_macros mt_macroCapacity
                  mt_expansionStack mt_expansionCapacity]; rewrite ?Hg, ?alter_snoc.
      * rewrite fmap_app, (Permutation_app_comm (md_name <$> mt_macros t)).
        constructor; [|done]. by rewrite Hf.
      * rewrite length_app. simpl. unfold macro_table_grow. repeat case_decide; simpl; lia.
      * unfold macro_table_grow. by case_decide.
    + change (list_to_map _) with (mmap (mt_macros t ++ [f (rename zero_definition name)])).
      rewrite (mmap_snoc _ (f _)) by (rewrite ?Hf; done). by rewrite Hf.
Qed.

(** ** Commands and their abstract meaning. *)

Inductive TableOp : Type :=
  | OpDefineObject (name : string) (body : list Token) (range : SourceRange)
  | OpDefineFunction (name : string) (params : list string) (variadic hasVaOpt : bool)
      (body : list Token) (range : SourceRange)
  | OpUndef (name : string).

Definition run_op (t : MacroTable) (op : TableOp) : MacroTable :=
  match op with
  | OpDefineObject name body range => macro_table_define_object t name body range
  | OpDefineFunction name params v o body range =>
      macro_table_define_function t name params v o body range
  | OpUndef name => (macro_table_undef t name).2
  end.

Definition spec_op (m : gmap string MacroDefinition) (op : TableOp)
    : gmap string MacroDefinition :=
  match op with
  | OpDefineObject name body range =>
      <[name := mkMacroDefinition name MACRO_OBJECT
          (match m !! name with
           | Some old => macro_params_destroy (md_params old)
           | None => mkMacroParamList [] false false
           end) body range]> m
  | OpDefineFunction name params v o body range =>
      <[name := function_definition name params v o body range]> m
  | OpUndef name => delete name m
  end.

Lemma params_copy_eq (dest : MacroParamList) (names : list string) (v o : bool) :
  macro_params_copy dest names v o = mkMacroParamList names v o.
Proof. by destruct names. Qed.

Lemma params_destroy_idem (p : MacroParamList) :
  macro_params_destroy (macro_params_destroy p) = macro_params_destroy p.
Proof. destruct p as [[|n ns] v o]; done. Qed.

Lemma fresh_slot_params (t : MacroTable) (name : string) :
  md_params (fresh_slot t name) =
  match table_map t !! name with
  | Some old => macro_params_destroy (md_params old)
  | None => mkMacroParamList [] false false
  end.
Proof. unfold fresh_slot. by destruct (table_map t !! name). Qed.

Lemma fresh_slot_name (t : MacroTable) (name : string) : md_name (fresh_slot t name) = name.
Proof. done. Qed.

Lemma undef_step (t : MacroTable) (name : string) :
  table_ok t ->
  table_ok (macro_table_undef t name).2 /\
  table_map (macro_table_undef t name).2 = delete name (table_map t) /\
  ((macro_table_undef t name).1 = true <-> is_Some (table_map t !! name)).
Proof.
  intros Hok. pose proof Hok as [Hnd Hcap Hexp]. unfold macro_table_undef.
  change (table_map ?t) with (mmap (mt_macros t)).
  destruct (macro_table_find_mut t name) as [i|] eqn:E; cbn [fst snd].
  - apply find_Some in E as (d & Hi & <-).
    pose proof (lookup_lt_Some _ _ _ Hi) as Hlt.
    destruct (mmap_swap_remove _ _ _ Hnd Hi) as [Hnd' Hm].
    split; [|split; [exact Hm|]].
    + split; [done| |done]. cbn [bump_serial set_macros mt_macros mt_macroCapacity].
      rewrite length_swap_remove by done. lia.
    + split; [|done]. intros _. exists d. apply mmap_lookup; [done|].
      split; [by apply (list_elem_of_lookup_2 _ i)|done].
  - apply find_None in E. pose proof E as E'. apply mmap_lookup_None in E'.
    split; [done|]. rewrite E', delete_id by done. split; [done|].
    split; [done|]. by intros [? ?].
Qed.

Lemma run_op_step (t : MacroTable) (op : TableOp) :
  table_ok t -> table_ok (run_op t op) /\ table_map (run_op t op) = spec_op (table_map t) op.
Proof.
  intros Hok. destruct op as [name body r|name ps v o body r|name]; cbn [run_op spec_op].
  - unfold macro_table_define_object. destruct (macro_table_upsert t name) as [t1 i] eqn:E.
    pose proof (define_slot t name (fun def => mkMacroDefinition (md_name def) MACRO_OBJECT
      (md_params def) (macro_body_copy body) r) Hok (fun _ => eq_refl)) as (H1 & H2 & _).
    rewrite E in H1, H2. cbn [fst snd] in H1, H2. split; [exact H1|].
    rewrite H2, fresh_slot_params. done.
  - unfold macro_table_define_function. destruct (macro_table_upsert t name) as [t1 i] eqn:E.
    pose proof (define_slot t name (fun def => mkMacroDefinition (md_name def) MACRO_FUNCTION
      (macro_params_copy (md_params def) ps v o) (macro_body_copy body) r) Hok
      (fun _ => eq_refl)) as (H1 & H2 & _).
    rewrite E in H1, H2. cbn [fst snd] in H1, H2. split; [exact H1|].
    rewrite H2, params_copy_eq. done.
  - destruct (undef_step t name Hok) as (H1 & H2 & _). done.
Qed.

(** Defining and undefining leave the expansion stack alone. *)
Lemma run_op_frames (t : MacroTable) (op : TableOp) : mt_expansionStack (run_op t op) = mt_expansionStack t.
Proof.
  destruct op; simpl; unfold macro_table_define_object, macro_table_define_function, macro_table_undef,
    macro_table_upsert, update_slot, macro_table_grow; by repeat case_match; simplify_eq/=.
Qed.

Lemma create_ok : table_ok macro_table_create.
Proof. split; simpl; [constructor|lia|lia]. Qed.

#[export] Hint Resolve create_ok : fisics.

(** C1: the table refines a finite map.  After any sequence of [#define]s and
    [#undef]s starting from [macro_table_create], the array holds one definition per
    name, fits its capacity, and denotes the map the same commands build from the
    empty map (a redefinition replaces, [#undef] deletes, whatever slot moved). *)
Theorem macro_table_refines_map (ops : list TableOp) :
  table_ok (foldl run_op macro_table_create ops) /\
  table_map (foldl run_op macro_table_create ops) = foldl spec_op ∅ ops.
Proof.
  assert (forall t m, table_ok t -> table_map t = m ->
            table_ok (foldl run_op t ops) /\
            table_map (foldl run_op t ops) = foldl spec_op m ops) as H.
  { induction ops as [|op ops IH]; intros t m Hok Hm; [done|]. simpl.
    destruct (run_op_step t op Hok) as [Hok' Hm']. apply IH; [done|]. by rewrite Hm', Hm. }
  apply H; auto with fisics.
Qed.

(** C2: lookup agrees with the map.  [macro_table_lookup] returns a pointer exactly
    for the names the map has, and reading through it gives the map's definition. *)
Theorem macro_table_lookup_correct (t : MacroTable) (name : string) :
  table_ok t ->
  (macro_table_lookup t name ≫= deref t) = table_map t !! name /\
  (macro_table_lookup t name = None <-> table_map t !! name = None).
Proof.
  intros [Hnd _ _]. change (table_map t) with (mmap (mt_macros t)).
  assert (macro_table_lookup t name = mkMacroPtr (mt_base t) <$> macro_table_find_mut t name)
    as ->.
  { unfold macro_table_lookup, macro_table_find_mut. by rewrite <- option_fmap_compose. }
  destruct (macro_table_find_mut t name) as [i|] eqn:E.
  - apply find_Some in E as (d & Hi & <-).
    assert (mmap (mt_macros t) !! md_name d = Some d) as ->.
    { apply mmap_lookup; [done|]. split; [|done]. by apply (list_elem_of_lookup_2 _ i). }
    split; [|done]. simpl. unfold deref. simpl. by rewrite decide_True by done.
  - apply find_None, mmap_lookup_None in E. by rewrite E.
Qed.

Lemma macro_table_lookup_correct_witness :
  let t := macro_table_define_object macro_table_create "A" [] empty_source_range in
  table_ok t /\ (macro_table_lookup t "A" ≫= deref t) = table_map t !! "A".
Proof.
  intros t. assert (table_ok t) as Hok.
  { split; [apply NoDup_singleton | apply Nat.leb_le; reflexivity | apply Nat.leb_le; reflexivity]. }
  split; [exact Hok | apply (macro_table_lookup_correct t "A" Hok)].
Defined.

(** ** The expansion stack. *)

Definition expanding_names (t : MacroTable) : list string :=
  omap (frame_name t) (mt_expansionStack t).

Lemma is_expanding_spec (t : MacroTable) (name : string) :
  Forall (fun f => is_Some (deref t (mf_macro f))) (mt_expansionStack t) ->
  macro_table_is_expanding t name = Some (bool_decide (name ∈ expanding_names t)).
Proof.
  unfold macro_table_is_expanding, expanding_names.
  induction 1 as [|f frames [d Hd] _ IH]; [done|]. cbn [is_expanding_from].
  rewrite Hd. cbn [mbind option_bind].
  assert (omap (frame_name t) (f :: frames) = md_name d :: omap (frame_name t) frames) as Hcons.
  { simpl. unfold frame_name at 1. by rewrite Hd. }
  rewrite (bool_decide_ext _ (name = md_name d \/ name ∈ omap (frame_name t) frames))
    by by rewrite Hcons, elem_of_cons.
  destruct (decide (md_name d = name)) as [Hn|Hn].
  - f_equal. symmetry. apply bool_decide_eq_true_2. by left.
  - rewrite IH. f_equal. apply bool_decide_ext. split; [by right|]. intros [?|?]; [congruence|done].
Qed.

Lemma scan_frames_lt (st : list MacroExpansionFrame) (m : MacroPtr) (i j : nat) :
  scan_frames st m i = Some j -> (j < i)%nat.
Proof.
  induction i as [|i IH]; [done|]. simpl. intros H. repeat case_match; simplify_eq; try lia.
  all: apply IH in H; lia.
Qed.

Lemma pop_prefix (t : MacroTable) (m : option MacroPtr) :
  exists n, mt_expansionStack (macro_table_pop_expansion t m) = take n (mt_expansionStack t) /\
    (mt_expansionStack t <> [] -> n < length (mt_expansionStack t))%nat.
Proof.
  unfold macro_table_pop_expansion.
  destruct (list.last (mt_expansionStack t)) as [f|] eqn:E.
  - assert (mt_expansionStack t <> []) as Hne by (intros H; by rewrite H in E).
    destruct (mt_expansionStack t) as [|f0 st] eqn:Est; [done|].
    assert (exists n, take (length (f0 :: st) - 1) (f0 :: st) = take n (f0 :: st) /\
      (f0 :: st <> [] -> n < length (f0 :: st))%nat) as Hpop by (eexists; split; [done|simpl; lia]).
    repeat case_match; try exact Hpop.
    eexists; split; [done|]. intros _. by eapply scan_frames_lt.
  - apply last_None in E. exists 0%nat. rewrite E. done.
Qed.

Lemma push_expansion_cases (t : MacroTable) (p : MacroPtr) (def : MacroDefinition)
    (cs er : SourceRange) :
  expansion_ok t -> deref t p = Some def ->
  exists b t', macro_table_push_expansion t p cs er = Some (b, t') /\
    mt_macros t' = mt_macros t /\ mt_base t' = mt_base t /\
    mt_expansionLimit t' = mt_expansionLimit t /\
    (if (b : bool)
    then (md_name def ∉ expanding_names t) /\
         (mt_expansionLimit t = 0 \/ length (mt_expansionStack t) < mt_expansionLimit t)%nat /\
         mt_expansionStack t' = mt_expansionStack t ++ [mkMacroExpansionFrame p cs er]
    else mt_expansionStack t' = mt_expansionStack t /\
         (mt_lastError t' = MT_ERR_DEPTH /\
            (0 < mt_expansionLimit t <= length (mt_expansionStack t))%nat \/
          mt_lastError t' = MT_ERR_RECURSION /\ md_name def ∈ expanding_names t /\
            ~ (0 < mt_expansionLimit t <= length (mt_expansionStack t))%nat)).
Proof.
  intros [Hlive Hnd Hlim] Hp. unfold macro_table_push_expansion. case_decide as Hd.
  - do 2 eexists. split; [done|]. simpl. split_and!; [done..|]. left. done.
  - rewrite Hp. cbn [mbind option_bind]. rewrite is_expanding_spec by done.
    cbn [mbind option_bind]. case_bool_decide as Hin.
    + do 2 eexists. split; [done|]. simpl. split_and!; [done..|]. right. split_and!; [done..|lia].
    + do 2 eexists. split; [done|]. unfold macro_expansion_grow.
      case_decide; simpl; split_and!; try done; lia.
Qed.

Lemma push_expansion_capacity (t : MacroTable) (p : MacroPtr) (cs er : SourceRange) (b : bool) (t' : MacroTable) :
  macro_table_push_expansion t p cs er = Some (b, t') -> mt_macroCapacity t' = mt_macroCapacity t.
Proof.
  unfold macro_table_push_expansion, macro_expansion_grow. intros H. case_decide; [by simplify_eq|].
  destruct (deref t p) as [def|]; [|done]. cbn [mbind option_bind] in H.
  destruct (macro_table_is_expanding t _) as [[]|]; [..|done]; cbn [mbind option_bind] in H; simplify_eq; [done|].
  by case_decide.
Qed.

(** A push keeps the discipline, whether it succeeds or not. *)
Lemma push_expansion_keeps (t : MacroTable) (p : MacroPtr) (def : MacroDefinition)
    (cs er : SourceRange) (b : bool) (t' : MacroTable) :
  expansion_ok t -> deref t p = Some def ->
  macro_table_push_expansion t p cs er = Some (b, t') -> expansion_ok t'.
Proof.
  intros Hok Hp H. destruct (push_expansion_cases t p def cs er Hok Hp)
    as (b' & t'' & Hpush & Hm & Hb & Hl & Hcase). rewrite Hpush in H. simplify_eq.
  destruct Hok as [Hlive Hnd Hlim].
  assert (forall q, deref t' q = deref t q) as Hderef by (intros q; unfold deref; by rewrite Hm, Hb).
  assert (omap (frame_name t') (mt_expansionStack t) = omap (frame_name t) (mt_expansionStack t)) as Hfn.
  { apply list_omap_ext, Forall_Forall2_diag, Forall_true. intros f. unfold frame_name. by rewrite Hderef. }
  assert (Forall (fun f => is_Some (deref t' (mf_macro f))) (mt_expansionStack t)) as Hlive'.
  { eapply Forall_impl; [exact Hlive|]. intros f. by rewrite Hderef. }
  destruct b.
  - destruct Hcase as (Hin & Hroom & Hst). split; rewrite Hst.
    + apply Forall_app. split; [done|]. apply Forall_singleton. rewrite Hderef. by exists def.
    + rewrite omap_app, Hfn. simpl. unfold frame_name at 2. rewrite Hderef. simpl. rewrite Hp. simpl.
      apply NoDup_app. split; [done|]. split; [|apply NoDup_singleton].
      intros x Hx ->%list_elem_of_singleton. done.
    + rewrite Hl, length_app. simpl. lia.
  - destruct Hcase as (Hst & Herr). split; rewrite ?Hst, ?Hl, ?Hfn; done.
Qed.

(** C3: the recursion and depth guard.  On a table whose frames are all live and name
    distinct macros, pushing a live macro is defined and is refused exactly when the
    depth limit is reached ([MT_ERR_DEPTH]) or the macro is already expanding
    ([MT_ERR_RECURSION]); the stack discipline holds afterwards in every case. *)
Theorem push_expansion_guarded (t : MacroTable) (p : MacroPtr) (def : MacroDefinition)
    (cs er : SourceRange) :
  expansion_ok t -> deref t p = Some def ->
  exists b t', macro_table_push_expansion t p cs er = Some (b, t') /\ expansion_ok t' /\
    (b = true <->
      (mt_expansionLimit t = 0 \/ length (mt_expansionStack t) < mt_expansionLimit t)%nat /\
      md_name def ∉ expanding_names t) /\
    (b = false -> mt_expansionStack t' = mt_expansionStack t /\
      mt_lastError t' = if decide (0 < mt_expansionLimit t <= length (mt_expansionStack t))%nat
                        then MT_ERR_DEPTH else MT_ERR_RECURSION).
Proof.
  intros Hok Hp. destruct (push_expansion_cases t p def cs er Hok Hp)
    as (b & t' & Hpush & Hm & Hb & Hl & Hcase).
  exists b, t'. split; [done|]. split; [by eapply push_expansion_keeps|].
  destruct b; [destruct Hcase as (Hin & Hroom & _); by repeat split|]. destruct Hcase as (Hst & Herr).
  split; [split; [done|] | intros _; split; [done|]].
  - intros [Hroom Hin]. destruct Herr as [[_ ?]|(_ & ? & _)]; [lia|done].
  - destruct Herr as [[-> ?]|(-> & _ & ?)]; [by rewrite decide_True|by rewrite decide_False].
Qed.

(** A two-macro table with one frame open, used by the witnesses. *)
Definition sample_table : MacroTable :=
  macro_table_define_object
    (macro_table_define_object macro_table_create "A" [] empty_source_range)
    "B" [] empty_source_range.

Lemma push_expansion_guarded_witness :
  expansion_ok sample_table /\
  exists b t', macro_table_push_expansion sample_table (mkMacroPtr 1 1)
      empty_source_range empty_source_range = Some (b, t') /\ expansion_ok t'.
Proof.
  assert (expansion_ok sample_table) as Hok.
  { split; [constructor | constructor | right; apply Nat.leb_le; reflexivity]. }
  split; [exact Hok|].
  destruct (push_expansion_guarded sample_table (mkMacroPtr 1 1)
    (mkMacroDefinition "B" MACRO_OBJECT (mkMacroParamList [] false false) []
       empty_source_range) empty_source_range empty_source_range Hok eq_refl)
    as (b & t' & H1 & H2 & _).
  exists b, t'. split; [exact H1 | exact H2].
Defined.

(** Pop undoes push.  After a push that succeeded, popping that macro restores the
    stack exactly, and any pop of a non-empty stack keeps a strict prefix of it. *)
Theorem pop_undoes_push (t : MacroTable) (p : MacroPtr) (cs er : SourceRange) (t' : MacroTable) :
  macro_table_push_expansion t p cs er = Some (true, t') ->
  mt_expansionStack (macro_table_pop_expansion t' (Some p)) = mt_expansionStack t /\
  forall m, exists n, (n < length (mt_expansionStack t'))%nat /\
    mt_expansionStack (macro_table_pop_expansion t' m) = take n (mt_expansionStack t').
Proof.
  intros H.
  assert (mt_expansionStack t' = mt_expansionStack t ++ [mkMacroExpansionFrame p cs er]) as Hst.
  { unfold macro_table_push_expansion in H. case_decide; [done|].
    destruct (deref t p) as [def|]; [|done]. cbn [mbind option_bind] in H.
    destruct (macro_table_is_expanding t (md_name def)) as [[]|]; [done| |done].
    cbn [mbind option_bind] in H. simplify_eq. simpl.
    unfold macro_expansion_grow. by case_decide. }
  split.
  - unfold macro_table_pop_expansion. rewrite Hst, last_snoc, decide_True by done.
    cbn [set_expansion mt_expansionStack]. rewrite length_app. simpl.
    by rewrite Nat.add_sub, take_app_length.
  - intros m. destruct (pop_prefix t' m) as (n & Hn & Hlt). exists n. split; [|done].
    apply Hlt. rewrite Hst. by destruct (mt_expansionStack t).
Qed.

Lemma pop_undoes_push_witness :
  exists t', macro_table_push_expansion sample_table (mkMacroPtr 1 0) empty_source_range
      empty_source_range = Some (true, t') /\
    mt_expansionStack (macro_table_pop_expansion t' (Some (mkMacroPtr 1 0))) = [].
Proof.
  eexists. split; [vm_compute; reflexivity|].
  exact (proj1 (pop_undoes_push sample_table (mkMacroPtr 1 0) empty_source_range
    empty_source_range _ eq_refl)).
Defined.

(** ** Cloning *)

Lemma clone_one_fresh (c : MacroTable) (d : MacroDefinition) :
  table_ok c -> md_name d ∉ md_name <$> mt_macros c ->
  table_ok (clone_one c d) /\ mt_macros (clone_one c d) = mt_macros c ++ [clone_definition d].
Proof.
  intros Hok Hin. assert (macro_table_find_mut c (md_name d) = None) as Hfind.
  { destruct (macro_table_find_mut c (md_name d)) as [i|] eqn:E; [|done].
    apply find_Some in E as (d' & Hi & Hn). exfalso. apply Hin. rewrite <- Hn.
    apply list_elem_of_fmap. exists d'. split; [done|]. by apply (list_elem_of_lookup_2 _ i). }
  assert (fresh_slot c (md_name d) = rename zero_definition (md_name d)) as Hfresh.
  { unfold fresh_slot. change (table_map c) with (mmap (mt_macros c)).
    by rewrite (proj2 (mmap_lookup_None (mt_macros c) (md_name d)) Hin). }
  unfold clone_one, clone_definition. destruct (md_kind d) eqn:Ek.
  - unfold macro_table_define_object.
    destruct (macro_table_upsert c (md_name d)) as [t1 i] eqn:E.
    pose proof (define_slot c (md_name d) (fun def => mkMacroDefinition (md_name def)
      MACRO_OBJECT (md_params def) (macro_body_copy (md_body d)) (md_definitionRange d))
      Hok (fun _ => eq_refl)) as (H1 & _ & H3).
    rewrite E, Hfind, Hfresh in *. split; [exact H1|exact H3].
  - unfold macro_table_define_function.
    destruct (macro_table_upsert c (md_name d)) as [t1 i] eqn:E.
    pose proof (define_slot c (md_name d) (fun def => mkMacroDefinition (md_name def)
      MACRO_FUNCTION (macro_params_copy (md_params def) (mp_names (md_params d))
        (mp_variadic (md_params d)) (mp_hasVaOpt (md_params d)))
      (macro_body_copy (md_body d)) (md_definitionRange d))
      Hok (fun _ => eq_refl)) as (H1 & _ & H3).
    rewrite E, Hfind, Hfresh in *. split; [exact H1|]. etransitivity; [exact H3|].
    rewrite params_copy_eq. destruct d as [? ? [] ? ?]. simpl in *. by subst.
Qed.

(** C5: a clone has the same definitions in the same order, except that an object-like
    macro's leftover parameter list is dropped; it starts with an empty expansion stack
    and the default limit of 1000, whatever the source table's were. *)
Theorem macro_table_clone_correct (src : MacroTable) :
  table_ok src ->
  table_ok (macro_table_clone src) /\
  mt_macros (macro_table_clone src) = clone_definition <$> mt_macros src.
Proof.
  intros [Hnd _ _]. unfold macro_table_clone.
  assert (forall ms c, table_ok c -> NoDup ((md_name <$> mt_macros c) ++ (md_name <$> ms)) ->
    table_ok (foldl clone_one c ms) /\
    mt_macros (foldl clone_one c ms) = mt_macros c ++ (clone_definition <$> ms)) as H.
  { induction ms as [|d ms IH]; intros c Hok Hall.
    - split; [done|]. simpl. by rewrite app_nil_r.
    - rewrite fmap_cons in *. apply NoDup_app in Hall as (Hc & Hdis & Hms).
      apply NoDup_cons in Hms as [Hd Hms].
      assert (md_name d ∉ md_name <$> mt_macros c) as Hin.
      { intros Hx. apply (Hdis _ Hx). apply list_elem_of_here. }
      destruct (clone_one_fresh c d Hok Hin) as [Hok' Hm]. cbn [foldl].
      assert (md_name (clone_definition d) = md_name d) as Hnm
        by (unfold clone_definition; by destruct (md_kind d)).
      destruct (IH _ Hok') as [IH1 IH2].
      { rewrite Hm, fmap_app. cbn [fmap list_fmap]. rewrite Hnm, <- app_assoc. simpl.
        apply NoDup_app. split; [done|]. split.
        - intros x Hx [->|Hx']%elem_of_cons; [done|]. apply (Hdis _ Hx). by right.
        - by constructor. }
      split; [done|]. by rewrite IH2, Hm, <- app_assoc. }
  apply (H (mt_macros src) macro_table_create create_ok Hnd).
Qed.

Lemma macro_table_clone_correct_witness :
  table_ok sample_table /\
  mt_macros (macro_table_clone sample_table) = clone_definition <$> mt_macros sample_table.
Proof.
  assert (table_ok sample_table) as Hok.
  { split; [|apply Nat.leb_le; reflexivity|apply Nat.leb_le; reflexivity].
    apply (bool_decide_eq_true_1 (NoDup (md_name <$> mt_macros sample_table))). reflexivity. }
  split; [exact Hok | exact (proj2 (macro_table_clone_correct sample_table Hok))].
Defined.

(** The pointer a frame keeps does not survive the table: a [#define] that grows the
    array leaves the frame of an open expansion dangling. *)
Example define_while_expanding_dangles :
  let full := foldl (fun t n => macro_table_define_object t n [] empty_source_range)
    macro_table_create ["A"; "B"; "C"; "D"; "E"; "F"; "G"; "H"]%string in
  exists t, macro_table_push_expansion full (mkMacroPtr 1 0) empty_source_range
      empty_source_range = Some (true, t) /\
    macro_table_is_expanding t "A" = Some true /\
    macro_table_is_expanding
      (macro_table_define_object t "I" [] empty_source_range) "A" = None.
Proof. eexists. split; [vm_compute; reflexivity|]. split; reflexivity. Qed.

(** Redefining a variadic function-like macro without named parameters as an
    object-like macro keeps its variadic flag: the reset returns before clearing it. *)
Example redefinition_keeps_variadic :
  let t := macro_table_define_function macro_table_create "F" [] true true [] empty_source_range in
  (fun d => (md_kind d, mp_variadic (md_params d))) <$>
    table_map (macro_table_define_object t "F" [] empty_source_range) !! "F"%string
  = Some (MACRO_OBJECT, true).
Proof. reflexivity. Qed.
