(* ===== verification/MacroExpander.v ===== *)
(** * Macro expansion (src/Preprocessor/macro_expander.c, macro_expander_support.c).

    [MacroExpander] is the C struct with the table it points to; [PPTokenBuffer] and
    [PPArgumentList] are lists (their growth has no effect on the results).  Operations run
    in the monad [M]: the state, a C [false] ([Some (None, _)]: the tokens written so far are
    released by every caller), and no result at all when the recursion's fuel ends or a dead
    [MacroDefinition] pointer is read.  [NULL] arguments and allocation failure are not
    modelled; undefined [int] arithmetic is recorded in [me_undefined]. *)
From S2P Require Import Prelude StateError CType Tokens LexerSource LexerChars Lexer MacroTable.

Definition PPTokenBuffer : Type := list Token.

(** Pointers to the preprocessor's fields: [NULL] is [None]. *)
Record PPBuiltinState := mkPPBuiltinState {
  bs_baseFile : option string;
  bs_dateString : option string;
  bs_timeString : option string;
  bs_counter : option Z;
  bs_logicalFile : option (option string);
  bs_lineOffset : option Z;
  bs_lineRemapActive : option bool
}.

Inductive MacroExpandError : Set :=
  | ME_ERR_NONE | ME_ERR_MACRO_ARG_COUNT | ME_ERR_UNSUPPORTED_GNU_COMMA_VA_ARGS.

(** What [lastError.macro] points to: a slot of the table, or the local copy of a definition
    that the text of [__VA_OPT__] is substituted with, dead once that call returns. *)
Inductive ErrorMacro : Set := TableMacro (p : MacroPtr) | LocalCopy.

Record MacroExpandErrorInfo := mkMacroExpandErrorInfo {
  mei_kind : MacroExpandError;
  mei_macro : option ErrorMacro;
  mei_callSite : SourceRange;
  mei_expectedArgs : nat;
  mei_providedArgs : nat;
  mei_variadic : bool
}.

Record MacroExpander := mkMacroExpander {
  me_table : MacroTable;
  me_builtins : PPBuiltinState;
  me_lastError : MacroExpandErrorInfo;
  me_preserveDefinedOperands : bool;
  me_undefined : list UndefinedOp
}.

Record MacroArg := mkMacroArg { ma_raw : PPTokenBuffer; ma_expanded : PPTokenBuffer }.

Record MacroArgPack := mkMacroArgPack {
  pack_positionals : list MacroArg;
  pack_variadics : list MacroArg
}.

(** ** The state and its operations *)

Definition empty_range : SourceRange := empty_source_range.

Definition no_error : MacroExpandErrorInfo :=
  mkMacroExpandErrorInfo ME_ERR_NONE None empty_range 0 0 false.

Definition set_error (me : MacroExpander) (e : MacroExpandErrorInfo) : MacroExpander :=
  mkMacroExpander (me_table me) (me_builtins me) e (me_preserveDefinedOperands me) (me_undefined me).

Definition set_table (me : MacroExpander) (t : MacroTable) : MacroExpander :=
  mkMacroExpander t (me_builtins me) (me_lastError me) (me_preserveDefinedOperands me) (me_undefined me).

Definition add_undefined (me : MacroExpander) (ops : list UndefinedOp) : MacroExpander :=
  mkMacroExpander (me_table me) (me_builtins me) (me_lastError me) (me_preserveDefinedOperands me)
    (ops ++ me_undefined me).

Definition macro_expander_clear_error (me : MacroExpander) : MacroExpander := set_error me no_error.

Definition macro_expander_set_arg_count_error (me : MacroExpander) (p : MacroPtr) (def : MacroDefinition)
    (callSite : SourceRange) (expectedArgs providedArgs : nat) : MacroExpander :=
  set_error me (mkMacroExpandErrorInfo ME_ERR_MACRO_ARG_COUNT (Some (TableMacro p)) callSite expectedArgs providedArgs
    (mp_variadic (md_params def))).

Definition macro_expander_set_unsupported_gnu_comma_va_args_error (me : MacroExpander) (p : ErrorMacro)
    (def : MacroDefinition) (callSite : SourceRange) : MacroExpander :=
  set_error me (mkMacroExpandErrorInfo ME_ERR_UNSUPPORTED_GNU_COMMA_VA_ARGS (Some p) callSite 0 0
    (mp_variadic (md_params def))).

Definition macro_expander_init (table : MacroTable) : MacroExpander :=
  mkMacroExpander table (mkPPBuiltinState None None None None None None None) no_error false [].

Definition macro_expander_reset (me : MacroExpander) : MacroExpander := macro_expander_clear_error me.

Definition macro_expander_set_builtins (me : MacroExpander) (state : PPBuiltinState) : MacroExpander :=
  mkMacroExpander (me_table me) state (me_lastError me) (me_preserveDefinedOperands me) (me_undefined me).

Definition macro_expander_set_preserve_defined_operands (me : MacroExpander) (enabled : bool) : MacroExpander :=
  mkMacroExpander (me_table me) (me_builtins me) (me_lastError me) enabled (me_undefined me).

Definition macro_expander_last_error (me : MacroExpander) : MacroExpandErrorInfo := me_lastError me.

Definition M (A : Type) : Type := ST MacroExpander A.

(** ** Tokens *)

Definition range_is_initialized (range : SourceRange) : bool :=
  bool_decide (is_Some (loc_file (range_start range))) ||
  negb (loc_line (range_start range) =? 0) || negb (loc_column (range_start range) =? 0).

Definition token_clone (tok : Token) : Token := tok.

(** An identifier token spelled [name]. *)
Definition is_named (name : string) (tok : Token) : bool :=
  tt_eqb (tok_type tok) TOKEN_IDENTIFIER && bool_decide (tok_value tok = Some name).

Definition has_type (ty : TokenType) (tok : option Token) : bool :=
  match tok with Some tok => tt_eqb (tok_type tok) ty | None => false end.

(** The token before index [i] by [k]. *)
Definition before (tokens : list Token) (i k : nat) : option Token :=
  if decide (k <= i)%nat then tokens !! (i - k)%nat else None.

Definition token_is_defined_operand_context (tokens : list Token) (index : nat) : bool :=
  match before tokens index 1 with
  | Some tok =>
      is_named "defined" tok ||
      (has_type TOKEN_LPAREN (Some tok) &&
       match before tokens index 2 with Some tok => is_named "defined" tok | None => false end)
  | None => false
  end.

Definition token_text (tok : Token) : string := default ""%string (tok_value tok).

Definition make_simple_token (type : TokenType) (text : string) (origin : SourceRange) : Token :=
  mkToken type (Some text) (loc_line (range_start origin)) (loc_line (range_start origin))
    (loc_column (range_start origin)) origin empty_range empty_range.

(** [emit_builtin_literal]: the token appended. *)
Definition emit_builtin_literal (tok : Token) (type : TokenType) (text : string) : Token :=
  mkToken type (Some text) (tok_line tok) (tok_spellingLine tok) (tok_spellingColumn tok)
    (tok_location tok) (tok_location tok) empty_range.

Definition token_builtin_spelling_line (tok : Token) (loc : SourceRange) : Z :=
  if range_is_initialized (tok_macroCallSite tok) then loc_line (range_start loc)
  else if 0 <? tok_spellingLine tok then tok_spellingLine tok
  else loc_line (range_start loc).

(** Where a token comes from: the macro call's site if it has one. *)
Definition call_range (tok : Token) : SourceRange :=
  if range_is_initialized (tok_macroCallSite tok) then tok_macroCallSite tok else tok_location tok.

Definition set_counter (b : PPBuiltinState) (n : Z) : PPBuiltinState :=
  mkPPBuiltinState (bs_baseFile b) (bs_dateString b) (bs_timeString b) (Some n) (bs_logicalFile b)
    (bs_lineOffset b) (bs_lineRemapActive b).

(** The value an [int] operation gives, the overflow recorded. *)
Definition int_op (me : MacroExpander) (z : Z) : Z * MacroExpander :=
  let '(v, o) := int_result z in (v, add_undefined me o).

(** The literal a builtin name is replaced by; [None] for other names. *)
Definition handle_builtin_identifier (me : MacroExpander) (tok : Token) : option (Token * MacroExpander) :=
  let b := me_builtins me in
  let loc := call_range tok in
  if negb (tt_eqb (tok_type tok) TOKEN_IDENTIFIER) then None
  else name ← tok_value tok;
  if bool_decide (name = "__FILE__"%string) then
    let file := match loc_file (range_start loc) with Some f => Some f | None => bs_baseFile b end in
    let file := match bs_lineRemapActive b, bs_logicalFile b with
                | Some true, Some (Some f) => Some f
                | _, _ => file
                end in
    Some (emit_builtin_literal tok TOKEN_STRING (default ""%string file), me)
  else if bool_decide (name = "__LINE__"%string) then
    let line := token_builtin_spelling_line tok loc in
    let '(line, me) := match bs_lineRemapActive b, bs_lineOffset b with
                       | Some true, Some offset =>
                           let '(line, me) := int_op me (line + offset) in
                           (if line <? 1 then 1 else line, me)
                       | _, _ => (line, me)
                       end in
    Some (emit_builtin_literal tok TOKEN_NUMBER (int_text line), me)
  else if bool_decide (name = "__BASE_FILE__"%string) then
    Some (emit_builtin_literal tok TOKEN_STRING (default ""%string (bs_baseFile b)), me)
  else if bool_decide (name = "__COUNTER__"%string) then
    match bs_counter b with
    | Some value =>
        let '(next, me) := int_op me (value + 1) in
        Some (emit_builtin_literal tok TOKEN_NUMBER (int_text value),
              macro_expander_set_builtins me (set_counter b next))
    | None => Some (emit_builtin_literal tok TOKEN_NUMBER (int_text 0), me)
    end
  else if bool_decide (name = "__DATE__"%string) then
    Some (emit_builtin_literal tok TOKEN_STRING (default ""%string (bs_dateString b)), me)
  else if bool_decide (name = "__TIME__"%string) then
    Some (emit_builtin_literal tok TOKEN_STRING (default ""%string (bs_timeString b)), me)
  else None.

(** ** Substitution *)

Definition macro_param_index (def : MacroDefinition) (name : option string) : option nat :=
  name ← name;
  fst <$> list_find (fun p => p = name) (mp_names (md_params def)).

Definition append_argument_tokens (dest arg : PPTokenBuffer) : PPTokenBuffer :=
  dest ++ map token_clone arg.

(** The arguments behind the named ones, with commas between them. *)
Definition append_variadic_tokens (dest : PPTokenBuffer) (pack : MacroArgPack) (useRaw : bool)
    (origin : SourceRange) : PPTokenBuffer :=
  snd (foldl (fun '(first, dest) arg =>
    let buf := if useRaw then ma_raw arg else ma_expanded arg in
    let dest := if (first : bool) then dest else dest ++ [make_simple_token TOKEN_COMMA "," origin] in
    (false, append_argument_tokens dest buf)) (true, dest) (pack_variadics pack)).

Definition needs_escape (c : ascii) : bool := (c =c BACKSLASH) || (c =c DQUOTE).

Definition escape_text (s : string) : list ascii :=
  list_ascii_of_string s ≫= fun c => if needs_escape c then [BACKSLASH; c] else [c].

(** The texts of the tokens, escaped, a space between any two. *)
Fixpoint stringified_text (raw : PPTokenBuffer) : list ascii :=
  match raw with
  | [] => []
  | [tok] => escape_text (token_text tok)
  | tok :: raw' => escape_text (token_text tok) ++ " "%char :: stringified_text raw'
  end.

Definition append_stringified_argument (dest raw : PPTokenBuffer) (origin : SourceRange) : PPTokenBuffer :=
  dest ++ [make_simple_token TOKEN_STRING (string_of_list_ascii (stringified_text raw)) origin].

Definition stringify_variadic_arguments (dest : PPTokenBuffer) (pack : MacroArgPack)
    (origin : SourceRange) : PPTokenBuffer :=
  let raw := foldl (fun raw arg =>
    let raw := match raw with [] => [] | _ => raw ++ [make_simple_token TOKEN_COMMA "," origin] end in
    append_argument_tokens raw (ma_raw arg)) [] (pack_variadics pack) in
  append_stringified_argument dest raw origin.

(** [relex_single_token]: the text read as one token, with the undefined operations the
    lexer executed; [None] if it is no token or more than one. *)
Definition relex_single_token (text : string) (origin : SourceRange)
    : option (option Token * list UndefinedOp) :=
  '(T, lx) ← initLexer (list_ascii_of_string text) (Some "<macro paste>"%string) false;
  '(first, lx) ← getNextToken T lx;
  if tt_eqb (tok_type first) TOKEN_EOF then Some (None, lx_undefined lx)
  else
    '(second, lx) ← getNextToken T lx;
    if negb (tt_eqb (tok_type second) TOKEN_EOF) then Some (None, lx_undefined lx)
    else Some (Some (mkToken (tok_type first) (tok_value first) (loc_line (range_start origin))
                       (loc_line (range_start origin)) (loc_column (range_start origin)) origin
                       empty_range empty_range), lx_undefined lx).

Definition set_call_site (tok : Token) (range : SourceRange) : Token :=
  mkToken (tok_type tok) (tok_value tok) (tok_line tok) (tok_spellingLine tok) (tok_spellingColumn tok)
    (tok_location tok) range (tok_macroDefinition tok).

Definition set_definition_range (tok : Token) (range : SourceRange) : Token :=
  mkToken (tok_type tok) (tok_value tok) (tok_line tok) (tok_spellingLine tok) (tok_spellingColumn tok)
    (tok_location tok) (tok_macroCallSite tok) range.

Definition is_paste (tok : Token) : bool := tt_eqb (tok_type tok) TOKEN_DOUBLE_HASH.

(** [left ## right] as one token. *)
Definition paste_pair (left right : Token) (origin : SourceRange) : M Token :=
  let pasteOrigin := if range_is_initialized (tok_macroCallSite left) then tok_macroCallSite left
                     else if range_is_initialized (tok_macroCallSite right) then tok_macroCallSite right
                     else origin in
  let* '(relexed, o) := lift (relex_single_token (token_text left ++ token_text right) pasteOrigin) in
  let* _ := modify (fun me => add_undefined me o) in
  match relexed with
  | None => fail
  | Some tok => ret (set_call_site tok pasteOrigin)
  end.

(** [skip] tokens were consumed by the last paste. *)
Fixpoint paste_loop (tokens : PPTokenBuffer) (skip : nat) (pending : option Token) (result : PPTokenBuffer)
    (origin : SourceRange) : M PPTokenBuffer :=
  match tokens with
  | [] => ret (result ++ match pending with Some p => [p] | None => [] end)
  | tok :: rest =>
      match skip with
      | S skip' => paste_loop rest skip' pending result origin
      | O =>
          if is_paste tok then
            match pending with
            | None => paste_loop rest 0 None result origin
            | Some p =>
                let nextIndex := length (span is_paste rest).1 in
                match rest !! nextIndex with
                | None =>
                    paste_loop rest 0 (if tt_eqb (tok_type p) TOKEN_COMMA then None else Some p) result origin
                | Some rightTok =>
                    let* relexed := paste_pair p rightTok origin in
                    paste_loop rest (S nextIndex) (Some relexed) result origin
                end
            end
          else
            paste_loop rest 0 (Some (token_clone tok))
              (result ++ match pending with Some p => [p] | None => [] end) origin
      end
  end.

Definition apply_token_paste (buffer : PPTokenBuffer) (origin : SourceRange) : M PPTokenBuffer :=
  paste_loop buffer 0 None [] origin.

(** The index of the parenthesis that closes the one before [j], and the depth reached. *)
Fixpoint va_opt_close (body : list Token) (j : nat) (depth : Z) : nat * Z :=
  match body with
  | [] => (j, depth)
  | tok :: body' =>
      if tt_eqb (tok_type tok) TOKEN_LPAREN then va_opt_close body' (S j) (depth + 1)
      else if tt_eqb (tok_type tok) TOKEN_RPAREN then
        if depth - 1 =? 0 then (j, 0) else va_opt_close body' (S j) (depth - 1)
      else va_opt_close body' (S j) depth
  end.

Definition set_body (def : MacroDefinition) (body : list Token) : MacroDefinition :=
  mkMacroDefinition (md_name def) (md_kind def) (md_params def) body (md_definitionRange def).

Definition is_function (def : MacroDefinition) : bool :=
  match md_kind def with MACRO_FUNCTION => true | MACRO_OBJECT => false end.

(** Every token that has none gets the call site and the definition's range. *)
Definition mark_origin (def : MacroDefinition) (callSite : SourceRange) (tok : Token) : Token :=
  let tok := if range_is_initialized (tok_macroCallSite tok) then tok else set_call_site tok callSite in
  if range_is_initialized (tok_macroDefinition tok) then tok
  else set_definition_range tok (md_definitionRange def).

Definition nth_arg (args : MacroArgPack) (index : nat) : M MacroArg := lift (pack_positionals args !! index).

(** [#] at index [i]: the string it makes and nothing else, if an argument follows. *)
Definition stringify_at (def : MacroDefinition) (args : MacroArgPack) (callSite : SourceRange) (i : nat)
    (working : PPTokenBuffer) : option (M PPTokenBuffer) :=
  next ← md_body def !! S i;
  if negb (tt_eqb (tok_type next) TOKEN_IDENTIFIER) then None
  else match macro_param_index def (tok_value next) with
       | Some index =>
           Some (let* arg := nth_arg args index in
                 ret (append_stringified_argument working (ma_raw arg) callSite))
       | None =>
           if mp_variadic (md_params def) && is_named "__VA_ARGS__" next
           then Some (ret (stringify_variadic_arguments working args callSite))
           else None
       end.

(** [__VA_OPT__ (...)] at index [i]: where its text starts and where it is closed. *)
Definition va_opt_at (def : MacroDefinition) (i : nat) (tok : Token) : option (nat * nat) :=
  if mp_variadic (md_params def) && mp_hasVaOpt (md_params def) && is_named "__VA_OPT__" tok &&
     has_type TOKEN_LPAREN (md_body def !! S i)
  then
    let start := (i + 2)%nat in
    let '(j, depth) := va_opt_close (drop start (md_body def)) start 1 in
    if (depth =? 0) && bool_decide (start < j)%nat then Some (start, j) else None
  else None.

(** The body from index [i] on.  [ptr] is what [def] points to. *)
Fixpoint substitute_from (fuel : nat) (ptr : ErrorMacro) (def : MacroDefinition) (args : option MacroArgPack)
    (callSite : SourceRange) (i : nat) (working : PPTokenBuffer) : M PPTokenBuffer :=
  match fuel with
  | O => stuck
  | S fuel' =>
      let next := substitute_from fuel' ptr def args callSite in
      match md_body def !! i with
      | None =>
          let* pasted := apply_token_paste working callSite in
          ret (map (mark_origin def callSite) pasted)
      | Some tok =>
          let plain := next (S i) (working ++ [token_clone tok]) in
          match (if is_function def then args else None) with
          | None => plain
          | Some args' =>
              let hash := if tt_eqb (tok_type tok) TOKEN_HASH
                          then stringify_at def args' callSite i working else None in
              match hash with
              | Some m => let* working := m in next (i + 2)%nat working
              | None =>
                  if negb (tt_eqb (tok_type tok) TOKEN_IDENTIFIER) then plain
                  else
                    let leftPaste := has_type TOKEN_DOUBLE_HASH (before (md_body def) i 1) in
                    let rightPaste := has_type TOKEN_DOUBLE_HASH (md_body def !! S i) in
                    match va_opt_at def i tok with
                    | Some (start, j) =>
                        match pack_variadics args' with
                        | [] => next (S j) working
                        | _ :: _ =>
                            let inner := set_body def (take (j - start) (drop start (md_body def))) in
                            let* optOut := substitute_from fuel' LocalCopy inner args callSite 0 [] in
                            next (S j) (append_argument_tokens working optOut)
                        end
                    | None =>
                        match macro_param_index def (tok_value tok) with
                        | Some index =>
                            let* arg := nth_arg args' index in
                            let raw := leftPaste || rightPaste ||
                                       token_is_defined_operand_context (md_body def) i in
                            next (S i) (append_argument_tokens working
                                          (if raw then ma_raw arg else ma_expanded arg))
                        | None =>
                            if mp_variadic (md_params def) && is_named "__VA_ARGS__" tok then
                              if leftPaste && has_type TOKEN_COMMA (before (md_body def) i 2) then
                                let* _ := modify (fun me =>
                                  macro_expander_set_unsupported_gnu_comma_va_args_error me ptr def callSite) in
                                fail
                              else next (S i) (append_variadic_tokens working args' (leftPaste || rightPaste) callSite)
                            else plain
                        end
                    end
              end
          end
      end
  end.

Definition substitute_macro (ptr : MacroPtr) (def : MacroDefinition) (args : option MacroArgPack)
    (callSite : SourceRange) : M PPTokenBuffer :=
  substitute_from (S (length (md_body def))) (TableMacro ptr) def args callSite 0 [].

(** ** Arguments *)

(** The tokens from [idx] on up to the closing parenthesis: where it ends, the unfinished
    argument and the finished ones. *)
Fixpoint parse_arguments (tokens : list Token) (idx : nat) (depth : Z) (current : PPTokenBuffer)
    (outArgs : list PPTokenBuffer) : option (nat * PPTokenBuffer * list PPTokenBuffer) :=
  match tokens with
  | [] => None
  | tok :: rest =>
      if tt_eqb (tok_type tok) TOKEN_RPAREN && (depth =? 0) then Some (S idx, current, outArgs)
      else if tt_eqb (tok_type tok) TOKEN_COMMA && (depth =? 0)
      then parse_arguments rest (S idx) depth [] (outArgs ++ [current])
      else
        let depth := if tt_eqb (tok_type tok) TOKEN_LPAREN then depth + 1
                     else if tt_eqb (tok_type tok) TOKEN_RPAREN then depth - 1 else depth in
        parse_arguments rest (S idx) depth (current ++ [token_clone tok]) outArgs
  end.

(** The arguments and the cursor behind the closing parenthesis. *)
Definition parse_macro_argument_tokens (input : list Token) (cursor : nat) (def : MacroDefinition)
    : option (list PPTokenBuffer * nat) :=
  '(idx, current, outArgs) ← parse_arguments (drop cursor input) cursor 0 [] [];
  let needFinal := bool_decide (current <> []) || bool_decide (outArgs <> []) ||
                   bool_decide (mp_names (md_params def) <> []) || mp_variadic (md_params def) in
  Some (if needFinal then outArgs ++ [current] else outArgs, idx).

Definition raw_arg (raw : PPTokenBuffer) : MacroArg := mkMacroArg raw [].

Definition build_macro_arg_pack (ptr : MacroPtr) (def : MacroDefinition) (rawArgs : list PPTokenBuffer)
    (callSite : SourceRange) : M MacroArgPack :=
  let expected := length (mp_names (md_params def)) in
  let singleEmptyArg := match rawArgs with [[]] => true | _ => false end in
  let provided := if bool_decide (0 < expected)%nat && singleEmptyArg then 0%nat else length rawArgs in
  if (if mp_variadic (md_params def) then bool_decide (provided < expected)%nat
      else negb (bool_decide (provided = expected)))
  then
    let* _ := modify (fun me => macro_expander_set_arg_count_error me ptr def callSite expected provided) in
    fail
  else if bool_decide (length rawArgs < expected)%nat then fail
  else ret (mkMacroArgPack (map raw_arg (take expected rawArgs))
              (map raw_arg (take (provided - expected) (drop expected rawArgs)))).

Section Expand.
(** The recursive call. *)
Context (expand : list Token -> M PPTokenBuffer).

Definition expand_macro_argument (input : PPTokenBuffer) : M PPTokenBuffer :=
  match input with [] => ret [] | _ :: _ => expand input end.

Fixpoint expand_arguments (args : list MacroArg) : M (list MacroArg) :=
  match args with
  | [] => ret []
  | arg :: args' =>
      let* expanded := expand_macro_argument (ma_raw arg) in
      let* rest := expand_arguments args' in
      ret (mkMacroArg (ma_raw arg) expanded :: rest)
  end.

Definition expand_macro_arguments (pack : MacroArgPack) : M MacroArgPack :=
  let* positionals := expand_arguments (pack_positionals pack) in
  let* variadics := expand_arguments (pack_variadics pack) in
  ret (mkMacroArgPack positionals variadics).

Definition is_expanding (name : string) : M bool :=
  let* me := get in lift (macro_table_is_expanding (me_table me) name).

(** The macro of a name, with its definition. *)
Definition lookup_macro (name : option string) : M (option (MacroPtr * MacroDefinition)) :=
  let* me := get in
  match name with
  | None => ret None
  | Some name =>
      match macro_table_lookup (me_table me) name with
      | None => ret None
      | Some p => let* def := lift (deref (me_table me) p) in ret (Some (p, def))
      end
  end.

Definition push_expansion (ptr : MacroPtr) (def : MacroDefinition) (callSite : SourceRange) : M bool :=
  let* me := get in
  let* '(ok, t) := lift (macro_table_push_expansion (me_table me) ptr callSite (md_definitionRange def)) in
  let* _ := put (set_table me t) in
  ret ok.

Definition pop_expansion (ptr : MacroPtr) : M unit :=
  modify (fun me => set_table me (macro_table_pop_expansion (me_table me) (Some ptr))).

(** The replacement of [def], rescanned. *)
Definition replace_and_rescan (ptr : MacroPtr) (def : MacroDefinition) (args : option MacroArgPack)
    (callRange : SourceRange) : M PPTokenBuffer :=
  let* replaced := substitute_macro ptr def args callRange in
  expand replaced.

(** [return expander->lastError.kind == ME_ERR_NONE]: nothing handled, or a failure. *)
Definition unless_error {A} : M (option A) :=
  let* me := get in
  match mei_kind (me_lastError me) with ME_ERR_NONE => ret None | _ => fail end.

(** A function-like macro whose name is the last token of an expansion and whose arguments
    follow in the input: what is appended to the output and the last index consumed. *)
Definition try_expand_function_like_alias_boundary (input : list Token) (currentIndex : nat)
    (expandedObjectLike : PPTokenBuffer) : M (option (PPTokenBuffer * nat)) :=
  match list.last expandedObjectLike with
  | None => ret None
  | Some callee =>
      if negb (has_type TOKEN_LPAREN (input !! S currentIndex)) then ret None
      else if negb (tt_eqb (tok_type callee) TOKEN_IDENTIFIER) then ret None
      else
        let* found := lookup_macro (tok_value callee) in
        match found with
        | None => ret None
        | Some (ptr, def) =>
            if negb (is_function def) then ret None
            else
              let* expanding := is_expanding (md_name def) in
              if (expanding : bool) then ret None
              else
                let callRange := call_range callee in
                match parse_macro_argument_tokens input (currentIndex + 2) def with
                | None => unless_error
                | Some (rawArgs, cursor) =>
                    let* built := attempt (build_macro_arg_pack ptr def rawArgs callRange) in
                    match built with
                    | None => unless_error
                    | Some pack =>
                        let* pack := expand_macro_arguments pack in
                        let* pushed := push_expansion ptr def callRange in
                        if (pushed : bool) then
                          let* nested := attempt (replace_and_rescan ptr def (Some pack) callRange) in
                          let* _ := pop_expansion ptr in
                          match nested with
                          | None => fail
                          | Some nested =>
                              ret (Some (take (length expandedObjectLike - 1) expandedObjectLike ++ nested,
                                         (cursor - 1)%nat))
                          end
                        else fail
                    end
                end
        end
  end.

(** The same for the last token of the output: the new output and the last index consumed. *)
Definition try_expand_accumulated_function_boundary (input : list Token) (currentIndex : nat)
    (outTokens : PPTokenBuffer) : M (option (PPTokenBuffer * nat)) :=
  match list.last outTokens with
  | None => ret None
  | Some tail =>
      let* handled := try_expand_function_like_alias_boundary input currentIndex [tail] in
      match handled with
      | None => ret None
      | Some (expanded, consumedIndex) =>
          ret (Some (take (length outTokens - 1) outTokens ++ expanded, consumedIndex))
      end
  end.

(** While calls follow calls: the output and the cursor. *)
Fixpoint boundary_loop (fuel : nat) (input : list Token) (cursor : nat) (outTokens : PPTokenBuffer)
    : M (PPTokenBuffer * nat) :=
  match fuel with
  | O => stuck
  | S fuel' =>
      if has_type TOKEN_LPAREN (input !! cursor) then
        let* handled := try_expand_accumulated_function_boundary input (cursor - 1) outTokens in
        match handled with
        | None => ret (outTokens, cursor)
        | Some (outTokens, consumedIndex) => boundary_loop fuel' input (S consumedIndex) outTokens
        end
      else ret (outTokens, cursor)
  end.

(** An object-like macro at index [i]: the new output and the last index consumed. *)
Definition expand_object (input : list Token) (i : nat) (ptr : MacroPtr) (def : MacroDefinition)
    (callRange : SourceRange) (outTokens : PPTokenBuffer) : M (PPTokenBuffer * nat) :=
  let* pushed := push_expansion ptr def callRange in
  if (pushed : bool) then
    let* nested := attempt (replace_and_rescan ptr def None callRange) in
    let* _ := pop_expansion ptr in
    match nested with
    | None => fail
    | Some nested =>
        let* handled := try_expand_function_like_alias_boundary input i nested in
        match handled with
        | Some (tokens, consumedIndex) => ret (outTokens ++ tokens, consumedIndex)
        | None => ret (outTokens ++ nested, i)
        end
    end
  else fail.

(** A function-like macro at index [i] with its arguments behind it; [None] when it stays
    as it is. *)
Definition expand_function (input : list Token) (i : nat) (ptr : MacroPtr) (def : MacroDefinition)
    (callRange : SourceRange) (outTokens : PPTokenBuffer) : M (option (PPTokenBuffer * nat)) :=
  if negb (has_type TOKEN_LPAREN (input !! S i)) then ret None
  else
    match parse_macro_argument_tokens input (i + 2) def with
    | None => ret None
    | Some (rawArgs, cursor) =>
        let* built := attempt (build_macro_arg_pack ptr def rawArgs callRange) in
        match built with
        | None => unless_error
        | Some pack =>
            let* pack := attempt (expand_macro_arguments pack) in
            match pack with
            | None => ret None
            | Some pack =>
                let* pushed := push_expansion ptr def callRange in
                if (pushed : bool) then
                  let* result := attempt (
                    let* nested := replace_and_rescan ptr def (Some pack) callRange in
                    let* handled := try_expand_function_like_alias_boundary input (cursor - 1) nested in
                    ret match handled with
                        | Some (tokens, consumedIndex) => (outTokens ++ tokens, S consumedIndex, true)
                        | None => (outTokens ++ nested, cursor, false)
                        end) in
                  let* _ := pop_expansion ptr in
                  match result with
                  | None => fail
                  | Some (outTokens, cursor, crossedExternalBoundary) =>
                      let* '(outTokens, cursor) :=
                        if (crossedExternalBoundary : bool)
                        then boundary_loop (S (length input)) input cursor outTokens
                        else ret (outTokens, cursor) in
                      ret (Some (outTokens, (cursor - 1)%nat))
                  end
                else ret None
            end
        end
    end.

(** The loop from index [i] on. *)
Fixpoint expand_loop (fuel : nat) (input : list Token) (i : nat) (outTokens : PPTokenBuffer)
    : M PPTokenBuffer :=
  match fuel with
  | O => stuck
  | S fuel' =>
      match input !! i with
      | None => ret outTokens
      | Some tok =>
          let plain := expand_loop fuel' input (S i) (outTokens ++ [token_clone tok]) in
          if negb (tt_eqb (tok_type tok) TOKEN_IDENTIFIER) then
            let run := (span (fun t => negb (tt_eqb (tok_type t) TOKEN_IDENTIFIER)) (drop i input)).1 in
            expand_loop fuel' input (i + length run) (outTokens ++ map token_clone run)
          else
            let* me := get in
            match handle_builtin_identifier me tok with
            | Some (literal, me) =>
                let* _ := put me in
                expand_loop fuel' input (S i) (outTokens ++ [literal])
            | None =>
                if me_preserveDefinedOperands me && token_is_defined_operand_context input i then plain
                else
                  let* found := lookup_macro (tok_value tok) in
                  match found with
                  | None => plain
                  | Some (ptr, def) =>
                      let* expanding := is_expanding (token_text tok) in
                      if (expanding : bool) then plain
                      else if is_function def then
                        let* result := expand_function input i ptr def (call_range tok) outTokens in
                        match result with
                        | Some (outTokens, last) => expand_loop fuel' input (S last) outTokens
                        | None => plain
                        end
                      else
                        let* '(outTokens, last) := expand_object input i ptr def (call_range tok) outTokens in
                        expand_loop fuel' input (S last) outTokens
                  end
            end
      end
  end.

End Expand.

(** [fuel] bounds the nesting of expansions. *)
Fixpoint macro_expander_expand (fuel : nat) (input : list Token) : M PPTokenBuffer :=
  match fuel with
  | O => stuck
  | S fuel' =>
      let* _ := modify macro_expander_clear_error in
      expand_loop (macro_expander_expand fuel') (S (length input)) input 0 []
  end.
