(* ===== verification/MacroExpanderSafety.v ===== *)
(** * Expansion always returns and leaves the macro table as it found it.

    [ev me m Q]: with enough fuel for the recursive calls in [m], it runs from [me] to a
    result that no more fuel changes; the table keeps its macros and its expansion stack,
    and a successful result satisfies [Q].  The recursion is bounded by the number of macros
    that are not being expanded and then by the length of the input. *)
From S2P Require Import Prelude StateError CType Tokens LexerSource LexerChars Lexer LexerSafety MacroTable MacroExpander.

(** The same definitions, the same frames. *)
Record same_table (t t' : MacroTable) : Prop := {
  st_macros : mt_macros t' = mt_macros t;
  st_base : mt_base t' = mt_base t;
  st_stack : mt_expansionStack t' = mt_expansionStack t;
  st_limit : mt_expansionLimit t' = mt_expansionLimit t;
  st_capacity : mt_macroCapacity t' = mt_macroCapacity t
}.

#[export] Instance same_table_preorder : PreOrder same_table.
Proof.
  split; [by split|]. intros a b c [] []. by split; congruence.
Qed.

(** A table with distinct names whose frames are live and distinct. *)
Record me_ok (me : MacroExpander) : Prop := {
  ok_names : NoDup (md_name <$> mt_macros (me_table me));
  ok_frames : expansion_ok (me_table me)
}.

(** The macros that are not being expanded. *)
Definition rank (me : MacroExpander) : nat :=
  length (mt_macros (me_table me)) - length (mt_expansionStack (me_table me)).

Abbreviation kept me me' := (same_table (me_table me) (me_table me')).

Lemma same_deref (t t' : MacroTable) (p : MacroPtr) : same_table t t' -> deref t' p = deref t p.
Proof. intros [Hm Hb _ _ _]. unfold deref. by rewrite Hm, Hb. Qed.

Lemma expansion_ok_same (t t' : MacroTable) : same_table t t' -> expansion_ok t -> expansion_ok t'.
Proof.
  intros Hs [Hl Hn Hlim]. pose proof Hs as [Hm Hb Hst Hli _].
  assert (forall f, frame_name t' f = frame_name t f) as Hf
    by (intros f; unfold frame_name; by rewrite (same_deref t t')).
  split; rewrite Hst.
  - eapply Forall_impl; [exact Hl|]. intros f. by rewrite (same_deref t t').
  - rewrite (list_omap_ext _ (frame_name t) _ (mt_expansionStack t)); [done|].
    apply Forall_Forall2_diag, Forall_true. done.
  - by rewrite Hli.
Qed.

Lemma me_ok_same (me me' : MacroExpander) : kept me me' -> me_ok me -> me_ok me'.
Proof.
  intros Hs [Hn Hf]. split; [by rewrite (st_macros _ _ Hs)|]. by apply (expansion_ok_same (me_table me)).
Qed.

Lemma rank_same (me me' : MacroExpander) : kept me me' -> rank me' = rank me.
Proof. intros Hs. unfold rank. by rewrite (st_macros _ _ Hs), (st_stack _ _ Hs). Qed.

(** Every frame is a distinct macro of the table. *)
Lemma frames_bounded (t : MacroTable) :
  expansion_ok t -> (length (mt_expansionStack t) <= length (mt_macros t))%nat.
Proof.
  intros [Hl Hn _]. rewrite <- (length_fmap md_name (mt_macros t)).
  assert (length (omap (frame_name t) (mt_expansionStack t)) = length (mt_expansionStack t)) as <-.
  { clear Hn. induction Hl as [|f fs [d Hd] _ IH]; [done|].
    assert (omap (frame_name t) (f :: fs) = md_name d :: omap (frame_name t) fs) as ->
      by (simpl; unfold frame_name at 1; by rewrite Hd).
    cbn [length]. by rewrite IH. }
  apply submseteq_length, NoDup_submseteq; [done|]. intros name (f & _ & Hf)%list_elem_of_omap.
  unfold frame_name in Hf. destruct (deref t (mf_macro f)) as [d|] eqn:Hd; [|done]. simplify_eq/=.
  unfold deref in Hd. case_decide; [|done]. apply list_elem_of_fmap. exists d. split; [done|].
  by eapply list_elem_of_lookup_2.
Qed.

(** ** Running to a result *)

Definition Rec : Type := list Token -> M PPTokenBuffer.

(** The state keeps the table's macros and frames. *)
Definition keeps (me me' : MacroExpander) : Prop := kept me me'.

#[export] Instance keeps_preorder : PreOrder keeps.
Proof. split; [intros me; exact (reflexivity (me_table me))|]. intros a b c H1 H2. unfold keeps in *. by etrans. Qed.

Definition ev {A} (me : MacroExpander) (m : Rec -> M A) (Q : A -> Prop) : Prop :=
  runs keeps me (fun fuel => m (macro_expander_expand fuel)) Q.

Lemma ev_ret {A} (me : MacroExpander) (a : A) (Q : A -> Prop) : Q a -> ev me (fun _ => ret a) Q.
Proof. apply runs_ret, _. Qed.

Lemma ev_fail {A} (me : MacroExpander) (Q : A -> Prop) : ev me (fun _ => fail) Q.
Proof. apply runs_fail, _. Qed.

Lemma ev_mono {A} (me : MacroExpander) (m : Rec -> M A) (P Q : A -> Prop) :
  ev me m P -> (forall a, P a -> Q a) -> ev me m Q.
Proof. apply runs_mono. Qed.

Lemma ev_bind {A B} (me : MacroExpander) (m : Rec -> M A) (k : Rec -> A -> M B) (P : A -> Prop) (Q : B -> Prop) :
  ev me m P -> (forall me' a, kept me me' -> P a -> ev me' (fun rec => k rec a) Q) ->
  ev me (fun rec => bind (m rec) (k rec)) Q.
Proof. intros Hm Hk. by apply (runs_bind keeps me _ (fun fuel => k (macro_expander_expand fuel)) P). Qed.

Lemma ev_attempt {A} (me : MacroExpander) (m : Rec -> M A) (P : A -> Prop) :
  ev me m P -> ev me (fun rec => attempt (m rec)) (fun o => forall a, o = Some a -> P a).
Proof. apply runs_attempt. Qed.

Lemma ev_get {A} (me : MacroExpander) (k : Rec -> MacroExpander -> M A) (Q : A -> Prop) :
  ev me (fun rec => k rec me) Q -> ev me (fun rec => bind get (k rec)) Q.
Proof. done. Qed.

Lemma ev_modify (me : MacroExpander) (g : MacroExpander -> MacroExpander) (Q : unit -> Prop) :
  me_table (g me) = me_table me -> Q tt -> ev me (fun _ => modify g) Q.
Proof. intros Hg. apply runs_modify. unfold keeps. by rewrite Hg. Qed.

Lemma ev_put (me me' : MacroExpander) (Q : unit -> Prop) :
  me_table me' = me_table me -> Q tt -> ev me (fun _ => put me') Q.
Proof. intros. by apply (ev_modify me (fun _ => me')). Qed.

Lemma ev_lift {A} (me : MacroExpander) (o : option A) (a : A) (Q : A -> Prop) :
  o = Some a -> Q a -> ev me (fun _ => lift o) Q.
Proof. apply runs_lift, _. Qed.

Lemma ev_unless_error {A} (me : MacroExpander) (Q : option A -> Prop) :
  Q None -> ev me (fun _ => unless_error) Q.
Proof.
  intros HQ. unfold unless_error. apply ev_get. destruct (mei_kind _); [by apply ev_ret|apply ev_fail..].
Qed.

(** A call unfolds once. *)
Lemma ev_call (me : MacroExpander) (input : list Token) (Q : PPTokenBuffer -> Prop) :
  ev me (fun rec => let* _ := modify macro_expander_clear_error in
                    expand_loop rec (S (length input)) input 0 []) Q ->
  ev me (fun rec => rec input) Q.
Proof.
  intros (f & r & me' & H & Hk & HQ). exists (S f), r, me'. split_and!; [|done|done].
  intros [|f'] Hf; [lia|]. apply H. lia.
Qed.

Lemma pop_top (t : MacroTable) (st : list MacroExpansionFrame) (frame : MacroExpansionFrame) (ptr : MacroPtr) :
  mt_expansionStack t = st ++ [frame] -> mf_macro frame = ptr ->
  mt_expansionStack (macro_table_pop_expansion t (Some ptr)) = st /\
  mt_macros (macro_table_pop_expansion t (Some ptr)) = mt_macros t /\
  mt_base (macro_table_pop_expansion t (Some ptr)) = mt_base t /\
  mt_expansionLimit (macro_table_pop_expansion t (Some ptr)) = mt_expansionLimit t /\
  mt_macroCapacity (macro_table_pop_expansion t (Some ptr)) = mt_macroCapacity t.
Proof.
  intros Hst Hp. unfold macro_table_pop_expansion. rewrite Hst, last_snoc, decide_True by done. simpl.
  rewrite length_app. simpl. by rewrite Nat.add_sub, take_app_length.
Qed.

(** A push, a body that runs with the macro on the stack, and the pop. *)
Lemma ev_scoped {A B} (me : MacroExpander) (ptr : MacroPtr) (def : MacroDefinition) (cs : SourceRange)
    (body : Rec -> M A) (K : Rec -> option A -> M B) (L : Rec -> M B) (P : A -> Prop) (Q : B -> Prop) :
  me_ok me -> deref (me_table me) ptr = Some def ->
  (forall me', me_ok me' -> (rank me' < rank me)%nat ->
    mt_macros (me_table me') = mt_macros (me_table me) -> ev me' body P) ->
  (forall me' r, kept me me' -> (forall a, r = Some a -> P a) -> ev me' (fun rec => K rec r) Q) ->
  (forall me', kept me me' -> ev me' L Q) ->
  ev me (fun rec => let* pushed := push_expansion ptr def cs in
                    if (pushed : bool) then
                      let* r := attempt (body rec) in
                      let* _ := pop_expansion ptr in K rec r
                    else L rec) Q.
Proof.
  intros Hok Hd Hbody HK HL. pose proof Hok as [Hnd Hfr].
  destruct (push_expansion_cases (me_table me) ptr def cs (md_definitionRange def) Hfr Hd)
    as (b & t' & Hpush & Hm & Hb & Hl & Hcase).
  pose proof (push_expansion_keeps _ _ _ _ _ _ _ Hfr Hd Hpush) as Hfr'.
  pose proof (push_expansion_capacity _ _ _ _ _ _ Hpush) as Hcap.
  assert (push_expansion ptr def cs me = Some (Some b, set_table me t')) as Hrun
    by (unfold push_expansion, bind, get; simpl; by rewrite Hpush).
  destruct b.
  - destruct Hcase as (_ & _ & Hst).
    assert (me_ok (set_table me t')) as Hok' by (split; simpl; [by rewrite Hm|done]).
    pose proof (frames_bounded _ Hfr') as Hbound. simpl in Hbound. rewrite Hm, Hst, length_app in Hbound. simpl in Hbound.
    destruct (Hbody (set_table me t') Hok') as (f1 & r & me1 & H1 & Hk1 & HP).
    { unfold rank. simpl. rewrite Hm, Hst, length_app. simpl. lia. }
    { done. }
    pose proof Hk1 as [Hm1 Hb1 Hst1 Hl1 Hc1]. simpl in Hm1, Hb1, Hst1, Hl1, Hc1. rewrite Hst in Hst1.
    destruct (pop_top (me_table me1) _ _ ptr Hst1 eq_refl) as (Hst2 & Hm2 & Hb2 & Hl2 & Hc2).
    set (me2 := set_table me1 (macro_table_pop_expansion (me_table me1) (Some ptr))).
    assert (kept me me2) as Hk2 by (split; simpl; congruence).
    destruct (HK me2 r Hk2 HP) as (f3 & r3 & me3 & H3 & Hk3 & HQ).
    exists (f1 `max` f3)%nat, r3, me3. split_and!; [|by etrans|done].
    intros f Hf. unfold bind at 1. rewrite Hrun. cbv beta iota. unfold bind at 1, attempt. rewrite H1 by lia.
    cbv beta iota. apply H3. lia.
  - destruct Hcase as (Hst & _). assert (kept me (set_table me t')) as Hk by (split; simpl; congruence).
    destruct (HL _ Hk) as (f3 & r3 & me3 & H3 & Hk3 & HQ).
    exists f3, r3, me3. split_and!; [|by etrans|done].
    intros f Hf. unfold bind at 1. rewrite Hrun. cbv beta iota. by apply H3.
Qed.

(** ** Substitution *)

Lemma relex_total (text : string) (origin : SourceRange) : is_Some (relex_single_token text origin).
Proof.
  unfold relex_single_token, initLexer.
  destruct (translate_source_total (list_ascii_of_string text) false) as [tr ->]. cbn [mbind option_bind].
  set (T := mkLexerText _ _ _ _ _ _).
  destruct (wp_Some _ _ (wp_get_next_token T _ (good_initial T))) as ([tok lx] & -> & Hout). cbn [mbind option_bind].
  destruct (tt_eqb (tok_type tok) TOKEN_EOF) eqn:E; [done|].
  assert (tok_type tok <> TOKEN_EOF) as Hty by (intros Ht; by rewrite Ht, tt_eqb_refl in E).
  destruct (outcome_progress T _ tok lx Hout Hty) as [Hg _].
  destruct (wp_Some _ _ (wp_get_next_token T lx Hg)) as ([tok2 lx2] & -> & _). cbn [mbind option_bind].
  by destruct (negb _).
Qed.

Lemma ev_paste (me : MacroExpander) (left right : Token) (origin : SourceRange) :
  ev me (fun _ => paste_pair left right origin) (fun _ => True).
Proof.
  unfold paste_pair. destruct (relex_total (token_text left ++ token_text right)
    (if range_is_initialized (tok_macroCallSite left) then tok_macroCallSite left
     else if range_is_initialized (tok_macroCallSite right) then tok_macroCallSite right else origin)) as [[r o] Hr].
  eapply ev_bind; [by eapply (ev_lift me _ _ (fun _ => True))|]. intros me1 x _ _. destruct x as [r' o'].
  eapply ev_bind; [by apply (ev_modify _ _ (fun _ => True))|]. intros me2 _ _ _.
  destruct r'; [by apply ev_ret|apply ev_fail].
Qed.

Lemma ev_paste_loop (tokens : PPTokenBuffer) (skip : nat) (pending : option Token) (result : PPTokenBuffer)
    (origin : SourceRange) (me : MacroExpander) :
  ev me (fun _ => paste_loop tokens skip pending result origin) (fun _ => True).
Proof.
  revert skip pending result me. induction tokens as [|tok rest IH]; intros skip pending result me; cbn [paste_loop];
    [by apply ev_ret|].
  destruct skip as [|skip]; [|apply IH]. destruct (is_paste tok); [|apply IH].
  destruct pending as [p|]; [|apply IH]. destruct (rest !! _) as [right|]; [|apply IH].
  eapply ev_bind; [apply ev_paste|]. intros me1 relexed _ _. apply IH.
Qed.

Lemma va_opt_close_spec (body : list Token) (j : nat) (depth : Z) (j' : nat) :
  va_opt_close body j depth = (j', 0) -> 0 < depth -> (j <= j' < j + length body)%nat.
Proof.
  revert j depth. induction body as [|tok body IH]; intros j depth H Hd; simpl in H; [simplify_eq; lia|].
  repeat (case_match; simplify_eq); simpl; try (apply IH in H; [lia|]); try lia.
  all: try (apply Z.eqb_neq in H2; lia).
Qed.

(** The arguments fit the parameters. *)
Definition pack_fits (def : MacroDefinition) (args : option MacroArgPack) : Prop :=
  match args with
  | None => True
  | Some pack => length (pack_positionals pack) = length (mp_names (md_params def))
  end.

Lemma ev_nth_arg (me : MacroExpander) (def : MacroDefinition) (pack : MacroArgPack) (name : option string) (i : nat) :
  pack_fits def (Some pack) -> macro_param_index def name = Some i ->
  ev me (fun _ => nth_arg pack i) (fun _ => True).
Proof.
  intros Hfit Hi. unfold macro_param_index in Hi. destruct name as [name|]; [|done]. cbn [mbind option_bind] in Hi.
  destruct (list_find _ _) as [[k x]|] eqn:E; [|done]. simplify_eq/=. apply list_find_Some in E as (E & _).
  apply lookup_lt_Some in E. simpl in Hfit. rewrite <- Hfit in E. apply lookup_lt_is_Some_2 in E as [a Ha].
  by apply (ev_lift _ _ a).
Qed.

Lemma ev_substitute_from (fuel : nat) (ptr : ErrorMacro) (def : MacroDefinition) (args : option MacroArgPack)
    (callSite : SourceRange) (i : nat) (working : PPTokenBuffer) (me : MacroExpander) :
  pack_fits def args -> (length (md_body def) - i < fuel)%nat ->
  ev me (fun _ => substitute_from fuel ptr def args callSite i working) (fun _ => True).
Proof.
  revert ptr def i working me. induction fuel as [|fuel IH]; intros ptr def i working me Hfit Hf; [lia|].
  cbn [substitute_from]. destruct (md_body def !! i) as [tok|] eqn:Ei.
  2:{ eapply ev_bind; [apply ev_paste_loop|]. intros me1 pasted _ _. by apply ev_ret. }
  pose proof (lookup_lt_Some _ _ _ Ei) as Hi.
  assert (forall me k w, (i < k)%nat ->
    ev me (fun _ => substitute_from fuel ptr def args callSite k w) (fun _ => True)) as Hnext
    by (intros me0 k w Hk; apply IH; [done|lia]).
  destruct (is_function def); [|by apply Hnext; lia].
  destruct args as [pack|]; [|by apply Hnext; lia].
  destruct (if tt_eqb (tok_type tok) TOKEN_HASH then stringify_at def pack callSite i working else None) as [m|] eqn:Eh.
  { apply (ev_bind me (fun _ => m) _ (fun _ => True)); [|intros me1 w _ _; apply Hnext; lia].
    destruct (tt_eqb _ _); [|done]. unfold stringify_at in Eh. destruct (md_body def !! S i) as [next|]; [|done].
    cbn [mbind option_bind] in Eh. destruct (negb _); [done|].
    destruct (macro_param_index def (tok_value next)) as [index|] eqn:Ep.
    - simplify_eq. eapply ev_bind; [by eapply ev_nth_arg|]. intros. by apply ev_ret.
    - destruct (_ && _); [|done]. simplify_eq. by apply ev_ret. }
  destruct (negb _); [by apply Hnext; lia|].
  destruct (va_opt_at def i tok) as [[start j]|] eqn:Ev.
  - unfold va_opt_at in Ev. destruct (_ && _); [|done]. destruct (va_opt_close _ _ _) as [j' d] eqn:Ec.
    destruct ((d =? 0) && bool_decide (i + 2 < j')%nat) eqn:Ed; [|done]. simplify_eq.
    apply andb_true_iff in Ed as [->%Z.eqb_eq Hlt%bool_decide_eq_true].
    apply va_opt_close_spec in Ec; [|lia]. rewrite length_drop in Ec.
    destruct (pack_variadics pack); [by apply Hnext; lia|].
    eapply ev_bind; [apply IH; [done|simpl; rewrite length_take, length_drop; lia]|].
    intros me1 optOut _ _. apply Hnext; lia.
  - destruct (macro_param_index def (tok_value tok)) as [index|] eqn:Ep.
    + eapply ev_bind; [by eapply ev_nth_arg|]. intros me1 arg _ _. apply Hnext; lia.
    + destruct (mp_variadic (md_params def) && _); [|by apply Hnext; lia].
      destruct (_ && has_type _ _); [|by apply Hnext; lia].
      eapply ev_bind; [by apply (ev_modify _ _ (fun _ => True))|]. intros me1 _ _ _. apply ev_fail.
Qed.

Lemma ev_substitute (me : MacroExpander) (ptr : MacroPtr) (def : MacroDefinition) (args : option MacroArgPack)
    (callSite : SourceRange) :
  pack_fits def args -> ev me (fun _ => substitute_macro ptr def args callSite) (fun _ => True).
Proof. intros Hfit. apply ev_substitute_from; [done|lia]. Qed.

(** ** Arguments *)

(** Every argument is shorter than the tokens scanned; the cursor is behind them. *)
Lemma parse_arguments_lengths (tokens : list Token) (idx : nat) (depth : Z) (current : PPTokenBuffer)
    (outArgs : list PPTokenBuffer) (idx' : nat) (current' : PPTokenBuffer) (outArgs' : list PPTokenBuffer) :
  parse_arguments tokens idx depth current outArgs = Some (idx', current', outArgs') ->
  (idx < idx' <= idx + length tokens)%nat /\
  (length current' < length tokens + length current \/ length current' < length tokens)%nat /\
  Forall (fun a => length a < length tokens + length current \/ a ∈ outArgs)%nat outArgs'.
Proof.
  assert (forall (l : list Token) t, length (l ++ [t]) = S (length l)) as Hsnoc by (intros; rewrite length_app; simpl; lia).
  revert idx depth current outArgs. induction tokens as [|tok rest IH]; intros idx depth current outArgs H;
    cbn [parse_arguments] in H; [done|].
  destruct (_ && (depth =? 0)).
  { simplify_eq. simpl. split_and!; [lia|lia|lia|]. apply Forall_forall. intros a Ha. by right. }
  destruct (_ && (depth =? 0)).
  - apply IH in H as (H1 & H2 & H3). simpl in *. split_and!; [lia|lia|lia|].
    apply (Forall_impl _ _ _ H3). intros a [Ha|Ha]; [left; lia|].
    apply elem_of_app in Ha as [Ha| ->%list_elem_of_singleton]; [by right|left; lia].
  - apply IH in H as (H1 & H2 & H3). rewrite Hsnoc in *. simpl. split_and!; [lia|lia|lia|].
    apply (Forall_impl _ _ _ H3). intros a [Ha|Ha]; [left; lia|by right].
Qed.

Lemma parse_macro_argument_tokens_lengths (input : list Token) (cursor : nat) (def : MacroDefinition)
    (rawArgs : list PPTokenBuffer) (cursor' : nat) :
  parse_macro_argument_tokens input cursor def = Some (rawArgs, cursor') ->
  (cursor < cursor' <= length input)%nat /\ Forall (fun a => length a < length input - cursor)%nat rawArgs.
Proof.
  unfold parse_macro_argument_tokens. intros H.
  destruct (parse_arguments _ _ _ _ _) as [[[idx current] outArgs]|] eqn:E; [|done]. cbn [mbind option_bind] in H.
  apply parse_arguments_lengths in E as (H1 & H2 & H3). rewrite length_drop in *. simpl in H2, H3.
  injection H as <- <-. split; [lia|].
  assert (Forall (fun a : PPTokenBuffer => length a < length input - cursor)%nat outArgs) as Hout.
  { apply (Forall_impl _ _ _ H3). intros a [Ha|Ha]; [lia|]. by apply not_elem_of_nil in Ha. }
  destruct (_ || _); [|done]. apply Forall_app. split; [done|]. apply Forall_singleton. lia.
Qed.

(** A pack of short arguments that fits the parameters. *)
Definition pack_ok (def : MacroDefinition) (n : nat) (pack : MacroArgPack) : Prop :=
  pack_fits def (Some pack) /\
  Forall (fun a => length (ma_raw a) < n)%nat (pack_positionals pack ++ pack_variadics pack).

Lemma ev_build (me : MacroExpander) (ptr : MacroPtr) (def : MacroDefinition) (rawArgs : list PPTokenBuffer)
    (callSite : SourceRange) (n : nat) :
  Forall (fun a => length a < n)%nat rawArgs ->
  ev me (fun _ => build_macro_arg_pack ptr def rawArgs callSite) (pack_ok def n).
Proof.
  intros Hraw. unfold build_macro_arg_pack. cbv zeta.
  destruct (if mp_variadic _ then _ else _).
  { eapply ev_bind; [by apply (ev_modify _ _ (fun _ => True))|]. intros. apply ev_fail. }
  case_bool_decide as Hlt; [apply ev_fail|]. apply ev_ret. split; simpl.
  - rewrite length_map, length_take. lia.
  - rewrite <- map_app. apply Forall_forall. intros a Ha. apply list_elem_of_In, in_map_iff in Ha as (r & <- & Hr).
    apply list_elem_of_In in Hr. simpl. rewrite Forall_forall in Hraw. apply Hraw.
    apply elem_of_app in Hr as [Hr|Hr]; apply elem_of_take in Hr as (k & Hk & _).
    + by eapply list_elem_of_lookup_2.
    + rewrite lookup_drop in Hk. by eapply list_elem_of_lookup_2.
Qed.

Section Round.
(** Calls on shorter inputs, and calls with one more macro on the stack, are known to run. *)
Context (R n : nat).
Hypothesis call_shorter : forall me input,
  me_ok me -> (rank me <= R)%nat -> (length input < n)%nat -> ev me (fun rec => rec input) (fun _ => True).
Hypothesis call_deeper : forall me input,
  me_ok me -> (rank me < R)%nat -> ev me (fun rec => rec input) (fun _ => True).

(** [me] is a state the round may run from. *)
Definition ready (me : MacroExpander) : Prop := me_ok me /\ (rank me <= R)%nat.

Lemma ready_same (me me' : MacroExpander) : kept me me' -> ready me -> ready me'.
Proof. intros Hk [Hok Hr]. split; [by eapply me_ok_same|]. by rewrite (rank_same me). Qed.

Lemma ev_argument (me : MacroExpander) (raw : PPTokenBuffer) :
  ready me -> (length raw < n)%nat -> ev me (fun rec => expand_macro_argument rec raw) (fun _ => True).
Proof.
  intros [Hok Hr] Hl. destruct raw as [|t raw]; simpl; [by apply ev_ret|]. by apply (call_shorter me (t :: raw)).
Qed.

Lemma ev_arguments (args : list MacroArg) (me : MacroExpander) :
  ready me -> Forall (fun a => length (ma_raw a) < n)%nat args ->
  ev me (fun rec => expand_arguments rec args) (fun args' => length args' = length args).
Proof.
  intros Hr Hargs. revert me Hr. induction Hargs as [|a args Ha _ IH]; intros me Hr; simpl; [by apply ev_ret|].
  eapply (ev_bind me (fun rec => expand_macro_argument rec (ma_raw a))); [by apply ev_argument|].
  intros me1 e Hk _. eapply (ev_bind me1 (fun rec => expand_arguments rec args)).
  - apply IH. by eapply ready_same.
  - intros me2 rest _ Hlen. apply ev_ret. simpl. by rewrite Hlen.
Qed.

Lemma ev_pack (me : MacroExpander) (def : MacroDefinition) (pack : MacroArgPack) :
  ready me -> pack_ok def n pack ->
  ev me (fun rec => expand_macro_arguments rec pack) (fun pack' => pack_fits def (Some pack')).
Proof.
  intros Hr [Hfit [Hpos Hvar]%Forall_app]. unfold expand_macro_arguments.
  eapply ev_bind; [by apply ev_arguments|]. intros me1 pos Hk Hlen.
  eapply ev_bind; [apply ev_arguments; [by eapply ready_same|done]|]. intros me2 var _ _.
  apply ev_ret. simpl in *. congruence.
Qed.

Lemma ev_lookup (me : MacroExpander) (name : option string) :
  ev me (fun _ => lookup_macro name) (fun r => match r with
    | Some (p, def) => deref (me_table me) p = Some def /\ name = Some (md_name def)
    | None => True end).
Proof.
  unfold lookup_macro. apply ev_get. destruct name as [name|]; [|by apply ev_ret].
  destruct (macro_table_lookup (me_table me) name) as [p|] eqn:E; [|by apply ev_ret].
  unfold macro_table_lookup in E. destruct (list_find _ _) as [[i d]|] eqn:Ef; [|done]. simplify_eq/=.
  apply list_find_Some in Ef as (Hi & Hname & _).
  assert (deref (me_table me) (mkMacroPtr (mt_base (me_table me)) i) = Some d) as Hd
    by (unfold deref; simpl; by rewrite decide_True).
  eapply ev_bind; [by apply (ev_lift _ _ d (fun d' => d' = d) Hd)|]. intros me1 d' _ ->. apply ev_ret.
  split; [done|by subst].
Qed.

Lemma ev_is_expanding (me : MacroExpander) (name : string) :
  me_ok me -> ev me (fun _ => is_expanding name) (fun _ => True).
Proof.
  intros [_ [Hl _ _]]. unfold is_expanding. apply ev_get. eapply ev_lift; [by apply is_expanding_spec|done].
Qed.

Lemma ev_replace (me : MacroExpander) (ptr : MacroPtr) (def : MacroDefinition) (args : option MacroArgPack)
    (callRange : SourceRange) :
  me_ok me -> (rank me < R)%nat -> pack_fits def args ->
  ev me (fun rec => replace_and_rescan rec ptr def args callRange) (fun _ => True).
Proof.
  intros Hok Hr Hfit. unfold replace_and_rescan. eapply ev_bind; [by apply ev_substitute|].
  intros me1 replaced Hk _. apply call_deeper; [by eapply me_ok_same|by rewrite (rank_same me)].
Qed.

Context (input : list Token) (input_length : (length input <= n)%nat).

Lemma ev_alias (me : MacroExpander) (i : nat) (expanded : PPTokenBuffer) :
  ready me ->
  ev me (fun rec => try_expand_function_like_alias_boundary rec input i expanded)
    (fun r => forall tokens last, r = Some (tokens, last) -> (i < last < length input)%nat).
Proof.
  intros Hr. unfold try_expand_function_like_alias_boundary.
  destruct (list.last expanded) as [callee|]; [|by apply ev_ret].
  destruct (has_type TOKEN_LPAREN (input !! S i)) eqn:Elp; cbn [negb]; [|by apply ev_ret].
  destruct (negb _); [by apply ev_ret|].
  eapply ev_bind; [apply ev_lookup|]. intros me1 [[ptr def]|] Hk1 Hfound; [|by apply ev_ret].
  destruct Hfound as [Hd _]. rewrite <- (same_deref _ _ ptr Hk1) in Hd.
  destruct (negb _); [by apply ev_ret|].
  pose proof (ready_same _ _ Hk1 Hr) as Hr1.
  eapply ev_bind; [apply ev_is_expanding; apply Hr1|]. intros me2 expanding Hk2 _.
  pose proof (ready_same _ _ Hk2 Hr1) as Hr2. rewrite <- (same_deref _ _ ptr Hk2) in Hd.
  destruct expanding; [by apply ev_ret|].
  destruct (parse_macro_argument_tokens input (i + 2) def) as [[rawArgs cursor]|] eqn:Ep; [|by apply ev_unless_error].
  apply parse_macro_argument_tokens_lengths in Ep as [Hcur Hraw].
  eapply ev_bind.
  { apply ev_attempt, (ev_build _ _ _ _ _ n). apply (Forall_impl _ _ _ Hraw). intros a Ha. lia. }
  intros me3 built Hk3 Hbuilt. pose proof (ready_same _ _ Hk3 Hr2) as Hr3. rewrite <- (same_deref _ _ ptr Hk3) in Hd.
  destruct built as [pack|]; [|by apply ev_unless_error].
  eapply ev_bind; [by apply ev_pack; [done|apply Hbuilt]|]. intros me4 pack' Hk4 Hfit.
  pose proof (ready_same _ _ Hk4 Hr3) as Hr4. rewrite <- (same_deref _ _ ptr Hk4) in Hd.
  eapply (ev_scoped me4 ptr def _ (fun rec => replace_and_rescan rec ptr def (Some pack') (call_range callee))
    (fun rec nested => match nested with None => fail | Some nested => ret (Some (_, _)) end) (fun _ => fail)).
  - apply Hr4.
  - done.
  - intros me5 Hok5 Hrank5 _. apply ev_replace; [done| |done]. destruct Hr4; lia.
  - intros me5 [nested|] _ _; [|apply ev_fail]. apply ev_ret. intros tokens last [= <- <-]. lia.
  - intros. apply ev_fail.
Qed.

Lemma ev_accumulated (me : MacroExpander) (i : nat) (out : PPTokenBuffer) :
  ready me ->
  ev me (fun rec => try_expand_accumulated_function_boundary rec input i out)
    (fun r => forall tokens last, r = Some (tokens, last) -> (i < last < length input)%nat).
Proof.
  intros Hr. unfold try_expand_accumulated_function_boundary.
  destruct (list.last out) as [tail|]; [|by apply ev_ret].
  eapply ev_bind; [by apply ev_alias|]. intros me1 [[expanded last]|] _ H; [|by apply ev_ret].
  apply ev_ret. intros tokens last' [= <- <-]. by eapply H.
Qed.

Lemma ev_boundary_loop (fuel : nat) (me : MacroExpander) (cursor : nat) (out : PPTokenBuffer) :
  ready me -> (0 < cursor)%nat -> (length input - cursor < fuel)%nat ->
  ev me (fun rec => boundary_loop rec fuel input cursor out) (fun r => (cursor <= r.2)%nat).
Proof.
  revert me cursor out. induction fuel as [|fuel IH]; intros me cursor out Hr Hc Hf; [lia|]. cbn [boundary_loop].
  destruct (has_type _ _); [|by apply ev_ret].
  eapply ev_bind; [by apply ev_accumulated|]. intros me1 [[tokens last]|] Hk H; [|by apply ev_ret].
  destruct (H tokens last eq_refl) as [H1 H2].
  eapply ev_mono; [apply IH; [by eapply ready_same|lia|lia]|]. intros [o c]; simpl; lia.
Qed.

Lemma ev_object (me : MacroExpander) (i : nat) (ptr : MacroPtr) (def : MacroDefinition) (callRange : SourceRange)
    (out : PPTokenBuffer) :
  ready me -> deref (me_table me) ptr = Some def ->
  ev me (fun rec => expand_object rec input i ptr def callRange out) (fun r => (i <= r.2)%nat).
Proof.
  intros Hr Hd. unfold expand_object.
  eapply (ev_scoped me ptr def callRange (fun rec => replace_and_rescan rec ptr def None callRange)
    (fun rec nested => match nested with None => fail | Some nested => bind _ _ end) (fun _ => fail)).
  - apply Hr.
  - done.
  - intros me1 Hok1 Hrank1 _. apply ev_replace; [done| |done]. destruct Hr; lia.
  - intros me1 [nested|] Hk _; [|apply ev_fail].
    eapply ev_bind; [apply ev_alias; by eapply ready_same|]. intros me2 [[tokens last]|] _ H; apply ev_ret; simpl; [|lia].
    specialize (H tokens last eq_refl). lia.
  - intros. apply ev_fail.
Qed.

Lemma ev_function (me : MacroExpander) (i : nat) (ptr : MacroPtr) (def : MacroDefinition) (callRange : SourceRange)
    (out : PPTokenBuffer) :
  ready me -> deref (me_table me) ptr = Some def ->
  ev me (fun rec => expand_function rec input i ptr def callRange out)
    (fun r => forall tokens last, r = Some (tokens, last) -> (i <= last)%nat).
Proof.
  intros Hr Hd. unfold expand_function. destruct (negb _); [by apply ev_ret|].
  destruct (parse_macro_argument_tokens input (i + 2) def) as [[rawArgs cursor]|] eqn:Ep; [|by apply ev_ret].
  apply parse_macro_argument_tokens_lengths in Ep as [Hcur Hraw].
  eapply ev_bind.
  { apply ev_attempt, (ev_build _ _ _ _ _ n). apply (Forall_impl _ _ _ Hraw). intros a Ha. lia. }
  intros me1 [pack|] Hk1 Hbuilt; [|by apply ev_unless_error].
  pose proof (ready_same _ _ Hk1 Hr) as Hr1. rewrite <- (same_deref _ _ ptr Hk1) in Hd.
  eapply ev_bind; [apply ev_attempt, ev_pack; [done|by apply Hbuilt]|].
  intros me2 [pack'|] Hk2 Hfit; [|by apply ev_ret].
  pose proof (ready_same _ _ Hk2 Hr1) as Hr2. rewrite <- (same_deref _ _ ptr Hk2) in Hd.
  eapply (ev_scoped me2 ptr def callRange
    (fun rec => bind (replace_and_rescan rec ptr def (Some pack') callRange) _)
    (fun rec result => match result with None => fail | Some (_, _, _) => bind _ _ end) (fun _ => ret None)
    (fun r => (cursor <= r.1.2)%nat)).
  - apply Hr2.
  - done.
  - intros me3 Hok3 Hrank3 _.
    assert (ready me3) as Hr3 by (split; [done|destruct Hr2; lia]).
    eapply ev_bind; [apply ev_replace; [done|destruct Hr2; lia|by apply Hfit]|].
    intros me4 nested Hk4 _. eapply ev_bind; [apply ev_alias; by eapply ready_same|].
    intros me5 [[tokens last]|] _ H; apply ev_ret; simpl; [|lia]. specialize (H tokens last eq_refl). lia.
  - intros me3 [[[out' cursor'] crossed]|] Hk3 H; [|apply ev_fail]. specialize (H _ eq_refl). simpl in H.
    apply (ev_bind me3 (fun rec => if crossed : bool then boundary_loop rec (S (length input)) input cursor' out'
                                  else ret (out', cursor')) _ (fun r => (cursor' <= r.2)%nat)).
    + destruct crossed; [|by apply ev_ret]. apply ev_boundary_loop; [by eapply ready_same|lia|lia].
    + intros me4 [out4 cursor4] _ Hc. apply ev_ret. simpl in Hc. intros tokens last [= <- <-]. lia.
  - intros me3 _. by apply ev_ret.
Qed.

Lemma handle_builtin_table (me : MacroExpander) (tok literal : Token) (me' : MacroExpander) :
  handle_builtin_identifier me tok = Some (literal, me') -> me_table me' = me_table me.
Proof.
  unfold handle_builtin_identifier, int_op, int_result. intros H.
  destruct (negb _); [done|]. destruct (tok_value tok); [|done]. cbn [mbind option_bind] in H.
  repeat (case_match; simplify_eq/=; try done).
Qed.

Lemma ev_loop (fuel : nat) (me : MacroExpander) (i : nat) (out : PPTokenBuffer) :
  ready me -> (length input - i < fuel)%nat ->
  ev me (fun rec => expand_loop rec fuel input i out) (fun _ => True).
Proof.
  revert me i out. induction fuel as [|fuel IH]; intros me i out Hr Hf; [lia|]. cbn [expand_loop].
  destruct (input !! i) as [tok|] eqn:Ei; [|by apply ev_ret].
  pose proof (lookup_lt_Some _ _ _ Ei) as Hi.
  assert (forall me' k o, kept me me' -> (i < k)%nat ->
    ev me' (fun rec => expand_loop rec fuel input k o) (fun _ => True)) as Hnext
    by (intros me' k o Hk Hik; apply IH; [by eapply ready_same|lia]).
  destruct (tt_eqb (tok_type tok) TOKEN_IDENTIFIER) eqn:Ety; cbn [negb].
  2:{ apply Hnext; [done|]. rewrite (drop_S input tok i Ei). simpl. rewrite Ety. simpl.
      destruct (span _ _); simpl; lia. }
  apply ev_get. destruct (handle_builtin_identifier me tok) as [[literal me1]|] eqn:Eb.
  { apply handle_builtin_table in Eb. eapply ev_bind; [by apply (ev_put _ _ (fun _ => True))|].
    intros me2 _ Hk _. apply Hnext; [done|lia]. }
  destruct (_ && _); [apply Hnext; [done|lia]|].
  eapply ev_bind; [apply ev_lookup|]. intros me1 [[ptr def]|] Hk1 Hfound; [|apply Hnext; [done|lia]].
  destruct Hfound as [Hd _]. rewrite <- (same_deref _ _ ptr Hk1) in Hd.
  pose proof (ready_same _ _ Hk1 Hr) as Hr1.
  eapply ev_bind; [apply ev_is_expanding; apply Hr1|]. intros me2 expanding Hk2 _.
  pose proof (ready_same _ _ Hk2 Hr1) as Hr2. rewrite <- (same_deref _ _ ptr Hk2) in Hd.
  assert (kept me me2) as Hk12 by (by etrans).
  destruct expanding; [apply Hnext; [done|lia]|].
  destruct (is_function def).
  - eapply ev_bind; [by apply ev_function|]. intros me3 [[out' last]|] Hk3 H.
    + specialize (H _ _ eq_refl). apply Hnext; [by etrans|lia].
    + apply Hnext; [by etrans|lia].
  - eapply ev_bind; [by apply ev_object|]. intros me3 [out' last] Hk3 H. simpl in H. apply Hnext; [by etrans|lia].
Qed.
End Round.

(** Every call returns: by the macros left, then by the length of the input. *)
Lemma ev_expand (R n : nat) (me : MacroExpander) (input : list Token) :
  me_ok me -> (rank me <= R)%nat -> (length input <= n)%nat -> ev me (fun rec => rec input) (fun _ => True).
Proof.
  revert n me input. induction R as [R IHR] using lt_wf_ind. intros n.
  induction n as [n IHn] using lt_wf_ind. intros me input Hok HR Hn.
  apply ev_call. eapply ev_bind; [by apply (ev_modify _ _ (fun _ => True))|]. intros me1 _ Hk _.
  apply (ev_loop R n); [| |done|split; [by eapply me_ok_same|by rewrite (rank_same me)]|lia].
  - intros me2 input2 Hok2 HR2 Hn2. by apply (IHn (length input2)).
  - intros me2 input2 Hok2 HR2. by apply (IHR (rank me2) HR2 (length input2)).
Qed.

(** ** More fuel keeps the result *)

Definition ext {A} (m m' : M A) : Prop := forall me x, m me = Some x -> m' me = Some x.

Lemma ext_refl {A} (m : M A) : ext m m.
Proof. by intros me x. Qed.

Lemma ext_bind {A B} (m m' : M A) (k k' : A -> M B) :
  ext m m' -> (forall a, ext (k a) (k' a)) -> ext (bind m k) (bind m' k').
Proof.
  intros Hm Hk me x. unfold bind. destruct (m me) as [[[a|] me1]|] eqn:E; [..|done].
  - rewrite (Hm _ _ E). apply Hk.
  - by rewrite (Hm _ _ E).
Qed.

Lemma ext_attempt {A} (m m' : M A) : ext m m' -> ext (attempt m) (attempt m').
Proof. intros Hm me x. unfold attempt. destruct (m me) as [[r me1]|] eqn:E; [by rewrite (Hm _ _ E)|done]. Qed.

(** Steps through a computation: a call by its lemma [call], else by its head. *)
Ltac ext_steps call :=
  repeat first
    [ match goal with |- ext ?m ?m => apply ext_refl end
    | call
    | lazymatch goal with
      | |- ext (bind _ _) _ => apply ext_bind; [|intros ?]
      | |- ext (attempt _) _ => apply ext_attempt
      | |- ext (match ?x with _ => _ end) _ => destruct x
      end ].

Section Monotone.
Context (rec rec' : Rec) (Hrec : forall input, ext (rec input) (rec' input)).

Lemma ext_arguments (args : list MacroArg) : ext (expand_arguments rec args) (expand_arguments rec' args).
Proof.
  induction args as [|a args IH]; cbn [expand_arguments]; [apply ext_refl|].
  apply ext_bind; [unfold expand_macro_argument; ext_steps ltac:(apply Hrec)|].
  intros e. ext_steps ltac:(apply IH).
Qed.

Lemma ext_pack (pack : MacroArgPack) : ext (expand_macro_arguments rec pack) (expand_macro_arguments rec' pack).
Proof. unfold expand_macro_arguments. ext_steps ltac:(apply ext_arguments). Qed.

Lemma ext_replace ptr def args callRange :
  ext (replace_and_rescan rec ptr def args callRange) (replace_and_rescan rec' ptr def args callRange).
Proof. unfold replace_and_rescan. ext_steps ltac:(apply Hrec). Qed.

Lemma ext_alias input i expanded :
  ext (try_expand_function_like_alias_boundary rec input i expanded)
      (try_expand_function_like_alias_boundary rec' input i expanded).
Proof.
  unfold try_expand_function_like_alias_boundary.
  ext_steps ltac:(idtac; lazymatch goal with
    | |- ext (expand_macro_arguments _ _) _ => apply ext_pack
    | |- ext (replace_and_rescan _ _ _ _ _) _ => apply ext_replace end).
Qed.

Lemma ext_boundary_loop fuel input cursor out :
  ext (boundary_loop rec fuel input cursor out) (boundary_loop rec' fuel input cursor out).
Proof.
  revert cursor out. induction fuel as [|fuel IH]; intros cursor out; cbn [boundary_loop]; [apply ext_refl|].
  unfold try_expand_accumulated_function_boundary.
  ext_steps ltac:(idtac; lazymatch goal with
    | |- ext (try_expand_function_like_alias_boundary _ _ _ _) _ => apply ext_alias
    | |- ext (boundary_loop _ _ _ _ _) _ => apply IH end).
Qed.

Lemma ext_object input i ptr def callRange out :
  ext (expand_object rec input i ptr def callRange out) (expand_object rec' input i ptr def callRange out).
Proof.
  unfold expand_object.
  ext_steps ltac:(idtac; lazymatch goal with
    | |- ext (try_expand_function_like_alias_boundary _ _ _ _) _ => apply ext_alias
    | |- ext (replace_and_rescan _ _ _ _ _) _ => apply ext_replace end).
Qed.

Lemma ext_function input i ptr def callRange out :
  ext (expand_function rec input i ptr def callRange out) (expand_function rec' input i ptr def callRange out).
Proof.
  unfold expand_function.
  ext_steps ltac:(idtac; lazymatch goal with
    | |- ext (expand_macro_arguments _ _) _ => apply ext_pack
    | |- ext (try_expand_function_like_alias_boundary _ _ _ _) _ => apply ext_alias
    | |- ext (replace_and_rescan _ _ _ _ _) _ => apply ext_replace
    | |- ext (boundary_loop _ _ _ _ _) _ => apply ext_boundary_loop end).
Qed.

Lemma ext_loop fuel input i out : ext (expand_loop rec fuel input i out) (expand_loop rec' fuel input i out).
Proof.
  revert i out. induction fuel as [|fuel IH]; intros i out; cbn [expand_loop]; [apply ext_refl|].
  ext_steps ltac:(idtac; lazymatch goal with
    | |- ext (expand_object _ _ _ _ _ _ _) _ => apply ext_object
    | |- ext (expand_function _ _ _ _ _ _ _) _ => apply ext_function
    | |- ext (expand_loop _ _ _ _ _) _ => apply IH end).
Qed.
End Monotone.

Lemma ext_expand (fuel fuel' : nat) (input : list Token) :
  (fuel <= fuel')%nat -> ext (macro_expander_expand fuel input) (macro_expander_expand fuel' input).
Proof.
  revert fuel' input. induction fuel as [|fuel IH]; intros [|fuel'] input Hf;
    [apply ext_refl|intros me x H; cbv in H; discriminate H|lia|].
  cbn [macro_expander_expand]. apply ext_bind; [apply ext_refl|]. intros _. apply ext_loop.
  intros input'. apply IH. lia.
Qed.

(** With whatever fuel, a result leaves the table as it was. *)
Lemma expand_keeps (fuel : nat) (input : list Token) (me me' : MacroExpander) (r : option PPTokenBuffer) :
  me_ok me -> macro_expander_expand fuel input me = Some (r, me') -> kept me me'.
Proof.
  intros Hok Hrun. destruct (ev_expand (rank me) (length input) me input Hok) as (f & r' & me2 & H & Hk & _); [done..|].
  pose proof (ext_expand fuel (fuel `max` f) input ltac:(lia) _ _ Hrun) as H1. rewrite H in H1 by lia. by simplify_eq.
Qed.

(** C30: expansion always returns.  On a table with distinct names whose frames are live and
    distinct, there is a nesting depth from which on the result is the same, whatever the
    macros refer to, themselves and one another included; whether it succeeds or fails, the
    macros and the expansion stack are those it started with; and a result at any depth is
    that result. *)
Theorem macro_expansion_returns (me : MacroExpander) (input : list Token) :
  me_ok me ->
  exists fuel r me', (forall fuel', (fuel <= fuel')%nat -> macro_expander_expand fuel' input me = Some (r, me')) /\
    mt_macros (me_table me') = mt_macros (me_table me) /\
    mt_expansionStack (me_table me') = mt_expansionStack (me_table me) /\
    (forall fuel' x, macro_expander_expand fuel' input me = Some x -> x = (r, me')).
Proof.
  intros Hok. destruct (ev_expand (rank me) (length input) me input Hok) as (fuel & r & me' & H & Hk & _); [done..|].
  exists fuel, r, me'. split; [done|]. split_and!; [by destruct Hk..|].
  intros fuel' x Hx. pose proof (ext_expand fuel' (fuel `max` fuel') input ltac:(lia) _ _ Hx) as H1.
  rewrite H in H1 by lia. by simplify_eq.
Qed.

(** Two macros that name each other. *)
Definition cyclic_table : MacroTable :=
  macro_table_define_object
    (macro_table_define_object macro_table_create "A" [plain_token TOKEN_IDENTIFIER "B" 1] empty_source_range)
    "B" [plain_token TOKEN_IDENTIFIER "A" 2] empty_source_range.

Lemma macro_expansion_returns_witness :
  me_ok (macro_expander_init cyclic_table) /\
  exists fuel r me', (forall fuel', (fuel <= fuel')%nat ->
      macro_expander_expand fuel' [plain_token TOKEN_IDENTIFIER "A" 3] (macro_expander_init cyclic_table) = Some (r, me')) /\
    mt_macros (me_table me') = mt_macros cyclic_table.
Proof.
  assert (me_ok (macro_expander_init cyclic_table)) as Hok.
  { split; [apply (bool_decide_unpack _); vm_compute; exact I|].
    split; [constructor|constructor|right; apply Nat.leb_le; reflexivity]. }
  split; [exact Hok|].
  destruct (macro_expansion_returns (macro_expander_init cyclic_table) [plain_token TOKEN_IDENTIFIER "A" 3] Hok)
    as (fuel & r & me' & H1 & H2 & _).
  exists fuel, r, me'. split; [exact H1|exact H2].
Defined.
