(* ===== verification/MacroExpanderSpec.v ===== *)
(** * What macro expansion computes: arguments, argument counts, object-like macros.

    [join_args] is the text of an argument list.  [ref_object] expands object-like macros
    with a set of hidden names, as the C standard describes it. *)
From S2P Require Import Prelude StateError CType Tokens LexerSource Lexer LexerSafety MacroTable MacroExpander MacroExpanderSafety.

(** ** Argument lists *)

(** Parentheses match from depth [d] on, and every comma is inside some. *)
Fixpoint arg_ok (d : Z) (a : list Token) : bool :=
  match a with
  | [] => d =? 0
  | tok :: a' =>
      if tt_eqb (tok_type tok) TOKEN_LPAREN then arg_ok (d + 1) a'
      else if tt_eqb (tok_type tok) TOKEN_RPAREN then (0 <? d) && arg_ok (d - 1) a'
      else if tt_eqb (tok_type tok) TOKEN_COMMA then (0 <? d) && arg_ok d a'
      else arg_ok d a'
  end.

(** The first argument, then a comma token and an argument for each further one. *)
Definition join_args (a : list Token) (more : list (Token * list Token)) : list Token :=
  a ++ (more ≫= fun p => p.1 :: p.2).

Lemma tt_eqb_neq (t1 t2 : TokenType) : t1 <> t2 -> tt_eqb t1 t2 = false.
Proof. intros H. destruct (tt_eqb t1 t2) eqn:E; [by apply tt_eqb_spec in E|done]. Qed.

(** One argument is read to its end. *)
Lemma parse_one_argument (a rest : list Token) (idx : nat) (d : Z) (current : PPTokenBuffer) (outs : list PPTokenBuffer) :
  0 <= d -> arg_ok d a = true ->
  parse_arguments (a ++ rest) idx d current outs = parse_arguments rest (idx + length a) 0 (current ++ a) outs.
Proof.
  revert idx d current. induction a as [|tok a IH]; intros idx d current Hd Hok; cbn [arg_ok] in Hok.
  - apply Z.eqb_eq in Hok as ->. simpl. by rewrite Nat.add_0_r, app_nil_r.
  - cbn [app parse_arguments length].
    replace (idx + S (length a))%nat with (S idx + length a)%nat by lia.
    change (current ++ tok :: a) with (current ++ [tok] ++ a). rewrite app_assoc.
    destruct (tt_eqb (tok_type tok) TOKEN_LPAREN) eqn:El.
    + apply tt_eqb_spec in El. rewrite El, !tt_eqb_neq by done. simpl. rewrite IH by (done || lia). done.
    + destruct (tt_eqb (tok_type tok) TOKEN_RPAREN) eqn:Er.
      * apply andb_true_iff in Hok as [Hpos%Z.ltb_lt Hok]. apply tt_eqb_spec in Er.
        assert ((d =? 0) = false) as -> by lia. rewrite Er, !tt_eqb_neq by done. simpl.
        rewrite IH by (done || lia). done.
      * destruct (tt_eqb (tok_type tok) TOKEN_COMMA) eqn:Ec; simpl.
        -- apply andb_true_iff in Hok as [Hpos%Z.ltb_lt Hok]. assert ((d =? 0) = false) as -> by lia.
           rewrite IH by done. done.
        -- rewrite IH by done. done.
Qed.

Lemma parse_args (more : list (Token * list Token)) (a : list Token) (close : Token) (rest : list Token)
    (idx : nat) (outs : list PPTokenBuffer) :
  arg_ok 0 a = true -> Forall (fun p => tok_type p.1 = TOKEN_COMMA /\ arg_ok 0 p.2 = true) more ->
  tok_type close = TOKEN_RPAREN ->
  parse_arguments (join_args a more ++ close :: rest) idx 0 [] outs =
    Some (S (idx + length (join_args a more)), List.last (a :: map snd more) [],
          outs ++ removelast (a :: map snd more)).
Proof.
  intros Ha Hmore Hclose. revert a idx outs Ha. induction Hmore as [|[c b] more [Hc Hb] _ IH]; intros a idx outs Ha.
  - unfold join_args. simpl. rewrite app_nil_r, parse_one_argument by done. cbn [parse_arguments]. rewrite Hclose. simpl.
    by rewrite app_nil_r.
  - assert (join_args a ((c, b) :: more) = a ++ c :: join_args b more) as -> by done.
    rewrite <- app_assoc, parse_one_argument by done. cbn [app parse_arguments]. simpl in Hc, Hb. rewrite Hc. simpl.
    rewrite IH by done. rewrite length_app. cbn [length map snd].
    replace (S (S (idx + length a) + length (join_args b more)))%nat
      with (S (idx + (length a + S (length (join_args b more)))))%nat by lia.
    change (removelast (a :: b :: map snd more)) with (a :: removelast (b :: map snd more)).
    by rewrite <- app_assoc.
Qed.

Lemma parse_call (pre a : list Token) (more : list (Token * list Token)) (close : Token)
    (rest : list Token) (def : MacroDefinition) :
  arg_ok 0 a = true -> Forall (fun p => tok_type p.1 = TOKEN_COMMA /\ arg_ok 0 p.2 = true) more ->
  tok_type close = TOKEN_RPAREN ->
  parse_macro_argument_tokens (pre ++ join_args a more ++ close :: rest) (length pre) def =
    Some (if bool_decide (a = [] /\ more = [] /\ mp_names (md_params def) = []) &&
             negb (mp_variadic (md_params def)) then [] else a :: map snd more,
          (length pre + length (join_args a more) + 1)%nat).
Proof.
  intros Ha Hmore Hclose. unfold parse_macro_argument_tokens. rewrite drop_app_length.
  rewrite (parse_args more a close rest (length pre) []) by done. cbn [mbind option_bind app].
  rewrite Nat.add_1_r. f_equal. f_equal.
  destruct more as [|[c b] more].
  - cbn [map List.last removelast app]. destruct a, (mp_names (md_params def)), (mp_variadic (md_params def)); done.
  - rewrite (bool_decide_false (a = [] /\ _)) by (by intros (_ & ? & _)). cbn [andb map snd].
    rewrite (bool_decide_true (removelast _ <> [])) by done. rewrite orb_true_r. cbn [orb].
    by rewrite <- app_removelast_last by done.
Qed.

(** C31: an argument list is cut at its top-level commas: for arguments whose parentheses
    match and whose commas are inside them, joined by commas and closed, the parser gives
    exactly these arguments (one empty argument is none for a macro without parameters) and
    the cursor behind the closing parenthesis. *)
Theorem arguments_split (pre a : list Token) (more : list (Token * list Token)) (close : Token)
    (rest : list Token) (def : MacroDefinition) :
  arg_ok 0 a = true -> Forall (fun p => tok_type p.1 = TOKEN_COMMA /\ arg_ok 0 p.2 = true) more ->
  tok_type close = TOKEN_RPAREN ->
  parse_macro_argument_tokens (pre ++ join_args a more ++ close :: rest) (length pre) def =
    Some (if bool_decide (a = [] /\ more = [] /\ mp_names (md_params def) = []) &&
             negb (mp_variadic (md_params def)) then [] else a :: map snd more,
          (length pre + length (join_args a more) + 1)%nat).
Proof. apply parse_call. Qed.

Definition tok (ty : TokenType) (v : string) : Token := plain_token ty v 1.
Definition sample_function : MacroDefinition :=
  mkMacroDefinition "F" MACRO_FUNCTION (mkMacroParamList ["x"; "y"]%string false false)
    [tok TOKEN_IDENTIFIER "x"] empty_source_range.

(** [(f(1,2)) , b)] *)
Lemma arguments_split_witness :
  let a := [tok TOKEN_LPAREN "("; tok TOKEN_NUMBER "1"; tok TOKEN_COMMA ","; tok TOKEN_RPAREN ")"] in
  let more := [(tok TOKEN_COMMA ",", [tok TOKEN_IDENTIFIER "b"])] in
  arg_ok 0 a = true /\ Forall (fun p => tok_type p.1 = TOKEN_COMMA /\ arg_ok 0 p.2 = true) more /\
  parse_macro_argument_tokens ([] ++ join_args a more ++ tok TOKEN_RPAREN ")" :: []) 0 sample_function =
    Some ([a; [tok TOKEN_IDENTIFIER "b"]], 7%nat).
Proof.
  intros a more.
  assert (Forall (fun p => tok_type p.1 = TOKEN_COMMA /\ arg_ok 0 p.2 = true) more) as Hm
    by (apply Forall_cons; split; [split; reflexivity|apply Forall_nil; exact I]).
  split; [reflexivity|]. split; [exact Hm|].
  exact (arguments_split [] a more (tok TOKEN_RPAREN ")") [] sample_function eq_refl Hm eq_refl).
Defined.

(** ** Wrong numbers of arguments *)

(** The numbers of arguments C accepts. *)
Definition accepts_count (def : MacroDefinition) (n : nat) : bool :=
  if mp_variadic (md_params def) then bool_decide (length (mp_names (md_params def)) <= n)%nat
  else bool_decide (n = length (mp_names (md_params def))).

Lemma build_refuses (me : MacroExpander) (ptr : MacroPtr) (def : MacroDefinition) (a : PPTokenBuffer)
    (more : list PPTokenBuffer) (cs : SourceRange) :
  a <> [] \/ more <> [] -> accepts_count def (S (length more)) = false ->
  build_macro_arg_pack ptr def (a :: more) cs me =
    Some (None, macro_expander_set_arg_count_error me ptr def cs (length (mp_names (md_params def))) (S (length more))).
Proof.
  intros Hne Hc. unfold build_macro_arg_pack.
  assert ((if bool_decide (0 < length (mp_names (md_params def)))%nat && match a :: more with [[]] => true | _ => false end
           then 0%nat else length (a :: more)) = S (length more)) as ->.
  { destruct a, more; try (by rewrite andb_false_r). by destruct Hne. }
  unfold accepts_count in Hc.
  assert ((if mp_variadic (md_params def) then bool_decide (S (length more) < length (mp_names (md_params def)))%nat
           else negb (bool_decide (S (length more) = length (mp_names (md_params def))))) = true) as ->.
  { destruct (mp_variadic _); [|by rewrite Hc]. rewrite bool_decide_eq_false in Hc. apply bool_decide_eq_true. lia. }
  done.
Qed.

(** The names the expander replaces itself. *)
Definition builtin_names : list string :=
  ["__FILE__"; "__LINE__"; "__BASE_FILE__"; "__COUNTER__"; "__DATE__"; "__TIME__"]%string.

Lemma not_builtin (me : MacroExpander) (t : Token) (name : string) :
  tok_value t = Some name -> name ∉ builtin_names -> handle_builtin_identifier me t = None.
Proof.
  intros Hv Hn. unfold handle_builtin_identifier. rewrite Hv. cbn [mbind option_bind].
  destruct (negb _); [done|]. unfold builtin_names in Hn.
  rewrite !not_elem_of_cons in Hn. destruct Hn as (H1 & H2 & H3 & H4 & H5 & H6 & _).
  by rewrite !bool_decide_false.
Qed.

(** An identifier that names a macro which is not being expanded. *)
Record calls (me : MacroExpander) (callee : Token) (name : string) (ptr : MacroPtr) (def : MacroDefinition) : Prop := {
  call_type : tok_type callee = TOKEN_IDENTIFIER;
  call_value : tok_value callee = Some name;
  call_builtin : name ∉ builtin_names;
  call_lookup : macro_table_lookup (me_table me) name = Some ptr;
  call_deref : deref (me_table me) ptr = Some def;
  call_free : name ∉ expanding_names (me_table me)
}.

Lemma lookup_macro_found (me : MacroExpander) (name : string) (ptr : MacroPtr) (def : MacroDefinition) :
  macro_table_lookup (me_table me) name = Some ptr -> deref (me_table me) ptr = Some def ->
  lookup_macro (Some name) me = Some (Some (Some (ptr, def)), me).
Proof. intros Hl Hd. unfold lookup_macro, bind, get. rewrite Hl. unfold lift. by rewrite Hd. Qed.

Lemma lookup_macro_missing (me : MacroExpander) (name : string) :
  macro_table_lookup (me_table me) name = None -> lookup_macro (Some name) me = Some (Some None, me).
Proof. intros Hl. unfold lookup_macro, bind, get. by rewrite Hl. Qed.

Lemma lookup_macro_run (me : MacroExpander) (callee : Token) (name : string) (ptr : MacroPtr) (def : MacroDefinition) :
  calls me callee name ptr def -> lookup_macro (tok_value callee) me = Some (Some (Some (ptr, def)), me).
Proof. intros [_ Hv _ Hl Hd _]. rewrite Hv. by apply lookup_macro_found. Qed.

Lemma is_expanding_run (me : MacroExpander) (name : string) :
  me_ok me -> is_expanding name me = Some (Some (bool_decide (name ∈ expanding_names (me_table me))), me).
Proof. intros [_ Hfr]. unfold is_expanding, bind, get. by rewrite is_expanding_spec by apply Hfr. Qed.

(** A token the expander copies: it names no macro. *)
Definition inert (me : MacroExpander) (t : Token) : Prop :=
  tok_type t = TOKEN_IDENTIFIER -> forall name, tok_value t = Some name ->
  (name ∉ builtin_names) /\ macro_table_lookup (me_table me) name = None.

Lemma expand_loop_inert (rec : Rec) (me : MacroExpander) (pre tail : list Token) (callee : Token) (n : nat)
    (out : PPTokenBuffer) (before : list Token) :
  Forall (inert me) pre -> tok_type callee = TOKEN_IDENTIFIER -> (length pre < n)%nat ->
  exists n', (0 < n')%nat /\
    expand_loop rec n (before ++ pre ++ callee :: tail) (length before) out me =
    expand_loop rec n' (before ++ pre ++ callee :: tail) (length (before ++ pre)) (out ++ pre) me.
Proof.
  intros Hpre Hc. remember (length pre) as k eqn:Ek. revert pre n out before Ek Hpre.
  induction (lt_wf k) as [k _ IH]. intros pre n out before -> Hpre Hn.
  destruct pre as [|t pre]; [exists n; by rewrite !app_nil_r|]. simpl in Hn. destruct n as [|n]; [lia|].
  assert (forall run rest, t :: pre = run ++ rest -> run <> [] -> exists n', (0 < n')%nat /\
    expand_loop rec n (before ++ (t :: pre) ++ callee :: tail) (length before + length run) (out ++ run) me =
    expand_loop rec n' (before ++ (t :: pre) ++ callee :: tail) (length (before ++ t :: pre)) (out ++ t :: pre) me) as Hnext.
  { intros run rest E Hrun. assert (length (t :: pre) = length run + length rest)%nat as El by (by rewrite E, length_app).
    assert (0 < length run)%nat by (destruct run; [done|simpl; lia]). simpl in El.
    destruct (IH (length rest) ltac:(simpl; lia) rest n (out ++ run) (before ++ run)) as (n' & Hn' & Hrun'); [done| |lia|].
    { rewrite E in Hpre. by apply Forall_app in Hpre as [_ ?]. }
    exists n'. split; [done|]. rewrite E. rewrite <- !app_assoc, length_app in Hrun'. rewrite <- app_assoc. exact Hrun'. }
  cbn [expand_loop]. rewrite lookup_app_r, Nat.sub_diag by lia. cbn [app lookup list_lookup].
  destruct (tt_eqb (tok_type t) TOKEN_IDENTIFIER) eqn:Ety; cbn [negb].
  2:{ rewrite drop_app_length. set (f := fun t0 => negb (tt_eqb (tok_type t0) TOKEN_IDENTIFIER)).
      assert (exists run rest, t :: pre = run ++ rest /\ run <> [] /\ (span f (t :: pre ++ callee :: tail)).1 = run)
        as (run & rest & E & Hrun & ->).
      { exists (span f (t :: pre)).1, (span f (t :: pre)).2. split_and!; [by rewrite span_app| |].
        - simpl. unfold f at 1. rewrite Ety. by destruct (span f pre).
        - clear -Hc. assert (f callee = false) as Hf by (unfold f; by rewrite Hc).
          rewrite app_comm_cons. generalize (t :: pre). intros l. induction l as [|x l IHl].
          + cbn [app span]. by rewrite Hf.
          + cbn [app span]. destruct (f x); [|done]. destruct (span f (l ++ callee :: tail)), (span f l). simpl in *. by subst. }
      unfold token_clone. rewrite map_id. by apply (Hnext run rest). }
  apply tt_eqb_spec in Ety. inversion_clear Hpre as [|? ? Ht _]. specialize (Ht Ety).
  unfold bind at 1, get. destruct (Hnext [t] pre eq_refl ltac:(done)) as (n' & Hn' & Hrun). rewrite Nat.add_1_r in Hrun.
  assert (handle_builtin_identifier me t = None) as ->.
  { destruct (tok_value t) as [name|] eqn:Ev; [by apply (not_builtin me t name); [|apply Ht]|].
    unfold handle_builtin_identifier. rewrite Ev. by destruct (negb _). }
  exists n'. split; [done|]. etransitivity; [|exact Hrun]. destruct (_ && _); [done|]. unfold bind at 1.
  destruct (tok_value t) as [name|] eqn:Ev; [by rewrite lookup_macro_missing by apply (Ht name eq_refl)|].
  done.
Qed.

(** The loop at a call with a wrong number of arguments. *)
Lemma expand_loop_wrong_count (rec : Rec) (n i : nat) (me : MacroExpander) (name : string) (ptr : MacroPtr)
    (def : MacroDefinition) (callee lparen : Token) (input : list Token) (a : PPTokenBuffer) (more : list PPTokenBuffer)
    (cursor : nat) (out : PPTokenBuffer) :
  me_ok me -> calls me callee name ptr def -> md_kind def = MACRO_FUNCTION ->
  input !! i = Some callee -> input !! S i = Some lparen -> tok_type lparen = TOKEN_LPAREN ->
  me_preserveDefinedOperands me && token_is_defined_operand_context input i = false ->
  parse_macro_argument_tokens input (i + 2) def = Some (a :: more, cursor) ->
  a <> [] \/ more <> [] -> accepts_count def (S (length more)) = false ->
  expand_loop rec (S n) input i out me =
    Some (None, macro_expander_set_arg_count_error me ptr def (call_range callee)
                  (length (mp_names (md_params def))) (S (length more))).
Proof.
  intros Hok Hcall Hk Hi Hi1 Hlp Hpres Hp Hne Hc. pose proof Hcall as [Hty Hv Hb _ _ Hfree].
  cbn [expand_loop]. rewrite Hi, Hty.
  cbn [tt_eqb TokenType_code Z.eqb Pos.eqb negb]. unfold bind at 1, get. rewrite (not_builtin me callee name Hv Hb), Hpres.
  unfold bind at 1. rewrite (lookup_macro_run _ _ _ _ _ Hcall). cbv beta iota.
  unfold bind at 1. unfold token_text. rewrite Hv, (is_expanding_run me) by done. cbn [default].
  rewrite bool_decide_false by done. cbv beta iota. unfold is_function. rewrite Hk.
  unfold bind at 1, expand_function. rewrite Hi1. unfold has_type. rewrite Hlp.
  cbn [tt_eqb TokenType_code Z.eqb Pos.eqb negb]. rewrite Hp.
  unfold bind at 1, attempt at 1. by rewrite build_refuses.
Qed.


Definition function_table : MacroTable :=
  macro_table_define_function macro_table_create "F" ["x"; "y"]%string false false
    [tok TOKEN_IDENTIFIER "x"] empty_source_range.


(** A single empty argument of a one-parameter macro counts as none: [F()] is refused. *)
Example empty_argument_refused :
  let table := macro_table_define_function macro_table_create "F" ["x"]%string false false [] empty_source_range in
  match macro_expander_expand 2 [tok TOKEN_IDENTIFIER "F"; tok TOKEN_LPAREN "("; tok TOKEN_RPAREN ")"]
          (macro_expander_init table) with
  | Some (None, me) => mei_providedArgs (me_lastError me) = 0%nat
  | _ => False
  end.
Proof. by vm_compute. Qed.

(** ** Object-like macros *)

(** What a token is, without its place. *)
Definition Text : Type := TokenType * option string.
Definition text_of (t : Token) : Text := (tok_type t, tok_value t).

(** To the standard's preprocessor a keyword is a name like any other. *)
Definition is_name (ty : TokenType) : bool :=
  (TokenType_code ty <=? TokenType_code TOKEN_IDENTIFIER) || tt_eqb ty TOKEN_ASM.

Definition name_of (t : Text) : option string := if is_name t.1 then t.2 else None.

(** The replacement of every name that is not hidden, with the name hidden in it. *)
Fixpoint ref_object (m : gmap string (list Text)) (fuel : nat) (hidden : gset string) (ts : list Text) : list Text :=
  match fuel with
  | O => ts
  | S fuel' =>
      ts ≫= fun t =>
        match name_of t with
        | Some name =>
            if decide (name ∈ hidden) then [t]
            else match m !! name with
                 | Some body => ref_object m fuel' ({[name]} ∪ hidden) body
                 | None => [t]
                 end
        | None => [t]
        end
  end.

(** Replacement lists by name. *)
Definition bodies (t : MacroTable) : gmap string (list Text) := (fun d => text_of <$> md_body d) <$> table_map t.

(** A token that is neither [##], nor a builtin name, nor a keyword that names a macro. *)
Definition simple_token (macros : list MacroDefinition) (t : Token) : Prop :=
  tok_type t <> TOKEN_DOUBLE_HASH /\ (forall name, tok_value t = Some name -> name ∉ builtin_names) /\
  (tok_type t <> TOKEN_IDENTIFIER -> is_name (tok_type t) = true ->
   forall d, d ∈ macros -> tok_value t <> Some (md_name d)).

(** Object-like macros with simple replacement lists, fewer than the depth limit. *)
Record objects_only (t : MacroTable) : Prop := {
  obj_kind : Forall (fun d => md_kind d = MACRO_OBJECT /\ Forall (simple_token (mt_macros t)) (md_body d)) (mt_macros t);
  obj_limit : mt_expansionLimit t = 0%nat \/ (length (mt_macros t) < mt_expansionLimit t)%nat
}.

Lemma paste_loop_plain (macros : list MacroDefinition) (ts : PPTokenBuffer) (pending : option Token)
    (result : PPTokenBuffer) (origin : SourceRange) (me : MacroExpander) :
  Forall (simple_token macros) ts ->
  paste_loop ts 0 pending result origin me =
    Some (Some (result ++ match pending with Some p => [p] | None => [] end ++ ts), me).
Proof.
  intros Hts. revert pending result. induction Hts as [|t ts [Ht _] _ IH]; intros pending result; cbn [paste_loop].
  - by rewrite app_nil_r.
  - unfold is_paste. rewrite (tt_eqb_neq _ TOKEN_DOUBLE_HASH) by done. rewrite IH. by rewrite <- !app_assoc.
Qed.

Lemma mark_origin_text (def : MacroDefinition) (cs : SourceRange) (t : Token) : text_of (mark_origin def cs t) = text_of t.
Proof. unfold mark_origin. repeat case_match; done. Qed.

Lemma substitute_object (macros : list MacroDefinition) (me : MacroExpander) (ptr : MacroPtr) (def : MacroDefinition)
    (cs : SourceRange) :
  md_kind def = MACRO_OBJECT -> Forall (simple_token macros) (md_body def) ->
  substitute_macro ptr def None cs me = Some (Some (map (mark_origin def cs) (md_body def)), me).
Proof.
  intros Hk Hb. unfold substitute_macro.
  assert (forall fuel i w, (length (md_body def) - i < fuel)%nat -> w = take i (md_body def) ->
    substitute_from fuel (TableMacro ptr) def None cs i w me = Some (Some (map (mark_origin def cs) (md_body def)), me)) as H.
  { induction fuel as [|fuel IH]; intros i w Hf ->; [lia|]. cbn [substitute_from].
    destruct (md_body def !! i) as [t|] eqn:Ei.
    - unfold is_function. rewrite Hk. apply lookup_lt_Some in Ei as Hi. apply IH; [lia|].
      by rewrite (take_S_r _ _ t).
    - apply lookup_ge_None in Ei. rewrite take_ge by done. unfold bind, apply_token_paste.
      by rewrite (paste_loop_plain macros). }
  apply H; [lia|done].
Qed.

Lemma boundary_objects (rec : Rec) (me : MacroExpander) (input : list Token) (i : nat) (expanded : PPTokenBuffer) :
  Forall (fun d => md_kind d = MACRO_OBJECT) (mt_macros (me_table me)) ->
  try_expand_function_like_alias_boundary rec input i expanded me = Some (Some None, me).
Proof.
  intros Hobj. unfold try_expand_function_like_alias_boundary.
  destruct (list.last expanded) as [callee|]; [|done]. destruct (negb _); [done|]. destruct (negb _); [done|].
  unfold lookup_macro, bind, get. destruct (tok_value callee) as [name|]; [|done].
  unfold macro_table_lookup. destruct (list_find _ _) as [[k d]|] eqn:E; [|done]. simpl.
  apply list_find_Some in E as (Hd & _). unfold deref. simpl. rewrite decide_True, Hd by done. simpl.
  rewrite Forall_lookup in Hobj. unfold is_function. by rewrite (Hobj _ _ Hd).
Qed.

(** What lookup finds, in the map of replacement lists. *)
Lemma lookup_objects (me : MacroExpander) (name : string) :
  me_ok me ->
  match macro_table_lookup (me_table me) name with
  | None => bodies (me_table me) !! name = None
  | Some p => exists d, deref (me_table me) p = Some d /\ md_name d = name /\ d ∈ mt_macros (me_table me) /\
                bodies (me_table me) !! name = Some (text_of <$> md_body d)
  end.
Proof.
  intros [Hnd _]. unfold bodies. rewrite lookup_fmap. change (table_map (me_table me)) with (mmap (mt_macros (me_table me))).
  unfold macro_table_lookup. destruct (list_find _ _) as [[k d]|] eqn:E; simpl.
  - apply list_find_Some in E as (Hd & Hname & _). exists d.
    pose proof (list_elem_of_lookup_2 _ _ _ Hd) as Hin.
    rewrite (proj2 (mmap_lookup _ name d Hnd)) by done. unfold deref. simpl. by rewrite decide_True.
  - assert (mmap (mt_macros (me_table me)) !! name = None) as ->; [|done].
    apply mmap_lookup_None. intros (d & Hname & Hd)%list_elem_of_fmap. apply list_find_None in E.
    rewrite Forall_forall in E. by apply (E d Hd).
Qed.

Definition hidden (me : MacroExpander) : gset string := list_to_set (expanding_names (me_table me)).

Lemma bodies_macros (t t' : MacroTable) : mt_macros t' = mt_macros t -> bodies t' = bodies t.
Proof. intros H. unfold bodies, table_map. by rewrite H. Qed.

Lemma objects_only_same (t t' : MacroTable) :
  mt_macros t' = mt_macros t -> mt_expansionLimit t' = mt_expansionLimit t -> objects_only t -> objects_only t'.
Proof. intros Hm Hl [Hk Hlim]. split; by rewrite ?Hm, ?Hl. Qed.

(** A macro that is not being expanded can be pushed, and is then hidden. *)
Lemma push_object (me : MacroExpander) (ptr : MacroPtr) (def : MacroDefinition) (cs : SourceRange) :
  me_ok me -> objects_only (me_table me) -> deref (me_table me) ptr = Some def ->
  (md_name def ∉ expanding_names (me_table me)) ->
  exists me1, push_expansion ptr def cs me = Some (Some true, me1) /\ me_ok me1 /\ (rank me1 < rank me)%nat /\
    mt_macros (me_table me1) = mt_macros (me_table me) /\ mt_base (me_table me1) = mt_base (me_table me) /\
    mt_expansionLimit (me_table me1) = mt_expansionLimit (me_table me) /\
    mt_macroCapacity (me_table me1) = mt_macroCapacity (me_table me) /\
    me_preserveDefinedOperands me1 = me_preserveDefinedOperands me /\
    hidden me1 = {[md_name def]} ∪ hidden me /\
    exists frame, mf_macro frame = ptr /\
      mt_expansionStack (me_table me1) = mt_expansionStack (me_table me) ++ [frame].
Proof.
  intros [Hnd Hfr] [_ Hlimit] Hd Hname.
  destruct (push_expansion_cases (me_table me) ptr def cs (md_definitionRange def) Hfr Hd)
    as (b & t' & Hpush & Hm & Hb & Hl & Hcase).
  pose proof (push_expansion_keeps _ _ _ _ _ _ _ Hfr Hd Hpush) as Hfr'.
  pose proof (frames_bounded _ Hfr) as Hbound.
  destruct b; [|destruct Hcase as (_ & [[_ ?]|(_ & ? & _)]); [lia|done]].
  destruct Hcase as (_ & _ & Hst). exists (set_table me t').
  pose proof (frames_bounded _ Hfr') as Hbound'. rewrite Hm, Hst, length_app in Hbound'. simpl in Hbound'.
  split_and!; try done.
  - unfold push_expansion, bind, get. simpl. by rewrite Hpush.
  - by split; simpl; [rewrite Hm|].
  - unfold rank. simpl. rewrite Hm, Hst, length_app. simpl. lia.
  - by apply push_expansion_capacity in Hpush.
  - unfold hidden, expanding_names. cbn [set_table me_table]. rewrite Hst, omap_app.
    rewrite (list_omap_ext _ (frame_name (me_table me)) _ (mt_expansionStack (me_table me))).
    2:{ apply Forall_Forall2_diag, Forall_true. intros f. unfold frame_name, deref. by rewrite Hm, Hb. }
    simpl. unfold frame_name at 2. simpl. unfold deref at 1. rewrite Hb, Hm. fold (deref (me_table me) ptr).
    rewrite Hd. simpl. rewrite list_to_set_app_L. simpl. set_solver.
  - eexists. split; [|exact Hst]. done.
Qed.

(** The contribution of one token. *)
Definition ref_token (m : gmap string (list Text)) (fuel : nat) (hidden : gset string) (t : Text) : list Text :=
  match name_of t with
  | Some name =>
      if decide (name ∈ hidden) then [t]
      else match m !! name with
           | Some body => ref_object m fuel ({[name]} ∪ hidden) body
           | None => [t]
           end
  | None => [t]
  end.

Lemma ref_token_other (table : MacroTable) (fuel : nat) (h : gset string) (t : Token) :
  simple_token (mt_macros table) t -> tok_type t <> TOKEN_IDENTIFIER ->
  ref_token (bodies table) fuel h (text_of t) = [text_of t].
Proof.
  intros (_ & _ & Hkw) Hty. specialize (Hkw Hty). unfold ref_token, name_of. cbn [text_of fst snd].
  destruct (is_name (tok_type t)); [|done]. destruct (tok_value t) as [name|] eqn:Ev; [|done]. case_decide; [done|].
  assert (bodies table !! name = None) as ->; [|done]. unfold bodies. rewrite lookup_fmap.
  assert (table_map table !! name = None) as ->; [|done]. apply mmap_lookup_None.
  intros (d & -> & Hd)%list_elem_of_fmap. by apply (Hkw eq_refl d Hd).
Qed.

Lemma ref_token_run (table : MacroTable) (fuel : nat) (h : gset string) (run : list Token) :
  Forall (fun t => negb (tt_eqb (tok_type t) TOKEN_IDENTIFIER) = true) run -> Forall (simple_token (mt_macros table)) run ->
  (text_of <$> run) ≫= ref_token (bodies table) fuel h = text_of <$> run.
Proof.
  induction 1 as [|t run Ht _ IH]; [done|]. inversion 1; subst. cbn [fmap list_fmap mbind list_bind].
  rewrite ref_token_other; [by rewrite IH|done|]. intros He. by rewrite He in Ht.
Qed.

(** What a run of the loop gives. *)
Definition expands_to (me : MacroExpander) (r : option (option PPTokenBuffer * MacroExpander))
    (out : PPTokenBuffer) (texts : list Text) : Prop :=
  exists tail me', r = Some (Some (out ++ tail), me') /\ kept me me' /\
    me_preserveDefinedOperands me' = me_preserveDefinedOperands me /\ text_of <$> tail = texts.

Definition object_state (me : MacroExpander) : Prop :=
  me_ok me /\ objects_only (me_table me) /\ me_preserveDefinedOperands me = false.

Lemma object_state_kept (me me' : MacroExpander) :
  kept me me' -> me_preserveDefinedOperands me' = me_preserveDefinedOperands me -> object_state me -> object_state me'.
Proof.
  intros Hk Hp (Hok & Hobj & Hpres). split_and!; [by eapply me_ok_same| |by rewrite Hp].
  by apply (objects_only_same (me_table me)); destruct Hk.
Qed.

Lemma hidden_kept (me me' : MacroExpander) : kept me me' -> hidden me' = hidden me.
Proof.
  intros Hk. unfold hidden, expanding_names. rewrite (st_stack _ _ Hk). f_equal.
  apply list_omap_ext, Forall_Forall2_diag, Forall_true. intros f. unfold frame_name. by rewrite (same_deref _ _ _ Hk).
Qed.

(** One object-like macro, given what its replacement expands to. *)
Lemma expand_object_run (rec : Rec) (me : MacroExpander) (input : list Token) (i : nat) (ptr : MacroPtr)
    (def : MacroDefinition) (cs : SourceRange) (out : PPTokenBuffer) (fuel : nat) :
  object_state me -> deref (me_table me) ptr = Some def -> def ∈ mt_macros (me_table me) ->
  (md_name def ∉ expanding_names (me_table me)) ->
  (forall me1 ts, object_state me1 -> Forall (simple_token (mt_macros (me_table me1))) ts -> (rank me1 < rank me)%nat ->
    expands_to me1 (rec ts me1) [] (ref_object (bodies (me_table me1)) fuel (hidden me1) (text_of <$> ts))) ->
  exists nested me', expand_object rec input i ptr def cs out me = Some (Some (out ++ nested, i), me') /\ kept me me' /\
    me_preserveDefinedOperands me' = me_preserveDefinedOperands me /\
    text_of <$> nested =
      ref_object (bodies (me_table me)) fuel ({[md_name def]} ∪ hidden me) (text_of <$> md_body def).
Proof.
  intros (Hok & Hobj & Hpres) Hd Hin Hname Hrec.
  destruct (push_object me ptr def cs Hok Hobj Hd Hname)
    as (me1 & Hpush & Hok1 & Hrank & Hm1 & Hb1 & Hl1 & Hc1 & Hp1 & Hh1 & frame & Hframe & Hst1).
  pose proof Hobj as [Hk _]. rewrite Forall_forall in Hk. destruct (Hk def Hin) as [Hkind Hbody].
  destruct (Hrec me1 (map (mark_origin def cs) (md_body def))) as (nested & me2 & Hrun & Hk2 & Hp2 & Htext).
  { split_and!; [done|by apply (objects_only_same (me_table me))|congruence]. }
  { rewrite Hm1. apply Forall_map. apply (Forall_impl _ _ _ Hbody). intros t Ht.
    pose proof (mark_origin_text def cs t) as E. injection E as E1 E2. unfold simple_token. by rewrite E1, E2. }
  { done. }
  pose proof Hk2 as [Hm2 Hb2 Hst2 Hl2 Hc2]. rewrite Hst1 in Hst2.
  destruct (pop_top (me_table me2) _ frame ptr Hst2 Hframe) as (Hst3 & Hm3 & Hb3 & Hl3 & Hc3).
  set (me3 := set_table me2 (macro_table_pop_expansion (me_table me2) (Some ptr))).
  exists nested, me3. split_and!.
  - unfold expand_object, bind at 1. rewrite Hpush. cbv beta iota. unfold bind at 1, attempt, replace_and_rescan, bind at 1.
    rewrite (substitute_object (mt_macros (me_table me))) by done. cbv beta iota. rewrite Hrun. cbv beta iota. unfold bind at 1, pop_expansion, modify.
    fold me3. cbv beta iota. unfold bind at 1. rewrite boundary_objects; [done|].
    cbn [me3 set_table me_table]. rewrite Hm3, Hm2, Hm1. apply Forall_forall. intros d Hd'. by apply Hk.
  - split; simpl; congruence.
  - simpl. congruence.
  - rewrite Htext, Hh1, (bodies_macros _ (me_table me1) Hm1). f_equal.
    rewrite <- list_fmap_compose. apply list_fmap_ext. intros ? t _. apply mark_origin_text.
Qed.

(** A prefix of the output already written. *)
Lemma expands_prefix (me me1 : MacroExpander) r (out piece : PPTokenBuffer) (texts : list Text) :
  kept me me1 -> me_preserveDefinedOperands me1 = me_preserveDefinedOperands me ->
  expands_to me1 r (out ++ piece) texts -> expands_to me r out ((text_of <$> piece) ++ texts).
Proof.
  intros Hk Hp (tail & me' & -> & Hk' & Hp' & <-). exists (piece ++ tail), me'.
  split_and!; [by rewrite app_assoc|by etrans|congruence|by rewrite fmap_app].
Qed.

Lemma expand_loop_objects (fuel n i : nat) (me : MacroExpander) (input : list Token) (out : PPTokenBuffer) (rec : Rec) :
  object_state me -> Forall (simple_token (mt_macros (me_table me))) input -> (length input - i < n)%nat ->
  (forall me1 ts, object_state me1 -> Forall (simple_token (mt_macros (me_table me1))) ts -> (rank me1 < rank me)%nat ->
    expands_to me1 (rec ts me1) [] (ref_object (bodies (me_table me1)) fuel (hidden me1) (text_of <$> ts))) ->
  expands_to me (expand_loop rec n input i out me) out
    ((text_of <$> drop i input) ≫= ref_token (bodies (me_table me)) fuel (hidden me)).
Proof.
  revert i me out. induction n as [|n IH]; intros i me out Hst Hin Hn Hrec; [lia|]. cbn [expand_loop].
  destruct (input !! i) as [t|] eqn:Ei.
  2:{ apply lookup_ge_None in Ei. rewrite drop_ge by done. exists [], me. by rewrite app_nil_r. }
  pose proof (lookup_lt_Some _ _ _ Ei) as Hi. pose proof (drop_S input t i Ei) as Hdrop.
  assert (forall me1 k piece texts, kept me me1 -> me_preserveDefinedOperands me1 = me_preserveDefinedOperands me ->
    (i < k)%nat -> (text_of <$> drop i input) ≫= ref_token (bodies (me_table me)) fuel (hidden me)
      = (text_of <$> piece) ++ texts ->
    texts = (text_of <$> drop k input) ≫= ref_token (bodies (me_table me)) fuel (hidden me) ->
    expands_to me (expand_loop rec n input k (out ++ piece) me1) out
      ((text_of <$> drop i input) ≫= ref_token (bodies (me_table me)) fuel (hidden me))) as Hnext.
  { intros me1 k piece texts Hk Hp Hik -> ->. apply (expands_prefix me me1); [done|done|].
    rewrite <- (hidden_kept me me1 Hk), <- (bodies_macros _ _ (st_macros _ _ Hk)).
    apply IH; [by eapply object_state_kept|by rewrite (st_macros _ _ Hk)|lia|]. intros me2 ts H1 H2 H3. apply Hrec; [done..|].
    by rewrite (rank_same me me1 Hk) in H3. }
  assert (forall me1, kept me me1 -> me_preserveDefinedOperands me1 = me_preserveDefinedOperands me ->
    ref_token (bodies (me_table me)) fuel (hidden me) (text_of t) = [text_of t] ->
    expands_to me (expand_loop rec n input (S i) (out ++ [token_clone t]) me1) out
      ((text_of <$> drop i input) ≫= ref_token (bodies (me_table me)) fuel (hidden me))) as Hplain.
  { intros me1 Hk Hp Ht. eapply Hnext; [done|done|lia| |done]. rewrite Hdrop. cbn [fmap list_fmap mbind list_bind].
    by rewrite Ht. }
  destruct (tt_eqb (tok_type t) TOKEN_IDENTIFIER) eqn:Ety; cbn [negb].
  2:{ set (f := fun t0 => negb (tt_eqb (tok_type t0) TOKEN_IDENTIFIER)).
      pose proof (span_app f (drop i input)) as Hspan. pose proof (span_all f (drop i input)) as Hall.
      assert (0 < length (span f (drop i input)).1)%nat as Hpos.
      { rewrite Hdrop. cbn [span]. assert (f t = true) as -> by (unfold f; by rewrite Ety).
        destruct (span f (drop (S i) input)). cbn [fst length]. lia. }
      set (run := (span f (drop i input)).1) in *.
      assert (drop (i + length run) input = (span f (drop i input)).2) as Hrest.
      { rewrite <- drop_drop. rewrite <- Hspan at 1. by rewrite drop_app_length. }
      unfold token_clone. rewrite map_id. eapply Hnext; [done|done|lia| |done].
      rewrite Hrest. rewrite <- Hspan at 1. rewrite fmap_app, bind_app. f_equal. apply ref_token_run; [done|].
      rewrite <- (take_drop i input), <- Hspan, !Forall_app in Hin. apply Hin. }
  apply tt_eqb_spec in Ety. unfold bind at 1, get.
  pose proof Hst as (Hok & Hobj & Hpres).
  assert (simple_token (mt_macros (me_table me)) t) as (_ & Hsimple & _) by (rewrite Forall_lookup in Hin; by apply (Hin i)).
  destruct (tok_value t) as [name|] eqn:Ev.
  2:{ assert (handle_builtin_identifier me t = None) as ->
        by (unfold handle_builtin_identifier; rewrite Ev; by destruct (negb _)).
      rewrite Hpres. cbn [andb]. unfold bind at 1. change (lookup_macro None me) with (Some (Some (@None (MacroPtr * MacroDefinition)), me)).
      cbv beta iota. apply Hplain; [done|done|]. unfold text_of, ref_token, name_of. cbn [fst snd]. by rewrite Ety, Ev. }
  rewrite (not_builtin me t name Ev) by (by apply Hsimple). rewrite Hpres. cbn [andb].
  pose proof (lookup_objects me name Hok) as Hl.
  assert (forall body, ref_token (bodies (me_table me)) fuel (hidden me) (text_of t) = body <->
    (if decide (name ∈ hidden me) then [text_of t]
     else match bodies (me_table me) !! name with
          | Some b => ref_object (bodies (me_table me)) fuel ({[name]} ∪ hidden me) b
          | None => [text_of t] end) = body) as Href by (intros body; unfold ref_token, name_of, text_of; cbn [fst snd]; by rewrite Ety, Ev).
  unfold bind at 1. destruct (macro_table_lookup (me_table me) name) as [ptr|] eqn:El.
  2:{ rewrite lookup_macro_missing by done. cbv beta iota. apply Hplain; [done|done|]. apply Href. rewrite Hl. by case_decide. }
  destruct Hl as (def & Hd & Hdname & Hdin & Hbody).
  rewrite (lookup_macro_found me name ptr def) by done. cbv beta iota. unfold bind at 1, token_text. rewrite Ev. cbn [default]. rewrite is_expanding_run by done.
  cbv beta iota. case_bool_decide as Hexp.
  { apply Hplain; [done|done|]. apply Href. unfold hidden. by rewrite decide_True by (by apply elem_of_list_to_set). }
  assert (is_function def = false) as ->.
  { unfold is_function. destruct Hobj as [Hkind _]. rewrite Forall_forall in Hkind. by destruct (Hkind def Hdin) as [-> _]. }
  destruct (expand_object_run rec me input i ptr def (call_range t) out fuel Hst Hd Hdin) as (nested & me2 & Hrun & Hk2 & Hp2 & Ht2).
  { by rewrite Hdname. }
  { done. }
  unfold bind at 1. rewrite Hrun. cbv beta iota. eapply Hnext; [done|done|lia| |done].
  rewrite Hdrop. cbn [fmap list_fmap mbind list_bind]. rewrite Ht2, Hdname. f_equal.
  apply Href. rewrite Hbody, decide_False; [done|]. unfold hidden. by rewrite elem_of_list_to_set.
Qed.

Lemma expand_objects (fuel : nat) (me : MacroExpander) (input : list Token) :
  object_state me -> Forall (simple_token (mt_macros (me_table me))) input -> (rank me < fuel)%nat ->
  expands_to me (macro_expander_expand fuel input me) []
    (ref_object (bodies (me_table me)) fuel (hidden me) (text_of <$> input)).
Proof.
  revert me input. induction fuel as [|fuel IH]; intros me input Hst Hin Hr; [lia|].
  cbn [macro_expander_expand]. unfold bind at 1, modify.
  set (me1 := macro_expander_clear_error me).
  assert (kept me me1) as Hk by (by split).
  destruct (expand_loop_objects fuel (S (length input)) 0 me1 input [] (macro_expander_expand fuel)) as (tail & me' & Hrun & Hk' & Hp' & Ht).
  - by apply (object_state_kept me).
  - done.
  - lia.
  - intros me2 ts H1 H2 H3. apply IH; [done..|]. change (rank me1) with (rank me) in H3. lia.
  - exists tail, me'. split_and!; [done|by etrans|done|]. rewrite Ht. rewrite drop_0. done.
Qed.

(** C33: object-like macros are expanded as the standard says.  In a table of object-like
    macros, fewer than the depth limit, where neither the text nor a replacement list holds
    [##], a builtin name or a keyword with a macro of its name ([keyword_macro_not_expanded]),
    expanding a text succeeds and gives the reference's tokens: every name that is not hidden is
    replaced, to the end, by its replacement list with the name hidden in it. *)
Theorem object_expansion_is_reference (fuel : nat) (me : MacroExpander) (input : list Token) :
  me_ok me -> objects_only (me_table me) -> me_preserveDefinedOperands me = false ->
  Forall (simple_token (mt_macros (me_table me))) input -> (rank me < fuel)%nat ->
  exists out me', macro_expander_expand fuel input me = Some (Some out, me') /\
    map text_of out =
      ref_object (bodies (me_table me)) fuel (list_to_set (expanding_names (me_table me))) (map text_of input).
Proof.
  intros Hok Hobj Hp Hin Hr. destruct (expand_objects fuel me input) as (out & me' & Hrun & _ & _ & Ht);
    [by split_and!|done|done|]. exists out, me'. by split.
Qed.

Lemma object_expansion_is_reference_witness :
  let me := macro_expander_init cyclic_table in
  (rank me < 3)%nat /\
  exists out me', macro_expander_expand 3 [tok TOKEN_IDENTIFIER "A"] me = Some (Some out, me') /\
    map text_of out = [(TOKEN_IDENTIFIER, Some "A"%string)].
Proof.
  intros me. split; [vm_compute; lia|].
  assert (me_ok me) as Hok.
  { split; [apply (bool_decide_unpack _); vm_compute; exact I|].
    split; [constructor|constructor|right; apply Nat.leb_le; reflexivity]. }
  assert (objects_only (me_table me)) as Hobj.
  { split; [|right; apply Nat.ltb_lt; reflexivity].
    repeat (apply Forall_cons; split; [split; [reflexivity|]|]); try apply Forall_nil; try exact I.
    all: apply Forall_cons; split; [|apply Forall_nil; exact I].
    all: (split; [discriminate|split; [|intros []; reflexivity]]).
    all: intros n [= <-]; apply (bool_decide_unpack _); vm_compute; exact I. }
  destruct (object_expansion_is_reference 3 me [tok TOKEN_IDENTIFIER "A"] Hok Hobj eq_refl) as (out & me' & H1 & H2).
  - apply Forall_cons; split; [|apply Forall_nil; exact I].
    split; [discriminate|split; [|intros []; reflexivity]]. intros n [= <-]. apply (bool_decide_unpack _). vm_compute. exact I.
  - apply Nat.ltb_lt. reflexivity.
  - exists out, me'. split; [exact H1|]. rewrite H2. vm_compute. reflexivity.
Defined.

(** ** Observed divergences, evaluated. *)

(** [#define const] is accepted, and [const x] then keeps its [const], which C deletes. *)
Example keyword_macro_not_expanded :
  let table := macro_table_define_object macro_table_create "const" [] empty_source_range in
  let text := [tok TOKEN_CONST "const"; tok TOKEN_IDENTIFIER "x"] in
  match macro_expander_expand 2 text (macro_expander_init table) with
  | Some (Some out, _) => out = text
  | _ => False
  end /\
  ref_object (bodies table) 2 ∅ (map text_of text) = [(TOKEN_IDENTIFIER, Some "x"%string)].
Proof. by vm_compute. Qed.

(** The expansion of the call [F (arg)] of a one-parameter macro with the given body. *)
Definition expand_call (body arg : list Token) : option (list Text) :=
  let table := macro_table_define_function macro_table_create "F" ["x"]%string false false body empty_source_range in
  match macro_expander_expand 4 ([tok TOKEN_IDENTIFIER "F"; tok TOKEN_LPAREN "("] ++ arg ++ [tok TOKEN_RPAREN ")"])
          (macro_expander_init table) with
  | Some (Some out, _) => Some (map text_of out)
  | _ => None
  end.

(** [#define F(x) x] with [F(a ## b)]: the operator of the argument pastes. *)
Example paste_from_argument :
  expand_call [tok TOKEN_IDENTIFIER "x"]
    [tok TOKEN_IDENTIFIER "a"; tok TOKEN_DOUBLE_HASH "##"; tok TOKEN_IDENTIFIER "b"]
  = Some [(TOKEN_IDENTIFIER, Some "ab"%string)].
Proof. by vm_compute. Qed.

(** [#define F(x) #x] with a string literal: the quotes are lost. *)
Example stringify_loses_quotes :
  expand_call [tok TOKEN_HASH "#"; tok TOKEN_IDENTIFIER "x"] [tok TOKEN_STRING "s"]
  = Some [(TOKEN_STRING, Some "s"%string)].
Proof. by vm_compute. Qed.

(** [#define F(x, y) a x ## y] with [F(, b)]: the empty operand pastes [a] and [b]. *)
Example empty_operand_pastes_neighbour :
  let body := [tok TOKEN_IDENTIFIER "a"; tok TOKEN_IDENTIFIER "x"; tok TOKEN_DOUBLE_HASH "##"; tok TOKEN_IDENTIFIER "y"] in
  let table := macro_table_define_function macro_table_create "F" ["x"; "y"]%string false false body empty_source_range in
  match macro_expander_expand 4 [tok TOKEN_IDENTIFIER "F"; tok TOKEN_LPAREN "("; tok TOKEN_COMMA ",";
                                 tok TOKEN_IDENTIFIER "b"; tok TOKEN_RPAREN ")"] (macro_expander_init table) with
  | Some (Some out, _) => map text_of out = [(TOKEN_IDENTIFIER, Some "ab"%string)]
  | _ => False
  end.
Proof. by vm_compute. Qed.

(** [, ## __VA_ARGS__] inside [__VA_OPT__]: the error names a definition that is gone. *)
Example va_opt_error_dangles :
  let body := [tok TOKEN_IDENTIFIER "__VA_OPT__"; tok TOKEN_LPAREN "("; tok TOKEN_COMMA ",";
               tok TOKEN_DOUBLE_HASH "##"; tok TOKEN_IDENTIFIER "__VA_ARGS__"; tok TOKEN_RPAREN ")"] in
  let table := macro_table_define_function macro_table_create "F" [] true true body empty_source_range in
  match macro_expander_expand 4 [tok TOKEN_IDENTIFIER "F"; tok TOKEN_LPAREN "("; tok TOKEN_NUMBER "1";
                                 tok TOKEN_RPAREN ")"] (macro_expander_init table) with
  | Some (None, me) => mei_macro (me_lastError me) = Some LocalCopy
  | _ => False
  end.
Proof. by vm_compute. Qed.
