(* ===== verification/PPExpr.v ===== *)
(** * Evaluation of [#if] expressions (src/Preprocessor/pp_expr.c).

    [PPValue] is the 64-bit value with its signedness; [PPExprParser] is the cursor
    and error flag of the recursive-descent evaluator, with one ghost field,
    [ps_ub], set when an operation the C standard leaves undefined was executed
    (signed overflow, [INT64_MIN / -1], a signed left shift out of range).  The
    value kept then is the wrapped one, as compilers produce.

    The ten binary levels of the C file share one loop ([binary_level]); each
    [parse_...] function is the loop at its operators.  Recursion is on fuel:
    [None] means out of fuel, which [pp_expr_run_total] excludes. *)
From S2P Require Import Prelude CType Tokens MacroTable.

Record PPValue := mkPPValue { bits : Z; isUnsigned : bool }.

Definition pp_value_signed (value : Z) : PPValue := mkPPValue (u64 value) false.
Definition pp_value_unsigned (value : Z) : PPValue := mkPPValue (u64 value) true.
Definition pp_value_bool (value : bool) : PPValue := pp_value_signed (if value then 1 else 0).
Definition pp_value_as_signed (value : PPValue) : Z := i64 (bits value).
Definition pp_value_as_unsigned (value : PPValue) : Z := bits value.
Definition pp_value_truthy (value : PPValue) : bool := negb (bits value =? 0).
Definition pp_value_use_unsigned (lhs rhs : PPValue) : bool := isUnsigned lhs || isUnsigned rhs.

(** The outcome of one operator: its value, whether the parser's error flag is set,
    whether the operation was undefined. *)
Record OpResult := mkOpResult { op_value : PPValue; op_error : bool; op_ub : bool }.

Definition ok_result (v : PPValue) : OpResult := mkOpResult v false false.

(** A signed 64-bit result: undefined when it does not fit. *)
Definition signed_result (z : Z) : OpResult :=
  mkOpResult (pp_value_signed z) false (negb (inS 64 z)).

(** ** Integer tokens: [strtoull] with base 0 (C library) and the suffix loop. *)

Definition is_x (c : ascii) : bool := (chr c =? 120) || (chr c =? 88).
Definition is_zero_char (c : ascii) : bool := chr c =? 48.

(** The digits' base and where they start: [0x] counts only before a hex digit. *)
Definition strtoull_prefix (s : list ascii) : Z * list ascii :=
  match s with
  | z :: x :: d :: rest =>
      if is_zero_char z && is_x x && in_base 16 d then (16, d :: rest)
      else if is_zero_char z then (8, s) else (10, s)
  | z :: _ => if is_zero_char z then (8, s) else (10, s)
  | [] => (10, s)
  end.

(** [strtoull (s, &end, 0)]: the value, the text at [end], and whether it overflowed. *)
Definition strtoull0 (s : list ascii) : Z * list ascii * bool :=
  let body := (span is_space s).2 in
  let '(neg, body) := match body with
                      | c :: rest => if chr c =? 45 then (true, rest)
                                     else if chr c =? 43 then (false, rest) else (false, body)
                      | [] => (false, [])
                      end in
  let '(base, body) := strtoull_prefix body in
  let '(ds, rest) := span (in_base base) body in
  match ds with
  | [] => (0, s, false)
  | _ :: _ =>
      let v := digits_value base ds in
      if v <? 2 ^ 64 then (if neg then u64 (- v) else v, rest, false)
      else (2 ^ 64 - 1, rest, true)
  end.

Definition is_unsigned_suffix (c : ascii) : bool := (chr c =? 117) || (chr c =? 85).

(** The result and [*ok]. *)
Definition parse_integer_token (tok : Token) : PPValue * bool :=
  match tok_value tok with
  | None => (pp_value_signed 0, false)
  | Some text =>
      let s := list_ascii_of_string text in
      let hasUnsignedSuffix := existsb is_unsigned_suffix s in
      let '(raw, rest, overflow) := strtoull0 s in
      let rest := (span is_alpha rest).2 in
      if overflow || negb (match rest with [] => true | _ => false end)
      then (pp_value_signed 0, false)
      else if hasUnsignedSuffix || (2 ^ 63 - 1 <? raw)
           then (pp_value_unsigned raw, true)
           else (pp_value_signed raw, true)
  end.

(** ** The operators of each level. *)

Definition apply_multiplicative (op : TokenType) (value rhs : PPValue) : OpResult :=
  if (tt_eqb op TOKEN_DIVIDE || tt_eqb op TOKEN_MODULO) && negb (pp_value_truthy rhs)
  then mkOpResult (pp_value_signed 0) true false
  else
    let useUnsigned := pp_value_use_unsigned value rhs in
    let a := pp_value_as_unsigned value in let b := pp_value_as_unsigned rhs in
    let x := pp_value_as_signed value in let y := pp_value_as_signed rhs in
    match op with
    | TOKEN_ASTERISK =>
        if useUnsigned then ok_result (pp_value_unsigned (a * b)) else signed_result (x * y)
    | TOKEN_DIVIDE =>
        if useUnsigned then ok_result (pp_value_unsigned (a `div` b))
        else signed_result (Z.quot x y)
    | TOKEN_MODULO =>
        if useUnsigned then ok_result (pp_value_unsigned (a `mod` b))
        else mkOpResult (pp_value_signed (Z.rem x y)) false (negb (inS 64 (Z.quot x y)))
    | _ => ok_result value
    end.

Definition apply_additive (op : TokenType) (value rhs : PPValue) : OpResult :=
  let useUnsigned := pp_value_use_unsigned value rhs in
  let a := pp_value_as_unsigned value in let b := pp_value_as_unsigned rhs in
  let x := pp_value_as_signed value in let y := pp_value_as_signed rhs in
  if tt_eqb op TOKEN_PLUS
  then if useUnsigned then ok_result (pp_value_unsigned (a + b)) else signed_result (x + y)
  else if useUnsigned then ok_result (pp_value_unsigned (a - b)) else signed_result (x - y).

(** A signed [x << n] is defined for [0 <= x] when [x * 2^n] fits. *)
Definition apply_shift (op : TokenType) (value rhs : PPValue) : OpResult :=
  let amount := Z.land (pp_value_as_unsigned rhs) 63 in
  if tt_eqb op TOKEN_LEFT_SHIFT
  then if isUnsigned value
       then ok_result (pp_value_unsigned (Z.shiftl (pp_value_as_unsigned value) amount))
       else let x := pp_value_as_signed value in
            mkOpResult (pp_value_signed (Z.shiftl x amount)) false
              ((x <? 0) || negb (inS 64 (Z.shiftl x amount)))
  else if isUnsigned value
       then ok_result (pp_value_unsigned (Z.shiftr (pp_value_as_unsigned value) amount))
       else ok_result (pp_value_signed (Z.shiftr (pp_value_as_signed value) amount)).

Definition apply_relational (op : TokenType) (value rhs : PPValue) : OpResult :=
  let '(a, b) := if pp_value_use_unsigned value rhs
                 then (pp_value_as_unsigned value, pp_value_as_unsigned rhs)
                 else (pp_value_as_signed value, pp_value_as_signed rhs) in
  ok_result (pp_value_bool
    match op with
    | TOKEN_LESS => a <? b
    | TOKEN_LESS_EQUAL => a <=? b
    | TOKEN_GREATER => b <? a
    | TOKEN_GREATER_EQUAL => b <=? a
    | _ => false
    end).

Definition apply_equality (op : TokenType) (value rhs : PPValue) : OpResult :=
  let equal := if pp_value_use_unsigned value rhs
               then pp_value_as_unsigned value =? pp_value_as_unsigned rhs
               else pp_value_as_signed value =? pp_value_as_signed rhs in
  ok_result (pp_value_bool (if tt_eqb op TOKEN_EQUAL then equal else negb equal)).

Definition apply_bitwise (f : Z -> Z -> Z) (op : TokenType) (value rhs : PPValue) : OpResult :=
  let b := f (pp_value_as_unsigned value) (pp_value_as_unsigned rhs) in
  ok_result (if pp_value_use_unsigned value rhs then pp_value_unsigned b
             else pp_value_signed (i64 b)).

Definition apply_logical_and (op : TokenType) (value rhs : PPValue) : OpResult :=
  ok_result (pp_value_bool (pp_value_truthy value && pp_value_truthy rhs)).

Definition apply_logical_or (op : TokenType) (value rhs : PPValue) : OpResult :=
  ok_result (pp_value_bool (pp_value_truthy value || pp_value_truthy rhs)).

(** A binary level: its operators, whether the right operand is evaluated given the
    left value, and the operation. *)
Record Level := mkLevel {
  lv_is_op : TokenType -> bool;
  lv_eval_right : PPValue -> bool;
  lv_apply : TokenType -> PPValue -> PPValue -> OpResult
}.

Definition one_of (ops : list TokenType) (t : TokenType) : bool := existsb (tt_eqb t) ops.
Definition always (v : PPValue) : bool := true.

Definition multiplicative_level : Level :=
  mkLevel (one_of [TOKEN_ASTERISK; TOKEN_DIVIDE; TOKEN_MODULO]) always apply_multiplicative.
Definition additive_level : Level :=
  mkLevel (one_of [TOKEN_PLUS; TOKEN_MINUS]) always apply_additive.
Definition shift_level : Level :=
  mkLevel (one_of [TOKEN_LEFT_SHIFT; TOKEN_RIGHT_SHIFT]) always apply_shift.
Definition relational_level : Level :=
  mkLevel (one_of [TOKEN_LESS; TOKEN_LESS_EQUAL; TOKEN_GREATER; TOKEN_GREATER_EQUAL])
    always apply_relational.
Definition equality_level : Level :=
  mkLevel (one_of [TOKEN_EQUAL; TOKEN_NOT_EQUAL]) always apply_equality.
Definition bitwise_and_level : Level :=
  mkLevel (one_of [TOKEN_BITWISE_AND]) always (apply_bitwise Z.land).
Definition bitwise_xor_level : Level :=
  mkLevel (one_of [TOKEN_BITWISE_XOR]) always (apply_bitwise Z.lxor).
Definition bitwise_or_level : Level :=
  mkLevel (one_of [TOKEN_BITWISE_OR]) always (apply_bitwise Z.lor).
Definition logical_and_level : Level :=
  mkLevel (one_of [TOKEN_LOGICAL_AND]) pp_value_truthy apply_logical_and.
Definition logical_or_level : Level :=
  mkLevel (one_of [TOKEN_LOGICAL_OR]) (fun v => negb (pp_value_truthy v)) apply_logical_or.

(** ** The parser. *)

Record PPExprParser := mkParser { ps_cursor : nat; ps_error : bool; ps_ub : bool }.

Definition set_cursor (p : PPExprParser) (c : nat) : PPExprParser :=
  mkParser c (ps_error p) (ps_ub p).
Definition set_error (p : PPExprParser) : PPExprParser := mkParser (ps_cursor p) true (ps_ub p).
Definition or_flags (p : PPExprParser) (error ub : bool) : PPExprParser :=
  mkParser (ps_cursor p) (ps_error p || error) (ps_ub p || ub).

Definition token_is_pp_identifier (tok : Token) : bool :=
  match tok_value tok with
  | None => false
  | Some _ => tt_eqb (tok_type tok) TOKEN_IDENTIFIER ||
              (TokenType_code (tok_type tok) <? TokenType_code TOKEN_IDENTIFIER)
  end.

Section Parser.
Context (macros : option MacroTable) (tokens : list Token).

Abbreviation count := (length tokens).

Definition parser_peek (p : PPExprParser) : option Token :=
  if decide (count <= ps_cursor p)%nat then None else tokens !! ps_cursor p.

Definition parser_advance (p : PPExprParser) : PPExprParser :=
  match parser_peek p with
  | Some tok => if tt_eqb (tok_type tok) TOKEN_EOF then set_cursor p count
                else set_cursor p (S (ps_cursor p))
  | None => p
  end.

Definition parser_match (p : PPExprParser) (type : TokenType) : bool * PPExprParser :=
  match parser_peek p with
  | Some tok => if tt_eqb (tok_type tok) type then (true, parser_advance p) else (false, p)
  | None => (false, p)
  end.

(** Skips the end-of-file tokens at the cursor. *)
Fixpoint consume_trailing_from (rest : list Token) (c : nat) : nat :=
  match rest with
  | tok :: rest' => if tt_eqb (tok_type tok) TOKEN_EOF then consume_trailing_from rest' (S c) else c
  | [] => c
  end.

Definition parser_consume_trailing (p : PPExprParser) : PPExprParser :=
  set_cursor p (consume_trailing_from (drop (ps_cursor p) tokens) (ps_cursor p)).

Definition parser_is_done (p : PPExprParser) : bool :=
  bool_decide (count <= ps_cursor (parser_consume_trailing p))%nat.

Definition macro_is_defined (name : string) : bool :=
  match macros with
  | Some table => match macro_table_lookup table name with Some _ => true | None => false end
  | None => false
  end.

(** What a parsing function returns: [None] is out of fuel. *)
Definition ParseFn : Type := bool -> PPExprParser -> option (PPValue * PPExprParser).

(** [defined NAME] and [defined (NAME)], the cursor on [defined]. *)
Definition parse_defined (eval : bool) (p : PPExprParser) : PPValue * PPExprParser :=
  let p := parser_advance p in
  let '(hasParen, p) := parser_match p TOKEN_LPAREN in
  match parser_peek p with
  | Some idTok =>
      if token_is_pp_identifier idTok then
        let p := parser_advance p in
        let '(closed, p) := if hasParen : bool then parser_match p TOKEN_RPAREN else (true, p) in
        if negb closed then (pp_value_signed 0, set_error p)
        else if negb eval then (pp_value_signed 0, p)
        else (pp_value_bool (macro_is_defined (default ""%string (tok_value idTok))), p)
      else (pp_value_signed 0, set_error p)
  | None => (pp_value_signed 0, set_error p)
  end.

Definition parse_primary (parse_conditional : ParseFn) : ParseFn := fun eval p =>
  match parser_peek p with
  | None => Some (pp_value_signed 0, set_error p)
  | Some tok =>
      if tt_eqb (tok_type tok) TOKEN_IDENTIFIER &&
         bool_decide (tok_value tok = Some "defined"%string)
      then Some (parse_defined eval p)
      else
        match tok_type tok with
        | TOKEN_NUMBER | TOKEN_CHAR_LITERAL =>
            let p := parser_advance p in
            if negb eval then Some (pp_value_signed 0, p)
            else let '(value, ok) := parse_integer_token tok in
                 Some (value, if ok : bool then p else set_error p)
        | TOKEN_IDENTIFIER => Some (pp_value_signed 0, parser_advance p)
        | TOKEN_LPAREN =>
            '(value, p) ← parse_conditional eval (parser_advance p);
            let '(closed, p) := parser_match p TOKEN_RPAREN in
            let p := if closed : bool then p else set_error p in
            Some (if eval then value else pp_value_signed 0, p)
        | _ => Some (pp_value_signed 0, set_error p)
        end
  end.

Definition apply_unary (op : TokenType) (operand : PPValue) : OpResult :=
  match op with
  | TOKEN_MINUS =>
      if isUnsigned operand then ok_result (pp_value_unsigned (0 - bits operand))
      else signed_result (- pp_value_as_signed operand)
  | TOKEN_LOGICAL_NOT => ok_result (pp_value_bool (negb (pp_value_truthy operand)))
  | TOKEN_BITWISE_NOT =>
      if isUnsigned operand then ok_result (pp_value_unsigned (Z.lnot (bits operand)))
      else ok_result (pp_value_signed (Z.lnot (pp_value_as_signed operand)))
  | _ => ok_result operand
  end.

Definition is_unary_op (t : TokenType) : bool :=
  one_of [TOKEN_PLUS; TOKEN_MINUS; TOKEN_LOGICAL_NOT; TOKEN_BITWISE_NOT] t.

(** [+] hands its operand's result on; the others return zero when not evaluating. *)
Fixpoint parse_unary (fuel : nat) (primary : ParseFn) (eval : bool) (p : PPExprParser)
    {struct fuel} : option (PPValue * PPExprParser) :=
  match fuel with
  | O => None
  | S fuel' =>
      match parser_peek p with
      | Some tok =>
          if is_unary_op (tok_type tok) then
            '(operand, p) ← parse_unary fuel' primary eval (parser_advance p);
            if tt_eqb (tok_type tok) TOKEN_PLUS then Some (operand, p)
            else if negb eval then Some (pp_value_signed 0, p)
            else let r := apply_unary (tok_type tok) operand in
                 Some (op_value r, or_flags p (op_error r) (op_ub r))
          else primary eval p
      | None => primary eval p
      end
  end.

(** [while (!parser->error) { tok = peek; if not an operator break; advance;
    rhs = next; if (eval) value = ... }] *)
Fixpoint binary_loop (lv : Level) (next : ParseFn) (fuel : nat) (eval : bool)
    (value : PPValue) (p : PPExprParser) {struct fuel} : option (PPValue * PPExprParser) :=
  match fuel with
  | O => None
  | S fuel' =>
      if ps_error p then Some (value, p)
      else match parser_peek p with
           | None => Some (value, p)
           | Some tok =>
               if lv_is_op lv (tok_type tok) then
                 '(rhs, p) ← next (eval && lv_eval_right lv value) (parser_advance p);
                 if eval
                 then let r := lv_apply lv (tok_type tok) value rhs in
                      binary_loop lv next fuel' eval (op_value r) (or_flags p (op_error r) (op_ub r))
                 else binary_loop lv next fuel' eval value p
               else Some (value, p)
           end
  end.

Definition binary_level (lv : Level) (fuel : nat) (next : ParseFn) : ParseFn := fun eval p =>
  '(value, p) ← next eval p;
  '(value, p) ← binary_loop lv next fuel eval value p;
  Some (if eval then value else pp_value_signed 0, p).

Definition parse_multiplicative (fuel : nat) (primary : ParseFn) : ParseFn :=
  binary_level multiplicative_level fuel (parse_unary fuel primary).
Definition parse_additive (fuel : nat) (primary : ParseFn) : ParseFn :=
  binary_level additive_level fuel (parse_multiplicative fuel primary).
Definition parse_shift (fuel : nat) (primary : ParseFn) : ParseFn :=
  binary_level shift_level fuel (parse_additive fuel primary).
Definition parse_relational (fuel : nat) (primary : ParseFn) : ParseFn :=
  binary_level relational_level fuel (parse_shift fuel primary).
Definition parse_equality (fuel : nat) (primary : ParseFn) : ParseFn :=
  binary_level equality_level fuel (parse_relational fuel primary).
Definition parse_bitwise_and (fuel : nat) (primary : ParseFn) : ParseFn :=
  binary_level bitwise_and_level fuel (parse_equality fuel primary).
Definition parse_bitwise_xor (fuel : nat) (primary : ParseFn) : ParseFn :=
  binary_level bitwise_xor_level fuel (parse_bitwise_and fuel primary).
Definition parse_bitwise_or (fuel : nat) (primary : ParseFn) : ParseFn :=
  binary_level bitwise_or_level fuel (parse_bitwise_xor fuel primary).
Definition parse_logical_and (fuel : nat) (primary : ParseFn) : ParseFn :=
  binary_level logical_and_level fuel (parse_bitwise_or fuel primary).
Definition parse_logical_or (fuel : nat) (primary : ParseFn) : ParseFn :=
  binary_level logical_or_level fuel (parse_logical_and fuel primary).

Fixpoint parse_conditional (fuel : nat) (eval : bool) (p : PPExprParser) {struct fuel}
    : option (PPValue * PPExprParser) :=
  match fuel with
  | O => None
  | S fuel' =>
      '(condition, p) ← parse_logical_or fuel (parse_primary (parse_conditional fuel')) eval p;
      match parser_peek p with
      | Some tok =>
          if tt_eqb (tok_type tok) TOKEN_QUESTION then
            let p := parser_advance p in
            '(trueValue, p) ← parse_conditional fuel' (eval && pp_value_truthy condition) p;
            let '(colon, p) := parser_match p TOKEN_COLON in
            if negb colon then Some (pp_value_signed 0, set_error p)
            else
              '(falseValue, p) ←
                parse_conditional fuel' (eval && negb (pp_value_truthy condition)) p;
              Some (if negb eval then pp_value_signed 0
                    else if pp_value_truthy condition then trueValue else falseValue, p)
          else Some (if eval then condition else pp_value_signed 0, p)
      | None => Some (if eval then condition else pp_value_signed 0, p)
      end
  end.

(** One evaluation: success, [*outValue], and whether undefined behaviour occurred. *)
Definition pp_expr_run : option (bool * Z * bool) :=
  '(value, p) ← parse_conditional (S count) true (mkParser 0 false false);
  let ok := negb (ps_error p) && parser_is_done p in
  Some (ok, if ok then i32 (if isUnsigned value then bits value
                            else u64 (pp_value_as_signed value)) else 0, ps_ub p).

End Parser.

Record PPExprEvaluator := mkPPExprEvaluator { ev_macros : option MacroTable }.

Definition pp_expr_evaluator_init (table : MacroTable) : PPExprEvaluator :=
  mkPPExprEvaluator (Some table).

Definition pp_expr_evaluator_reset : PPExprEvaluator := mkPPExprEvaluator None.

Definition pp_expr_eval_tokens (eval : PPExprEvaluator) (tokens : list Token) : bool * Z :=
  match tokens with
  | [] => (false, 0)
  | _ :: _ => match pp_expr_run (ev_macros eval) tokens with
              | Some (ok, out, _) => (ok, out)
              | None => (false, 0)
              end
  end.

Definition pp_expr_eval_range (eval : PPExprEvaluator) (buffer : TokenBuffer)
    (start stop : nat) : bool * Z :=
  if decide (tb_count buffer < start \/ stop < start \/ tb_count buffer < stop)%nat
  then (false, 0)
  else if decide (stop - start = 0)%nat then (false, 0)
  else pp_expr_eval_tokens eval (take (stop - start) (drop start (tb_tokens buffer))).

(** [preprocessor_eval_tokens] and [preprocessor_eval_range] of preprocessor.c, for a
    non-null preprocessor. *)
Definition preprocessor_eval_tokens (exprEval : PPExprEvaluator) (tokens : list Token)
    : bool * Z :=
  pp_expr_eval_tokens exprEval tokens.

Definition preprocessor_eval_range (exprEval : PPExprEvaluator) (buffer : TokenBuffer)
    (start stop : nat) : bool * Z :=
  pp_expr_eval_range exprEval buffer start stop.

(** ** Cursor discipline and termination. *)

Section Discipline.
Context (macros : option MacroTable) (tokens : list Token).

Abbreviation cnt := (length tokens).
Abbreviation peek := (parser_peek tokens).
Abbreviation advance := (parser_advance tokens).

(** Tokens left to read. *)
Definition remaining (p : PPExprParser) : nat := (cnt - ps_cursor p)%nat.

(** [p'] is [p] after reading some tokens; the flags only ever get set. *)
Definition reaches (p p' : PPExprParser) : Prop :=
  (ps_cursor p <= ps_cursor p' <= cnt)%nat /\
  (ps_error p = true -> ps_error p' = true) /\ (ps_ub p = true -> ps_ub p' = true).

(** A result that was produced, after reading at least one token or failing. *)
Definition progress (p : PPExprParser) (r : option (PPValue * PPExprParser)) : Prop :=
  exists v p', r = Some (v, p') /\ reaches p p' /\
    (ps_cursor p < ps_cursor p' \/ ps_error p' = true)%nat.

(** A parsing function that, on a cursor inside the tokens with fewer than [n] left,
    returns, reads at least one token or fails, and never clears a flag. *)
Definition total (n : nat) (f : ParseFn) : Prop :=
  forall eval p, (ps_cursor p <= cnt)%nat -> (remaining p < n)%nat ->
    progress p (f eval p).

Lemma peek_Some (p : PPExprParser) (tok : Token) :
  peek p = Some tok -> (ps_cursor p < cnt)%nat.
Proof. unfold parser_peek. case_decide; [done|]. intros; lia. Qed.

Lemma advance_spec (p : PPExprParser) (tok : Token) :
  peek p = Some tok ->
  (ps_cursor p < ps_cursor (advance p) <= cnt)%nat /\
  ps_error (advance p) = ps_error p /\ ps_ub (advance p) = ps_ub p.
Proof.
  intros Hp. pose proof (peek_Some _ _ Hp). unfold parser_advance. rewrite Hp.
  case_match; simpl; lia || (split; [lia|done]).
Qed.

Lemma reaches_refl (p : PPExprParser) : (ps_cursor p <= cnt)%nat -> reaches p p.
Proof. intros H. unfold reaches. split_and!; auto; lia. Qed.

Lemma reaches_trans (p1 p2 p3 : PPExprParser) : reaches p1 p2 -> reaches p2 p3 -> reaches p1 p3.
Proof. unfold reaches. intros (?&?&?) (?&?&?). split_and!; try lia; auto. Qed.

Lemma reaches_advance (p : PPExprParser) (tok : Token) : peek p = Some tok -> reaches p (advance p).
Proof.
  intros (H1 & H2 & H3)%advance_spec. split_and!; [lia..| |]; congruence.
Qed.

Lemma reaches_set_error (p p' : PPExprParser) : reaches p p' -> reaches p (set_error p').
Proof. unfold reaches. simpl. intros (?&?&?). split_and!; auto; lia. Qed.

Lemma reaches_or_flags (p p' : PPExprParser) (e u : bool) :
  reaches p p' -> reaches p (or_flags p' e u).
Proof.
  unfold reaches. simpl. intros (?&H1&H2).
  split_and!; [lia..| |]; intros Hf; rewrite ?(H1 Hf), ?(H2 Hf); done.
Qed.

Lemma match_spec (p : PPExprParser) (t : TokenType) :
  (ps_cursor p <= cnt)%nat -> reaches p (parser_match tokens p t).2.
Proof.
  intros Hc. unfold parser_match. destruct (peek p) eqn:E; [|by apply reaches_refl].
  case_match; [by eapply reaches_advance | by apply reaches_refl].
Qed.


(** Chains the reading steps in the context. *)
Ltac reach := solve [ cbn [snd] in *;
  match goal with
  | |- reaches ?p ?p => apply reaches_refl; lia
  | H : reaches ?p ?q |- reaches ?p ?q => exact H
  | |- reaches _ (set_error _) => apply reaches_set_error; reach
  | |- reaches _ (or_flags _ _ _) => apply reaches_or_flags; reach
  | Hp : peek ?q = Some _ |- reaches _ (advance ?q) =>
      eapply reaches_trans; [|exact (reaches_advance _ _ Hp)]; reach
  | H : reaches ?q ?r |- reaches ?p ?r => apply (reaches_trans p q r); [reach|exact H]
  end ].

Lemma reaches_cursor (p p' : PPExprParser) : reaches p p' -> (ps_cursor p' <= cnt)%nat.
Proof. unfold reaches. lia. Qed.

Lemma parse_defined_reaches (eval : bool) (p : PPExprParser) (tok : Token) :
  peek p = Some tok ->
  reaches p (parse_defined macros tokens eval p).2 /\
  (ps_cursor p < ps_cursor (parse_defined macros tokens eval p).2)%nat.
Proof.
  intros Hp. destruct (advance_spec _ _ Hp) as [Hlt _].
  assert (forall q, reaches (advance p) q ->
            reaches p q /\ (ps_cursor p < ps_cursor q)%nat) as Hfrom.
  { intros q Hq. split; [reach|].
    destruct Hq as (?&_&_). lia. }
  unfold parse_defined. pose proof (match_spec (advance p) TOKEN_LPAREN ltac:(lia)) as H1.
  destruct (parser_match tokens (advance p) TOKEN_LPAREN) as [hp p1]. simpl in H1.
  pose proof (reaches_cursor _ _ H1).
  destruct (peek p1) as [idTok|] eqn:E1; [|refine (Hfrom _ _); reach].
  destruct (token_is_pp_identifier idTok); [|refine (Hfrom _ _); reach].
  assert (reaches (advance p) (advance p1)) as H2 by reach.
  pose proof (reaches_cursor _ _ H2). destruct hp.
  - pose proof (match_spec (advance p1) TOKEN_RPAREN ltac:(lia)) as H3.
    destruct (parser_match tokens (advance p1) TOKEN_RPAREN) as [cl p2]. simpl in H3.
    assert (reaches (advance p) p2) as H4 by reach.
    destruct cl, eval; simpl; refine (Hfrom _ _); reach.
  - destruct eval; simpl; refine (Hfrom _ _); reach.
Qed.

Lemma parse_primary_total (n : nat) (cond : ParseFn) :
  total n cond -> total (S n) (parse_primary macros tokens cond).
Proof.
  intros Hcond eval p Hc Hr. unfold parse_primary.
  destruct (peek p) as [tok|] eqn:Hp.
  2:{ do 2 eexists. split; [done|]. split; [reach|by right]. }
  destruct (advance_spec _ _ Hp) as [Hlt _]. pose proof (reaches_advance _ _ Hp) as Ha.
  assert (forall v q, reaches (advance p) q -> progress p (Some (v, q))) as Hret.
  { intros v q Hq. do 2 eexists. split; [done|].
    split; [reach | left; destruct Hq as [? _]; lia]. }
  assert (progress p (Some (pp_value_signed 0, set_error p))) as Herr.
  { do 2 eexists. split; [done|]. split; [reach|by right]. }
  destruct (tt_eqb _ _ && _).
  { destruct (parse_defined_reaches eval p tok Hp) as [H1 H2].
    destruct (parse_defined macros tokens eval p) as [v q].
    do 2 eexists. split; [done|]. split; [done|by left]. }
  destruct (tok_type tok); try exact Herr; try (apply Hret; reach; fail).
  - destruct eval; simpl; [|apply Hret; reach].
    destruct (parse_integer_token tok) as [v []]; apply Hret; reach.
  - destruct eval; simpl; [|apply Hret; reach].
    destruct (parse_integer_token tok) as [v []]; apply Hret; reach.
  - destruct (Hcond eval (advance p)) as (v & q & Hq & Hreach & _); [lia|unfold remaining in *; lia|].
    rewrite Hq. cbn [mbind option_bind].
    pose proof (match_spec q TOKEN_RPAREN (reaches_cursor _ _ Hreach)) as Hm.
    destruct (parser_match tokens q TOKEN_RPAREN) as [[] q']; simpl in Hm; apply Hret.
    + reach.
    + apply reaches_set_error. reach.
Qed.

Lemma parse_unary_total (n m : nat) (primary : ParseFn) :
  total n primary -> (n <= m)%nat -> total n (parse_unary tokens m primary).
Proof.
  intros Hprim. revert n Hprim. induction m as [|m IH]; intros n Hprim Hm eval p Hc Hr; [lia|].
  simpl. destruct (peek p) as [tok|] eqn:Hp; [|by apply Hprim].
  destruct (is_unary_op (tok_type tok)); [|by apply Hprim].
  destruct (advance_spec _ _ Hp) as [Hlt _]. pose proof (reaches_advance _ _ Hp) as Ha.
  assert (total (n - 1) primary) as Hprim'.
  { intros e q Hq1 Hq2. apply Hprim; [done|lia]. }
  destruct (IH (n - 1)%nat Hprim' ltac:(lia) eval (advance p)) as (v & q & Hq & Hreach & _);
    [lia|unfold remaining in *; lia|].
  rewrite Hq. cbn [mbind option_bind].
  assert (reaches p q /\ (ps_cursor p < ps_cursor q)%nat) as [H1 H2].
  { split; [reach | unfold reaches in Hreach; lia]. }
  assert (forall v' q', reaches q q' -> progress p (Some (v', q'))) as Hret.
  { intros v' q' Hqq'. do 2 eexists. split; [done|]. split; [reach|].
    left. destruct Hqq' as [? _]. lia. }
  destruct (tt_eqb _ _); [|destruct eval]; simpl; apply Hret; try reach;
    pose proof (reaches_cursor _ _ H1); reach.
Qed.

Lemma binary_loop_total (lv : Level) (next : ParseFn) (n m : nat) (eval : bool)
    (value : PPValue) (p : PPExprParser) :
  total n next -> (ps_cursor p <= cnt)%nat -> (remaining p < n)%nat -> (remaining p < m)%nat ->
  exists v p', binary_loop tokens lv next m eval value p = Some (v, p') /\ reaches p p'.
Proof.
  intros Hnext. revert value p. induction m as [|m IH]; intros value p Hc Hn Hm; [lia|].
  cbn [binary_loop].
  destruct (ps_error p); [do 2 eexists; split; [done|reach]|].
  destruct (peek p) as [tok|] eqn:Hp; [|do 2 eexists; split; [done|reach]].
  destruct (lv_is_op lv (tok_type tok)); [|do 2 eexists; split; [done|reach]].
  destruct (advance_spec _ _ Hp) as [Hlt _]. pose proof (reaches_advance _ _ Hp) as Ha.
  destruct (Hnext (eval && lv_eval_right lv value) (advance p))
    as (rhs & q & Hq & Hreach & _); [lia|unfold remaining in *; lia|].
  rewrite Hq. cbn [mbind option_bind].
  assert (reaches p q) as Hpq by reach.
  destruct eval.
  - destruct (IH (op_value (lv_apply lv (tok_type tok) value rhs))
      (or_flags q (op_error (lv_apply lv (tok_type tok) value rhs))
                  (op_ub (lv_apply lv (tok_type tok) value rhs))))
      as (v & p' & H1 & H2); [..|unfold remaining, reaches in *; simpl; lia|].
    1-2: unfold remaining, reaches in *; simpl; lia.
    do 2 eexists. split; [exact H1|]. eapply reaches_trans; [|exact H2]. reach.
  - destruct (IH value q) as (v & p' & H1 & H2); [..|unfold remaining, reaches in *; lia|].
    1-2: unfold remaining, reaches in *; lia.
    do 2 eexists. split; [exact H1|]. reach.
Qed.

Lemma binary_level_total (lv : Level) (next : ParseFn) (n m : nat) :
  total n next -> (n <= m)%nat -> total n (binary_level tokens lv m next).
Proof.
  intros Hnext Hm eval p Hc Hr. unfold binary_level.
  destruct (Hnext eval p Hc Hr) as (v & q & Hq & Hreach & Hprog). rewrite Hq. simpl.
  destruct (binary_loop_total lv next n m eval v q Hnext) as (v' & p' & Hl & Hreach');
    [unfold remaining, reaches in *; lia..|].
  rewrite Hl. simpl. do 2 eexists. split; [done|]. split; [reach|].
  unfold reaches in Hreach'. destruct Hprog; [left; lia|right; tauto].
Qed.

Lemma parse_logical_or_total (n m : nat) (primary : ParseFn) :
  total n primary -> (n <= m)%nat -> total n (parse_logical_or tokens m primary).
Proof.
  intros Hp Hm. unfold parse_logical_or, parse_logical_and, parse_bitwise_or,
    parse_bitwise_xor, parse_bitwise_and, parse_equality, parse_relational, parse_shift,
    parse_additive, parse_multiplicative.
  do 10 (apply binary_level_total; [|done]). by apply parse_unary_total.
Qed.

Lemma parse_conditional_total (n : nat) : total n (parse_conditional macros tokens n).
Proof.
  induction n as [|n IH]; intros eval p Hc Hr; [lia|]. cbn [parse_conditional].
  destruct (parse_logical_or_total (S n) (S n) _ (parse_primary_total n _ IH) ltac:(lia)
    eval p Hc Hr) as (c & q & Hq & Hreach & Hprog).
  rewrite Hq. cbn [mbind option_bind]. pose proof (reaches_cursor _ _ Hreach).
  assert (forall v, progress p (Some (v, q))) as Hret.
  { intros v. do 2 eexists. by split_and!. }
  destruct (peek q) as [tok|] eqn:Hp; [|apply Hret].
  destruct (tt_eqb _ _); [|apply Hret].
  destruct (advance_spec _ _ Hp) as [Hlt _]. pose proof (reaches_advance _ _ Hp) as Ha.
  destruct (IH (eval && pp_value_truthy c) (advance q)) as (tv & q2 & Hq2 & Hr2 & _);
    [lia|unfold remaining, reaches in *; lia|].
  rewrite Hq2. cbn [mbind option_bind].
  pose proof (match_spec q2 TOKEN_COLON (reaches_cursor _ _ Hr2)) as Hm.
  assert (reaches p q2) as Hpq2 by reach.
  destruct (parser_match tokens q2 TOKEN_COLON) as [[] q3]; simpl in Hm; simpl.
  - assert (reaches p q3) as Hpq3 by reach.
    destruct (IH (eval && negb (pp_value_truthy c)) q3) as (fv & q4 & Hq4 & Hr4 & _);
      [by eapply reaches_cursor|unfold remaining, reaches in *; lia|].
    rewrite Hq4. cbn [mbind option_bind]. do 2 eexists. split; [done|].
    split; [reach|]. left. unfold reaches in *. lia.
  - do 2 eexists. split; [done|]. split; [|by right].
    apply reaches_set_error. reach.
Qed.

End Discipline.

(** C6: the evaluator terminates on every token sequence: with one unit of fuel more than
    tokens it never runs out, so [pp_expr_eval_tokens] always reports its result. *)
Theorem pp_expr_run_total (macros : option MacroTable) (tokens : list Token) :
  is_Some (pp_expr_run macros tokens).
Proof.
  unfold pp_expr_run.
  destruct (parse_conditional_total macros tokens (S (length tokens)) true (mkParser 0 false false))
    as (v & p & Hp & _); [simpl; lia|unfold remaining; simpl; lia|].
  rewrite Hp. simpl. eauto.
Qed.
