(* ===== verification/PPExprSpec.v ===== *)
(** * What [#if] expressions mean, and that pp_expr.c computes it.

    [derives] is the C grammar of constant expressions, left-recursive as the standard
    writes it, over token lists; a name is an identifier token ([keyword_is_refused]: the
    code takes no keyword for 0).  [cden] is the value in the standard's terms (64-bit
    [intmax_t]/[uintmax_t] integers, integer constants, usual arithmetic conversions, no
    result where the standard gives none).  The evaluator departs from it in [?:], which
    leaves its operands unconverted, and in an [int32_t] result; [pp_expr_run_derives] says
    it computes the value of every expression whose [?:] have nothing to convert. *)
From S2P Require Import Prelude CType Tokens MacroTable PPExpr.

(** ** Values *)

Record CInt := mkCInt { ci_val : Z; ci_unsigned : bool }.

Definition ci_ok (v : CInt) : bool :=
  if ci_unsigned v then inU 64 (ci_val v) else inS 64 (ci_val v).

Definition ci_signed (z : Z) : option CInt := if inS 64 z then Some (mkCInt z false) else None.
Definition ci_wrap (z : Z) : option CInt := Some (mkCInt (z `mod` 2 ^ 64) true).
Definition ci_bool (b : bool) : CInt := mkCInt (if b then 1 else 0) false.
Definition ci_true (v : CInt) : bool := negb (ci_val v =? 0).

(** The usual arithmetic conversions, for operands of the two widest types. *)
Definition ci_both (a b : CInt) : bool := ci_unsigned a || ci_unsigned b.
Definition ci_conv (uns : bool) (v : CInt) : Z :=
  if uns then ci_val v `mod` 2 ^ 64 else ci_val v.
Definition ci_arith (f : Z -> Z -> Z) (a b : CInt) : option CInt :=
  let u := ci_both a b in
  (if u then ci_wrap else ci_signed) (f (ci_conv u a) (ci_conv u b)).
Definition ci_compare (f : Z -> Z -> bool) (a b : CInt) : option CInt :=
  let u := ci_both a b in Some (ci_bool (f (ci_conv u a) (ci_conv u b))).

Definition cbinary (op : TokenType) (a b : CInt) : option CInt :=
  match op with
  | TOKEN_ASTERISK => ci_arith Z.mul a b
  | TOKEN_DIVIDE => if ci_val b =? 0 then None else ci_arith Z.quot a b
  | TOKEN_MODULO =>
      if (ci_val b =? 0) || negb (match ci_arith Z.quot a b with Some _ => true | None => false end)
      then None else ci_arith Z.rem a b
  | TOKEN_PLUS => ci_arith Z.add a b
  | TOKEN_MINUS => ci_arith Z.sub a b
  | TOKEN_LEFT_SHIFT =>
      if (0 <=? ci_val b) && (ci_val b <? 64) then
        if ci_unsigned a then ci_wrap (ci_val a * 2 ^ ci_val b)
        else if ci_val a <? 0 then None else ci_signed (ci_val a * 2 ^ ci_val b)
      else None
  | TOKEN_RIGHT_SHIFT =>
      if (0 <=? ci_val b) && (ci_val b <? 64)
      then Some (mkCInt (ci_val a `div` 2 ^ ci_val b) (ci_unsigned a)) else None
  | TOKEN_LESS => ci_compare Z.ltb a b
  | TOKEN_LESS_EQUAL => ci_compare Z.leb a b
  | TOKEN_GREATER => ci_compare Z.gtb a b
  | TOKEN_GREATER_EQUAL => ci_compare Z.geb a b
  | TOKEN_EQUAL => ci_compare Z.eqb a b
  | TOKEN_NOT_EQUAL => ci_compare (fun x y => negb (x =? y)) a b
  | TOKEN_BITWISE_AND => ci_arith Z.land a b
  | TOKEN_BITWISE_XOR => ci_arith Z.lxor a b
  | TOKEN_BITWISE_OR => ci_arith Z.lor a b
  | _ => None
  end.

Definition cunary (op : TokenType) (v : CInt) : option CInt :=
  let wrap := if ci_unsigned v then ci_wrap else ci_signed in
  match op with
  | TOKEN_PLUS => Some v
  | TOKEN_MINUS => wrap (- ci_val v)
  | TOKEN_BITWISE_NOT => wrap (- ci_val v - 1)
  | TOKEN_LOGICAL_NOT => Some (ci_bool (negb (ci_true v)))
  | _ => None
  end.

(** ** Expressions and their grammar *)

Inductive ppexpr : Type :=
  | PNum (tok : Token)
  | PIdent
  | PDefined (name : string)
  | PParen (e : ppexpr)
  | PUn (op : TokenType) (e : ppexpr)
  | PBin (op : TokenType) (a b : ppexpr)
  | PCond (c a b : ppexpr).

(** The precedence of a binary operator, loosest first. *)
Definition op_level (t : TokenType) : option nat :=
  match t with
  | TOKEN_LOGICAL_OR => Some 0%nat
  | TOKEN_LOGICAL_AND => Some 1%nat
  | TOKEN_BITWISE_OR => Some 2%nat
  | TOKEN_BITWISE_XOR => Some 3%nat
  | TOKEN_BITWISE_AND => Some 4%nat
  | TOKEN_EQUAL | TOKEN_NOT_EQUAL => Some 5%nat
  | TOKEN_LESS | TOKEN_LESS_EQUAL | TOKEN_GREATER | TOKEN_GREATER_EQUAL => Some 6%nat
  | TOKEN_LEFT_SHIFT | TOKEN_RIGHT_SHIFT => Some 7%nat
  | TOKEN_PLUS | TOKEN_MINUS => Some 8%nat
  | TOKEN_ASTERISK | TOKEN_DIVIDE | TOKEN_MODULO => Some 9%nat
  | _ => None
  end.

Abbreviation is_type ty t := (tok_type t = ty).

(** Category 0 is the conditional expression, [S k] the binary level [k], 11 the unary
    expression, 12 the primary expression. *)
Inductive derives : nat -> list Token -> ppexpr -> Prop :=
  | D_down c ts e : (c < 12)%nat -> derives (S c) ts e -> derives c ts e
  | D_cond ts1 q ts2 col ts3 c a b :
      derives 1 ts1 c -> is_type TOKEN_QUESTION q -> derives 0 ts2 a ->
      is_type TOKEN_COLON col -> derives 0 ts3 b ->
      derives 0 (ts1 ++ q :: ts2 ++ col :: ts3) (PCond c a b)
  | D_bin k ts1 t ts2 a b :
      op_level (tok_type t) = Some k -> derives (S k) ts1 a -> derives (S (S k)) ts2 b ->
      derives (S k) (ts1 ++ t :: ts2) (PBin (tok_type t) a b)
  | D_unary t ts e :
      is_unary_op (tok_type t) = true -> derives 11 ts e ->
      derives 11 (t :: ts) (PUn (tok_type t) e)
  | D_number t :
      tok_type t = TOKEN_NUMBER \/ tok_type t = TOKEN_CHAR_LITERAL -> derives 12 [t] (PNum t)
  | D_ident t :
      is_type TOKEN_IDENTIFIER t -> tok_value t <> Some "defined"%string -> derives 12 [t] PIdent
  | D_defined d t name :
      is_type TOKEN_IDENTIFIER d -> tok_value d = Some "defined"%string ->
      token_is_pp_identifier t = true -> tok_value t = Some name ->
      derives 12 [d; t] (PDefined name)
  | D_defined_paren d l t r name :
      is_type TOKEN_IDENTIFIER d -> tok_value d = Some "defined"%string ->
      is_type TOKEN_LPAREN l -> token_is_pp_identifier t = true -> tok_value t = Some name ->
      is_type TOKEN_RPAREN r ->
      derives 12 [d; l; t; r] (PDefined name)
  | D_paren l ts r e :
      is_type TOKEN_LPAREN l -> derives 0 ts e -> is_type TOKEN_RPAREN r ->
      derives 12 (l :: ts ++ [r]) (PParen e).

(** Integer constants: digits in the base of the prefix, and a suffix. *)
Definition c_suffixes : list (string * bool) :=
  [(""%string, false); ("l"%string, false); ("L"%string, false); ("ll"%string, false); ("LL"%string, false);
   ("u"%string, true); ("U"%string, true); ("ul"%string, true); ("uL"%string, true); ("Ul"%string, true);
   ("UL"%string, true); ("ull"%string, true); ("uLL"%string, true); ("Ull"%string, true); ("ULL"%string, true);
   ("lu"%string, true); ("lU"%string, true); ("Lu"%string, true); ("LU"%string, true); ("llu"%string, true);
   ("llU"%string, true); ("LLu"%string, true); ("LLU"%string, true)].

Definition c_base (s : list ascii) : Z * list ascii :=
  match s with
  | "0"%char :: ("x"%char | "X"%char) :: rest => (16, rest)
  | "0"%char :: _ => (8, s)
  | _ => (10, s)
  end.

(** A constant without [u] is signed where it fits, and otherwise unsigned unless decimal. *)
Definition c_constant (base v : Z) (uns : bool) : option CInt :=
  if uns then (if v <? 2 ^ 64 then Some (mkCInt v true) else None)
  else if v <? 2 ^ 63 then Some (mkCInt v false)
  else if (base =? 10) || negb (v <? 2 ^ 64) then None else Some (mkCInt v true).

(** A number, or a character constant, whose token carries its value in decimal. *)
Definition c_literal (tok : Token) : option CInt :=
  text ← tok_value tok;
  let '(base, body) := c_base (list_ascii_of_string text) in
  let '(digits, rest) := span (in_base base) body in
  match digits with
  | [] => None
  | _ => '(_, uns) ← List.find (fun sfx => bool_decide (list_ascii_of_string sfx.1 = rest)) c_suffixes;
         c_constant base (digits_value base digits) uns
  end.

(** The type of an expression: [uintmax_t] or [intmax_t]. *)
Fixpoint c_unsigned (e : ppexpr) : bool :=
  match e with
  | PNum tok => match c_literal tok with Some v => ci_unsigned v | None => false end
  | PIdent | PDefined _ => false
  | PParen e => c_unsigned e
  | PUn op e => match op with TOKEN_LOGICAL_NOT => false | _ => c_unsigned e end
  | PBin op a b =>
      match op with
      | TOKEN_LEFT_SHIFT | TOKEN_RIGHT_SHIFT => c_unsigned a
      | TOKEN_ASTERISK | TOKEN_DIVIDE | TOKEN_MODULO | TOKEN_PLUS | TOKEN_MINUS | TOKEN_BITWISE_AND | TOKEN_BITWISE_XOR
      | TOKEN_BITWISE_OR => c_unsigned a || c_unsigned b
      | _ => false
      end
  | PCond _ a b => c_unsigned a || c_unsigned b
  end.

Section Meaning.
Context (macros : option MacroTable).

(** Operands a short circuit or a conditional skips have no meaning to check. *)
Fixpoint cden (e : ppexpr) : option CInt :=
  match e with
  | PNum tok => c_literal tok
  | PIdent => Some (ci_bool false)
  | PDefined name => Some (ci_bool (macro_is_defined macros name))
  | PParen e => cden e
  | PUn op e => v ← cden e; cunary op v
  | PBin op a b =>
      va ← cden a;
      match op with
      | TOKEN_LOGICAL_AND =>
          if ci_true va then vb ← cden b; Some (ci_bool (ci_true vb)) else Some (ci_bool false)
      | TOKEN_LOGICAL_OR =>
          if ci_true va then Some (ci_bool true) else vb ← cden b; Some (ci_bool (ci_true vb))
      | _ => vb ← cden b; cbinary op va vb
      end
  | PCond c a b =>
      vc ← cden c; v ← (if ci_true vc then cden a else cden b);
      let u := c_unsigned a || c_unsigned b in Some (mkCInt (ci_conv u v) u)
  end.

(** The operands of every [?:] have one type. *)
Fixpoint same_signedness (e : ppexpr) : bool :=
  match e with
  | PNum _ | PIdent | PDefined _ => true
  | PParen e | PUn _ e => same_signedness e
  | PBin _ a b => same_signedness a && same_signedness b
  | PCond c a b => Bool.eqb (c_unsigned a) (c_unsigned b) && same_signedness c && same_signedness a && same_signedness b
  end.

(** ** What the code computes

    It reads numbers with [strtoull] and leaves the chosen operand of [?:] as it is. *)
Fixpoint pden (e : ppexpr) : option CInt :=
  match e with
  | PNum tok => let '(v, ok) := parse_integer_token tok in
                if ok then Some (mkCInt (if isUnsigned v then bits v else i64 (bits v))
                                        (isUnsigned v)) else None
  | PIdent => Some (ci_bool false)
  | PDefined name => Some (ci_bool (macro_is_defined macros name))
  | PParen e => pden e
  | PUn op e => v ← pden e; cunary op v
  | PBin op a b =>
      va ← pden a;
      match op with
      | TOKEN_LOGICAL_AND =>
          if ci_true va then vb ← pden b; Some (ci_bool (ci_true vb)) else Some (ci_bool false)
      | TOKEN_LOGICAL_OR =>
          if ci_true va then Some (ci_bool true) else vb ← pden b; Some (ci_bool (ci_true vb))
      | _ => vb ← pden b; cbinary op va vb
      end
  | PCond c a b => vc ← pden c; if ci_true vc then pden a else pden b
  end.

End Meaning.

(** ** The operators agree with their meaning. *)

Definition to_pp (v : CInt) : PPValue := mkPPValue (u64 (ci_val v)) (ci_unsigned v).

Lemma ci_ok_range (v : CInt) :
  ci_ok v = true <->
  if ci_unsigned v then 0 <= ci_val v < 2 ^ 64 else - 2 ^ 63 <= ci_val v < 2 ^ 63.
Proof. unfold ci_ok. destruct (ci_unsigned v); [apply inU_spec | apply (inS_spec 64)]. Qed.

Lemma ci_ok_signed (z : Z) (v : CInt) :
  ci_signed z = Some v -> v = mkCInt z false /\ ci_ok v = true /\ inS 64 z = true.
Proof. unfold ci_signed. destruct (inS 64 z) eqn:E; [|done]. intros. by simplify_eq/=. Qed.

Lemma ci_ok_wrap (z : Z) (v : CInt) :
  ci_wrap z = Some v -> v = mkCInt (u64 z) true /\ ci_ok v = true.
Proof.
  unfold ci_wrap. intros. simplify_eq. split; [done|].
  apply ci_ok_range. simpl. by apply Z.mod_pos_bound.
Qed.

Lemma ci_bool_ok (b : bool) : ci_ok (ci_bool b) = true.
Proof. by destruct b. Qed.

Lemma to_pp_bool (b : bool) : to_pp (ci_bool b) = pp_value_bool b.
Proof. done. Qed.

Lemma as_unsigned_to_pp (v : CInt) : pp_value_as_unsigned (to_pp v) = ci_conv true v.
Proof. done. Qed.

Lemma as_signed_to_pp (v : CInt) :
  ci_ok v = true -> ci_unsigned v = false -> pp_value_as_signed (to_pp v) = ci_val v.
Proof.
  intros Hv%ci_ok_range Hu. rewrite Hu in Hv. unfold pp_value_as_signed, to_pp. simpl.
  rewrite wrapS_wrapU by lia. apply wrapS_small; simpl; lia.
Qed.

Lemma conv_unsigned (v : CInt) : ci_ok v = true -> ci_unsigned v = true -> ci_conv true v = ci_val v.
Proof. intros Hv%ci_ok_range Hu. rewrite Hu in Hv. apply Z.mod_small. lia. Qed.

Lemma truthy_to_pp (v : CInt) : ci_ok v = true -> pp_value_truthy (to_pp v) = ci_true v.
Proof.
  intros Hv%ci_ok_range. unfold pp_value_truthy, ci_true, to_pp, wrapU. simpl bits. f_equal.
  apply eq_true_iff_eq. rewrite !Z.eqb_eq. split; [|by intros ->].
  destruct (ci_unsigned v); [by rewrite Z.mod_small by lia|].
  intros H%Z.mod_divide; [|lia]. destruct H as [k Hk]. nia.
Qed.

Lemma u64_wrap (z : Z) : u64 (u64 z) = u64 z.
Proof. unfold wrapU. by rewrite Zmod_mod. Qed.

Lemma to_pp_wrap (z : Z) : to_pp (mkCInt (u64 z) true) = pp_value_unsigned z.
Proof. unfold to_pp. simpl. by rewrite u64_wrap. Qed.

Lemma to_pp_signed (z : Z) : to_pp (mkCInt z false) = pp_value_signed z.
Proof. done. Qed.

Lemma signed_result_ok (z : Z) : inS 64 z = true -> signed_result z = ok_result (to_pp (mkCInt z false)).
Proof. intros H. unfold signed_result, ok_result. by rewrite H. Qed.

(** An arithmetic operator that computes [f] on the converted operands. *)
Lemma arith_agrees (f : Z -> Z -> Z) (a b v : CInt) :
  ci_ok a = true -> ci_ok b = true -> ci_arith f a b = Some v ->
  ci_ok v = true /\
  (if pp_value_use_unsigned (to_pp a) (to_pp b)
   then ok_result (pp_value_unsigned (f (pp_value_as_unsigned (to_pp a))
                                        (pp_value_as_unsigned (to_pp b))))
   else signed_result (f (pp_value_as_signed (to_pp a)) (pp_value_as_signed (to_pp b))))
  = ok_result (to_pp v).
Proof.
  intros Ha Hb. unfold ci_arith. change (pp_value_use_unsigned _ _) with (ci_both a b).
  destruct (ci_both a b) eqn:E.
  - intros [-> Hv]%ci_ok_wrap. split; [done|]. by rewrite to_pp_wrap, !as_unsigned_to_pp.
  - apply orb_false_elim in E as [Ea Eb]. intros (-> & Hv & Hz)%ci_ok_signed. split; [done|].
    rewrite !as_signed_to_pp by done. by apply signed_result_ok.
Qed.

Lemma compare_agrees (f : Z -> Z -> bool) (a b v : CInt) :
  ci_ok a = true -> ci_ok b = true -> ci_compare f a b = Some v ->
  ci_ok v = true /\
  to_pp v = pp_value_bool
    (if pp_value_use_unsigned (to_pp a) (to_pp b)
     then f (pp_value_as_unsigned (to_pp a)) (pp_value_as_unsigned (to_pp b))
     else f (pp_value_as_signed (to_pp a)) (pp_value_as_signed (to_pp b))).
Proof.
  intros Ha Hb. unfold ci_compare. change (pp_value_use_unsigned _ _) with (ci_both a b).
  intros [= <-]. split; [apply ci_bool_ok|]. rewrite to_pp_bool. f_equal.
  destruct (ci_both a b) eqn:E; [done|].
  apply orb_false_elim in E as [Ea Eb]. by rewrite !as_signed_to_pp.
Qed.

Lemma u64_testbit (z n : Z) : 0 <= n -> Z.testbit (u64 z) n = (n <? 64) && Z.testbit z n.
Proof.
  intros Hn. unfold wrapU. rewrite <- Z.land_ones, Z.land_spec by lia.
  rewrite Z.testbit_ones by lia. destruct (n <? 64) eqn:E; simpl.
  - destruct (0 <=? n) eqn:E'; [by rewrite andb_true_r | lia].
  - by rewrite andb_false_r, andb_false_r.
Qed.

Definition bitwise_op (f : Z -> Z -> Z) : Prop :=
  exists g, g false false = false /\ forall a b n, Z.testbit (f a b) n = g (Z.testbit a n) (Z.testbit b n).

Lemma u64_bitwise (f : Z -> Z -> Z) (a b : Z) :
  bitwise_op f -> u64 (f (u64 a) (u64 b)) = u64 (f a b).
Proof.
  intros (g & Hg & Hf). apply Z.bits_inj'. intros n Hn.
  rewrite !u64_testbit, !Hf, !u64_testbit by done. by destruct (n <? 64).
Qed.

Lemma bitwise_ops : bitwise_op Z.land /\ bitwise_op Z.lor /\ bitwise_op Z.lxor.
Proof.
  split_and!; [exists andb|exists orb|exists xorb]; (split; [done|]); intros.
  - apply Z.land_spec.
  - apply Z.lor_spec.
  - apply Z.lxor_spec.
Qed.

Lemma bitwise_agrees (f : Z -> Z -> Z) (op : TokenType) (a b v : CInt) :
  bitwise_op f -> ci_ok a = true -> ci_ok b = true -> ci_arith f a b = Some v ->
  ci_ok v = true /\ apply_bitwise f op (to_pp a) (to_pp b) = ok_result (to_pp v).
Proof.
  intros Hf Ha Hb H. destruct (arith_agrees f a b v Ha Hb H) as [Hv Heq].
  split; [done|]. rewrite <- Heq. unfold apply_bitwise.
  destruct (pp_value_use_unsigned _ _) eqn:E; [done|].
  revert H. unfold ci_arith. change (ci_both a b) with (pp_value_use_unsigned (to_pp a) (to_pp b)).
  apply orb_false_elim in E as E'. destruct E' as [Ea Eb]. rewrite E.
  intros (_ & _ & Hz)%ci_ok_signed. simpl in Hz.
  rewrite !as_signed_to_pp by done. rewrite signed_result_ok by done.
  rewrite !as_unsigned_to_pp. rewrite to_pp_signed. unfold pp_value_signed, ci_conv.
  rewrite wrapU_wrapS by lia.
  change (?z `mod` 2 ^ 64) with (u64 z). by rewrite u64_bitwise.
Qed.

(** The levels of pp_expr.c, loosest first. *)
Definition pp_levels : list Level :=
  [logical_or_level; logical_and_level; bitwise_or_level; bitwise_xor_level; bitwise_and_level;
   equality_level; relational_level; shift_level; additive_level; multiplicative_level].

Lemma pp_levels_is_op (k : nat) (lv : Level) (t : TokenType) :
  pp_levels !! k = Some lv -> lv_is_op lv t = true <-> op_level t = Some k.
Proof.
  intros H. do 10 (destruct k as [|k]; [injection H as <-; destruct t; vm_compute; split; congruence|]).
  discriminate.
Qed.

Lemma division_by_zero_guard (op : TokenType) (b : CInt) :
  ci_ok b = true -> (ci_val b =? 0) = false ->
  (tt_eqb op TOKEN_DIVIDE || tt_eqb op TOKEN_MODULO) && negb (pp_value_truthy (to_pp b)) = false.
Proof.
  intros Hb Hz. rewrite truthy_to_pp by done. unfold ci_true. rewrite Hz. by rewrite andb_false_r.
Qed.

Lemma unsigned_quot_rem (a b : CInt) :
  ci_val b <> 0 -> ci_ok b = true ->
  ci_conv true b <> 0 /\
  Z.quot (ci_conv true a) (ci_conv true b) = ci_conv true a `div` ci_conv true b /\
  Z.rem (ci_conv true a) (ci_conv true b) = ci_conv true a `mod` ci_conv true b.
Proof.
  intros Hz Hb.
  pose proof (Z.mod_pos_bound (ci_val a) (2 ^ 64) ltac:(lia)).
  pose proof (Z.mod_pos_bound (ci_val b) (2 ^ 64) ltac:(lia)).
  assert (ci_conv true b <> 0).
  { pose proof (truthy_to_pp b Hb) as Ht. unfold pp_value_truthy, ci_true in Ht. simpl in Ht.
    unfold wrapU, ci_conv in *. lia. }
  unfold ci_conv in *.
  split_and!; [done|apply Z.quot_div_nonneg; lia|apply Z.rem_mod_nonneg; lia].
Qed.

Lemma multiplicative_agrees (op : TokenType) (a b v : CInt) :
  op_level op = Some 9%nat -> ci_ok a = true -> ci_ok b = true -> cbinary op a b = Some v ->
  ci_ok v = true /\ apply_multiplicative op (to_pp a) (to_pp b) = ok_result (to_pp v).
Proof.
  intros Hop Ha Hb H. destruct op; try discriminate Hop.
  - destruct (arith_agrees _ _ _ _ Ha Hb H) as [Hv <-]. done.
  - cbn [cbinary] in H. destruct (ci_val b =? 0) eqn:Hz; [done|].
    destruct (arith_agrees _ _ _ _ Ha Hb H) as [Hv <-]. split; [done|].
    unfold apply_multiplicative. rewrite division_by_zero_guard by done.
    destruct (unsigned_quot_rem a b) as (_ & Hq & _); [lia|done|].
    rewrite !as_unsigned_to_pp, Hq. done.
  - cbn [cbinary] in H. destruct (ci_val b =? 0) eqn:Hz; [done|].
    destruct (ci_arith Z.quot a b) as [q|] eqn:Eq; [|done].
    destruct (arith_agrees _ _ _ _ Ha Hb H) as [Hv <-]. split; [done|].
    unfold apply_multiplicative. rewrite division_by_zero_guard by done.
    destruct (unsigned_quot_rem a b) as (_ & _ & Hr); [lia|done|].
    rewrite !as_unsigned_to_pp, Hr.
    destruct (pp_value_use_unsigned (to_pp a) (to_pp b)) eqn:E; [done|].
    unfold ci_arith in Eq, H. change (ci_both a b) with (pp_value_use_unsigned (to_pp a) (to_pp b)) in *.
    apply orb_false_elim in E as E'. destruct E' as [Ea Eb]. rewrite E in Eq, H.
    apply ci_ok_signed in Eq as (_ & _ & Hq). apply ci_ok_signed in H as (_ & _ & Hr').
    simpl in Hq, Hr'. rewrite !as_signed_to_pp by done. rewrite Hq. simpl.
    by rewrite signed_result_ok.
Qed.

Lemma shift_agrees (op : TokenType) (a b v : CInt) :
  op_level op = Some 7%nat -> ci_ok a = true -> ci_ok b = true -> cbinary op a b = Some v ->
  ci_ok v = true /\ apply_shift op (to_pp a) (to_pp b) = ok_result (to_pp v).
Proof.
  intros Hop Ha Hb H.
  assert (0 <= ci_val b < 64) as Hr.
  { destruct op; try discriminate Hop; cbn [cbinary] in H;
      destruct ((0 <=? ci_val b) && (ci_val b <? 64)) eqn:E; (discriminate || lia). }
  assert (Z.land (pp_value_as_unsigned (to_pp b)) 63 = ci_val b) as Hamt.
  { rewrite as_unsigned_to_pp. change 63 with (Z.ones 6). rewrite Z.land_ones by lia.
    change (ci_conv true b) with (ci_val b `mod` 2 ^ 64).
    rewrite (Z.mod_small _ (2 ^ 64)) by lia. apply Z.mod_small. lia. }
  unfold apply_shift. rewrite Hamt.
  assert ((0 <=? ci_val b) && (ci_val b <? 64) = true) as Hc by lia.
  pose proof (proj1 (ci_ok_range a) Ha) as Hra.
  destruct op; try discriminate Hop; cbn [cbinary] in H; rewrite Hc in H; try change (tt_eqb TOKEN_LEFT_SHIFT TOKEN_LEFT_SHIFT) with true;
    try change (tt_eqb TOKEN_RIGHT_SHIFT TOKEN_LEFT_SHIFT) with false; cbv iota;
    change (isUnsigned (to_pp a)) with (ci_unsigned a);
    destruct (ci_unsigned a) eqn:Eu;
    rewrite ?Z.shiftl_mul_pow2, ?Z.shiftr_div_pow2 by lia.
  - apply ci_ok_wrap in H as [-> Hv]. split; [done|].
    by rewrite to_pp_wrap, as_unsigned_to_pp, conv_unsigned.
  - rewrite as_signed_to_pp by done. destruct (ci_val a <? 0) eqn:En; [done|].
    apply ci_ok_signed in H as (-> & Hv & Hz). by rewrite Hz.
  - injection H as <-. rewrite as_unsigned_to_pp, conv_unsigned by done.
    split; [|by unfold to_pp]. apply ci_ok_range. simpl.
    pose proof (pow2_pos (ci_val b) ltac:(lia)).
    split; [apply Z.div_pos; lia|]. apply Z.div_lt_upper_bound; nia.
  - injection H as <-. rewrite as_signed_to_pp by done. split; [|by unfold to_pp].
    apply ci_ok_range. simpl. pose proof (pow2_pos (ci_val b) ltac:(lia)).
    split; [apply Z.div_le_lower_bound; nia | apply Z.div_lt_upper_bound; nia].
Qed.

Lemma relational_agrees (op : TokenType) (a b v : CInt) :
  op_level op = Some 6%nat -> ci_ok a = true -> ci_ok b = true -> cbinary op a b = Some v ->
  ci_ok v = true /\ apply_relational op (to_pp a) (to_pp b) = ok_result (to_pp v).
Proof.
  intros Hop Ha Hb H. unfold apply_relational.
  destruct op; try discriminate Hop; destruct (compare_agrees _ _ _ _ Ha Hb H) as [Hv ->];
    (split; [done|]); destruct (pp_value_use_unsigned _ _); do 2 f_equal;
    rewrite ?Z.gtb_ltb, ?Z.geb_leb; done.
Qed.

Lemma equality_agrees (op : TokenType) (a b v : CInt) :
  op_level op = Some 5%nat -> ci_ok a = true -> ci_ok b = true -> cbinary op a b = Some v ->
  ci_ok v = true /\ apply_equality op (to_pp a) (to_pp b) = ok_result (to_pp v).
Proof.
  intros Hop Ha Hb H. unfold apply_equality.
  destruct op; try discriminate Hop; destruct (compare_agrees _ _ _ _ Ha Hb H) as [Hv ->];
    (split; [done|]); by destruct (pp_value_use_unsigned _ _).
Qed.

(** Every non-logical operator of every level. *)
Lemma cbinary_agrees (op : TokenType) (k : nat) (lv : Level) (a b v : CInt) :
  op_level op = Some k -> (2 <= k)%nat -> pp_levels !! k = Some lv ->
  ci_ok a = true -> ci_ok b = true -> cbinary op a b = Some v ->
  ci_ok v = true /\ lv_apply lv op (to_pp a) (to_pp b) = ok_result (to_pp v).
Proof.
  intros Hop Hk Hlv Ha Hb H. destruct bitwise_ops as (Hand & Hor & Hxor).
  destruct k as [|[|[|[|[|[|[|[|[|[|k]]]]]]]]]]; try lia; try discriminate Hlv;
    injection Hlv as <-; cbn [lv_apply].
  - destruct op; try discriminate Hop. by apply bitwise_agrees.
  - destruct op; try discriminate Hop. by apply bitwise_agrees.
  - destruct op; try discriminate Hop. by apply bitwise_agrees.
  - by apply equality_agrees.
  - by apply relational_agrees.
  - by apply shift_agrees.
  - unfold apply_additive. destruct op; try discriminate Hop; simpl;
      destruct (arith_agrees _ _ _ _ Ha Hb H) as [Hv <-]; done.
  - by apply multiplicative_agrees.
Qed.

Lemma cunary_agrees (op : TokenType) (a v : CInt) :
  is_unary_op op = true -> ci_ok a = true -> cunary op a = Some v ->
  ci_ok v = true /\ apply_unary op (to_pp a) = ok_result (to_pp v).
Proof.
  intros Hop Ha H. destruct op; try discriminate Hop; cbn [cunary] in H.
  - by simplify_eq.
  - cbn [apply_unary]. change (isUnsigned (to_pp a)) with (ci_unsigned a).
    destruct (ci_unsigned a) eqn:Eu.
    + apply ci_ok_wrap in H as [-> Hv]. split; [done|]. rewrite to_pp_wrap.
      change (bits (to_pp a)) with (ci_conv true a). rewrite conv_unsigned by done. done.
    + apply ci_ok_signed in H as (-> & Hv & Hz). split; [done|].
      rewrite as_signed_to_pp by done. by apply signed_result_ok.
  - injection H as <-. split; [apply ci_bool_ok|]. simpl. by rewrite truthy_to_pp.
  - cbn [apply_unary]. change (isUnsigned (to_pp a)) with (ci_unsigned a).
    unfold Z.lnot. rewrite <- !Z.sub_1_r.
    destruct (ci_unsigned a) eqn:Eu.
    + apply ci_ok_wrap in H as [-> Hv]. split; [done|]. rewrite to_pp_wrap.
      change (bits (to_pp a)) with (ci_conv true a). by rewrite conv_unsigned.
    + apply ci_ok_signed in H as (-> & Hv & Hz). split; [done|].
      by rewrite as_signed_to_pp.
Qed.

Lemma parse_integer_token_bits (tok : Token) (v : PPValue) :
  parse_integer_token tok = (v, true) ->
  v = to_pp (mkCInt (if isUnsigned v then bits v else i64 (bits v)) (isUnsigned v)) /\
  ci_ok (mkCInt (if isUnsigned v then bits v else i64 (bits v)) (isUnsigned v)) = true.
Proof.
  unfold parse_integer_token. destruct (tok_value tok); [|discriminate].
  destruct (strtoull0 _) as [[raw rest] ov].
  destruct (_ || negb _); [discriminate|].
  assert (forall z uns, let v := mkPPValue (u64 z) uns in
    v = to_pp (mkCInt (if isUnsigned v then bits v else i64 (bits v)) (isUnsigned v)) /\
    ci_ok (mkCInt (if isUnsigned v then bits v else i64 (bits v)) (isUnsigned v)) = true) as Hz.
  { intros z uns. cbn. destruct uns; unfold to_pp; cbn [ci_val ci_unsigned].
    - rewrite u64_wrap. split; [done|]. apply ci_ok_range. cbn. by apply wrapU_range.
    - rewrite wrapU_wrapS, u64_wrap by lia. split; [done|].
      apply ci_ok_range. cbn [ci_unsigned ci_val]. by apply (wrapS_range 64). }
  destruct (_ || _); intros H; injection H as <-; apply Hz.
Qed.

Lemma pden_ok (macros : option MacroTable) (e : ppexpr) (v : CInt) :
  pden macros e = Some v -> ci_ok v = true.
Proof.
  revert v. induction e as [tok| |name|e IH|op e IH|op a IHa b IHb|c IHc a IHa b IHb];
    intros v; cbn [pden].
  - destruct (parse_integer_token tok) as [w []] eqn:E; [|done]. intros [= <-].
    by apply parse_integer_token_bits in E as [_ ?].
  - by intros [= <-].
  - intros [= <-]. apply ci_bool_ok.
  - apply IH.
  - destruct (pden macros e) as [w|] eqn:E; [|done]. cbn [mbind option_bind]. intros H.
    specialize (IH _ eq_refl). destruct (is_unary_op op) eqn:Eop.
    + by apply (cunary_agrees op w v).
    + by destruct op.
  - destruct (pden macros a) as [va|] eqn:Ea; [|done]. cbn [mbind option_bind].
    specialize (IHa _ eq_refl).
    destruct (pden macros b) as [vb|] eqn:Eb; cbn [mbind option_bind].
    2:{ destruct op; try done; destruct (ci_true va); try done; intros [= <-]; done. }
    specialize (IHb _ eq_refl). intros H.
    destruct (op_level op) as [k|] eqn:Ek; [|by destruct op].
    destruct (decide (k < 2)%nat) as [Hk|Hk].
    + destruct op; try discriminate Ek; try (injection Ek as <-; lia);
        destruct (ci_true va); injection H as <-; apply ci_bool_ok.
    + assert (cbinary op va vb = Some v) as H'.
      { destruct op; try exact H; injection Ek as <-; lia. }
      destruct (pp_levels !! k) as [lv|] eqn:Elv.
      * by apply (cbinary_agrees op k lv va vb v); [..|lia| | | |].
      * apply lookup_ge_None in Elv. simpl in Elv. destruct op; simplify_eq/=; lia.
  - destruct (pden macros c) as [vc|]; [|done]. cbn [mbind option_bind].
    destruct (ci_true vc); eauto.
Qed.

(** ** Where the code computes the value of C *)

Lemma suffix_cases (rest : list ascii) (name : string) (uns : bool) :
  List.find (fun sfx => bool_decide (list_ascii_of_string sfx.1 = rest)) c_suffixes = Some (name, uns) ->
  Forall (fun c => is_alpha c = true) rest /\ existsb is_unsigned_suffix rest = uns /\
  (forall base y, 0 < base <= 16 -> head rest = Some y -> in_base base y = false).
Proof.
  intros H. apply find_some in H as [H E]. apply bool_decide_eq_true in E. subst rest. cbn [fst].
  assert (Hb : forall base y, 0 < base <= 16 -> 16 <= digit_value y -> in_base base y = false).
  { intros base y Hb Hy. unfold in_base. lia. }
  unfold c_suffixes in H. cbn [In] in H.
  repeat (destruct H as [H|H]; [injection H as <- <-; (split; [by repeat constructor|split; [done|]]);
    intros base y Hbase Hy; cbn in Hy; first [discriminate Hy | injection Hy as <-; apply Hb; [done|by vm_compute]]|]).
  done.
Qed.

Lemma digit_not_unsigned_suffix (base : Z) (c : ascii) : base <= 16 -> in_base base c = true -> is_unsigned_suffix c = false.
Proof. unfold in_base, is_unsigned_suffix, digit_value. ctype. intros Hb. repeat case_match; lia. Qed.

Lemma digits_no_unsigned_suffix (base : Z) (ds rest : list ascii) :
  base <= 16 -> Forall (fun c => in_base base c = true) ds -> existsb is_unsigned_suffix (ds ++ rest) = existsb is_unsigned_suffix rest.
Proof.
  intros Hb. induction 1 as [|c ds Hc _ IH]; [done|]. cbn [app existsb]. by rewrite (digit_not_unsigned_suffix base c Hb Hc), IH.
Qed.

(** [strtoull] finds the base, the digits and the suffix. *)
Lemma strtoull0_reads (s body digits rest : list ascii) (base : Z) :
  c_base s = (base, body) -> span (in_base base) body = (digits, rest) -> digits <> [] ->
  0 < base <= 16 /\
  strtoull0 s = (if digits_value base digits <? 2 ^ 64 then (digits_value base digits, rest, false) else (2 ^ 64 - 1, rest, true)) /\
  existsb is_unsigned_suffix s = existsb is_unsigned_suffix rest.
Proof.
  intros Hb Hs Hd.
  assert (Hfirst : exists c l, s = c :: l /\ is_space c = false /\ (chr c =? 45) = false /\ (chr c =? 43) = false /\
    strtoull_prefix s = (base, body) /\ 0 < base <= 16 /\ existsb is_unsigned_suffix s = existsb is_unsigned_suffix body).
  { assert (Hten : forall c l, s = c :: l -> (base, body) = (10, s) -> is_zero_char c = false ->
      is_space c = false /\ (chr c =? 45) = false /\ (chr c =? 43) = false /\ strtoull_prefix s = (base, body)).
    { intros c l -> [= -> ->] Hz. cbn [span] in Hs. destruct (in_base 10 c) eqn:Ec; [|by injection Hs as <- _].
      unfold in_base, digit_value in Ec. split_and!; try (ctype; repeat case_match; lia).
      unfold strtoull_prefix. rewrite Hz. by destruct l as [|? [|? ?]]. }
    destruct s as [|c l]; [injection Hb as <- <-; by injection Hs as <- _|]. exists c, l. split; [done|].
    destruct (decide (c = "0"%char)) as [->|Hc].
    - destruct l as [|x l]; [by injection Hb as <- <-|].
      destruct (decide (x = "x"%char \/ x = "X"%char)) as [Hx|Hx].
      + assert (base = 16 /\ body = l) as [-> ->] by (by destruct Hx as [-> | ->]; injection Hb).
        destruct l as [|d l]; [by injection Hs as <- _|]. cbn [span] in Hs. destruct (in_base 16 d) eqn:Ed; [|by injection Hs as <- _].
        assert (is_x x = true) as Hx' by (by destruct Hx as [-> | ->]). unfold strtoull_prefix. rewrite Hx', Ed.
        split_and!; try done. cbn [existsb]. by destruct Hx as [-> | ->].
      + assert (is_x x = false) as Hx'.
        { apply not_true_iff_false. intros H. apply Hx. unfold is_x in H. apply orb_prop in H as [H%Z.eqb_eq|H%Z.eqb_eq];
            [left|right]; by apply chr_inj. }
        assert (base = 8 /\ body = "0"%char :: x :: l) as [-> ->].
        { assert (c_base ("0"%char :: x :: l) = (8, "0"%char :: x :: l)) as E; [|rewrite E in Hb; by injection Hb].
          clear -Hx. unfold c_base. destruct x as [[] [] [] [] [] [] [] []]; try done; exfalso; apply Hx; auto. }
        unfold strtoull_prefix. rewrite Hx', andb_false_r. by destruct l.
    - assert ((base, body) = (10, c :: l)) as E10.
      { rewrite <- Hb. clear -Hc. unfold c_base. destruct c as [[] [] [] [] [] [] [] []]; try done. }
      destruct (Hten c l eq_refl E10) as (H1 & H2 & H3 & H4).
      { apply not_true_iff_false. intros H%Z.eqb_eq. by apply Hc, chr_inj. }
      injection E10 as -> ->. by split_and!. }
  destruct Hfirst as (c & l & -> & Hsp & H45 & H43 & Hp & Hbase & Hu). split; [done|]. split.
  - unfold strtoull0. cbn [span]. rewrite Hsp. cbn [snd]. rewrite H45, H43, Hp, Hs. destruct digits; [done|].
    by destruct (_ <? _).
  - rewrite Hu. rewrite <- (span_app (in_base base) body), Hs. apply (digits_no_unsigned_suffix base); [lia|].
    pose proof (span_all (in_base base) body) as H. by rewrite Hs in H.
Qed.

Lemma digits_value_nonneg (base : Z) (ds : list ascii) : 0 < base -> 0 <= digits_value base ds.
Proof.
  intros Hb. unfold digits_value. assert (H : forall acc, 0 <= acc -> 0 <= foldl (fun acc c => acc * base + digit_value c) acc ds); [|by apply H].
  induction ds as [|c ds IH]; intros acc Ha; [done|]. apply IH. unfold digit_value. ctype. repeat case_match; nia.
Qed.

Lemma literal_read (tok : Token) (v : CInt) : c_literal tok = Some v -> parse_integer_token tok = (to_pp v, true).
Proof.
  unfold c_literal, parse_integer_token. destruct (tok_value tok) as [text|]; [|done]. cbn [mbind option_bind].
  destruct (c_base _) as [base body] eqn:Eb. destruct (span (in_base base) body) as [digits rest] eqn:Es.
  destruct (decide (digits = [])) as [->|Hd]; [done|]. destruct (strtoull0_reads _ _ _ _ _ Eb Es Hd) as (Hbase & -> & ->).
  destruct (List.find _ _) as [[name uns]|] eqn:Ef; [|by destruct digits].
  destruct (suffix_cases _ _ _ Ef) as (Ha & -> & _). intros H.
  assert (Hc : c_constant base (digits_value base digits) uns = Some v) by (by destruct digits). clear H.
  assert ((span is_alpha rest).2 = []) as Hrest.
  { pose proof (span_stop is_alpha rest [] Ha ltac:(done)) as H. rewrite app_nil_r in H. by rewrite H. }
  pose proof (digits_value_nonneg base digits ltac:(lia)) as Hpos. set (x := digits_value base digits) in *.
  unfold c_constant in Hc. unfold to_pp, pp_value_unsigned, pp_value_signed.
  destruct (x <? 2 ^ 64) eqn:E64; rewrite Hrest; cbn [orb negb].
  - destruct uns; cbn [orb]; [by injection Hc as <-|].
    destruct (x <? 2 ^ 63) eqn:E63; [injection Hc as <-; by rewrite (proj2 (Z.ltb_ge _ _)) by lia|].
    destruct (_ || _); [done|]. injection Hc as <-. by rewrite (proj2 (Z.ltb_lt _ _)) by lia.
  - destruct uns; [done|]. destruct (x <? 2 ^ 63) eqn:E63; [lia|]. by rewrite orb_true_r in Hc.
Qed.

Lemma literal_ok (tok : Token) (v : CInt) : c_literal tok = Some v -> ci_ok v = true.
Proof.
  unfold c_literal. destruct (tok_value tok) as [text|]; [|done]. cbn [mbind option_bind].
  destruct (c_base _) as [base body] eqn:Eb. destruct (span (in_base base) body) as [digits rest] eqn:Es.
  destruct (decide (digits = [])) as [->|Hd]; [done|]. destruct (strtoull0_reads _ _ _ _ _ Eb Es Hd) as (Hbase & _ & _).
  pose proof (digits_value_nonneg base digits ltac:(lia)) as Hpos. destruct digits as [|c digits]; [done|].
  destruct (List.find _ _) as [[name uns]|]; [|done]. cbn [mbind option_bind]. unfold c_constant. intros H.
  apply ci_ok_range. repeat case_match; simplify_eq/=; lia.
Qed.

Lemma literal_value (macros : option MacroTable) (tok : Token) (v : CInt) :
  c_literal tok = Some v -> pden macros (PNum tok) = Some v.
Proof.
  intros H. cbn [pden]. rewrite (literal_read tok v H). pose proof (literal_ok tok v H) as Hok. apply ci_ok_range in Hok.
  unfold to_pp. cbn [isUnsigned bits]. destruct v as [x u]. cbn [ci_val ci_unsigned] in *. do 2 f_equal.
  destruct u; [by apply Z.mod_small|]. rewrite wrapS_wrapU by lia. apply wrapS_small; cbn; lia.
Qed.

Lemma arith_unsigned (f : Z -> Z -> Z) (a b v : CInt) : ci_arith f a b = Some v -> ci_unsigned v = ci_unsigned a || ci_unsigned b.
Proof.
  unfold ci_arith, ci_both. destruct (_ || _) eqn:E; [by intros [= <-]|]. by intros (-> & _)%ci_ok_signed.
Qed.

Lemma cunary_unsigned (op : TokenType) (a v : CInt) :
  cunary op a = Some v -> ci_unsigned v = match op with TOKEN_LOGICAL_NOT => false | _ => ci_unsigned a end.
Proof.
  destruct op; try discriminate; cbn [cunary]; intros H; try (by injection H as <-);
    (destruct (ci_unsigned a); [by injection H as <-|]; by apply ci_ok_signed in H as (-> & _)).
Qed.

Lemma cbinary_unsigned (op : TokenType) (a b v : CInt) : cbinary op a b = Some v ->
  ci_unsigned v = match op with
                  | TOKEN_LEFT_SHIFT | TOKEN_RIGHT_SHIFT => ci_unsigned a
                  | TOKEN_ASTERISK | TOKEN_DIVIDE | TOKEN_MODULO | TOKEN_PLUS | TOKEN_MINUS | TOKEN_BITWISE_AND
                  | TOKEN_BITWISE_XOR | TOKEN_BITWISE_OR => ci_unsigned a || ci_unsigned b
                  | _ => false
                  end.
Proof.
  destruct op; try discriminate; cbn [cbinary]; intros H; try (by injection H as <-); try (by apply arith_unsigned in H).
  - destruct (ci_val b =? 0); [done|]. by apply arith_unsigned in H.
  - destruct (_ || _); [done|]. by apply arith_unsigned in H.
  - destruct (_ && _); [|done]. destruct (ci_unsigned a) eqn:E; [by injection H as <-|].
    destruct (_ <? 0); [done|]. by apply ci_ok_signed in H as (-> & _).
  - destruct (_ && _); [|done]. by injection H as <-.
Qed.

Lemma cden_unsigned (macros : option MacroTable) (e : ppexpr) (v : CInt) : cden macros e = Some v -> ci_unsigned v = c_unsigned e.
Proof.
  revert v. induction e as [tok| |name|e IH|op e IH|op a IHa b IHb|c IHc a IHa b IHb]; intros v; cbn [cden c_unsigned].
  - by intros ->.
  - by intros [= <-].
  - by intros [= <-].
  - apply IH.
  - destruct (cden macros e) as [w|]; [|done]. cbn [mbind option_bind]. intros H%cunary_unsigned. by rewrite H, (IH w eq_refl).
  - destruct (cden macros a) as [va|]; [|done]. cbn [mbind option_bind]. specialize (IHa va eq_refl).
    destruct (cden macros b) as [vb|]; cbn [mbind option_bind].
    + specialize (IHb vb eq_refl). rewrite <- IHa, <- IHb. intros H.
      destruct op; try (by apply cbinary_unsigned in H); by destruct (ci_true va); injection H as <-.
    + intros H. destruct op; try done; by destruct (ci_true va); try done; injection H as <-.
  - destruct (cden macros c) as [vc|]; [|done]. cbn [mbind option_bind]. destruct (if ci_true vc then _ else _); [|done].
    by intros [= <-].
Qed.

Lemma cden_pden (macros : option MacroTable) (e : ppexpr) (v : CInt) :
  same_signedness e = true -> cden macros e = Some v -> pden macros e = Some v.
Proof.
  revert v. induction e as [tok| |name|e IH|op e IH|op a IHa b IHb|c IHc a IHa b IHb]; intros v; cbn [same_signedness]; intros Hs.
  - apply literal_value.
  - done.
  - done.
  - by apply IH.
  - cbn [cden pden]. destruct (cden macros e) as [w|]; [|done]. by rewrite (IH w Hs eq_refl).
  - apply andb_prop in Hs as [Hsa Hsb]. cbn [cden pden]. destruct (cden macros a) as [va|]; [|done].
    rewrite (IHa va Hsa eq_refl). cbn [mbind option_bind]. destruct (cden macros b) as [vb|].
    + by rewrite (IHb vb Hsb eq_refl).
    + intros H. destruct op; try done; by destruct (ci_true va).
  - apply andb_prop in Hs as [Hs Hsb]. apply andb_prop in Hs as [Hs Hsa]. apply andb_prop in Hs as [Hu Hsc].
    apply Bool.eqb_prop in Hu. cbn [cden pden]. destruct (cden macros c) as [vc|]; [|done].
    rewrite (IHc vc Hsc eq_refl). cbn [mbind option_bind]. rewrite <- Hu, orb_diag.
    assert (Hend : forall e' w, c_unsigned e' = c_unsigned a -> cden macros e' = Some w -> pden macros e' = Some w ->
      Some (mkCInt (ci_conv (c_unsigned a) w) (c_unsigned a)) = Some v -> pden macros e' = Some v).
    { intros e' w <- Hc Hp [= <-]. rewrite Hp. pose proof (pden_ok _ _ _ Hp) as Hok. rewrite <- (cden_unsigned _ _ _ Hc).
      destruct w as [x []]; [|done]. cbn [ci_unsigned]. by rewrite (conv_unsigned (mkCInt x true) Hok). }
    destruct (ci_true vc).
    + destruct (cden macros a) as [w|] eqn:E; [|done]. by apply (Hend a w eq_refl E), IHa.
    + destruct (cden macros b) as [w|] eqn:E; [|done]. by apply (Hend b w (eq_sym Hu) E), IHb.
Qed.

(** ** The parser follows the grammar. *)

Section Grammar.
Context (macros : option MacroTable) (tokens : list Token).

Definition at_ (c : nat) (u : bool) : PPExprParser := mkParser c false u.

Lemma or_flags_none (c : nat) (u : bool) : or_flags (at_ c u) false false = at_ c u.
Proof. unfold or_flags, at_. simpl. by rewrite orb_false_r. Qed.

(** What parsing [e] returns: its value, or zero in a skipped position. *)
Definition res (eval : bool) (e : ppexpr) : option PPValue :=
  if eval then to_pp <$> pden macros e else Some (pp_value_signed 0).

Definition parses (f : ParseFn) (ts : list Token) (e : ppexpr) (stop : list Token -> Prop) : Prop :=
  forall c pre post eval u w,
    tokens = pre ++ ts ++ post -> length pre = c -> stop post -> res eval e = Some w ->
    f eval (at_ c u) = Some (w, at_ (c + length ts) u).

(** The token after a phrase of category [c] does not continue it. *)
Definition stops (c : nat) (post : list Token) : Prop :=
  match post with
  | [] => True
  | t :: _ => (forall k, op_level (tok_type t) = Some k -> (S k < c)%nat) /\
              (c = 0%nat -> tok_type t <> TOKEN_QUESTION)
  end.

Lemma stops_mono (c c' : nat) (post : list Token) : (c <= c')%nat -> stops c post -> stops c' post.
Proof.
  intros Hc. destruct post as [|t post]; [done|]. intros [H1 H2].
  split; [intros k Hk; specialize (H1 k Hk); lia | intros ->; apply H2; lia].
Qed.

Lemma peek_at (pre post : list Token) (t : Token) (c : nat) (u : bool) :
  tokens = pre ++ t :: post -> length pre = c -> parser_peek tokens (at_ c u) = Some t.
Proof.
  intros -> <-. unfold parser_peek. cbn [ps_cursor at_].
  rewrite decide_False by (rewrite length_app; simpl; lia).
  by rewrite lookup_app_r, Nat.sub_diag by lia.
Qed.

Lemma peek_end (pre : list Token) (c : nat) (u : bool) :
  tokens = pre ++ [] -> length pre = c -> parser_peek tokens (at_ c u) = None.
Proof.
  intros -> <-. unfold parser_peek. cbn [ps_cursor at_]. rewrite app_nil_r. by rewrite decide_True.
Qed.

Lemma advance_at (pre post : list Token) (t : Token) (c : nat) (u : bool) :
  tokens = pre ++ t :: post -> length pre = c -> tok_type t <> TOKEN_EOF ->
  parser_advance tokens (at_ c u) = at_ (S c) u.
Proof.
  intros Ht Hc Hn. unfold parser_advance. rewrite (peek_at _ _ _ _ _ Ht Hc).
  destruct (tt_eqb _ _) eqn:E; [by apply tt_eqb_spec in E|done].
Qed.

Lemma match_at (pre post : list Token) (t : Token) (c : nat) (u : bool) (ty : TokenType) :
  tokens = pre ++ t :: post -> length pre = c -> ty <> TOKEN_EOF -> tok_type t = ty ->
  parser_match tokens (at_ c u) ty = (true, at_ (S c) u).
Proof.
  intros Ht Hc Hn Hty. unfold parser_match. rewrite (peek_at _ _ _ _ _ Ht Hc), Hty, tt_eqb_refl.
  by rewrite (advance_at _ _ _ _ _ Ht Hc) by congruence.
Qed.

Lemma match_not_at (pre post : list Token) (t : Token) (c : nat) (u : bool) (ty : TokenType) :
  tokens = pre ++ t :: post -> length pre = c -> tok_type t <> ty ->
  parser_match tokens (at_ c u) ty = (false, at_ c u).
Proof.
  intros Ht Hc Hty. unfold parser_match. rewrite (peek_at _ _ _ _ _ Ht Hc).
  destruct (tt_eqb _ _) eqn:E; [by apply tt_eqb_spec in E|done].
Qed.

(** The parsing function of binary level [k], and of unary expressions at [k = 10]. *)
Definition next_from (k m : nat) (prim : ParseFn) : ParseFn :=
  foldr (fun lv next => binary_level tokens lv m next) (parse_unary tokens m prim)
    (drop k pp_levels).

Lemma next_from_S (k m : nat) (prim : ParseFn) (lv : Level) :
  pp_levels !! k = Some lv ->
  next_from k m prim = binary_level tokens lv m (next_from (S k) m prim).
Proof. intros H. unfold next_from. by rewrite (drop_S _ _ _ H). Qed.

Lemma next_from_logical_or (m : nat) (prim : ParseFn) :
  parse_logical_or tokens m prim = next_from 0 m prim.
Proof. done. Qed.

Definition prim (f : nat) : ParseFn :=
  parse_primary macros tokens (parse_conditional macros tokens f).

(** Level [k]'s loop, entered in front of [ts], comes out behind it. *)
Definition loops (k m f : nat) (ts : list Token) (e : ppexpr) : Prop :=
  forall lv, pp_levels !! k = Some lv -> exists n, (n <= length ts)%nat /\
    forall i c pre post eval u w,
      tokens = pre ++ ts ++ post -> length pre = c -> stops (S (S k)) post ->
      res eval e = Some w ->
      ('(v, p) ← next_from (S k) m (prim f) eval (at_ c u);
       binary_loop tokens lv (next_from (S k) m (prim f)) (n + i) eval v p)
      = binary_loop tokens lv (next_from (S k) m (prim f)) i eval w (at_ (c + length ts) u).

Definition meets (c m f : nat) (ts : list Token) (e : ppexpr) : Prop :=
  match c with
  | O => parses (parse_conditional macros tokens (S f)) ts e (stops 0)
  | S k => if decide (k < 10)%nat then loops k m f ts e
           else if decide (k = 10)%nat then parses (parse_unary tokens m (prim f)) ts e (stops 11)
           else parses (prim f) ts e (fun _ => True)
  end.

Lemma pp_levels_lookup (k : nat) : (k < 10)%nat -> is_Some (pp_levels !! k).
Proof. intros H. by apply lookup_lt_is_Some_2. Qed.

(** A loop that meets no operator of its level returns. *)
Lemma binary_loop_stop (k i c : nat) (lv : Level) (next : ParseFn) (pre post : list Token)
    (eval u : bool) (v : PPValue) :
  pp_levels !! k = Some lv -> tokens = pre ++ post -> length pre = c -> stops (S k) post ->
  (0 < i)%nat -> binary_loop tokens lv next i eval v (at_ c u) = Some (v, at_ c u).
Proof.
  intros Hlv Ht Hc Hstop Hi. destruct i as [|i]; [lia|]. cbn [binary_loop at_ ps_error].
  destruct post as [|t post].
  - by rewrite (peek_end _ _ _ Ht Hc).
  - rewrite (peek_at _ _ _ _ _ Ht Hc). destruct (lv_is_op lv (tok_type t)) eqn:E; [|done].
    apply (pp_levels_is_op _ _ _ Hlv) in E. destruct Hstop as [Hstop _].
    specialize (Hstop _ E). lia.
Qed.

Lemma res_skipped (eval : bool) (e : ppexpr) (w : PPValue) :
  res eval e = Some w -> (if eval then w else pp_value_signed 0) = w.
Proof. destruct eval; [done|]. by intros [= <-]. Qed.

Lemma meets_next (k m f : nat) (ts : list Token) (e : ppexpr) :
  (k <= 10)%nat -> (length ts < m)%nat -> meets (S k) m f ts e ->
  parses (next_from k m (prim f)) ts e (stops (S k)).
Proof.
  intros Hk Hm. cbn [meets]. destruct (decide (k < 10)%nat) as [Hlt|Hge].
  2:{ assert (k = 10%nat) as -> by lia. done. }
  destruct (pp_levels_lookup k Hlt) as [lv Hlv]. intros H. destruct (H lv Hlv) as (n & Hn & Hloop).
  intros c pre post eval u w Ht Hc Hstop Hres. rewrite (next_from_S _ _ _ _ Hlv).
  unfold binary_level.
  assert (stops (S (S k)) post) as Hstop' by (eapply stops_mono; [|done]; lia).
  specialize (Hloop (m - n)%nat c pre post eval u w Ht Hc Hstop' Hres).
  replace (n + (m - n))%nat with m in Hloop by lia.
  destruct (next_from (S k) m (prim f) eval (at_ c u)) as [[v p]|]; cbn [mbind option_bind] in *.
  - rewrite Hloop. rewrite (binary_loop_stop k _ _ lv _ (pre ++ ts) post);
      [|done|by rewrite <- app_assoc|rewrite length_app; lia|done|lia].
    cbn [mbind option_bind]. by rewrite (res_skipped _ _ _ Hres).
  - rewrite (binary_loop_stop k _ _ lv _ (pre ++ ts) post) in Hloop;
      [done|done|by rewrite <- app_assoc|rewrite length_app; lia|done|lia].
Qed.

Lemma derives_head (c : nat) (ts : list Token) (e : ppexpr) :
  derives c ts e -> exists t ts', ts = t :: ts' /\ (c = 12%nat -> is_unary_op (tok_type t) = false).
Proof.
  assert (forall t, is_type TOKEN_IDENTIFIER t -> is_unary_op (tok_type t) = false) as Hid
    by (by intros t ->).
  induction 1 as [c ts e Hc _ IH|ts1 q ts2 col ts3 ce a b _ IH _ _ _ _ _ _|k ts1 t ts2 a b Hop _ IH _ _
    |t ts e _ _ _|t H|t H|d t name H|d l t r name H|l ts r e H].
  - destruct IH as (t & ts' & -> & _). do 2 eexists. split; [done|lia].
  - destruct IH as (t & ts' & -> & _). do 2 eexists. by split.
  - destruct IH as (t' & ts' & -> & _). do 2 eexists. split; [done|].
    intros Hk. exfalso. destruct (tok_type t); simplify_eq/=.
  - do 2 eexists. by split.
  - do 2 eexists. split; [done|]. by destruct H as [-> | ->].
  - do 2 eexists. split; [done|auto].
  - do 2 eexists. split; [done|auto].
  - do 2 eexists. split; [done|auto].
  - do 2 eexists. split; [done|]. by rewrite H.
Qed.

(** One lemma per production: the phrase is recognised when its parts are. *)

Lemma meets_unary_down (m f : nat) (ts : list Token) (e : ppexpr) :
  (length ts < m)%nat -> derives 12 ts e -> meets 12 m f ts e -> meets 11 m f ts e.
Proof.
  intros Hm Hd H. destruct (derives_head _ _ _ Hd) as (t & ts' & -> & Hnu).
  intros c pre post eval u w Ht Hc Hstop Hres. destruct m as [|m]; [lia|]. cbn [parse_unary].
  rewrite (peek_at pre (ts' ++ post) t) by done. rewrite Hnu by done.
  by apply (H c pre post).
Qed.

Lemma meets_cond_down (f m : nat) (ts : list Token) (e : ppexpr) :
  (length ts <= f)%nat -> meets 1 (S f) f ts e -> meets 0 m f ts e.
Proof.
  intros Hf H c pre post eval u w Ht Hc Hstop Hres. cbn [parse_conditional].
  rewrite next_from_logical_or. fold (prim f).
  rewrite (meets_next 0 (S f) f ts e ltac:(lia) ltac:(lia) H c pre post eval u w Ht Hc
             ltac:(eapply stops_mono; [|done]; lia) Hres).
  cbn [mbind option_bind].
  assert (tokens = (pre ++ ts) ++ post) as Ht' by (by rewrite <- app_assoc).
  assert (length (pre ++ ts) = (c + length ts)%nat) as Hc' by (rewrite length_app; lia).
  destruct post as [|t post].
  - rewrite (peek_end _ _ _ Ht' Hc'). by rewrite (res_skipped _ _ _ Hres).
  - rewrite (peek_at _ _ _ _ _ Ht' Hc'). destruct (tt_eqb _ _) eqn:E.
    + apply tt_eqb_spec in E. destruct Hstop as [_ Hq]. by specialize (Hq eq_refl).
    + by rewrite (res_skipped _ _ _ Hres).
Qed.

Lemma meets_bin_down (k m f : nat) (ts : list Token) (e : ppexpr) :
  (k < 10)%nat -> (length ts < m)%nat -> meets (S (S k)) m f ts e -> meets (S k) m f ts e.
Proof.
  intros Hk Hm H. cbn [meets]. rewrite decide_True by done. intros lv Hlv. exists 0%nat.
  split; [lia|]. intros i c pre post eval u w Ht Hc Hstop Hres.
  by rewrite (meets_next (S k) m f ts e ltac:(lia) ltac:(lia) H c pre post eval u w Ht Hc Hstop Hres).
Qed.

(** The value of a binary node from its operands', at the parser's level. *)
Lemma res_binary (k : nat) (lv : Level) (op : TokenType) (eval : bool) (a b : ppexpr) (w : PPValue) :
  op_level op = Some k -> pp_levels !! k = Some lv -> res eval (PBin op a b) = Some w ->
  exists wa wb, res eval a = Some wa /\ res (eval && lv_eval_right lv wa) b = Some wb /\
    (if eval then lv_apply lv op wa wb = ok_result w else wa = w).
Proof.
  intros Hop Hlv. destruct eval; [|intros [= <-]; by do 2 eexists].
  cbn [res pden andb].
  destruct (pden macros a) as [va|] eqn:Ea; [|done]. cbn [mbind option_bind fmap option_fmap option_map].
  pose proof (pden_ok _ _ _ Ea) as Hva. intros H. exists (to_pp va).
  destruct (decide (k < 2)%nat) as [Hk|Hk].
  - assert (op = TOKEN_LOGICAL_OR /\ lv = logical_or_level \/
            op = TOKEN_LOGICAL_AND /\ lv = logical_and_level) as [[-> ->]|[-> ->]].
    { destruct op; simplify_eq/=; try lia; by auto. }
    all: cbn [lv_eval_right lv_apply logical_or_level logical_and_level].
    all: unfold apply_logical_and, apply_logical_or; rewrite truthy_to_pp by done.
    all: destruct (ci_true va); simplify_eq/=.
    all: try (eexists; split_and!; [done|done|]; simplify_eq/=; done).
    all: destruct (pden macros b) as [vb|] eqn:Eb; simplify_eq/=.
    all: eexists; split_and!; [done..|]; by rewrite truthy_to_pp by (by eapply pden_ok).
  - assert (exists vb v, pden macros b = Some vb /\ cbinary op va vb = Some v /\ to_pp v = w)
      as (vb & v & Eb & Ev & <-).
    { destruct (pden macros b) as [vb|]; [|destruct op; simplify_eq/=; lia].
      destruct (cbinary op va vb) as [v|] eqn:Ev;
        destruct op; simplify_eq/=; try lia; rewrite ?Ev in *; simplify_eq/=; eauto. }
    pose proof (pden_ok _ _ _ Eb) as Hvb. exists (to_pp vb).
    assert (lv_eval_right lv (to_pp va) = true) as ->.
    { destruct k as [|[|[|[|[|[|[|[|[|[|k]]]]]]]]]]; simplify_eq/=; done || lia. }
    cbn [res]. rewrite Eb. split_and!; [done..|].
    by apply (cbinary_agrees op k lv va vb v Hop ltac:(lia) Hlv Hva Hvb Ev).
Qed.

Lemma op_level_not_eof (t : Token) (k : nat) : op_level (tok_type t) = Some k -> tok_type t <> TOKEN_EOF.
Proof. by intros H E; rewrite E in H. Qed.

Lemma meets_bin (k m f : nat) (ts1 ts2 : list Token) (t : Token) (a b : ppexpr) :
  op_level (tok_type t) = Some k -> (k < 10)%nat -> (length (ts1 ++ t :: ts2) < m)%nat ->
  meets (S k) m f ts1 a -> meets (S (S k)) m f ts2 b ->
  meets (S k) m f (ts1 ++ t :: ts2) (PBin (tok_type t) a b).
Proof.
  intros Hop Hk Hm Ha Hb. cbn [meets] in *. rewrite decide_True in * by done.
  rewrite length_app in Hm. simpl in Hm.
  intros lv Hlv. destruct (Ha lv Hlv) as (n & Hn & Hloop). exists (S n).
  split; [rewrite length_app; simpl; lia|]. intros i c pre post eval u w Ht Hc Hstop Hres.
  destruct (res_binary _ _ _ _ _ _ _ Hop Hlv Hres) as (wa & wb & Hra & Hrb & Hw).
  rewrite <- app_assoc in Ht. simpl in Ht.
  assert (stops (S (S k)) (t :: ts2 ++ post)) as Hstop1.
  { split; [|lia]. intros k' Hk'. rewrite Hop in Hk'. simplify_eq. lia. }
  replace (S n + i)%nat with (n + S i)%nat by lia.
  rewrite (Hloop (S i) c pre (t :: ts2 ++ post) eval u wa Ht Hc Hstop1 Hra).
  cbn [binary_loop at_ ps_error].
  assert (tokens = (pre ++ ts1) ++ t :: ts2 ++ post) as Ht1 by (by rewrite <- app_assoc).
  assert (length (pre ++ ts1) = (c + length ts1)%nat) as Hc1 by (rewrite length_app; lia).
  rewrite (peek_at _ _ _ _ _ Ht1 Hc1).
  rewrite (proj2 (pp_levels_is_op _ _ (tok_type t) Hlv) Hop).
  rewrite (advance_at _ _ _ _ _ Ht1 Hc1) by (by eapply op_level_not_eof).
  assert (tokens = (pre ++ ts1 ++ [t]) ++ ts2 ++ post) as Ht2
    by (by rewrite <- !app_assoc).
  assert (length (pre ++ ts1 ++ [t]) = S (c + length ts1)) as Hc2
    by (rewrite !length_app; simpl; lia).
  rewrite (meets_next (S k) m f ts2 b ltac:(lia) ltac:(lia) Hb _ _ _ _ u wb Ht2 Hc2 Hstop Hrb).
  cbn [mbind option_bind].
  replace (c + length (ts1 ++ t :: ts2))%nat with (S (c + length ts1) + length ts2)%nat
    by (rewrite length_app; simpl; lia).
  destruct eval; [|by rewrite Hw].
  rewrite Hw. cbn [ok_result op_value op_error op_ub]. by rewrite or_flags_none.
Qed.

Lemma meets_cond (m f : nat) (ts1 ts2 ts3 : list Token) (q col : Token) (ce a b : ppexpr) :
  is_type TOKEN_QUESTION q -> is_type TOKEN_COLON col ->
  (length (ts1 ++ q :: ts2 ++ col :: ts3) <= S f)%nat ->
  meets 1 (S (S f)) (S f) ts1 ce -> meets 0 m f ts2 a -> meets 0 m f ts3 b ->
  meets 0 m (S f) (ts1 ++ q :: ts2 ++ col :: ts3) (PCond ce a b).
Proof.
  intros Hq Hcol Hf H1 H2 H3 c pre post eval u w Ht Hc Hstop Hres.
  rewrite !length_app in Hf. simpl in Hf. rewrite length_app in Hf. simpl in Hf.
  rewrite <- app_assoc in Ht. simpl in Ht. rewrite <- app_assoc in Ht. simpl in Ht.
  assert (exists wc wa wb, res eval ce = Some wc /\
    res (eval && pp_value_truthy wc) a = Some wa /\
    res (eval && negb (pp_value_truthy wc)) b = Some wb /\
    (if negb eval then pp_value_signed 0 else if pp_value_truthy wc then wa else wb) = w)
    as (wc & wa & wb & Hrc & Hra & Hrb & <-).
  { destruct eval; [|injection Hres as <-; by do 3 eexists].
    cbn [res pden andb negb] in *. destruct (pden macros ce) as [vc|] eqn:Ec; [|done].
    cbn [mbind option_bind] in Hres. exists (to_pp vc).
    rewrite (truthy_to_pp vc) by (by eapply pden_ok).
    destruct (ci_true vc).
    - exists w, (pp_value_signed 0). by split_and!.
    - exists (pp_value_signed 0), w. by split_and!. }
  remember (S f) as f'. cbn [parse_conditional]. rewrite next_from_logical_or. fold (prim f').
  assert (tokens = (pre ++ ts1) ++ q :: ts2 ++ col :: ts3 ++ post) as Ht1
    by (rewrite Ht; app_eq).
  assert (length (pre ++ ts1) = (c + length ts1)%nat) as Hc1 by (rewrite length_app; lia).
  assert (tokens = (pre ++ ts1 ++ [q]) ++ ts2 ++ col :: ts3 ++ post) as Ht2
    by (rewrite Ht; app_eq).
  assert (length (pre ++ ts1 ++ [q]) = S (c + length ts1)) as Hc2
    by (rewrite !length_app; simpl; lia).
  assert (tokens = (pre ++ ts1 ++ q :: ts2) ++ col :: ts3 ++ post) as Ht3
    by (rewrite Ht; app_eq).
  assert (length (pre ++ ts1 ++ q :: ts2) = (S (c + length ts1) + length ts2)%nat) as Hc3
    by (rewrite !length_app; simpl; lia).
  assert (tokens = (pre ++ ts1 ++ q :: ts2 ++ [col]) ++ ts3 ++ post) as Ht4
    by (rewrite Ht; app_eq).
  assert (length (pre ++ ts1 ++ q :: ts2 ++ [col]) = S (S (c + length ts1) + length ts2)) as Hc4
    by len_eq.
  rewrite (meets_next 0 (S f') f' ts1 ce ltac:(lia) ltac:(lia) H1 c pre _ eval u wc Ht Hc
             ltac:(split; [intros k; by rewrite Hq|lia]) Hrc).
  cbn [mbind option_bind]. rewrite (peek_at _ _ _ _ _ Ht1 Hc1), Hq, tt_eqb_refl.
  rewrite (advance_at _ _ _ _ _ Ht1 Hc1) by congruence.
  subst f'. rewrite (H2 _ _ _ _ u wa Ht2 Hc2 ltac:(split; [intros k; by rewrite Hcol|by rewrite Hcol]) Hra).
  cbn [mbind option_bind]. rewrite (match_at _ _ _ _ _ _ Ht3 Hc3) by done. cbn [negb].
  rewrite (H3 _ _ _ _ u wb Ht4 Hc4 Hstop Hrb). cbn [mbind option_bind].
  do 3 f_equal. rewrite !length_app. simpl. rewrite length_app. simpl. lia.
Qed.

Lemma meets_unary (m f : nat) (ts : list Token) (t : Token) (e : ppexpr) :
  is_unary_op (tok_type t) = true -> meets 11 m f ts e ->
  meets 11 (S m) f (t :: ts) (PUn (tok_type t) e).
Proof.
  intros Hop H c pre post eval u w Ht Hc Hstop Hres. cbn [parse_unary].
  rewrite (peek_at _ _ _ _ _ Ht Hc), Hop.
  rewrite (advance_at _ _ _ _ _ Ht Hc) by (by intros E; rewrite E in Hop).
  assert (tokens = (pre ++ [t]) ++ ts ++ post) as Ht1 by (by rewrite <- app_assoc).
  assert (length (pre ++ [t]) = S c) as Hc1 by (rewrite length_app; simpl; lia).
  assert (exists we, res eval e = Some we /\
    (if tt_eqb (tok_type t) TOKEN_PLUS then we = w
     else if eval then apply_unary (tok_type t) we = ok_result w else w = pp_value_signed 0))
    as (we & Hre & Hw).
  { destruct eval; [|injection Hres as <-; eexists; split; [done|]; by case_match].
    cbn [res pden] in *. destruct (pden macros e) as [v|] eqn:E; [|done].
    cbn [mbind option_bind] in Hres. eexists. split; [done|].
    destruct (cunary (tok_type t) v) as [v'|] eqn:Ev; [|done]. injection Hres as <-.
    destruct (tt_eqb _ _) eqn:Et.
    - apply tt_eqb_spec in Et. rewrite Et in Ev. by simplify_eq/=.
    - by apply (cunary_agrees _ _ _ Hop (pden_ok _ _ _ E) Ev). }
  rewrite (H _ _ _ _ u we Ht1 Hc1 Hstop Hre). cbn [mbind option_bind].
  replace (c + length (t :: ts))%nat with (S c + length ts)%nat by (simpl; lia).
  destruct (tt_eqb _ _); [by subst|]. destruct eval; cbn [negb]; [|by subst].
  rewrite Hw. cbn [ok_result op_value op_error op_ub]. by rewrite or_flags_none.
Qed.

Lemma meets_paren (m f : nat) (ts : list Token) (l r : Token) (e : ppexpr) :
  is_type TOKEN_LPAREN l -> is_type TOKEN_RPAREN r -> meets 0 m f ts e ->
  meets 12 m (S f) (l :: ts ++ [r]) (PParen e).
Proof.
  intros Hl Hr H c pre post eval u w Ht Hc _ Hres.
  rewrite <- app_comm_cons, <- app_assoc in Ht. simpl in Ht.
  unfold prim, parse_primary. rewrite (peek_at _ _ _ _ _ Ht Hc), Hl. cbn [andb tt_eqb TokenType_code Z.eqb Pos.eqb].
  rewrite (advance_at _ _ _ _ _ Ht Hc) by congruence.
  assert (tokens = (pre ++ [l]) ++ ts ++ r :: post) as Ht1 by (by rewrite <- app_assoc).
  assert (length (pre ++ [l]) = S c) as Hc1 by (rewrite length_app; simpl; lia).
  assert (tokens = (pre ++ l :: ts) ++ r :: post) as Ht2
    by (by rewrite <- app_assoc).
  assert (length (pre ++ l :: ts) = (S c + length ts)%nat) as Hc2 by (rewrite length_app; simpl; lia).
  assert (res eval e = Some w) as Hre by (revert Hres; by destruct eval).
  rewrite (H _ _ _ _ u w Ht1 Hc1 ltac:(split; [intros k; by rewrite Hr|by rewrite Hr]) Hre).
  cbn [mbind option_bind]. rewrite (match_at _ _ _ _ _ _ Ht2 Hc2) by done.
  rewrite (res_skipped _ _ _ Hres). simpl length. rewrite length_app. simpl.
  do 3 f_equal. lia.
Qed.

Lemma meets_number (m f : nat) (t : Token) :
  tok_type t = TOKEN_NUMBER \/ tok_type t = TOKEN_CHAR_LITERAL -> meets 12 m f [t] (PNum t).
Proof.
  intros Hty c pre post eval u w Ht Hc _ Hres. simpl in Ht.
  assert (parser_advance tokens (at_ c u) = at_ (S c) u) as Hadv
    by (apply (advance_at _ _ _ _ _ Ht Hc); by destruct Hty as [-> | ->]).
  assert (prim f eval (at_ c u) =
    if negb eval then Some (pp_value_signed 0, at_ (S c) u)
    else let '(value, ok) := parse_integer_token t in
         Some (value, if ok : bool then at_ (S c) u else set_error (at_ (S c) u))) as ->.
  { unfold prim, parse_primary. rewrite (peek_at _ _ _ _ _ Ht Hc), Hadv.
    by destruct Hty as [-> | ->]. }
  rewrite Nat.add_1_r. destruct eval; [|by injection Hres as <-].
  cbn [res pden negb] in *. destruct (parse_integer_token t) as [v []] eqn:E; [|done].
  injection Hres as <-. by apply parse_integer_token_bits in E as [<- _].
Qed.

Lemma meets_ident (m f : nat) (t : Token) :
  is_type TOKEN_IDENTIFIER t -> tok_value t <> Some "defined"%string -> meets 12 m f [t] PIdent.
Proof.
  intros Hty Hv c pre post eval u w Ht Hc _ Hres. simpl in Ht.
  unfold prim, parse_primary. rewrite (peek_at _ _ _ _ _ Ht Hc), Hty.
  rewrite bool_decide_eq_false_2 by done. cbn [andb tt_eqb TokenType_code Z.eqb Pos.eqb].
  rewrite (advance_at _ _ _ _ _ Ht Hc) by congruence. rewrite Nat.add_1_r.
  destruct eval; by injection Hres as <-.
Qed.

(** [defined] and its operand, with or without parentheses. *)
Lemma parse_primary_defined (f c : nat) (pre rest : list Token) (d : Token) (eval u : bool) :
  tokens = pre ++ d :: rest -> length pre = c -> is_type TOKEN_IDENTIFIER d ->
  tok_value d = Some "defined"%string ->
  prim f eval (at_ c u) = Some (parse_defined macros tokens eval (at_ c u)).
Proof.
  intros Ht Hc Hd Hv. unfold prim, parse_primary. rewrite (peek_at _ _ _ _ _ Ht Hc), Hd, Hv.
  by rewrite bool_decide_eq_true_2.
Qed.

Lemma pp_identifier_type (t : Token) (ty : TokenType) :
  token_is_pp_identifier t = true -> TokenType_code TOKEN_IDENTIFIER < TokenType_code ty ->
  tok_type t <> ty.
Proof.
  unfold token_is_pp_identifier. destruct (tok_value t); [|done].
  intros [H%tt_eqb_spec|H%Z.ltb_lt]%orb_true_iff Hlt Heq; subst ty; [rewrite H in Hlt|]; lia.
Qed.

Lemma meets_defined (m f : nat) (d t : Token) (name : string) :
  is_type TOKEN_IDENTIFIER d -> tok_value d = Some "defined"%string ->
  token_is_pp_identifier t = true -> tok_value t = Some name ->
  meets 12 m f [d; t] (PDefined name).
Proof.
  intros Hd Hdv Hid Hv c pre post eval u w Ht Hc _ Hres. simpl in Ht.
  rewrite (parse_primary_defined f c pre (t :: post) d) by done.
  unfold parse_defined. rewrite (advance_at _ _ _ _ _ Ht Hc) by congruence.
  assert (tokens = (pre ++ [d]) ++ t :: post) as Ht1 by (rewrite Ht; app_eq).
  assert (length (pre ++ [d]) = S c) as Hc1 by len_eq.
  rewrite (match_not_at _ _ _ _ _ _ Ht1 Hc1) by (by apply pp_identifier_type).
  rewrite (peek_at _ _ _ _ _ Ht1 Hc1), Hid.
  rewrite (advance_at _ _ _ _ _ Ht1 Hc1) by (by apply pp_identifier_type).
  cbn [negb length]. replace (c + 2)%nat with (S (S c)) by lia. rewrite Hv.
  destruct eval; by injection Hres as <-.
Qed.

Lemma meets_defined_paren (m f : nat) (d l t r : Token) (name : string) :
  is_type TOKEN_IDENTIFIER d -> tok_value d = Some "defined"%string ->
  is_type TOKEN_LPAREN l -> token_is_pp_identifier t = true -> tok_value t = Some name ->
  is_type TOKEN_RPAREN r -> meets 12 m f [d; l; t; r] (PDefined name).
Proof.
  intros Hd Hdv Hl Hid Hv Hr c pre post eval u w Ht Hc _ Hres. simpl in Ht.
  rewrite (parse_primary_defined f c pre (l :: t :: r :: post) d) by done.
  unfold parse_defined. rewrite (advance_at _ _ _ _ _ Ht Hc) by congruence.
  assert (tokens = (pre ++ [d]) ++ l :: t :: r :: post) as Ht1 by (rewrite Ht; app_eq).
  assert (tokens = (pre ++ [d; l]) ++ t :: r :: post) as Ht2 by (rewrite Ht; app_eq).
  assert (tokens = (pre ++ [d; l; t]) ++ r :: post) as Ht3 by (rewrite Ht; app_eq).
  assert (length (pre ++ [d]) = S c) as Hc1 by len_eq.
  assert (length (pre ++ [d; l]) = S (S c)) as Hc2 by len_eq.
  assert (length (pre ++ [d; l; t]) = S (S (S c))) as Hc3 by len_eq.
  rewrite (match_at _ _ _ _ _ _ Ht1 Hc1) by done.
  rewrite (peek_at _ _ _ _ _ Ht2 Hc2), Hid.
  rewrite (advance_at _ _ _ _ _ Ht2 Hc2) by (by apply pp_identifier_type).
  rewrite (match_at _ _ _ _ _ _ Ht3 Hc3) by done.
  cbn [negb length]. replace (c + 4)%nat with (S (S (S (S c)))) by lia. rewrite Hv.
  destruct eval; by injection Hres as <-.
Qed.

(** Fuel [f] for nested conditionals and [m] for loops suffice when they cover the
    phrase. *)
Lemma derives_meets (c : nat) (ts : list Token) (e : ppexpr) :
  derives c ts e ->
  forall m f, (length ts <= f)%nat -> (length ts < m)%nat -> meets c m f ts e.
Proof.
  induction 1 as [c ts e Hc Hd IH|ts1 q ts2 col ts3 ce a b Hd1 IH1 Hq _ IH2 Hcol _ IH3
    |k ts1 t ts2 a b Hop _ IH1 _ IH2|t ts e Hop _ IH|t H|t H Hv|d t name Hd Hdv Hid Hv
    |d l t r name Hd Hdv Hl Hid Hv Hr|l ts r e Hl Hd IH Hr]; intros m f Hf Hm.
  - destruct c as [|k]; [apply meets_cond_down; [done|]; by apply IH; lia|].
    destruct (decide (k = 10)%nat) as [->|Hk]; [by apply meets_unary_down; auto|].
    apply meets_bin_down; [lia|done|]. by apply IH.
  - destruct (derives_head _ _ _ Hd1) as (t & ts' & Hts1 & _).
    destruct f as [|f]; [exfalso; revert Hf; len_eq|].
    assert (length ts1 + S (length ts2 + S (length ts3)) <= S f)%nat as Hlen
      by (revert Hf; len_eq).
    assert (1 <= length ts1)%nat by (subst; simpl; lia).
    apply meets_cond; [done..| | |];
      [apply IH1 | apply IH2 | apply IH3]; try lia; revert Hm; len_eq.
  - assert (k < 10)%nat as Hk by (destruct (tok_type t); simplify_eq/=; lia).
    apply meets_bin; [done..| |]; [apply IH1|apply IH2]; revert Hf Hm; len_eq.
  - destruct m as [|m]; [lia|]. apply meets_unary; [done|]. apply IH; revert Hf Hm; len_eq.
  - by apply meets_number.
  - by apply meets_ident.
  - by apply meets_defined.
  - by apply meets_defined_paren.
  - destruct f as [|f]; [exfalso; revert Hf; len_eq|].
    apply meets_paren; [done..|]. apply IH; revert Hf Hm; len_eq.
Qed.

End Grammar.

(** C7: [#if] expressions mean what the C grammar and arithmetic say, as far as no [?:] has
    operands of different signedness.  When the tokens derive such an expression and C gives
    it the value [v] (operands a short circuit or a conditional skips need not have one), the
    evaluator succeeds without undefined behaviour and returns [v], converted to [int32_t]. *)
Theorem pp_expr_run_derives (macros : option MacroTable) (tokens : list Token) (e : ppexpr) (v : CInt) :
  derives 0 tokens e -> same_signedness e = true -> cden macros e = Some v ->
  pp_expr_run macros tokens = Some (true, i32 (ci_val v), false).
Proof.
  intros Hd Hs Hv. apply (cden_pden _ _ _ Hs) in Hv. unfold pp_expr_run.
  pose proof (derives_meets macros tokens 0 tokens e Hd (S (length tokens)) (length tokens)
    ltac:(lia) ltac:(lia)) as H.
  assert (tokens = [] ++ tokens ++ []) as Ht by (by rewrite app_nil_r).
  assert (res macros true e = Some (to_pp v)) as Hres by (cbn [res]; by rewrite Hv).
  change (mkParser 0 false false) with (at_ 0 false).
  rewrite (H 0%nat [] [] true false (to_pp v) Ht eq_refl I Hres). cbn [mbind option_bind].
  assert (parser_is_done tokens (at_ (0 + length tokens) false) = true) as ->.
  { unfold parser_is_done, parser_consume_trailing. simpl. rewrite drop_ge by lia. simpl.
    by rewrite bool_decide_eq_true_2. }
  cbn [at_ ps_error ps_ub negb andb]. do 3 f_equal.
  pose proof (pden_ok _ _ _ Hv) as Hok.
  assert (forall z, i32 (u64 z) = i32 z) as Hi.
  { intros z. unfold wrapS, wrapU. f_equal. change (2 ^ 64) with (2 ^ 32 * 2 ^ 32).
    rewrite (Zplus_mod (z `mod` _)), (Zplus_mod z). do 2 f_equal.
    rewrite Z.rem_mul_r, Z.mul_comm by lia. rewrite Z.mod_add by lia. apply Zmod_mod. }
  change (isUnsigned (to_pp v)) with (ci_unsigned v). destruct (ci_unsigned v) eqn:Eu.
  - apply Hi.
  - rewrite as_signed_to_pp by done. apply Hi.
Qed.

(** [0 && 1 / 0 || 2 + 3 * 4 == 14] *)
Definition sample_tokens : list Token :=
  [plain_token TOKEN_NUMBER "0" 1; plain_token TOKEN_LOGICAL_AND "&&" 1;
   plain_token TOKEN_NUMBER "1" 1; plain_token TOKEN_DIVIDE "/" 1;
   plain_token TOKEN_NUMBER "0" 1; plain_token TOKEN_LOGICAL_OR "||" 1;
   plain_token TOKEN_NUMBER "2" 1; plain_token TOKEN_PLUS "+" 1;
   plain_token TOKEN_NUMBER "3" 1; plain_token TOKEN_ASTERISK "*" 1;
   plain_token TOKEN_NUMBER "4" 1; plain_token TOKEN_EQUAL "==" 1;
   plain_token TOKEN_NUMBER "14" 1].

(** A binary expression, split at its operator. *)
Lemma derives_split (k n : nat) (ts : list Token) (t : Token) (op : TokenType) (a b : ppexpr) :
  ts !! n = Some t -> tok_type t = op -> op_level op = Some k ->
  derives (S k) (take n ts) a -> derives (S (S k)) (drop (S n) ts) b ->
  derives (S k) ts (PBin op a b).
Proof.
  intros Ht <- Hk Ha Hb. rewrite <- (take_drop_middle ts n t Ht). by apply D_bin.
Qed.

Lemma derives_down (c d : nat) (ts : list Token) (e : ppexpr) :
  (c <= d <= 12)%nat -> derives d ts e -> derives c ts e.
Proof.
  intros [Hcd Hd] H. revert Hd H. induction Hcd as [|d Hcd IH]; [done|].
  intros Hd H. apply IH; [lia|]. by apply D_down.
Qed.

(** Decomposes a fully parenthesised derivation goal: level and operator position given. *)
Ltac derive_binary k n :=
  apply (derives_down _ (S k)); [lia|]; eapply (derives_split k n); [done..| |]; cbn [take drop].
Ltac derive_number := apply (derives_down _ 12); [lia|]; apply D_number; by left.

Lemma pp_expr_run_derives_witness :
  exists e, derives 0 sample_tokens e /\ same_signedness e = true /\ cden None e = Some (mkCInt 1 false) /\
    pp_expr_run None sample_tokens = Some (true, 1, false).
Proof.
  pose (n := fun s => PNum (plain_token TOKEN_NUMBER s 1)).
  pose (e := PBin TOKEN_LOGICAL_OR
     (PBin TOKEN_LOGICAL_AND (n "0"%string) (PBin TOKEN_DIVIDE (n "1"%string) (n "0"%string)))
     (PBin TOKEN_EQUAL
        (PBin TOKEN_PLUS (n "2"%string) (PBin TOKEN_ASTERISK (n "3"%string) (n "4"%string)))
        (n "14"%string))).
  assert (derives 0 sample_tokens e) as Hd.
  { unfold e, n. derive_binary 0%nat 5%nat.
    - derive_binary 1%nat 1%nat; [derive_number|]. derive_binary 9%nat 1%nat; derive_number.
    - derive_binary 5%nat 5%nat; [|derive_number].
      derive_binary 8%nat 1%nat; [derive_number|]. derive_binary 9%nat 1%nat; derive_number. }
  exists e. split; [exact Hd|]. split; [by vm_compute|]. split; [by vm_compute|].
  exact (pp_expr_run_derives None sample_tokens e (mkCInt 1 false) Hd eq_refl eq_refl).
Defined.

(** The result passes through [int32_t]: [#if 4294967296] is false. *)
Example if_value_truncated :
  pp_expr_run None [plain_token TOKEN_NUMBER "4294967296" 1] = Some (true, 0, false).
Proof. by vm_compute. Qed.

(** [#if (1 ? -1 : 0u) > 0]: the conditional keeps the selected operand's signedness,
    where the usual arithmetic conversions make it unsigned. *)
Example conditional_keeps_signedness :
  pp_expr_run None
    [plain_token TOKEN_LPAREN "(" 1; plain_token TOKEN_NUMBER "1" 1;
     plain_token TOKEN_QUESTION "?" 1; plain_token TOKEN_MINUS "-" 1;
     plain_token TOKEN_NUMBER "1" 1; plain_token TOKEN_COLON ":" 1;
     plain_token TOKEN_NUMBER "0u" 1; plain_token TOKEN_RPAREN ")" 1;
     plain_token TOKEN_GREATER ">" 1; plain_token TOKEN_NUMBER "0" 1] = Some (true, 0, false).
Proof. by vm_compute. Qed.

(** [#if 9223372036854775807 + 1] executes a signed overflow. *)
Example signed_overflow_is_executed :
  pp_expr_run None
    [plain_token TOKEN_NUMBER "9223372036854775807" 1; plain_token TOKEN_PLUS "+" 1;
     plain_token TOKEN_NUMBER "1" 1] = Some (true, 0, true).
Proof. by vm_compute. Qed.

(** [#if int]: C replaces the names left over by 0, keywords included; here they are an error. *)
Example keyword_is_refused : pp_expr_run None [plain_token TOKEN_INT "int" 1] = Some (false, 0, false).
Proof. by vm_compute. Qed.
