(* ===== verification/PPConditional.v ===== *)
(** * Conditional groups and the token driver (src/Preprocessor/preprocessor_conditionals.c,
    preprocessor_driver_support.c, and [preprocess_tokens] of preprocessor.c).

    The rest of the preprocessor (macro expansion, [#define], [#include], diagnostics)
    is the interface [PPHost]; the theorems hold for every instance of it.  The stack
    of [PPConditionalFrame]s is a list, innermost group first.  A handler that returns
    [false] is [inl] of the host state it leaves. *)
From S2P Require Import Prelude Tokens MacroTable PPExpr.

Record PPConditionalFrame := mkFrame {
  parentActive : bool;
  selfActive : bool;
  branchTaken : bool;
  sawElse : bool
}.

(** The frames and the capacity of their array. *)
Record CondStack := mkCondStack { cs_frames : list PPConditionalFrame; cs_capacity : nat }.

Definition cs_empty : CondStack := mkCondStack [] 0.

(** What the driver asks of the rest of the preprocessor.  A directive handler receives
    the tokens and the cursor on the directive, and returns the new cursor. *)
Class PPHost (PP : Type) := {
  pp_table : PP -> MacroTable;
  lenientMissingIncludes : PP -> bool;
  preserveDirectives : PP -> bool;
  pp_report_diag : PP -> bool -> option Token -> string -> PP;
  pp_prepare_expr_tokens : PP -> list Token -> PP + PP * list Token;
  pp_flush_tokens : PP -> list Token -> PP + PP;
  pp_append_directive_line : PP -> list Token -> nat -> PP + PP;
  process_define : PP -> list Token -> nat -> PP + PP * nat;
  process_include : PP -> list Token -> nat -> bool -> PP + PP * nat;
  process_undef : PP -> list Token -> nat -> PP + PP * nat;
  process_pragma : PP -> list Token -> nat -> PP + PP * nat;
  process_line_directive : PP -> list Token -> nat -> PP + PP * nat
}.

(** Sequencing of operations that may fail. *)
Definition try {E A B} (r : E + A) (k : A -> E + B) : E + B :=
  match r with inl e => inl e | inr a => k a end.

Notation "'let?' x ':=' r 'in' k" := (try r (fun x => k))
  (at level 10, x pattern, r at level 100, k at level 200) : fisics_scope.

Definition conditional_stack_is_active (stack : list PPConditionalFrame) : bool :=
  match stack with
  | [] => true
  | frame :: _ => selfActive frame
  end.

Definition token_is_macro_identifier (tok : Token) : bool :=
  match tok_value tok with
  | None => false
  | Some _ => tt_eqb (tok_type tok) TOKEN_IDENTIFIER ||
              (TokenType_code (tok_type tok) <? TokenType_code TOKEN_IDENTIFIER)
  end.

Definition push_conditional (stack : CondStack) (frame : PPConditionalFrame) : CondStack :=
  mkCondStack (frame :: cs_frames stack)
    (grow_capacity 4 (length (cs_frames stack)) (cs_capacity stack)).

(** The token is on the directive's line (and is not the end of file). *)
Definition on_line (line : Z) (tok : Token) : bool :=
  negb (tt_eqb (tok_type tok) TOKEN_EOF) && (tok_line tok =? line).

(** Where the run of tokens on [line] that starts at [i] ends. *)
Definition line_end (tokens : list Token) (line : Z) (i : nat) : nat :=
  (i + length (span (on_line line) (drop i tokens)).1)%nat.

Definition token_line (tokens : list Token) (i : nat) : Z :=
  match tokens !! i with Some tok => tok_line tok | None => 0 end.

Definition skip_to_line_end (tokens : list Token) (cursor : nat) : nat :=
  (line_end tokens (token_line tokens cursor) cursor - 1)%nat.

Definition pp_directive_span_has_trailing_tokens (start stop : nat) : bool :=
  bool_decide (start + 1 < stop)%nat.

Definition pp_directive_has_trailing_tokens (tokens : list Token) (cursor : nat) : bool :=
  if decide (length tokens <= cursor)%nat then false
  else pp_directive_span_has_trailing_tokens cursor
         (line_end tokens (token_line tokens cursor) (S cursor)).

Definition type_at (tokens : list Token) (i : nat) (ty : TokenType) : bool :=
  match tokens !! i with Some tok => tt_eqb (tok_type tok) ty | None => false end.

(** [_Pragma ( "..." )]: the cursor on its last token, [None] when there is none. *)
Definition pp_skip_pragma_operator (tokens : list Token) (cursor : nat) : option nat :=
  match tokens !! cursor with
  | Some tok =>
      if tt_eqb (tok_type tok) TOKEN_IDENTIFIER && bool_decide (tok_value tok = Some "_Pragma"%string)
      then
        let j := S cursor in
        let j := if type_at tokens j TOKEN_LPAREN then
                   let j := S j in
                   let j := if type_at tokens j TOKEN_STRING then S j else j in
                   if type_at tokens j TOKEN_RPAREN then S j else j
                 else j in
        Some (j - 1)%nat
      else None
  | None => None
  end.

Section Driver.
Context {PP : Type} `{PPHost PP}.

(** The value of the controlling expression of an [#if] or [#elif] at [cursor] whose
    line ends at [exprEnd]. *)
Definition eval_condition (pp : PP) (tokens : list Token) (cursor exprEnd : nat) (what : string)
    : PP + PP * bool :=
  let exprStart := S cursor in
  let evalTokens := take (exprEnd - exprStart) (drop exprStart tokens) in
  let? (pp, prepared) := pp_prepare_expr_tokens pp evalTokens in
  let evalTokens := match prepared with [] => evalTokens | _ :: _ => prepared end in
  match preprocessor_eval_tokens (pp_expr_evaluator_init (pp_table pp)) evalTokens with
  | (false, _) => inl (pp_report_diag pp true (tokens !! cursor) what)
  | (true, value) => inr (pp, negb (value =? 0))
  end.

Definition process_if (pp : PP) (tokens : list Token) (cursor : nat) (stack : CondStack)
    : PP + PP * nat * CondStack :=
  let directiveLine := token_line tokens cursor in
  let exprEnd := line_end tokens directiveLine (S cursor) in
  let parentActive := conditional_stack_is_active (cs_frames stack) in
  let? (pp, condValue) :=
    if parentActive then eval_condition pp tokens cursor exprEnd "invalid #if expression"
    else inr (pp, false) in
  let selfActive := parentActive && condValue in
  inr (pp, (exprEnd - 1)%nat,
       push_conditional stack (mkFrame parentActive selfActive selfActive false)).

Definition process_ifdeflike (pp : PP) (tokens : list Token) (cursor : nat) (stack : CondStack)
    (negate : bool) : PP + PP * nat * CondStack :=
  let directiveLine := token_line tokens cursor in
  let i := S cursor in
  let missing := inl (pp_report_diag pp true (tokens !! i)
                        (if negate then "expected identifier after #ifndef"
                         else "expected identifier after #ifdef")) in
  match tokens !! i with
  | None => missing
  | Some tok =>
      if negb (tok_line tok =? directiveLine) || negb (token_is_macro_identifier tok) then missing
      else
        let name := default ""%string (tok_value tok) in
        let i := S i in
        if match tokens !! i with Some t => on_line directiveLine t | None => false end
        then inl (pp_report_diag pp true (tokens !! i)
                    (if negate then "unexpected tokens after #ifndef directive"
                     else "unexpected tokens after #ifdef directive"))
        else
          let parentActive := conditional_stack_is_active (cs_frames stack) in
          let isDefined := parentActive &&
            match macro_table_lookup (pp_table pp) name with Some _ => true | None => false end in
          let selfActive := parentActive && (if negate then negb isDefined else isDefined) in
          inr (pp, (line_end tokens directiveLine i - 1)%nat,
               push_conditional stack (mkFrame parentActive selfActive selfActive false))
  end.

(** The outcome of a directive that is misplaced: an error, ignored in lenient mode. *)
Definition misplaced {A} (pp : PP) (tok : option Token) (what : string) (k : PP -> A) : PP + A :=
  let lenient := lenientMissingIncludes pp in
  let pp := pp_report_diag pp true tok what in
  if lenient then inr (k pp) else inl pp.

Definition process_elif (pp : PP) (tokens : list Token) (cursor : nat) (stack : CondStack)
    : PP + PP * nat * CondStack :=
  match cs_frames stack with
  | [] => misplaced pp (tokens !! cursor) "#elif without matching #if" (fun pp => (pp, cursor, stack))
  | frame :: outer =>
      let exprEnd := line_end tokens (token_line tokens cursor) (S cursor) in
      if sawElse frame
      then misplaced pp (tokens !! cursor) "#elif after #else" (fun pp => (pp, cursor, stack))
      else
        let? (pp, newActive) :=
          if parentActive frame && negb (branchTaken frame)
          then eval_condition pp tokens cursor exprEnd "invalid #elif expression"
          else inr (pp, false) in
        let frame := mkFrame (parentActive frame) (parentActive frame && newActive)
                       (if newActive && parentActive frame then true else branchTaken frame)
                       (sawElse frame) in
        inr (pp, (exprEnd - 1)%nat, mkCondStack (frame :: outer) (cs_capacity stack))
  end.

Definition process_else (pp : PP) (stack : CondStack) (tok : option Token) : PP + PP * CondStack :=
  match cs_frames stack with
  | [] => misplaced pp tok "#else without matching #if" (fun pp => (pp, stack))
  | frame :: outer =>
      if sawElse frame then misplaced pp tok "duplicate #else" (fun pp => (pp, stack))
      else
        let newActive := parentActive frame && negb (branchTaken frame) in
        let frame := mkFrame (parentActive frame) newActive
                       (if newActive then true else branchTaken frame) true in
        inr (pp, mkCondStack (frame :: outer) (cs_capacity stack))
  end.

Definition process_endif (pp : PP) (stack : CondStack) (tok : option Token) : PP + PP * CondStack :=
  match cs_frames stack with
  | [] => misplaced pp tok "#endif without matching #if" (fun pp => (pp, stack))
  | _ :: outer => inr (pp, mkCondStack outer (cs_capacity stack))
  end.

(** An empty chunk flushes to nothing. *)
Definition pp_flush_chunk (pp : PP) (chunk : list Token) : PP + PP :=
  match chunk with [] => inr pp | _ :: _ => pp_flush_tokens pp chunk end.

(** The driver's loop state: host, pending chunk, conditional stack. *)
Record Driver := mkDriver { d_pp : PP; d_chunk : list Token; d_cond : CondStack }.

(** [strcat] into [char buffer[256]], a space between pieces; a piece that does not fit is
    dropped. *)
Definition message_append (buffer piece : string) : string :=
  if decide (String.length buffer + String.length piece + 2 < 256)%nat
  then append (if bool_decide (buffer = ""%string) then buffer else append buffer " ") piece
  else buffer.

Definition directive_message (tokens : list Token) (cursor : nat) : string :=
  let line := token_line tokens cursor in
  let stop := line_end tokens line (S cursor) in
  foldl (fun b tok => message_append b (default ""%string (tok_value tok))) ""%string
    (take (stop - S cursor) (drop (S cursor) tokens)).

(** A directive obeyed only in active groups: [run] gets the host after the flush. *)
Definition active_directive (d : Driver) (tokens : list Token) (i : nat) (preserve : bool)
    (run : PP -> PP + PP * nat) : PP + Driver * nat :=
  if conditional_stack_is_active (cs_frames (d_cond d)) then
    let? pp := pp_flush_chunk (d_pp d) (d_chunk d) in
    let? pp := if preserve && preserveDirectives pp then pp_append_directive_line pp tokens i
               else inr pp in
    let? (pp, i) := run pp in
    inr (mkDriver pp [] (d_cond d), i)
  else inr (d, skip_to_line_end tokens i).

(** A conditional directive: processed in every group, after the flush. *)
Definition conditional_directive (d : Driver) (run : PP -> PP + PP * nat * CondStack)
    : PP + Driver * nat :=
  let? pp := pp_flush_chunk (d_pp d) (d_chunk d) in
  let? (pp, i, cond) := run pp in
  inr (mkDriver pp [] cond, i).

Definition other_directive (d : Driver) (tokens : list Token) (i : nat) (tok : Token)
    : PP + Driver * nat :=
  let active := conditional_stack_is_active (cs_frames (d_cond d)) in
  if bool_decide (tok_value tok = Some "line"%string)
  then active_directive d tokens i false (fun pp => process_line_directive pp tokens i)
  else if bool_decide (tok_value tok = Some "warning"%string) ||
          bool_decide (tok_value tok = Some "error"%string) then
    let isError := bool_decide (tok_value tok = Some "error"%string) in
    let buffer := directive_message tokens i in
    let msg := if bool_decide (buffer = ""%string)
               then (if isError then "#error"%string else "#warning"%string) else buffer in
    let pp := if active then pp_report_diag (d_pp d) isError (Some tok) msg else d_pp d in
    inr (mkDriver pp (d_chunk d) (d_cond d), skip_to_line_end tokens i)
  else if active
       then inl (pp_report_diag (d_pp d) true (Some tok)
                   (append "unknown preprocessing directive #" (default "<unknown>"%string (tok_value tok))))
       else inr (d, skip_to_line_end tokens i).

(** One iteration of the loop over the tokens, at [i]; the result's cursor is the one the
    loop increments. *)
Definition driver_step (tokens : list Token) (i : nat) (d : Driver) : PP + Driver * nat :=
  match tokens !! i with
  | None => inr (d, i)
  | Some tok =>
      let active := conditional_stack_is_active (cs_frames (d_cond d)) in
      match tok_type tok with
      | TOKEN_DEFINE => active_directive d tokens i true (fun pp => process_define pp tokens i)
      | TOKEN_INCLUDE => active_directive d tokens i true (fun pp => process_include pp tokens i false)
      | TOKEN_INCLUDE_NEXT => active_directive d tokens i true (fun pp => process_include pp tokens i true)
      | TOKEN_UNDEF => active_directive d tokens i false (fun pp => process_undef pp tokens i)
      | TOKEN_PRAGMA => active_directive d tokens i true (fun pp => process_pragma pp tokens i)
      | TOKEN_PP_IF => conditional_directive d (fun pp => process_if pp tokens i (d_cond d))
      | TOKEN_PP_ELIF => conditional_directive d (fun pp => process_elif pp tokens i (d_cond d))
      | TOKEN_IFDEF => conditional_directive d (fun pp => process_ifdeflike pp tokens i (d_cond d) false)
      | TOKEN_IFNDEF => conditional_directive d (fun pp => process_ifdeflike pp tokens i (d_cond d) true)
      | TOKEN_PP_ELSE =>
          conditional_directive d (fun pp =>
            if pp_directive_has_trailing_tokens tokens i
            then inl (pp_report_diag pp true (tokens !! S i) "unexpected tokens after #else directive")
            else let? (pp, cond) := process_else pp (d_cond d) (Some tok) in
                 inr (pp, skip_to_line_end tokens i, cond))
      | TOKEN_ENDIF =>
          conditional_directive d (fun pp =>
            if pp_directive_has_trailing_tokens tokens i
            then inl (pp_report_diag pp true (tokens !! S i) "unexpected tokens after #endif directive")
            else let? pp := if preserveDirectives pp && active
                            then pp_append_directive_line pp tokens i else inr pp in
                 let? (pp, cond) := process_endif pp (d_cond d) (Some tok) in
                 inr (pp, skip_to_line_end tokens i, cond))
      | TOKEN_PREPROCESSOR_OTHER => other_directive d tokens i tok
      | TOKEN_EOF => inr (d, i)
      | _ =>
          if active then
            match pp_skip_pragma_operator tokens i with
            | Some j => inr (d, j)
            | None => inr (mkDriver (d_pp d) (d_chunk d ++ [tok]) (d_cond d), i)
            end
          else inr (d, i)
      end
  end.

(** The loop: [fuel] iterations at most, [None] when they do not suffice. *)
Fixpoint driver_loop (fuel : nat) (tokens : list Token) (i : nat) (d : Driver) : option (PP + Driver) :=
  if decide (length tokens <= i)%nat then Some (inr d)
  else match fuel with
       | O => None
       | S fuel' => match driver_step tokens i d with
                    | inl pp => Some (inl pp)
                    | inr (d, i) => driver_loop fuel' tokens (S i) d
                    end
       end.

(** [preprocess_tokens]: the final host state and the result; the end-of-file token it
    appends to the output is the caller's [appendEOF] and left out. *)
Definition preprocess_tokens (pp : PP) (tokens : list Token) : option (PP * bool) :=
  r ← driver_loop (length tokens) tokens 0 (mkDriver pp [] cs_empty);
  Some match r with
       | inl pp => (pp, false)
       | inr d =>
           match pp_flush_chunk (d_pp d) (d_chunk d) with
           | inl pp => (pp, false)
           | inr pp => match cs_frames (d_cond d) with
                       | [] => (pp, true)
                       | _ :: _ => (pp_report_diag pp true None "unclosed #if/#ifdef/#ifndef", false)
                       end
           end
       end.

End Driver.

(** ** The stack invariant *)

(** A group is live only inside live groups, its selected branch counts as taken, and a
    branch was taken only in a live group. *)
Fixpoint frames_ok (frames : list PPConditionalFrame) : Prop :=
  match frames with
  | [] => True
  | f :: outer =>
      parentActive f = conditional_stack_is_active outer /\
      (selfActive f = true -> branchTaken f = true) /\
      (branchTaken f = true -> parentActive f = true) /\ frames_ok outer
  end.

Definition stack_ok (stack : CondStack) : Prop :=
  frames_ok (cs_frames stack) /\ (length (cs_frames stack) <= cs_capacity stack)%nat.

Lemma try_inr {E A B} (r : E + A) (k : A -> E + B) (b : B) :
  try r k = inr b -> exists a, r = inr a /\ k a = inr b.
Proof. destruct r as [e|a]; [done|]. eauto. Qed.

(** Splits a successful composition at its first operation. *)
Ltac step_inr H x Hx := apply try_inr in H as (x & Hx & H).

Lemma push_conditional_ok (stack : CondStack) (self : bool) :
  stack_ok stack -> (self = true -> conditional_stack_is_active (cs_frames stack) = true) ->
  stack_ok (push_conditional stack (mkFrame (conditional_stack_is_active (cs_frames stack)) self self false)).
Proof.
  intros [Hf Hc] Hs. split; simpl; [by split_and!|].
  apply grow_capacity_room; lia.
Qed.

Section DriverProofs.
Context {PP : Type} `{PPHost PP}.

Lemma process_if_inv (pp pp' : PP) (tokens : list Token) (i j : nat) (s s' : CondStack) :
  process_if pp tokens i s = inr (pp', j, s') ->
  exists c, s' = push_conditional s
      (mkFrame (conditional_stack_is_active (cs_frames s))
         (conditional_stack_is_active (cs_frames s) && c)
         (conditional_stack_is_active (cs_frames s) && c) false) /\
    (conditional_stack_is_active (cs_frames s) = false -> pp' = pp).
Proof.
  unfold process_if. intros H'. step_inr H' r Hr. destruct r as [pp1 c]. simplify_eq.
  exists c. split; [done|]. intros E. rewrite E in Hr. by simplify_eq.
Qed.

Lemma process_ifdeflike_inv (pp pp' : PP) (tokens : list Token) (i j : nat) (neg : bool)
    (s s' : CondStack) :
  process_ifdeflike pp tokens i s neg = inr (pp', j, s') ->
  exists c, s' = push_conditional s
      (mkFrame (conditional_stack_is_active (cs_frames s))
         (conditional_stack_is_active (cs_frames s) && c)
         (conditional_stack_is_active (cs_frames s) && c) false) /\ pp' = pp.
Proof.
  unfold process_ifdeflike. destruct (tokens !! S i) as [tok|]; [|done].
  destruct (_ || _); [done|].
  destruct (tokens !! S (S i)) as [t|]; [destruct (on_line _ t); [done|]|];
    intros H1; injection H1 as <- _ <-; by eexists.
Qed.

Lemma misplaced_inr {A} (pp : PP) (tok : option Token) (what : string) (k : PP -> A) (a : A) :
  misplaced pp tok what k = inr a -> a = k (pp_report_diag pp true tok what).
Proof. unfold misplaced. case_match; by intros [= <-]. Qed.

Lemma process_elif_inv (pp pp' : PP) (tokens : list Token) (i j : nat) (s s' : CondStack) :
  process_elif pp tokens i s = inr (pp', j, s') ->
  s' = s \/
  exists f outer c, cs_frames s = f :: outer /\ sawElse f = false /\
    s' = mkCondStack
           (mkFrame (parentActive f) (parentActive f && c)
              (if c && parentActive f then true else branchTaken f) false :: outer) (cs_capacity s) /\
    (parentActive f && negb (branchTaken f) = false -> c = false /\ pp' = pp).
Proof.
  unfold process_elif. destruct (cs_frames s) as [|f outer] eqn:E.
  { intros H'%misplaced_inr. left. by simplify_eq. }
  destruct (sawElse f) eqn:Es.
  { intros H'%misplaced_inr. left. by simplify_eq. }
  intros H'. step_inr H' r Hr. destruct r as [pp1 c]. simplify_eq. right.
  exists f, outer, c. split_and!; [done..|]. intros Hf. rewrite Hf in Hr. by simplify_eq.
Qed.

Lemma process_else_inv (pp pp' : PP) (tok : option Token) (s s' : CondStack) :
  process_else pp s tok = inr (pp', s') ->
  s' = s \/
  exists f outer, cs_frames s = f :: outer /\ sawElse f = false /\ pp' = pp /\
    s' = mkCondStack
           (mkFrame (parentActive f) (parentActive f && negb (branchTaken f))
              (if parentActive f && negb (branchTaken f) then true else branchTaken f) true :: outer)
           (cs_capacity s).
Proof.
  unfold process_else. destruct (cs_frames s) as [|f outer] eqn:E.
  { intros H'%misplaced_inr. left. by simplify_eq. }
  destruct (sawElse f) eqn:Es.
  { intros H'%misplaced_inr. left. by simplify_eq. }
  intros [= <- <-]. right. by exists f, outer.
Qed.

Lemma process_endif_inv (pp pp' : PP) (tok : option Token) (s s' : CondStack) :
  process_endif pp s tok = inr (pp', s') ->
  s' = s \/ exists f outer, cs_frames s = f :: outer /\ s' = mkCondStack outer (cs_capacity s).
Proof.
  unfold process_endif. destruct (cs_frames s) as [|f outer] eqn:E.
  { intros H'%misplaced_inr. left. by simplify_eq. }
  intros [= _ <-]. right. by exists f, outer.
Qed.

Lemma stack_ok_top (f f' : PPConditionalFrame) (outer : list PPConditionalFrame) (cap : nat) :
  stack_ok (mkCondStack (f :: outer) cap) -> parentActive f' = parentActive f ->
  (selfActive f' = true -> branchTaken f' = true) ->
  (branchTaken f' = true -> parentActive f' = true) ->
  stack_ok (mkCondStack (f' :: outer) cap).
Proof.
  intros [(Hp & _ & _ & Ho) Hc] Hp' Hs Hb. split; [|done]. cbn [cs_frames frames_ok].
  split_and!; [congruence|done..].
Qed.

Lemma process_if_ok (pp pp' : PP) (tokens : list Token) (i j : nat) (s s' : CondStack) :
  process_if pp tokens i s = inr (pp', j, s') -> stack_ok s -> stack_ok s'.
Proof.
  intros (c & -> & _)%process_if_inv Hs. apply push_conditional_ok; [done|].
  by intros [? _]%andb_true_iff.
Qed.

Lemma process_ifdeflike_ok (pp pp' : PP) (tokens : list Token) (i j : nat) (neg : bool)
    (s s' : CondStack) :
  process_ifdeflike pp tokens i s neg = inr (pp', j, s') -> stack_ok s -> stack_ok s'.
Proof.
  intros (c & -> & _)%process_ifdeflike_inv Hs. apply push_conditional_ok; [done|].
  by intros [? _]%andb_true_iff.
Qed.

Lemma process_elif_ok (pp pp' : PP) (tokens : list Token) (i j : nat) (s s' : CondStack) :
  process_elif pp tokens i s = inr (pp', j, s') -> stack_ok s -> stack_ok s'.
Proof.
  intros [->|(f & outer & c & E & _ & -> & _)]%process_elif_inv; [done|].
  destruct s as [fs cap]. simpl in E. subst fs. intros Hs.
  pose proof Hs as [(_ & _ & Hb & _) _].
  eapply stack_ok_top; [exact Hs|done|simpl..]; destruct (parentActive f), c; try done; auto.
Qed.

Lemma process_else_ok (pp pp' : PP) (tok : option Token) (s s' : CondStack) :
  process_else pp s tok = inr (pp', s') -> stack_ok s -> stack_ok s'.
Proof.
  intros [->|(f & outer & E & _ & _ & ->)]%process_else_inv; [done|].
  destruct s as [fs cap]. simpl in E. subst fs. intros Hs.
  pose proof Hs as [(_ & _ & Hb & _) _].
  eapply stack_ok_top; [exact Hs|done|simpl..]; destruct (parentActive f), (branchTaken f); try done; auto.
Qed.

Lemma process_endif_ok (pp pp' : PP) (tok : option Token) (s s' : CondStack) :
  process_endif pp s tok = inr (pp', s') -> stack_ok s -> stack_ok s'.
Proof.
  intros [->|(f & outer & E & ->)]%process_endif_inv; [done|].
  destruct s as [fs cap]. simpl in E. subst fs.
  intros [(_ & _ & _ & Ho) Hc]. split; simpl in *; [done|lia].
Qed.

Hint Resolve process_if_ok process_ifdeflike_ok process_elif_ok process_else_ok process_endif_ok : core.

Lemma active_directive_cond (d d' : Driver) (tokens : list Token) (i j : nat) (b : bool)
    (run : PP -> PP + PP * nat) :
  active_directive d tokens i b run = inr (d', j) -> d_cond d' = d_cond d.
Proof.
  unfold active_directive. case_match; [|by intros [= <- _]].
  intros H1. step_inr H1 x1 E1. step_inr H1 x2 E2. step_inr H1 x3 E3. destruct x3. by simplify_eq.
Qed.

Lemma conditional_directive_cond (d d' : Driver) (j : nat)
    (run : PP -> PP + PP * nat * CondStack) (P : CondStack -> Prop) :
  conditional_directive d run = inr (d', j) ->
  (forall pp pp' s', run pp = inr (pp', j, s') -> P s') -> P (d_cond d').
Proof.
  unfold conditional_directive. intros H1 HP. step_inr H1 x1 E1. step_inr H1 x2 E2.
  destruct x2 as [[pp' i'] s']. simplify_eq. simpl. by eapply HP.
Qed.

Lemma other_directive_cond (d d' : Driver) (tokens : list Token) (i j : nat) (tok : Token) :
  other_directive d tokens i tok = inr (d', j) -> d_cond d' = d_cond d.
Proof.
  unfold other_directive. case_match; [apply active_directive_cond|].
  case_match; [by intros [= <- _]|]. case_match; [done|]. by intros [= <- _].
Qed.

Lemma driver_step_ok (tokens : list Token) (i j : nat) (d d' : Driver) :
  driver_step tokens i d = inr (d', j) -> stack_ok (d_cond d) -> stack_ok (d_cond d').
Proof.
  unfold driver_step. destruct (tokens !! i) as [tok|]; [|by intros [= <- _]].
  intros H1 Hok. destruct (tok_type tok);
    try (apply active_directive_cond in H1; congruence);
    try (apply other_directive_cond in H1; congruence);
    try (repeat case_match; simplify_eq; exact Hok);
    (eapply conditional_directive_cond; [exact H1|]); intros pp1 pp' s' Hrun; cbv beta in Hrun; try (by eauto);
    destruct (pp_directive_has_trailing_tokens _ _); try discriminate Hrun.
  - step_inr Hrun r1 Hr1. step_inr Hrun r2 Hr2. destruct r2 as [pp2 s2]. simplify_eq. eauto.
  - step_inr Hrun r1 Hr1. destruct r1 as [pp2 s2]. simplify_eq. eauto.
Qed.

(** The states the loop passes through. *)
Inductive driver_reaches (tokens : list Token) (pp : PP) : nat -> Driver -> Prop :=
  | reach_start : driver_reaches tokens pp 0 (mkDriver pp [] cs_empty)
  | reach_step i j d d' :
      driver_reaches tokens pp i d -> (i < length tokens)%nat ->
      driver_step tokens i d = inr (d', j) -> driver_reaches tokens pp (S j) d'.

Lemma driver_reaches_ok (tokens : list Token) (pp : PP) (i : nat) (d : Driver) :
  driver_reaches tokens pp i d -> stack_ok (d_cond d).
Proof.
  induction 1 as [|i j d d' _ IH _ Hstep]; [by split|]. by eapply driver_step_ok.
Qed.

Lemma frames_ok_active (frames : list PPConditionalFrame) :
  frames_ok frames -> conditional_stack_is_active frames = true ->
  Forall (fun f => selfActive f = true /\ parentActive f = true /\ branchTaken f = true) frames.
Proof.
  induction frames as [|f outer IH]; intros Hok Hact; [constructor|].
  destruct Hok as (Hp & Hs & Hb & Ho). simpl in Hact. specialize (Hs Hact). specialize (Hb Hs).
  constructor; [done|]. apply IH; [done|congruence].
Qed.

(** *** One conditional group *)

(** The handlers of one group in order: the [#if], its [#elif]s at the given cursors, its
    [#else]; the flags say which branches were live. *)
Fixpoint run_elifs (pp : PP) (tokens : list Token) (cursors : list nat) (s : CondStack)
    : PP + PP * CondStack * list bool :=
  match cursors with
  | [] => inr (pp, s, [])
  | i :: rest =>
      let? (pp, _, s) := process_elif pp tokens i s in
      let? (pp, s', flags) := run_elifs pp tokens rest s in
      inr (pp, s', conditional_stack_is_active (cs_frames s) :: flags)
  end.

Definition run_section (pp : PP) (tokens : list Token) (i : nat) (elifs : list nat) (s : CondStack)
    : PP + PP * CondStack * list bool :=
  let? (pp, _, s) := process_if pp tokens i s in
  let first := conditional_stack_is_active (cs_frames s) in
  let? (pp, s, flags) := run_elifs pp tokens elifs s in
  let? (pp, s) := process_else pp s (tokens !! i) in
  inr (pp, s, first :: flags ++ [conditional_stack_is_active (cs_frames s)]).

Definition live_branches (flags : list bool) : nat := length (filter (fun b => b = true) flags).

Lemma live_branches_cons (b : bool) (flags : list bool) :
  live_branches (b :: flags) = ((if b then 1 else 0) + live_branches flags)%nat.
Proof. by destruct b. Qed.

Lemma live_branches_snoc (b : bool) (flags : list bool) :
  live_branches (flags ++ [b]) = (live_branches flags + if b then 1 else 0)%nat.
Proof. unfold live_branches. rewrite filter_app, length_app. by destruct b. Qed.

(** A frame that is open for [#elif] and [#else], with the number of branches selected. *)
Definition section_top (s : CondStack) (f : PPConditionalFrame) (outer : list PPConditionalFrame) : Prop :=
  cs_frames s = f :: outer /\ sawElse f = false /\ (branchTaken f = true -> parentActive f = true).

Lemma run_elifs_spec (tokens : list Token) (cursors : list nat) (pp pp' : PP) (s s' : CondStack)
    (f : PPConditionalFrame) (outer : list PPConditionalFrame) (flags : list bool) :
  section_top s f outer -> run_elifs pp tokens cursors s = inr (pp', s', flags) ->
  exists f', section_top s' f' outer /\ parentActive f' = parentActive f /\
    cs_capacity s' = cs_capacity s /\
    (branchTaken f || (0 <? live_branches flags)%nat = branchTaken f') /\
    (live_branches flags <= if parentActive f && negb (branchTaken f) then 1 else 0)%nat.
Proof.
  revert pp s f flags. induction cursors as [|i cursors IH]; intros pp s f flags Htop; cbn [run_elifs].
  { intros [= _ <- <-]. exists f. change (live_branches []) with 0%nat.
    split_and!; [done..|by rewrite orb_false_r|lia]. }
  intros H1. step_inr H1 r1 Hr1. destruct r1 as [[pp1 j] s1]. step_inr H1 r2 Hr2.
  destruct r2 as [[pp2 s2] fl]. simplify_eq. destruct Htop as (Hfs & Helse & Hbr).
  assert (exists c, cs_capacity s1 = cs_capacity s /\
    cs_frames s1 = mkFrame (parentActive f) (parentActive f && c)
                     (if c && parentActive f then true else branchTaken f) false :: outer /\
    (parentActive f && negb (branchTaken f) = false -> c = false)) as (c & Hcap & Hs1 & Hc).
  { revert Hr1. unfold process_elif. rewrite Hfs, Helse. intros Hr1.
    step_inr Hr1 r3 Hr3. destruct r3 as [pp3 c]. simplify_eq. exists c. split_and!; [done..|].
    intros E. rewrite E in Hr3. by simplify_eq. }
  rewrite Hs1. cbn [conditional_stack_is_active selfActive].
  destruct (IH pp1 s1 (mkFrame (parentActive f) (parentActive f && c)
      (if c && parentActive f then true else branchTaken f) false) fl)
    as (f' & Htop' & Hp' & Hcap' & Hbt & Hle); [|exact Hr2|].
  { split_and!; [done..|]. cbn. destruct c, (parentActive f); auto. }
  exists f'. cbn [parentActive branchTaken] in *.
  rewrite live_branches_cons. split_and!; [done..|congruence| |].
  - rewrite <- Hbt. destruct c, (parentActive f), (branchTaken f); try done; simpl in *;
      (destruct (live_branches fl); done).
  - destruct c, (parentActive f), (branchTaken f); simpl in *; try lia; by specialize (Hc eq_refl).
Qed.

Lemma run_section_live (tokens : list Token) (i : nat) (elifs : list nat) (pp pp' : PP)
    (s s' : CondStack) (flags : list bool) :
  run_section pp tokens i elifs s = inr (pp', s', flags) ->
  live_branches flags = (if conditional_stack_is_active (cs_frames s) then 1 else 0)%nat /\
  tail (cs_frames s') = cs_frames s.
Proof.
  unfold run_section. intros H1. step_inr H1 r1 Hr1. destruct r1 as [[pp1 j] s1].
  apply process_if_inv in Hr1 as (c & -> & _).
  step_inr H1 r2 Hr2. destruct r2 as [[pp2 s2] fl].
  step_inr H1 r3 Hr3. destruct r3 as [pp3 s3]. simplify_eq.
  remember (conditional_stack_is_active (cs_frames s)) as par eqn:Epar.
  edestruct run_elifs_spec as (f' & (Hfs2 & Hel2 & Hbr2) & Hp2 & _ & Hbt & Hle); [|exact Hr2|].
  { split_and!; [done..|]. cbn. by intros [? _]%andb_true_iff. }
  cbn [parentActive branchTaken] in *.
  unfold process_else in Hr3. rewrite Hfs2, Hel2 in Hr3. injection Hr3 as <- <-.
  cbn [cs_frames conditional_stack_is_active selfActive tail]. split; [|done].
  rewrite live_branches_cons, live_branches_snoc, Hp2, <- Hbt.
  cbn [push_conditional cs_frames conditional_stack_is_active selfActive].
  destruct par, c; simpl in *; destruct (live_branches fl); simpl; lia.
Qed.

(** The groups around a position are all selected. *)
Definition all_selected (frames : list PPConditionalFrame) : bool := forallb selfActive frames.

(** Neither a directive nor the end of the file. *)
Definition is_text (t : TokenType) : bool :=
  negb (one_of [TOKEN_DEFINE; TOKEN_INCLUDE; TOKEN_INCLUDE_NEXT; TOKEN_UNDEF; TOKEN_PRAGMA; TOKEN_PP_IF; TOKEN_PP_ELIF;
                TOKEN_IFDEF; TOKEN_IFNDEF; TOKEN_PP_ELSE; TOKEN_ENDIF; TOKEN_PREPROCESSOR_OTHER; TOKEN_EOF] t).

Lemma frames_ok_all_selected (frames : list PPConditionalFrame) :
  frames_ok frames -> conditional_stack_is_active frames = all_selected frames.
Proof.
  induction frames as [|f outer IH]; [done|]. intros (Hp & Hs & Hb & Ho). simpl.
  destruct (selfActive f); [|done]. rewrite <- (IH Ho), <- Hp. symmetry. auto.
Qed.

Lemma frames_ok_outer (inner outer : list PPConditionalFrame) : frames_ok (inner ++ outer) -> frames_ok outer.
Proof. induction inner as [|f inner IH]; [done|]. intros (_ & _ & _ & Ho). by apply IH. Qed.

Lemma driver_step_text (tokens : list Token) (i : nat) (tok : Token) (d : Driver) :
  tokens !! i = Some tok -> is_text (tok_type tok) = true ->
  driver_step tokens i d =
  if conditional_stack_is_active (cs_frames (d_cond d)) then
    match pp_skip_pragma_operator tokens i with
    | Some j => inr (d, j)
    | None => inr (mkDriver (d_pp d) (d_chunk d ++ [tok]) (d_cond d), i)
    end
  else inr (d, i).
Proof. intros Hi Hty. unfold driver_step. rewrite Hi. by destruct (tok_type tok). Qed.

(** C8: in every state the driver reaches, each open group remembers whether all the groups
    around it are selected, and only inside selected groups is it selected itself; a token
    that is no directive and starts no [_Pragma] operator is appended to the pending text when
    every open group is selected, and leaves the state as it is otherwise.  The frame array
    has room for the nesting depth. *)
Theorem driver_active_iff_all_groups_active (tokens : list Token) (pp : PP) (i : nat) (d : Driver) :
  driver_reaches tokens pp i d ->
  (forall inner f outer, cs_frames (d_cond d) = inner ++ f :: outer ->
     parentActive f = all_selected outer /\ (selfActive f = true -> all_selected outer = true)) /\
  (forall tok, tokens !! i = Some tok -> is_text (tok_type tok) = true -> pp_skip_pragma_operator tokens i = None ->
     driver_step tokens i d =
     inr (if all_selected (cs_frames (d_cond d))
          then mkDriver (d_pp d) (d_chunk d ++ [tok]) (d_cond d) else d, i)) /\
  (length (cs_frames (d_cond d)) <= cs_capacity (d_cond d))%nat.
Proof.
  intros [Hf Hc]%driver_reaches_ok. split_and!; [|..|done].
  - intros inner f outer E. rewrite E in Hf. apply frames_ok_outer in Hf as (Hp & Hs & Hb & Ho).
    rewrite Hp, (frames_ok_all_selected outer Ho) in *. split; [done|auto].
  - intros tok Hi Hty Hprag. rewrite (driver_step_text _ _ _ _ Hi Hty), Hprag, (frames_ok_all_selected _ Hf).
    by destruct (all_selected _).
Qed.

(** C9: however its conditions come out, an [#if] group with its [#elif]s and an [#else]
    selects exactly one branch when the enclosing groups are live and none otherwise, and
    leaves the enclosing groups' frames alone. *)
Theorem section_selects_one_branch (tokens : list Token) (i : nat) (elifs : list nat) (pp pp' : PP)
    (s s' : CondStack) (flags : list bool) :
  run_section pp tokens i elifs s = inr (pp', s', flags) ->
  live_branches flags = (if conditional_stack_is_active (cs_frames s) then 1 else 0)%nat /\
  tail (cs_frames s') = cs_frames s.
Proof. apply run_section_live. Qed.

(** *** Inactive groups *)

Definition is_conditional_directive (t : TokenType) : bool :=
  one_of [TOKEN_PP_IF; TOKEN_IFDEF; TOKEN_IFNDEF; TOKEN_PP_ELIF; TOKEN_PP_ELSE; TOKEN_ENDIF] t.

Lemma line_end_ge (tokens : list Token) (line : Z) (i : nat) : (i <= line_end tokens line i)%nat.
Proof. unfold line_end. lia. Qed.

Lemma line_end_gt (tokens : list Token) (tok : Token) (i : nat) :
  tokens !! i = Some tok -> tok_type tok <> TOKEN_EOF ->
  (S i <= line_end tokens (token_line tokens i) i)%nat.
Proof.
  intros Hi Hne. unfold line_end, token_line. rewrite Hi, (drop_S _ _ _ Hi). simpl.
  assert (on_line (tok_line tok) tok = true) as ->.
  { unfold on_line. rewrite Z.eqb_refl. destruct (tt_eqb _ _) eqn:E; [|done].
    by apply tt_eqb_spec in E. }
  destruct (span _ _). simpl. lia.
Qed.

Lemma skip_to_line_end_ge (tokens : list Token) (tok : Token) (i : nat) :
  tokens !! i = Some tok -> tok_type tok <> TOKEN_EOF -> (i <= skip_to_line_end tokens i)%nat.
Proof. intros Hi Hne. unfold skip_to_line_end. pose proof (line_end_gt _ _ _ Hi Hne). lia. Qed.

(** C10: in a group that is not live, no token but a conditional directive does anything: the
    host state, the pending tokens and the stack stay, the cursor moves on.  A nested
    [#if] is not evaluated either: it only opens a group that is not live. *)
Theorem inactive_group_is_inert (tokens : list Token) (i : nat) (tok : Token) (d : Driver) :
  conditional_stack_is_active (cs_frames (d_cond d)) = false -> tokens !! i = Some tok ->
  (is_conditional_directive (tok_type tok) = false ->
   exists j, driver_step tokens i d = inr (d, j) /\ (i <= j)%nat) /\
  (forall pp, exists j, process_if pp tokens i (d_cond d)
     = inr (pp, j, push_conditional (d_cond d) (mkFrame false false false false)) /\ (i <= j)%nat).
Proof.
  intros Hina Hi. split.
  - intros Hty. unfold driver_step, active_directive, other_directive, active_directive.
    rewrite Hi, Hina.
    assert (tok_type tok <> TOKEN_EOF -> (i <= skip_to_line_end tokens i)%nat) as Hskip
      by (by apply skip_to_line_end_ge).
    destruct (tok_type tok); try discriminate Hty; try (by eexists);
      try (eexists; split; [reflexivity|]; by apply Hskip).
    destruct d as [pp ch c]. cbn [d_pp d_chunk d_cond].
    repeat case_match; eexists; (split; [reflexivity|]); by apply Hskip.
  - intros pp. unfold process_if. rewrite Hina. cbn [try andb]. eexists. split; [reflexivity|].
    pose proof (line_end_ge tokens (token_line tokens i) (S i)). lia.
Qed.

(** *** Termination *)

(** What the loop needs of the host: no handler moves the cursor back. *)
Class PPHostLaws : Prop := {
  process_define_advances pp tokens i pp' j :
    process_define pp tokens i = inr (pp', j) -> (i <= j)%nat;
  process_include_advances pp tokens i b pp' j :
    process_include pp tokens i b = inr (pp', j) -> (i <= j)%nat;
  process_undef_advances pp tokens i pp' j :
    process_undef pp tokens i = inr (pp', j) -> (i <= j)%nat;
  process_pragma_advances pp tokens i pp' j :
    process_pragma pp tokens i = inr (pp', j) -> (i <= j)%nat;
  process_line_directive_advances pp tokens i pp' j :
    process_line_directive pp tokens i = inr (pp', j) -> (i <= j)%nat
}.

Lemma active_directive_advances (d d' : Driver) (tokens : list Token) (i j : nat) (b : bool)
    (tok : Token) (run : PP -> PP + PP * nat) :
  tokens !! i = Some tok -> tok_type tok <> TOKEN_EOF ->
  (forall pp pp' j, run pp = inr (pp', j) -> (i <= j)%nat) ->
  active_directive d tokens i b run = inr (d', j) -> (i <= j)%nat.
Proof.
  intros Hi Hne Hrun. unfold active_directive. case_match.
  - intros H1. step_inr H1 x1 E1. step_inr H1 x2 E2. step_inr H1 x3 E3.
    destruct x3. simplify_eq. by eapply Hrun.
  - intros [= _ <-]. by eapply skip_to_line_end_ge.
Qed.

Lemma conditional_directive_advances (d d' : Driver) (i j : nat)
    (run : PP -> PP + PP * nat * CondStack) :
  conditional_directive d run = inr (d', j) ->
  (forall pp pp' s' j, run pp = inr (pp', j, s') -> (i <= j)%nat) -> (i <= j)%nat.
Proof.
  unfold conditional_directive. intros H1 Hrun. step_inr H1 x1 E1. step_inr H1 x2 E2.
  destruct x2 as [[pp' i'] s']. simplify_eq. by eapply Hrun.
Qed.

Lemma process_if_advances (pp pp' : PP) (tokens : list Token) (i j : nat) (s s' : CondStack) :
  process_if pp tokens i s = inr (pp', j, s') -> (i <= j)%nat.
Proof.
  unfold process_if. intros H1. step_inr H1 r Hr. destruct r. simplify_eq.
  pose proof (line_end_ge tokens (token_line tokens i) (S i)). lia.
Qed.

Lemma process_ifdeflike_advances (pp pp' : PP) (tokens : list Token) (i j : nat) (neg : bool)
    (s s' : CondStack) :
  process_ifdeflike pp tokens i s neg = inr (pp', j, s') -> (i <= j)%nat.
Proof.
  unfold process_ifdeflike. destruct (tokens !! S i) as [tok|]; [|done].
  destruct (_ || _); [done|].
  pose proof (line_end_ge tokens (token_line tokens i) (S (S i))).
  destruct (tokens !! S (S i)) as [t|]; [destruct (on_line _ t); [done|]|];
    intros H1; injection H1 as _ <- _; lia.
Qed.

Lemma process_elif_advances (pp pp' : PP) (tokens : list Token) (i j : nat) (s s' : CondStack) :
  process_elif pp tokens i s = inr (pp', j, s') -> (i <= j)%nat.
Proof.
  unfold process_elif. destruct (cs_frames s) as [|f outer].
  { intros H1%misplaced_inr. by simplify_eq. }
  destruct (sawElse f); [intros H1%misplaced_inr; by simplify_eq|].
  intros H1. step_inr H1 r Hr. destruct r. simplify_eq.
  pose proof (line_end_ge tokens (token_line tokens i) (S i)). lia.
Qed.

Lemma pp_skip_pragma_operator_advances (tokens : list Token) (i j : nat) :
  pp_skip_pragma_operator tokens i = Some j -> (i <= j)%nat.
Proof.
  unfold pp_skip_pragma_operator. destruct (tokens !! i); [|done]. case_match; [|done].
  repeat case_match; intros; simplify_eq; lia.
Qed.

Lemma driver_step_advances `{!PPHostLaws} (tokens : list Token) (i j : nat) (d d' : Driver) :
  driver_step tokens i d = inr (d', j) -> (i <= j)%nat.
Proof.
  unfold driver_step. destruct (tokens !! i) as [tok|] eqn:Hi; [|by intros [= _ <-]].
  assert (tok_type tok <> TOKEN_EOF -> (i <= skip_to_line_end tokens i)%nat) as Hskip
    by (by apply skip_to_line_end_ge).
  intros H1. destruct (tok_type tok) eqn:Ety;
    try (eapply active_directive_advances; [exact Hi|congruence| |exact H1]; intros pp1 pp' j';
      first [apply process_define_advances | apply process_include_advances
            | apply process_undef_advances | apply process_pragma_advances]);
    try (repeat case_match; simplify_eq; (done || by eapply pp_skip_pragma_operator_advances));
    try (eapply conditional_directive_advances; [exact H1|]; intros pp1 pp' s' j' Hrun;
      cbv beta in Hrun;
      first [by eapply process_if_advances | by eapply process_ifdeflike_advances
            | by eapply process_elif_advances
            | destruct (pp_directive_has_trailing_tokens _ _); [done|]]).
  - step_inr Hrun r1 Hr1. step_inr Hrun r2 Hr2. destruct r2 as [pp2 s2]. simplify_eq. by apply Hskip.
  - unfold other_directive in H1. case_match.
    + eapply active_directive_advances; [exact Hi|congruence| |exact H1]. intros pp1 pp' j'.
      apply process_line_directive_advances.
    + repeat case_match; simplify_eq; by apply Hskip.
  - step_inr Hrun r1 Hr1. destruct r1 as [pp2 s2]. simplify_eq. by apply Hskip.
Qed.

Lemma driver_loop_total `{!PPHostLaws} (fuel : nat) (tokens : list Token) (i : nat) (d : Driver) :
  (length tokens - i <= fuel)%nat -> is_Some (driver_loop fuel tokens i d).
Proof.
  revert i d. induction fuel as [|fuel IH]; intros i d Hf; simpl.
  - rewrite decide_True by lia. eauto.
  - case_decide; [eauto|]. destruct (driver_step tokens i d) as [pp|[d' j]] eqn:E; [eauto|].
    apply IH. apply driver_step_advances in E. lia.
Qed.

(** With a host that never moves the cursor back, the driver terminates on every token
    list: as many iterations as there are tokens suffice. *)
Theorem preprocess_tokens_terminates `{!PPHostLaws} (pp : PP) (tokens : list Token) :
  is_Some (preprocess_tokens pp tokens).
Proof.
  unfold preprocess_tokens.
  destruct (driver_loop_total (length tokens) tokens 0 (mkDriver pp [] cs_empty)) as [r ->]; [lia|].
  simpl. eauto.
Qed.

End DriverProofs.

(** ** A small host, and the theorems at it *)

(** It collects flushed tokens and reported messages, and skips other directives' lines. *)
Record Sink := mkSink { sink_table : MacroTable; sink_output : list Token; sink_messages : list string }.

Definition sink_skip (pp : Sink) (tokens : list Token) (i : nat) : Sink + Sink * nat :=
  inr (pp, Nat.max i (skip_to_line_end tokens i)).

#[export] Instance sink_host : PPHost Sink := {
  pp_table := sink_table;
  lenientMissingIncludes _ := false;
  preserveDirectives _ := false;
  pp_report_diag pp _ _ what := mkSink (sink_table pp) (sink_output pp) (what :: sink_messages pp);
  pp_prepare_expr_tokens pp tokens := inr (pp, tokens);
  pp_flush_tokens pp chunk := inr (mkSink (sink_table pp) (sink_output pp ++ chunk) (sink_messages pp));
  pp_append_directive_line pp _ _ := inr pp;
  process_define := sink_skip;
  process_include pp tokens i _ := sink_skip pp tokens i;
  process_undef := sink_skip;
  process_pragma := sink_skip;
  process_line_directive := sink_skip
}.

Lemma sink_skip_advances (pp pp' : Sink) (tokens : list Token) (i j : nat) :
  sink_skip pp tokens i = inr (pp', j) -> (i <= j)%nat.
Proof. intros [= _ <-]. lia. Qed.

#[export] Instance sink_host_laws : @PPHostLaws Sink sink_host.
Proof. split; intros *; apply sink_skip_advances. Qed.

Definition empty_sink : Sink := mkSink macro_table_create [] [].

(** [#if 0], [a], [#elif 1], [b], [#else], [c], [#endif], one per line. *)
Definition sample_section : list Token :=
  [plain_token TOKEN_PP_IF "if" 1; plain_token TOKEN_NUMBER "0" 1;
   plain_token TOKEN_IDENTIFIER "a" 2;
   plain_token TOKEN_PP_ELIF "elif" 3; plain_token TOKEN_NUMBER "1" 3;
   plain_token TOKEN_IDENTIFIER "b" 4;
   plain_token TOKEN_PP_ELSE "else" 5;
   plain_token TOKEN_IDENTIFIER "c" 6;
   plain_token TOKEN_ENDIF "endif" 7; plain_token TOKEN_EOF "" 8].

Example sample_section_output :
  preprocess_tokens empty_sink sample_section
  = Some (mkSink macro_table_create [plain_token TOKEN_IDENTIFIER "b" 4] [], true).
Proof. by vm_compute. Qed.

Definition if0_stack : CondStack := push_conditional cs_empty (mkFrame true false false false).

Definition if0_state : Driver := mkDriver empty_sink [] if0_stack.

Lemma driver_active_iff_all_groups_active_witness :
  (parentActive (mkFrame true false false false) = all_selected []) /\
  driver_step sample_section 2 if0_state = inr (if0_state, 2%nat).
Proof.
  destruct (driver_active_iff_all_groups_active sample_section empty_sink 2 if0_state) as (Hframes & Htext & _).
  { eapply (reach_step _ _ 0 1); [apply reach_start|simpl; lia|by vm_compute]. }
  split; [exact (proj1 (Hframes [] _ [] eq_refl))|].
  exact (Htext _ eq_refl eq_refl eq_refl).
Defined.

Lemma section_selects_one_branch_witness :
  exists pp s, run_section empty_sink sample_section 0 [3%nat] cs_empty
    = inr (pp, s, [false; true; false]) /\ live_branches [false; true; false] = 1%nat.
Proof.
  do 2 eexists. split; [vm_compute; reflexivity|].
  eapply (section_selects_one_branch sample_section 0 [3%nat] empty_sink _ cs_empty).
  vm_compute. reflexivity.
Defined.

Lemma inactive_group_is_inert_witness :
  exists j, driver_step sample_section 2 (mkDriver empty_sink [] if0_stack)
    = inr (mkDriver empty_sink [] if0_stack, j) /\ (2 <= j)%nat.
Proof.
  eapply (inactive_group_is_inert sample_section 2 _ (mkDriver empty_sink [] if0_stack));
    [reflexivity|reflexivity|reflexivity].
Defined.

Lemma preprocess_tokens_terminates_witness :
  is_Some (preprocess_tokens empty_sink sample_section).
Proof. apply (preprocess_tokens_terminates empty_sink sample_section). Defined.

(** A malformed [#ifdef] in a group that is skipped is still an error. *)
Example skipped_ifdef_is_checked :
  snd <$> preprocess_tokens empty_sink
    [plain_token TOKEN_PP_IF "if" 1; plain_token TOKEN_NUMBER "0" 1;
     plain_token TOKEN_IFDEF "ifdef" 2; plain_token TOKEN_NUMBER "1" 2;
     plain_token TOKEN_ENDIF "endif" 3; plain_token TOKEN_ENDIF "endif" 4;
     plain_token TOKEN_EOF "" 5] = Some false.
Proof. by vm_compute. Qed.
