(* ===== verification/PPIncludeStack.v ===== *)
(** * The stack of files being included (src/Preprocessor/preprocessor_utils.c).

    [IncludeStack] is the struct [includeStack] of the C [Preprocessor]: the frames in the
    order they were pushed, and the open-addressing table with tombstones that answers
    whether a path is on the stack.  [None] is a probe that never ends or a read outside of
    the table; allocation failure is not modelled.  Under [stack_wf] neither happens, and
    the table counts each path of the frames. *)
From S2P Require Import Prelude.

Inductive IncludeSearchOrigin : Set :=
  | INCLUDE_SEARCH_SAME_DIR | INCLUDE_SEARCH_INCLUDE_PATH | INCLUDE_SEARCH_RAW.

#[export] Instance IncludeSearchOrigin_eq_dec : EqDecision IncludeSearchOrigin.
Proof. solve_decision. Defined.

Record PPIncludeFrame := mkPPIncludeFrame {
  frame_path : string;
  frame_origin : IncludeSearchOrigin;
  frame_originIndex : Z
}.

Inductive SlotState : Set :=
  | PP_INCLUDE_STACK_SLOT_EMPTY | PP_INCLUDE_STACK_SLOT_ACTIVE | PP_INCLUDE_STACK_SLOT_TOMBSTONE.

#[export] Instance SlotState_eq_dec : EqDecision SlotState.
Proof. solve_decision. Defined.

(** One index of [memberPaths], [memberCounts] and [memberStates]. *)
Record Member := mkMember { mb_path : option string; mb_count : nat; mb_state : SlotState }.

Definition empty_member : Member := mkMember None 0 PP_INCLUDE_STACK_SLOT_EMPTY.

Record IncludeStack := mkIncludeStack {
  inc_frames : list PPIncludeFrame;
  inc_capacity : nat;
  inc_members : list Member;
  inc_tombstones : nat
}.

Definition empty_include_stack : IncludeStack := mkIncludeStack [] 0 [] 0.

Definition inc_depth (st : IncludeStack) : nat := length (inc_frames st).

(** ** The operations *)

Definition pp_hash_bytes (text : string) : Z :=
  foldl (fun hash c => u64 (Z.lxor hash (Z.of_N (N_of_ascii c)) * 1099511628211)) 1469598103934665603
    (list_ascii_of_string text).

(** The first slot probed and the slot after [slot]: [& mask]. *)
Definition first_slot (capacity : nat) (path : string) : nat :=
  Z.to_nat (Z.land (pp_hash_bytes path) (Z.of_nat capacity - 1)).
Definition next_slot (capacity slot : nat) : nat :=
  Z.to_nat (Z.land (Z.of_nat slot + 1) (Z.of_nat capacity - 1)).

Definition is_member (m : Member) (path : string) : bool :=
  bool_decide (mb_state m = PP_INCLUDE_STACK_SLOT_ACTIVE) && bool_decide (mb_path m = Some path).

(** [fuel] probes: the slot, and whether it is the path's. *)
Fixpoint find_slot_loop (fuel : nat) (members : list Member) (path : string) (slot : nat)
    (firstTombstone : option nat) : option (nat * bool) :=
  match fuel with
  | O => None
  | S fuel' =>
      m ← members !! slot;
      let next := next_slot (length members) slot in
      match mb_state m with
      | PP_INCLUDE_STACK_SLOT_EMPTY => Some (default slot firstTombstone, false)
      | PP_INCLUDE_STACK_SLOT_TOMBSTONE =>
          find_slot_loop fuel' members path next
            (match firstTombstone with None => Some slot | Some _ => firstTombstone end)
      | PP_INCLUDE_STACK_SLOT_ACTIVE =>
          if is_member m path then Some (slot, true)
          else find_slot_loop fuel' members path next firstTombstone
      end
  end.

(** After as many probes as there are slots the loop only repeats. *)
Definition pp_include_stack_find_slot (members : list Member) (path : string) : option (nat * bool) :=
  find_slot_loop (length members) members path (first_slot (length members) path) None.

(** The active entries of the old table, put into the new one. *)
Fixpoint rehash_members (old : list Member) (members : list Member) : option (list Member) :=
  match old with
  | [] => Some members
  | m :: old' =>
      match mb_state m, mb_path m with
      | PP_INCLUDE_STACK_SLOT_ACTIVE, Some path =>
          if decide (mb_count m = 0%nat) then rehash_members old' members
          else
            '(slot, _) ← pp_include_stack_find_slot members path;
            rehash_members old' (<[slot := mkMember (Some path) (mb_count m) PP_INCLUDE_STACK_SLOT_ACTIVE]> members)
      | _, _ => rehash_members old' members
      end
  end.

Definition pp_include_stack_member_rehash (st : IncludeStack) (newCapacity : nat) : option IncludeStack :=
  members ← rehash_members (inc_members st) (replicate newCapacity empty_member);
  Some (mkIncludeStack (inc_frames st) (inc_capacity st) members 0).

(** [while (need > capacity) capacity *= 2], at most [fuel] times. *)
Fixpoint double_until (fuel need capacity : nat) : nat :=
  match fuel with
  | O => capacity
  | S fuel' => if decide (need <= capacity)%nat then capacity else double_until fuel' need (capacity * 2)
  end.

Definition pp_include_stack_member_ensure_capacity (st : IncludeStack) (nextDepth : nat) : option IncludeStack :=
  let capacity := length (inc_members st) in
  if decide (capacity = 0%nat) then pp_include_stack_member_rehash st 16
  else
    let load := ((inc_depth st + inc_tombstones st + 1) * 2)%nat in
    if decide (load <= capacity /\ nextDepth * 2 <= capacity)%nat then Some st
    else
      let newCapacity := double_until ((nextDepth + 1) * 2) ((nextDepth + 1) * 2) capacity in
      let newCapacity := if decide (newCapacity < load)%nat then (newCapacity * 2)%nat else newCapacity in
      pp_include_stack_member_rehash st newCapacity.

Definition pp_include_stack_push (st : IncludeStack) (path : string) (origin : IncludeSearchOrigin)
    (originIndex : Z) : option IncludeStack :=
  let st := mkIncludeStack (inc_frames st) (grow_capacity 4 (inc_depth st) (inc_capacity st)) (inc_members st)
              (inc_tombstones st) in
  st ← pp_include_stack_member_ensure_capacity st (inc_depth st + 1);
  '(slot, found) ← pp_include_stack_find_slot (inc_members st) path;
  m ← inc_members st !! slot;
  let tombstones :=
    if negb found && bool_decide (mb_state m = PP_INCLUDE_STACK_SLOT_TOMBSTONE) &&
       bool_decide (0 < inc_tombstones st)%nat
    then (inc_tombstones st - 1)%nat else inc_tombstones st in
  Some (mkIncludeStack (inc_frames st ++ [mkPPIncludeFrame path origin originIndex]) (inc_capacity st)
          (<[slot := mkMember (Some path) (mb_count m + 1) PP_INCLUDE_STACK_SLOT_ACTIVE]> (inc_members st)) tombstones).

Definition pp_include_stack_top (st : IncludeStack) : option PPIncludeFrame := list.last (inc_frames st).

Definition pp_include_stack_pop (st : IncludeStack) : option IncludeStack :=
  match pp_include_stack_top st with
  | None => Some st
  | Some top =>
      let frames := take (inc_depth st - 1) (inc_frames st) in
      if decide (length (inc_members st) = 0%nat)
      then Some (mkIncludeStack frames (inc_capacity st) (inc_members st) (inc_tombstones st))
      else
        '(slot, found) ← pp_include_stack_find_slot (inc_members st) (frame_path top);
        m ← inc_members st !! slot;
        let '(members, tombstones) :=
          if (found : bool) && bool_decide (0 < mb_count m)%nat then
            if decide (mb_count m - 1 = 0)%nat
            then (<[slot := mkMember None 0 PP_INCLUDE_STACK_SLOT_TOMBSTONE]> (inc_members st),
                  S (inc_tombstones st))
            else (<[slot := mkMember (mb_path m) (mb_count m - 1) (mb_state m)]> (inc_members st),
                  inc_tombstones st)
          else (inc_members st, inc_tombstones st) in
        Some (mkIncludeStack frames (inc_capacity st) members tombstones)
  end.

Definition pp_include_stack_contains (st : IncludeStack) (path : string) : option bool :=
  if decide (length (inc_members st) = 0%nat) then Some false
  else
    '(slot, found) ← pp_include_stack_find_slot (inc_members st) path;
    m ← inc_members st !! slot;
    Some (found && bool_decide (0 < mb_count m)%nat).

Example nested_include :
  (st ← pp_include_stack_push empty_include_stack "a.h" INCLUDE_SEARCH_RAW 0;
  st ← pp_include_stack_push st "b.h" INCLUDE_SEARCH_RAW 0;
  st ← pp_include_stack_push st "a.h" INCLUDE_SEARCH_RAW 0;
  st ← pp_include_stack_pop st;
  a ← pp_include_stack_contains st "a.h";
  st ← pp_include_stack_pop st;
  b ← pp_include_stack_contains st "b.h";
  Some (a, b, inc_tombstones st)) = Some (true, false, 1%nat).
Proof. by vm_compute. Qed.

(** ** The invariant *)

Definition is_used (m : Member) : bool := negb (bool_decide (mb_state m = PP_INCLUDE_STACK_SLOT_EMPTY)).
Definition is_tombstone (m : Member) : bool := bool_decide (mb_state m = PP_INCLUDE_STACK_SLOT_TOMBSTONE).

(** The path and the count of an active slot. *)
Definition entry (m : Member) : option (string * nat) :=
  match mb_state m with
  | PP_INCLUDE_STACK_SLOT_ACTIVE => path ← mb_path m; Some (path, mb_count m)
  | _ => None
  end.

Definition entries (members : list Member) : list (string * nat) := omap entry members.

Definition member_ok (m : Member) : Prop :=
  match mb_state m with
  | PP_INCLUDE_STACK_SLOT_ACTIVE => is_Some (mb_path m)
  | _ => mb_count m = 0%nat
  end.

(** The [i]-th slot probed. *)
Definition probe (members : list Member) (path : string) (i : nat) : nat :=
  ((first_slot (length members) path + i) mod length members)%nat.

(** Slot [j] is on the path's probe sequence, behind used slots only. *)
Definition on_path (members : list Member) (path : string) (j : nat) : Prop :=
  exists i, (i < length members)%nat /\ j = probe members path i /\
    forall k m, (k < i)%nat -> members !! probe members path k = Some m -> is_used m = true.

Record members_ok (members : list Member) : Prop := {
  tb_size : exists n, length members = (2 ^ n)%nat;
  tb_members : Forall member_ok members;
  tb_names : NoDup (entries members).*1;
  tb_path : forall path j m, members !! j = Some m -> is_member m path = true -> on_path members path j;
  tb_room : (count_if is_used members < length members)%nat
}.

(** How often a path is on the stack. *)
Definition occurrences (frames : list PPIncludeFrame) (path : string) : nat :=
  count_if (fun f => bool_decide (frame_path f = path)) frames.

Definition stack_wf (st : IncludeStack) : Prop :=
  (st = mkIncludeStack [] (inc_capacity st) [] 0) \/
  (members_ok (inc_members st) /\
   inc_tombstones st = count_if is_tombstone (inc_members st) /\
   ((inc_depth st + inc_tombstones st) * 2 <= length (inc_members st))%nat /\
   forall path n, (path, n) ∈ entries (inc_members st) <-> n = occurrences (inc_frames st) path /\ (0 < n)%nat).

(** ** Probing *)

Lemma land_mask (n : nat) (z : Z) : 0 <= z -> Z.to_nat (Z.land z (Z.of_nat (2 ^ n) - 1)) = Z.to_nat (z mod Z.of_nat (2 ^ n)).
Proof.
  intros Hz. rewrite Nat2Z.inj_pow. change (Z.of_nat 2) with 2.
  replace (2 ^ Z.of_nat n - 1) with (Z.ones (Z.of_nat n)) by (rewrite Z.ones_equiv; lia).
  by rewrite Z.land_ones by lia.
Qed.

Lemma hash_nonneg (path : string) : 0 <= pp_hash_bytes path.
Proof.
  unfold pp_hash_bytes. generalize (list_ascii_of_string path). intros l.
  assert (0 <= 1469598103934665603) as H by lia. revert H. generalize 1469598103934665603.
  induction l as [|c l IH]; intros z Hz; simpl; [done|]. apply IH, wrapU_range. lia.
Qed.

Lemma next_probe (members : list Member) (path : string) (i : nat) :
  (exists n, length members = (2 ^ n)%nat) ->
  next_slot (length members) (probe members path i) = probe members path (S i).
Proof.
  intros [n Hn]. unfold next_slot, probe. rewrite Hn, land_mask by lia.
  assert (2 ^ n <> 0)%nat by (by apply Nat.pow_nonzero).
  replace (Z.of_nat ((first_slot (2 ^ n) path + i) mod 2 ^ n) + 1)
    with (Z.of_nat ((first_slot (2 ^ n) path + i) mod 2 ^ n + 1)) by lia.
  rewrite <- Nat2Z.inj_mod, Nat2Z.id.
  rewrite Nat.Div0.add_mod_idemp_l. f_equal. lia.
Qed.

Lemma probe_lt (members : list Member) (path : string) (i : nat) :
  (0 < length members)%nat -> (probe members path i < length members)%nat.
Proof. intros. apply Nat.mod_upper_bound. lia. Qed.

Lemma probe_0 (members : list Member) (path : string) :
  (exists n, length members = (2 ^ n)%nat) -> probe members path 0 = first_slot (length members) path.
Proof.
  intros [n Hn]. unfold probe. rewrite Nat.add_0_r. apply Nat.mod_small.
  unfold first_slot. rewrite Hn, land_mask by apply hash_nonneg.
  assert (2 ^ n <> 0)%nat by (by apply Nat.pow_nonzero).
  pose proof (Z.mod_pos_bound (pp_hash_bytes path) (Z.of_nat (2 ^ n)) ltac:(lia)). lia.
Qed.

(** Every slot is probed. *)
Lemma stack_probe_onto (members : list Member) (path : string) (j : nat) :
  (j < length members)%nat -> exists i, (i < length members)%nat /\ probe members path i = j.
Proof.
  intros Hj. set (n := length members) in *. set (h := (first_slot n path mod n)%nat).
  assert (h < n)%nat as Hh by (apply Nat.mod_upper_bound; lia).
  exists ((j + (n - h)) mod n)%nat. split; [apply Nat.mod_upper_bound; lia|].
  unfold probe. fold n. rewrite Nat.Div0.add_mod_idemp_r, <- Nat.Div0.add_mod_idemp_l.
  fold h. replace (h + (j + (n - h)))%nat with (j + 1 * n)%nat by lia.
  rewrite Nat.Div0.mod_add. by apply Nat.mod_small.
Qed.

Lemma room_empty (members : list Member) :
  (count_if is_used members < length members)%nat -> exists j m, members !! j = Some m /\ is_used m = false.
Proof.
  induction members as [|m members IH]; simpl; [lia|]. rewrite count_if_cons.
  destruct (is_used m) eqn:E; [|intros _; by exists 0%nat, m].
  intros H. destruct IH as (j & m' & Hj & Hm); [lia|]. by exists (S j), m'.
Qed.

Lemma is_member_used (m : Member) (path : string) : is_member m path = true -> is_used m = true.
Proof. unfold is_member, is_used. intros [H _]%andb_true_iff. apply bool_decide_eq_true in H. by rewrite H. Qed.

Section Table.
Context (members : list Member) (Hok : members_ok members).

Lemma table_pos : (0 < length members)%nat.
Proof. destruct (tb_size _ Hok) as [n ->]. assert (2 ^ n <> 0)%nat by (by apply Nat.pow_nonzero). lia. Qed.

Lemma is_member_entry (m : Member) (path : string) :
  is_member m path = true <-> entry m = Some (path, mb_count m).
Proof.
  unfold is_member, entry. rewrite andb_true_iff, !bool_decide_eq_true. split.
  - intros [-> ->]. done.
  - destruct (mb_state m); [done| |done]. destruct (mb_path m); [|done]. intros [= ->]. done.
Qed.

Lemma member_in_entries (path : string) (j : nat) (m : Member) :
  members !! j = Some m -> is_member m path = true -> (path, mb_count m) ∈ entries members.
Proof.
  intros Hj Hm%is_member_entry. apply list_elem_of_omap. exists m. split; [by eapply list_elem_of_lookup_2|done].
Qed.

(** What the search returns. *)
Lemma stack_find_slot_spec (path : string) :
  exists j b m, pp_include_stack_find_slot members path = Some (j, b) /\ members !! j = Some m /\
    on_path members path j /\
    if (b : bool) then is_member m path = true
    else mb_state m <> PP_INCLUDE_STACK_SLOT_ACTIVE /\
         forall k m', members !! k = Some m' -> is_member m' path = false.
Proof.
  pose proof (tb_size _ Hok) as Hsize. pose proof table_pos as Hpos.
  destruct (room_empty members (tb_room _ Hok)) as (je & me & Hje & Hme).
  destruct (stack_probe_onto members path je) as (ie & Hie & Hpe); [by eapply lookup_lt_Some|].
  assert (forall fuel i ft,
    (i + fuel = length members)%nat ->
    (forall k m, (k < i)%nat -> members !! probe members path k = Some m ->
       is_used m = true /\ is_member m path = false) ->
    (forall t, ft = Some t -> exists k m, (k < i)%nat /\ t = probe members path k /\
       members !! t = Some m /\ mb_state m = PP_INCLUDE_STACK_SLOT_TOMBSTONE) ->
    exists j b m, find_slot_loop fuel members path (probe members path i) ft = Some (j, b) /\
      members !! j = Some m /\ on_path members path j /\
      if (b : bool) then is_member m path = true
      else mb_state m <> PP_INCLUDE_STACK_SLOT_ACTIVE /\
           forall k m', members !! k = Some m' -> is_member m' path = false) as Hloop.
  { induction fuel as [|fuel IH]; intros i ft Hi Hpast Hft.
    { destruct (Hpast ie me) as [Hu _]; [lia|by rewrite Hpe|]. congruence. }
    cbn [find_slot_loop].
    destruct (lookup_lt_is_Some_2 members (probe members path i)) as [m Hm]; [by apply probe_lt|].
    rewrite Hm. cbn [mbind option_bind]. rewrite next_probe by done.
    assert (on_path members path (probe members path i)) as Hon.
    { exists i. split_and!; [lia|done|]. intros k m' Hk Hm'. by apply (Hpast k m' Hk). }
    assert (forall ft', is_used m = true -> is_member m path = false ->
      (forall t, ft' = Some t -> exists k m, (k < S i)%nat /\ t = probe members path k /\
       members !! t = Some m /\ mb_state m = PP_INCLUDE_STACK_SLOT_TOMBSTONE) ->
      exists j b m, find_slot_loop fuel members path (probe members path (S i)) ft' = Some (j, b) /\
      members !! j = Some m /\ on_path members path j /\
      if (b : bool) then is_member m path = true
      else mb_state m <> PP_INCLUDE_STACK_SLOT_ACTIVE /\
           forall k m', members !! k = Some m' -> is_member m' path = false) as Hnext.
    { intros ft' Hu Hnot Hft'. apply IH; [lia| |done]. intros k m' Hk Hm'.
      destruct (decide (k = i)) as [->|]; [by simplify_eq|]. apply (Hpast k); [lia|done]. }
    destruct (mb_state m) eqn:Es.
    - assert (forall k m', members !! k = Some m' -> is_member m' path = false) as Hnone.
      { intros k m' Hk. destruct (is_member m' path) eqn:E; [|done].
        destruct (tb_path _ Hok path k m' Hk E) as (i' & Hi' & -> & Hbefore).
        destruct (decide (i' < i)%nat); [by destruct (Hpast i' m'); congruence|].
        destruct (decide (i' = i)) as [->|].
        - simplify_eq. apply is_member_used in E. unfold is_used in E. by rewrite Es in E.
        - specialize (Hbefore i m ltac:(lia) Hm). unfold is_used in Hbefore. by rewrite Es in Hbefore. }
      destruct ft as [t|]; simpl.
      + destruct (Hft t eq_refl) as (k & mt & Hk & -> & Hmt & Hst).
        exists (probe members path k), false, mt. split_and!; [done|done| |congruence|done].
        exists k. split_and!; [lia|done|]. intros k' m' Hk' Hm'. apply (Hpast k'); [lia|done].
      + exists (probe members path i), false, m. split_and!; [done..|congruence|done].
    - destruct (is_member m path) eqn:E; [by exists (probe members path i), true, m|].
      apply Hnext; [unfold is_used; by rewrite Es|done|]. intros t Ht.
      destruct (Hft t Ht) as (k & mt & Hk & ?). exists k, mt. split; [lia|done].
    - apply Hnext; [unfold is_used; by rewrite Es|unfold is_member; by rewrite Es|].
      intros t Ht. destruct ft as [t'|]; simplify_eq.
      + destruct (Hft t eq_refl) as (k & mt & Hk & ?). exists k, mt. split; [lia|done].
      + exists i, m. split_and!; [lia|done..]. }
  unfold pp_include_stack_find_slot. rewrite <- (probe_0 members path) by done.
  apply Hloop; [lia|lia|done].
Qed.

(** *** Writing a slot *)

(** The entries behind one slot. *)
Lemma entries_update (j : nat) (m : Member) :
  members !! j = Some m -> exists rest, entries members ≡ₚ option_list (entry m) ++ rest /\
    forall m', entries (<[j := m']> members) ≡ₚ option_list (entry m') ++ rest.
Proof.
  intros Hj. exists (entries (take j members) ++ entries (drop (S j) members)).
  assert (forall x, members !! j = Some m -> entries (take j members ++ x :: drop (S j) members) ≡ₚ
    option_list (entry x) ++ entries (take j members) ++ entries (drop (S j) members)) as H.
  { intros x _. unfold entries. rewrite omap_app. simpl.
    destruct (entry x); simpl; [|done]. symmetry. apply Permutation_middle. }
  split.
  - rewrite <- (take_drop_middle members j m Hj) at 1. by apply H.
  - intros m'. rewrite insert_take_drop by (by eapply lookup_lt_Some). by apply H.
Qed.

Lemma stack_path_insert (path : string) (j k : nat) (m : Member) :
  is_used m = true -> on_path members path k -> on_path (<[j := m]> members) path k.
Proof.
  intros Hu (i & Hi & -> & Hb). exists i. unfold probe in *. rewrite length_insert. split_and!; [done..|].
  intros k' m' Hk' Hm'. destruct (decide (j = (first_slot (length members) path + k') mod length members)%nat) as [->|Hne].
  - rewrite list_lookup_insert_eq in Hm' by (by apply probe_lt, table_pos). by simplify_eq.
  - rewrite list_lookup_insert_ne in Hm' by done. by eapply Hb.
Qed.

(** A used slot keeps the table correct if it holds no path, or a path it may hold. *)
Lemma write_ok (j : nat) (m m' : Member) :
  members !! j = Some m -> is_used m' = true -> member_ok m' ->
  (forall path, is_member m' path = true -> on_path members path j /\
     forall k mk, members !! k = Some mk -> is_member mk path = true -> k = j) ->
  (count_if is_used (<[j := m']> members) < length members)%nat ->
  members_ok (<[j := m']> members).
Proof.
  intros Hj Hu Hmo Hpath Hroom. pose proof (entries_update j m Hj) as (rest & He & He').
  split.
  - rewrite length_insert. apply (tb_size _ Hok).
  - by apply Forall_insert; [apply (tb_members _ Hok)|].
  - rewrite (He' m'), fmap_app. pose proof (tb_names _ Hok) as Hn. rewrite He, fmap_app in Hn.
    apply NoDup_app in Hn as (_ & _ & Hrest). apply NoDup_app. split_and!; [|intros p Hp Hr|done].
    { destruct (entry m') as [[p n]|]; simpl; [apply NoDup_singleton|constructor]. }
    destruct (entry m') as [[p' n']|] eqn:E; [|by apply not_elem_of_nil in Hp].
    simpl in Hp. apply list_elem_of_singleton in Hp as ->.
    assert (is_member m' p' = true) as Hm'.
    { apply is_member_entry. rewrite E. f_equal. f_equal.
      unfold entry in E. destruct (mb_state m'); [done| |done]. destruct (mb_path m'); [|done]. by injection E. }
    destruct (Hpath p' Hm') as [_ Honly].
    (* The same path elsewhere would be a second slot of the table. *)
    apply list_elem_of_fmap in Hr as ([p2 n2] & [= <-] & Hr).
    assert (entries (<[j := empty_member]> members) ≡ₚ rest) as Hrest' by (by rewrite (He' empty_member)).
    rewrite <- Hrest' in Hr. apply list_elem_of_omap in Hr as (mk & (k & Hk)%list_elem_of_lookup & Hek).
    destruct (decide (k = j)) as [->|Hne].
    { rewrite list_lookup_insert_eq in Hk by (by eapply lookup_lt_Some). by simplify_eq. }
    rewrite list_lookup_insert_ne in Hk by done. apply Hne, (Honly k mk Hk).
    apply is_member_entry. rewrite Hek. f_equal. f_equal.
    unfold entry in Hek. destruct (mb_state mk); [done| |done]. destruct (mb_path mk); [|done]. by injection Hek.
  - intros p k mk Hk Hmk. destruct (decide (k = j)) as [->|Hne].
    + rewrite list_lookup_insert_eq in Hk by (by eapply lookup_lt_Some). simplify_eq.
      apply stack_path_insert; [done|]. by apply Hpath.
    + rewrite list_lookup_insert_ne in Hk by done. apply stack_path_insert; [done|]. by eapply (tb_path _ Hok).
  - by rewrite length_insert.
Qed.

(** A path is in one slot only. *)
Lemma member_unique (path : string) (j k : nat) (m mk : Member) :
  members !! j = Some m -> is_member m path = true -> members !! k = Some mk -> is_member mk path = true -> k = j.
Proof.
  intros Hj Hm Hk Hmk. destruct (decide (k = j)) as [|Hne]; [done|exfalso].
  destruct (entries_update j m Hj) as (rest & He & He'). pose proof (tb_names _ Hok) as Hn.
  rewrite He, (proj1 (is_member_entry m path) Hm) in Hn. simpl in Hn. apply NoDup_cons in Hn as [Hn _]. apply Hn.
  apply list_elem_of_fmap. exists (path, mb_count mk). split; [done|].
  assert (entries (<[j := empty_member]> members) ≡ₚ rest) as <- by (by rewrite (He' empty_member)).
  apply list_elem_of_omap. exists mk. split; [|by apply is_member_entry].
  apply (list_elem_of_lookup_2 _ k). by rewrite list_lookup_insert_ne.
Qed.

(** The used slots are the entries and the tombstones. *)
Lemma count_used : count_if is_used members = (length (entries members) + count_if is_tombstone members)%nat.
Proof.
  pose proof (tb_members _ Hok) as H. clear Hok. induction H as [|m l Hm _ IH]; [done|].
  assert (entries (m :: l) = option_list (entry m) ++ entries l) as -> by (unfold entries; simpl; by destruct (entry m)).
  assert ((if is_used m then 1 else 0) = length (option_list (entry m)) + (if is_tombstone m then 1 else 0))%nat as Hm1.
  { revert Hm. unfold member_ok, is_used, is_tombstone, entry. destruct (mb_state m); [done| |done]. by intros [p ->]. }
  rewrite !count_if_cons, IH, length_app, Hm1. lia.
Qed.
End Table.


(** ** Rehashing *)

Lemma occurrences_app (fs : list PPIncludeFrame) (f : PPIncludeFrame) (p : string) :
  occurrences (fs ++ [f]) p = (occurrences fs p + if bool_decide (frame_path f = p) then 1 else 0)%nat.
Proof. unfold occurrences. rewrite count_if_app, count_if_cons. change (count_if _ []) with 0%nat. lia. Qed.

Lemma fresh_members_ok (n : nat) : members_ok (replicate (2 ^ n) empty_member).
Proof.
  assert (forall k, entries (replicate k empty_member) = []) as He by (induction k; [done|exact IHk]).
  assert (forall k, count_if is_used (replicate k empty_member) = 0%nat) as Hu by (induction k; [done|exact IHk]).
  split.
  - exists n. apply length_replicate.
  - by apply Forall_replicate.
  - rewrite He. constructor.
  - intros p j m [-> _]%lookup_replicate. done.
  - rewrite Hu, length_replicate. assert (2 ^ n <> 0)%nat by (by apply Nat.pow_nonzero). lia.
Qed.

Lemma rehash_ok (old members : list Member) :
  members_ok members -> count_if is_tombstone members = 0%nat -> Forall member_ok old ->
  Forall (fun e => snd e <> 0%nat) (entries old) -> NoDup ((entries old).*1 ++ (entries members).*1) ->
  (count_if is_used members + length (entries old) < length members)%nat ->
  exists members', rehash_members old members = Some members' /\ members_ok members' /\
    length members' = length members /\ count_if is_tombstone members' = 0%nat /\
    entries members' ≡ₚ entries old ++ entries members.
Proof.
  revert members. induction old as [|m old IH]; intros members Hok Htomb Hmo Hcnt Hnd Hroom.
  { by exists members. }
  apply Forall_cons in Hmo as [Hm Hmo]. cbn [rehash_members].
  assert (entries (m :: old) = option_list (entry m) ++ entries old) as Ee
    by (unfold entries; simpl; by destruct (entry m)).
  rewrite Ee in Hcnt, Hnd, Hroom |- *.
  destruct (entry m) as [[p n]|] eqn:Em.
  2:{ assert (exists members', rehash_members old members = Some members' /\ members_ok members' /\
        length members' = length members /\ count_if is_tombstone members' = 0%nat /\
        entries members' ≡ₚ entries old ++ entries members) as Hskip by (by apply IH).
      unfold entry in Em. destruct (mb_state m); [done| |done]. by destruct (mb_path m). }
  unfold entry in Em. destruct (mb_state m); [done| |done]. destruct (mb_path m) as [p'|]; [|done].
  injection Em as -> Hn. simpl in Hcnt, Hnd, Hroom. apply Forall_cons in Hcnt as [Hc0 Hcnt]. simpl in Hc0.
  rewrite decide_False by congruence. apply NoDup_cons in Hnd as [Hnew Hnd].
  destruct (stack_find_slot_spec members Hok p) as (j & b & mj & -> & Hj & Hon & Hb). cbn [mbind option_bind].
  assert (forall k mk, members !! k = Some mk -> is_member mk p = false) as Hnone.
  { intros k mk Hk. destruct (is_member mk p) eqn:E; [|done]. exfalso. apply Hnew, elem_of_app. right.
    apply list_elem_of_fmap. exists (p, mb_count mk). split; [done|]. by apply (member_in_entries members p k). }
  destruct b; [by rewrite (Hnone _ _ Hj) in Hb|]. destruct Hb as [Hst _].
  assert (is_tombstone mj = false) as Ht.
  { destruct (is_tombstone mj) eqn:E; [|done].
    pose proof (count_if_pos is_tombstone members mj ltac:(by eapply list_elem_of_lookup_2) E). lia. }
  assert (is_used mj = false) as Hu.
  { unfold is_used, is_tombstone in *. by destruct (mb_state mj). }
  set (new := mkMember (Some p) (mb_count m) PP_INCLUDE_STACK_SLOT_ACTIVE).
  pose proof (count_if_insert is_used members j mj new Hj) as Hcu. rewrite Hu in Hcu. change (is_used new) with true in Hcu.
  pose proof (count_if_insert is_tombstone members j mj new Hj) as Hct. rewrite Ht in Hct.
  change (is_tombstone new) with false in Hct.
  cbv beta iota in Hcu, Hct. destruct (entries_update members j mj Hj) as (rest & He & He').
  assert (entry mj = None) as Emj by (unfold entry; unfold is_used in Hu; by destruct (mb_state mj)).
  rewrite Emj in He. simpl in He. specialize (He' new). change (entry new) with (Some (p, mb_count m)) in He'. simpl in He'.
  destruct (IH (<[j := new]> members)) as (members' & Hr & Hok' & Hl & Htb & Hperm).
  - apply (write_ok members Hok j mj); [done..|by eexists| |lia].
    intros q Hq. apply is_member_entry in Hq. simpl in Hq. injection Hq as <-.
    split; [done|]. intros k mk Hk Hmk. by rewrite (Hnone _ _ Hk) in Hmk.
  - lia.
  - done.
  - done.
  - rewrite He', <- He, fmap_cons. simpl. rewrite <- Permutation_middle. by apply NoDup_cons.
  - rewrite length_insert. lia.
  - exists members'. rewrite length_insert in Hl. split_and!; [done..|].
    rewrite Hperm, He', <- He, <- Hn. simpl. symmetry. apply Permutation_middle.
Qed.

(** ** The operations keep the invariant *)

Definition counts (members : list Member) (frames : list PPIncludeFrame) : Prop :=
  forall path n, (path, n) ∈ entries members <-> n = occurrences frames path /\ (0 < n)%nat.

Lemma occurrences_in (frames : list PPIncludeFrame) (p : string) :
  (0 < occurrences frames p)%nat <-> p ∈ frame_path <$> frames.
Proof.
  rewrite list_elem_of_fmap. split.
  - intros (f & Hf & Hp)%count_if_exists. exists f. by apply bool_decide_eq_true in Hp.
  - intros (f & -> & Hf). apply (count_if_pos _ _ f); [done|by apply bool_decide_eq_true].
Qed.

Lemma entries_depth (members : list Member) (frames : list PPIncludeFrame) :
  members_ok members -> counts members frames -> (length (entries members) <= length frames)%nat.
Proof.
  intros Hok Hc. rewrite <- (length_fmap fst (entries members)), <- (length_fmap frame_path frames).
  apply submseteq_length, NoDup_submseteq; [apply (tb_names _ Hok)|].
  intros p ([p' n] & -> & Hp)%list_elem_of_fmap. apply Hc in Hp as [-> Hn]. by apply occurrences_in.
Qed.

Lemma double_until_spec (fuel need capacity : nat) :
  (0 < capacity)%nat -> (need <= capacity + fuel)%nat ->
  (need <= double_until fuel need capacity)%nat /\ exists k, double_until fuel need capacity = (capacity * 2 ^ k)%nat.
Proof.
  revert capacity. induction fuel as [|fuel IH]; intros capacity Hc Hn; cbn [double_until].
  { split; [lia|]. exists 0%nat. simpl. lia. }
  case_decide; [split; [done|]; exists 0%nat; simpl; lia|].
  destruct (IH (capacity * 2)%nat) as [H1 [k Hk]]; [lia..|]. split; [done|].
  exists (S k). rewrite Hk. simpl. lia.
Qed.

(** The state [pp_include_stack_push] works on. *)
Definition room_for_push (st : IncludeStack) : Prop :=
  members_ok (inc_members st) /\ inc_tombstones st = count_if is_tombstone (inc_members st) /\
  ((S (inc_depth st) + inc_tombstones st) * 2 <= length (inc_members st))%nat /\
  counts (inc_members st) (inc_frames st).

Lemma member_rehash_ok (st : IncludeStack) (n : nat) :
  Forall member_ok (inc_members st) -> NoDup (entries (inc_members st)).*1 ->
  counts (inc_members st) (inc_frames st) -> (length (entries (inc_members st)) <= inc_depth st)%nat ->
  (S (inc_depth st) * 2 <= 2 ^ n)%nat ->
  exists st', pp_include_stack_member_rehash st (2 ^ n) = Some st' /\ room_for_push st' /\
    inc_frames st' = inc_frames st.
Proof.
  intros Hmo Hnd Hc Hlen Hn. unfold pp_include_stack_member_rehash.
  assert (forall k, entries (replicate k empty_member) = []) as He by (induction k; [done|exact IHk]).
  assert (forall k, count_if is_used (replicate k empty_member) = 0%nat) as Hu by (induction k; [done|exact IHk]).
  assert (forall k, count_if is_tombstone (replicate k empty_member) = 0%nat) as Ht by (induction k; [done|exact IHk]).
  destruct (rehash_ok (inc_members st) (replicate (2 ^ n) empty_member)) as (ms & Hr & Hok & Hl & Htb & Hperm).
  - apply fresh_members_ok.
  - apply Ht.
  - done.
  - apply Forall_forall. intros [p c] Hp. apply Hc in Hp. simpl. lia.
  - by rewrite He, app_nil_r.
  - rewrite Hu, length_replicate. lia.
  - rewrite Hr. cbn [mbind option_bind]. eexists. split; [done|]. split; [|done].
    rewrite length_replicate in Hl. rewrite He, app_nil_r in Hperm.
    split_and!; [done|done|unfold inc_depth in *; simpl; lia|].
    intros p c. rewrite Hperm. apply Hc.
Qed.

Lemma ensure_capacity_ok (st : IncludeStack) (st0 : IncludeStack) :
  stack_wf st0 -> st = mkIncludeStack (inc_frames st0) (inc_capacity st) (inc_members st0) (inc_tombstones st0) ->
  exists st', pp_include_stack_member_ensure_capacity st (inc_depth st + 1) = Some st' /\ room_for_push st' /\
    inc_frames st' = inc_frames st.
Proof.
  intros Hwf Hst. unfold pp_include_stack_member_ensure_capacity.
  destruct Hwf as [E|(Hok & Ht & Hload & Hc)].
  - rewrite E in Hst. rewrite Hst. simpl. apply (member_rehash_ok (mkIncludeStack [] (inc_capacity st) [] 0) 4);
      [constructor|constructor| |simpl; lia|simpl; lia].
    intros p n. unfold entries, occurrences. simpl. split; [intros H; by apply not_elem_of_nil in H|].
    change (count_if _ []) with 0%nat. lia.
  - assert (inc_frames st = inc_frames st0) as Ef by (by rewrite Hst).
    assert (inc_members st = inc_members st0) as Em by (by rewrite Hst).
    assert (inc_tombstones st = inc_tombstones st0) as Et by (by rewrite Hst).
    assert (inc_depth st = inc_depth st0) as Ed by (by rewrite Hst).
    pose proof (table_pos _ Hok) as Hpos. rewrite Em, Ed, Et.
    rewrite decide_False by lia. case_decide as Hd.
    { exists st. split_and!; [done| |done]. unfold room_for_push. rewrite Em, Ed, Et, Ef. split_and!; [done|done|lia|done]. }
    destruct (tb_size _ Hok) as [n Hn].
    pose proof (double_until_spec ((inc_depth st0 + 1 + 1) * 2) ((inc_depth st0 + 1 + 1) * 2) (length (inc_members st0))
      Hpos ltac:(lia)) as [Hge [k Hk]].
    assert (exists n', (if decide (double_until ((inc_depth st0 + 1 + 1) * 2) ((inc_depth st0 + 1 + 1) * 2)
        (length (inc_members st0)) < (inc_depth st0 + inc_tombstones st0 + 1) * 2)%nat
      then double_until ((inc_depth st0 + 1 + 1) * 2) ((inc_depth st0 + 1 + 1) * 2) (length (inc_members st0)) * 2
      else double_until ((inc_depth st0 + 1 + 1) * 2) ((inc_depth st0 + 1 + 1) * 2) (length (inc_members st0)))%nat
      = (2 ^ n')%nat /\ (S (inc_depth st0) * 2 <= 2 ^ n')%nat) as (n' & -> & Hn').
    { case_decide.
      - exists (S (n + k)). rewrite Hk in Hge |- *. rewrite Hn in Hge |- *. rewrite <- Nat.pow_add_r in *. simpl. lia.
      - exists (n + k)%nat. rewrite Hk in Hge |- *. rewrite Hn in Hge |- *. rewrite <- Nat.pow_add_r in *. lia. }
    rewrite <- Ed in Hn'. apply member_rehash_ok; rewrite ?Em, ?Ef.
    + apply (tb_members _ Hok).
    + apply (tb_names _ Hok).
    + exact Hc.
    + rewrite Ed. by apply entries_depth.
    + done.
Qed.

(** A path that gets one more frame. *)
Lemma counts_push (members : list Member) (frames : list PPIncludeFrame) (j : nat) (m : Member) (f : PPIncludeFrame)
    (b : bool) :
  members_ok members -> counts members frames -> members !! j = Some m ->
  (if b then is_member m (frame_path f) = true
   else mb_state m <> PP_INCLUDE_STACK_SLOT_ACTIVE /\
        forall k m', members !! k = Some m' -> is_member m' (frame_path f) = false) ->
  counts (<[j := mkMember (Some (frame_path f)) (mb_count m + 1) PP_INCLUDE_STACK_SLOT_ACTIVE]> members) (frames ++ [f]).
Proof.
  intros Hok Hc Hj Hb p n. set (q := frame_path f) in *.
  destruct (entries_update members j m Hj) as (rest & He & He').
  rewrite (He' (mkMember (Some q) (mb_count m + 1) PP_INCLUDE_STACK_SLOT_ACTIVE)). simpl.
  rewrite occurrences_app, elem_of_cons. fold q.
  assert (mb_count m = occurrences frames q /\ (forall c, (q, c) ∉ rest) /\
    (forall p n, p <> q -> (p, n) ∈ rest <-> (p, n) ∈ entries members)) as (Hm & Hrest & Hother).
  { destruct b.
    - pose proof (proj1 (is_member_entry m q) Hb) as Em. rewrite Em in He. simpl in He.
      split_and!.
      + apply (member_in_entries members q j m Hj) in Hb. by apply Hc in Hb as [? _].
      + intros c Hin. pose proof (tb_names _ Hok) as Hn. rewrite He in Hn. simpl in Hn.
        apply NoDup_cons in Hn as [Hn _]. apply Hn, list_elem_of_fmap. by exists (q, c).
      + intros p' n' Hp'. rewrite He, elem_of_cons. naive_solver.
    - destruct Hb as [Hst Hnone]. assert (entry m = None) as Em by (unfold entry; by destruct (mb_state m)).
      rewrite Em in He. simpl in He.
      assert (forall c, (q, c) ∉ entries members) as Hq.
      { intros c (mk & (k & Hk)%list_elem_of_lookup & Hek)%list_elem_of_omap.
        specialize (Hnone k mk Hk). assert (is_member mk q = true); [|congruence].
        apply is_member_entry. rewrite Hek. unfold entry in Hek.
        destruct (mb_state mk); [done| |done]. destruct (mb_path mk); [|done]. simpl in Hek. congruence. }
      split_and!; [|intros c; rewrite <- He; apply Hq|intros p' n' _; by rewrite He].
      pose proof (proj1 (Forall_lookup _ _) (tb_members _ Hok) j m Hj) as Hmo. unfold member_ok in Hmo.
      assert (mb_count m = 0%nat) as -> by (by destruct (mb_state m)).
      destruct (occurrences frames q) eqn:E; [done|]. exfalso. apply (Hq (S n0)), Hc. split; [done|lia]. }
  destruct (decide (p = q)) as [->|Hne].
  - rewrite bool_decide_eq_true_2 by done. split; [intros [[= ->]|Hin]; [lia|by apply Hrest in Hin]|].
    intros [-> _]. left. f_equal. lia.
  - rewrite bool_decide_eq_false_2 by congruence. rewrite Nat.add_0_r, <- (Hc p n), <- (Hother p n Hne). naive_solver.
Qed.

Lemma push_wf (st : IncludeStack) (path : string) (origin : IncludeSearchOrigin) (idx : Z) :
  stack_wf st -> exists st', pp_include_stack_push st path origin idx = Some st' /\ stack_wf st' /\
    inc_frames st' = inc_frames st ++ [mkPPIncludeFrame path origin idx].
Proof.
  intros Hwf. unfold pp_include_stack_push.
  set (st1 := mkIncludeStack (inc_frames st) _ _ _).
  destruct (ensure_capacity_ok st1 st Hwf eq_refl) as (st2 & Hen & (Hok & Ht & Hload & Hc) & Hf).
  change (inc_frames st1) with (inc_frames st) in Hf. rewrite Hen. cbn [mbind option_bind].
  destruct (stack_find_slot_spec _ Hok path) as (j & b & m & Hfind & Hj & Hon & Hb). rewrite Hfind. cbn [mbind option_bind].
  rewrite Hj. cbn [mbind option_bind].
  eexists. split; [done|]. cbn [inc_frames]. rewrite Hf. split; [|done]. right. cbn [inc_members inc_tombstones].
  set (new := mkMember (Some path) (mb_count m + 1) PP_INCLUDE_STACK_SLOT_ACTIVE).
  pose proof (count_if_insert is_used _ j m new Hj) as Hcu. change (is_used new) with true in Hcu.
  pose proof (count_if_insert is_tombstone _ j m new Hj) as Hct. change (is_tombstone new) with false in Hct.
  cbv beta iota in Hcu, Hct.
  pose proof (count_used _ Hok) as Hu. pose proof (entries_depth _ _ Hok Hc) as Hed. unfold inc_depth in *.
  assert ((if negb b && bool_decide (mb_state m = PP_INCLUDE_STACK_SLOT_TOMBSTONE) && bool_decide (0 < inc_tombstones st2)%nat
    then inc_tombstones st2 - 1 else inc_tombstones st2)%nat = count_if is_tombstone (<[j := new]> (inc_members st2))) as ->.
  { destruct (is_tombstone m) eqn:Etm; unfold is_tombstone in Etm; rewrite Etm.
    - assert (b = false) as -> by (destruct b; [|done]; unfold is_member in Hb; apply bool_decide_eq_true in Etm;
        by rewrite Etm in Hb).
      simpl. rewrite bool_decide_eq_true_2 by lia. lia.
    - rewrite andb_false_r. simpl. lia. }
  split_and!.
  - apply (write_ok _ Hok j m); [done|done|by eexists| |destruct (is_used m); lia].
    intros q Hq%is_member_entry. simpl in Hq. injection Hq as <-. split; [done|].
    intros k mk Hk Hmk. destruct b.
    + by apply (member_unique _ Hok path j k m mk).
    + destruct Hb as [_ Hb]. by rewrite (Hb k mk Hk) in Hmk.
  - done.
  - unfold inc_depth. cbn [inc_frames]. rewrite length_insert, length_app, <- Hf. simpl. lia.
  - rewrite <- Hf. by apply (counts_push _ _ j m (mkPPIncludeFrame path origin idx) b).
Qed.

Lemma last_split (frames : list PPIncludeFrame) (top : PPIncludeFrame) :
  list.last frames = Some top -> frames = take (length frames - 1) frames ++ [top].
Proof.
  intros [l ->]%last_Some. rewrite length_app. simpl. replace (length l + 1 - 1)%nat with (length l) by lia.
  by rewrite take_app_length.
Qed.

(** A path that loses one frame. *)
Lemma counts_pop (members : list Member) (frames : list PPIncludeFrame) (j : nat) (m m' : Member) (f : PPIncludeFrame) :
  members_ok members -> counts members (frames ++ [f]) -> members !! j = Some m ->
  is_member m (frame_path f) = true ->
  entry m' = (if decide (mb_count m - 1 = 0)%nat then None else Some (frame_path f, mb_count m - 1)%nat) ->
  counts (<[j := m']> members) frames.
Proof.
  intros Hok Hc Hj Hm Em' p n. set (q := frame_path f) in *.
  destruct (entries_update members j m Hj) as (rest & He & He'). rewrite (He' m'), Em'.
  rewrite (proj1 (is_member_entry m q) Hm) in He. simpl in He.
  assert (forall c, (q, c) ∉ rest) as Hrest.
  { intros c Hin. pose proof (tb_names _ Hok) as Hn. rewrite He in Hn. simpl in Hn.
    apply NoDup_cons in Hn as [Hn _]. apply Hn, list_elem_of_fmap. by exists (q, c). }
  assert (mb_count m = S (occurrences frames q)) as Hcm.
  { apply (member_in_entries members q j m Hj), Hc in Hm as [Hm _].
    rewrite Hm, occurrences_app. fold q. rewrite bool_decide_eq_true_2 by done. lia. }
  rewrite Hcm, Nat.sub_succ, Nat.sub_0_r. destruct (decide (p = q)) as [->|Hne].
  - destruct (decide (occurrences frames q = 0%nat)) as [E|E]; simpl.
    + split; [by intros Hin%Hrest|lia].
    + rewrite elem_of_cons. split; [intros [[= ->]|Hin%Hrest]; [split; lia|done]|]. intros [-> _]. by left.
  - specialize (Hc p n). rewrite He, elem_of_cons, occurrences_app in Hc. fold q in Hc.
    rewrite bool_decide_eq_false_2, Nat.add_0_r in Hc by congruence. rewrite <- Hc.
    destruct (decide (occurrences frames q = 0%nat)); simpl; rewrite ?elem_of_cons; naive_solver.
Qed.

Lemma pop_wf (st : IncludeStack) :
  stack_wf st -> exists st', pp_include_stack_pop st = Some st' /\ stack_wf st' /\
    inc_frames st' = take (inc_depth st - 1) (inc_frames st).
Proof.
  intros Hwf. unfold pp_include_stack_pop, pp_include_stack_top.
  destruct (list.last (inc_frames st)) as [top|] eqn:El.
  2:{ exists st. apply last_None in El. rewrite El. split_and!; [done..|by rewrite take_nil]. }
  pose proof (last_split _ _ El) as Hf. unfold inc_depth in *. set (fs := take _ (inc_frames st)) in *.
  destruct Hwf as [E|(Hok & Ht & Hload & Hc)]; [by rewrite E in El|].
  pose proof (table_pos _ Hok) as Hpos. rewrite decide_False by lia. unfold inc_depth in Hload.
  rewrite Hf in Hc, Hload. rewrite length_app in Hload. simpl in Hload.
  destruct (stack_find_slot_spec _ Hok (frame_path top)) as (j & b & m & -> & Hj & Hon & Hb). cbn [mbind option_bind].
  rewrite Hj. cbn [mbind option_bind].
  assert (exists mt kt, inc_members st !! kt = Some mt /\ is_member mt (frame_path top) = true) as (mt & kt & Hkt & Hmt).
  { assert ((frame_path top, occurrences (fs ++ [top]) (frame_path top)) ∈ entries (inc_members st)) as Hin.
    { apply Hc. split; [done|]. rewrite occurrences_app, bool_decide_eq_true_2 by done. lia. }
    apply list_elem_of_omap in Hin as (mt & (kt & Hkt)%list_elem_of_lookup & Hem). exists mt, kt. split; [done|].
    apply is_member_entry. rewrite Hem. unfold entry in Hem.
    destruct (mb_state mt); [done| |done]. destruct (mb_path mt); [|done]. simpl in Hem. congruence. }
  destruct b; [|destruct Hb as [_ Hb]; by rewrite (Hb kt mt Hkt) in Hmt].
  assert (0 < mb_count m)%nat as Hpm.
  { apply (member_in_entries _ (frame_path top) j m Hj), Hc in Hb. lia. }
  rewrite bool_decide_eq_true_2 by done. simpl andb. cbv iota.
  pose proof (proj1 (is_member_entry m (frame_path top)) Hb) as Em.
  assert (mb_state m = PP_INCLUDE_STACK_SLOT_ACTIVE /\ mb_path m = Some (frame_path top)) as [Hst Hpath].
  { unfold is_member in Hb. apply andb_true_iff in Hb as [H1%bool_decide_eq_true H2%bool_decide_eq_true]. done. }
  assert (forall m' t, is_used m' = true -> member_ok m' ->
    entry m' = (if decide (mb_count m - 1 = 0)%nat then None else Some (frame_path top, mb_count m - 1)%nat) ->
    t = count_if is_tombstone (<[j := m']> (inc_members st)) -> (t <= S (inc_tombstones st))%nat ->
    stack_wf (mkIncludeStack fs (inc_capacity st) (<[j := m']> (inc_members st)) t)) as Hwrite.
  { intros m' t Hu' Hmo' Em' Htomb Hle. right. unfold inc_depth. cbn [inc_members inc_tombstones inc_frames].
    split_and!; [|done|rewrite length_insert; lia|by apply (counts_pop _ _ j m m' top)].
    apply (write_ok _ Hok j m); [done..| |].
    - intros q Hq%is_member_entry. rewrite Em' in Hq. destruct (decide _); [done|]. injection Hq as <- _.
      split; [done|]. intros k mk Hk Hmk. by apply (member_unique _ Hok (frame_path top) j k m mk).
    - pose proof (count_if_insert is_used _ j m m' Hj) as H1. rewrite Hu', (is_member_used m _ Hb) in H1.
      pose proof (tb_room _ Hok). lia. }
  pose proof (fun m' => count_if_insert is_tombstone _ j m m' Hj) as Hct.
  assert (is_tombstone m = false) as Htm by (unfold is_tombstone; by rewrite Hst). rewrite Htm in Hct.
  destruct (decide (mb_count m - 1 = 0)%nat) as [E1|E1]; (eexists; split; [done|]; split; [|done]).
  - specialize (Hct (mkMember None 0 PP_INCLUDE_STACK_SLOT_TOMBSTONE)).
    change (is_tombstone (mkMember None 0 PP_INCLUDE_STACK_SLOT_TOMBSTONE)) with true in Hct. cbv beta iota in Hct.
    apply Hwrite; [done..|lia|lia].
  - specialize (Hct (mkMember (mb_path m) (mb_count m - 1) (mb_state m))).
    assert (is_tombstone (mkMember (mb_path m) (mb_count m - 1) (mb_state m)) = false) as Et
      by (unfold is_tombstone; simpl; by rewrite Hst).
    rewrite Et in Hct. cbv beta iota in Hct.
    apply Hwrite; [unfold is_used; simpl; by rewrite Hst|unfold member_ok; simpl; rewrite Hst, Hpath; by eexists| |lia|lia].
    unfold entry. simpl. by rewrite Hst, Hpath.
Qed.

Lemma contains_spec (st : IncludeStack) (path : string) :
  stack_wf st -> pp_include_stack_contains st path = Some (bool_decide (path ∈ frame_path <$> inc_frames st)).
Proof.
  intros [E|(Hok & Ht & Hload & Hc)]; unfold pp_include_stack_contains.
  { assert (inc_members st = []) as -> by (by rewrite E). assert (inc_frames st = []) as -> by (by rewrite E).
    rewrite bool_decide_eq_false_2; [done|apply not_elem_of_nil]. }
  pose proof (table_pos _ Hok) as Hpos. rewrite decide_False by lia.
  destruct (stack_find_slot_spec _ Hok path) as (j & b & m & -> & Hj & Hon & Hb). cbn [mbind option_bind].
  rewrite Hj. cbn [mbind option_bind]. f_equal. symmetry. destruct b; simpl.
  - apply (member_in_entries _ path j m Hj), Hc in Hb as [Hn Hpos'].
    rewrite bool_decide_eq_true_2 by (apply occurrences_in; lia). by rewrite bool_decide_eq_true_2.
  - apply bool_decide_eq_false. rewrite <- occurrences_in. intros Hpos'.
    destruct Hb as [_ Hb]. assert ((path, occurrences (inc_frames st) path) ∈ entries (inc_members st)) as Hin by by apply Hc.
    apply list_elem_of_omap in Hin as (mt & (kt & Hkt)%list_elem_of_lookup & Hem).
    specialize (Hb kt mt Hkt). assert (is_member mt path = true); [|congruence].
    apply is_member_entry. rewrite Hem. unfold entry in Hem.
    destruct (mb_state mt); [done| |done]. destruct (mb_path mt); [|done]. simpl in Hem. congruence.
Qed.

(** ** The stack is its list of frames *)

Inductive StackOp : Type :=
  | Push (path : string) (origin : IncludeSearchOrigin) (originIndex : Z)
  | Pop.

Definition run_stack_op (st : IncludeStack) (op : StackOp) : option IncludeStack :=
  match op with
  | Push path origin idx => pp_include_stack_push st path origin idx
  | Pop => pp_include_stack_pop st
  end.

Definition spec_stack_op (frames : list PPIncludeFrame) (op : StackOp) : list PPIncludeFrame :=
  match op with
  | Push path origin idx => frames ++ [mkPPIncludeFrame path origin idx]
  | Pop => take (length frames - 1) frames
  end.

Fixpoint run_stack_ops (st : IncludeStack) (ops : list StackOp) : option IncludeStack :=
  match ops with
  | [] => Some st
  | op :: ops' => st ← run_stack_op st op; run_stack_ops st ops'
  end.

(** C34: whatever is pushed and popped, every probe of the hash table ends, the stack holds
    the frames a list would, and a path is found exactly when one of the frames has it; the
    slots with an entry or a tombstone are at most half of the table. *)
Theorem include_stack_refines_frames (ops : list StackOp) :
  exists st, run_stack_ops empty_include_stack ops = Some st /\
    inc_frames st = foldl spec_stack_op [] ops /\
    (forall path, pp_include_stack_contains st path = Some (bool_decide (path ∈ frame_path <$> inc_frames st))) /\
    (count_if is_used (inc_members st) * 2 <= length (inc_members st))%nat.
Proof.
  assert (forall st, stack_wf st -> exists st', run_stack_ops st ops = Some st' /\ stack_wf st' /\
    inc_frames st' = foldl spec_stack_op (inc_frames st) ops) as H.
  { induction ops as [|op ops IH]; intros st Hwf; [by exists st|]. cbn [run_stack_ops foldl].
    assert (exists st1, run_stack_op st op = Some st1 /\ stack_wf st1 /\
      inc_frames st1 = spec_stack_op (inc_frames st) op) as (st1 & -> & Hwf1 & <-).
    { destruct op; [by apply push_wf|by apply pop_wf]. }
    by apply IH. }
  destruct (H empty_include_stack) as (st & Hrun & Hwf & Hfs); [by left|].
  exists st. split_and!; [done..|intros path; by apply contains_spec|].
  destruct Hwf as [E|(Hok & Ht & Hload & Hc)]; [rewrite E; simpl; lia|].
  rewrite (count_used _ Hok), <- Ht. pose proof (entries_depth _ _ Hok Hc). unfold inc_depth in Hload. lia.
Qed.
