(* ===== verification/PPInclude.v ===== *)
(** * Included files and what is known of them (src/Preprocessor/preprocessor_include_support.c,
    include_resolver.h).

    [IncludeFile] is a file of the resolver with its caches.  Lists of tokens stand for the
    C buffers; allocation failure is not modelled, so a [strdup] fails on [NULL] only.  The
    behaviour class of a summary ([classify_include_summary_behavior_class]) is left out: only
    the summary replays, which are off unless an environment variable asks for them, and the
    profiler read it. *)
From S2P Require Import Prelude CType Tokens LexerSource MacroTable PPExpr PPConditional PPIncludeStack.

Inductive IncludeSummaryProbeStatus : Set :=
  | INCLUDE_SUMMARY_PROBE_UNKNOWN | INCLUDE_SUMMARY_PROBE_CANDIDATE
  | INCLUDE_SUMMARY_PROBE_REJECT_NON_LITERAL_INCLUDE | INCLUDE_SUMMARY_PROBE_REJECT_UNSUPPORTED_DIRECTIVE.

#[export] Instance IncludeSummaryProbeStatus_eq_dec : EqDecision IncludeSummaryProbeStatus.
Proof. solve_decision. Defined.

Record IncludeSummaryProbe := mkProbe {
  pr_status : IncludeSummaryProbeStatus;
  pr_directiveCount : nat;
  pr_includeCount : nat;
  pr_defineCount : nat;
  pr_conditionalCount : nat;
  pr_routerOnly : bool;
  pr_routerRawTail : bool;
  pr_routerHasPragmaOnce : bool
}.

Definition empty_probe (status : IncludeSummaryProbeStatus) : IncludeSummaryProbe :=
  mkProbe status 0 0 0 0 false false false.

Inductive IncludeSummaryActionKind : Set :=
  | ACTION_RAW_RANGE | ACTION_DEFINE | ACTION_UNDEF | ACTION_LINE | ACTION_DIAGNOSTIC | ACTION_INCLUDE
  | ACTION_INCLUDE_NEXT | ACTION_IF | ACTION_IFDEF | ACTION_IFNDEF | ACTION_ELIF | ACTION_ELSE
  | ACTION_ENDIF | ACTION_PRAGMA.

#[export] Instance IncludeSummaryActionKind_eq_dec : EqDecision IncludeSummaryActionKind.
Proof. solve_decision. Defined.

(** The bits of [flags] are fields. *)
Record IncludeSummaryAction := mkAction {
  ac_kind : IncludeSummaryActionKind;
  ac_start : nat;
  ac_end : nat;
  ac_no_trailing : bool;
  ac_starts_with_typedef : bool;
  ac_single_typedef : bool
}.

Record IncludeFile := mkIncludeFile {
  if_path : option string;
  if_contents : option (list ascii);
  if_lexedTokens : option (list Token);
  if_cachedGuardName : option string;
  if_summaryProbe : IncludeSummaryProbe;
  if_summaryActions : list IncludeSummaryAction;
  if_pragmaOnce : bool;
  if_includedOnce : bool;
  if_origin : IncludeSearchOrigin;
  if_originIndex : Z
}.

(** ** Operands *)

Definition is_include_space (c : ascii) : bool :=
  (c =c " ") || (c =c TAB) || (c =c RETURN) || (c =c NEWLINE).

Definition strip_include_spaces (name : list ascii) : list ascii :=
  List.filter (fun c => negb (is_include_space c)) name.

(** [char buffer[1024]]. *)
Definition name_buffer_size : nat := 1024.

(** The pieces up to the [>] on the line: the name and the index behind it. *)
Fixpoint angle_name (tokens : list Token) (directiveLine : Z) (i : nat) (name : list ascii) : option (list ascii * nat) :=
  match tokens with
  | [] => None
  | tok :: rest =>
      if negb (on_line directiveLine tok) then None
      else if tt_eqb (tok_type tok) TOKEN_GREATER then Some (name, S i)
      else
        let piece := list_ascii_of_string (default ""%string (tok_value tok)) in
        if bool_decide (name_buffer_size <= length name + length piece + 1)%nat then None
        else angle_name rest directiveLine (S i) (name ++ piece)
  end.

(** The cursor on the last token of the operand, the name, and whether it is in [<>]. *)
Definition parse_include_operand (tokens : list Token) (cursor : nat) : option (nat * string * bool) :=
  let i := S cursor in
  let directiveLine := token_line tokens cursor in
  tok ← tokens !! i;
  '(name, isSystem, i) ←
    (if tt_eqb (tok_type tok) TOKEN_STRING then
       value ← tok_value tok; Some (list_ascii_of_string value, false, S i)
     else if tt_eqb (tok_type tok) TOKEN_LESS then
       '(name, i) ← angle_name (drop (S i) tokens) directiveLine (S i) []; Some (name, true, i)
     else None);
  if match tokens !! i with Some tok => on_line directiveLine tok | None => false end then None
  else Some ((line_end tokens directiveLine i - 1)%nat, string_of_list_ascii (strip_include_spaces name), isSystem).

Definition is_header_char (c : ascii) : bool :=
  let n := N_of_ascii c in
  ((97 <=? n) && (n <=? 122))%N || ((65 <=? n) && (n <=? 90))%N || ((48 <=? n) && (n <=? 57))%N ||
  (c =c "_") || (c =c "-") || (c =c ".") || (c =c "/") || (c =c "+").

Definition include_name_is_suspicious (name : string) : bool :=
  match list_ascii_of_string name with
  | [] => true
  | l => negb (forallb is_header_char l)
  end.

(** ** Guards *)

Definition is_type (ty : TokenType) (tok : option Token) : bool :=
  match tok with Some tok => tt_eqb (tok_type tok) ty | None => false end.

Definition ends_line (tokens : list Token) (directiveLine : Z) (i : nat) : bool :=
  match tokens !! i with Some tok => negb (on_line directiveLine tok) | None => true end.

Definition pragma_is_once_directive (tokens : list Token) (cursor : nat) : bool :=
  let directiveLine := token_line tokens cursor in
  match tokens !! S cursor with
  | None => false
  | Some tok => (tok_line tok =? directiveLine) && tt_eqb (tok_type tok) TOKEN_ONCE &&
                ends_line tokens directiveLine (cursor + 2)
  end.

Definition detect_leading_pragma_once (tokens : list Token) : bool :=
  let cursor := length (span (fun t => tt_eqb (tok_type t) TOKEN_EOF) tokens).1 in
  is_type TOKEN_PRAGMA (tokens !! cursor) && pragma_is_once_directive tokens cursor.

Definition token_type_is_conditional_start (type : TokenType) : bool :=
  one_of [TOKEN_PP_IF; TOKEN_IFDEF; TOKEN_IFNDEF] type.

(** Only [TOKEN_UNKNOWN] up to the end of the file. *)
Definition only_unknown (tokens : list Token) : bool :=
  forallb (fun t => tt_eqb (tok_type t) TOKEN_UNKNOWN) (span (fun t => negb (tt_eqb (tok_type t) TOKEN_EOF)) tokens).1.

(** From [tokens] on: does the group at [depth] end with the file? *)
Fixpoint guard_covers (tokens : list Token) (depth : nat) : bool :=
  match tokens with
  | [] => false
  | tok :: rest =>
      if tt_eqb (tok_type tok) TOKEN_EOF then false
      else if token_type_is_conditional_start (tok_type tok) then guard_covers rest (S depth)
      else if tt_eqb (tok_type tok) TOKEN_ENDIF then
        match depth with
        | O => false
        | S O => only_unknown (drop (length (span (on_line (tok_line tok)) (tok :: rest)).1) (tok :: rest))
        | S depth' => guard_covers rest depth'
        end
      else guard_covers rest depth
  end.

Definition detect_include_guard (tokens : list Token) : option string :=
  if decide (length tokens < 3)%nat then None
  else if negb (is_type TOKEN_IFNDEF (tokens !! 0%nat) && is_type TOKEN_IDENTIFIER (tokens !! 1%nat)) then None
  else
    guard ← (tokens !! 1%nat) ≫= tok_value;
    let i := line_end tokens (token_line tokens 0) 2 in
    if negb (is_type TOKEN_DEFINE (tokens !! i)) then None
    else
      let defineLine := token_line tokens i in
      let i := S i in
      if ends_line tokens defineLine i then None
      else
        tok ← tokens !! i;
        if tt_eqb (tok_type tok) TOKEN_IDENTIFIER && bool_decide (tok_value tok = Some guard) &&
           guard_covers (drop i tokens) 1
        then Some guard else None.

(** ** Summaries *)

Definition raw_range (tokens : list Token) (start stop : nat) : list Token :=
  List.filter (fun t => negb (tt_eqb (tok_type t) TOKEN_EOF || tt_eqb (tok_type t) TOKEN_UNKNOWN))
    (take (stop - start) (drop start tokens)).

Definition raw_range_starts_with_typedef (tokens : list Token) (start stop : nat) : bool :=
  is_type TOKEN_TYPEDEF (head (raw_range tokens start stop)).

(** Semicolons outside of brackets; the second one ends the scan. *)
Fixpoint top_level_semicolons (tokens : list Token) (paren brace bracket : Z) (seen : nat) : nat :=
  match tokens with
  | [] => seen
  | tok :: rest =>
      let down n := if 0 <? n then n - 1 else n in
      match tok_type tok with
      | TOKEN_LPAREN => top_level_semicolons rest (paren + 1) brace bracket seen
      | TOKEN_RPAREN => top_level_semicolons rest (down paren) brace bracket seen
      | TOKEN_LBRACE => top_level_semicolons rest paren (brace + 1) bracket seen
      | TOKEN_RBRACE => top_level_semicolons rest paren (down brace) bracket seen
      | TOKEN_LBRACKET => top_level_semicolons rest paren brace (bracket + 1) seen
      | TOKEN_RBRACKET => top_level_semicolons rest paren brace (down bracket) seen
      | TOKEN_SEMICOLON =>
          if (paren =? 0) && (brace =? 0) && (bracket =? 0) then
            match seen with
            | O => top_level_semicolons rest paren brace bracket 1
            | S _ => 2
            end
          else top_level_semicolons rest paren brace bracket seen
      | _ => top_level_semicolons rest paren brace bracket seen
      end
  end.

Definition raw_range_is_single_top_level_typedef_declaration (tokens : list Token) (start stop : nat) : bool :=
  bool_decide (top_level_semicolons (raw_range tokens start stop) 0 0 0 0 = 1%nat).

Definition include_summary_action_make (tokens : list Token) (kind : IncludeSummaryActionKind) (start stop : nat)
    : IncludeSummaryAction :=
  match kind with
  | ACTION_RAW_RANGE =>
      mkAction kind start stop false (raw_range_starts_with_typedef tokens start stop)
        (raw_range_is_single_top_level_typedef_declaration tokens start stop)
  | _ => mkAction kind start stop (bool_decide (stop <= S start)%nat) false false
  end.

(** [#name ident] alone on the line of [cursor]; the guard's [#ifndef] and [#define]. *)
Definition directive_line_matches_single_identifier (tokens : list Token) (cursor : nat) (ident : string) : bool :=
  let directiveLine := token_line tokens cursor in
  match tokens !! S cursor with
  | None => false
  | Some tok => (tok_line tok =? directiveLine) && tt_eqb (tok_type tok) TOKEN_IDENTIFIER &&
                bool_decide (tok_value tok = Some ident) && ends_line tokens directiveLine (cursor + 2)
  end.

Definition directive_line_matches_empty_guard_define (tokens : list Token) (cursor : nat) (ident : string) : bool :=
  directive_line_matches_single_identifier tokens cursor ident.

(** The nesting from the first action on ends with the last one. *)
Fixpoint actions_close (actions : list IncludeSummaryAction) (depth : nat) : bool :=
  match actions with
  | [] => false
  | a :: rest =>
      match ac_kind a with
      | ACTION_IF | ACTION_IFDEF | ACTION_IFNDEF => actions_close rest (S depth)
      | ACTION_ENDIF =>
          match depth with
          | O => false
          | S O => match rest with [] => true | _ :: _ => false end
          | S depth' => actions_close rest depth'
          end
      | _ => actions_close rest depth
      end
  end.

Definition detect_include_guard_from_summary_actions (tokens : list Token) (actions : list IncludeSummaryAction)
    : option string :=
  if decide (length actions < 2)%nat then None
  else
    match (span (fun a => bool_decide (ac_kind a = ACTION_PRAGMA)) actions).2 with
    | (ifndefAction :: defineAction :: _) as rest =>
        if bool_decide (ac_kind ifndefAction = ACTION_IFNDEF) && bool_decide (ac_kind defineAction = ACTION_DEFINE) then
          let cursor := S (ac_start ifndefAction) in
          if is_type TOKEN_IDENTIFIER (tokens !! cursor) then
            guard ← (tokens !! cursor) ≫= tok_value;
            if directive_line_matches_empty_guard_define tokens (ac_start defineAction) guard && actions_close rest 0
            then Some guard else None
          else None
        else None
    | _ => None
    end.

(** What a router summary has shown so far. *)
Record RouterScan := mkRouterScan {
  rs_ifndef : bool; rs_define : bool; rs_endif : bool; rs_include : bool; rs_rawTail : bool; rs_once : bool
}.

(** One action; [rest] says whether others follow.  [None] ends the scan, with [rs_once] kept
    by the caller. *)
Definition router_step (tokens : list Token) (guard : string) (rawTail : bool) (s : RouterScan)
    (a : IncludeSummaryAction) (last : bool) : option RouterScan :=
  let '(mkRouterScan ifndef define endif include raw once) := s in
  match ac_kind a with
  | ACTION_PRAGMA =>
      if pragma_is_once_directive tokens (ac_start a) then Some (mkRouterScan ifndef define endif include raw true) else None
  | ACTION_IFNDEF =>
      if ifndef || define || endif then None
      else if directive_line_matches_single_identifier tokens (ac_start a) guard
      then Some (mkRouterScan true define endif include raw once) else None
  | ACTION_DEFINE =>
      if negb ifndef || define || endif then None
      else if directive_line_matches_empty_guard_define tokens (ac_start a) guard
      then Some (mkRouterScan ifndef true endif include raw once) else None
  | ACTION_INCLUDE | ACTION_INCLUDE_NEXT =>
      if negb ifndef || negb define || endif then None else Some (mkRouterScan ifndef define endif true raw once)
  | ACTION_RAW_RANGE =>
      if negb rawTail || negb ifndef || negb define || endif then None
      else if ac_starts_with_typedef a && ac_single_typedef a
      then Some (mkRouterScan ifndef define endif include true once) else None
  | ACTION_ENDIF =>
      if negb ifndef || negb define || endif || negb include || negb last then None
      else Some (mkRouterScan ifndef define true include raw once)
  | _ => None
  end.

Fixpoint router_scan (tokens : list Token) (guard : string) (rawTail : bool) (actions : list IncludeSummaryAction)
    (s : RouterScan) : bool * RouterScan :=
  match actions with
  | [] => (rs_ifndef s && rs_define s && rs_include s && rs_endif s && (negb rawTail || rs_rawTail s), s)
  | a :: rest =>
      match router_step tokens guard rawTail s a (match rest with [] => true | _ :: _ => false end) with
      | None => (false, s)
      | Some s => router_scan tokens guard rawTail rest s
      end
  end.

(** Both classifiers: the answer, and [routerHasPragmaOnce]. *)
Definition classify_router (rawTail : bool) (tokens : list Token) (actions : list IncludeSummaryAction)
    (guard : option string) (hasPragmaOnce : bool) : bool * bool :=
  match actions, guard with
  | _ :: _, Some (String _ _ as g) =>
      let '(ok, s) := router_scan tokens g rawTail actions (mkRouterScan false false false false false hasPragmaOnce) in
      (ok, rs_once s)
  | _, _ => (false, hasPragmaOnce)
  end.

Definition classify_include_summary_router_only := classify_router false.
Definition classify_include_summary_router_raw_tail := classify_router true.

(** The directive a token starts: [inr None] for none, [inl tt] for one that is refused. *)
Definition directive_action (tok : Token) : unit + option IncludeSummaryActionKind :=
  match tok_type tok with
  | TOKEN_DEFINE => inr (Some ACTION_DEFINE)
  | TOKEN_UNDEF => inr (Some ACTION_UNDEF)
  | TOKEN_PP_IF => inr (Some ACTION_IF)
  | TOKEN_IFDEF => inr (Some ACTION_IFDEF)
  | TOKEN_IFNDEF => inr (Some ACTION_IFNDEF)
  | TOKEN_PP_ELIF => inr (Some ACTION_ELIF)
  | TOKEN_PP_ELSE => inr (Some ACTION_ELSE)
  | TOKEN_ENDIF => inr (Some ACTION_ENDIF)
  | TOKEN_PRAGMA => inr (Some ACTION_PRAGMA)
  | TOKEN_PREPROCESSOR_OTHER =>
      if bool_decide (tok_value tok = Some "line"%string) then inr (Some ACTION_LINE)
      else if bool_decide (tok_value tok = Some "warning"%string) || bool_decide (tok_value tok = Some "error"%string)
      then inr (Some ACTION_DIAGNOSTIC) else inl tt
  | _ => inr None
  end.

Definition is_conditional_action (kind : IncludeSummaryActionKind) : bool :=
  match kind with
  | ACTION_IF | ACTION_IFDEF | ACTION_IFNDEF | ACTION_ELIF | ACTION_ELSE | ACTION_ENDIF => true
  | _ => false
  end.

Definition set_status (p : IncludeSummaryProbe) (status : IncludeSummaryProbeStatus) : IncludeSummaryProbe :=
  mkProbe status (pr_directiveCount p) (pr_includeCount p) (pr_defineCount p) (pr_conditionalCount p)
    (pr_routerOnly p) (pr_routerRawTail p) (pr_routerHasPragmaOnce p).

Definition count_directive (p : IncludeSummaryProbe) (isInclude isDefine isConditional : bool) : IncludeSummaryProbe :=
  let one (b : bool) := if b then 1%nat else 0%nat in
  mkProbe (pr_status p) (pr_directiveCount p + 1) (pr_includeCount p + one isInclude) (pr_defineCount p + one isDefine)
    (pr_conditionalCount p + one isConditional) (pr_routerOnly p) (pr_routerRawTail p) (pr_routerHasPragmaOnce p).

(** A directive's action behind the raw tokens before it. *)
Definition add_actions (tokens : list Token) (actions : list IncludeSummaryAction) (rawStart i : nat)
    (kind : IncludeSummaryActionKind) (stop : nat) : list IncludeSummaryAction :=
  actions ++ (if decide (rawStart < i)%nat then [include_summary_action_make tokens ACTION_RAW_RANGE rawStart i] else [])
    ++ [include_summary_action_make tokens kind i stop].

(** [fuel] tokens at most; [eofIndex] is where the file ends. *)
Fixpoint analyze_loop (fuel : nat) (tokens : list Token) (eofIndex i rawStart : nat) (probe : IncludeSummaryProbe)
    (actions : list IncludeSummaryAction) : IncludeSummaryProbe * list IncludeSummaryAction :=
  let finish := (probe, actions ++
    (if decide (rawStart < eofIndex)%nat then [include_summary_action_make tokens ACTION_RAW_RANGE rawStart eofIndex]
     else [])) in
  match fuel with
  | O => finish
  | S fuel' =>
      if decide (eofIndex <= i)%nat then finish
      else
        match tokens !! i with
        | None => finish
        | Some tok =>
            if tt_eqb (tok_type tok) TOKEN_INCLUDE || tt_eqb (tok_type tok) TOKEN_INCLUDE_NEXT then
              let probe := count_directive probe true false false in
              match parse_include_operand tokens i with
              | None => (set_status probe INCLUDE_SUMMARY_PROBE_REJECT_NON_LITERAL_INCLUDE, [])
              | Some (operandCursor, _, _) =>
                  let kind := if tt_eqb (tok_type tok) TOKEN_INCLUDE then ACTION_INCLUDE else ACTION_INCLUDE_NEXT in
                  analyze_loop fuel' tokens eofIndex (S operandCursor) (S operandCursor) probe
                    (add_actions tokens actions rawStart i kind (S operandCursor))
              end
            else
              match directive_action tok with
              | inl _ => (set_status probe INCLUDE_SUMMARY_PROBE_REJECT_UNSUPPORTED_DIRECTIVE, [])
              | inr None => analyze_loop fuel' tokens eofIndex (S i) rawStart probe actions
              | inr (Some kind) =>
                  let lineEnd := line_end (take eofIndex tokens) (tok_line tok) i in
                  analyze_loop fuel' tokens eofIndex (S (lineEnd - 1)) lineEnd
                    (count_directive probe false (bool_decide (kind = ACTION_DEFINE)) (is_conditional_action kind))
                    (add_actions tokens actions rawStart i kind lineEnd)
              end
        end
  end.

Definition analyze_include_summary_probe (tokens : list Token) : IncludeSummaryProbe * list IncludeSummaryAction :=
  let eofIndex := length (span (fun t => negb (tt_eqb (tok_type t) TOKEN_EOF)) tokens).1 in
  analyze_loop (length tokens) tokens eofIndex 0 0 (empty_probe INCLUDE_SUMMARY_PROBE_CANDIDATE) [].
