(* ===== verification/PPDirectives.v ===== *)
(** * The preprocessor's directives (src/Preprocessor/preprocessor_directives.c,
    preprocessor_utils.c, and the flushing of preprocessor_driver_support.c).

    [Preprocessor] holds the fields of the C struct these operations use.  The expander's
    builtins are pointers to its fields: [expand] gives it their values and takes the counter
    back.  Diagnostics are a list, what is printed is not modelled; [include_resolver_load],
    which searches the file system, is a parameter.  Line numbers are moved by [#line] with
    [int] additions, modulo 2^32. *)
From S2P Require Import Prelude StateError CType Tokens Lexer MacroTable MacroExpander.
From S2P Require Import PPExpr PPConditional PPIncludeStack PPInclude.

Record Diag := mkDiag { dg_error : bool; dg_token : option Token; dg_message : string }.

(** What [cc_append_include] records of an [#include]. *)
Inductive FisicsIncludeOrigin : Set :=
  | FISICS_INCLUDE_UNRESOLVED | FISICS_INCLUDE_PROJECT | FISICS_INCLUDE_SYSTEM_ORIGIN | FISICS_INCLUDE_EXTERNAL.

Record FisicsInclude := mkFisicsInclude {
  fi_name : string;
  fi_system : bool;
  fi_line : Z;
  fi_column : Z;
  fi_resolved : bool;
  fi_resolved_path : option string;
  fi_origin : FisicsIncludeOrigin
}.

(** The include stack, the resolver's files, the records and the edges of the include graph. *)
Record Includes := mkIncludes {
  in_stack : IncludeStack;
  in_files : list IncludeFile;
  in_records : list FisicsInclude;
  in_graph : list (string * string)
}.

Record Preprocessor := mkPreprocessor {
  p_expander : MacroExpander;
  p_baseFile : option string;
  p_logicalFile : option string;
  p_lineOffset : Z;
  p_lineRemapActive : bool;
  p_counter : Z;
  p_dateString : string;
  p_timeString : string;
  p_logicalFilePool : list string;
  p_preserveDirectives : bool;
  p_lenientMissingIncludes : bool;
  p_enableTrigraphs : bool;
  p_includes : Includes;
  p_diagnostics : list Diag;
  p_output : PPTokenBuffer
}.

Definition p_table (pp : Preprocessor) : MacroTable := me_table (p_expander pp).

Definition with_expander (pp : Preprocessor) (me : MacroExpander) : Preprocessor :=
  mkPreprocessor me (p_baseFile pp) (p_logicalFile pp) (p_lineOffset pp) (p_lineRemapActive pp) (p_counter pp)
    (p_dateString pp) (p_timeString pp) (p_logicalFilePool pp) (p_preserveDirectives pp)
    (p_lenientMissingIncludes pp) (p_enableTrigraphs pp) (p_includes pp) (p_diagnostics pp) (p_output pp).

Definition with_table (pp : Preprocessor) (t : MacroTable) : Preprocessor :=
  with_expander pp (set_table (p_expander pp) t).

Definition with_counter (pp : Preprocessor) (n : Z) : Preprocessor :=
  mkPreprocessor (p_expander pp) (p_baseFile pp) (p_logicalFile pp) (p_lineOffset pp) (p_lineRemapActive pp) n
    (p_dateString pp) (p_timeString pp) (p_logicalFilePool pp) (p_preserveDirectives pp)
    (p_lenientMissingIncludes pp) (p_enableTrigraphs pp) (p_includes pp) (p_diagnostics pp) (p_output pp).

Definition with_line (pp : Preprocessor) (offset : Z) (active : bool) : Preprocessor :=
  mkPreprocessor (p_expander pp) (p_baseFile pp) (p_logicalFile pp) offset active (p_counter pp)
    (p_dateString pp) (p_timeString pp) (p_logicalFilePool pp) (p_preserveDirectives pp)
    (p_lenientMissingIncludes pp) (p_enableTrigraphs pp) (p_includes pp) (p_diagnostics pp) (p_output pp).

Definition with_includes (pp : Preprocessor) (inc : Includes) : Preprocessor :=
  mkPreprocessor (p_expander pp) (p_baseFile pp) (p_logicalFile pp) (p_lineOffset pp) (p_lineRemapActive pp)
    (p_counter pp) (p_dateString pp) (p_timeString pp) (p_logicalFilePool pp) (p_preserveDirectives pp)
    (p_lenientMissingIncludes pp) (p_enableTrigraphs pp) inc (p_diagnostics pp) (p_output pp).

Definition p_files (pp : Preprocessor) : list IncludeFile := in_files (p_includes pp).
Definition p_includeStack (pp : Preprocessor) : IncludeStack := in_stack (p_includes pp).

Definition with_files (pp : Preprocessor) (files : list IncludeFile) : Preprocessor :=
  with_includes pp (mkIncludes (in_stack (p_includes pp)) files (in_records (p_includes pp)) (in_graph (p_includes pp))).

Definition with_output (pp : Preprocessor) (tokens : PPTokenBuffer) : Preprocessor :=
  mkPreprocessor (p_expander pp) (p_baseFile pp) (p_logicalFile pp) (p_lineOffset pp) (p_lineRemapActive pp)
    (p_counter pp) (p_dateString pp) (p_timeString pp) (p_logicalFilePool pp) (p_preserveDirectives pp)
    (p_lenientMissingIncludes pp) (p_enableTrigraphs pp) (p_includes pp) (p_diagnostics pp) (p_output pp ++ tokens).

(** [pp_report_diag], without the file and include stack the message is printed with. *)
Definition report (pp : Preprocessor) (error : bool) (tok : option Token) (message : string) : Preprocessor :=
  mkPreprocessor (p_expander pp) (p_baseFile pp) (p_logicalFile pp) (p_lineOffset pp) (p_lineRemapActive pp)
    (p_counter pp) (p_dateString pp) (p_timeString pp) (p_logicalFilePool pp) (p_preserveDirectives pp)
    (p_lenientMissingIncludes pp) (p_enableTrigraphs pp) (p_includes pp) (p_diagnostics pp ++ [mkDiag error tok message]) (p_output pp).

Definition pp_set_base_file (pp : Preprocessor) (path : option string) : Preprocessor :=
  match p_baseFile pp with
  | Some _ => pp
  | None =>
      mkPreprocessor (p_expander pp) path (p_logicalFile pp) (p_lineOffset pp) (p_lineRemapActive pp)
        (p_counter pp) (p_dateString pp) (p_timeString pp) (p_logicalFilePool pp) (p_preserveDirectives pp)
        (p_lenientMissingIncludes pp) (p_enableTrigraphs pp) (p_includes pp) (p_diagnostics pp) (p_output pp)
  end.

(** [pp_set_logical_file], with [pp_record_logical_file]. *)
Definition pp_set_logical_file (pp : Preprocessor) (path : string) : Preprocessor :=
  mkPreprocessor (p_expander pp) (p_baseFile pp) (Some path) (p_lineOffset pp) (p_lineRemapActive pp)
    (p_counter pp) (p_dateString pp) (p_timeString pp) (p_logicalFilePool pp ++ [path]) (p_preserveDirectives pp)
    (p_lenientMissingIncludes pp) (p_enableTrigraphs pp) (p_includes pp) (p_diagnostics pp) (p_output pp).

Definition PPM (A : Type) : Type := ST Preprocessor A.

(** ** Tokens with their logical places *)

Definition shift_line (offset line : Z) : Z :=
  if offset =? 0 then line
  else let line := i32 (line + offset) in if line <? 1 then 1 else line.

(** A range moved to the logical file and line. *)
Definition remap_range (file : option string) (offset : Z) (r : SourceRange) : SourceRange :=
  let move loc := mkSourceLocation (match file with Some f => Some f | None => loc_file loc end)
                    (shift_line offset (loc_line loc)) (loc_column loc) in
  mkSourceRange (move (range_start r)) (move (range_end r)).

Definition has_place (r : SourceRange) : bool :=
  bool_decide (is_Some (loc_file (range_start r))) || (0 <? loc_line (range_start r)).

Definition pp_token_clone_remap (pp : Preprocessor) (tok : Token) : Token :=
  let '(location, callSite) :=
    if p_lineRemapActive pp then
      let logicalFile := match p_logicalFile pp with
                         | Some f => Some f
                         | None => loc_file (range_start (tok_location tok))
                         end in
      (remap_range logicalFile (p_lineOffset pp) (tok_location tok),
       if has_place (tok_macroCallSite tok)
       then remap_range logicalFile (p_lineOffset pp) (tok_macroCallSite tok) else tok_macroCallSite tok)
    else (tok_location tok, tok_macroCallSite tok) in
  mkToken (tok_type tok) (tok_value tok) (loc_line (range_start location)) (tok_spellingLine tok)
    (tok_spellingColumn tok) location callSite (tok_macroDefinition tok).

Definition set_literal (tok : Token) (type : TokenType) (text : string) : Token :=
  mkToken type (Some text) (tok_line tok) (tok_spellingLine tok) (tok_spellingColumn tok) (tok_location tok)
    (tok_macroCallSite tok) (tok_macroDefinition tok).

(** [pp_append_number_literal]: the token appended. *)
Definition pp_append_number_literal (pp : Preprocessor) (base : Token) (text : string) : Token :=
  set_literal (pp_token_clone_remap pp base) TOKEN_NUMBER text.

Definition pp_token_buffer_append_clone_remap_span (pp : Preprocessor) (buffer tokens : PPTokenBuffer)
    : PPTokenBuffer := buffer ++ map (pp_token_clone_remap pp) tokens.

Definition token_file (tok : option Token) : option string :=
  tok ← tok; loc_file (range_start (tok_location tok)).

(** ** Calling the expander *)

(** What the expander's builtins point to. *)
Definition builtins_of (pp : Preprocessor) : PPBuiltinState :=
  let text s := match s with EmptyString => None | _ => Some s end in
  mkPPBuiltinState (p_baseFile pp) (text (p_dateString pp)) (text (p_timeString pp)) (Some (p_counter pp))
    (Some (p_logicalFile pp)) (Some (p_lineOffset pp)) (Some (p_lineRemapActive pp)).

Definition load_builtins (pp : Preprocessor) : MacroExpander :=
  macro_expander_set_builtins (p_expander pp) (builtins_of pp).

Definition store_builtins (pp : Preprocessor) (me : MacroExpander) : Preprocessor :=
  with_counter (with_expander pp me) (default (p_counter pp) (bs_counter (me_builtins me))).

Section Directives.
(** The nesting of expansions allowed; [include_resolver_load]: from the files loaded so far,
    the including file, the name, [isSystem] and [isIncludeNext], the files then loaded and the
    index of the one found with its origin and origin index. *)
Context (fuel : nat)
  (load : list IncludeFile -> option string -> string -> bool -> bool ->
          list IncludeFile * option (nat * IncludeSearchOrigin * Z)).

Definition expand (input : list Token) : PPM PPTokenBuffer := fun pp =>
  match macro_expander_expand fuel input (load_builtins pp) with
  | None => None
  | Some (r, me) => Some (r, store_builtins pp me)
  end.

Definition resolver_load (includingFile : option string) (name : string) (isSystem isIncludeNext : bool)
    : PPM (option (nat * IncludeSearchOrigin * Z)) := fun pp =>
  let '(files, found) := load (p_files pp) includingFile name isSystem isIncludeNext in
  Some (Some found, with_files pp files).

(** ** [#define] and [#undef] *)

Record MacroParamParse := mkMacroParamParse {
  mpp_names : list string;
  mpp_variadic : bool;
  mpp_hasVaOpt : bool
}.

Definition tokens_adjacent (left right : Token) : bool :=
  (loc_line (range_end (tok_location left)) =? loc_line (range_start (tok_location right))) &&
  (loc_column (range_start (tok_location right)) <=? loc_column (range_end (tok_location left))).

(** The parameters up to the closing parenthesis, from index [i]: where they end. *)
Fixpoint parse_parameters (tokens : list Token) (i : nat) (expectParam variadicDetected : bool)
    (params : MacroParamParse) : option (nat * MacroParamParse) :=
  match tokens with
  | [] => if expectParam && negb variadicDetected then None else Some (i, params)
  | tok :: rest =>
      if tt_eqb (tok_type tok) TOKEN_RPAREN then
        if expectParam && negb variadicDetected then None else Some (S i, params)
      else if negb expectParam then
        if tt_eqb (tok_type tok) TOKEN_COMMA then parse_parameters rest (S i) true variadicDetected params
        else None
      else if tt_eqb (tok_type tok) TOKEN_IDENTIFIER then
        parse_parameters rest (S i) false variadicDetected
          (mkMacroParamParse (mpp_names params ++ [default ""%string (tok_value tok)]) (mpp_variadic params)
             (mpp_hasVaOpt params))
      else if tt_eqb (tok_type tok) TOKEN_ELLIPSIS then
        parse_parameters rest (S i) false true
          (mkMacroParamParse (mpp_names params) true (mpp_hasVaOpt params))
      else None
  end.

(** At the opening parenthesis. *)
Definition parse_macro_parameters (tokens : list Token) (cursor : nat) : option (nat * MacroParamParse) :=
  let empty := mkMacroParamParse [] false false in
  if negb (has_type TOKEN_LPAREN (tokens !! cursor)) then None
  else if has_type TOKEN_RPAREN (tokens !! S cursor) then Some ((cursor + 2)%nat, empty)
  else parse_parameters (drop (S cursor) tokens) (S cursor) true false empty.

(** The tokens of the directive's line from [cursor], with their logical places, and the end. *)
Definition collect_macro_body (pp : Preprocessor) (tokens : list Token) (cursor : nat) (directiveLine : Z)
    : PPTokenBuffer * nat :=
  let body := (span (on_line directiveLine) (drop cursor tokens)).1 in
  (map (pp_token_clone_remap pp) body, (cursor + length body)%nat).

Definition location_at (tokens : list Token) (i : nat) : SourceRange :=
  match tokens !! i with Some tok => tok_location tok | None => empty_source_range end.

(** [*cursor = (i == 0) ? 0 : i - 1]. *)
Definition last_of (i : nat) : nat := (i - 1)%nat.

Definition report_as (pp : Preprocessor) (tok : option Token) (message : string) : Preprocessor :=
  report pp (negb (p_lenientMissingIncludes pp)) tok message.

(** A macro name on the directive's line at index [i]. *)
Definition macro_name_at (tokens : list Token) (directiveLine : Z) (i : nat) : option Token :=
  tok ← tokens !! i;
  if (tok_line tok =? directiveLine) && token_is_macro_identifier tok then Some tok else None.

Definition process_define (tokens : list Token) (cursor : nat) : PPM nat :=
  let directiveLine := token_line tokens cursor in
  let* pp := get in
  match macro_name_at tokens directiveLine (S cursor) with
  | None =>
      let* _ := put (report_as pp (tokens !! S cursor) "expected identifier after #define") in
      if p_lenientMissingIncludes pp
      then ret (last_of (skip_to_line_end tokens (S cursor)))
      else fail
  | Some nameTok =>
      let i := (cursor + 2)%nat in
      let name := default ""%string (tok_value nameTok) in
      let isFunction := match tokens !! i with
                        | Some tok => has_type TOKEN_LPAREN (Some tok) && (tok_line tok =? tok_line nameTok) &&
                                      tokens_adjacent nameTok tok
                        | None => false
                        end in
      let params := if (isFunction : bool) then parse_macro_parameters tokens i
                    else Some (i, mkMacroParamParse [] false false) in
      match params with
      | None =>
          let* _ := put (report_as pp (Some nameTok) ("invalid parameter list in #define " ++ name)) in
          if p_lenientMissingIncludes pp then ret (last_of (line_end tokens directiveLine i)) else fail
      | Some (i, params) =>
          let '(body, i) := collect_macro_body pp tokens i directiveLine in
          let hasVaOpt := isFunction && mpp_variadic params && existsb (is_named "__VA_OPT__") body in
          let* _ := put (with_table pp
            (if isFunction
             then macro_table_define_function (p_table pp) name (mpp_names params) (mpp_variadic params) hasVaOpt
                    body (location_at tokens cursor)
             else macro_table_define_object (p_table pp) name body (location_at tokens cursor))) in
          ret (last_of i)
      end
  end.

Definition process_undef (tokens : list Token) (cursor : nat) : PPM nat :=
  let directiveLine := token_line tokens cursor in
  let* pp := get in
  match macro_name_at tokens directiveLine (S cursor) with
  | None =>
      let* _ := put (report pp true (tokens !! S cursor) "expected identifier after #undef") in fail
  | Some nameTok =>
      let pp := with_table pp (macro_table_undef (p_table pp) (default ""%string (tok_value nameTok))).2 in
      let i := (cursor + 2)%nat in
      if match tokens !! i with Some tok => on_line directiveLine tok | None => false end then
        let* _ := put (report pp true (tokens !! i) "unexpected tokens after #undef directive") in fail
      else
        let* _ := put pp in
        ret (last_of (line_end tokens directiveLine i))
  end.

(** ** [#pragma] and [#line] *)

Definition stdc_pragmas : list string := ["FP_CONTRACT"; "CX_LIMITED_RANGE"; "FENV_ACCESS"]%string.

Definition set_pragma_once (f : IncludeFile) : IncludeFile :=
  mkIncludeFile (if_path f) (if_contents f) (if_lexedTokens f) (if_cachedGuardName f) (if_summaryProbe f)
    (if_summaryActions f) true (if_includedOnce f) (if_origin f) (if_originIndex f).

(** [include_resolver_mark_pragma_once]: the file with exactly that path. *)
Definition mark_pragma_once (files : list IncludeFile) (path : string) : list IncludeFile :=
  match list_find (fun f => if_path f = Some path) files with
  | Some (i, f) => <[i := set_pragma_once f]> files
  | None => files
  end.

Definition process_pragma (tokens : list Token) (cursor : nat) : PPM nat :=
  let directiveLine := token_line tokens cursor in
  let i := S cursor in
  let* pp := get in
  let pp :=
    if has_type TOKEN_ONCE (tokens !! i) then
      match (match token_file (tokens !! i) with Some p => Some p | None => token_file (tokens !! cursor) end) with
      | Some path => with_files pp (mark_pragma_once (p_files pp) path)
      | None => pp
      end
    else if match tokens !! i with Some tok => is_named "STDC" tok | None => false end then
      match tokens !! S i with
      | Some tok =>
          let val := token_text tok in
          if (tok_line tok =? directiveLine) && has_type TOKEN_IDENTIFIER (Some tok) &&
             bool_decide (val ∈ stdc_pragmas)
          then report pp false (tokens !! i) ("ignored #pragma STDC " ++ val) else pp
      | None => pp
      end
    else pp in
  let* _ := put pp in
  ret (last_of (line_end tokens directiveLine i)).

Definition INT_MAX : Z := 2147483647.

(** Past the end-of-file tokens of an expansion. *)
Definition skip_eof (tokens : list Token) : list Token :=
  (span (fun t => tt_eqb (tok_type t) TOKEN_EOF) tokens).2.

(** The line and the file an expanded [#line] asks for, or why it is refused. *)
Definition parse_line_request (expanded : list Token) : string + Z * option string :=
  match skip_eof expanded with
  | tok :: rest =>
      let lineText := list_ascii_of_string (token_text tok) in
      if negb (tt_eqb (tok_type tok) TOKEN_NUMBER) || bool_decide (lineText = [])
      then inl "expected line number after #line"%string
      else if negb (forallb is_digit lineText)
      then inl "line number after #line must use decimal digits"%string
      else
        let parsedLine := digits_value 10 lineText in
        if INT_MAX <? parsedLine then inl "line number after #line is out of range"%string
        else if parsedLine =? 0 then inl "line number after #line must be positive"%string
        else
          let '(newFile, rest) := match skip_eof rest with
                                  | t :: rest' => if tt_eqb (tok_type t) TOKEN_STRING then (tok_value t, rest')
                                                  else (None, t :: rest')
                                  | [] => (None, [])
                                  end in
          match skip_eof rest with
          | _ :: _ => inl "unexpected tokens after #line directive"%string
          | [] => inr (parsedLine, newFile)
          end
  | [] => inl "expected line number after #line"%string
  end.

Definition process_line_directive (tokens : list Token) (cursor : nat) : PPM nat :=
  let directiveLine := token_line tokens cursor in
  let lineEnd := line_end tokens directiveLine (S cursor) in
  let* expanded := attempt (expand (take (lineEnd - S cursor) (drop (S cursor) tokens))) in
  match expanded with
  | None =>
      let* _ := modify (fun pp => report pp true (tokens !! cursor) "failed to expand #line directive") in fail
  | Some expanded =>
      match parse_line_request expanded with
      | inl message => let* _ := modify (fun pp => report pp true (tokens !! cursor) message) in fail
      | inr (newLine, newFile) =>
          let nextPhysical := i32 (directiveLine + 1) in
          let* _ := modify (fun pp => with_line pp (i32 (newLine - nextPhysical)) true) in
          let* _ := modify (fun pp => match newFile with
                                      | Some (String _ _ as f) => pp_set_logical_file pp f
                                      | _ => pp
                                      end) in
          ret (last_of lineEnd)
      end
  end.

(** ** Controlling expressions *)

Definition strip_include_spaces_local (name : list ascii) : list ascii :=
  List.filter (fun c => negb (is_include_space c)) name.

Definition zero_probes : list string :=
  ["__has_builtin"; "__has_extension"; "__has_feature"; "__has_attribute"; "__has_c_attribute";
   "__has_declspec_attribute"; "__has_warning"]%string.

(** The value a probe that is not defined as a macro has. *)
Definition is_builtin_probe_macro_name (name : string) : option string :=
  if bool_decide (name ∈ zero_probes) then Some "0"%string
  else if bool_decide (name = "__is_identifier"%string) then Some "1"%string
  else None.

(** The index behind the parenthesis that closes the one at the head. *)
Fixpoint consume_parenthesized (tokens : list Token) (i : nat) (depth : Z) : option nat :=
  match tokens with
  | [] => None
  | tok :: rest =>
      if tt_eqb (tok_type tok) TOKEN_EOF then None
      else if tt_eqb (tok_type tok) TOKEN_LPAREN then consume_parenthesized rest (S i) (depth + 1)
      else if tt_eqb (tok_type tok) TOKEN_RPAREN then
        if depth - 1 =? 0 then Some (S i) else consume_parenthesized rest (S i) (depth - 1)
      else consume_parenthesized rest (S i) depth
  end.

Definition consume_parenthesized_expression (tokens : list Token) (lparenIndex : nat) : option nat :=
  if negb (has_type TOKEN_LPAREN (tokens !! lparenIndex)) then None
  else consume_parenthesized (drop lparenIndex tokens) lparenIndex 0.

(** [append_expr_token]: the token appended. *)
Definition append_expr_token (tok : Token) : PPM Token :=
  let* pp := get in
  if is_named "__LINE__" tok then
    ret (pp_append_number_literal pp tok
           (int_text (loc_line (range_start (tok_location (pp_token_clone_remap pp tok))))))
  else if is_named "__COUNTER__" tok then
    let* _ := put (with_counter pp (i32 (p_counter pp + 1))) in
    ret (pp_append_number_literal pp tok (int_text (p_counter pp)))
  else if existsb (fun name => is_named name tok) ["__FILE__"; "__BASE_FILE__"; "__DATE__"; "__TIME__"]%string then
    ret (pp_append_number_literal pp tok "0")
  else ret (pp_token_clone_remap pp tok).

Fixpoint append_expr_tokens (tokens : list Token) : PPM (list Token) :=
  match tokens with
  | [] => ret []
  | tok :: rest =>
      let* t := append_expr_token tok in
      let* ts := append_expr_tokens rest in
      ret (t :: ts)
  end.

Definition has_value (name : string) (tok : Token) : bool := bool_decide (tok_value tok = Some name).

Definition is_has_include (tok : Token) : bool :=
  has_value "__has_include" tok || has_value "__has_include_next" tok.

(** The pieces of [<...>]: the name so far, whether it was closed, the index behind it. *)
Fixpoint bracket_name (tokens : list Token) (j : nat) (name : list ascii) : list ascii * bool * nat :=
  match tokens with
  | [] => (name, false, j)
  | tok :: rest =>
      if tt_eqb (tok_type tok) TOKEN_EOF then (name, false, j)
      else if tt_eqb (tok_type tok) TOKEN_GREATER then (name, true, S j)
      else
        let piece := list_ascii_of_string (token_text tok) in
        if bool_decide (name_buffer_size <= length name + length piece + 1)%nat then (name, false, j)
        else bracket_name rest (S j) (name ++ piece)
  end.

(** The operand of [__has_include] behind index [i]: its name, if it is one, whether it is
    in angle brackets, and the index behind it. *)
Definition has_include_operand (tokens : list Token) (i : nat) : option (list ascii * bool) * nat :=
  let hasParen := has_type TOKEN_LPAREN (tokens !! S i) in
  let j := if hasParen then (i + 2)%nat else S i in
  let '(operand, j) :=
    match tokens !! j with
    | Some tok =>
        match tt_eqb (tok_type tok) TOKEN_STRING, tok_value tok with
        | true, Some text =>
            (Some (strip_include_spaces_local (take (name_buffer_size - 1) (list_ascii_of_string text)), false), S j)
        | _, _ =>
            if tt_eqb (tok_type tok) TOKEN_LESS then
              let '(name, closed, j) := bracket_name (drop (S j) tokens) (S j) [] in
              (if (closed : bool) then Some (strip_include_spaces_local name, true) else None, j)
            else (None, j)
        end
    | None => (None, j)
    end in
  (operand, if hasParen && has_type TOKEN_RPAREN (tokens !! j) then S j else j).

(** The call of a probe at index [i] that no macro of the table answers: its value and the
    index behind it. *)
Definition probe_at (pp : Preprocessor) (tokens : list Token) (i : nat) (tok : Token) : option (string * nat) :=
  name ← tok_value tok;
  fallback ← is_builtin_probe_macro_name name;
  match macro_table_lookup (p_table pp) name with
  | Some _ => None
  | None => afterCall ← consume_parenthesized_expression tokens (S i); Some (fallback, afterCall)
  end.

(** The tokens that are copied as they are for a [defined] at index [i]. *)
Definition defined_operand (tokens : list Token) (i : nat) : nat :=
  let j := S i in
  let j := if has_type TOKEN_LPAREN (tokens !! j) then S j else j in
  let j := match tokens !! j with Some _ => S j | None => j end in
  if has_type TOKEN_RPAREN (tokens !! j) then S j else j.

(** Where the span that is expanded ends. *)
Definition ends_span (tok : Token) : bool :=
  has_value "defined" tok || is_has_include tok || tt_eqb (tok_type tok) TOKEN_EOF.

Definition set_preserve (enabled : bool) (pp : Preprocessor) : Preprocessor :=
  with_expander pp (macro_expander_set_preserve_defined_operands (p_expander pp) enabled).

(** A span is expanded with the operands of [defined] kept. *)
Definition expand_span (span : list Token) : PPM (list Token) :=
  match span with
  | [] => ret []
  | _ :: _ =>
      let* _ := modify (set_preserve true) in
      let* expanded := attempt (expand span) in
      let* _ := modify (set_preserve false) in
      match expanded with
      | None => fail
      | Some expanded => append_expr_tokens expanded
      end
  end.

(** [steps] bounds the iterations of the loop. *)
Fixpoint prepare_loop (steps : nat) (tokens : list Token) (i : nat) (out : list Token) : PPM (list Token) :=
  match steps with
  | O => stuck
  | S steps' =>
      match tokens !! i with
      | None => ret out
      | Some tok =>
          let* pp := get in
          if is_has_include tok then
            let '(operand, j) := has_include_operand tokens i in
            let* present :=
              match operand with
              | Some ((_ :: _) as name, isSystem) =>
                  let* found := resolver_load (token_file (Some tok)) (string_of_list_ascii name) isSystem
                                  (has_value "__has_include_next" tok) in
                  ret (bool_decide (is_Some found))
              | _ => ret false
              end in
            prepare_loop steps' tokens (Nat.max j (S i))
              (out ++ [pp_append_number_literal pp tok (if (present : bool) then "1" else "0")])
          else
            match probe_at pp tokens i tok with
            | Some (fallback, afterCall) =>
                prepare_loop steps' tokens afterCall (out ++ [pp_append_number_literal pp tok fallback])
            | None =>
                if is_named "defined" tok then
                  let j := defined_operand tokens i in
                  let* kept := append_expr_tokens (take (j - i) (drop i tokens)) in
                  prepare_loop steps' tokens j (out ++ kept)
                else
                  let run := (span (fun t => negb (ends_span t)) (drop i tokens)).1 in
                  let* expanded := expand_span run in
                  prepare_loop steps' tokens (i + length run) (out ++ expanded)
            end
      end
  end.

Definition pp_prepare_expr_tokens (tokens : list Token) : PPM (list Token) :=
  prepare_loop (S (length tokens)) tokens 0 [].

(** ** Flushing text *)

(** What a failed expansion is reported as. *)
Definition flush_failure (pp : Preprocessor) : Preprocessor :=
  let me := p_expander pp in
  match mei_kind (me_lastError me) with
  | ME_ERR_MACRO_ARG_COUNT => report pp true None "macro requires another number of arguments"
  | ME_ERR_UNSUPPORTED_GNU_COMMA_VA_ARGS =>
      report pp true None "GNU ', ##__VA_ARGS__' extension is not supported"
  | ME_ERR_NONE =>
      report pp true None
        match (macro_table_last_error (me_table me)).1 with
        | MT_ERR_RECURSION => "macro recursion detected"
        | MT_ERR_DEPTH => "macro expansion depth exceeded (possible recursion)"
        | MT_ERR_NONE => "macro expansion failed (possible recursion)"
        end
  end.

(** The tokens kept: no [_Pragma] operators, no unknown tokens.  [skip] tokens belong to the
    last operator. *)
Fixpoint flush_filter (tokens : list Token) (skip : nat) : list Token :=
  match tokens with
  | [] => []
  | tok :: rest =>
      match skip with
      | S skip' => flush_filter rest skip'
      | O =>
          match pp_skip_pragma_operator (tok :: rest) 0 with
          | Some cursor => flush_filter rest cursor
          | None => if tt_eqb (tok_type tok) TOKEN_UNKNOWN then flush_filter rest 0
                    else tok :: flush_filter rest 0
          end
      end
  end.

Definition pp_flush_chunk (chunk : list Token) : PPM unit :=
  match chunk with
  | [] => ret tt
  | _ :: _ =>
      let* expanded := attempt (expand chunk) in
      match expanded with
      | None => let* _ := modify flush_failure in fail
      | Some expanded =>
          modify (fun pp => with_output pp (map (pp_token_clone_remap pp) (flush_filter expanded 0)))
      end
  end.

Definition pp_append_directive_line (tokens : list Token) (cursor : nat) : PPM unit :=
  let stop := line_end tokens (token_line tokens cursor) cursor in
  if decide (stop <= cursor)%nat then fail
  else modify (fun pp =>
         with_output pp (map (pp_token_clone_remap pp) (take (stop - cursor) (drop cursor tokens)))).

End Directives.
