(* ===== verification/PreprocessorHost.v ===== *)
(** * [#include] and the whole preprocessor (src/Preprocessor/preprocessor_include_directive.c,
    preprocessor.c).

    [process_include] is the handler in [PREPROCESS_INTERNAL] mode with the summary replays
    off, their default; the profiler is left out.  The driver of PPConditional runs on the
    operations of PPDirectives through [pp_host]; a host state [None] is a run without a
    result (fuel).  [fuel] bounds the nesting of macro expansions and of included files. *)
From S2P Require Import Prelude StateError CType Tokens LexerSource Lexer MacroTable MacroExpander.
From S2P Require Import PPExpr PPConditional PPIncludeStack PPInclude PPDirectives.

Definition FISICS_MAX_INCLUDE_DEPTH : nat := 256.

(** ** Files of the resolver *)

Definition with_stack (pp : Preprocessor) (st : IncludeStack) : Preprocessor :=
  with_includes pp (mkIncludes st (in_files (p_includes pp)) (in_records (p_includes pp)) (in_graph (p_includes pp))).

Definition update_file (pp : Preprocessor) (index : nat) (f : IncludeFile -> IncludeFile) : Preprocessor :=
  with_files pp (alter f index (p_files pp)).

Definition set_included (f : IncludeFile) : IncludeFile :=
  mkIncludeFile (if_path f) (if_contents f) (if_lexedTokens f) (if_cachedGuardName f) (if_summaryProbe f)
    (if_summaryActions f) (if_pragmaOnce f) true (if_origin f) (if_originIndex f).

Definition set_lexed (tokens : list Token) (f : IncludeFile) : IncludeFile :=
  mkIncludeFile (if_path f) (if_contents f) (Some tokens) (if_cachedGuardName f) (if_summaryProbe f)
    (if_summaryActions f) (if_pragmaOnce f) (if_includedOnce f)
        (if_origin f) (if_originIndex f).

(** [pp_include_file_cache_guard]: an empty name is not kept. *)
Definition set_guard (guard : option string) (f : IncludeFile) : IncludeFile :=
  match guard with
  | Some (String _ _ as g) =>
      mkIncludeFile (if_path f) (if_contents f) (if_lexedTokens f) (Some g) (if_summaryProbe f)
        (if_summaryActions f) (if_pragmaOnce f) (if_includedOnce f)
        (if_origin f) (if_originIndex f)
  | _ => f
  end.

Definition set_probe (probe : IncludeSummaryProbe) (f : IncludeFile) : IncludeFile :=
  mkIncludeFile (if_path f) (if_contents f) (if_lexedTokens f) (if_cachedGuardName f) probe
    (if_summaryActions f) (if_pragmaOnce f) (if_includedOnce f)
        (if_origin f) (if_originIndex f).

Definition set_actions (actions : list IncludeSummaryAction) (f : IncludeFile) : IncludeFile :=
  mkIncludeFile (if_path f) (if_contents f) (if_lexedTokens f) (if_cachedGuardName f) (if_summaryProbe f)
    actions (if_pragmaOnce f) (if_includedOnce f)
        (if_origin f) (if_originIndex f).

Definition pp_include_file_mark_included (pp : Preprocessor) (index : nat) : Preprocessor :=
  update_file pp index set_included.

(** The tokens of a text; [None] when there is no end-of-file token among them. *)
Definition tokenize (contents : list ascii) (path : option string) (trigraphs : bool) : option (list Token) :=
  '(T, lx) ← initLexer contents path trigraphs;
  '(ok, buffer, _) ← token_buffer_fill_from_lexer T token_buffer_init lx;
  if (ok : bool) then Some (tb_tokens buffer) else None.

(** The tokens of a file, kept for the next time. *)
Definition pp_include_file_get_lexed_tokens (index : nat) : PPM (list Token) :=
  let* pp := get in
  match p_files pp !! index with
  | Some file =>
      match if_contents file, if_path file with
      | Some contents, Some path =>
          match if_lexedTokens file with
          | Some tokens => ret tokens
          | None =>
              match tokenize contents (Some path) (p_enableTrigraphs pp) with
              | Some tokens =>
                  let* _ := put (update_file pp index (set_lexed tokens)) in
                  ret tokens
              | None => fail
              end
          end
      | _, _ => fail
      end
  | None => fail
  end.

(** ** Steps of [process_include] *)

(** An expanded operand is moved to the directive's line. *)
Definition move_to_line (line : Z) (tok : Token) : Token :=
  let move loc := mkSourceLocation (loc_file loc) line (loc_column loc) in
  mkToken (tok_type tok) (tok_value tok) line (tok_spellingLine tok) (tok_spellingColumn tok)
    (mkSourceRange (move (range_start (tok_location tok))) (move (range_end (tok_location tok))))
    (tok_macroCallSite tok) (tok_macroDefinition tok).

Definition line_eof (line : Z) : Token :=
  mkToken TOKEN_EOF None line 0 0 empty_source_range empty_source_range empty_source_range.

Definition with_record (pp : Preprocessor) (r : FisicsInclude) : Preprocessor :=
  let inc := p_includes pp in
  with_includes pp (mkIncludes (in_stack inc) (in_files inc) (in_records inc ++ [r]) (in_graph inc)).

(** [include_graph_add]: an edge is kept once (the index of the edges is left out). *)
Definition with_edge (pp : Preprocessor) (from to : string) : Preprocessor :=
  let inc := p_includes pp in
  with_includes pp (mkIncludes (in_stack inc) (in_files inc) (in_records inc)
    (if decide ((from, to) ∈ in_graph inc) then in_graph inc else in_graph inc ++ [(from, to)])).

Definition include_origin (isSystem haveInc : bool) (origin : IncludeSearchOrigin) : FisicsIncludeOrigin :=
  if negb haveInc then FISICS_INCLUDE_UNRESOLVED
  else match origin with
       | INCLUDE_SEARCH_SAME_DIR => FISICS_INCLUDE_PROJECT
       | INCLUDE_SEARCH_INCLUDE_PATH => if isSystem then FISICS_INCLUDE_SYSTEM_ORIGIN else FISICS_INCLUDE_PROJECT
       | INCLUDE_SEARCH_RAW => if isSystem then FISICS_INCLUDE_SYSTEM_ORIGIN else FISICS_INCLUDE_EXTERNAL
       end.

Definition guard_covers_whole_file (probe : IncludeSummaryProbe) : bool :=
  negb (bool_decide (pr_status probe = INCLUDE_SUMMARY_PROBE_CANDIDATE)) || negb (pr_routerRawTail probe).

(** [#ifndef guard] would skip the file. *)
Definition guard_defined (pp : Preprocessor) (guard : option string) (probe : IncludeSummaryProbe) : bool :=
  match guard with
  | Some g => guard_covers_whole_file probe && bool_decide (is_Some (macro_table_lookup (p_table pp) g))
  | None => false
  end.

(** The first scan of a file from the include path: its summary and what it tells. *)
Definition scan_summary (tokens : list Token) (guard : option string)
    : option string * IncludeSummaryProbe * list IncludeSummaryAction :=
  let '(probe, actions) := analyze_include_summary_probe tokens in
  let guard := match guard with
               | Some g => Some g
               | None => match detect_include_guard_from_summary_actions tokens actions with
                         | Some g => Some g
                         | None => detect_include_guard tokens
                         end
               end in
  if bool_decide (pr_status probe = INCLUDE_SUMMARY_PROBE_CANDIDATE) then
    let '(routerOnly, once) := classify_include_summary_router_only tokens actions guard (pr_routerHasPragmaOnce probe) in
    let '(rawTail, once) := if (routerOnly : bool) then (pr_routerRawTail probe, once)
                            else classify_include_summary_router_raw_tail tokens actions guard once in
    (guard, mkProbe (pr_status probe) (pr_directiveCount probe) (pr_includeCount probe) (pr_defineCount probe)
              (pr_conditionalCount probe) routerOnly rawTail once, actions)
  else (guard, probe, actions).

(** The guard of the file at [index] and its summary, both cached. *)
Definition find_guard (index : nat) (file : IncludeFile) (tokens : list Token) (supported : bool)
    : PPM (option string * IncludeSummaryProbe) :=
  let unknown := bool_decide (pr_status (if_summaryProbe file) = INCLUDE_SUMMARY_PROBE_UNKNOWN) in
  if supported && unknown then
    let '(guard, probe, actions) := scan_summary tokens (if_cachedGuardName file) in
    let* _ := modify (fun pp => update_file pp index (set_guard guard)) in
    let* _ := modify (fun pp => update_file pp index (set_probe probe)) in
    let* _ := modify (fun pp =>
      if bool_decide (pr_status probe = INCLUDE_SUMMARY_PROBE_CANDIDATE)
      then update_file pp index (set_actions actions) else pp) in
    ret (guard, probe)
  else
    let guard := match if_cachedGuardName file with Some g => Some g | None => detect_include_guard tokens end in
    let* _ := modify (fun pp => update_file pp index (set_guard guard)) in
    ret (guard, if_summaryProbe file).

Definition with_place (pp : Preprocessor) (file : option string) (offset : Z) (active : bool) : Preprocessor :=
  mkPreprocessor (p_expander pp) (p_baseFile pp) file offset active (p_counter pp) (p_dateString pp)
    (p_timeString pp) (p_logicalFilePool pp) (p_preserveDirectives pp) (p_lenientMissingIncludes pp)
    (p_enableTrigraphs pp) (p_includes pp) (p_diagnostics pp) (p_output pp).

(** [body] in a place of its own: the line mapping is put back whatever happens. *)
Definition in_new_place {A} (body : PPM A) : PPM A :=
  let* saved := get in
  let* _ := put (with_place saved None 0 false) in
  let* r := attempt body in
  let* _ := modify (fun pp => with_place pp (p_logicalFile saved) (p_lineOffset saved) (p_lineRemapActive saved)) in
  match r with Some a => ret a | None => fail end.

Section Include.
Context (fuel : nat)
  (load : list IncludeFile -> option string -> string -> bool -> bool ->
          list IncludeFile * option (nat * IncludeSearchOrigin * Z)).
(** [preprocess_tokens] on the tokens of a file. *)
Context (run_tokens : list Token -> PPM unit).

(** The name of the file, whether it is a system file, and the new cursor. *)
Definition include_operand (tokens : list Token) (cursor : nat) : PPM (string * bool * nat) :=
  let directiveLine := token_line tokens cursor in
  let lineEnd := line_end tokens directiveLine (S cursor) in
  match parse_include_operand tokens cursor with
  | Some (cursor, name, isSystem) => ret (name, isSystem, cursor)
  | None =>
      let* expanded := attempt (expand fuel (take (lineEnd - S cursor) (drop (S cursor) tokens))) in
      match expanded with
      | None =>
          let* _ := modify (fun pp => report pp true (tokens !! cursor) "failed to expand #include operand") in fail
      | Some expanded =>
          let temp := option_list (tokens !! cursor) ++ map (move_to_line directiveLine) expanded ++ [line_eof directiveLine] in
          match parse_include_operand temp 0 with
          | None => let* _ := modify (fun pp => report pp true (tokens !! cursor) "invalid #include operand") in fail
          | Some (_, name, isSystem) => ret (name, isSystem, (lineEnd - 1)%nat)
          end
      end
  end.

(** A file that is not included because it is being included already. *)
Definition refuse_recursive (tok : option Token) (path : option string) : PPM bool :=
  let* pp := get in
  if p_lenientMissingIncludes pp then ret false
  else
    let* _ := put (report pp true tok ("detected recursive include of '" ++ default "<unknown>"%string path ++ "'")) in
    fail.

(** Whether the file at [index] is to be read now: its guard is not defined, it is not being
    included, and the nesting is below the limit. *)
Definition admit_include (tok : option Token) (index : nat) (origin : IncludeSearchOrigin) (originIndex : Z)
    (tokens : list Token) (recurse : bool) : PPM bool :=
  let* pp := get in
  match p_files pp !! index with
  | None => stuck
  | Some file =>
      let supported := bool_decide (origin = INCLUDE_SEARCH_INCLUDE_PATH) in
      let pragmaOnce := if_pragmaOnce file || detect_leading_pragma_once tokens in
      let* _ := modify (fun pp => if pragmaOnce then update_file pp index set_pragma_once else pp) in
      let* '(guard, probe) := find_guard index file tokens supported in
      let* pp := get in
      if guard_defined pp guard probe then
        let* _ := put (pp_include_file_mark_included pp index) in ret false
      else if recurse && pragmaOnce then ret false
      else
        let reentry := match pp_include_stack_top (p_includeStack pp) with
                       | Some frame => supported && bool_decide (frame_origin frame = INCLUDE_SEARCH_INCLUDE_PATH) &&
                                       (originIndex <? frame_originIndex frame)
                       | None => false
                       end in
        if recurse && negb reentry then refuse_recursive tok (if_path file)
        else if bool_decide (FISICS_MAX_INCLUDE_DEPTH <= inc_depth (p_includeStack pp))%nat
        then refuse_recursive tok (if_path file)
        else ret true
  end.

(** The file's tokens, with its frame on the stack. *)
Definition include_body (path : option string) (origin : IncludeSearchOrigin) (originIndex : Z)
    (tokens : list Token) : PPM (option unit) :=
  let* pp := get in
  match path with
  | None => attempt (run_tokens tokens)
  | Some path =>
      let* st := lift (pp_include_stack_push (p_includeStack pp) path origin originIndex) in
      let* _ := put (with_stack pp st) in
      let* r := attempt (run_tokens tokens) in
      let* pp := get in
      let* st := lift (pp_include_stack_pop (p_includeStack pp)) in
      let* _ := put (with_stack pp st) in
      ret r
  end.

(** A file that was found. *)
Definition include_file (tok : option Token) (index : nat) (file : IncludeFile) (origin : IncludeSearchOrigin)
    (originIndex : Z) : PPM unit :=
  let* pp := get in
  if if_pragmaOnce file && if_includedOnce file then ret tt
  else
    let* recurse := lift (match if_path file with
                          | Some path => pp_include_stack_contains (p_includeStack pp) path
                          | None => Some false
                          end) in
    if guard_defined pp (if_cachedGuardName file) (if_summaryProbe file) then ret tt
    else
      in_new_place (
        let* tokens := pp_include_file_get_lexed_tokens index in
        let* admitted := admit_include tok index origin originIndex tokens recurse in
        if (admitted : bool) then
          let* r := include_body (if_path file) origin originIndex tokens in
          let* _ := modify (fun pp => pp_include_file_mark_included pp index) in
          match r with Some _ => ret tt | None => fail end
        else ret tt).

Definition process_include (tokens : list Token) (cursor : nat) (isIncludeNext : bool) : PPM nat :=
  let* '(name, isSystem, cursor) := include_operand tokens cursor in
  let tok := tokens !! cursor in
  let parentFile := token_file tok in
  let* found := resolver_load load parentFile name isSystem isIncludeNext in
  let* pp := get in
  let inc := '(index, origin, originIndex) ← found;
             file ← p_files pp !! index;
             Some (index, file, origin, originIndex) in
  let* _ := put (with_record pp (mkFisicsInclude name isSystem (match tok with Some t => tok_line t | None => 0 end)
    (match tok with Some t => loc_column (range_start (tok_location t)) | None => 0 end) (bool_decide (is_Some inc))
    ('(_, file, _, _) ← inc; if_path file)
    (include_origin isSystem (bool_decide (is_Some inc)) (match inc with Some (_, _, o, _) => o | None => INCLUDE_SEARCH_RAW end)))) in
  match inc with
  | None =>
      if isSystem || p_lenientMissingIncludes pp then
        let* _ := modify (fun pp =>
          if isSystem && include_name_is_suspicious name then pp
          else report pp false tok ("skipping missing " ++ (if isSystem then "system" else "local") ++ " include '" ++ name ++ "'")) in
        ret cursor
      else
        let* _ := modify (fun pp => report pp true tok ("could not resolve include '" ++ name ++ "'")) in fail
  | Some (index, file, origin, originIndex) =>
      let* _ := modify (fun pp => with_edge pp (default "<unknown>"%string parentFile)
                                    (default "<unknown>"%string (if_path file))) in
      let* _ := include_file tok index file origin originIndex in
      ret cursor
  end.

End Include.

(** ** The driver on this state *)

(** A failure, or no result at all, is [inl]. *)
Definition host_of {A} (m : PPM A) (pp : option Preprocessor) : option Preprocessor + option Preprocessor * A :=
  match pp with
  | None => inl None
  | Some pp => match m pp with
               | None => inl None
               | Some (None, pp) => inl (Some pp)
               | Some (Some a, pp) => inr (Some pp, a)
               end
  end.

Definition host_unit (m : PPM unit) (pp : option Preprocessor) : option Preprocessor + option Preprocessor :=
  match host_of m pp with inl pp => inl pp | inr (pp, _) => inr pp end.

Section Host.
Context (load : list IncludeFile -> option string -> string -> bool -> bool ->
                list IncludeFile * option (nat * IncludeSearchOrigin * Z)).

Definition pp_host (fuel : nat) (include : list Token -> nat -> bool -> PPM nat) : PPHost (option Preprocessor) := {|
  pp_table pp := match pp with Some pp => p_table pp | None => macro_table_create end;
  lenientMissingIncludes pp := match pp with Some pp => p_lenientMissingIncludes pp | None => false end;
  preserveDirectives pp := match pp with Some pp => p_preserveDirectives pp | None => false end;
  pp_report_diag pp error tok message := (fun pp => report pp error tok message) <$> pp;
  PPConditional.pp_prepare_expr_tokens pp tokens := host_of (pp_prepare_expr_tokens fuel load tokens) pp;
  pp_flush_tokens pp tokens := host_unit (pp_flush_chunk fuel tokens) pp;
  PPConditional.pp_append_directive_line pp tokens i := host_unit (pp_append_directive_line tokens i) pp;
  PPConditional.process_define pp tokens i := host_of (process_define tokens i) pp;
  PPConditional.process_include pp tokens i isNext := host_of (include tokens i isNext) pp;
  PPConditional.process_undef pp tokens i := host_of (process_undef tokens i) pp;
  PPConditional.process_pragma pp tokens i := host_of (process_pragma tokens i) pp;
  PPConditional.process_line_directive pp tokens i := host_of (process_line_directive fuel tokens i) pp
|}.

(** The base file, and the logical file unless [#line] or an includer has set one. *)
Definition start_file (tokens : list Token) (pp : Preprocessor) : Preprocessor :=
  match token_file (head tokens) with
  | None => pp
  | Some file =>
      let pp := pp_set_base_file pp (Some file) in
      match p_logicalFile pp with
      | None => pp_set_logical_file pp file
      | Some _ => pp
      end
  end.

Definition run_host (host : PPHost (option Preprocessor)) (tokens : list Token) : PPM unit := fun pp =>
  match @preprocess_tokens _ host (Some (start_file tokens pp)) tokens with
  | Some (Some pp, ok) => Some (if (ok : bool) then Some tt else None, pp)
  | _ => None
  end.

(** [depth] files may be open below the current one. *)
Fixpoint include_at (fuel depth : nat) (tokens : list Token) (cursor : nat) (isNext : bool) : PPM nat :=
  match depth with
  | O => stuck
  | S depth' => process_include fuel load (run_host (pp_host fuel (include_at fuel depth'))) tokens cursor isNext
  end.

Definition preprocess (fuel : nat) (tokens : list Token) : PPM unit :=
  run_host (pp_host fuel (include_at fuel fuel)) tokens.

Definition eof_token : Token :=
  mkToken TOKEN_EOF None 0 0 0 empty_source_range empty_source_range empty_source_range.

(** The root file is on the stack while it is read.  The end-of-file tokens that follow the
    output of a run that failed are left out. *)
Definition preprocessor_run (fuel : nat) (tokens : list Token) : PPM unit :=
  let* pp := get in
  let* ok :=
    match token_file (head tokens) with
    | None => attempt (preprocess fuel tokens)
    | Some rootPath =>
        let '(origin, originIndex) := match list_find (fun f => if_path f = Some rootPath) (p_files pp) with
                                      | Some (_, f) => (if_origin f, if_originIndex f)
                                      | None => (INCLUDE_SEARCH_RAW, -1)
                                      end in
        include_body (preprocess fuel) (Some rootPath) origin originIndex tokens
    end in
  match ok with
  | Some _ => modify (fun pp => with_output pp [eof_token])
  | None => fail
  end.

End Host.
