(* ===== verification/PPBuiltins.v ===== *)
(** * Predefined macros, command-line macros and the initial state
    (src/Preprocessor/preprocessor_builtins.c, [preprocessor_init] of preprocessor.c).

    A replacement text is tokenised by the lexer; one that cannot be is not defined.
    Allocation failure is not modelled.  The clock and the environment are parameters of
    [preprocessor_init]. *)
From S2P Require Import Prelude StateError CType Tokens LexerSource Lexer MacroTable MacroExpander.
From S2P Require Import PPExpr PPConditional PPIncludeStack PPInclude PPDirectives PreprocessorHost.

(** [tokenize_macro_replacement]: the tokens before the end of file. *)
Definition tokenize_macro_replacement (value : option (list ascii)) : option PPTokenBuffer :=
  match value with
  | None | Some [] => Some []
  | Some text =>
      tokens ← tokenize text (Some "<command-line-macro>"%string) false;
      Some (span (fun t => negb (tt_eqb (tok_type t) TOKEN_EOF)) tokens).1
  end.

(** A run of backslashes before a double quote is dropped; [skip] characters were consumed. *)
Fixpoint normalize_cli_macro_value (value : list ascii) (skip : nat) : list ascii :=
  match value with
  | [] => []
  | c :: rest =>
      match skip with
      | S skip' => normalize_cli_macro_value rest skip'
      | O =>
          let run := length (span (fun c => c =c BACKSLASH) rest).1 in
          match (c =c BACKSLASH), drop run rest with
          | true, d :: _ =>
              if d =c DQUOTE then DQUOTE :: normalize_cli_macro_value rest (S run)
              else c :: normalize_cli_macro_value rest 0
          | _, _ => c :: normalize_cli_macro_value rest 0
          end
      end
  end.

Definition try_tokenize_cli_quoted_string (value : list ascii) : option Token :=
  if decide (length value < 2)%nat then None
  else match head value, list.last value with
       | Some a, Some b =>
           if (a =c DQUOTE) && (b =c DQUOTE)
           then Some (mkToken TOKEN_STRING (Some (string_of_list_ascii (take (length value - 2) (drop 1 value)))) 0 0 0
                        empty_source_range empty_source_range empty_source_range)
           else None
       | _, _ => None
       end.

Definition text_of (s : string) : option (list ascii) := Some (list_ascii_of_string s).

Definition define_builtin_object (t : MacroTable) (name value : string) : MacroTable :=
  match tokenize_macro_replacement (text_of value) with
  | None => t
  | Some body => macro_table_define_object t name body empty_source_range
  end.

Definition define_builtin_function (t : MacroTable) (name : string) (params : list string) (variadic : bool)
    (value : string) : MacroTable :=
  match tokenize_macro_replacement (text_of value) with
  | None => t
  | Some body => macro_table_define_function t name params variadic false body empty_source_range
  end.

Definition define_builtin_empty_macro (t : MacroTable) (name : string) : MacroTable :=
  macro_table_define_function (define_builtin_object t name "") name [] true false [] empty_source_range.

Definition float_builtins : list (string * string) :=
  [("__FLT_EVAL_METHOD__", "0"); ("__FLT_RADIX__", "2"); ("__FLT_MANT_DIG__", "24");
   ("__DBL_MANT_DIG__", "53"); ("__LDBL_MANT_DIG__", "53"); ("__FLT_DIG__", "6"); ("__DBL_DIG__", "15");
   ("__LDBL_DIG__", "15"); ("__FLT_MIN_EXP__", "(-125)"); ("__DBL_MIN_EXP__", "(-1021)");
   ("__LDBL_MIN_EXP__", "(-1021)"); ("__FLT_MIN_10_EXP__", "(-37)"); ("__DBL_MIN_10_EXP__", "(-307)");
   ("__LDBL_MIN_10_EXP__", "(-307)"); ("__FLT_MAX_EXP__", "128"); ("__DBL_MAX_EXP__", "1024");
   ("__LDBL_MAX_EXP__", "1024"); ("__FLT_MAX_10_EXP__", "38"); ("__DBL_MAX_10_EXP__", "308");
   ("__LDBL_MAX_10_EXP__", "308"); ("__FLT_MAX__", "3.402823466e+38F");
   ("__DBL_MAX__", "1.7976931348623157e+308"); ("__LDBL_MAX__", "1.7976931348623157e+308L");
   ("__FLT_MIN__", "1.175494351e-38F"); ("__DBL_MIN__", "2.2250738585072014e-308");
   ("__LDBL_MIN__", "2.2250738585072014e-308L"); ("__FLT_EPSILON__", "1.19209290e-7F");
   ("__DBL_EPSILON__", "2.2204460492503131e-16"); ("__LDBL_EPSILON__", "2.2204460492503131e-16L");
   ("__FLT_DENORM_MIN__", "1.40129846e-45F"); ("__DBL_DENORM_MIN__", "4.9406564584124654e-324");
   ("__LDBL_DENORM_MIN__", "4.9406564584124654e-324L"); ("__FLT_DECIMAL_DIG__", "9");
   ("__DBL_DECIMAL_DIG__", "17"); ("__LDBL_DECIMAL_DIG__", "17");
   ("__DECIMAL_DIG__", "__LDBL_DECIMAL_DIG__")]%string.

Definition define_objects (t : MacroTable) (defs : list (string * string)) : MacroTable :=
  foldl (fun t '(name, value) => define_builtin_object t name value) t defs.

Definition define_default_float_builtins (t : MacroTable) : MacroTable := define_objects t float_builtins.

Definition platform_builtins : list (string * string) :=
  [("__APPLE__", "1"); ("__MACH__", "1"); ("__APPLE_CC__", "1"); ("__APPLE_CPP__", "1"); ("__arm64__", "1");
   ("__LP64__", "1"); ("__clang__", "1"); ("__GNUC__", "4"); ("__GNUC_MINOR__", "2");
   ("__GNUC_PATCHLEVEL__", "1"); ("__STDC_HOSTED__", "1")]%string.

Definition atomic_and_order_builtins : list (string * string) :=
  [("__ATOMIC_RELAXED", "0"); ("__ATOMIC_CONSUME", "1"); ("__ATOMIC_ACQUIRE", "2");
   ("__ATOMIC_RELEASE", "3"); ("__ATOMIC_ACQ_REL", "4"); ("__ATOMIC_SEQ_CST", "5");
   ("__ORDER_LITTLE_ENDIAN__", "1234"); ("__ORDER_BIG_ENDIAN__", "4321"); ("__ORDER_PDP_ENDIAN__", "3412");
   ("__BYTE_ORDER__", "__ORDER_LITTLE_ENDIAN__"); ("__LITTLE_ENDIAN__", "1"); ("_LITTLE_ENDIAN", "1");
   ("LITTLE_ENDIAN", "1234"); ("BIG_ENDIAN", "4321"); ("BYTE_ORDER", "LITTLE_ENDIAN")]%string.

Definition probe_builtins : list (string * string) :=
  [("__has_builtin", "0"); ("__has_extension", "0"); ("__has_feature", "0"); ("__has_attribute", "0");
   ("__has_c_attribute", "0"); ("__has_declspec_attribute", "0"); ("__has_warning", "0");
   ("__is_identifier", "1"); ("__has_include", "0"); ("__has_include_next", "0")]%string.

(** [stdc] is [cc_dialect_stdc_version]; [extensions] is [cc_has_any_compat_features]. *)
Definition define_default_builtins (t : MacroTable) (stdc : Z) (extensions : bool) : MacroTable :=
  let version := (int_text stdc ++ "L")%string in
  let t := define_objects t platform_builtins in
  let t := define_builtin_object t "__STDC_VERSION__" version in
  let t := define_builtin_object t "__FISICS__" "1" in
  let t := define_builtin_object t "__FISICS_DIALECT__" version in
  let t := if extensions then define_builtin_object t "__FISICS_EXTENSIONS__" "1" else t in
  let t := define_builtin_object t "MAC_OS_X_VERSION_MIN_REQUIRED" "130000" in
  let t := define_default_float_builtins t in
  let t := define_objects t atomic_and_order_builtins in
  foldl (fun t '(name, value) => define_builtin_function t name ["x"%string] false value) t probe_builtins.

Definition libc_bounds_macros : list string :=
  ["_LIBC_SINGLE_BY_DEFAULT"; "_LIBC_PTRCHECK_REPLACED"; "_LIBC_COUNT"; "_LIBC_COUNT_OR_NULL"; "_LIBC_SIZE";
   "_LIBC_SIZE_OR_NULL"; "_LIBC_ENDED_BY"; "_LIBC_SINGLE"; "_LIBC_UNSAFE_INDEXABLE"; "_LIBC_CSTR";
   "_LIBC_NULL_TERMINATED"; "_LIBC_FLEX_COUNT"]%string.

Definition availability_macros : list string :=
  ["__API_AVAILABLE"; "__API_DEPRECATED"; "__API_DEPRECATED_WITH_REPLACEMENT"; "__API_UNAVAILABLE";
   "__API_AVAILABLE_BEGIN"; "__API_AVAILABLE_END"; "__OSX_AVAILABLE_STARTING";
   "__OSX_AVAILABLE_BUT_DEPRECATED"; "__OSX_DEPRECATED"; "__IOS_AVAILABLE"; "__IOS_DEPRECATED";
   "__IOS_UNAVAILABLE"; "__TVOS_AVAILABLE"; "__TVOS_DEPRECATED"; "__TVOS_UNAVAILABLE"; "__WATCHOS_AVAILABLE";
   "__WATCHOS_DEPRECATED"; "__WATCHOS_UNAVAILABLE"; "__WATCHOS_PROHIBITED"; "__TVOS_PROHIBITED";
   "__IOS_PROHIBITED"; "__MAC_OS_X_VERSION_MIN_REQUIRED"; "__MAC_OS_X_VERSION_MAX_ALLOWED"]%string.

Definition define_noop_macro_groups (t : MacroTable) : MacroTable :=
  foldl define_builtin_empty_macro (foldl define_builtin_empty_macro t libc_bounds_macros) availability_macros.

(** One [-D]: the name and, behind a [=], the value. *)
Definition split_define (def : list ascii) : option (string * option (list ascii)) :=
  let def := match def with
             | a :: b :: rest => if (a =c "-") && (b =c "D") then rest else def
             | _ => def
             end in
  match def with
  | [] => None
  | _ :: _ =>
      match span (fun c => negb (c =c "=")) def with
      | (name, _ :: value) => Some (string_of_list_ascii name, Some value)
      | (name, []) => Some (string_of_list_ascii name, None)
      end
  end.

Definition cli_body (value : option (list ascii)) : option PPTokenBuffer :=
  let value := (fun v => normalize_cli_macro_value v 0) <$> value in
  match (match value with Some ((_ :: _) as v) => try_tokenize_cli_quoted_string v | _ => None end) with
  | Some tok => Some [tok]
  | None => tokenize_macro_replacement value
  end.

Definition define_cli_macro (t : MacroTable) (def : string) : MacroTable :=
  match split_define (list_ascii_of_string def) with
  | None => t
  | Some (name, value) =>
      match cli_body value with
      | None => t
      | Some body => macro_table_define_object t name body empty_source_range
      end
  end.

Definition define_cli_macros (t : MacroTable) (macroDefines : list string) : MacroTable :=
  foldl define_cli_macro t macroDefines.

Definition pp_define_predefined_macros (t : MacroTable) (stdc : Z) (extensions : bool) (macroDefines : list string)
    : MacroTable :=
  define_cli_macros (define_noop_macro_groups (define_default_builtins t stdc extensions)) macroDefines.

(** ** The initial state *)

Record PPConfig := mkPPConfig {
  cfg_preserveDirectives : bool;
  cfg_lenientMissingIncludes : bool;
  cfg_enableTrigraphs : bool;
  cfg_stdc : Z;
  cfg_extensions : bool;
  cfg_expansionLimit : option nat;      (* a positive [FISICS_MACRO_EXP_LIMIT] *)
  cfg_date : string;
  cfg_time : string;
  cfg_files : list IncludeFile          (* seeded in the resolver *)
}.

Definition preprocessor_init (cfg : PPConfig) (macroDefines : list string) : Preprocessor :=
  let table := match cfg_expansionLimit cfg with
               | Some limit => macro_table_set_expansion_limit macro_table_create limit
               | None => macro_table_create
               end in
  let table := pp_define_predefined_macros table (cfg_stdc cfg) (cfg_extensions cfg) macroDefines in
  mkPreprocessor (macro_expander_init table) None None 0 false 0 (cfg_date cfg) (cfg_time cfg) []
    (cfg_preserveDirectives cfg) (cfg_lenientMissingIncludes cfg) (cfg_enableTrigraphs cfg)
    (mkIncludes empty_include_stack (cfg_files cfg) [] []) [] [].

Definition plain_config : PPConfig := mkPPConfig false false false 201112 false None "" "" [].

Definition body_of_X (def : list ascii) : option (list (TokenType * option string)) :=
  (fun d => map (fun t => (tok_type t, tok_value t)) (md_body d)) <$>
  (table_map (define_cli_macros macro_table_create [string_of_list_ascii def]) !! "X"%string).

Definition chars (s : string) : list ascii := list_ascii_of_string s.

Example cli_macros :
  map body_of_X
    [chars "-DX=1"; chars "X=" ++ [DQUOTE] ++ chars "a b" ++ [DQUOTE];
     chars "X=" ++ [BACKSLASH; DQUOTE] ++ chars "a" ++ [BACKSLASH; BACKSLASH; DQUOTE]; chars "-D"; chars "Y=X"]
  = [Some [(TOKEN_NUMBER, Some "1")]; Some [(TOKEN_STRING, Some "a b")]; Some [(TOKEN_STRING, Some "a")]; None; None]%string.
Proof. vm_compute. reflexivity. Qed.

(** [-DX] without a value: the replacement is empty, other compilers define 1. *)
Example define_without_value : body_of_X (chars "-DX") = Some [].
Proof. vm_compute. reflexivity. Qed.

(** ** The initial state is correct *)

Definition same_frames (t t' : MacroTable) : Prop :=
  (table_ok t -> table_ok t') /\ mt_expansionStack t' = mt_expansionStack t.

#[export] Instance same_frames_preorder : PreOrder same_frames.
Proof. split; [by split|]. intros a b c [? ?] [? ?]. split; [auto|congruence]. Qed.

Lemma foldl_frames {A} (f : MacroTable -> A -> MacroTable) (l : list A) (t : MacroTable) :
  (forall t a, same_frames t (f t a)) -> same_frames t (foldl f t l).
Proof.
  intros Hf. revert t. induction l as [|a l IH]; intros t; simpl; [done|]. by etrans; [apply (Hf t a)|apply IH].
Qed.

Lemma op_frames (t : MacroTable) (op : TableOp) : same_frames t (run_op t op).
Proof. split; [intros H; by apply run_op_step|apply run_op_frames]. Qed.

Lemma object_frames (t : MacroTable) (name value : string) : same_frames t (define_builtin_object t name value).
Proof. unfold define_builtin_object. case_match; [apply (op_frames t (OpDefineObject _ _ _))|done]. Qed.

Lemma function_frames (t : MacroTable) (name value : string) (params : list string) (v : bool) :
  same_frames t (define_builtin_function t name params v value).
Proof. unfold define_builtin_function. case_match; [apply (op_frames t (OpDefineFunction _ _ _ _ _ _))|done]. Qed.

Lemma empty_frames (t : MacroTable) (name : string) : same_frames t (define_builtin_empty_macro t name).
Proof. etrans; [apply object_frames|apply (op_frames _ (OpDefineFunction _ _ _ _ _ _))]. Qed.

Lemma objects_frames (t : MacroTable) (defs : list (string * string)) : same_frames t (define_objects t defs).
Proof. apply foldl_frames. intros t' [name value]. apply object_frames. Qed.

Lemma cli_frames (t : MacroTable) (def : string) : same_frames t (define_cli_macro t def).
Proof.
  unfold define_cli_macro. destruct (split_define _) as [[name value]|]; [|done].
  case_match; [apply (op_frames t (OpDefineObject _ _ _))|done].
Qed.

Lemma default_frames (t : MacroTable) (stdc : Z) (extensions : bool) :
  same_frames t (define_default_builtins t stdc extensions).
Proof.
  unfold define_default_builtins. etrans; [|apply foldl_frames; intros t' [name value]; apply function_frames].
  etrans; [|apply objects_frames]. etrans; [|apply objects_frames]. etrans; [|apply object_frames].
  match goal with |- same_frames t (if _ then _ else ?u) => assert (same_frames t u) as H end.
  { etrans; [|apply object_frames]. etrans; [|apply object_frames]. etrans; [|apply object_frames]. apply objects_frames. }
  destruct extensions; [|done]. etrans; [exact H|apply object_frames].
Qed.

Lemma predefined_frames (t : MacroTable) (stdc : Z) (extensions : bool) (macroDefines : list string) :
  same_frames t (pp_define_predefined_macros t stdc extensions macroDefines).
Proof.
  unfold pp_define_predefined_macros, define_cli_macros, define_noop_macro_groups.
  etrans; [|apply foldl_frames, cli_frames]. etrans; [|apply foldl_frames, empty_frames].
  etrans; [|apply foldl_frames, empty_frames]. apply default_frames.
Qed.

Lemma init_table (cfg : PPConfig) (macroDefines : list string) :
  table_ok (p_table (preprocessor_init cfg macroDefines)) /\
  mt_expansionStack (p_table (preprocessor_init cfg macroDefines)) = [].
Proof.
  unfold preprocessor_init, p_table. cbn [p_expander macro_expander_init me_table].
  match goal with |- context [pp_define_predefined_macros ?t _ _ _] => set (t0 := t) end.
  destruct (predefined_frames t0 (cfg_stdc cfg) (cfg_extensions cfg) macroDefines) as [Hok Hs].
  assert (table_ok t0 /\ mt_expansionStack t0 = []) as [H1 H2].
  { subst t0. destruct (cfg_expansionLimit cfg) as [limit|]; split; try done; [|apply create_ok].
    destruct create_ok as [? ? ?]. by split. }
  split; [by apply Hok|congruence].
Qed.
