(* ===== verification/PreprocessorSafety.v ===== *)
(** * The whole preprocessor always returns.

    On a state with a correct macro table and include stack, in strict mode, every directive
    runs to a result that leaves such a state, moves the cursor forward and closes the files
    it opened; so the driver and the nested files end.  The recursion through [#include] is
    bounded by the depth limit of the include stack. *)
From S2P Require Import Prelude StateError CType Tokens LexerSource Lexer MacroTable MacroExpander MacroExpanderSafety.
From S2P Require Import PPExpr PPConditional PPIncludeStack PPInclude PPDirectives PreprocessorHost PPBuiltins.

(** ** States *)

(** No string or character constant is spelled [defined]: pp_prepare_expr_tokens would not
    end on one ([quoted_defined_hangs]). *)
Definition plain_token_ok (tok : Token) : Prop := has_value "defined" tok = true -> tok_type tok = TOKEN_IDENTIFIER.
Definition plain (tokens : list Token) : Prop := Forall plain_token_ok tokens.

Definition file_plain (trigraphs : bool) (f : IncludeFile) : Prop :=
  (forall tokens, if_lexedTokens f = Some tokens -> plain tokens) /\
  (forall contents path tokens, if_contents f = Some contents -> if_path f = Some path ->
     tokenize contents (Some path) trigraphs = Some tokens -> plain tokens).

Record pp_ok (pp : Preprocessor) : Prop := {
  po_table : table_ok (p_table pp);
  po_frames : mt_expansionStack (p_table pp) = [];
  po_strict : p_lenientMissingIncludes pp = false;
  po_includes : stack_wf (p_includeStack pp);
  po_files : Forall (file_plain (p_enableTrigraphs pp)) (p_files pp)
}.

(** What every operation keeps: a good state, the files being included, the mode. *)
Record pp_inv (pp pp' : Preprocessor) : Prop := {
  pi_ok : pp_ok pp -> pp_ok pp';
  pi_open : inc_frames (p_includeStack pp') = inc_frames (p_includeStack pp);
  pi_trigraphs : p_enableTrigraphs pp' = p_enableTrigraphs pp
}.

#[export] Instance pp_inv_preorder : PreOrder pp_inv.
Proof.
  split; [by split|]. intros a b c [] []. split; [auto|congruence|congruence].
Qed.

(** The parts the invariant reads. *)
Lemma pp_inv_same (pp pp' : Preprocessor) :
  p_table pp' = p_table pp -> p_lenientMissingIncludes pp' = p_lenientMissingIncludes pp ->
  p_includes pp' = p_includes pp -> p_enableTrigraphs pp' = p_enableTrigraphs pp -> pp_inv pp pp'.
Proof.
  intros Ht Hl Hi Hg. unfold p_includeStack, p_files in *.
  split; [|unfold p_includeStack; by rewrite Hi|done].
  intros [H1 H2 H3 H4 H5]. split; unfold p_includeStack, p_files in *; rewrite ?Ht, ?Hl, ?Hi, ?Hg; done.
Qed.

Ltac inv_same := by apply pp_inv_same.

Lemma pp_inv_table (pp : Preprocessor) (t : MacroTable) :
  (table_ok (p_table pp) -> table_ok t) -> mt_expansionStack t = mt_expansionStack (p_table pp) -> pp_inv pp (with_table pp t).
Proof.
  intros Ht Hs. split; [|done|done]. intros [H1 H2 H3 H4 H5].
  split; [by apply Ht|unfold p_table in *; simpl; congruence|done..].
Qed.

Lemma pp_inv_files (pp : Preprocessor) (files : list IncludeFile) :
  (Forall (file_plain (p_enableTrigraphs pp)) (p_files pp) -> Forall (file_plain (p_enableTrigraphs pp)) files) ->
  pp_inv pp (with_files pp files).
Proof. intros Hf. split; [|done|done]. intros [H1 H2 H3 H4 H5]. split; [done..|by apply Hf]. Qed.

Abbreviation goes := (runs pp_inv).

Lemma pp_me_ok (pp : Preprocessor) : pp_ok pp -> me_ok (load_builtins pp).
Proof.
  intros [[Hn _ _] Hs _ _ _]. split; [exact Hn|].
  change (me_table (load_builtins pp)) with (p_table pp).
  split; rewrite Hs; [constructor|constructor|right; simpl; lia].
Qed.

Lemma same_table_ok (t t' : MacroTable) : same_table t t' -> mt_expansionStack t = [] -> table_ok t -> table_ok t'.
Proof.
  intros [Hm _ Hs _ Hc] Hnil [H1 H2 _]. split; [by rewrite Hm|by rewrite Hm, Hc|rewrite Hs, Hnil; simpl; lia].
Qed.

Lemma goes_expand (pp : Preprocessor) (input : list Token) :
  pp_ok pp -> goes pp (fun fuel => expand fuel input) (fun _ => True).
Proof.
  intros Hok. destruct (ev_expand _ _ _ input (pp_me_ok pp Hok) (le_n _) (le_n _)) as (fuel & r & me & Hrun & Hk & _).
  exists fuel, r, (store_builtins pp me). split_and!; [|split|done].
  - intros fuel' Hf. unfold expand. by rewrite (Hrun fuel' Hf).
  - intros [H1 H2 H3 H4 H5]. unfold keeps in Hk. change (me_table (load_builtins pp)) with (p_table pp) in Hk.
    split; [|change (p_table (store_builtins pp me)) with (me_table me); by rewrite (st_stack _ _ Hk)|done..].
    by apply (same_table_ok (p_table pp)).
  - done.
  - done.
Qed.

(** ** Directives *)

Lemma last_of_ge (i cursor : nat) : (S cursor <= i)%nat -> (cursor <= last_of i)%nat.
Proof. unfold last_of. lia. Qed.

Lemma parse_parameters_ge (tokens : list Token) (i j : nat) (b v : bool) (p p' : MacroParamParse) :
  parse_parameters tokens i b v p = Some (j, p') -> (i <= j)%nat.
Proof.
  revert i b v p. induction tokens as [|tok tokens IH]; intros i b v p; simpl.
  { case_match; [done|]. intros [= <- _]. done. }
  repeat case_match; try done; try (intros [= <- _]; lia); intros H'%IH; lia.
Qed.

Lemma parse_macro_parameters_ge (tokens : list Token) (i j : nat) (p : MacroParamParse) :
  parse_macro_parameters tokens i = Some (j, p) -> (i <= j)%nat.
Proof.
  unfold parse_macro_parameters. case_match; [done|]. case_match; [intros [= <- _]; lia|].
  intros H'%parse_parameters_ge. lia.
Qed.

Lemma pp_inv_op (pp : Preprocessor) (op : TableOp) : pp_inv pp (with_table pp (run_op (p_table pp) op)).
Proof. apply pp_inv_table; [intros H; by apply run_op_step|apply run_op_frames]. Qed.

Lemma report_inv (pp : Preprocessor) (error : bool) (tok : option Token) (message : string) :
  pp_inv pp (report pp error tok message).
Proof. inv_same. Qed.

(** A failure with a message. *)
Lemma goes_error {A} (pp : Preprocessor) (tok : option Token) (message : string) (Q : A -> Prop) :
  goes pp (fun _ => let* _ := modify (fun pp => report pp true tok message) in fail) Q.
Proof.
  eapply (runs_bind _ _ _ _ (fun _ => True)); [apply runs_modify; [apply report_inv|done]|].
  intros pp' _ _ _. apply runs_fail, _.
Qed.

Lemma goes_define (pp : Preprocessor) (tokens : list Token) (cursor : nat) :
  pp_ok pp -> goes pp (fun _ => process_define tokens cursor) (fun j => cursor <= j)%nat.
Proof.
  intros Hok. unfold process_define. apply runs_get.
  destruct (macro_name_at tokens _ (S cursor)) as [nameTok|].
  2:{ rewrite (po_strict _ Hok). eapply (runs_bind _ _ _ _ (fun _ => True));
        [apply runs_put; [apply report_inv|done]|intros; apply runs_fail, _]. }
  match goal with |- context [if ?b then parse_macro_parameters _ _ else _] => destruct b eqn:Ef end.
  - destruct (parse_macro_parameters tokens (cursor + 2)) as [[i params]|] eqn:Ep.
    2:{ rewrite (po_strict _ Hok). eapply (runs_bind _ _ _ _ (fun _ => True));
          [apply runs_put; [apply report_inv|done]|intros; apply runs_fail, _]. }
    apply parse_macro_parameters_ge in Ep. unfold collect_macro_body. cbv beta iota.
    eapply (runs_bind _ _ _ _ (fun _ => True)); [apply runs_put; [|done]|].
    + by apply (pp_inv_op pp (OpDefineFunction _ _ _ _ _ _)).
    + intros pp' _ _ _. apply runs_ret; [apply _|]. apply last_of_ge. lia.
  - cbv beta iota. unfold collect_macro_body.
    eapply (runs_bind _ _ _ _ (fun _ => True)); [apply runs_put; [|done]|].
    + by apply (pp_inv_op pp (OpDefineObject _ _ _)).
    + intros pp' _ _ _. apply runs_ret; [apply _|]. apply last_of_ge. lia.
Qed.

Lemma goes_undef (pp : Preprocessor) (tokens : list Token) (cursor : nat) :
  goes pp (fun _ => process_undef tokens cursor) (fun j => cursor <= j)%nat.
Proof.
  unfold process_undef. apply runs_get. destruct (macro_name_at tokens _ (S cursor)) as [nameTok|].
  2:{ eapply (runs_bind _ _ _ _ (fun _ => True));
        [apply runs_put; [apply report_inv|done]|intros; apply runs_fail, _]. }
  assert (pp_inv pp (with_table pp (macro_table_undef (p_table pp) (default ""%string (tok_value nameTok))).2)) as Hinv
    by (by apply (pp_inv_op pp (OpUndef _))).
  case_match.
  - eapply (runs_bind _ _ _ _ (fun _ => True)); [apply runs_put; [|done]|intros; apply runs_fail, _].
    etrans; [exact Hinv|apply report_inv].
  - eapply (runs_bind _ _ _ _ (fun _ => True)); [apply runs_put; [exact Hinv|done]|].
    intros pp' _ _ _. apply runs_ret; [apply _|]. apply last_of_ge.
    pose proof (line_end_ge tokens (token_line tokens cursor) (cursor + 2)). lia.
Qed.

Lemma set_pragma_once_plain (b : bool) (f : IncludeFile) : file_plain b f -> file_plain b (set_pragma_once f).
Proof. done. Qed.

Lemma mark_pragma_once_plain (b : bool) (files : list IncludeFile) (path : string) :
  Forall (file_plain b) files -> Forall (file_plain b) (mark_pragma_once files path).
Proof.
  intros Hf. unfold mark_pragma_once. destruct (list_find _ files) as [[i f]|] eqn:E; [|done].
  apply list_find_Some in E as (Hi & _). apply Forall_insert; [done|].
  apply set_pragma_once_plain. by eapply Forall_lookup_1.
Qed.

Lemma goes_pragma (pp : Preprocessor) (tokens : list Token) (cursor : nat) :
  goes pp (fun _ => process_pragma tokens cursor) (fun j => cursor <= j)%nat.
Proof.
  unfold process_pragma. apply runs_get. cbv zeta.
  eapply (runs_bind _ _ _ _ (fun _ => True)); [apply runs_put; [|done]|].
  - repeat case_match;
      first [apply report_inv | reflexivity | apply pp_inv_files, mark_pragma_once_plain].
  - intros pp' _ _ _. apply runs_ret; [apply _|]. apply last_of_ge, line_end_ge.
Qed.

Lemma goes_line (pp : Preprocessor) (tokens : list Token) (cursor : nat) :
  pp_ok pp -> goes pp (fun fuel => process_line_directive fuel tokens cursor) (fun j => cursor <= j)%nat.
Proof.
  intros Hok. unfold process_line_directive.
  eapply (runs_bind _ _ _ _ (fun _ => True));
    [eapply runs_mono; [by eapply runs_attempt, goes_expand|done]|].
  intros pp1 [expanded|] _ _; [|apply goes_error].
  destruct (parse_line_request expanded) as [message|[newLine newFile]]; [apply goes_error|].
  eapply (runs_bind _ _ _ _ (fun _ => True)); [apply runs_modify; [inv_same|done]|]. intros pp2 _ _ _.
  eapply (runs_bind _ _ _ _ (fun _ => True)); [apply runs_modify; [|done]|].
  - destruct newFile as [[|c f]|]; [done|inv_same|done].
  - intros pp3 _ _ _. apply runs_ret; [apply _|]. apply last_of_ge, line_end_ge.
Qed.

(** ** Controlling expressions *)

Lemma append_expr_token_goes (pp : Preprocessor) (tok : Token) :
  goes pp (fun _ => append_expr_token tok) (fun _ => True).
Proof.
  unfold append_expr_token. apply runs_get. repeat case_match; try (by apply runs_ret, I; apply _).
  all: try (apply runs_ret; [apply _|done]).
  eapply (runs_bind _ _ _ _ (fun _ => True)); [apply runs_put; [inv_same|done]|].
  intros. apply runs_ret; [apply _|done].
Qed.

Lemma append_expr_tokens_goes (pp : Preprocessor) (tokens : list Token) :
  goes pp (fun _ => append_expr_tokens tokens) (fun _ => True).
Proof.
  revert pp. induction tokens as [|tok tokens IH]; intros pp; cbn [append_expr_tokens].
  - apply runs_ret; [apply _|done].
  - eapply (runs_bind _ _ _ _ (fun _ => True)); [apply append_expr_token_goes|]. intros pp1 t _ _.
    eapply (runs_bind _ _ _ _ (fun _ => True)); [apply IH|]. intros pp2 ts _ _. apply runs_ret; [apply _|done].
Qed.

Lemma set_preserve_inv (b : bool) (pp : Preprocessor) : pp_inv pp (set_preserve b pp).
Proof. inv_same. Qed.

Lemma expand_span_goes (pp : Preprocessor) (run : list Token) :
  pp_ok pp -> goes pp (fun fuel => expand_span fuel run) (fun _ => True).
Proof.
  intros Hok. unfold expand_span. destruct run as [|tok run]; [apply runs_ret; [apply _|done]|].
  eapply (runs_bind _ _ _ _ (fun _ => True)); [apply runs_modify; [apply set_preserve_inv|done]|]. intros pp1 _ H1 _.
  eapply (runs_bind _ _ _ _ (fun _ => True));
    [eapply runs_mono; [eapply runs_attempt, goes_expand; by apply H1|done]|]. intros pp2 [expanded|] H2 _.
  - eapply (runs_bind _ _ _ _ (fun _ => True)); [apply runs_modify; [apply set_preserve_inv|done]|].
    intros pp3 _ _ _. apply append_expr_tokens_goes.
  - eapply (runs_bind _ _ _ _ (fun _ => True)); [apply runs_modify; [apply set_preserve_inv|done]|].
    intros. apply runs_fail, _.
Qed.

Lemma consume_parenthesized_gt (tokens : list Token) (i j : nat) (depth : Z) :
  consume_parenthesized tokens i depth = Some j -> (i < j)%nat.
Proof.
  revert i depth. induction tokens as [|tok tokens IH]; intros i depth; simpl; [done|].
  repeat case_match; try done; try (intros [= <-]; lia); intros H'%IH; lia.
Qed.

Lemma probe_at_gt (pp : Preprocessor) (tokens : list Token) (i j : nat) (tok : Token) (s : string) :
  probe_at pp tokens i tok = Some (s, j) -> (i < j)%nat.
Proof.
  unfold probe_at. destruct (tok_value tok) as [name|]; [|done]. simpl.
  destruct (is_builtin_probe_macro_name name); [|done]. simpl. case_match; [done|].
  unfold consume_parenthesized_expression. case_match; [done|].
  destruct (consume_parenthesized _ _ _) eqn:E; [|done]. apply consume_parenthesized_gt in E. simpl.
  intros [= _ <-]. lia.
Qed.

Lemma defined_operand_gt (tokens : list Token) (i : nat) : (i < defined_operand tokens i)%nat.
Proof. unfold defined_operand. repeat case_match; lia. Qed.

Section Load.
Context (load : list IncludeFile -> option string -> string -> bool -> bool ->
                list IncludeFile * option (nat * IncludeSearchOrigin * Z)).
(** The files the resolver loads have no token spelled [defined] but identifiers. *)
Context (Hload : forall b files parent name isSystem isNext,
  Forall (file_plain b) files -> Forall (file_plain b) (load files parent name isSystem isNext).1).

Lemma resolver_load_goes (pp : Preprocessor) (parent : option string) (name : string) (isSystem isNext : bool) :
  goes pp (fun _ => resolver_load load parent name isSystem isNext) (fun _ => True).
Proof.
  unfold resolver_load. pose proof (fun b => Hload b (p_files pp) parent name isSystem isNext) as H.
  destruct (load (p_files pp) parent name isSystem isNext) as [files found] eqn:E.
  exists 0%nat, (Some found), (with_files pp files).
  split_and!; [intros; by rewrite E|apply pp_inv_files, H|done].
Qed.

Lemma prepare_loop_goes (tokens : list Token) (steps : nat) (pp : Preprocessor) (i : nat) (out : list Token) :
  plain tokens -> Forall (fun t => tok_type t <> TOKEN_EOF) tokens -> pp_ok pp -> (length tokens - i < steps)%nat ->
  goes pp (fun fuel => prepare_loop fuel load steps tokens i out) (fun _ => True).
Proof.
  intros Hp He. revert pp i out. induction steps as [|steps IH]; intros pp i out Hok Hs; [lia|].
  cbn [prepare_loop]. destruct (tokens !! i) as [tok|] eqn:Hi; [|apply runs_ret; [apply _|done]].
  pose proof (lookup_lt_Some _ _ _ Hi) as Hlt. apply runs_get.
  destruct (is_has_include tok) eqn:Einc.
  { destruct (has_include_operand tokens i) as [operand j].
    eapply (runs_bind _ _ _ _ (fun _ => True)).
    - destruct operand as [[[|c name] isSystem]|]; [apply runs_ret; [apply _|done]| |apply runs_ret; [apply _|done]].
      eapply (runs_bind _ _ _ _ (fun _ => True)); [apply resolver_load_goes|]. intros. apply runs_ret; [apply _|done].
    - intros pp1 present H1 _. apply IH; [by apply H1|lia]. }
  destruct (probe_at pp tokens i tok) as [[s j]|] eqn:Epr.
  { apply probe_at_gt in Epr. apply IH; [done|lia]. }
  destruct (is_named "defined" tok) eqn:Edef.
  { pose proof (defined_operand_gt tokens i).
    eapply (runs_bind _ _ _ _ (fun _ => True)); [apply append_expr_tokens_goes|].
    intros pp1 kept H1 _. apply IH; [by apply H1|lia]. }
  eapply (runs_bind _ _ _ _ (fun _ => True)); [by apply expand_span_goes|].
  intros pp1 expanded H1 _. apply IH; [by apply H1|].
  rewrite (drop_S _ _ _ Hi). simpl.
  assert (ends_span tok = false) as ->; [|simpl; destruct (span _ _); simpl; lia].
  unfold ends_span. rewrite Einc. pose proof (Forall_lookup_1 _ _ _ _ He Hi) as Hne. cbv beta in Hne.
  pose proof (Forall_lookup_1 _ _ _ _ Hp Hi) as Hpl. unfold plain_token_ok in Hpl.
  destruct (has_value "defined" tok) eqn:Ev.
  - exfalso. unfold is_named in Edef. unfold has_value in Ev. rewrite Ev, (Hpl eq_refl) in Edef. done.
  - destruct (tt_eqb (tok_type tok) TOKEN_EOF) eqn:Ee; [|done]. by apply tt_eqb_spec in Ee.
Qed.

Lemma prepare_goes (pp : Preprocessor) (tokens : list Token) :
  plain tokens -> Forall (fun t => tok_type t <> TOKEN_EOF) tokens -> pp_ok pp ->
  goes pp (fun fuel => pp_prepare_expr_tokens fuel load tokens) (fun _ => True).
Proof. intros. apply prepare_loop_goes; [done..|lia]. Qed.

(** ** Text *)

Lemma flush_goes (pp : Preprocessor) (chunk : list Token) :
  pp_ok pp -> goes pp (fun fuel => pp_flush_chunk fuel chunk) (fun _ => True).
Proof.
  intros Hok. unfold pp_flush_chunk. destruct chunk as [|tok chunk]; [apply runs_ret; [apply _|done]|].
  eapply (runs_bind _ _ _ _ (fun _ => True)); [eapply runs_mono; [by eapply runs_attempt, goes_expand|done]|].
  intros pp1 [expanded|] _ _; [apply runs_modify; [inv_same|done]|].
  eapply (runs_bind _ _ _ _ (fun _ => True)); [apply runs_modify; [|done]|intros; apply runs_fail, _].
  unfold flush_failure. repeat case_match; apply report_inv.
Qed.

Lemma append_line_goes (pp : Preprocessor) (tokens : list Token) (cursor : nat) :
  goes pp (fun _ => pp_append_directive_line tokens cursor) (fun _ => True).
Proof.
  unfold pp_append_directive_line. case_decide; [apply runs_fail, _|]. apply runs_modify; [inv_same|done].
Qed.

(** ** The driver *)

Section OnHost.
(** A state, and an [#include] handler for the states that have the same files open. *)
Context (pp0 : Preprocessor) (Hok0 : pp_ok pp0) (include : nat -> list Token -> nat -> bool -> PPM nat).
Context (Hinclude : forall pp tokens i isNext, pp_inv pp0 pp ->
  goes pp (fun fuel => include fuel tokens i isNext) (fun j => i <= j)%nat).

Definition good (h : option Preprocessor) : Prop := exists pp, h = Some pp /\ pp_inv pp0 pp.

Abbreviation host n := (pp_host load n (include n)).
Abbreviation settled f Q := (settles f (res_ok good Q)).

(** A state and a value behind the cursor [i]. *)
Definition good_at (i : nat) (r : option Preprocessor * nat) : Prop := good r.1 /\ (i <= r.2)%nat.

Lemma good_ok (pp : Preprocessor) : pp_inv pp0 pp -> pp_ok pp.
Proof. intros H. by apply H. Qed.

Lemma settled_try {A B} (f : nat -> option Preprocessor + A) (k : nat -> A -> option Preprocessor + B)
    (P : A -> Prop) (Q : B -> Prop) :
  settled f P -> (forall a, P a -> settled (fun n => k n a) Q) -> settled (fun n => try (f n) (k n)) Q.
Proof.
  intros Hf Hk. apply (settles_bind f (fun n r => try r (k n)) _ _ Hf). intros [e|a] Ha; [by apply (settles_const (inl e))|].
  by apply Hk.
Qed.

Lemma settled_const {A} (r : option Preprocessor + A) (Q : A -> Prop) : res_ok good Q r -> settled (fun _ => r) Q.
Proof. apply settles_const. Qed.

(** A step that does not depend on the fuel. *)
Ltac settled_now :=
  cbn [pp_table pp_report_diag lenientMissingIncludes preserveDirectives pp_host]; apply settled_const.

(** An operation of the monad is one of the host. *)
Lemma settled_host {A} (m : nat -> PPM A) (pp : Preprocessor) (Q : A -> Prop) :
  pp_inv pp0 pp -> goes pp m Q ->
  settled (fun n => host_of (m n) (Some pp)) (fun r => good r.1 /\ Q r.2).
Proof.
  intros Hpp (n & r & pp' & H & Hinv & HQ). assert (good (Some pp')) as Hg by (exists pp'; split; [done|by etrans]).
  exists n, (match r with Some a => inr (Some pp', a) | None => inl (Some pp') end). split.
  - intros n' Hn. unfold host_of. rewrite H by done. by destruct r.
  - destruct r as [a|]; [split; [done|by apply HQ]|done].
Qed.

Lemma settled_host_unit (m : nat -> PPM unit) (pp : Preprocessor) :
  pp_inv pp0 pp -> goes pp m (fun _ => True) -> settled (fun n => host_unit (m n) (Some pp)) good.
Proof.
  intros Hpp Hm. unfold host_unit.
  eapply (settles_bind _ (fun _ r => match r with inl pp => inl pp | inr (pp, _) => inr pp end));
    [by apply (settled_host m pp _ Hpp Hm)|].
  intros [e|[h u]] H; [by apply (settles_const (inl e))|apply (settles_const (inr h)); by destruct H].
Qed.

Lemma good_report (h : option Preprocessor) (error : bool) (tok : option Token) (message : string) :
  good h -> good ((fun pp => report pp error tok message) <$> h).
Proof. intros (pp & -> & H). exists (report pp error tok message). split; [done|]. etrans; [exact H|apply report_inv]. Qed.

Lemma settled_flush (h : option Preprocessor) (chunk : list Token) :
  good h -> settled (fun n => @PPConditional.pp_flush_chunk _ (host n) h chunk) good.
Proof.
  intros (pp & -> & Hpp). destruct chunk as [|tok chunk]; [apply (settled_const (inr (Some pp))); by exists pp|].
  apply settled_host_unit; [done|by apply flush_goes, good_ok].
Qed.

Lemma settled_append_line (h : option Preprocessor) (tokens : list Token) (i : nat) :
  good h -> settled (fun n => @PPConditional.pp_append_directive_line _ (host n) h tokens i) good.
Proof. intros (pp & -> & Hpp). apply settled_host_unit; [done|apply append_line_goes]. Qed.

Lemma line_span (tokens : list Token) (line : Z) (i : nat) :
  take (line_end tokens line i - i) (drop i tokens) = (span (on_line line) (drop i tokens)).1.
Proof.
  unfold line_end. replace (i + _ - i)%nat with (length (span (on_line line) (drop i tokens)).1) by lia.
  rewrite <- (span_app (on_line line) (drop i tokens)) at 2. apply take_app_length.
Qed.

(** The tokens of a directive's line can be evaluated. *)
Lemma line_plain (tokens : list Token) (line : Z) (i : nat) :
  plain tokens -> plain (take (line_end tokens line i - i) (drop i tokens)) /\
  Forall (fun t => tok_type t <> TOKEN_EOF) (take (line_end tokens line i - i) (drop i tokens)).
Proof.
  intros Hp. split; [by apply Forall_take, Forall_drop|]. rewrite line_span.
  eapply Forall_impl; [apply span_all|]. intros t. cbv beta. unfold on_line.
  intros [H _]%andb_true_iff E. rewrite E in H. done.
Qed.

Lemma settled_eval (h : option Preprocessor) (tokens : list Token) (i : nat) (what : string) :
  good h -> plain tokens ->
  settled (fun n => @eval_condition _ (host n) h tokens i (line_end tokens (token_line tokens i) (S i)) what)
    (fun r => good r.1).
Proof.
  intros (pp & -> & Hpp) Hp. unfold eval_condition.
  destruct (line_plain tokens (token_line tokens i) (S i) Hp) as [Hp' He].
  eapply (settled_try _ _ (fun r => good r.1)).
  - eapply settles_mono; [apply (settled_host _ pp (fun _ => True) Hpp); apply prepare_goes; [done..|by apply good_ok]|].
    intros [e|r]; [done|]. by intros [? _].
  - intros [h prepared] Hg. simpl in Hg. settled_now.
    match goal with |- context [preprocessor_eval_tokens ?a ?b] => destruct (preprocessor_eval_tokens a b) as [[|] v] end.
    + done.
    + by apply good_report.
Qed.

Lemma settled_if (h : option Preprocessor) (tokens : list Token) (i : nat) (s : CondStack) :
  good h -> plain tokens ->
  settled (fun n => @process_if _ (host n) h tokens i s) (fun r => good_at i r.1).
Proof.
  intros Hg Hp. unfold process_if. eapply (settled_try _ _ (fun r => good r.1)).
  - destruct (conditional_stack_is_active _); [by apply settled_eval|by settled_now].
  - intros [h' c] Hg'. settled_now. split; [done|]. simpl.
    pose proof (line_end_ge tokens (token_line tokens i) (S i)). lia.
Qed.

Lemma settled_ifdeflike (h : option Preprocessor) (tokens : list Token) (i : nat) (s : CondStack) (neg : bool) :
  good h -> settled (fun n => @process_ifdeflike _ (host n) h tokens i s neg) (fun r => good_at i r.1).
Proof.
  intros Hg. unfold process_ifdeflike. destruct (tokens !! S i) as [tok|]; [|settled_now; by apply good_report].
  destruct (_ || _); [settled_now; by apply good_report|].
  pose proof (line_end_ge tokens (token_line tokens i) (S (S i))).
  destruct (tokens !! S (S i)) as [t|]; [destruct (on_line _ t); [settled_now; by apply good_report|]|];
    settled_now; (split; [done|simpl; lia]).
Qed.

Lemma good_strict (h : option Preprocessor) :
  good h -> match h with Some pp => p_lenientMissingIncludes pp | None => false end = false.
Proof. intros (pp & -> & Hpp). by apply po_strict, good_ok. Qed.

Lemma settled_misplaced {A} (h : option Preprocessor) (tok : option Token) (what : string)
    (k : option Preprocessor -> A) (Q : A -> Prop) :
  good h -> settled (fun n => @misplaced _ (host n) A h tok what k) Q.
Proof.
  intros Hg. unfold misplaced. cbn [lenientMissingIncludes pp_report_diag pp_host].
  rewrite (good_strict h Hg). settled_now; by apply good_report.
Qed.

Lemma settled_elif (h : option Preprocessor) (tokens : list Token) (i : nat) (s : CondStack) :
  good h -> plain tokens ->
  settled (fun n => @process_elif _ (host n) h tokens i s) (fun r => good_at i r.1).
Proof.
  intros Hg Hp. unfold process_elif. destruct (cs_frames s) as [|frame outer]; [by apply settled_misplaced|].
  destruct (sawElse frame); [by apply settled_misplaced|].
  eapply (settled_try _ _ (fun r => good r.1)).
  - destruct (_ && _); [by apply settled_eval|by settled_now].
  - intros [h' c] Hg'. settled_now. split; [done|]. simpl.
    pose proof (line_end_ge tokens (token_line tokens i) (S i)). lia.
Qed.

Lemma settled_else (h : option Preprocessor) (s : CondStack) (tok : option Token) :
  good h -> settled (fun n => @process_else _ (host n) h s tok) (fun r => good r.1).
Proof.
  intros Hg. unfold process_else. destruct (cs_frames s) as [|frame outer]; [by apply settled_misplaced|].
  destruct (sawElse frame); [by apply settled_misplaced|]. by settled_now.
Qed.

Lemma settled_endif (h : option Preprocessor) (s : CondStack) (tok : option Token) :
  good h -> settled (fun n => @process_endif _ (host n) h s tok) (fun r => good r.1).
Proof.
  intros Hg. unfold process_endif. destruct (cs_frames s) as [|frame outer]; [by apply settled_misplaced|].
  by settled_now.
Qed.

Abbreviation Drv := (@Driver (option Preprocessor)).

(** What one iteration leaves. *)
Definition step_ok (i : nat) (r : Drv * nat) : Prop := good (d_pp r.1) /\ (i <= r.2)%nat.

(** A directive handler. *)
Lemma settled_handler (m : nat -> PPM nat) (h : option Preprocessor) (i : nat) :
  good h -> (forall pp, pp_inv pp0 pp -> goes pp m (fun j => i <= j)%nat) -> settled (fun n => host_of (m n) h) (good_at i).
Proof. intros (pp & -> & Hpp) Hm. by apply settled_host; [|apply Hm]. Qed.

Lemma settled_active (d : Drv) (tokens : list Token) (tok : Token) (i : nat) (b : bool)
    (run : nat -> option Preprocessor -> option Preprocessor + option Preprocessor * nat) :
  good (d_pp d) -> tokens !! i = Some tok -> tok_type tok <> TOKEN_EOF ->
  (forall h, good h -> settled (fun n => run n h) (good_at i)) ->
  settled (fun n => @active_directive _ (host n) d tokens i b (run n)) (step_ok i).
Proof.
  intros Hg Hi Hne Hrun. unfold active_directive. destruct (conditional_stack_is_active _).
  - eapply (settled_try _ _ good); [by apply settled_flush|]. intros h1 Hg1.
    eapply (settled_try _ _ good).
    + cbn [preserveDirectives pp_host]. destruct (_ && _); [by apply settled_append_line|by settled_now].
    + intros h2 Hg2. eapply (settled_try _ _ (good_at i)); [by apply Hrun|].
      intros [h3 j] [Hg3 Hj]. by settled_now.
  - settled_now. split; [done|]. simpl. by eapply skip_to_line_end_ge.
Qed.

Lemma settled_conditional (d : Drv) (i : nat)
    (run : nat -> option Preprocessor -> option Preprocessor + option Preprocessor * nat * CondStack) :
  good (d_pp d) -> (forall h, good h -> settled (fun n => run n h) (fun r => good_at i r.1)) ->
  settled (fun n => @conditional_directive _ (host n) d (run n)) (step_ok i).
Proof.
  intros Hg Hrun. unfold conditional_directive.
  eapply (settled_try _ _ good); [by apply settled_flush|]. intros h1 Hg1.
  eapply (settled_try _ _ (fun r => good_at i r.1)); [by apply Hrun|].
  intros [[h2 j] s] [Hg2 Hj]. by settled_now.
Qed.

Lemma settled_other (d : Drv) (tokens : list Token) (tok : Token) (i : nat) :
  good (d_pp d) -> tokens !! i = Some tok -> tok_type tok <> TOKEN_EOF ->
  settled (fun n => @other_directive _ (host n) d tokens i tok) (step_ok i).
Proof.
  intros Hg Hi Hne. unfold other_directive. destruct (bool_decide _).
  - apply (settled_active d tokens tok i false
      (fun n h => @PPConditional.process_line_directive _ (host n) h tokens i)); [done..|].
    intros h Hgh. apply settled_handler; [done|]. intros pp Hpp. by apply goes_line, good_ok.
  - pose proof (skip_to_line_end_ge tokens tok i Hi Hne).
    destruct (_ || _).
    + settled_now. split; [|done]. simpl. case_match; [by apply good_report|done].
    + destruct (conditional_stack_is_active _); settled_now; [by apply good_report|by split].
Qed.

Lemma settled_step (d : Drv) (tokens : list Token) (i : nat) :
  good (d_pp d) -> plain tokens -> settled (fun n => @driver_step _ (host n) tokens i d) (step_ok i).
Proof.
  intros Hg Hp. unfold driver_step. destruct (tokens !! i) as [tok|] eqn:Hi; [|by settled_now].
  destruct (tok_type tok) eqn:Ety;
    try (apply (settled_active d tokens tok i true); [done|done|congruence|];
         intros h Hgh; apply settled_handler; [done|]; intros pp Hpp; first [by apply goes_define, good_ok | by apply Hinclude | apply goes_pragma]);
    try (apply (settled_active d tokens tok i false); [done|done|congruence|];
         intros h Hgh; apply settled_handler; [done|]; intros pp Hpp; apply goes_undef);
    try (apply (settled_conditional d i); [done|]; intros h Hgh;
         first [by apply settled_if | by apply settled_ifdeflike | by apply settled_elif]);
    try (settled_now; by split);
    try (destruct (conditional_stack_is_active _); [|by settled_now];
         destruct (pp_skip_pragma_operator tokens i) eqn:Esk;
         [settled_now; split; [done|by eapply pp_skip_pragma_operator_advances]|by settled_now]).
  - apply (settled_conditional d i); [done|]. intros h Hgh.
    destruct (pp_directive_has_trailing_tokens tokens i); [settled_now; by apply good_report|].
    eapply (settled_try _ _ good).
    + cbn [preserveDirectives pp_host]. destruct (_ && _); [by apply settled_append_line|by settled_now].
    + intros h1 Hg1. eapply (settled_try _ _ (fun r => good r.1)); [by apply settled_endif|].
      intros [h2 s] Hg2. settled_now. split; [done|]. apply (skip_to_line_end_ge tokens tok); [done|congruence].
  - apply settled_other; [done..|congruence].
  - apply (settled_conditional d i); [done|]. intros h Hgh.
    destruct (pp_directive_has_trailing_tokens tokens i); [settled_now; by apply good_report|].
    eapply (settled_try _ _ (fun r => good r.1)); [by apply settled_else|].
    intros [h2 s] Hg2. settled_now. split; [done|]. apply (skip_to_line_end_ge tokens tok); [done|congruence].
Qed.

(** As many iterations as tokens are left. *)
Lemma settled_loop (steps : nat) (d : Drv) (tokens : list Token) (i : nat) :
  good (d_pp d) -> plain tokens -> (length tokens - i <= steps)%nat ->
  settles (fun n => @driver_loop _ (host n) steps tokens i d)
    (fun o => exists r, o = Some r /\ res_ok good (fun d => good (d_pp d)) r).
Proof.
  intros Hg Hp. revert d i Hg. induction steps as [|steps IH]; intros d i Hg Hs; cbn [driver_loop].
  { rewrite decide_True by lia. apply settles_const. by eexists. }
  case_decide; [apply settles_const; by eexists|].
  eapply (settles_bind _ (fun n r => match r with inl pp => Some (inl pp)
    | inr (d, i) => @driver_loop _ (host n) steps tokens (S i) d end)); [by apply settled_step|].
  intros [e|[d' j]] Hr.
  - apply (settles_const (Some (inl e))). by eexists.
  - destruct Hr as [Hg' Hj]. apply IH; [done|]. simpl in Hj. lia.
Qed.

Lemma settled_preprocess (h : option Preprocessor) (tokens : list Token) :
  good h -> plain tokens ->
  settles (fun n => @preprocess_tokens _ (host n) h tokens) (fun o => exists h' b, o = Some (h', b) /\ good h').
Proof.
  intros Hg Hp. unfold preprocess_tokens.
  eapply (settles_bind _ (fun n o => o ≫= fun r => Some match r with
    | inl pp => (pp, false)
    | inr d => match @PPConditional.pp_flush_chunk _ (host n) (d_pp d) (d_chunk d) with
               | inl pp => (pp, false)
               | inr pp => match cs_frames (d_cond d) with
                           | [] => (pp, true)
                           | _ :: _ => (@pp_report_diag _ (host n) pp true None "unclosed #if/#ifdef/#ifndef", false)
                           end
               end
    end)); [by apply settled_loop; [..|lia]|].
  intros o (r & -> & Hr). cbn [mbind option_bind]. destruct r as [e|d].
  { apply (settles_const (Some (e, false))). by do 2 eexists. }
  eapply (settles_bind _ (fun n r => Some match r with
    | inl pp => (pp, false)
    | inr pp => match cs_frames (d_cond d) with
                | [] => (pp, true)
                | _ :: _ => (@pp_report_diag _ (host n) pp true None "unclosed #if/#ifdef/#ifndef", false)
                end
    end)); [by apply settled_flush|].
  intros [e|pp] Hpp; cbn [pp_report_diag pp_host].
  - apply (settles_const (Some (e, false))). by do 2 eexists.
  - destruct (cs_frames (d_cond d)); apply settles_const; do 2 eexists; (split; [done|]); [done|].
    by apply good_report.
Qed.

Lemma start_file_inv (tokens : list Token) (pp : Preprocessor) : pp_inv pp (start_file tokens pp).
Proof.
  unfold start_file. destruct (token_file (head tokens)) as [file|]; [|done].
  assert (pp_inv pp (pp_set_base_file pp (Some file))) as H by (unfold pp_set_base_file; case_match; [done|inv_same]).
  cbv zeta. case_match; [done|]. etrans; [exact H|inv_same].
Qed.

(** A file that is read. *)
Lemma run_host_goes (tokens : list Token) :
  plain tokens -> goes pp0 (fun n => run_host (host n) tokens) (fun _ => True).
Proof.
  intros Hp. assert (good (Some (start_file tokens pp0))) as Hg by (eexists; split; [done|apply start_file_inv]).
  destruct (settled_preprocess _ tokens Hg Hp) as (n & o & H & h & b & -> & pp & -> & Hinv).
  exists n, (if b then Some tt else None), pp. split_and!; [|done|done].
  intros n' Hn. unfold run_host. by rewrite (H n' Hn).
Qed.
End OnHost.

(** ** [#include] *)

Lemma angle_name_ge (tokens : list Token) (line : Z) (i j : nat) (name name' : list ascii) :
  angle_name tokens line i name = Some (name', j) -> (i < j)%nat.
Proof.
  revert i name. induction tokens as [|tok tokens IH]; intros i name; simpl; [done|].
  repeat case_match; try done; try (intros [= _ <-]; lia); intros H'%IH; lia.
Qed.

Lemma parse_include_operand_ge (tokens : list Token) (cursor j : nat) (name : string) (isSystem : bool) :
  parse_include_operand tokens cursor = Some (j, name, isSystem) -> (cursor <= j)%nat.
Proof.
  unfold parse_include_operand. destruct (tokens !! S cursor) as [tok|]; [|done]. cbn [mbind option_bind].
  assert (forall i name' b, (S cursor < i)%nat ->
    (if match tokens !! i with Some tok => on_line (token_line tokens cursor) tok | None => false end then None
     else Some ((line_end tokens (token_line tokens cursor) i - 1)%nat,
                string_of_list_ascii (strip_include_spaces name'), b)) = Some (j, name, isSystem) -> (cursor <= j)%nat) as H.
  { intros i name' b Hi. pose proof (line_end_ge tokens (token_line tokens cursor) i).
    destruct (match tokens !! i with Some _ => _ | None => _ end); [done|]. intros [= <- _ _]. lia. }
  destruct (tt_eqb (tok_type tok) TOKEN_STRING).
  - destruct (tok_value tok) as [v|]; [|done]. cbn [mbind option_bind]. apply H. lia.
  - destruct (tt_eqb (tok_type tok) TOKEN_LESS); [|done].
    destruct (angle_name _ _ _ _) as [[n i]|] eqn:E; [|done]. cbn [mbind option_bind].
    apply angle_name_ge in E. apply H. lia.
Qed.

Lemma include_operand_goes (pp : Preprocessor) (tokens : list Token) (cursor : nat) :
  pp_ok pp -> goes pp (fun fuel => include_operand fuel tokens cursor) (fun r => cursor <= r.2)%nat.
Proof.
  intros Hok. unfold include_operand.
  destruct (parse_include_operand tokens cursor) as [[[j name] isSystem]|] eqn:E.
  { apply parse_include_operand_ge in E. by apply runs_ret; [apply _|]. }
  eapply (runs_bind _ _ _ _ (fun _ => True)); [eapply runs_mono; [by eapply runs_attempt, goes_expand|done]|].
  intros pp1 [expanded|] _ _; [|apply goes_error]. cbv zeta.
  destruct (parse_include_operand (_ ++ _) 0) as [[[j name] isSystem]|]; [|apply goes_error].
  apply runs_ret; [apply _|]. simpl. pose proof (line_end_ge tokens (token_line tokens cursor) (S cursor)). lia.
Qed.

Lemma update_file_inv (pp : Preprocessor) (index : nat) (g : IncludeFile -> IncludeFile) :
  (forall f, p_files pp !! index = Some f -> file_plain (p_enableTrigraphs pp) f -> file_plain (p_enableTrigraphs pp) (g f)) ->
  pp_inv pp (update_file pp index g).
Proof.
  intros Hg. apply pp_inv_files. intros Hf. apply Forall_lookup. intros k f Hk.
  rewrite list_lookup_alter in Hk. destruct (decide (index = k)) as [->|].
  - destruct (p_files pp !! k) as [f0|] eqn:E; [|done]. simplify_eq/=. apply Hg; [done|]. by eapply Forall_lookup_1.
  - by eapply Forall_lookup_1.
Qed.

Lemma set_guard_plain (b : bool) (guard : option string) (f : IncludeFile) : file_plain b f -> file_plain b (set_guard guard f).
Proof. destruct guard as [[|c s]|]; done. Qed.

(** The tokens are those of the file, which has a path and stays at its index. *)
Lemma get_lexed_spec (pp : Preprocessor) (index : nat) (file : IncludeFile) :
  pp_ok pp -> p_files pp !! index = Some file ->
  exists r pp', pp_include_file_get_lexed_tokens index pp = Some (r, pp') /\ pp_inv pp pp' /\
    forall tokens, r = Some tokens -> plain tokens /\ is_Some (if_path file) /\
      exists file', p_files pp' !! index = Some file'.
Proof.
  intros Hok Hi. unfold pp_include_file_get_lexed_tokens, bind, get. rewrite Hi.
  pose proof (Forall_lookup_1 _ _ _ _ (po_files _ Hok) Hi) as [Hlex Hfresh].
  destruct (if_contents file) as [contents|] eqn:Ec; [|by exists None, pp].
  destruct (if_path file) as [path|] eqn:Ep; [|by exists None, pp].
  destruct (if_lexedTokens file) as [tokens|] eqn:El.
  { exists (Some tokens), pp. split_and!; [done..|]. intros ? [= <-]. split_and!; [by apply Hlex|done|by exists file]. }
  destruct (tokenize contents (Some path) (p_enableTrigraphs pp)) as [tokens|] eqn:Et; [|by exists None, pp].
  specialize (Hfresh contents path tokens eq_refl eq_refl Et).
  exists (Some tokens), (update_file pp index (set_lexed tokens)). split_and!; [done| |].
  - apply update_file_inv. intros f _ [H1 H2]. split; [|done]. by intros ? [= <-].
  - intros ? [= <-]. split_and!; [done|done|]. exists (set_lexed tokens file).
    unfold update_file, p_files. simpl. rewrite list_lookup_alter, decide_True by done. by unfold p_files in Hi; rewrite Hi.
Qed.

Lemma find_guard_goes (pp : Preprocessor) (index : nat) (file : IncludeFile) (tokens : list Token) (supported : bool) :
  goes pp (fun _ => find_guard index file tokens supported) (fun _ => True).
Proof.
  unfold find_guard. destruct (_ && _).
  - destruct (scan_summary tokens (if_cachedGuardName file)) as [[guard probe] actions].
    eapply (runs_bind _ _ _ _ (fun _ => True)); [apply runs_modify; [|done]|intros pp1 _ _ _].
    { apply update_file_inv. intros f _. apply set_guard_plain. }
    eapply (runs_bind _ _ _ _ (fun _ => True)); [apply runs_modify; [by apply update_file_inv|done]|intros pp2 _ _ _].
    eapply (runs_bind _ _ _ _ (fun _ => True)); [apply runs_modify; [|done]|intros pp3 _ _ _].
    { case_match; [by apply update_file_inv|done]. }
    by apply runs_ret; [apply _|].
  - eapply (runs_bind _ _ _ _ (fun _ => True)); [apply runs_modify; [|done]|intros pp1 _ _ _].
    { apply update_file_inv. intros f _. apply set_guard_plain. }
    by apply runs_ret; [apply _|].
Qed.

Lemma refuse_goes (pp : Preprocessor) (tok : option Token) (path : option string) :
  goes pp (fun _ => refuse_recursive tok path) (fun b => b = false).
Proof.
  unfold refuse_recursive. apply runs_get. case_match; [by apply runs_ret; [apply _|]|].
  eapply (runs_bind _ _ _ _ (fun _ => True)); [apply runs_put; [apply report_inv|done]|intros; apply runs_fail, _].
Qed.

(** A file is admitted below the depth limit only. *)
Lemma admit_goes (pp : Preprocessor) (tok : option Token) (index : nat) (origin : IncludeSearchOrigin) (originIndex : Z)
    (tokens : list Token) (recurse : bool) :
  is_Some (p_files pp !! index) ->
  goes pp (fun _ => admit_include tok index origin originIndex tokens recurse)
    (fun b => b = true -> (inc_depth (p_includeStack pp) < FISICS_MAX_INCLUDE_DEPTH)%nat).
Proof.
  intros [file Hi]. unfold admit_include. apply runs_get. rewrite Hi. cbv zeta.
  eapply (runs_bind _ _ _ _ (fun _ => True)); [apply runs_modify; [|done]|intros pp1 _ H1 _].
  { case_match; [by apply update_file_inv|done]. }
  eapply (runs_bind _ _ _ _ (fun _ => True)); [apply find_guard_goes|intros pp2 [guard probe] H2 _].
  apply runs_get. destruct (guard_defined pp2 guard probe).
  { eapply (runs_bind _ _ _ _ (fun _ => True)); [apply runs_put; [by apply update_file_inv|done]|].
    intros. by apply runs_ret; [apply _|]. }
  destruct (_ && _); [by apply runs_ret; [apply _|]|].
  destruct (recurse && _); [eapply runs_mono; [apply refuse_goes|by intros b ->]|].
  case_bool_decide as Hd; [eapply runs_mono; [apply refuse_goes|by intros b ->]|].
  apply runs_ret; [apply _|]. intros _. unfold inc_depth in *.
  rewrite <- (pi_open _ _ H1), <- (pi_open _ _ H2). lia.
Qed.

Lemma in_new_place_goes {A} (pp : Preprocessor) (body : nat -> PPM A) (Q : A -> Prop) :
  goes (with_place pp None 0 false) body Q -> goes pp (fun n => in_new_place (body n)) Q.
Proof.
  intros Hb. unfold in_new_place. apply runs_get.
  eapply (runs_bind_eq _ _ (with_place pp None 0 false)); [done|inv_same|].
  eapply (runs_bind _ _ _ _ _ _ (runs_attempt _ _ _ _ Hb)). intros pp1 r _ HQ.
  eapply (runs_bind _ _ _ _ (fun _ => True)); [apply runs_modify; [inv_same|done]|]. intros pp2 _ _ _.
  destruct r as [a|]; [apply runs_ret; [apply _|by apply HQ]|apply runs_fail, _].
Qed.

Section Nested.
(** Reading a file that is open at depth [S D]. *)
Context (D : nat) (run : nat -> list Token -> PPM unit).
Context (Hrun : forall pp tokens, pp_ok pp -> inc_depth (p_includeStack pp) = S D -> plain tokens ->
  (D < FISICS_MAX_INCLUDE_DEPTH)%nat -> goes pp (fun n => run n tokens) (fun _ => True)).

Lemma include_body_goes (pp : Preprocessor) (path : string) (origin : IncludeSearchOrigin) (originIndex : Z)
    (tokens : list Token) :
  pp_ok pp -> inc_depth (p_includeStack pp) = D -> plain tokens -> (D < FISICS_MAX_INCLUDE_DEPTH)%nat ->
  goes pp (fun n => include_body (run n) (Some path) origin originIndex tokens) (fun _ => True).
Proof.
  intros Hok HD Hp Hlt. destruct (push_wf _ path origin originIndex (po_includes _ Hok)) as (st & Hpush & Hwf & Hfs).
  assert (pp_ok (with_stack pp st)) as Hok1 by (destruct Hok; by split).
  destruct (Hrun (with_stack pp st) tokens) as (n & r & pp2 & H & Hinv & _); [done| |done|done|].
  { change (p_includeStack (with_stack pp st)) with st. unfold inc_depth in *. rewrite Hfs, length_app. simpl. lia. }
  assert (inc_frames (p_includeStack pp2) = inc_frames st) as Hf2 by apply (pi_open _ _ Hinv).
  assert (pp_ok pp2) as Hok2 by (by apply Hinv).
  destruct (pop_wf _ (po_includes _ Hok2)) as (st3 & Hpop & Hwf3 & Hfs3).
  exists n, (Some r), (with_stack pp2 st3). split_and!; [| |done].
  - intros n' Hn. unfold include_body, bind, attempt, get, put, lift. rewrite Hpush. cbn [ret].
    unfold ret. rewrite (H n' Hn). by rewrite Hpop.
  - split; [|change (p_includeStack (with_stack pp2 st3)) with st3|apply (pi_trigraphs _ _ Hinv)].
    + intros _. destruct Hok2. by split.
    + rewrite Hfs3. unfold inc_depth. rewrite Hf2, Hfs, length_app. simpl.
      replace (_ + 1 - 1)%nat with (length (inc_frames (p_includeStack pp))) by lia. by rewrite take_app_length.
Qed.

Lemma include_file_goes (pp : Preprocessor) (tok : option Token) (index : nat) (file : IncludeFile)
    (origin : IncludeSearchOrigin) (originIndex : Z) :
  pp_ok pp -> inc_depth (p_includeStack pp) = D -> p_files pp !! index = Some file ->
  goes pp (fun n => include_file (run n) tok index file origin originIndex) (fun _ => True).
Proof.
  intros Hok HD Hi. unfold include_file. apply runs_get. destruct (_ && _); [by apply runs_ret; [apply _|]|].
  assert (exists recurse, match if_path file with
    | Some path => pp_include_stack_contains (p_includeStack pp) path | None => Some false end = Some recurse) as [recurse Hrec].
  { destruct (if_path file); [|by eexists]. eexists. by apply contains_spec, po_includes. }
  eapply (runs_bind_eq _ _ pp); [rewrite Hrec; reflexivity|done|].
  destruct (guard_defined _ _ _); [by apply runs_ret; [apply _|]|].
  apply in_new_place_goes. set (pp1 := with_place pp None 0 false).
  assert (pp_inv pp pp1) as H1 by inv_same.
  destruct (get_lexed_spec pp1 index file) as (r & pp2 & Hlex & H2 & Hr); [by apply H1|done|].
  destruct r as [tokens|].
  2:{ exists 0%nat, None, pp2. split_and!; [|done|done]. intros n _. unfold bind. by rewrite Hlex. }
  destruct (Hr tokens eq_refl) as (Hplain & [path Hpath] & Hi2).
  eapply (runs_bind_eq _ _ pp2); [exact Hlex|done|].
  eapply runs_bind; [apply _|by apply admit_goes|]. intros pp3 [|] H3 Hadm; [|by apply runs_ret; [apply _|]].
  assert (pp_inv pp pp3) as Hinv by (by repeat (etrans; [eassumption|])).
  eapply (runs_bind _ _ _ _ (fun _ => True)).
  { rewrite Hpath. apply include_body_goes; [by apply Hinv| |done|].
    - unfold inc_depth in *. by rewrite (pi_open _ _ Hinv).
    - specialize (Hadm eq_refl). rewrite <- HD. unfold inc_depth in *.
      by rewrite <- (pi_open _ _ H1), <- (pi_open _ _ H2). }
  intros pp4 r _ _. eapply (runs_bind _ _ _ _ (fun _ => True)); [apply runs_modify; [by apply update_file_inv|done]|].
  intros pp5 _ _ _. destruct r; [by apply runs_ret; [apply _|]|apply runs_fail, _].
Qed.

Lemma process_include_goes (pp : Preprocessor) (tokens : list Token) (cursor : nat) (isNext : bool) :
  pp_ok pp -> inc_depth (p_includeStack pp) = D ->
  goes pp (fun n => process_include n load (run n) tokens cursor isNext) (fun j => cursor <= j)%nat.
Proof.
  intros Hok HD. unfold process_include.
  eapply runs_bind; [apply _|by apply include_operand_goes|]. intros pp1 [[name isSystem] j] H1 Hj. simpl in Hj.
  eapply (runs_bind _ _ _ _ (fun _ => True)); [apply resolver_load_goes|]. intros pp2 found H2 _.
  apply runs_get. cbv zeta.
  match goal with |- context [with_record pp2 ?r] => set (rec := r) end.
  eapply (runs_bind_eq _ _ (with_record pp2 rec)); [done| |].
  { split; [intros []; by split|done|done]. }
  destruct found as [[[index origin] originIndex]|]; cbn [mbind option_bind];
    [destruct (p_files pp2 !! index) as [file|] eqn:Hi; cbn [mbind option_bind]|].
  - eapply (runs_bind_eq _ _ (with_edge (with_record pp2 rec) _ _)); [done| |].
    { split; [intros []; by split|done|done]. }
    assert (pp_inv pp pp2) as Hinv by (by etrans).
    eapply (runs_bind _ _ _ _ (fun _ => True)); [apply include_file_goes|intros; by apply runs_ret; [apply _|]].
    + assert (pp_ok pp2) as [] by (by apply Hinv). by split.
    + change (p_includeStack (with_edge (with_record pp2 rec) _ _)) with (p_includeStack pp2).
      unfold inc_depth in *. by rewrite (pi_open _ _ Hinv).
    + exact Hi.
  - destruct (_ || _); [|apply goes_error].
    eapply (runs_bind _ _ _ _ (fun _ => True)); [apply runs_modify; [|done]|intros; by apply runs_ret; [apply _|]].
    case_match; [done|apply report_inv].
  - destruct (_ || _); [|apply goes_error].
    eapply (runs_bind _ _ _ _ (fun _ => True)); [apply runs_modify; [|done]|intros; by apply runs_ret; [apply _|]].
    case_match; [done|apply report_inv].
Qed.
End Nested.

(** Nested files: as many as the depth limit leaves. *)
Lemma include_at_goes (k D : nat) (d : nat -> nat) (pp : Preprocessor) (tokens : list Token) (cursor : nat) (isNext : bool) :
  (FISICS_MAX_INCLUDE_DEPTH - D <= k)%nat -> (exists n, forall n', (n <= n')%nat -> (k < d n')%nat) ->
  pp_ok pp -> inc_depth (p_includeStack pp) = D ->
  goes pp (fun n => include_at load n (d n) tokens cursor isNext) (fun j => cursor <= j)%nat.
Proof.
  revert D d pp tokens cursor isNext. induction k as [|k IH]; intros D d pp tokens cursor isNext HD [n0 Hd] Hok Hdep.
  all: assert (forall pp toks, pp_ok pp -> inc_depth (p_includeStack pp) = S D -> plain toks ->
    (D < FISICS_MAX_INCLUDE_DEPTH)%nat ->
    goes pp (fun n => run_host (pp_host load n (include_at load n (pred (d n)))) toks) (fun _ => True)) as Hrun.
  1: { intros. lia. }
  2: { intros pp1 toks Hok1 Hdep1 Hp HDlt. apply (run_host_goes pp1 Hok1); [|done].
       intros pp2 toks2 i b Hinv. apply (IH (S D)); [lia| |by apply Hinv|].
       - exists n0. intros n' Hn. specialize (Hd n' Hn). lia.
       - unfold inc_depth in *. by rewrite (pi_open _ _ Hinv). }
  all: destruct (process_include_goes D (fun n => run_host (pp_host load n (include_at load n (pred (d n))))) Hrun
    pp tokens cursor isNext Hok Hdep) as (n & r & pp' & H & Hinv & HQ).
  all: exists (n `max` n0)%nat, r, pp'; split_and!; [|done|done].
  all: intros n' Hn; specialize (Hd n' ltac:(lia)); specialize (H n' ltac:(lia)); cbv beta in H.
  all: destruct (d n') as [|d'] eqn:Ed; [lia|]; exact H.
Qed.

Lemma preprocess_goes (pp : Preprocessor) (tokens : list Token) :
  pp_ok pp -> plain tokens -> goes pp (fun n => preprocess load n tokens) (fun _ => True).
Proof.
  intros Hok Hp. unfold preprocess. apply (run_host_goes pp Hok (fun n => include_at load n n)); [|done].
  intros pp1 toks i b Hinv. apply (include_at_goes FISICS_MAX_INCLUDE_DEPTH (inc_depth (p_includeStack pp1))
    (fun n => n)); [lia| |by apply Hinv|done].
  exists (S FISICS_MAX_INCLUDE_DEPTH). lia.
Qed.
End Load.

Lemma preprocessor_run_goes (load : list IncludeFile -> option string -> string -> bool -> bool ->
                                     list IncludeFile * option (nat * IncludeSearchOrigin * Z))
    (Hload : forall b files parent name isSystem isNext,
       Forall (file_plain b) files -> Forall (file_plain b) (load files parent name isSystem isNext).1)
    (pp : Preprocessor) (tokens : list Token) :
  pp_ok pp -> inc_depth (p_includeStack pp) = 0%nat -> plain tokens ->
  goes pp (fun n => preprocessor_run load n tokens) (fun _ => True).
Proof.
  intros Hok HD Hp. unfold preprocessor_run. apply runs_get.
  eapply (runs_bind _ _ _ _ (fun _ => True)).
  - destruct (token_file (head tokens)) as [root|].
    + destruct (match list_find _ _ with Some _ => _ | None => _ end) as [origin originIndex].
      apply (include_body_goes 0 (fun n => preprocess load n)); [|done|done|done|unfold FISICS_MAX_INCLUDE_DEPTH; lia].
      intros pp1 toks Hok1 _ Hp1 _. by apply preprocess_goes.
    + eapply runs_mono; [apply runs_attempt, preprocess_goes; [done..]|done].
  - intros pp1 r _ _. destruct r; [apply runs_modify; [inv_same|done]|apply runs_fail, _].
Qed.

Lemma preprocessor_init_ok (cfg : PPConfig) (macroDefines : list string) :
  cfg_lenientMissingIncludes cfg = false -> Forall (file_plain (cfg_enableTrigraphs cfg)) (cfg_files cfg) ->
  pp_ok (preprocessor_init cfg macroDefines).
Proof. intros Hs Hf. destruct (init_table cfg macroDefines) as [H1 H2]. split; [done..|by left|done]. Qed.

(** C35: the preprocessor always returns.  In strict mode, from the state any configuration
    and any [-D] options give, on any token list and with any files behind [#include], there
    is a nesting depth from which on the run has one and the same result, success or failure;
    afterwards no file is open, no macro is being expanded, and no name is defined twice.
    Neither the tokens nor those of any file may include a string or character constant spelled
    [defined], on which the code does hang in [#if] ([quoted_defined_hangs]). *)
Theorem preprocessing_returns (load : list IncludeFile -> option string -> string -> bool -> bool ->
                                      list IncludeFile * option (nat * IncludeSearchOrigin * Z))
    (cfg : PPConfig) (macroDefines : list string) (tokens : list Token) :
  (forall b files parent name isSystem isNext,
     Forall (file_plain b) files -> Forall (file_plain b) (load files parent name isSystem isNext).1) ->
  cfg_lenientMissingIncludes cfg = false -> Forall (file_plain (cfg_enableTrigraphs cfg)) (cfg_files cfg) ->
  plain tokens ->
  exists fuel r pp', (forall fuel', (fuel <= fuel')%nat ->
      preprocessor_run load fuel' tokens (preprocessor_init cfg macroDefines) = Some (r, pp')) /\
    inc_frames (p_includeStack pp') = [] /\ mt_expansionStack (p_table pp') = [] /\
    NoDup (md_name <$> mt_macros (p_table pp')).
Proof.
  intros Hload Hs Hf Hp. pose proof (preprocessor_init_ok cfg macroDefines Hs Hf) as Hok.
  destruct (preprocessor_run_goes load Hload _ tokens Hok eq_refl Hp) as (fuel & r & pp' & H & [Hinv Hfr _] & _).
  destruct (Hinv Hok) as [[Hn _ _] Hst _ _ _]. exists fuel, r, pp'. by split_and!.
Qed.

(** ** A file that includes itself *)

Definition self_include : list ascii := list_ascii_of_string "#include <self.h>".

Definition self_file : IncludeFile :=
  mkIncludeFile (Some "self.h"%string) (Some self_include) None None (empty_probe INCLUDE_SUMMARY_PROBE_UNKNOWN) []
    false false INCLUDE_SEARCH_RAW (-1).

Definition self_load (files : list IncludeFile) (parent : option string) (name : string) (isSystem isNext : bool)
    : list IncludeFile * option (nat * IncludeSearchOrigin * Z) := (files, Some (0%nat, INCLUDE_SEARCH_RAW, -1)).

Definition self_config : PPConfig := mkPPConfig false false false 201112 false None "" "" [self_file].

Definition self_tokens : list Token := default [] (tokenize self_include None false).

Example self_include_refused :
  (fun '(r, pp) => (r, map dg_message (p_diagnostics pp))) <$>
    preprocessor_run self_load 6 self_tokens (preprocessor_init self_config [])
  = Some (None, ["detected recursive include of 'self.h'"]%string).
Proof. vm_compute. reflexivity. Qed.

#[export] Instance plain_token_ok_dec (tok : Token) : Decision (plain_token_ok tok).
Proof. unfold plain_token_ok. apply _. Defined.

Lemma self_file_plain : file_plain false self_file.
Proof.
  split; [discriminate|]. intros contents path tokens [= <-] [= <-] Ht.
  assert (match tokenize self_include (Some "self.h"%string) false with
          | Some tokens => bool_decide (Forall plain_token_ok tokens) | None => true end = true) as H
    by (vm_compute; reflexivity).
  rewrite Ht in H. by apply bool_decide_eq_true in H.
Qed.

Lemma preprocessing_returns_witness :
  exists fuel r pp', (forall fuel', (fuel <= fuel')%nat ->
      preprocessor_run self_load fuel' self_tokens (preprocessor_init self_config ["X=1"%string]) = Some (r, pp')) /\
    inc_frames (p_includeStack pp') = [].
Proof.
  destruct (preprocessing_returns self_load self_config ["X=1"%string] self_tokens) as (fuel & r & pp' & H1 & H2 & _).
  - intros b files parent name isSystem isNext H. exact H.
  - reflexivity.
  - constructor; [exact self_file_plain|constructor].
  - apply (bool_decide_unpack _). vm_compute. exact I.
  - exists fuel, r, pp'. split; [exact H1|exact H2].
Defined.

(** ** Where the code does not return *)

(** [#if "defined"]: the span that is to be expanded is empty and the loop stays where it is,
    whatever the number of iterations. *)
Lemma quoted_defined_hangs (fuel steps : nat) load (pp : Preprocessor) (out : list Token) :
  prepare_loop fuel load steps [plain_token TOKEN_STRING "defined" 1] 0 out pp = None.
Proof.
  revert pp out. induction steps as [|steps IH]; intros pp out; [done|].
  cbn [prepare_loop]. unfold bind at 1, get. cbn -[prepare_loop]. apply IH.
Qed.

(** In lenient mode, a [#define] without a name as the last directive is read again and
    again: the cursor is moved back twice. *)
Definition unnamed_define : list Token :=
  [plain_token TOKEN_SEMICOLON ";" 1; plain_token TOKEN_DEFINE "define" 2; plain_token TOKEN_EOF "" 3].

Lemma lenient_define_loops (fuel steps : nat) load include (pp : Preprocessor) :
  p_lenientMissingIncludes pp = true -> p_preserveDirectives pp = false ->
  @driver_loop _ (pp_host load fuel include) steps unnamed_define 1 (mkDriver (Some pp) [] cs_empty) = None.
Proof.
  revert pp. induction steps as [|steps IH]; intros pp Hl Hp; [done|].
  cbn [driver_loop]. rewrite decide_False by (simpl; lia).
  assert (@driver_step _ (pp_host load fuel include) unnamed_define 1 (mkDriver (Some pp) [] cs_empty)
    = inr (mkDriver (Some (report_as pp (unnamed_define !! 2%nat) "expected identifier after #define")) [] cs_empty, 0%nat)) as ->.
  { destruct pp. simpl in Hl, Hp. subst. reflexivity. }
  apply IH; [by destruct pp|by destruct pp].
Qed.
