(* ===== verification/PPGuard.v ===== *)
(** * Skipping a guarded file gives what reading it gives.

    [process_include] does not read a file whose include guard ([detect_include_guard]) is
    defined.  For a file that is nothing but [#ifndef G ... #endif] the driver, on any host,
    leaves the state as it is; [skipped_else_branch] shows a guarded file with an [#else]
    where the two differ. *)
From S2P Require Import Prelude CType Tokens LexerSource MacroTable PPExpr PPConditional PPIncludeStack PPInclude.

Definition is_branch (t : TokenType) : bool := one_of [TOKEN_PP_ELSE; TOKEN_PP_ELIF] t.

(** [guard_covers] for a group without branches of its own and with nothing behind it. *)
Fixpoint covers_plainly (tokens : list Token) (depth : nat) : bool :=
  match tokens with
  | [] => false
  | tok :: rest =>
      if tt_eqb (tok_type tok) TOKEN_EOF then false
      else if token_type_is_conditional_start (tok_type tok) then covers_plainly rest (S depth)
      else if is_branch (tok_type tok) then (1 <? depth)%nat && covers_plainly rest depth
      else if tt_eqb (tok_type tok) TOKEN_ENDIF then
        match depth with
        | O => false
        | S O => forallb (fun t => tt_eqb (tok_type t) TOKEN_EOF)
                   (drop (length (span (on_line (tok_line tok)) (tok :: rest)).1) (tok :: rest))
        | S depth' => covers_plainly rest depth'
        end
      else covers_plainly rest depth
  end.

(** A conditional directive is not behind another token of its line. *)
Definition directives_start_lines (tokens : list Token) : Prop :=
  forall i a b, tokens !! i = Some a -> tokens !! S i = Some b ->
    is_conditional_directive (tok_type b) = true -> tok_line a <> tok_line b.

(** The group of the guard and the groups in it are all skipped. *)
Fixpoint skipping (frames : list PPConditionalFrame) : Prop :=
  match frames with
  | [] => False
  | [f] => selfActive f = false
  | f :: outer => selfActive f = false /\ parentActive f = false /\ skipping outer
  end.

Lemma skipping_inactive (frames : list PPConditionalFrame) :
  skipping frames -> conditional_stack_is_active frames = false.
Proof. destruct frames as [|f [|g outer]]; simpl; [by intros []|by intros|by intros (? & _)]. Qed.

Lemma skipping_push (frames : list PPConditionalFrame) (f : PPConditionalFrame) :
  skipping frames -> selfActive f = false -> parentActive f = false -> skipping (f :: frames).
Proof. destruct frames as [|g outer]; [by intros []|]. by intros; split_and!. Qed.

Section Skip.
Context {PP : Type} `{PPHost PP} (tokens : list Token) (Hlines : directives_start_lines tokens).

Lemma span_lookup (p : Token -> bool) (l : list Token) (k : nat) :
  (k < length (span p l).1)%nat -> exists t, l !! k = Some t /\ p t = true.
Proof.
  intros Hk. destruct (lookup_lt_is_Some_2 _ _ Hk) as [t Ht]. exists t. split.
  - rewrite <- (span_app p l). by apply lookup_app_l_Some.
  - by apply (Forall_lookup_1 _ _ _ _ (span_all p l) Ht).
Qed.

(** The tokens behind a token of the line, up to the line's end, are no conditional directives. *)
Lemma line_tokens (i j : nat) (tok : Token) :
  tokens !! i = Some tok -> (i < j)%nat -> (j < line_end tokens (tok_line tok) (S i))%nat ->
  exists t, tokens !! j = Some t /\ tok_type t <> TOKEN_EOF /\ is_conditional_directive (tok_type t) = false.
Proof.
  intros Hi Hij Hj. unfold line_end in Hj.
  assert (forall k, (i < k)%nat -> (k < j + 1)%nat -> exists t, tokens !! k = Some t /\ on_line (tok_line tok) t = true) as Hon.
  { intros k H1 H2. destruct (span_lookup (on_line (tok_line tok)) (drop (S i) tokens) (k - S i)) as (t & Ht & Hp); [lia|].
    exists t. rewrite lookup_drop in Ht. replace (S i + (k - S i))%nat with k in Ht by lia. done. }
  destruct (Hon j) as (t & Ht & Hp); [lia..|]. exists t. unfold on_line in Hp.
  apply andb_true_iff in Hp as [Hne Hl]. apply Z.eqb_eq in Hl. split_and!; [done|by intros E; rewrite E in Hne|].
  assert (exists a, tokens !! (j - 1)%nat = Some a /\ tok_line a = tok_line tok) as (a & Ha & Hla).
  { destruct (decide (i = j - 1)%nat) as [<-|]; [by exists tok|].
    destruct (Hon (j - 1)%nat) as (a & Ha & Hpa); [lia..|]. exists a. split; [done|].
    unfold on_line in Hpa. apply andb_true_iff in Hpa as [_ Hpa]. by apply Z.eqb_eq in Hpa. }
  destruct (is_conditional_directive (tok_type t)) eqn:E; [|done].
  exfalso. apply (Hlines (j - 1)%nat a t Ha); [by replace (S (j - 1)) with j by lia|done|congruence].
Qed.

Lemma covers_skip (k n d : nat) :
  (k <= n)%nat ->
  (forall j, (k <= j)%nat -> (j < n)%nat -> exists t, tokens !! j = Some t /\ tok_type t <> TOKEN_EOF /\
     is_conditional_directive (tok_type t) = false) ->
  covers_plainly (drop k tokens) d = covers_plainly (drop n tokens) d.
Proof.
  intros Hkn Hall. remember (n - k)%nat as m eqn:Em. revert k Hkn Hall Em.
  induction m as [|m IH]; intros k Hkn Hall Em; [by replace n with k by lia|].
  destruct (Hall k) as (t & Ht & He & Hc); [lia..|]. rewrite (drop_S _ _ _ Ht). cbn [covers_plainly].
  rewrite <- (IH (S k)); [|lia| |lia].
  - destruct (tt_eqb (tok_type t) TOKEN_EOF) eqn:E; [by apply tt_eqb_spec in E|].
    unfold is_conditional_directive, token_type_is_conditional_start, is_branch, one_of in *.
    by destruct (tok_type t).
  - intros j H1 H2. apply Hall; lia.
Qed.

(** Past the line of the token at [i]. *)
Lemma covers_line (i d : nat) (tok : Token) :
  tokens !! i = Some tok ->
  covers_plainly (drop (S i) tokens) d = covers_plainly (drop (line_end tokens (tok_line tok) (S i)) tokens) d.
Proof.
  intros Hi. apply covers_skip; [apply line_end_ge|]. intros j H1 H2. by apply (line_tokens i j tok).
Qed.

Lemma line_end_next (line : Z) (i : nat) (tok : Token) :
  tokens !! i = Some tok -> on_line line tok = true -> line_end tokens line i = line_end tokens line (S i).
Proof.
  intros Hi Hon. unfold line_end. rewrite (drop_S _ _ _ Hi). simpl. rewrite Hon.
  destruct (span _ _). simpl. lia.
Qed.

Lemma on_own_line (tok : Token) : tok_type tok <> TOKEN_EOF -> on_line (tok_line tok) tok = true.
Proof.
  intros Hne. unfold on_line. rewrite Z.eqb_refl, andb_true_r. destruct (tt_eqb _ _) eqn:E; [|done].
  by apply tt_eqb_spec in E.
Qed.

(** What the loop keeps until the group is closed, and afterwards. *)
Definition skip_state (i : nat) (d : Driver (PP := PP)) : Prop :=
  d_chunk d = [] /\
  ((skipping (cs_frames (d_cond d)) /\ covers_plainly (drop i tokens) (length (cs_frames (d_cond d))) = true) \/
   (cs_frames (d_cond d) = [] /\ Forall (fun t => tok_type t = TOKEN_EOF) (drop i tokens))).

Lemma skip_line (i : nat) (tok : Token) :
  tokens !! i = Some tok -> tok_type tok <> TOKEN_EOF ->
  S (skip_to_line_end tokens i) = line_end tokens (tok_line tok) (S i).
Proof.
  intros Hi Hne. unfold skip_to_line_end, token_line. rewrite Hi.
  rewrite (line_end_next (tok_line tok) i tok Hi) by by apply on_own_line.
  pose proof (line_end_ge tokens (tok_line tok) (S i)). lia.
Qed.

(** A line that changes no group. *)
Lemma skip_other_line (i : nat) (tok : Token) (d : Driver (PP := PP)) :
  skipping (cs_frames (d_cond d)) -> d_chunk d = [] -> tokens !! i = Some tok -> tok_type tok <> TOKEN_EOF ->
  is_conditional_directive (tok_type tok) = false ->
  covers_plainly (drop i tokens) (length (cs_frames (d_cond d))) = true ->
  skip_state (S i) d /\ skip_state (S (skip_to_line_end tokens i)) d.
Proof.
  intros Hs Hch Hi Hne Hc Hcov.
  assert (covers_plainly (drop (S i) tokens) (length (cs_frames (d_cond d))) = true) as Hcov'.
  { rewrite <- Hcov. symmetry. apply covers_skip; [lia|]. intros j H1 H2. replace j with i by lia. by exists tok. }
  split; (split; [done|]); left; (split; [done|]); [done|].
  rewrite (skip_line i tok Hi Hne). by rewrite <- (covers_line i _ tok Hi).
Qed.

(** A group opened inside. *)
Lemma skip_open (i j : nat) (tok : Token) (d : Driver (PP := PP)) (pp : PP) (b c : bool) :
  skipping (cs_frames (d_cond d)) -> tokens !! i = Some tok ->
  token_type_is_conditional_start (tok_type tok) = true -> S j = line_end tokens (tok_line tok) (S i) ->
  covers_plainly (drop i tokens) (length (cs_frames (d_cond d))) = true ->
  skip_state (S j) (mkDriver pp [] (push_conditional (d_cond d)
     (mkFrame (conditional_stack_is_active (cs_frames (d_cond d))) (conditional_stack_is_active (cs_frames (d_cond d)) && b)
        (conditional_stack_is_active (cs_frames (d_cond d)) && c) false))).
Proof.
  intros Hs Hi Hst Hj Hcov. pose proof (skipping_inactive _ Hs) as Hina. rewrite Hina.
  split; [done|]. left. cbn [push_conditional d_cond cs_frames]. split; [by apply skipping_push|].
  rewrite Hj, <- (covers_line i _ tok Hi). rewrite (drop_S _ _ _ Hi) in Hcov. cbn [covers_plainly] in Hcov.
  rewrite Hst in Hcov. destruct (tt_eqb (tok_type tok) TOKEN_EOF); [done|]. exact Hcov.
Qed.

(** [#elif] and [#else] of an inner group, [#endif] of any. *)
Lemma skip_branch (i : nat) (tok : Token) (d : Driver (PP := PP)) :
  tokens !! i = Some tok -> is_branch (tok_type tok) = true ->
  covers_plainly (drop i tokens) (length (cs_frames (d_cond d))) = true ->
  (1 < length (cs_frames (d_cond d)))%nat /\
  covers_plainly (drop (line_end tokens (tok_line tok) (S i)) tokens) (length (cs_frames (d_cond d))) = true.
Proof.
  intros Hi Hb Hcov. rewrite (drop_S _ _ _ Hi) in Hcov. cbn [covers_plainly] in Hcov. rewrite Hb in Hcov.
  destruct (tt_eqb (tok_type tok) TOKEN_EOF); [done|].
  assert (token_type_is_conditional_start (tok_type tok) = false) as E by (by destruct (tok_type tok)).
  rewrite E in Hcov. apply andb_true_iff in Hcov as [Hd Hcov]. apply Nat.ltb_lt in Hd.
  split; [done|]. by rewrite <- (covers_line i _ tok Hi).
Qed.

Lemma skip_close (i : nat) (tok : Token) (f : PPConditionalFrame) (outer : list PPConditionalFrame) (cap : nat) (pp : PP) :
  tokens !! i = Some tok -> tok_type tok = TOKEN_ENDIF -> skipping (f :: outer) ->
  covers_plainly (drop i tokens) (S (length outer)) = true ->
  skip_state (line_end tokens (tok_line tok) (S i)) (mkDriver pp [] (mkCondStack outer cap)).
Proof.
  intros Hi Hty Hs Hcov. rewrite (drop_S _ _ _ Hi) in Hcov. cbn [covers_plainly] in Hcov. rewrite Hty in Hcov.
  simpl tt_eqb in Hcov. simpl token_type_is_conditional_start in Hcov. simpl is_branch in Hcov.
  cbv beta iota in Hcov. split; [done|]. destruct outer as [|g outer]; cbn [length d_cond cs_frames] in *.
  - right. split; [done|]. rewrite <- (drop_S _ _ _ Hi), drop_drop in Hcov.
    fold (line_end tokens (tok_line tok) i) in Hcov.
    assert (line_end tokens (tok_line tok) (S i) = (i + length (span (on_line (tok_line tok)) (drop i tokens)).1)%nat) as ->.
    { rewrite <- (line_end_next (tok_line tok) i tok Hi); [done|]. apply on_own_line. by rewrite Hty. }
    apply Forall_forall. intros t Ht. apply forallb_forall with (x := t) in Hcov; [by apply tt_eqb_spec|].
    by apply list_elem_of_In.
  - left. split; [by destruct Hs as (_ & _ & Hs)|]. cbn [length]. by rewrite <- (covers_line i _ tok Hi).
Qed.

(** One directive of a skipped group: the run is on the unchanged state. *)
Lemma conditional_directive_skip (d d' : Driver (PP := PP)) (j : nat) (run : PP -> PP + PP * nat * CondStack) :
  d_chunk d = [] -> conditional_directive d run = inr (d', j) ->
  exists pp s, run (d_pp d) = inr (pp, j, s) /\ d' = mkDriver pp [] s.
Proof.
  unfold conditional_directive. intros -> H1. cbn [pp_flush_chunk try] in H1. step_inr H1 r Hr.
  destruct r as [[pp i'] s]. simplify_eq. by exists pp, s.
Qed.

Lemma skip_ifdeflike (pp pp' : PP) (i j : nat) (tok : Token) (s s' : CondStack) (neg : bool) :
  tokens !! i = Some tok -> covers_plainly (drop (S i) tokens) (S (length (cs_frames s))) = true ->
  process_ifdeflike pp tokens i s neg = inr (pp', j, s') -> S j = line_end tokens (tok_line tok) (S i).
Proof.
  intros Hi Hcov. unfold process_ifdeflike, token_line. rewrite Hi.
  destruct (tokens !! S i) as [name|] eqn:Hn; [|done].
  destruct (negb (tok_line name =? tok_line tok)) eqn:Eline; [done|]. simpl.
  destruct (token_is_macro_identifier name); [|done]. simpl.
  assert (on_line (tok_line tok) name = true) as Hon.
  { apply negb_false_iff, Z.eqb_eq in Eline. rewrite <- Eline. apply on_own_line. intros E.
    rewrite (drop_S _ _ _ Hn) in Hcov. cbn [covers_plainly] in Hcov. by rewrite E in Hcov. }
  rewrite (line_end_next (tok_line tok) (S i) name Hn Hon).
  pose proof (line_end_ge tokens (tok_line tok) (S (S i))).
  destruct (tokens !! S (S i)) as [t|]; [destruct (on_line (tok_line tok) t); [done|]|]; intros [= _ <- _]; unfold line_end; simpl; lia.
Qed.

Lemma skip_elif (pp pp' : PP) (i j : nat) (tok : Token) (f g : PPConditionalFrame) (outer : list PPConditionalFrame)
    (cap : nat) (s' : CondStack) :
  lenientMissingIncludes pp = false -> tokens !! i = Some tok -> skipping (f :: g :: outer) ->
  process_elif pp tokens i (mkCondStack (f :: g :: outer) cap) = inr (pp', j, s') ->
  pp' = pp /\ S j = line_end tokens (tok_line tok) (S i) /\
  exists f', cs_frames s' = f' :: g :: outer /\ skipping (f' :: g :: outer).
Proof.
  intros Hl Hi (Hself & Hpar & Hs). unfold process_elif, misplaced, token_line. cbn [cs_frames]. rewrite Hl, Hi, Hpar.
  destruct (sawElse f); [done|]. cbn [andb try]. intros [= <- <- <-].
  pose proof (line_end_ge tokens (tok_line tok) (S i)). split_and!; [done|unfold line_end; simpl; lia|].
  eexists. split; [done|]. by split_and!.
Qed.

Lemma skip_else (pp pp' : PP) (tok : Token) (f g : PPConditionalFrame) (outer : list PPConditionalFrame) (cap : nat)
    (s' : CondStack) :
  lenientMissingIncludes pp = false -> skipping (f :: g :: outer) ->
  process_else pp (mkCondStack (f :: g :: outer) cap) (Some tok) = inr (pp', s') ->
  pp' = pp /\ exists f', cs_frames s' = f' :: g :: outer /\ skipping (f' :: g :: outer).
Proof.
  intros Hl (Hself & Hpar & Hs). unfold process_else, misplaced. cbn [cs_frames]. rewrite Hl, Hpar.
  destruct (sawElse f); [done|]. cbn [andb]. intros [= <- <-]. split; [done|]. eexists. split; [done|]. by split_and!.
Qed.

Lemma skip_step (i j : nat) (d d' : Driver (PP := PP)) :
  lenientMissingIncludes (d_pp d) = false -> skip_state i d -> (i < length tokens)%nat ->
  driver_step tokens i d = inr (d', j) -> skip_state (S j) d' /\ d_pp d' = d_pp d.
Proof.
  intros Hl [Hch Hst] Hlt. destruct (lookup_lt_is_Some_2 _ _ Hlt) as [tok Hi].
  unfold driver_step. rewrite Hi. destruct Hst as [[Hs Hcov]|[Hnil Heof]].
  2:{ rewrite (drop_S _ _ _ Hi) in Heof. apply Forall_cons in Heof as [He Heof]. rewrite He.
      intros [= <- <-]. split; [|done]. split; [done|by right]. }
  assert (tok_type tok <> TOKEN_EOF) as Hne.
  { intros E. rewrite (drop_S _ _ _ Hi) in Hcov. cbn [covers_plainly] in Hcov. by rewrite E in Hcov. }
  pose proof (skipping_inactive _ Hs) as Hina. pose proof (skip_line i tok Hi Hne) as Hline.
  destruct (is_conditional_directive (tok_type tok)) eqn:Ec.
  2:{ destruct (skip_other_line i tok d Hs Hch Hi Hne Ec Hcov) as [H1 H2].
      unfold active_directive, other_directive, active_directive. rewrite Hina.
      assert (d = mkDriver (d_pp d) (d_chunk d) (d_cond d)) as Ed by by destruct d.
      destruct (tok_type tok); try discriminate Ec; try (by intros [= <- <-]);
        repeat case_match; try (by intros [= <- <-]); intros [= <- <-]; rewrite <- Ed; by split. }
  assert (token_type_is_conditional_start (tok_type tok) = true ->
    covers_plainly (drop (S i) tokens) (S (length (cs_frames (d_cond d)))) = true) as Hopen.
  { intros Hst. rewrite (drop_S _ _ _ Hi) in Hcov. cbn [covers_plainly] in Hcov. rewrite Hst in Hcov.
    by destruct (tt_eqb (tok_type tok) TOKEN_EOF). }
  destruct d as [pp ch [frames cap]]. cbn [d_pp d_chunk d_cond cs_frames] in *.
  destruct (tok_type tok) eqn:Ety; try discriminate Ec; intros Hrun;
    apply conditional_directive_skip in Hrun as (pp' & s' & Hrun & ->); try done; cbn [d_pp] in *.
  1,2: pose proof Hrun as Hinv; apply process_ifdeflike_inv in Hinv as (c & -> & ->); split; [|done];
    apply (skip_open i j tok (mkDriver pp ch (mkCondStack frames cap)) pp c c); [done|done|by rewrite Ety| |done];
    exact (skip_ifdeflike pp pp i j tok (mkCondStack frames cap) _ _ Hi (Hopen eq_refl) Hrun).
  - (* endif *) destruct (pp_directive_has_trailing_tokens tokens i); [done|].
    rewrite Hina, andb_false_r in Hrun. cbn [try] in Hrun.
    destruct frames as [|f outer]; [done|]. cbn [process_endif cs_frames cs_capacity try] in Hrun.
    injection Hrun as <- <- <-. split; [|done]. rewrite Hline. by apply (skip_close i tok f outer).
  - (* if *) pose proof Hrun as Hinv. apply process_if_inv in Hinv as (c & -> & Hpp). cbn [cs_frames] in Hpp.
    rewrite (Hpp Hina). split; [|done].
    apply (skip_open i j tok (mkDriver pp ch (mkCondStack frames cap)) pp c c); [done|done|by rewrite Ety| |done].
    unfold process_if in Hrun. cbn [cs_frames] in Hrun. rewrite Hina in Hrun. cbn [try] in Hrun.
    unfold token_line in Hrun. rewrite Hi in Hrun. injection Hrun as _ <-. unfold line_end; simpl; lia.
  - (* elif *) destruct (skip_branch i tok (mkDriver pp ch (mkCondStack frames cap)) Hi) as [Hd Hcov']; [by rewrite Ety|done|].
    destruct frames as [|f [|g outer]]; cbn in Hd; [lia|lia|].
    destruct (skip_elif pp pp' i j tok f g outer cap s' Hl Hi Hs Hrun) as (-> & Hj & f' & Hf' & Hs').
    split; [|done]. rewrite Hj. split; [done|]. left. cbn [d_cond]. rewrite Hf'. by split.
  - (* else *) destruct (pp_directive_has_trailing_tokens tokens i); [done|].
    destruct (skip_branch i tok (mkDriver pp ch (mkCondStack frames cap)) Hi) as [Hd Hcov']; [by rewrite Ety|done|].
    destruct frames as [|f [|g outer]]; cbn in Hd; [lia|lia|]. step_inr Hrun r Hr. destruct r as [pp2 s2].
    injection Hrun as <- <- <-. destruct (skip_else pp pp2 tok f g outer cap s2 Hl Hs Hr) as (-> & f' & Hf' & Hs').
    split; [|done]. rewrite Hline. split; [done|]. left. cbn [d_cond]. rewrite Hf'. by split.
Qed.

Lemma skip_loop (fuel i : nat) (d d' : Driver (PP := PP)) :
  lenientMissingIncludes (d_pp d) = false -> skip_state i d ->
  driver_loop fuel tokens i d = Some (inr d') -> d_pp d' = d_pp d /\ d_chunk d' = [].
Proof.
  revert i d. induction fuel as [|fuel IH]; intros i d Hl Hst; cbn [driver_loop].
  { case_decide; [|done]. intros [= <-]. by split; [|apply Hst]. }
  case_decide as Hi; [intros [= <-]; by split; [|apply Hst]|].
  destruct (driver_step tokens i d) as [pp|[d1 j]] eqn:E; [done|].
  destruct (skip_step i j d d1 Hl Hst) as [Hst1 Hpp]; [lia|done|].
  intros Hrun. rewrite <- Hpp. apply (IH (S j) d1); [by rewrite Hpp|done|done].
Qed.
End Skip.

(** A file with a guard starts with [#ifndef] and the guard. *)
Lemma detect_include_guard_inv (tokens : list Token) (g : string) :
  detect_include_guard tokens = Some g ->
  exists t0 t1, tokens !! 0%nat = Some t0 /\ tokens !! 1%nat = Some t1 /\ tok_type t0 = TOKEN_IFNDEF /\
    tok_type t1 = TOKEN_IDENTIFIER /\ tok_value t1 = Some g /\ (0 < length tokens)%nat.
Proof.
  unfold detect_include_guard. case_decide as Hlen; [done|].
  destruct (negb _) eqn:E; [done|]. apply negb_false_iff, andb_true_iff in E as [E0 E1].
  destruct (tokens !! 0%nat) as [t0|]; [|done]. destruct (tokens !! 1%nat) as [t1|]; [|done].
  cbn [mbind option_bind]. destruct (tok_value t1) as [v|] eqn:Ev; [|done]. cbn [mbind option_bind].
  apply tt_eqb_spec in E0, E1. intros Hg. exists t0, t1. split_and!; [done..| |lia]. rewrite Ev.
  destruct (negb _); [done|]. destruct (ends_line _ _ _); [done|].
  destruct (tokens !! _) as [t|]; [|done]. cbn [mbind option_bind] in Hg. by destruct (_ && _).
Qed.

(** C36: when the guard of a file is defined, reading the file changes nothing, so that not
    reading it is right: on any host, in strict mode, a run that succeeds on a file that is
    one [#ifndef]-group with the guard leaves the very state it began with. *)
Theorem guard_skip_sound {PP : Type} `{PPHost PP} (pp pp' : PP) (tokens : list Token) (g : string) :
  detect_include_guard tokens = Some g -> is_Some (macro_table_lookup (pp_table pp) g) ->
  covers_plainly (drop (line_end tokens (token_line tokens 0) 1) tokens) 1 = true -> directives_start_lines tokens ->
  lenientMissingIncludes pp = false ->
  preprocess_tokens pp tokens = Some (pp', true) -> pp' = pp.
Proof.
  intros (t0 & t1 & H0 & H1 & E0 & E1 & Ev & Hlen)%detect_include_guard_inv [p Hp] Hcov Hlines Hl.
  unfold preprocess_tokens. destruct (length tokens) as [|n] eqn:Elen; [lia|]. cbn [driver_loop].
  rewrite decide_False by (rewrite Elen; lia).
  destruct (driver_step tokens 0 (mkDriver pp [] cs_empty)) as [e|[d1 j]] eqn:Estep; [done|].
  assert (skip_state tokens (S j) d1 /\ d_pp d1 = pp) as [Hst Hpp].
  { unfold driver_step in Estep. rewrite H0, E0 in Estep.
    apply conditional_directive_skip in Estep as (pp1 & s1 & Hrun & ->); [|done]. cbn [d_pp d_cond] in *.
    unfold process_ifdeflike in Hrun. rewrite H1, Ev in Hrun. unfold token_line in Hrun, Hcov.
    rewrite H0 in Hrun, Hcov. cbv beta zeta in Hrun. change (default EmptyString (Some g)) with g in Hrun.
    destruct (_ || _) eqn:Eor; [done|].
    destruct (match tokens !! 2%nat with Some t => on_line _ t | None => false end) eqn:E2; [done|].
    rewrite Hp in Hrun. cbn in Hrun. injection Hrun as <- <- <-. split; [|done].
    split; [done|]. left. cbn [d_cond cs_frames push_conditional]. split; [done|].
    apply orb_false_iff in Eor as [Eline _]. apply negb_false_iff, Z.eqb_eq in Eline.
    rewrite (line_end_next tokens (tok_line t0) 1 t1 H1) in Hcov; [exact Hcov|].
    rewrite <- Eline. apply on_own_line. by rewrite E1. }
  destruct (driver_loop n tokens (S j) d1) as [[e|d']|] eqn:Eloop; [done| |done].
  destruct (skip_loop tokens Hlines n (S j) d1 d') as [Hpp' Hch]; [by rewrite Hpp|done|done|].
  cbn [mbind option_bind]. rewrite Hch. cbn [pp_flush_chunk]. destruct (cs_frames (d_cond d')); [|done].
  intros [= <-]. congruence.
Qed.

(** ** Examples *)

(** [#ifndef G], [#define G], [#ifdef X], [a], [#else], [b], [#endif], [#endif]. *)
Definition guarded_file : list Token :=
  [plain_token TOKEN_IFNDEF "ifndef" 1; plain_token TOKEN_IDENTIFIER "G" 1;
   plain_token TOKEN_DEFINE "define" 2; plain_token TOKEN_IDENTIFIER "G" 2;
   plain_token TOKEN_IFDEF "ifdef" 3; plain_token TOKEN_IDENTIFIER "X" 3;
   plain_token TOKEN_IDENTIFIER "a" 4; plain_token TOKEN_PP_ELSE "else" 5;
   plain_token TOKEN_IDENTIFIER "b" 6; plain_token TOKEN_ENDIF "endif" 7;
   plain_token TOKEN_ENDIF "endif" 8; plain_token TOKEN_EOF "EOF" 9].

Definition sink_with_G : Sink :=
  mkSink (macro_table_define_object macro_table_create "G" [] empty_source_range) [] [].

Definition starts_line_at (tokens : list Token) (i : nat) : bool :=
  match tokens !! i, tokens !! S i with
  | Some a, Some b => negb (is_conditional_directive (tok_type b)) || negb (tok_line a =? tok_line b)
  | _, _ => true
  end.

Lemma starts_lines_check (tokens : list Token) :
  forallb (starts_line_at tokens) (seq 0 (length tokens)) = true -> directives_start_lines tokens.
Proof.
  intros Hall i a b Ha Hb Hc Heq. rewrite forallb_forall in Hall.
  specialize (Hall i). rewrite in_seq in Hall. apply lookup_lt_Some in Ha as Hlt.
  specialize (Hall ltac:(lia)). unfold starts_line_at in Hall. rewrite Ha, Hb, Hc, Heq, Z.eqb_refl in Hall. done.
Qed.

Lemma guard_skip_sound_witness :
  detect_include_guard guarded_file = Some "G"%string /\
  exists pp, preprocess_tokens sink_with_G guarded_file = Some (pp, true) /\ pp = sink_with_G.
Proof.
  split; [vm_compute; reflexivity|].
  exists sink_with_G. split; [vm_compute; reflexivity|].
  apply (guard_skip_sound sink_with_G sink_with_G guarded_file "G").
  - vm_compute. reflexivity.
  - vm_compute. eexists. reflexivity.
  - vm_compute. reflexivity.
  - apply starts_lines_check. vm_compute. reflexivity.
  - reflexivity.
  - vm_compute. reflexivity.
Defined.

(** A guarded file whose group has an [#else]: the guard is detected all the same, though
    reading the file a second time gives the tokens of the [#else] branch. *)
Definition guard_with_else : list Token :=
  [plain_token TOKEN_IFNDEF "ifndef" 1; plain_token TOKEN_IDENTIFIER "G" 1;
   plain_token TOKEN_DEFINE "define" 2; plain_token TOKEN_IDENTIFIER "G" 2;
   plain_token TOKEN_PP_ELSE "else" 3; plain_token TOKEN_IDENTIFIER "again" 4;
   plain_token TOKEN_ENDIF "endif" 5; plain_token TOKEN_EOF "EOF" 6].

Example skipped_else_branch :
  detect_include_guard guard_with_else = Some "G"%string /\
  (fun '(pp, ok) => (map tok_value (sink_output pp), ok)) <$> preprocess_tokens sink_with_G guard_with_else
  = Some ([Some "again"%string], true).
Proof. by vm_compute. Qed.

(** The operand of an [#include] is taken from the next line. *)
Example include_operand_on_next_line :
  parse_include_operand [plain_token TOKEN_INCLUDE "include" 1; plain_token TOKEN_STRING "x.h" 2; plain_token TOKEN_EOF "EOF" 3] 0
  = Some (1%nat, "x.h"%string, false).
Proof. by vm_compute. Qed.
