(* ===== verification/TargetLayout.v ===== *)
(** * Sizes and alignments of the target (src/Syntax/target_layout.c).

    The four layouts, the choice by target triple and the LLVM data layout string.  Sizes are
    in bits and alignments in bytes, as in the code. *)
From S2P Require Import Prelude CType.

Inductive TargetEndianness : Set := TL_ENDIAN_LITTLE | TL_ENDIAN_BIG.

Inductive TargetLongDoubleKind : Set := TL_LONG_DOUBLE_64 | TL_LONG_DOUBLE_80 | TL_LONG_DOUBLE_128.

Record TargetLayout := mkTargetLayout {
  charBits : Z; shortBits : Z; intBits : Z; longBits : Z; longLongBits : Z;
  floatBits : Z; doubleBits : Z; longDoubleBits : Z;
  pointerBits : Z;
  charAlign : Z; shortAlign : Z; intAlign : Z; longAlign : Z; longLongAlign : Z;
  floatAlign : Z; doubleAlign : Z; longDoubleAlign : Z;
  pointerAlign : Z;
  maxAlign : Z;
  bitfieldUnitBits : Z; bitfieldUnitAlign : Z;
  endianness : TargetEndianness;
  longDoubleKind : TargetLongDoubleKind;
  supportsStdcall : bool; supportsFastcall : bool; supportsDllStorage : bool
}.

#[export] Instance TargetEndianness_eq_dec : EqDecision TargetEndianness.
Proof. solve_decision. Defined.

Definition layout_lp64_fp80 : TargetLayout := {|
  charBits := 8; shortBits := 16; intBits := 32; longBits := 64; longLongBits := 64;
  floatBits := 32; doubleBits := 64; longDoubleBits := 80; pointerBits := 64;
  charAlign := 1; shortAlign := 2; intAlign := 4; longAlign := 8; longLongAlign := 8;
  floatAlign := 4; doubleAlign := 8; longDoubleAlign := 16; pointerAlign := 8; maxAlign := 16;
  bitfieldUnitBits := 32; bitfieldUnitAlign := 4;
  endianness := TL_ENDIAN_LITTLE; longDoubleKind := TL_LONG_DOUBLE_80;
  supportsStdcall := false; supportsFastcall := false; supportsDllStorage := false
|}.

Definition layout_lp64_fp128 : TargetLayout := {|
  charBits := 8; shortBits := 16; intBits := 32; longBits := 64; longLongBits := 64;
  floatBits := 32; doubleBits := 64; longDoubleBits := 128; pointerBits := 64;
  charAlign := 1; shortAlign := 2; intAlign := 4; longAlign := 8; longLongAlign := 8;
  floatAlign := 4; doubleAlign := 8; longDoubleAlign := 16; pointerAlign := 8; maxAlign := 16;
  bitfieldUnitBits := 32; bitfieldUnitAlign := 4;
  endianness := TL_ENDIAN_LITTLE; longDoubleKind := TL_LONG_DOUBLE_128;
  supportsStdcall := false; supportsFastcall := false; supportsDllStorage := false
|}.

Definition layout_llp64_fp64 : TargetLayout := {|
  charBits := 8; shortBits := 16; intBits := 32; longBits := 32; longLongBits := 64;
  floatBits := 32; doubleBits := 64; longDoubleBits := 64; pointerBits := 64;
  charAlign := 1; shortAlign := 2; intAlign := 4; longAlign := 4; longLongAlign := 8;
  floatAlign := 4; doubleAlign := 8; longDoubleAlign := 8; pointerAlign := 8; maxAlign := 8;
  bitfieldUnitBits := 32; bitfieldUnitAlign := 4;
  endianness := TL_ENDIAN_LITTLE; longDoubleKind := TL_LONG_DOUBLE_64;
  supportsStdcall := true; supportsFastcall := true; supportsDllStorage := true
|}.

Definition layout_lp64_fp64 : TargetLayout := {|
  charBits := 8; shortBits := 16; intBits := 32; longBits := 64; longLongBits := 64;
  floatBits := 32; doubleBits := 64; longDoubleBits := 64; pointerBits := 64;
  charAlign := 1; shortAlign := 2; intAlign := 4; longAlign := 8; longLongAlign := 8;
  floatAlign := 4; doubleAlign := 8; longDoubleAlign := 8; pointerAlign := 8; maxAlign := 16;
  bitfieldUnitBits := 32; bitfieldUnitAlign := 4;
  endianness := TL_ENDIAN_LITTLE; longDoubleKind := TL_LONG_DOUBLE_64;
  supportsStdcall := false; supportsFastcall := false; supportsDllStorage := false
|}.

Definition all_layouts : list TargetLayout :=
  [layout_lp64_fp80; layout_lp64_fp128; layout_llp64_fp64; layout_lp64_fp64].

(** The machine the compiler itself was compiled for: the branches of the [#if] chain. *)
Inductive Host : Set := HostWindows64 | HostAppleArm64 | HostArm64 | HostX86_64 | HostRiscv64 | HostOther.

Definition tl_default (host : Host) : TargetLayout :=
  match host with
  | HostWindows64 => layout_llp64_fp64
  | HostAppleArm64 => layout_lp64_fp64
  | HostArm64 => layout_lp64_fp128
  | HostX86_64 => layout_lp64_fp80
  | HostRiscv64 => layout_lp64_fp128
  | HostOther => layout_lp64_fp80
  end.

(** [strstr (s, needle) != NULL]. *)
Definition has_substring (s needle : string) : bool := bool_decide (is_Some (String.index 0 needle s)).

Definition tl_from_triple (host : Host) (triple : option string) : TargetLayout :=
  match triple with
  | None | Some EmptyString => tl_default host
  | Some t =>
      if has_substring t "win32" || has_substring t "windows" || has_substring t "mingw"
      then layout_llp64_fp64
      else if has_substring t "x86_64" || has_substring t "amd64" then layout_lp64_fp80
      else if has_substring t "aarch64" || has_substring t "arm64" then
        if has_substring t "apple" || has_substring t "darwin" then layout_lp64_fp64
        else layout_lp64_fp128
      else if has_substring t "riscv64" then layout_lp64_fp128
      else tl_default host
  end.

(** ** The LLVM data layout string *)

(** The written part of the buffer and the room that is left in it; a text that does not fit
    is cut, and its terminator then counts as written. *)
Definition append_field (text : string) (state : list ascii * nat) : list ascii * nat :=
  let '(buffer, remaining) := state in
  let text := list_ascii_of_string text in
  if decide (remaining = 0%nat) then state
  else if decide (length text = 0%nat) then state
  else if decide (remaining <= length text)%nat
       then (buffer ++ take (remaining - 1) text ++ [NUL], 0%nat)
       else (buffer ++ text, (remaining - length text)%nat).

(** [%zu]. *)
Definition size_text (n : Z) : string := string_of_list_ascii (decimal_digits 20 n).

(** A field, or the value for zero. *)
Definition or_default (n d : Z) : Z := if n =? 0 then d else n.
Definition align_bits (align d : Z) : Z := if align =? 0 then d else align * 8.

Definition datalayout_fields (tl : TargetLayout) : list string :=
  let pBits := or_default (pointerBits tl) 64 in
  let pAlign := align_bits (pointerAlign tl) pBits in
  [ (match endianness tl with TL_ENDIAN_BIG => "E" | TL_ENDIAN_LITTLE => "e" end)%string;
    "-p:" ++ size_text pBits ++ ":" ++ size_text pAlign ++ ":" ++ size_text pAlign;
    "-i8:" ++ size_text (align_bits (charAlign tl) 8);
    "-i16:" ++ size_text (align_bits (shortAlign tl) 16);
    "-i32:" ++ size_text (align_bits (intAlign tl) 32);
    "-i64:" ++ size_text (align_bits (longLongAlign tl) 64);
    "-f32:" ++ size_text (align_bits (floatAlign tl) 32);
    "-f64:" ++ size_text (align_bits (doubleAlign tl) 64) ]%string ++
  (if (longDoubleBits tl =? 0)%Z then []
   else ["-f" ++ size_text (longDoubleBits tl) ++ ":" ++
         size_text (align_bits (longDoubleAlign tl) (longDoubleBits tl))])%string ++
  (if (maxAlign tl =? 0)%Z then [] else ["-a:0:" ++ size_text (maxAlign tl * 8)%Z])%string ++
  ["-n8:16:32:64"]%string.

Definition tl_to_llvm_datalayout (tl : TargetLayout) : list ascii :=
  (foldl (fun st text => append_field text st) ([], 256%nat) (datalayout_fields tl)).1.

(** ** What the layouts have in common *)

Definition power_of_two (n : Z) : Prop := exists k, 0 <= k /\ n = 2 ^ k.

Definition layout_ok (tl : TargetLayout) : Prop :=
  charBits tl = 8 /\ charAlign tl = 1 /\ shortBits tl = 16 /\ shortAlign tl = 2 /\ intBits tl = 32 /\
  intAlign tl = 4 /\ longBits tl = 8 * longAlign tl /\ (longBits tl = 32 \/ longBits tl = 64) /\
  longLongBits tl = 64 /\ longLongAlign tl = 8 /\ pointerBits tl = 64 /\ pointerAlign tl = 8 /\
  bitfieldUnitBits tl = 32 /\ bitfieldUnitAlign tl = 4 /\ 64 <= longDoubleBits tl <= 128 /\
  (longDoubleAlign tl = 8 \/ longDoubleAlign tl = 16).

Lemma all_layouts_ok (tl : TargetLayout) : tl ∈ all_layouts -> layout_ok tl.
Proof. unfold all_layouts, layout_ok. set_unfold. intros H. destruct_or!; subst; cbn; lia. Qed.

Lemma tl_from_triple_known (host : Host) (triple : option string) : tl_from_triple host triple ∈ all_layouts.
Proof.
  assert (tl_default host ∈ all_layouts) as H by (destruct host; set_solver).
  unfold tl_from_triple. destruct triple as [[]|]; [done| |done].
  repeat case_match; first [done | set_solver].
Qed.

Lemma tl_from_triple_ok (host : Host) (triple : option string) : layout_ok (tl_from_triple host triple).
Proof. apply all_layouts_ok, tl_from_triple_known. Qed.

(** The string of no layout is cut. *)
Example datalayout_fits :
  Forall (fun tl => tl_to_llvm_datalayout tl = list_ascii_of_string (String.concat "" (datalayout_fields tl)))
    all_layouts.
Proof. repeat constructor. Qed.

Example datalayout_x86_64 :
  tl_to_llvm_datalayout (tl_from_triple HostOther (Some "x86_64-pc-linux-gnu"%string)) =
  list_ascii_of_string
    "e-p:64:64:64-i8:8-i16:16-i32:32-i64:64-f32:32-f64:64-f80:128-a:0:128-n8:16:32:64".
Proof. reflexivity. Qed.
