(* ===== verification/LiteralUtils.v ===== *)
(** * Values and types of literals (src/Syntax/literal_utils.c).

    Integer literals with their type, decoding of string literals, suffixes of floating
    literals.  [strtoull] is the C library's (C17: no prefix for base 2). *)
From S2P Require Import Prelude CType TargetLayout.

(** ** [strtoull] *)

Definition is_sign (c : ascii) : bool := (c =c "+"%char) || (c =c "-"%char).
Definition is_hex_mark (c : ascii) : bool := (c =c "x"%char) || (c =c "X"%char).
Definition is_bin_mark (c : ascii) : bool := (c =c "b"%char) || (c =c "B"%char).

(** In base 16, [0x] counts only in front of a digit. *)
Definition skip_hex_prefix (base : Z) (s : list ascii) : list ascii :=
  match s with
  | z :: x :: d :: _ =>
      if (base =? 16) && (z =c "0"%char) && is_hex_mark x && in_base 16 d then tail (tail s) else s
  | _ => s
  end.

(** [strtoull (s, &end, base)]: the value, the text at [end], whether [errno] is [ERANGE]. *)
Definition strtoull (s : list ascii) (base : Z) : Z * list ascii * bool :=
  let body := (span is_space s).2 in
  let neg := at_index body 0 =c "-"%char in
  let body := if is_sign (at_index body 0) then tail body else body in
  let '(ds, rest) := span (in_base base) (skip_hex_prefix base body) in
  match ds with
  | [] => (0, s, false)
  | _ :: _ =>
      let v := digits_value base ds in
      if v <? 2 ^ 64 then (if neg then u64 (- v) else v, rest, false)
      else (2 ^ 64 - 1, rest, true)
  end.

(** ** Integer literals *)

Record IntegerLiteralInfo := mkIntegerLiteralInfo {
  il_overflow : bool;
  il_bits : Z;
  il_isUnsigned : bool;
  il_value : Z
}.

Definition max_unsigned_for_bits (bits : Z) : Z := if (bits =? 0) || (64 <=? bits) then 2 ^ 64 - 1 else 2 ^ bits - 1.
Definition max_signed_for_bits (bits : Z) : Z := if (bits =? 0) || (64 <=? bits) then 2 ^ 63 - 1 else 2 ^ (bits - 1) - 1.

Definition fits_in_bits (value bits : Z) (isUnsigned : bool) : bool :=
  value <=? (if isUnsigned then max_unsigned_for_bits bits else max_signed_for_bits bits).

(** The suffix: whether it has a [u], and how many [l]s; [None] for another character. *)
Fixpoint literal_suffix (s : list ascii) (hasU : bool) (lCount : nat) : option (bool * nat) :=
  match s with
  | [] => Some (hasU, lCount)
  | c :: rest =>
      if (c =c "u"%char) || (c =c "U"%char) then if hasU then None else literal_suffix rest true lCount
      else if (c =c "l"%char) || (c =c "L"%char) then literal_suffix rest hasU (S lCount)
      else None
  end.

(** The types that are tried, as widths with [true] for unsigned. *)
Definition literal_candidates (tl : TargetLayout) (base : Z) (hasU : bool) (lCount : nat) : list (Z * bool) :=
  let int_ := or_default (intBits tl) 32 in
  let long_ := or_default (longBits tl) 64 in
  let longLong_ := or_default (longLongBits tl) 64 in
  if hasU then
    match lCount with
    | O => [(int_, true); (long_, true); (longLong_, true)]
    | S O => [(long_, true); (longLong_, true)]
    | _ => [(longLong_, true)]
    end
  else
    match lCount with
    | O => if base =? 10 then [(int_, false); (long_, false); (longLong_, false); (longLong_, true)]
           else [(int_, false); (int_, true); (long_, false); (long_, true); (longLong_, false); (longLong_, true)]
    | S O => [(long_, false); (longLong_, false); (longLong_, true)]
    | _ => [(longLong_, false); (longLong_, true)]
    end.

(** The first candidate in which the value fits, or the last one. *)
Fixpoint choose_candidate (raw : Z) (candidates : list (Z * bool)) : Z * bool :=
  match candidates with
  | [] => (0, false)
  | [c] => c
  | (bits, isUnsigned) :: rest =>
      if fits_in_bits raw bits isUnsigned then (bits, isUnsigned) else choose_candidate raw rest
  end.

(** The base and the text behind its prefix. *)
Definition literal_base (p : list ascii) : Z * list ascii :=
  if (at_index p 0 =c "0"%char) && is_hex_mark (at_index p 1) then (16, drop 2 p)
  else if (at_index p 0 =c "0"%char) && is_bin_mark (at_index p 1) then (2, drop 2 p)
  else if at_index p 0 =c "0"%char then (8, p) else (10, p).

(** The value as it is stored; a negative value is negated modulo its width. *)
Definition masked_value (raw bits : Z) (isUnsigned negative : bool) : Z :=
  if (0 <? bits) && (bits <? 64) then
    let masked := Z.land raw (2 ^ bits - 1) in
    if negb isUnsigned && negative then Z.land (u64 (- masked)) (2 ^ bits - 1) else masked
  else if negative then u64 (- i64 raw) else raw.

Definition parse_integer_literal_info (text : list ascii) (tl : TargetLayout) : option IntegerLiteralInfo :=
  match text with
  | [] => None
  | c :: rest =>
      let negative := c =c "-"%char in
      let p := if is_sign c then rest else text in
      let '(base, p) := literal_base p in
      let '(raw, endptr, overflow) := strtoull p base in
      if decide (length endptr = length p) then None
      else
        '(hasU, lCount) ← literal_suffix endptr false 0;
        let '(bits, isUnsigned) := choose_candidate raw (literal_candidates tl base hasU lCount) in
        Some (mkIntegerLiteralInfo (overflow || negb (fits_in_bits raw bits isUnsigned)) bits isUnsigned
                (masked_value raw bits isUnsigned negative))
  end.

(** ** Strings *)

Definition hexValue (c : ascii) : option Z := if in_base 16 c then Some (digit_value c) else None.

(** At most [maxDigits] hexadecimal digits: how many there are, and their value in 32 bits. *)
Fixpoint hex_sequence (raw : list ascii) (maxDigits : nat) (value : Z) : nat * Z :=
  match maxDigits, raw with
  | S maxDigits', c :: rest =>
      match hexValue c with
      | Some v => let '(count, value) := hex_sequence rest maxDigits' (u32 (Z.lor (u32 (Z.shiftl value 4)) v)) in
                  (S count, value)
      | None => (0%nat, value)
      end
  | _, _ => (0%nat, value)
  end.

(** The number of digits is no limit when [maxDigits] is [SIZE_MAX]. *)
Definition decodeHexSequence (raw : list ascii) (minDigits : nat) (maxDigits : option nat) : option (nat * Z) :=
  let '(count, value) := hex_sequence raw (default (length raw) maxDigits) 0 in
  if decide (count < minDigits)%nat then None else Some (count, value).

Fixpoint octal_sequence (raw : list ascii) (maxDigits : nat) (value : Z) : nat * Z :=
  match maxDigits, raw with
  | S maxDigits', c :: rest =>
      if in_base 8 c then
        let '(count, value) := octal_sequence rest maxDigits' (u32 (Z.shiftl value 3 + digit_value c)) in
        (S count, value)
      else (0%nat, value)
  | _, _ => (0%nat, value)
  end.

Definition string_escapes : list (ascii * Z) :=
  [("n"%char, 10); ("t"%char, 9); ("r"%char, 13); ("b"%char, 8); ("f"%char, 12); ("a"%char, 7); ("v"%char, 11);
   (BACKSLASH, 92); (QUOTE, 39); (DQUOTE, 34); ("?"%char, 63)].

(** The escape whose text behind the backslash is [raw]: the characters it takes, its value. *)
Definition decodeEscape (raw : list ascii) : option (nat * Z) :=
  match raw with
  | [] => None
  | esc :: rest =>
      match list_find (fun e => e.1 = esc) string_escapes with
      | Some (_, (_, v)) => Some (1%nat, v)
      | None =>
          if esc =c "x"%char then '(used, v) ← decodeHexSequence rest 1 None; Some (S used, v)
          else if esc =c "u"%char then '(used, v) ← decodeHexSequence rest 4 (Some 4%nat); Some (S used, v)
          else if esc =c "U"%char then '(used, v) ← decodeHexSequence rest 8 (Some 8%nat); Some (S used, v)
          else if in_base 8 esc then Some (octal_sequence raw 3 0)
          else Some (1%nat, chr esc)
      end
  end.

Record LiteralDecodeResult := mkLiteralDecodeResult { ld_ok : bool; ld_overflow : bool; ld_length : nat }.

Definition max_char_value (charBitWidth : Z) : Z :=
  if (charBitWidth <=? 0) || (63 <=? charBitWidth) then 2 ^ 64 - 1 else 2 ^ charBitWidth - 1.

Definition valid_code_point (value : Z) : bool :=
  negb ((0x10FFFF <? value) || ((0xD800 <=? value) && (value <=? 0xDFFF))).

(** The code points of a string, with the result so far; a malformed escape ends the walk. *)
Fixpoint decode_loop (fuel : nat) (raw : list ascii) (maxVal : Z) (res : LiteralDecodeResult) (out : list Z)
    : LiteralDecodeResult * list Z :=
  match fuel, raw with
  | S fuel', c :: rest =>
      let step consumed value :=
        decode_loop fuel' (drop consumed raw) maxVal
          (mkLiteralDecodeResult (ld_ok res && valid_code_point value) (ld_overflow res || (maxVal <? value))
             (S (ld_length res))) (out ++ [value]) in
      if c =c BACKSLASH then
        match decodeEscape rest with
        | None => (mkLiteralDecodeResult false (ld_overflow res) (ld_length res), out)
        | Some (consumed, value) => step (S consumed) value
        end
      else step 1%nat (chr c)
  | _, _ => (res, out)
  end.

(** The code points behind [*outCodepoints]. *)
Definition decode_c_string_literal_wide (raw : list ascii) (charBitWidth : Z) : LiteralDecodeResult * list Z :=
  decode_loop (length raw) raw (max_char_value charBitWidth) (mkLiteralDecodeResult true false 0) [].

(** The bytes behind [*outBytes], without the terminator; none for characters over 8 bits. *)
Definition decode_c_string_literal (raw : list ascii) (charBitWidth : Z) : LiteralDecodeResult * option (list Z) :=
  let '(res, out) := decode_c_string_literal_wide raw charBitWidth in
  (res, if charBitWidth <=? 8 then Some (map (fun v => Z.land v 255) out) else None).

(** ** Suffixes of floating literals *)

Record FloatingLiteralSuffix := mkFloatingLiteralSuffix {
  fs_coreLength : nat;
  fs_imaginary : bool;
  fs_precisionSuffix : ascii
}.

Definition is_imaginary_mark (c : ascii) : bool :=
  (c =c "i"%char) || (c =c "I"%char) || (c =c "j"%char) || (c =c "J"%char).
Definition is_precision_mark (c : ascii) : bool :=
  (c =c "f"%char) || (c =c "F"%char) || (c =c "l"%char) || (c =c "L"%char).

(** [rev_text] is what is left of the text, last character first. *)
Fixpoint floating_suffix_loop (rev_text : list ascii) (s : FloatingLiteralSuffix) : FloatingLiteralSuffix :=
  match rev_text with
  | [] => s
  | c :: rest =>
      if is_imaginary_mark c
      then floating_suffix_loop rest (mkFloatingLiteralSuffix (fs_coreLength s - 1) true (fs_precisionSuffix s))
      else if is_precision_mark c
           then floating_suffix_loop rest (mkFloatingLiteralSuffix (fs_coreLength s - 1) (fs_imaginary s) c)
           else s
  end.

Definition parse_floating_literal_suffix (text : list ascii) : FloatingLiteralSuffix :=
  floating_suffix_loop (rev text) (mkFloatingLiteralSuffix (length text) false NUL).
