(* ===== verification/LiteralTyping.v ===== *)
(** * Integer literals have the type the C standard gives them.

    The numbers of the lexer (LexerLiterals) are read by [parse_integer_literal_info]; the
    reference is the table of C11 6.4.4.1. *)
From S2P Require Import Prelude CType LexerLiterals TargetLayout LiteralUtils.
From S2P Require Lexer.

(** ** The table of the standard *)

Inductive CIntType : Set := CInt | CUInt | CLong | CULong | CLongLong | CULongLong.

Definition c_type_unsigned (t : CIntType) : bool :=
  match t with CUInt | CULong | CULongLong => true | _ => false end.

Definition c_type_bits (tl : TargetLayout) (t : CIntType) : Z :=
  match t with
  | CInt | CUInt => intBits tl
  | CLong | CULong => longBits tl
  | CLongLong | CULongLong => longLongBits tl
  end.

Definition c_type_holds (tl : TargetLayout) (v : Z) (t : CIntType) : Prop :=
  v < 2 ^ (if c_type_unsigned t then c_type_bits tl t else c_type_bits tl t - 1).

#[export] Instance c_type_holds_dec (tl : TargetLayout) (v : Z) (t : CIntType) : Decision (c_type_holds tl v t).
Proof. unfold c_type_holds. apply _. Defined.

(** The types an integer constant is tried with, by its base and its suffix. *)
Definition c_literal_types (decimal hasU : bool) (lCount : nat) : list CIntType :=
  match lCount, hasU with
  | O, false => if decimal then [CInt; CLong; CLongLong] else [CInt; CUInt; CLong; CULong; CLongLong; CULongLong]
  | O, true => [CUInt; CULong; CULongLong]
  | S O, false => if decimal then [CLong; CLongLong] else [CLong; CULong; CLongLong; CULongLong]
  | S O, true => [CULong; CULongLong]
  | _, false => if decimal then [CLongLong] else [CLongLong; CULongLong]
  | _, true => [CULongLong]
  end.

(** ** The value of a numeral *)

Definition numeral_base (n : Numeral) : Z :=
  match nm_radix n with
  | Hexadecimal _ => 16
  | Binary _ => 2
  | Decimal => if at_index (nm_digits n) 0 =c "0"%char then 8 else 10
  end.

Definition numeral_value (n : Numeral) : Z := digits_value (numeral_base n) (nm_digits n).

Definition numeral_literal (tl : TargetLayout) (n : Numeral) : IntegerLiteralInfo :=
  let v := numeral_value n in
  match list_find (c_type_holds tl v)
          (c_literal_types (numeral_base n =? 10) (existsb is_u (nm_suffix n)) (count_of is_l (nm_suffix n))) with
  | Some (_, t) => mkIntegerLiteralInfo false (c_type_bits tl t) (c_type_unsigned t) v
  | None => mkIntegerLiteralInfo (2 ^ 64 <=? v) 64 true (Z.min v (2 ^ 64 - 1))
  end.

(** ** The suffix *)

Lemma suffix_letters (s : list ascii) :
  suffix_ok 1 2 s = true -> existsb is_fij s = false -> forall (b : bool) (l : nat),
  (if b then count_of is_u s = 0 else count_of is_u s <= 1)%nat ->
  literal_suffix s b l = Some (b || existsb is_u s, l + count_of is_l s)%nat.
Proof.
  unfold suffix_ok. intros [[Hall _]%andb_true_iff _]%andb_true_iff. induction s as [|c s IH]; intros Hf b l Hu.
  - simpl. by rewrite orb_false_r, Nat.add_0_r.
  - cbn [forallb existsb] in *. apply andb_true_iff in Hall as [Hc Hall]. apply orb_false_iff in Hf as [Hcf Hf].
    rewrite Hcf, orb_false_r in Hc. unfold count_of in *. cbn [List.filter literal_suffix] in *.
    fold (is_u c). fold (is_l c). destruct (is_u c) eqn:Eu.
    + assert (is_l c = false) as El by (clear -Eu; destruct c as [[] [] [] [] [] [] [] []]; done).
      destruct b; [simpl in Hu; lia|]. rewrite IH; [by rewrite El, orb_true_r|done|done|simpl in Hu; lia].
    + simpl in Hc. rewrite Hc. rewrite IH; [simpl; by rewrite Nat.add_succ_r|done|done|done].
Qed.

(** ** The digits *)

(** What stands behind the digits: nothing, or a letter of the suffix. *)
Definition ends_literal (s : list ascii) : bool := match s with [] => true | c :: _ => is_u c || is_l c end.

Lemma ends_not_digit (base : Z) (c : ascii) :
  base <= 16 -> (is_u c || is_l c) = true -> in_base base c = false /\ is_hex_mark c = false.
Proof.
  intros Hb Hc. assert (16 <= digit_value c /\ is_hex_mark c = false) as [? ?]; [|split; [unfold in_base; lia|done]].
  clear -Hc. destruct c as [[] [] [] [] [] [] [] []]; try done; vm_compute; by split.
Qed.

Lemma digit_plain (base : Z) (c : ascii) :
  base <= 16 -> in_base base c = true -> is_space c = false /\ is_sign c = false /\ is_hex_mark c = false.
Proof.
  unfold in_base. intros Hb Hc. assert (digit_value c < 16) as H by lia. clear -H.
  destruct c as [[] [] [] [] [] [] [] []]; first [by split_and! | vm_compute in H; discriminate H].
Qed.

Lemma span_digits (base : Z) (ds rest : list ascii) :
  base <= 16 -> forallb (in_base base) ds = true -> ends_literal rest = true ->
  span (in_base base) (ds ++ rest) = (ds, rest).
Proof.
  intros Hb Hds Hr. apply span_stop.
  - apply Forall_forall. intros c Hc. rewrite forallb_forall in Hds. apply Hds. by apply list_elem_of_In.
  - intros c Hc. destruct rest as [|c' rest]; [done|]. injection Hc as ->. by apply ends_not_digit.
Qed.

Lemma strtoull_digits (base : Z) (ds rest : list ascii) :
  base <= 16 -> ds <> [] -> forallb (in_base base) ds = true -> ends_literal rest = true ->
  strtoull (ds ++ rest) base =
    (Z.min (digits_value base ds) (2 ^ 64 - 1), rest, 2 ^ 64 <=? digits_value base ds).
Proof.
  intros Hb Hne Hds Hr. destruct ds as [|d ds]; [done|].
  pose proof Hds as [Hd Hds']%andb_true_iff. destruct (digit_plain base d Hb Hd) as (Hsp & Hsi & _).
  assert (skip_hex_prefix base (d :: ds ++ rest) = d :: ds ++ rest) as Hskip.
  { unfold skip_hex_prefix. destruct (ds ++ rest) as [|x [|y more]] eqn:E; [done|done|].
    assert (is_hex_mark x = false) as ->; [|by rewrite andb_false_r].
    destruct ds as [|x' ds]; simpl in E.
    - subst rest. by apply (ends_not_digit base).
    - injection E as -> E. apply andb_true_iff in Hds' as [Hx _]. by apply (digit_plain base). }
  unfold strtoull. cbn [app span]. rewrite Hsp. cbn [snd at_index nth]. rewrite Hsi, Hskip.
  change (d :: ds ++ rest) with ((d :: ds) ++ rest). rewrite (span_digits base _ _ Hb Hds Hr).
  assert ((d =c "-"%char) = false) as -> by (unfold is_sign in Hsi; by apply orb_false_iff in Hsi as [_ ->]).
  destruct (Z.ltb_spec (digits_value base (d :: ds)) (2 ^ 64)) as [Hlt|Hge].
  - rewrite Z.min_l by lia. by destruct (Z.leb_spec (2 ^ 64) (digits_value base (d :: ds))); [lia|].
  - rewrite Z.min_r by lia. by destruct (Z.leb_spec (2 ^ 64) (digits_value base (d :: ds))); [|lia].
Qed.

(** A numeral without fraction, exponent and floating suffix. *)
Lemma integer_numeral (n : Numeral) :
  numeral_ok n = true -> numeral_is_float n = false ->
  numeral_text n = radix_text (nm_radix n) ++ nm_digits n ++ nm_suffix n /\ nm_digits n <> [] /\
  forallb (in_base (numeral_base n)) (nm_digits n) = true /\ ends_literal (nm_suffix n) = true /\
  suffix_ok 1 2 (nm_suffix n) = true /\ existsb is_fij (nm_suffix n) = false.
Proof.
  intros Hok Hfl. destruct (numeral_ok_parts n Hok) as (Hrad & Hds & _ & _ & Hsuf).
  unfold numeral_text, numeral_base, radix_ok in *. rewrite Hfl in Hrad.
  unfold numeral_is_float in Hfl. apply orb_false_iff in Hfl as [[Hfr Hex]%orb_false_iff Hfij].
  destruct (nm_fraction n); [done|]. destruct (nm_exponent n); [done|]. cbn [fraction_text exponent_text app default] in *.
  assert (ends_literal (nm_suffix n) = true) as Hends.
  { unfold suffix_ok in Hsuf. destruct (nm_suffix n) as [|c s]; [done|]. cbn [forallb existsb ends_literal] in *.
    apply orb_false_iff in Hfij as [Hf _]. rewrite Hf, orb_false_r in Hsuf. by repeat apply andb_true_iff in Hsuf as [Hsuf _]. }
  assert (forall b, Z.le b 16 -> (forall c, radix_digit (nm_radix n) c = true -> in_base b c = true) ->
          forallb (in_base b) (nm_digits n) = true) as Hbase.
  { intros b _ Himp. apply forallb_forall. intros c Hc. rewrite forallb_forall in Hds. by apply Himp, Hds. }
  destruct (nm_radix n) as [|m|m]; cbn [radix_text app radix_digit is_hex_radix] in *.
  - apply andb_true_iff in Hrad as [Hne H89]. split_and!; [done| | |done..].
    + intros E. by rewrite E in Hne.
    + destruct (_ =c "0"%char); simpl in H89.
      * apply forallb_forall. intros c Hc. rewrite forallb_forall in Hds. specialize (Hds c Hc).
        assert (Lexer.is_89 c = false) as H.
        { apply negb_true_iff in H89. apply not_true_iff_false. intros H. rewrite <- not_true_iff_false in H89.
          apply H89, existsb_exists. by exists c. }
        clear -Hds H. destruct c as [[] [] [] [] [] [] [] []]; done.
      * apply Hbase; [done|]. intros c. clear. by destruct c as [[] [] [] [] [] [] [] []].
  - rewrite !andb_true_iff in Hrad. destruct Hrad as [[[_ Hne] _] _]. split_and!; [done| | |done..].
    + intros E. by rewrite E in Hne.
    + apply Hbase; [done|]. intros c. clear. by destruct c as [[] [] [] [] [] [] [] []].
  - rewrite !andb_true_iff in Hrad. destruct Hrad as [[_ Hne] _]. split_and!; [done| | |done..].
    + intros E. by rewrite E in Hne.
    + apply Hbase; [done|]. intros c. clear. by destruct c as [[] [] [] [] [] [] [] []].
Qed.

Lemma literal_base_numeral (n : Numeral) :
  numeral_ok n = true -> numeral_is_float n = false ->
  is_sign (at_index (numeral_text n) 0) = false /\
  literal_base (numeral_text n) = (numeral_base n, nm_digits n ++ nm_suffix n).
Proof.
  intros Hok Hfl. destruct (integer_numeral n Hok Hfl) as (-> & Hne & Hds & Hends & _).
  destruct (numeral_ok_parts n Hok) as [Hrad _]. unfold radix_ok, numeral_base, literal_base in *.
  destruct (nm_radix n) as [|m|m]; cbn [radix_text app at_index nth drop] in *.
  - destruct (nm_digits n) as [|d ds]; [done|]. cbn [app at_index nth] in *. apply andb_true_iff in Hds as [Hd Hds].
    assert (in_base 10 d = true) as Hd10 by (destruct (d =c _); unfold in_base in *; lia).
    destruct (digit_plain 10 d ltac:(lia) Hd10) as (_ & Hsi & _).
    split; [done|]. destruct (d =c "0"%char); [|done].
    assert (is_hex_mark (nth 0 (ds ++ nm_suffix n) NUL) = false /\ is_bin_mark (nth 0 (ds ++ nm_suffix n) NUL) = false)
      as [-> ->]; [|done].
    destruct ds as [|d' ds]; cbn [app nth forallb] in *.
    + destruct (nm_suffix n) as [|c s]; [done|]. cbn [nth ends_literal] in *. clear -Hends.
      by destruct c as [[] [] [] [] [] [] [] []].
    + apply andb_true_iff in Hds as [Hd' _]. clear -Hd'. by destruct d' as [[] [] [] [] [] [] [] []].
  - split; [done|]. rewrite !andb_true_iff in Hrad. destruct Hrad as [[[Hm _] _] _].
    by change (is_hex_mark m) with (Lexer.is_x m); rewrite Hm.
  - split; [done|]. rewrite !andb_true_iff in Hrad. destruct Hrad as [[Hm _] _].
    assert (is_hex_mark m = false) as -> by (clear -Hm; by destruct m as [[] [] [] [] [] [] [] []]).
    by change (is_bin_mark m) with (Lexer.is_b m); rewrite Hm.
Qed.

Lemma digit_value_nonneg (c : ascii) : 0 <= digit_value c.
Proof. destruct c as [[] [] [] [] [] [] [] []]; vm_compute; discriminate. Qed.

(** Whether the value of a literal fits, by its mathematical value. *)
Lemma fits_value (v bits : Z) (isUnsigned : bool) :
  0 <= v -> bits = 32 \/ bits = 64 ->
  fits_in_bits (Z.min v (2 ^ 64 - 1)) bits isUnsigned =
    (v <? 2 ^ (if isUnsigned then bits else bits - 1)) || (isUnsigned && (bits =? 64)).
Proof.
  intros Hv Hb. unfold fits_in_bits, max_unsigned_for_bits, max_signed_for_bits.
  destruct Hb as [-> | ->], isUnsigned; cbn -[Z.pow]; lia.
Qed.

Lemma masked_small (v bits : Z) (isUnsigned : bool) :
  0 <= v -> bits = 64 \/ (0 < bits < 64 /\ v < 2 ^ bits) -> masked_value v bits isUnsigned false = v.
Proof.
  intros Hv [-> |[Hb Hlt]]; [done|]. unfold masked_value.
  rewrite andb_false_r. destruct (_ && _); [|done].
  replace (2 ^ bits - 1) with (Z.ones bits) by (rewrite Z.ones_equiv; lia). rewrite Z.land_ones by lia.
  apply Z.mod_small. lia.
Qed.

(** The first candidate in which the value fits is the first type of the table that holds it. *)
Lemma candidates_of_table (tl : TargetLayout) (v base : Z) (hasU : bool) (lCount : nat) :
  layout_ok tl -> longBits tl = 64 -> 0 <= v -> (lCount <= 2)%nat ->
  let raw := Z.min v (2 ^ 64 - 1) in
  let '(bits, isUnsigned) := choose_candidate raw (literal_candidates tl base hasU lCount) in
  mkIntegerLiteralInfo ((2 ^ 64 <=? v) || negb (fits_in_bits raw bits isUnsigned)) bits isUnsigned
    (masked_value raw bits isUnsigned false) =
  match list_find (c_type_holds tl v) (c_literal_types (base =? 10) hasU lCount) with
  | Some (_, t) => mkIntegerLiteralInfo false (c_type_bits tl t) (c_type_unsigned t) v
  | None => mkIntegerLiteralInfo (2 ^ 64 <=? v) 64 true raw
  end.
Proof.
  intros (_ & _ & _ & _ & Hi & _ & _ & _ & Hll & _) Hl Hv Hc raw.
  unfold literal_candidates, or_default. rewrite Hi, Hl, Hll. cbn [Z.eqb].
  assert (forall t, c_type_holds tl v t <->
    v < match t with CInt => 2 ^ 31 | CUInt => 2 ^ 32 | CLong | CLongLong => 2 ^ 63 | _ => 2 ^ 64 end) as Hholds
    by (intros []; unfold c_type_holds; cbn [c_type_unsigned c_type_bits]; by rewrite ?Hi, ?Hl, ?Hll).
  assert (v < 2 ^ 31 \/ 2 ^ 31 <= v < 2 ^ 32 \/ 2 ^ 32 <= v < 2 ^ 63 \/ 2 ^ 63 <= v < 2 ^ 64 \/ 2 ^ 64 <= v)
    as Hcases by lia.
  assert (lCount = 0 \/ lCount = 1 \/ lCount = 2)%nat as Hcount by lia.
  destruct_or! Hcount; subst lCount; destruct hasU, (base =? 10);
    cbn [choose_candidate c_literal_types list_find]; subst raw; rewrite !fits_value by auto; cbn [Z.sub Z.eqb andb];
    destruct_or! Hcases;
    repeat first
      [ rewrite (decide_True (P := c_type_holds _ _ _)) by (apply Hholds; lia)
      | rewrite (decide_False (P := c_type_holds _ _ _)) by (rewrite Hholds; lia)
      | rewrite (proj2 (Z.ltb_lt _ _)) by lia | rewrite (proj2 (Z.ltb_ge _ _)) by lia
      | progress cbn [orb fmap option_fmap option_map c_type_bits c_type_unsigned list_find] ].
  all: cbn [id snd c_type_bits c_type_unsigned]; f_equal; repeat rewrite fits_value by auto;
    rewrite ?Hi, ?Hl, ?Hll, ?masked_small by lia; cbn [orb andb Z.eqb Pos.eqb]; try lia; cbn; lia.
Qed.

(** ** The result *)

(** C37: the type of an integer constant.  Every integer constant the lexer accepts is read
    with its exact value and the first type of the list the C standard gives for its base and
    suffix in which the value fits; a constant no type of the list holds is given
    [unsigned long long], with the overflow flag exactly when its value is 2^64 or more.  On
    targets whose [long] has 64 bits. *)
Theorem integer_constant_typed (tl : TargetLayout) (n : Numeral) :
  layout_ok tl -> longBits tl = 64 -> numeral_ok n = true -> numeral_is_float n = false ->
  parse_integer_literal_info (numeral_text n) tl = Some (numeral_literal tl n).
Proof.
  intros Htl Hl Hok Hfl. destruct (integer_numeral n Hok Hfl) as (Htext & Hne & Hds & Hends & Hsuf & Hfij).
  destruct (literal_base_numeral n Hok Hfl) as [Hsign Hbase].
  assert (numeral_base n <= 16) as Hb by (unfold numeral_base; repeat case_match; lia).
  unfold parse_integer_literal_info. destruct (numeral_text n) as [|c rest] eqn:E.
  - exfalso. symmetry in Htext. apply app_eq_nil in Htext as [_ [H _]%app_eq_nil]. done.
  - cbn [at_index nth] in Hsign. rewrite Hsign, Hbase, (strtoull_digits _ _ _ Hb Hne Hds Hends).
    rewrite decide_False.
    2: { rewrite length_app. destruct (nm_digits n); [done|simpl; lia]. }
    assert ((c =c "-"%char) = false) as -> by (by apply orb_false_iff in Hsign as [_ ?]).
    pose proof Hsuf as [[_ Hu]%andb_true_iff Hcl]%andb_true_iff. apply bool_decide_eq_true in Hu, Hcl.
    rewrite (suffix_letters _ Hsuf Hfij false 0 Hu). cbn [mbind option_bind orb Nat.add].
    assert (0 <= numeral_value n) as Hv.
    { apply digits_from_ge; [unfold numeral_base; repeat case_match; lia|lia|].
      apply Forall_forall. intros d _. apply digit_value_nonneg. }
    pose proof (candidates_of_table tl (numeral_value n) (numeral_base n) (existsb is_u (nm_suffix n))
      (count_of is_l (nm_suffix n)) Htl Hl Hv Hcl) as Hchoose.
    fold (numeral_value n). revert Hchoose. cbv zeta. destruct (choose_candidate _ _) as [bits isUnsigned].
    intros ->. unfold numeral_literal.
    by destruct (list_find _ _) as [[]|].
Qed.

Definition sample_hex : Numeral := mkNumeral (Hexadecimal "x"%char) (list_ascii_of_string "FFFFffff") None None ["L"%char].

Lemma integer_constant_typed_witness :
  layout_ok layout_lp64_fp80 /\ numeral_text sample_hex = list_ascii_of_string "0xFFFFffffL" /\
  parse_integer_literal_info (numeral_text sample_hex) layout_lp64_fp80 =
    Some (mkIntegerLiteralInfo false 64 false 4294967295).
Proof.
  split_and!; [apply all_layouts_ok; set_solver|reflexivity|].
  rewrite (integer_constant_typed layout_lp64_fp80 sample_hex); [reflexivity|apply all_layouts_ok; set_solver|done..].
Defined.

(** With a 32-bit [long], [unsigned long] is missing among the candidates of a suffix [l], so
    0xFFFFFFFFL is a 64-bit [long long]; in C it is an [unsigned long]. *)
Example unsigned_long_is_skipped :
  parse_integer_literal_info (numeral_text sample_hex) layout_llp64_fp64 =
    Some (mkIntegerLiteralInfo false 64 false 4294967295) /\
  numeral_literal layout_llp64_fp64 sample_hex = mkIntegerLiteralInfo false 32 true 4294967295.
Proof. split; reflexivity. Qed.
