(* ===== verification/AST.v ===== *)
(** * Types as parsed, and the syntax tree (src/Parser/Helpers/parsed_type.h, src/AST/ast_node.h,
    ast_attribute.h).

    Children of a node are part of it; the pointers a type keeps to nodes (array sizes, inline
    definitions) are [NodeId]s, so that two types may share a definition and be compared by it.
    NULL is [None].  Node kinds that the parser never builds (heap allocation, basic types, field
    access by name, function pointer declarations) are left out, and so is [arraySize] of a
    declaration, which no code sets, and [usesPrototype] of a call. *)
From S2P Require Import Prelude Tokens.

#[export] Set Warnings "-register-all".

(** ** Attributes *)

Inductive ASTAttributeSyntax : Set :=
  | AST_ATTRIBUTE_SYNTAX_GNU | AST_ATTRIBUTE_SYNTAX_CXX | AST_ATTRIBUTE_SYNTAX_DECLSPEC.

Record ASTAttribute := mkAttribute { attr_syntax : ASTAttributeSyntax; attr_payload : option string }.

(** ** Types *)

(** The address of a node. *)
Definition NodeId : Set := nat.

Inductive TypeKind : Set := TYPE_INVALID | TYPE_PRIMITIVE | TYPE_STRUCT | TYPE_UNION | TYPE_ENUM | TYPE_NAMED.
Inductive TagKind : Set := TAG_NONE | TAG_STRUCT | TAG_UNION | TAG_ENUM.

#[export] Instance TypeKind_eq_dec : EqDecision TypeKind.
Proof. solve_decision. Defined.
#[export] Instance TagKind_eq_dec : EqDecision TagKind.
Proof. solve_decision. Defined.

Record PointerQualifier := mkQualifier { isConst : bool; isVolatile : bool; isRestrict : bool }.

#[export] Instance PointerQualifier_eq_dec : EqDecision PointerQualifier.
Proof. solve_decision. Defined.

Definition no_qualifier : PointerQualifier := mkQualifier false false false.

Record ParsedArrayInfo := mkArrayInfo {
  sizeExpr : option NodeId;
  isVLA : bool;
  hasConstantSize : bool;
  constantSize : Z;
  isFlexible : bool;
  hasStatic : bool;
  arrayQualifiers : PointerQualifier
}.

Record ParsedFunctionSignature (P : Type) := mkFunctionSignature {
  hasPrototype : bool;
  isVariadic : bool;
  params : list P
}.
Arguments mkFunctionSignature {P}. Arguments hasPrototype {P}. Arguments isVariadic {P}. Arguments params {P}.

Inductive TypeDerivation (P : Type) : Type :=
  | TYPE_DERIVATION_POINTER (q : PointerQualifier)
  | TYPE_DERIVATION_ARRAY (array : ParsedArrayInfo)
  | TYPE_DERIVATION_FUNCTION (function : ParsedFunctionSignature P).
Arguments TYPE_DERIVATION_POINTER {P}. Arguments TYPE_DERIVATION_ARRAY {P}. Arguments TYPE_DERIVATION_FUNCTION {P}.

(** The modifiers that tell types apart, and the storage specifiers. *)
Record TypeModifiers := mkModifiers {
  isSigned : bool; isUnsigned : bool; isShort : bool; isLong : bool; isComplex : bool; isImaginary : bool
}.

#[export] Instance TypeModifiers_eq_dec : EqDecision TypeModifiers.
Proof. solve_decision. Defined.

Definition no_modifiers : TypeModifiers := mkModifiers false false false false false false.

Record StorageSpecifiers := mkStorage {
  isInline : bool; isStatic : bool; isExtern : bool; isRegister : bool; isAuto : bool; isThreadLocal : bool
}.

Definition no_storage : StorageSpecifiers := mkStorage false false false false false false.

Inductive ParsedType : Type := mkParsedType {
  pt_kind : TypeKind;
  pt_tag : TagKind;
  pt_inlineStructOrUnionDef : option NodeId;
  pt_inlineEnumDef : option NodeId;
  pt_isFunctionPointer : bool;
  pt_fpParams : list ParsedType;
  pt_primitiveType : TokenType;
  pt_userTypeName : option string;
  pt_modifiers : TypeModifiers;
  pt_qualifiers : PointerQualifier;
  pt_storage : StorageSpecifiers;
  pt_pointerDepth : Z;
  pt_isVLA : bool;
  pt_directlyDeclaresFunction : bool;
  pt_isVariadicFunction : bool;
  pt_derivations : list (TypeDerivation ParsedType);
  pt_attributes : list ASTAttribute;
  pt_alignOverride : Z;
  pt_hasAlignOverride : bool;
  pt_paramArrayInfo : option ParsedArrayInfo
}.

(** The zeroed type: the codes of [TYPE_INVALID] and [TOKEN_INT] are 0. *)
Definition invalid_parsed_type : ParsedType :=
  mkParsedType TYPE_INVALID TAG_NONE None None false [] TOKEN_INT None no_modifiers no_qualifier no_storage 0 false
    false false [] [] 0 false None.

(** ** Nodes *)

Record DesignatedInit (N : Type) := mkDesignatedInit {
  di_fieldName : option string;
  di_indexExpr : option N;
  di_expression : option N;
  di_resetSubobjectBeforeStore : bool
}.
Arguments mkDesignatedInit {N}. Arguments di_fieldName {N}. Arguments di_indexExpr {N}. Arguments di_expression {N}.
Arguments di_resetSubobjectBeforeStore {N}.

(** A declaration: one type and initializer per declared name ([varCount] of them). *)
Record VarDecl (N : Type) := mkVarDecl {
  vd_declaredType : ParsedType;
  vd_declaredTypes : option (list ParsedType);
  vd_varNames : list (option N);
  vd_initializers : list (option (DesignatedInit N));
  vd_bitFieldWidth : option NodeId
}.
Arguments mkVarDecl {N}. Arguments vd_declaredType {N}. Arguments vd_declaredTypes {N}. Arguments vd_varNames {N}.
Arguments vd_initializers {N}. Arguments vd_bitFieldWidth {N}.

Inductive ASTBody (N : Type) : Type :=
  | AST_PROGRAM (statements : list (option N))
  | AST_BLOCK (statements : list (option N))
  | AST_STATEMENT_EXPRESSION (block : option N)
  | AST_INCLUDE_DIRECTIVE (filePath : option string) (isSystem : bool)
  | AST_DEFINE_DIRECTIVE (macroName macroValue : option string)
  | AST_CONDITIONAL_DIRECTIVE (symbol : option string) (isNegated : bool)
  | AST_ENDIF_DIRECTIVE
  | AST_TYPEDEF (baseType : ParsedType) (alias : option N)
  | AST_VARIABLE_DECLARATION (d : VarDecl N)
  | AST_UNION_DEFINITION (name : option N) (fields : list (option N)) (hasFlexibleArray : bool)
  | AST_STRUCT_DEFINITION (name : option N) (fields : list (option N)) (hasFlexibleArray : bool)
  | AST_ENUM_DEFINITION (name : option N) (members : list (option N)) (values : list (option NodeId))
  | AST_ARRAY_ACCESS (array index : option N)
  | AST_POINTER_ACCESS (base : option N) (field : option string)
  | AST_DOT_ACCESS (base : option N) (field : option string)
  | AST_POINTER_DEREFERENCE (pointer : option N)
  | AST_TERNARY_EXPRESSION (condition trueExpr falseExpr : option N)
  | AST_BINARY_EXPRESSION (op : option string) (left right : option N)
  | AST_UNARY_EXPRESSION (op : option string) (left : option N) (isPostfix : bool)
  | AST_COMMA_EXPRESSION (expressions : list (option N))
  | AST_CAST_EXPRESSION (castType : ParsedType) (expression : option N)
  | AST_PARSED_TYPE (parsed : ParsedType)
  | AST_NUMBER_LITERAL (value : option string)
  | AST_CHAR_LITERAL (value : option string)
  | AST_STRING_LITERAL (value : option string)
  | AST_IDENTIFIER (value : option string)
  | AST_SIZEOF (target : option N)
  | AST_ALIGNOF (target : option N)
  | AST_COMPOUND_LITERAL (literalType : ParsedType) (entries : list (option (DesignatedInit N))) (hadParserRecovery : bool)
  | AST_ASSIGNMENT (target : option N) (op : option string) (value : option N)
  | AST_IF_STATEMENT (condition thenBranch elseBranch : option N)
  | AST_SEQUENCE (left right : option N)
  | AST_WHILE_LOOP (condition body : option N) (isDoWhile : bool)
  | AST_FOR_LOOP (initializer condition increment body : option N)
  | AST_RETURN (returnValue : option N)
  | AST_BREAK
  | AST_CONTINUE
  | AST_GOTO_STATEMENT (label : option string)
  | AST_LABEL_DECLARATION (labelName : option string) (statement : option N)
  | AST_FUNCTION_DECLARATION (returnType : ParsedType) (funcName : option N) (parameters : list (option N)) (variadic prototype : bool)
  | AST_FUNCTION_DEFINITION (returnType : ParsedType) (funcName : option N) (parameters : list (option N)) (body : option N)
      (variadic prototype : bool)
  | AST_FUNCTION_CALL (callee : option N) (arguments : list (option N))
  | AST_SWITCH (condition : option N) (caseList : list (option N))
  | AST_CASE (caseValue : option N) (caseBody : list (option N)) (nextCase : option N)
  | AST_STATIC_ASSERT (condition message : option N)
  | AST_ASM (asmText : option string).

Arguments AST_PROGRAM {N}.
Arguments AST_BLOCK {N}.
Arguments AST_STATEMENT_EXPRESSION {N}.
Arguments AST_INCLUDE_DIRECTIVE {N}.
Arguments AST_DEFINE_DIRECTIVE {N}.
Arguments AST_CONDITIONAL_DIRECTIVE {N}.
Arguments AST_ENDIF_DIRECTIVE {N}.
Arguments AST_TYPEDEF {N}.
Arguments AST_VARIABLE_DECLARATION {N}.
Arguments AST_UNION_DEFINITION {N}.
Arguments AST_STRUCT_DEFINITION {N}.
Arguments AST_ENUM_DEFINITION {N}.
Arguments AST_ARRAY_ACCESS {N}.
Arguments AST_POINTER_ACCESS {N}.
Arguments AST_DOT_ACCESS {N}.
Arguments AST_POINTER_DEREFERENCE {N}.
Arguments AST_TERNARY_EXPRESSION {N}.
Arguments AST_BINARY_EXPRESSION {N}.
Arguments AST_UNARY_EXPRESSION {N}.
Arguments AST_COMMA_EXPRESSION {N}.
Arguments AST_CAST_EXPRESSION {N}.
Arguments AST_PARSED_TYPE {N}.
Arguments AST_NUMBER_LITERAL {N}.
Arguments AST_CHAR_LITERAL {N}.
Arguments AST_STRING_LITERAL {N}.
Arguments AST_IDENTIFIER {N}.
Arguments AST_SIZEOF {N}.
Arguments AST_ALIGNOF {N}.
Arguments AST_COMPOUND_LITERAL {N}.
Arguments AST_ASSIGNMENT {N}.
Arguments AST_IF_STATEMENT {N}.
Arguments AST_SEQUENCE {N}.
Arguments AST_WHILE_LOOP {N}.
Arguments AST_FOR_LOOP {N}.
Arguments AST_RETURN {N}.
Arguments AST_BREAK {N}.
Arguments AST_CONTINUE {N}.
Arguments AST_GOTO_STATEMENT {N}.
Arguments AST_LABEL_DECLARATION {N}.
Arguments AST_FUNCTION_DECLARATION {N}.
Arguments AST_FUNCTION_DEFINITION {N}.
Arguments AST_FUNCTION_CALL {N}.
Arguments AST_SWITCH {N}.
Arguments AST_CASE {N}.
Arguments AST_STATIC_ASSERT {N}.
Arguments AST_ASM {N}.

(** A node with its address, its line, its source ranges and its attributes. *)
Inductive ASTNode : Type := mkASTNode {
  an_id : NodeId;
  an_line : Z;
  an_location : SourceRange;
  an_macroCallSite : SourceRange;
  an_macroDefinition : SourceRange;
  an_attributes : list ASTAttribute;
  an_body : ASTBody ASTNode
}.

Definition plain_node (line : Z) (body : ASTBody ASTNode) : ASTNode :=
  mkASTNode 0%nat line empty_source_range empty_source_range empty_source_range [] body.

(** [node->valueNode.value] of an identifier or a literal. *)
Definition node_value (n : ASTNode) : option string :=
  match an_body n with
  | AST_NUMBER_LITERAL v | AST_CHAR_LITERAL v | AST_STRING_LITERAL v | AST_IDENTIFIER v => v
  | _ => None
  end.

(** ** Literals *)

Inductive LiteralEncoding : Set := LIT_ENC_NARROW | LIT_ENC_WIDE | LIT_ENC_UTF8.

#[export] Instance LiteralEncoding_eq_dec : EqDecision LiteralEncoding.
Proof. solve_decision. Defined.

(** The encoding of a literal's value and the text behind its mark. *)
Definition ast_literal_encoding (value : option (list ascii)) : LiteralEncoding * option (list ascii) :=
  match value with
  | Some ("N"%char :: "|"%char :: payload) => (LIT_ENC_NARROW, Some payload)
  | Some ("W"%char :: "|"%char :: payload) => (LIT_ENC_WIDE, Some payload)
  | Some ("U"%char :: "8"%char :: "|"%char :: payload) => (LIT_ENC_UTF8, Some payload)
  | _ => (LIT_ENC_NARROW, value)
  end.

(** ** Induction over the tree *)

(** The expressions and statements directly below a node; names, declared types and designated
    initializers are no part of it. *)
Definition node_children (n : ASTNode) : list ASTNode :=
  match an_body n with
  | AST_PROGRAM l | AST_BLOCK l | AST_COMMA_EXPRESSION l => omap id l
  | AST_STATEMENT_EXPRESSION a | AST_POINTER_ACCESS a _ | AST_DOT_ACCESS a _ | AST_POINTER_DEREFERENCE a
  | AST_UNARY_EXPRESSION _ a _ | AST_CAST_EXPRESSION _ a | AST_SIZEOF a | AST_ALIGNOF a | AST_RETURN a
  | AST_LABEL_DECLARATION _ a | AST_FUNCTION_DEFINITION _ _ _ a _ _ => omap id [a]
  | AST_ARRAY_ACCESS a b | AST_BINARY_EXPRESSION _ a b | AST_ASSIGNMENT a _ b | AST_SEQUENCE a b
  | AST_WHILE_LOOP a b _ | AST_STATIC_ASSERT a b => omap id [a; b]
  | AST_TERNARY_EXPRESSION a b c | AST_IF_STATEMENT a b c => omap id [a; b; c]
  | AST_FOR_LOOP a b c d => omap id [a; b; c; d]
  | AST_FUNCTION_CALL a l => omap id (a :: l)
  | AST_SWITCH a l => omap id (a :: l)
  | AST_CASE a l b => omap id (a :: b :: l)
  | _ => []
  end.

Lemma node_children_ind (P : ASTNode -> Prop) :
  (forall n, Forall P (node_children n) -> P n) -> forall n, P n.
Proof.
  intros H. fix IH 1. intros n. apply H. destruct n as [nid line l1 l2 l3 attrs body].
  assert (Hone : forall o : option ASTNode, (match o with Some c => P c | None => True end) ->
    forall rest, Forall P (omap id rest) -> Forall P (omap id (o :: rest))) by (intros [c|] Hc rest Hr; cbn; [by constructor|done]).
  destruct body; cbn [node_children an_body]; try (constructor; fail); repeat (apply Hone; [by match goal with |- match ?o with _ => _ end => destruct o end|]);
    try (constructor; fail).
  all: match goal with |- Forall _ (omap id ?l) => induction l as [|o rest IHl]; [constructor|apply Hone; [by destruct o|exact IHl]] end.
Qed.
