(* ===== verification/ParsedTypes.v ===== *)
(** * Operations on parsed types (src/Parser/Helpers/parsed_type_ops.c).

    A type is a base with a list of derivations, outermost first.  The nodes that array sizes
    point to are looked up in [nodes]. *)
From S2P Require Import Prelude Tokens AST.

Definition Derivation : Type := TypeDerivation ParsedType.

(** ** Fields *)

Definition with_derivations (t : ParsedType) (ds : list Derivation) : ParsedType :=
  mkParsedType (pt_kind t) (pt_tag t) (pt_inlineStructOrUnionDef t) (pt_inlineEnumDef t) (pt_isFunctionPointer t)
    (pt_fpParams t) (pt_primitiveType t) (pt_userTypeName t) (pt_modifiers t) (pt_qualifiers t) (pt_storage t)
    (pt_pointerDepth t) (pt_isVLA t) (pt_directlyDeclaresFunction t) (pt_isVariadicFunction t) ds (pt_attributes t)
    (pt_alignOverride t) (pt_hasAlignOverride t) (pt_paramArrayInfo t).

Definition with_depth (t : ParsedType) (depth : Z) : ParsedType :=
  mkParsedType (pt_kind t) (pt_tag t) (pt_inlineStructOrUnionDef t) (pt_inlineEnumDef t) (pt_isFunctionPointer t)
    (pt_fpParams t) (pt_primitiveType t) (pt_userTypeName t) (pt_modifiers t) (pt_qualifiers t) (pt_storage t)
    depth (pt_isVLA t) (pt_directlyDeclaresFunction t) (pt_isVariadicFunction t) (pt_derivations t) (pt_attributes t)
    (pt_alignOverride t) (pt_hasAlignOverride t) (pt_paramArrayInfo t).

(** [isFunctionPointer], [fpParams], [directlyDeclaresFunction], [isVariadicFunction]. *)
Definition with_function_flags (t : ParsedType) (isFunctionPointer : bool) (fpParams : list ParsedType)
    (direct variadic : bool) : ParsedType :=
  mkParsedType (pt_kind t) (pt_tag t) (pt_inlineStructOrUnionDef t) (pt_inlineEnumDef t) isFunctionPointer
    fpParams (pt_primitiveType t) (pt_userTypeName t) (pt_modifiers t) (pt_qualifiers t) (pt_storage t)
    (pt_pointerDepth t) (pt_isVLA t) direct variadic (pt_derivations t) (pt_attributes t)
    (pt_alignOverride t) (pt_hasAlignOverride t) (pt_paramArrayInfo t).

Definition with_vla (t : ParsedType) (isVLA : bool) (paramArray : option ParsedArrayInfo) : ParsedType :=
  mkParsedType (pt_kind t) (pt_tag t) (pt_inlineStructOrUnionDef t) (pt_inlineEnumDef t) (pt_isFunctionPointer t)
    (pt_fpParams t) (pt_primitiveType t) (pt_userTypeName t) (pt_modifiers t) (pt_qualifiers t) (pt_storage t)
    (pt_pointerDepth t) isVLA (pt_directlyDeclaresFunction t) (pt_isVariadicFunction t) (pt_derivations t)
    (pt_attributes t) (pt_alignOverride t) (pt_hasAlignOverride t) paramArray.

Definition with_attributes (t : ParsedType) (attrs : list ASTAttribute) : ParsedType :=
  mkParsedType (pt_kind t) (pt_tag t) (pt_inlineStructOrUnionDef t) (pt_inlineEnumDef t) (pt_isFunctionPointer t)
    (pt_fpParams t) (pt_primitiveType t) (pt_userTypeName t) (pt_modifiers t) (pt_qualifiers t) (pt_storage t)
    (pt_pointerDepth t) (pt_isVLA t) (pt_directlyDeclaresFunction t) (pt_isVariadicFunction t) (pt_derivations t)
    attrs (pt_alignOverride t) (pt_hasAlignOverride t) (pt_paramArrayInfo t).

(** ** Derivations *)

Definition is_pointer (d : Derivation) : bool := match d with TYPE_DERIVATION_POINTER _ => true | _ => false end.
Definition is_array (d : Derivation) : bool := match d with TYPE_DERIVATION_ARRAY _ => true | _ => false end.
Definition is_function (d : Derivation) : bool := match d with TYPE_DERIVATION_FUNCTION _ => true | _ => false end.

Definition plain_pointer : Derivation := TYPE_DERIVATION_POINTER no_qualifier.

Definition findFirstFunctionDerivation (t : ParsedType) : option (ParsedFunctionSignature ParsedType) :=
  match list_find (fun d => is_function d = true) (pt_derivations t) with
  | Some (_, TYPE_DERIVATION_FUNCTION f) => Some f
  | _ => None
  end.

Definition countFunctionDerivations (t : ParsedType) : nat := count_if is_function (pt_derivations t).

Definition parsedTypeGetDerivation (t : ParsedType) (index : nat) : option Derivation := pt_derivations t !! index.

(** The array derivations in order. *)
Definition parsedTypeGetArrayDerivation (t : ParsedType) (dimensionIndex : nat) : option ParsedArrayInfo :=
  omap (fun d => match d with TYPE_DERIVATION_ARRAY a => Some a | _ => None end) (pt_derivations t) !! dimensionIndex.

Definition parsedTypeCountDerivationsOfKind (t : ParsedType) (kind : Derivation -> bool) : nat :=
  count_if kind (pt_derivations t).

Definition parsedTypeIsDirectArray (t : ParsedType) : bool :=
  match pt_derivations t with d :: _ => is_array d | [] => false end.

Definition getTokenTypeName (type : TokenType) : string :=
  match type with
  | TOKEN_INT => "int" | TOKEN_FLOAT => "float" | TOKEN_DOUBLE => "double" | TOKEN_CHAR => "char"
  | TOKEN_BOOL => "_Bool" | TOKEN_VOID => "void" | TOKEN_SHORT => "short" | TOKEN_LONG => "long"
  | TOKEN_CONST => "const" | TOKEN_SIGNED => "signed" | TOKEN_UNSIGNED => "unsigned"
  | TOKEN_VOLATILE => "volatile" | TOKEN_INLINE => "inline" | TOKEN_IDENTIFIER => "identifier"
  | _ => "unknown"
  end%string.

(** ** Copies *)

Fixpoint parsedTypeClone (t : ParsedType) : ParsedType :=
  match t with
  | mkParsedType kind tag sdef edef isFp fps prim name mods quals storage depth vla direct variadic ds attrs
                 align hasAlign param =>
      mkParsedType kind tag sdef edef isFp (if existsb is_function ds then [] else map parsedTypeClone fps)
        prim name mods quals storage depth vla direct variadic
        (map (fun d => match d with
                       | TYPE_DERIVATION_FUNCTION (mkFunctionSignature proto var ps) =>
                           TYPE_DERIVATION_FUNCTION (mkFunctionSignature proto var (map parsedTypeClone ps))
                       | d => d
                       end) ds)
        attrs align hasAlign param
  end.

(** ** Building a type *)

Definition parsedTypeAddPointerDepth (t : ParsedType) (depth : Z) : ParsedType :=
  if depth <=? 0 then t else with_depth t (pt_pointerDepth t + depth).

Definition parsedTypeSetFunctionPointer (t : ParsedType) (ps : list ParsedType) : ParsedType :=
  with_function_flags t true
    (if bool_decide (countFunctionDerivations t = 1%nat) then [] else map parsedTypeClone ps)
    (pt_directlyDeclaresFunction t) (pt_isVariadicFunction t).

Definition parsedTypeAppendPointer (t : ParsedType) : ParsedType :=
  parsedTypeAddPointerDepth (with_derivations t (pt_derivations t ++ [plain_pointer])) 1.

Definition parsedTypeAppendArray (t : ParsedType) (size : option NodeId) (vla : bool) : ParsedType :=
  let t' := with_derivations t
    (pt_derivations t ++ [TYPE_DERIVATION_ARRAY (mkArrayInfo size vla false 0 false false no_qualifier)]) in
  if vla then with_vla t' true (pt_paramArrayInfo t) else t'.

Definition parsedTypeAppendFunction (t : ParsedType) (ps : list ParsedType) (variadic prototype : bool) : ParsedType :=
  let f := mkFunctionSignature prototype variadic (map parsedTypeClone ps) in
  with_function_flags (with_derivations t (pt_derivations t ++ [TYPE_DERIVATION_FUNCTION f]))
    (pt_isFunctionPointer t) (pt_fpParams t) true variadic.

Definition parsedTypeResetDerivations (t : ParsedType) : ParsedType :=
  with_function_flags (with_derivations t []) (pt_isFunctionPointer t) (pt_fpParams t) false false.

(** What is left of a type that was freed. *)
Definition parsedTypeFree (t : ParsedType) : ParsedType :=
  with_attributes (with_function_flags (with_derivations t []) false [] false false) [].

Definition parsedTypeAdoptAttributes (t : ParsedType) (attrs : list ASTAttribute) : ParsedType :=
  with_attributes t (pt_attributes t ++ attrs).

(** ** Function flags *)

(** The first function, and whether a pointer stands in front of it. *)
Definition parsedTypeRefreshFunctionFlags (t : ParsedType) : ParsedType :=
  match findFirstFunctionDerivation t with
  | None => with_function_flags t false (pt_fpParams t) false false
  | Some f =>
      let before := (span (fun d => negb (is_function d)) (pt_derivations t)).1 in
      with_function_flags t (existsb is_pointer before) (pt_fpParams t) true (isVariadic f)
  end.

(** Pointers that follow the function are moved in front of it. *)
Definition parsedTypeNormalizeFunctionPointer (t : ParsedType) : ParsedType :=
  if negb (pt_isFunctionPointer t) || bool_decide (length (pt_derivations t) < 2)%nat then t
  else
    let '(before, rest) := span (fun d => negb (is_function d)) (pt_derivations t) in
    match rest with
    | [] => t
    | f :: after =>
        if existsb is_pointer before || negb (existsb is_pointer after) then t
        else with_derivations t (before ++ List.filter is_pointer after ++ [f] ++
                                 List.filter (fun d => negb (is_pointer d)) after)
    end.

(** ** Arrays *)

Section Nodes.
(** The nodes by their address. *)
Context (nodes : gmap NodeId ASTNode).

Definition is_plain_literal (n : ASTNode) : bool :=
  match an_body n with AST_NUMBER_LITERAL _ | AST_CHAR_LITERAL _ => true | _ => false end.

(** An array whose size is not known to be constant. *)
Definition array_has_vla (a : ParsedArrayInfo) : bool :=
  isVLA a ||
  (negb (hasConstantSize a) && negb (isFlexible a) &&
   match sizeExpr a with
   | Some id => negb (match nodes !! id with Some n => is_plain_literal n | None => false end)
   | None => false
   end).

Definition parsedTypeHasVLA (t : ParsedType) : bool :=
  existsb (fun d => match d with TYPE_DERIVATION_ARRAY a => array_has_vla a | _ => false end) (pt_derivations t).

Definition parsedTypeAdjustArrayParameter (t : ParsedType) : option ParsedType :=
  match pt_derivations t with
  | TYPE_DERIVATION_ARRAY a :: rest =>
      let t' := parsedTypeAddPointerDepth (with_derivations t (TYPE_DERIVATION_POINTER (arrayQualifiers a) :: rest)) 1 in
      Some (with_vla t' (parsedTypeHasVLA t') (Some a))
  | _ => None
  end.

(** The adjusted type, and whether it changed. *)
Definition parsedTypeAdjustFunctionParameter (t : ParsedType) : ParsedType * bool :=
  let '(t, changed) := match parsedTypeAdjustArrayParameter t with Some t' => (t', true) | None => (t, false) end in
  match pt_derivations t with
  | TYPE_DERIVATION_FUNCTION _ :: _ =>
      let t' := with_depth (with_derivations t (plain_pointer :: pt_derivations t)) (pt_pointerDepth t + 1) in
      (parsedTypeNormalizeFunctionPointer
         (with_function_flags t' true (pt_fpParams t) false (pt_isVariadicFunction t)), true)
  | _ => (t, changed)
  end.

End Nodes.

(** ** Parts of a type *)

Definition parsedTypeArrayElementType (t : ParsedType) : ParsedType :=
  let element := parsedTypeClone t in
  match pt_derivations element with
  | TYPE_DERIVATION_ARRAY _ :: rest => parsedTypeRefreshFunctionFlags (with_derivations element rest)
  | _ => element
  end.

(** Without its first pointer; a type with none is invalid. *)
Definition parsedTypePointerTargetType (t : ParsedType) : ParsedType :=
  let copy := parsedTypeClone t in
  let '(before, rest) := span (fun d => negb (is_pointer d)) (pt_derivations copy) in
  let depth := if 0 <? pt_pointerDepth copy then pt_pointerDepth copy - 1 else pt_pointerDepth copy in
  match rest with
  | _ :: after => parsedTypeRefreshFunctionFlags (with_depth (with_derivations copy (before ++ after)) depth)
  | [] =>
      if 0 <? pt_pointerDepth copy then parsedTypeRefreshFunctionFlags (with_depth copy depth)
      else invalid_parsed_type
  end.

Definition with_invalid_kind (t : ParsedType) : ParsedType :=
  mkParsedType TYPE_INVALID (pt_tag t) (pt_inlineStructOrUnionDef t) (pt_inlineEnumDef t) (pt_isFunctionPointer t)
    (pt_fpParams t) (pt_primitiveType t) (pt_userTypeName t) (pt_modifiers t) (pt_qualifiers t) (pt_storage t)
    (pt_pointerDepth t) (pt_isVLA t) (pt_directlyDeclaresFunction t) (pt_isVariadicFunction t) (pt_derivations t)
    (pt_attributes t) (pt_alignOverride t) (pt_hasAlignOverride t) (pt_paramArrayInfo t).

(** What stands behind the first function. *)
Definition parsedTypeFunctionReturnType (t : ParsedType) : ParsedType :=
  let copy := parsedTypeClone t in
  let '(before, rest) := span (fun d => negb (is_function d)) (pt_derivations copy) in
  match rest with
  | [] => with_invalid_kind copy
  | _ :: after =>
      let removed := Z.of_nat (count_if is_pointer before) in
      let depth := if (0 <? removed) && (0 <? pt_pointerDepth copy)
                   then Z.max 0 (pt_pointerDepth copy - removed) else pt_pointerDepth copy in
      parsedTypeRefreshFunctionFlags (with_depth (with_derivations copy after) depth)
  end.

(** The pointers of [ds] but the first one, and the rest with the first one. *)
Definition split_pointers (ds : list Derivation) : list Derivation * list Derivation :=
  let '(before, rest) := span (fun d => negb (is_pointer d)) ds in
  match rest with
  | [] => (before, [])
  | p :: after => (before ++ [p] ++ List.filter (fun d => negb (is_pointer d)) after, List.filter is_pointer after)
  end.

Definition parsedTypeDeclaredFunctionReturnType (t : ParsedType) : ParsedType :=
  let copy := parsedTypeClone t in
  let '(before, rest) := span (fun d => negb (is_function d)) (pt_derivations copy) in
  match rest with
  | [] => with_invalid_kind copy
  | _ :: after =>
      let ds := before ++ after in
      let '(head, tail) := span (fun d => negb (is_function d)) ds in
      let ds := match tail with
                | f :: more =>
                    if bool_decide (1 < count_if is_pointer head)%nat
                    then let '(kept, moved) := split_pointers head in kept ++ [f] ++ moved ++ more
                    else ds
                | [] => ds
                end in
      parsedTypeRefreshFunctionFlags (with_derivations copy ds)
  end.

(** ** Comparison *)

(** Parameters, variadic, prototype. *)
Definition parsedTypeGetEffectiveFunctionPointerSignature (t : ParsedType)
    : option (list ParsedType * bool * bool) :=
  if negb (pt_isFunctionPointer t) then None
  else
    match pt_fpParams t, findFirstFunctionDerivation t with
    | _ :: _, f => Some (pt_fpParams t, match f with Some f => isVariadic f | None => false end,
                         match f with Some f => hasPrototype f | None => true end)
    | [], Some f => Some (params f, isVariadic f, hasPrototype f)
    | [], None => None
    end.

Definition namesEqual (a b : option string) : bool := bool_decide (a = b).

(** [eq] on the first [length l] elements of two arrays; [None] when [r] has fewer. *)
Fixpoint equal_prefix (eq : ParsedType -> ParsedType -> option bool) (l r : list ParsedType) : option bool :=
  match l, r with
  | [], _ => Some true
  | _ :: _, [] => None
  | x :: l', y :: r' => b ← eq x y; if (b : bool) then equal_prefix eq l' r' else Some false
  end.

Definition derivation_equal (eq : ParsedType -> ParsedType -> option bool) (l r : Derivation) : option bool :=
  match l, r with
  | TYPE_DERIVATION_POINTER p, TYPE_DERIVATION_POINTER q => Some (bool_decide (p = q))
  | TYPE_DERIVATION_ARRAY a, TYPE_DERIVATION_ARRAY b => Some (eqb (isVLA a) (isVLA b))
  | TYPE_DERIVATION_FUNCTION f, TYPE_DERIVATION_FUNCTION g =>
      if eqb (hasPrototype f) (hasPrototype g) && eqb (isVariadic f) (isVariadic g) &&
         bool_decide (length (params f) = length (params g))
      then equal_prefix eq (params f) (params g) else Some false
  | _, _ => Some false
  end.

Fixpoint derivations_equal (eq : ParsedType -> ParsedType -> option bool) (l r : list Derivation) : option bool :=
  match l, r with
  | [], [] => Some true
  | x :: l', y :: r' => b ← derivation_equal eq x y; if (b : bool) then derivations_equal eq l' r' else Some false
  | _, _ => Some false
  end.

(** The comparison of two function pointers' signatures. *)
Definition signatures_equal (eq : ParsedType -> ParsedType -> option bool) (a b : ParsedType) : option bool :=
  b1 ← match parsedTypeGetEffectiveFunctionPointerSignature a, parsedTypeGetEffectiveFunctionPointerSignature b with
       | Some (ps, v, p), Some (ps', v', p') =>
           if bool_decide (length ps = length ps') && eqb v v' && eqb p p' then equal_prefix eq ps ps' else Some false
       | None, None => Some (bool_decide (length (pt_fpParams a) = length (pt_fpParams b)))
       | _, _ => Some false
       end;
  if (b1 : bool) then equal_prefix eq (pt_fpParams a) (pt_fpParams b) else Some false.

(** [None]: the fuel is used up, or an array is read behind its end. *)
Fixpoint structurally_equal (fuel : nat) (a b : ParsedType) : option bool :=
  match fuel with
  | O => None
  | S fuel' =>
      let eq := structurally_equal fuel' in
      if bool_decide (pt_kind a = pt_kind b) && bool_decide (pt_primitiveType a = pt_primitiveType b) &&
         bool_decide (pt_tag a = pt_tag b) && namesEqual (pt_userTypeName a) (pt_userTypeName b) &&
         bool_decide (pt_qualifiers a = pt_qualifiers b) && bool_decide (pt_modifiers a = pt_modifiers b) &&
         (pt_pointerDepth a =? pt_pointerDepth b)
      then
        b1 ← (if pt_isFunctionPointer a || pt_isFunctionPointer b then signatures_equal eq a b else Some true);
        if (b1 : bool) then
          if bool_decide (length (pt_derivations a) = length (pt_derivations b))
          then derivations_equal eq (pt_derivations a) (pt_derivations b) else Some false
        else Some false
      else Some false
  end.

(** How deep types are nested as parameters. *)
Fixpoint parsed_type_depth (t : ParsedType) : nat :=
  S (Nat.max (max_list (map parsed_type_depth (pt_fpParams t)))
       (max_list (map (fun d => match d with
                                | TYPE_DERIVATION_FUNCTION (mkFunctionSignature _ _ ps) =>
                                    max_list (map parsed_type_depth ps)
                                | _ => 0%nat
                                end) (pt_derivations t)))).

Definition parsedTypesStructurallyEqual (a b : ParsedType) : option bool :=
  structurally_equal (parsed_type_depth a) a b.
