(* ===== verification/TypeInfo.v ===== *)
(** * Types as the checker sees them, and the arithmetic conversions (src/Syntax/type_checker.h,
    type_checker_arithmetic.c and the constructors of type_checker.c).

    [host] is the machine the compiler runs on; it gives the layout when there is no other. *)
From S2P Require Import Prelude Tokens TargetLayout AST.

Inductive TypeInfoCategory : Set :=
  | TYPEINFO_INVALID | TYPEINFO_INTEGER | TYPEINFO_FLOAT | TYPEINFO_POINTER | TYPEINFO_ARRAY | TYPEINFO_FUNCTION
  | TYPEINFO_STRUCT | TYPEINFO_UNION | TYPEINFO_ENUM | TYPEINFO_VOID.

#[export] Instance TypeInfoCategory_eq_dec : EqDecision TypeInfoCategory.
Proof. solve_decision. Defined.

Definition TYPEINFO_MAX_POINTER_DEPTH : nat := 32.

Inductive FloatKind : Set := FLOAT_KIND_FLOAT | FLOAT_KIND_DOUBLE | FLOAT_KIND_LONG_DOUBLE.

(** [bitfieldLayout] is left out: only the accesses to fields set it. *)
Record TypeInfo := mkTypeInfo {
  ti_category : TypeInfoCategory;
  ti_primitive : TokenType;
  ti_bitWidth : Z;
  ti_isSigned : bool;
  ti_qualifiers : PointerQualifier;
  ti_isArray : bool;
  ti_isFunction : bool;
  ti_isVLA : bool;
  ti_isComplex : bool;
  ti_isImaginary : bool;
  ti_tag : TagKind;
  ti_userTypeName : option string;
  ti_pointerDepth : Z;
  ti_pointerLevels : list PointerQualifier;
  ti_isLValue : bool;
  ti_isComplete : bool;
  ti_originalType : option ParsedType;
  ti_recordDefinition : option NodeId
}.

(** ** Constructors *)

Definition no_pointer_levels : list PointerQualifier := replicate TYPEINFO_MAX_POINTER_DEPTH no_qualifier.

(** The code of [TOKEN_INT] is 0. *)
Definition makeInvalidType : TypeInfo :=
  mkTypeInfo TYPEINFO_INVALID TOKEN_INT 0 false no_qualifier false false false false false TAG_NONE None 0
    no_pointer_levels false false None None.

Definition makeIntegerType (bitWidth : Z) (signed : bool) (primitive : TokenType) : TypeInfo :=
  mkTypeInfo TYPEINFO_INTEGER primitive bitWidth signed no_qualifier false false false false false TAG_NONE None 0
    no_pointer_levels false true None None.

Definition makeBoolType : TypeInfo := makeIntegerType 1 false TOKEN_BOOL.

(** With the layout of the scope's target. *)
Definition makeFloatTypeInfo (tl : TargetLayout) (kind : FloatKind) (complex : bool) : TypeInfo :=
  let '(primitive, bitWidth) := match kind with
                                | FLOAT_KIND_LONG_DOUBLE => (TOKEN_DOUBLE, longDoubleBits tl)
                                | FLOAT_KIND_DOUBLE => (TOKEN_DOUBLE, 64)
                                | FLOAT_KIND_FLOAT => (TOKEN_FLOAT, 32)
                                end in
  mkTypeInfo TYPEINFO_FLOAT primitive bitWidth true no_qualifier false false false complex false TAG_NONE None 0
    no_pointer_levels false true None None.

(** ** Changing fields *)

Definition set_integer (i : TypeInfo) (primitive : TokenType) (bitWidth : Z) (signed : bool) : TypeInfo :=
  mkTypeInfo (ti_category i) primitive bitWidth signed (ti_qualifiers i) (ti_isArray i) (ti_isFunction i)
    (ti_isVLA i) (ti_isComplex i) (ti_isImaginary i) (ti_tag i) (ti_userTypeName i) (ti_pointerDepth i)
    (ti_pointerLevels i) (ti_isLValue i) (ti_isComplete i) (ti_originalType i) (ti_recordDefinition i).

Definition set_lvalue (i : TypeInfo) (lvalue : bool) : TypeInfo :=
  mkTypeInfo (ti_category i) (ti_primitive i) (ti_bitWidth i) (ti_isSigned i) (ti_qualifiers i) (ti_isArray i)
    (ti_isFunction i) (ti_isVLA i) (ti_isComplex i) (ti_isImaginary i) (ti_tag i) (ti_userTypeName i)
    (ti_pointerDepth i) (ti_pointerLevels i) lvalue (ti_isComplete i) (ti_originalType i) (ti_recordDefinition i).

Definition set_imaginary (i : TypeInfo) (imaginary : bool) : TypeInfo :=
  mkTypeInfo (ti_category i) (ti_primitive i) (ti_bitWidth i) (ti_isSigned i) (ti_qualifiers i) (ti_isArray i)
    (ti_isFunction i) (ti_isVLA i) (ti_isComplex i) imaginary (ti_tag i) (ti_userTypeName i)
    (ti_pointerDepth i) (ti_pointerLevels i) (ti_isLValue i) (ti_isComplete i) (ti_originalType i)
    (ti_recordDefinition i).

Definition set_qualifiers (i : TypeInfo) (q : PointerQualifier) : TypeInfo :=
  mkTypeInfo (ti_category i) (ti_primitive i) (ti_bitWidth i) (ti_isSigned i) q (ti_isArray i)
    (ti_isFunction i) (ti_isVLA i) (ti_isComplex i) (ti_isImaginary i) (ti_tag i) (ti_userTypeName i)
    (ti_pointerDepth i) (ti_pointerLevels i) (ti_isLValue i) (ti_isComplete i) (ti_originalType i)
    (ti_recordDefinition i).

Definition set_vla (i : TypeInfo) (vla : bool) : TypeInfo :=
  mkTypeInfo (ti_category i) (ti_primitive i) (ti_bitWidth i) (ti_isSigned i) (ti_qualifiers i) (ti_isArray i)
    (ti_isFunction i) vla (ti_isComplex i) (ti_isImaginary i) (ti_tag i) (ti_userTypeName i)
    (ti_pointerDepth i) (ti_pointerLevels i) (ti_isLValue i) (ti_isComplete i) (ti_originalType i)
    (ti_recordDefinition i).

Definition set_original (i : TypeInfo) (t : option ParsedType) : TypeInfo :=
  mkTypeInfo (ti_category i) (ti_primitive i) (ti_bitWidth i) (ti_isSigned i) (ti_qualifiers i) (ti_isArray i)
    (ti_isFunction i) (ti_isVLA i) (ti_isComplex i) (ti_isImaginary i) (ti_tag i) (ti_userTypeName i)
    (ti_pointerDepth i) (ti_pointerLevels i) (ti_isLValue i) (ti_isComplete i) t (ti_recordDefinition i).

Definition set_pointers (i : TypeInfo) (category : TypeInfoCategory) (depth : Z) (levels : list PointerQualifier)
    (q : PointerQualifier) : TypeInfo :=
  mkTypeInfo category (ti_primitive i) (ti_bitWidth i) (ti_isSigned i) q (ti_isArray i)
    (ti_isFunction i) (ti_isVLA i) (ti_isComplex i) (ti_isImaginary i) (ti_tag i) (ti_userTypeName i)
    depth levels (ti_isLValue i) (ti_isComplete i) (ti_originalType i) (ti_recordDefinition i).

(** ** Pointer levels: the qualifiers of what each level points to, 32 at most *)

Definition typeInfoPrependPointerLevel (i : TypeInfo) (q : PointerQualifier) : TypeInfo :=
  let stored := Nat.min (Z.to_nat (ti_pointerDepth i)) (TYPEINFO_MAX_POINTER_DEPTH - 1) in
  let levels := q :: take stored (ti_pointerLevels i) ++ drop (S stored) (ti_pointerLevels i) in
  set_pointers i TYPEINFO_POINTER (ti_pointerDepth i + 1) levels no_qualifier.

Definition typeInfoDropPointerLevel (i : TypeInfo) : TypeInfo :=
  if ti_pointerDepth i <=? 0 then i
  else
    let stored := Nat.min (Z.to_nat (ti_pointerDepth i)) TYPEINFO_MAX_POINTER_DEPTH in
    let levels := take (stored - 1) (tail (ti_pointerLevels i)) ++ [no_qualifier] ++ drop stored (ti_pointerLevels i) in
    let depth := ti_pointerDepth i - 1 in
    set_pointers i (ti_category i) depth levels
      (default no_qualifier (head (if 0 <? depth then levels else ti_pointerLevels i))).

(** ** Predicates *)

Definition typeInfoIsInteger (i : TypeInfo) : bool :=
  match ti_category i with TYPEINFO_INTEGER | TYPEINFO_ENUM => true | _ => false end.

Definition typeInfoIsFloating (i : TypeInfo) : bool :=
  match ti_category i with TYPEINFO_FLOAT => true | _ => false end.

Definition typeInfoIsArithmetic (i : TypeInfo) : bool := typeInfoIsInteger i || typeInfoIsFloating i.

Definition typeInfoIsPointerLike (i : TypeInfo) : bool :=
  match ti_category i with TYPEINFO_POINTER | TYPEINFO_ARRAY => true | _ => ti_isArray i end.

(** ** Conversions *)

Definition defaultIntBits : Z := 32.
(** [longBits ()] of type_checker.c, whatever the target. *)
Definition checkerLongBits : Z := 64.

Definition integerPromote (i : TypeInfo) : TypeInfo :=
  if negb (typeInfoIsInteger i) then i
  else if defaultIntBits <=? ti_bitWidth i then i
  else set_integer i TOKEN_INT defaultIntBits true.

Definition integerRank (i : TypeInfo) : Z :=
  if negb (typeInfoIsInteger i) then -1
  else
    let bits := or_default (ti_bitWidth i) 32 in
    if bits <=? 8 then 1 else if bits <=? 16 then 2 else if bits <=? 32 then 3
    else if bits <=? 64 then 4 else if bits <=? 128 then 5 else 6.

Definition pickIntegerResult (a b : TypeInfo) : TypeInfo :=
  if integerRank b <? integerRank a then a
  else if integerRank a <? integerRank b then b
  else if eqb (ti_isSigned a) (ti_isSigned b) then (if ti_isSigned a then a else b)
  else if negb (ti_isSigned a) && (ti_bitWidth b <=? ti_bitWidth a) then a
  else if negb (ti_isSigned b) && (ti_bitWidth a <=? ti_bitWidth b) then b
  else set_integer a (ti_primitive a) (ti_bitWidth a) false.

Section Host.
Context (host : Host).

Definition defaultArgumentPromotion (i : TypeInfo) : TypeInfo :=
  if typeInfoIsInteger i then set_lvalue (integerPromote i) false
  else if typeInfoIsFloating i && negb (ti_isComplex i) && negb (ti_isImaginary i) && (ti_bitWidth i <? 64)
       then makeFloatTypeInfo (tl_default host) FLOAT_KIND_DOUBLE false
       else set_lvalue i false.

(** [None]: [*ok] is false and the result is invalid. *)
Definition usualArithmeticConversion (left right : TypeInfo) : option TypeInfo :=
  if negb (typeInfoIsArithmetic left) || negb (typeInfoIsArithmetic right) then None
  else if typeInfoIsFloating left || typeInfoIsFloating right then
    let imaginary := ti_isImaginary left || ti_isImaginary right in
    let complex := ti_isComplex left || ti_isComplex right || imaginary in
    let maxBits := Z.max (ti_bitWidth left) (ti_bitWidth right) in
    let fk := if 128 <=? maxBits then FLOAT_KIND_LONG_DOUBLE
              else if 64 <=? maxBits then FLOAT_KIND_DOUBLE else FLOAT_KIND_FLOAT in
    Some (set_imaginary (makeFloatTypeInfo (tl_default host) fk complex) (imaginary && negb complex))
  else Some (pickIntegerResult (integerPromote left) (integerPromote right)).

End Host.

(** ** The integer conversions are those of C *)

(** The width and signedness of an integer type. *)
Definition int_shape (i : TypeInfo) : Z * bool := (ti_bitWidth i, ti_isSigned i).

(** C11 6.3.1.1: a type whose values [int] can represent becomes [int]. *)
Definition c_promote (s : Z * bool) : Z * bool := if s.1 <? 32 then (32, true) else s.

(** C11 6.3.1.8 on promoted types: the greater width; at the same width unsigned wins. *)
Definition c_common (a b : Z * bool) : Z * bool :=
  let '(wa, sa) := c_promote a in
  let '(wb, sb) := c_promote b in
  if wb <? wa then (wa, sa) else if wa <? wb then (wb, sb) else (wa, sa && sb).

Definition is_c_width (w : Z) : Prop := w = 1 \/ w = 8 \/ w = 16 \/ w = 32 \/ w = 64 \/ w = 128.

Lemma integer_promote_shape (i : TypeInfo) :
  typeInfoIsInteger i = true -> typeInfoIsInteger (integerPromote i) = true /\
  int_shape (integerPromote i) = c_promote (int_shape i).
Proof.
  intros Hi. unfold integerPromote, c_promote, int_shape, defaultIntBits. rewrite Hi. cbn [negb fst].
  destruct (Z.leb_spec 32 (ti_bitWidth i)), (Z.ltb_spec (ti_bitWidth i) 32); try lia; by split.
Qed.

Lemma usual_conversion_shape (host : Host) (a b : TypeInfo) :
  typeInfoIsInteger a = true -> typeInfoIsInteger b = true ->
  is_c_width (ti_bitWidth a) -> is_c_width (ti_bitWidth b) ->
  exists r, usualArithmeticConversion host a b = Some r /\ typeInfoIsInteger r = true /\
    int_shape r = c_common (int_shape a) (int_shape b).
Proof.
  intros Ha Hb Hwa Hwb. unfold usualArithmeticConversion, typeInfoIsArithmetic.
  assert (forall i, typeInfoIsInteger i = true -> typeInfoIsFloating i = false) as Hf
    by (intros i; unfold typeInfoIsInteger, typeInfoIsFloating; by destruct (ti_category i)).
  rewrite Ha, Hb, !Hf by done. eexists. split; [done|].
  destruct (integer_promote_shape a Ha) as [Hpa Hsa], (integer_promote_shape b Hb) as [Hpb Hsb].
  unfold c_common. rewrite <- Hsa, <- Hsb.
  assert (forall i, is_c_width (ti_bitWidth i) -> typeInfoIsInteger i = true ->
    ti_bitWidth (integerPromote i) = 32 \/ ti_bitWidth (integerPromote i) = 64 \/ ti_bitWidth (integerPromote i) = 128) as Hw.
  { intros i Hwi Hi. unfold integerPromote. rewrite Hi. unfold is_c_width, defaultIntBits in *. cbn [negb].
    destruct (Z.leb_spec 32 (ti_bitWidth i)); cbn [ti_bitWidth set_integer]; lia. }
  specialize (Hw a Hwa Ha) as Hwa'. specialize (Hw b Hwb Hb) as Hwb'.
  unfold int_shape. generalize dependent (integerPromote a). generalize dependent (integerPromote b).
  intros b' Hpb _ Hwb' a' Hpa _ Hwa'. unfold pickIntegerResult, integerRank. rewrite Hpa, Hpb.
  destruct_or! Hwa'; destruct_or! Hwb'; rewrite Hwa', Hwb'; cbn -[ti_bitWidth ti_isSigned];
    destruct (ti_isSigned a') eqn:Esa, (ti_isSigned b') eqn:Esb; cbn; rewrite ?Hwa', ?Hwb', ?Esa, ?Esb; by repeat split.
Qed.
