(* ===== verification/Semantic.v ===== *)
(** * What the semantic passes share: the tags of the compiler context, symbol tables and scopes
    (src/Compiler/compiler_context.c, src/Syntax/symbol_table.c, scope.c).

    Nodes and symbols live in stores and are referred to by address.  A scope is the list of
    its frames, innermost first.  A tag table is searched from its front. *)
From S2P Require Import Prelude StateError CType Tokens TargetLayout AST TypeInfo.

(** ** Tags *)

Inductive CCTagKind : Set := CC_TAG_STRUCT | CC_TAG_UNION | CC_TAG_ENUM.

#[export] Instance CCTagKind_eq_dec : EqDecision CCTagKind.
Proof. solve_decision. Defined.

Record CCTagFieldLayout := mkFieldLayout {
  fl_name : option string;
  fl_byteOffset : Z;
  fl_bitOffset : Z;
  fl_widthBits : Z;
  fl_storageUnitBytes : Z;
  fl_isBitfield : bool;
  fl_isZeroWidth : bool;
  fl_isSigned : bool
}.

(** [layout]: size and alignment when [hasLayout]; [fieldLayouts]: NULL is [None]. *)
Record CCTagRecord := mkTagRecord {
  tr_name : string;
  tr_isDefined : bool;
  tr_fingerprint : Z;
  tr_definition : option NodeId;
  tr_layout : option (Z * Z);
  tr_computingLayout : bool;
  tr_fieldLayouts : option (list CCTagFieldLayout)
}.

Definition CCTagTable : Type := list CCTagRecord.

Definition has_tag_name (name : string) (r : CCTagRecord) : bool := String.eqb (tr_name r) name.

Definition cc_tag_lookup (table : CCTagTable) (name : string) : option CCTagRecord :=
  snd <$> list_find (fun r => has_tag_name name r = true) table.

Definition new_tag (name : string) : CCTagRecord := mkTagRecord name false 0 None None false None.

Definition cc_tag_table_add (table : CCTagTable) (name : string) : CCTagTable :=
  match cc_tag_lookup table name with Some _ => table | None => table ++ [new_tag name] end.

(** The first record of the name is changed. *)
Fixpoint update_tag (f : CCTagRecord -> CCTagRecord) (name : string) (table : CCTagTable) : CCTagTable :=
  match table with
  | [] => []
  | r :: rest => if has_tag_name name r then f r :: rest else r :: update_tag f name rest
  end.

(** ** Symbols *)

Definition SymbolId : Set := nat.

Inductive SymbolKind : Set := SYMBOL_VARIABLE | SYMBOL_FUNCTION | SYMBOL_TYPEDEF | SYMBOL_STRUCT | SYMBOL_ENUM.

#[export] Instance SymbolKind_eq_dec : EqDecision SymbolKind.
Proof. solve_decision. Defined.

(** Linkage and storage are not looked at by the modelled passes.  [sym_unitsAnnotation] is the
    place of an annotation in the table of the units extension. *)
Record Symbol := mkSymbol {
  sym_name : string;
  sym_kind : SymbolKind;
  sym_type : ParsedType;
  sym_definition : option NodeId;
  sym_constValue : option Z;
  sym_cachedTypeInfo : option TypeInfo;
  sym_signature : ParsedFunctionSignature ParsedType;
  sym_initializer : option (DesignatedInit ASTNode);
  sym_unitsAnnotation : option nat
}.

Definition set_cached (s : Symbol) (info : option TypeInfo) : Symbol :=
  mkSymbol (sym_name s) (sym_kind s) (sym_type s) (sym_definition s) (sym_constValue s) info (sym_signature s)
    (sym_initializer s) (sym_unitsAnnotation s).

Definition SYMBOL_TABLE_SIZE : Z := 128.

(** The buckets; each is the chain of its symbols. *)
Definition SymbolTable : Type := list (list SymbolId).

Definition hash_step (hash : Z) (c : ascii) : Z := u32 (u32 (u32 (Z.shiftl hash 5) + hash) + chr c).

Definition hashSymbolName (name : string) : Z :=
  foldl hash_step 5381 (list_ascii_of_string name) `mod` SYMBOL_TABLE_SIZE.

Definition initSymbolTable : SymbolTable := replicate (Z.to_nat SYMBOL_TABLE_SIZE) [].

(** ** Scopes *)

(** The frames' depth, and what they say about the current function, are left out. *)
Record ScopeFrame := mkScopeFrame { sc_table : SymbolTable; sc_tagTable : SymbolTable }.
Definition Scope : Type := list ScopeFrame.

Definition createScope (parent : Scope) : Scope := mkScopeFrame initSymbolTable initSymbolTable :: parent.

(** ** The shared state *)

Inductive SemDiag : Type := mkSemDiag (isWarning : bool) (line : Z) (message : string).

Record SemState := mkSemState {
  ss_nodes : gmap NodeId ASTNode;
  ss_symbols : gmap SymbolId Symbol;
  ss_structs : CCTagTable;
  ss_unions : CCTagTable;
  ss_enums : CCTagTable;
  ss_targetLayout : option TargetLayout;
  ss_diagnostics : list SemDiag
}.

Abbreviation SM := (ST SemState).

Definition with_symbols (st : SemState) (m : gmap SymbolId Symbol) : SemState :=
  mkSemState (ss_nodes st) m (ss_structs st) (ss_unions st) (ss_enums st) (ss_targetLayout st) (ss_diagnostics st).

Definition tag_table (st : SemState) (kind : CCTagKind) : CCTagTable :=
  match kind with CC_TAG_STRUCT => ss_structs st | CC_TAG_UNION => ss_unions st | CC_TAG_ENUM => ss_enums st end.

Definition with_tag_table (st : SemState) (kind : CCTagKind) (table : CCTagTable) : SemState :=
  mkSemState (ss_nodes st) (ss_symbols st)
    (match kind with CC_TAG_STRUCT => table | _ => ss_structs st end)
    (match kind with CC_TAG_UNION => table | _ => ss_unions st end)
    (match kind with CC_TAG_ENUM => table | _ => ss_enums st end)
    (ss_targetLayout st) (ss_diagnostics st).

Definition add_diag (isWarning : bool) (line : Z) (message : string) : SM unit :=
  modify (fun st => mkSemState (ss_nodes st) (ss_symbols st) (ss_structs st) (ss_unions st) (ss_enums st)
                      (ss_targetLayout st) (ss_diagnostics st ++ [mkSemDiag isWarning line message])).

Definition addError (line : Z) (message : string) : SM unit := add_diag false line message.
Definition addWarning (line : Z) (message : string) : SM unit := add_diag true line message.

(** ** Tag operations on the state *)

Definition cc_tag_record (st : SemState) (kind : CCTagKind) (name : string) : option CCTagRecord :=
  cc_tag_lookup (tag_table st kind) name.

Definition cc_has_tag (st : SemState) (kind : CCTagKind) (name : string) : bool :=
  bool_decide (is_Some (cc_tag_record st kind name)).

Definition cc_tag_is_defined (st : SemState) (kind : CCTagKind) (name : string) : bool :=
  match cc_tag_record st kind name with Some r => tr_isDefined r | None => false end.

Definition cc_tag_definition (st : SemState) (kind : CCTagKind) (name : string) : option NodeId :=
  r ← cc_tag_record st kind name; tr_definition r.

Definition cc_get_tag_layout (st : SemState) (kind : CCTagKind) (name : string) : option (Z * Z) :=
  r ← cc_tag_record st kind name; tr_layout r.

Definition cc_tag_is_computing (st : SemState) (kind : CCTagKind) (name : string) : bool :=
  match cc_tag_record st kind name with Some r => tr_computingLayout r | None => false end.

Definition cc_get_tag_field_layouts (st : SemState) (kind : CCTagKind) (name : string) : option (list CCTagFieldLayout) :=
  r ← cc_tag_record st kind name; tr_fieldLayouts r.

Definition update_tag_in (st : SemState) (kind : CCTagKind) (name : string) (f : CCTagRecord -> CCTagRecord) : SemState :=
  with_tag_table st kind (update_tag f name (tag_table st kind)).

Definition cc_add_tag (st : SemState) (kind : CCTagKind) (name : string) : SemState :=
  with_tag_table st kind (cc_tag_table_add (tag_table st kind) name).

Definition cc_set_tag_layout (st : SemState) (kind : CCTagKind) (name : string) (size align : Z) : SemState :=
  update_tag_in st kind name (fun r =>
    mkTagRecord (tr_name r) (tr_isDefined r) (tr_fingerprint r) (tr_definition r) (Some (size, align)) false
      (tr_fieldLayouts r)).

Definition cc_tag_mark_computing (st : SemState) (kind : CCTagKind) (name : string) (computing : bool) : SemState :=
  update_tag_in st kind name (fun r =>
    mkTagRecord (tr_name r) (tr_isDefined r) (tr_fingerprint r) (tr_definition r) (tr_layout r) computing
      (tr_fieldLayouts r)).

Definition cc_set_tag_field_layouts (st : SemState) (kind : CCTagKind) (name : string) (layouts : list CCTagFieldLayout)
    : SemState :=
  update_tag_in st kind name (fun r =>
    mkTagRecord (tr_name r) (tr_isDefined r) (tr_fingerprint r) (tr_definition r) (tr_layout r) (tr_computingLayout r)
      (match layouts with [] => None | _ => Some layouts end)).

Inductive CCTagDefineResult : Set := CC_TAGDEF_ADDED | CC_TAGDEF_MATCHING | CC_TAGDEF_CONFLICT.

Definition cc_define_tag (st : SemState) (kind : CCTagKind) (name : string) (fingerprint : Z) (definition : option NodeId)
    : CCTagDefineResult * SemState :=
  let st := cc_add_tag st kind name in
  match cc_tag_record st kind name with
  | None => (CC_TAGDEF_CONFLICT, st)
  | Some rec =>
      if tr_isDefined rec then
        if tr_fingerprint rec =? fingerprint then
          (CC_TAGDEF_MATCHING,
           update_tag_in st kind name (fun r =>
             mkTagRecord (tr_name r) (tr_isDefined r) (tr_fingerprint r)
               (match tr_definition r with Some d => Some d | None => definition end)
               (tr_layout r) (tr_computingLayout r) (tr_fieldLayouts r)))
        else (CC_TAGDEF_CONFLICT, st)
      else (CC_TAGDEF_ADDED,
            update_tag_in st kind name (fun r => mkTagRecord (tr_name r) true fingerprint definition None false None))
  end.

(** ** Symbol operations on the state *)

Definition symbol_is_named (st : SemState) (name : string) (id : SymbolId) : bool :=
  match ss_symbols st !! id with Some s => String.eqb (sym_name s) name | None => false end.

Definition bucket (table : SymbolTable) (name : string) : list SymbolId :=
  nth (Z.to_nat (hashSymbolName name)) table [].

Definition lookupSymbol (st : SemState) (table : SymbolTable) (name : string) : option SymbolId :=
  snd <$> list_find (fun id => symbol_is_named st name id = true) (bucket table name).

(** [None]: the name is taken. *)
Definition insertSymbol (st : SemState) (table : SymbolTable) (sym : SymbolId) : option SymbolTable :=
  s ← ss_symbols st !! sym;
  match lookupSymbol st table (sym_name s) with
  | Some _ => None
  | None => Some (<[Z.to_nat (hashSymbolName (sym_name s)) := sym :: bucket table (sym_name s)]> table)
  end.

Definition addToScope (st : SemState) (scope : Scope) (sym : SymbolId) : option Scope :=
  match scope with
  | [] => None
  | f :: parent => t ← insertSymbol st (sc_table f) sym; Some (mkScopeFrame t (sc_tagTable f) :: parent)
  end.

Definition addTagToScope (st : SemState) (scope : Scope) (sym : SymbolId) : option Scope :=
  match scope with
  | [] => None
  | f :: parent => t ← insertSymbol st (sc_tagTable f) sym; Some (mkScopeFrame (sc_table f) t :: parent)
  end.

Section Chain.
Variables (st : SemState) (table : ScopeFrame -> SymbolTable).
Fixpoint resolve_chain (scope : Scope) (name : string) : option SymbolId :=
  match scope with
  | [] => None
  | f :: parent => match lookupSymbol st (table f) name with
                   | Some id => Some id
                   | None => resolve_chain parent name
                   end
  end.
End Chain.

Definition resolveInScopeChain (st : SemState) (scope : Scope) (name : string) : option SymbolId :=
  resolve_chain st sc_table scope name.

Definition resolveTagInScopeChain (st : SemState) (scope : Scope) (name : string) : option SymbolId :=
  resolve_chain st sc_tagTable scope name.

Definition resolved_symbol (st : SemState) (scope : Scope) (name : string) : option Symbol :=
  id ← resolveInScopeChain st scope name; ss_symbols st !! id.

(** ** Tables behave like maps *)

(** Every symbol stands in its bucket, once per name. *)
Record table_ok (st : SemState) (table : SymbolTable) : Prop := {
  to_size : length table = Z.to_nat SYMBOL_TABLE_SIZE;
  to_placed : forall i ids id, table !! i = Some ids -> id ∈ ids ->
    exists s, ss_symbols st !! id = Some s /\ i = Z.to_nat (hashSymbolName (sym_name s))
}.

Lemma hash_range (name : string) : (Z.to_nat (hashSymbolName name) < Z.to_nat SYMBOL_TABLE_SIZE)%nat.
Proof. unfold hashSymbolName, SYMBOL_TABLE_SIZE. pose proof (Z.mod_pos_bound (foldl hash_step 5381 (list_ascii_of_string name)) 128). lia. Qed.

Lemma init_table_ok (st : SemState) : table_ok st initSymbolTable.
Proof.
  split; [unfold initSymbolTable; by rewrite length_replicate|].
  intros i ids id [-> _]%lookup_replicate H. by apply not_elem_of_nil in H.
Qed.

Lemma bucket_insert (table : SymbolTable) (name name' : string) (ids : list SymbolId) :
  length table = Z.to_nat SYMBOL_TABLE_SIZE ->
  bucket (<[Z.to_nat (hashSymbolName name) := ids]> table) name' =
    if decide (hashSymbolName name = hashSymbolName name') then ids else bucket table name'.
Proof.
  intros Hl. unfold bucket, SymbolTable in *. rewrite !nth_lookup. case_decide as E.
  - rewrite <- E, list_lookup_insert_eq; [done|]. rewrite Hl. apply hash_range.
  - rewrite list_lookup_insert_ne; [done|]. unfold hashSymbolName, SYMBOL_TABLE_SIZE in *.
    pose proof (Z.mod_pos_bound (foldl hash_step 5381 (list_ascii_of_string name)) 128).
    pose proof (Z.mod_pos_bound (foldl hash_step 5381 (list_ascii_of_string name')) 128). lia.
Qed.

(** Inserting a new name makes exactly that name resolve to the symbol. *)
Lemma lookup_insert_symbol (st : SemState) (table table' : SymbolTable) (sym : SymbolId) (s : Symbol) (name : string) :
  table_ok st table -> ss_symbols st !! sym = Some s -> insertSymbol st table sym = Some table' ->
  table_ok st table' /\
  lookupSymbol st table' name = if decide (sym_name s = name) then Some sym else lookupSymbol st table name.
Proof.
  intros [Hl Hp] Hs Hi. unfold insertSymbol in Hi. rewrite Hs in Hi. cbn [mbind option_bind] in Hi.
  destruct (lookupSymbol st table (sym_name s)) eqn:Elook; [done|]. injection Hi as <-. split.
  - unfold SymbolTable in *. split; [by rewrite length_insert|]. intros i ids id [[Hi' [Hids Hlt]]|[Hne Hids]]%list_lookup_insert_Some Hid.
    + subst. apply elem_of_cons in Hid as [->|Hid]; [by exists s|].
      unfold bucket in Hid. rewrite nth_lookup in Hid. destruct (table !! _) as [ids|] eqn:E; [|by apply not_elem_of_nil in Hid].
      by apply (Hp _ _ _ E).
    + by apply (Hp _ _ _ Hids).
  - unfold lookupSymbol at 1. rewrite bucket_insert by done. case_decide as Eh.
    + assert (Hn : symbol_is_named st name sym = String.eqb (sym_name s) name) by (unfold symbol_is_named; by rewrite Hs).
      cbn [list_find]. case_decide as Ed; rewrite Hn in Ed.
      * by rewrite decide_True by by apply String.eqb_eq.
      * rewrite decide_False by by rewrite <- String.eqb_eq. unfold lookupSymbol, bucket. rewrite Eh.
        by destruct (list_find _ _) as [[]|].
    + rewrite decide_False; [done|]. by intros <-.
Qed.
