(* ===== verification/TypeChecker.v ===== *)
(** * Types in a scope: from parsed types to type information, type equality and assignment
    (src/Syntax/type_checker.c).

    The checker reads the semantic state [st] and never changes it but for the cache of a
    symbol's type.  A NULL scope is the empty one.  [None] stands for a call that does not
    return (a typedef that leads to itself, pointers that are missing among the derivations) or
    that reads an array behind its end. *)
From S2P Require Import Prelude StateError Tokens TargetLayout AST ParsedTypes TypeInfo Semantic.

Section Checker.
Context (host : Host) (st : SemState).

(** ** Type information *)

Definition target_layout (scope : Scope) : TargetLayout :=
  match scope with [] => tl_default host | _ => default (tl_default host) (ss_targetLayout st) end.

(** Whether the name is one of the 128-bit integers, and then whether it is unsigned. *)
Definition is_builtin_int128_name (name : option string) : option bool :=
  match name with
  | Some n => if String.eqb n "__int128_t" || String.eqb n "__int128" then Some false
              else if String.eqb n "__uint128_t" || String.eqb n "__uint128" then Some true else None
  | None => None
  end.

Definition join_qualifiers (p q : PointerQualifier) : PointerQualifier :=
  mkQualifier (isConst p || isConst q) (isVolatile p || isVolatile q) (isRestrict p || isRestrict q).

Definition applyQualifiers (i : TypeInfo) (t : ParsedType) : TypeInfo :=
  match ti_category i with
  | TYPEINFO_POINTER => i
  | _ => set_qualifiers i (join_qualifiers (ti_qualifiers i) (pt_qualifiers t))
  end.

(** The first typedef of the name; other symbols do not hide it. *)
Fixpoint resolve_typedef (scope : Scope) (name : string) : option ParsedType :=
  match scope with
  | [] => None
  | f :: parent =>
      match (id ← lookupSymbol st (sc_table f) name; ss_symbols st !! id) with
      | Some s => if decide (sym_kind s = SYMBOL_TYPEDEF) then Some (sym_type s) else resolve_typedef parent name
      | None => resolve_typedef parent name
      end
  end.

Definition resolveTypedef (t : ParsedType) (scope : Scope) : option ParsedType :=
  name ← pt_userTypeName t; resolve_typedef scope name.

Definition is_plain_named (t : ParsedType) : bool :=
  bool_decide (pt_kind t = TYPE_NAMED) && bool_decide (is_Some (pt_userTypeName t)) &&
  bool_decide (pt_derivations t = []) && (pt_pointerDepth t =? 0) && negb (pt_isFunctionPointer t).

Fixpoint resolve_plain (guard : nat) (t : ParsedType) (scope : Scope) : ParsedType * bool :=
  match guard with
  | S guard' =>
      if is_plain_named t then
        match resolveTypedef t scope with
        | None => (t, negb (bool_decide (pt_kind t = TYPE_INVALID)))
        | Some r =>
            if decide (pt_kind r = TYPE_INVALID) then (t, false)
            else resolve_plain guard' (parsedTypeClone r) scope
        end
      else (t, negb (bool_decide (pt_kind t = TYPE_INVALID)))
  | O => (t, negb (bool_decide (pt_kind t = TYPE_INVALID)))
  end.

(** The type behind at most 32 plain typedefs, and whether it is valid. *)
Definition parsedTypeResolvePlainNamedTypedefInScope (t : ParsedType) (scope : Scope) : ParsedType * bool :=
  match scope with [] => (t, false) | _ => resolve_plain 32 t scope end.

Definition primitive_info (t : ParsedType) (scope : Scope) : TypeInfo :=
  let m := pt_modifiers t in
  let signed := negb (isUnsigned m) in
  let float kind := set_imaginary (makeFloatTypeInfo (target_layout scope) kind (isComplex m || isImaginary m)) (isImaginary m) in
  match pt_primitiveType t with
  | TOKEN_BOOL => makeBoolType
  | TOKEN_COMPLEX => makeFloatTypeInfo (target_layout scope) FLOAT_KIND_DOUBLE true
  | TOKEN_IMAGINARY => set_imaginary (makeFloatTypeInfo (target_layout scope) FLOAT_KIND_DOUBLE true) true
  | TOKEN_CHAR => makeIntegerType 8 signed TOKEN_CHAR
  | TOKEN_SHORT => makeIntegerType 16 signed TOKEN_SHORT
  | TOKEN_INT | TOKEN_SIGNED | TOKEN_UNSIGNED =>
      if isShort m then makeIntegerType 16 signed TOKEN_SHORT
      else if isLong m then makeIntegerType checkerLongBits signed TOKEN_LONG
      else makeIntegerType defaultIntBits signed TOKEN_INT
  | TOKEN_LONG => makeIntegerType checkerLongBits signed TOKEN_LONG
  | TOKEN_FLOAT => float FLOAT_KIND_FLOAT
  | TOKEN_DOUBLE => float (if isLong m then FLOAT_KIND_LONG_DOUBLE else FLOAT_KIND_DOUBLE)
  | TOKEN_VOID =>
      mkTypeInfo TYPEINFO_VOID TOKEN_VOID 0 false no_qualifier false false false false false TAG_NONE None 0
        no_pointer_levels false false None None
  | _ => makeInvalidType
  end.

Definition enum_info (t : ParsedType) : TypeInfo :=
  mkTypeInfo TYPEINFO_ENUM TOKEN_INT defaultIntBits true no_qualifier false false false false false TAG_ENUM
    (pt_userTypeName t) 0 no_pointer_levels false true None None.

Definition record_info (t : ParsedType) (scope : Scope) (category : TypeInfoCategory) (tag : TagKind) (kind : CCTagKind)
    : TypeInfo :=
  let tagSym := name ← pt_userTypeName t; id ← resolveTagInScopeChain st scope name;
                s ← ss_symbols st !! id; sym_definition s in
  let defined := match scope, pt_userTypeName t with
                 | _ :: _, Some name => cc_tag_is_defined st kind name
                 | _, _ => false
                 end in
  let inline := pt_inlineStructOrUnionDef t in
  mkTypeInfo category TOKEN_INT 0 false no_qualifier false false false false false tag (pt_userTypeName t) 0
    no_pointer_levels false (bool_decide (is_Some inline) || defined) None
    (match inline with Some d => Some d | None => tagSym end).

Definition unknown_name_info (t : ParsedType) : TypeInfo :=
  mkTypeInfo TYPEINFO_INVALID TOKEN_INT 0 false no_qualifier false false false false false TAG_NONE (pt_userTypeName t)
    0 no_pointer_levels false false None None.

(** [rec]: the information of a typedef's type. *)
Definition typeInfoFromBaseKind (rec : ParsedType -> option TypeInfo) (t : ParsedType) (scope : Scope) : option TypeInfo :=
  match pt_kind t with
  | TYPE_PRIMITIVE => Some (primitive_info t scope)
  | TYPE_ENUM => Some (enum_info t)
  | TYPE_STRUCT => Some (record_info t scope TYPEINFO_STRUCT TAG_STRUCT CC_TAG_STRUCT)
  | TYPE_UNION => Some (record_info t scope TYPEINFO_UNION TAG_UNION CC_TAG_UNION)
  | TYPE_NAMED =>
      match is_builtin_int128_name (pt_userTypeName t) with
      | Some isUnsigned =>
          Some (applyQualifiers (makeIntegerType 128 (negb isUnsigned) (if isUnsigned then TOKEN_UNSIGNED else TOKEN_LONG)) t)
      | None =>
          match resolveTypedef t scope with
          | None => Some (unknown_name_info t)
          | Some resolved => base ← rec resolved; Some (applyQualifiers base t)
          end
      end
  | TYPE_INVALID => Some makeInvalidType
  end.

Definition propagateVLAFlag (i : TypeInfo) (t : ParsedType) : TypeInfo :=
  if pt_isVLA t || parsedTypeHasVLA (ss_nodes st) t then set_vla i true else i.

Definition pointer_levels (first : PointerQualifier) (copied : list PointerQualifier) : list PointerQualifier :=
  first :: copied ++ replicate (TYPEINFO_MAX_POINTER_DEPTH - 1 - length copied) no_qualifier.

Definition pointer_info (t : ParsedType) (q : PointerQualifier) (target : TypeInfo) : TypeInfo :=
  let depth := ti_pointerDepth target + 1 in
  let copied := take (Z.to_nat (Z.min depth 32 - 1)) (ti_pointerLevels target) in
  mkTypeInfo TYPEINFO_POINTER (ti_primitive target) (ti_bitWidth target) (ti_isSigned target) q false false
    (ti_isVLA target) (ti_isComplex target) (ti_isImaginary target) (ti_tag target) (ti_userTypeName target) depth
    (pointer_levels (ti_qualifiers target) copied) false true (Some t) (ti_recordDefinition target).

Definition array_info (t : ParsedType) (a : ParsedArrayInfo) (element : TypeInfo) : TypeInfo :=
  mkTypeInfo TYPEINFO_ARRAY (ti_primitive element) (ti_bitWidth element) (ti_isSigned element) (ti_qualifiers element)
    true (ti_isFunction element) (ti_isVLA element || isVLA a) (ti_isComplex element) (ti_isImaginary element)
    (ti_tag element) (ti_userTypeName element) (ti_pointerDepth element) (ti_pointerLevels element) true
    (ti_isComplete element && negb (isFlexible a)) (Some t) (ti_recordDefinition element).

Definition function_info (t : ParsedType) : TypeInfo :=
  mkTypeInfo TYPEINFO_FUNCTION TOKEN_INT 0 false no_qualifier false true false false false TAG_NONE None 0
    no_pointer_levels false false (Some t) None.

Fixpoint typeInfoFromDerivations (rec : ParsedType -> option TypeInfo) (t : ParsedType) (ds : list Derivation)
    (scope : Scope) : option TypeInfo :=
  match ds with
  | [] => base ← typeInfoFromBaseKind rec t scope; Some (set_original (applyQualifiers base t) (Some t))
  | TYPE_DERIVATION_POINTER q :: rest =>
      target ← typeInfoFromDerivations rec t rest scope; Some (pointer_info t q target)
  | TYPE_DERIVATION_ARRAY a :: rest =>
      element ← typeInfoFromDerivations rec t rest scope; Some (array_info t a element)
  | TYPE_DERIVATION_FUNCTION _ :: _ => Some (function_info t)
  end.

(** A type with a pointer depth and no derivations. *)
Definition bare_pointer_info (t : ParsedType) (base : TypeInfo) : TypeInfo :=
  mkTypeInfo TYPEINFO_POINTER (ti_primitive base) (or_default (ti_bitWidth base) defaultIntBits) (ti_isSigned base)
    no_qualifier false false false (ti_isComplex base) (ti_isImaginary base) (ti_tag base) (ti_userTypeName base)
    (pt_pointerDepth t) (pointer_levels (ti_qualifiers base) []) false true (Some t) (ti_recordDefinition base).

(** [rec] as in [typeInfoFromBaseKind]. *)
Definition type_info_step (rec : ParsedType -> option TypeInfo) (scope : Scope) (t : ParsedType) : option TypeInfo :=
  info ← match pt_derivations t with
         | _ :: _ => typeInfoFromDerivations rec t (pt_derivations t) scope
         | [] =>
             base ← typeInfoFromBaseKind rec t scope;
             Some (if 0 <? pt_pointerDepth t then bare_pointer_info t base
                   else match ti_originalType base with Some _ => base | None => set_original base (Some t) end)
         end;
  Some (propagateVLAFlag (applyQualifiers info t) t).

(** [fuel] bounds the typedefs that are followed. *)
Fixpoint type_info (fuel : nat) (scope : Scope) (t : ParsedType) : option TypeInfo :=
  match fuel with
  | O => None
  | S fuel' => type_info_step (type_info fuel' scope) scope t
  end.

(** No chain of typedefs that ends is longer than the number of symbols ([type_info_enough]). *)
Definition typeInfoFromParsedType (t : ParsedType) (scope : Scope) : option TypeInfo :=
  type_info (S (size (ss_symbols st))) scope t.

(** ** Equality *)

Definition canonicalUserTypeName (i : TypeInfo) : option string :=
  match ti_userTypeName i with
  | Some (String _ _ as n) => Some n
  | _ => match (t ← ti_originalType i; pt_userTypeName t) with Some (String _ _ as n) => Some n | _ => None end
  end.

(** The two definitions when both are known. *)
Definition known_definitions (a b : TypeInfo) : option (NodeId * NodeId) :=
  da ← ti_recordDefinition a; db ← ti_recordDefinition b; Some (da, db).

Definition pointerTargetsEqual (a b : TypeInfo) : bool :=
  let names := (canonicalUserTypeName a, canonicalUserTypeName b) in
  if negb (bool_decide (ti_tag a = ti_tag b)) then false
  else if negb (bool_decide (ti_tag a = TAG_NONE)) then
    match known_definitions a b with
    | Some (da, db) => bool_decide (da = db)
    | None => namesEqual names.1 names.2
    end
  else if negb (bool_decide (ti_primitive a = ti_primitive b)) then
    match names with (Some na, Some nb) => String.eqb na nb | _ => false end
  else true.

Definition parsedTypeIsPointerish (t : ParsedType) : bool := (0 <? pt_pointerDepth t) || existsb is_pointer (pt_derivations t).

(** Every round adds a pointer to the derivations and to the depth, so the loop ends at once or never. *)
Fixpoint append_missing (fuel : nat) (ptrCount : nat) (t : ParsedType) : option ParsedType :=
  match fuel with
  | O => None
  | S fuel' => if Z.of_nat ptrCount <? pt_pointerDepth t
               then append_missing fuel' (S ptrCount) (parsedTypeAppendPointer t) else Some t
  end.

Definition normalizePointerDerivations (t : ParsedType) : option ParsedType :=
  if pt_pointerDepth t <=? 0 then Some t
  else t' ← append_missing 1 (parsedTypeCountDerivationsOfKind t is_pointer) t;
       Some (parsedTypeNormalizeFunctionPointer t').

(** Structural equality of normalised copies. *)
Definition normalized_equal (more : ParsedType -> ParsedType) (l r : ParsedType) : option bool :=
  l' ← normalizePointerDerivations (parsedTypeClone l);
  r' ← normalizePointerDerivations (parsedTypeClone r);
  parsedTypesStructurallyEqual (more l') (more r').

Definition typesAreEqual (a b : TypeInfo) : option bool :=
  if typeInfoIsPointerLike a && typeInfoIsPointerLike b then
    if match known_definitions a b with Some (da, db) => negb (bool_decide (da = db)) | None => false end
    then Some false
    else
      equal ← match ti_originalType a, ti_originalType b with
              | Some ta, Some tb =>
                  if parsedTypeIsPointerish ta && parsedTypeIsPointerish tb then normalized_equal id ta tb else Some false
              | _, _ => Some false
              end;
      Some (equal || ((ti_pointerDepth a =? ti_pointerDepth b) && pointerTargetsEqual a b))
  else if negb (bool_decide (ti_category a = ti_category b)) then Some false
  else
    Some (match ti_category a with
          | TYPEINFO_INTEGER => (ti_bitWidth a =? ti_bitWidth b) && eqb (ti_isSigned a) (ti_isSigned b)
          | TYPEINFO_FLOAT => (ti_bitWidth a =? ti_bitWidth b) && eqb (ti_isComplex a) (ti_isComplex b) &&
                              eqb (ti_isImaginary a) (ti_isImaginary b)
          | TYPEINFO_STRUCT | TYPEINFO_UNION =>
              match known_definitions a b with
              | Some (da, db) => bool_decide (da = db)
              | None => bool_decide (ti_tag a = ti_tag b) && namesEqual (canonicalUserTypeName a) (canonicalUserTypeName b)
              end
          | TYPEINFO_ENUM => namesEqual (canonicalUserTypeName a) (canonicalUserTypeName b)
          | TYPEINFO_VOID | TYPEINFO_FUNCTION => true
          | _ => false
          end).

(** ** Function types *)

Definition findFunctionDerivation (t : ParsedType) : option (ParsedFunctionSignature ParsedType) :=
  findFirstFunctionDerivation t.

Definition parsedTypeIsPlainVoidType (t : ParsedType) : bool :=
  bool_decide (pt_kind t = TYPE_PRIMITIVE) && bool_decide (pt_primitiveType t = TOKEN_VOID) &&
  (pt_pointerDepth t =? 0) && bool_decide (pt_derivations t = []).

(** [forallb] for a test that may not return. *)
Fixpoint forall_opt {A} (f : A -> option bool) (l : list A) : option bool :=
  match l with
  | [] => Some true
  | x :: rest => b ← f x; if (b : bool) then forall_opt f rest else Some false
  end.

Definition functionPrototypeParamsSurviveDefaultPromotions (fn : ParsedFunctionSignature ParsedType) (scope : Scope)
    : option bool :=
  if isVariadic fn then Some false
  else
    forall_opt (fun p => declared ← typeInfoFromParsedType p scope;
                         typesAreEqual declared (defaultArgumentPromotion host declared)) (params fn).

(** [(void)] is an empty parameter list. *)
Definition normalizeFunctionDerivationParams (t : ParsedType) : ParsedType :=
  with_derivations t
    (map (fun d => match d with
                   | TYPE_DERIVATION_FUNCTION (mkFunctionSignature proto false [p]) =>
                       if parsedTypeIsPlainVoidType p then TYPE_DERIVATION_FUNCTION (mkFunctionSignature proto false []) else d
                   | _ => d
                   end) (pt_derivations t)).

Definition with_array_vla (a : ParsedArrayInfo) (vla : bool) : ParsedArrayInfo :=
  mkArrayInfo (sizeExpr a) vla (hasConstantSize a) (constantSize a) (isFlexible a) (hasStatic a) (arrayQualifiers a).

Definition normalizeArrayDerivationCompat (t : ParsedType) : ParsedType :=
  with_derivations t
    (map (fun d => match d with TYPE_DERIVATION_ARRAY a => TYPE_DERIVATION_ARRAY (with_array_vla a false) | _ => d end)
       (pt_derivations t)).

Definition parsedTypesEqualForFunctionCompat (l r : ParsedType) : option bool :=
  normalized_equal (fun t => normalizeArrayDerivationCompat (normalizeFunctionDerivationParams t)) l r.

Definition adjusted_parameter (scope : Scope) (t : ParsedType) : ParsedType :=
  (parsedTypeAdjustFunctionParameter (ss_nodes st)
     (parsedTypeResolvePlainNamedTypedefInScope (parsedTypeClone t) scope).1).1.

Definition parsedFunctionParametersEqualForCompat (l r : ParsedType) (scope : Scope) : option bool :=
  parsedTypesEqualForFunctionCompat (adjusted_parameter scope l) (adjusted_parameter scope r).

Definition typeInfoIsFunctionPointer (i : TypeInfo) : bool :=
  match ti_originalType i with
  | None => false
  | Some t =>
      if pt_isFunctionPointer t then true
      else if ti_pointerDepth i <=? 0 then false
      else bool_decide (is_Some (findFunctionDerivation (parsedTypePointerTargetType t)))
  end.

Definition parsedTypesHaveDistinctRecordDefinitionsShallow (l r : ParsedType) (scope : Scope) : option bool :=
  li ← typeInfoFromParsedType l scope;
  ri ← typeInfoFromParsedType r scope;
  Some (match known_definitions li ri with Some (dl, dr) => negb (bool_decide (dl = dr)) | None => false end).

(** Whether some pair of the two lists satisfies [f]. *)
Fixpoint exists_pair (f : ParsedType -> ParsedType -> option bool) (l r : list ParsedType) : option bool :=
  match l, r with
  | x :: l', y :: r' => b ← f x y; if (b : bool) then Some true else exists_pair f l' r'
  | _, _ => Some false
  end.

(** [budget]: 33 less the depth. *)
Fixpoint distinct_records (budget : nat) (l r : ParsedType) (scope : Scope) : option bool :=
  match budget with
  | O => Some false
  | S budget' =>
      shallow ← parsedTypesHaveDistinctRecordDefinitionsShallow l r scope;
      if (shallow : bool) then Some true
      else
        match parsedTypeGetEffectiveFunctionPointerSignature l, parsedTypeGetEffectiveFunctionPointerSignature r with
        | Some (lps, _, _), Some (rps, _, _) =>
            let lr := parsedTypeFunctionReturnType l in
            let rr := parsedTypeFunctionReturnType r in
            conflict ← (if bool_decide (pt_kind lr = TYPE_INVALID) || bool_decide (pt_kind rr = TYPE_INVALID)
                        then Some false else distinct_records budget' lr rr scope);
            if (conflict : bool) then Some true
            else exists_pair (fun p q => distinct_records budget' p q scope) lps rps
        | _, _ => Some false
        end
  end.

Definition parsedTypesHaveDistinctRecordDefinitions (l r : ParsedType) (scope : Scope) : option bool :=
  distinct_records 33 l r scope.

(** [first] or, in a scope, the comparison of the types' information; [rec] for function pointers. *)
Definition types_compatible (rec : ParsedType -> ParsedType -> option bool)
    (equal : ParsedType -> ParsedType -> option bool) (scope : Scope) (d s : ParsedType) : option bool :=
  distinct ← parsedTypesHaveDistinctRecordDefinitions d s scope;
  same ← (if (distinct : bool) then Some false else equal d s);
  if (same : bool) then Some true
  else match scope with
       | [] => Some false
       | _ =>
           di ← typeInfoFromParsedType d scope;
           si ← typeInfoFromParsedType s scope;
           if typeInfoIsFunctionPointer di && typeInfoIsFunctionPointer si then
             match ti_originalType di, ti_originalType si with
             | Some dt, Some st => rec dt st
             | _, _ => Some true
             end
           else typesAreEqual di si
       end.

Definition prototypes_compatible (rec : ParsedType -> ParsedType -> option bool) (scope : Scope)
    (destFn srcFn : ParsedFunctionSignature ParsedType) : option bool :=
  if negb (eqb (hasPrototype destFn) (hasPrototype srcFn))
  then functionPrototypeParamsSurviveDefaultPromotions (if hasPrototype destFn then destFn else srcFn) scope
  else if negb (hasPrototype destFn) then Some true
  else if negb (eqb (isVariadic destFn) (isVariadic srcFn)) then Some false
  else if negb (bool_decide (length (params destFn) = length (params srcFn))) then Some false
  else equal_prefix (types_compatible rec (fun d s => parsedFunctionParametersEqualForCompat d s scope) scope)
         (params destFn) (params srcFn).

(** [fuel] bounds the function pointers in return and parameter types. *)
Fixpoint function_targets_compatible (fuel : nat) (scope : Scope) (destType srcType : ParsedType) : option bool :=
  match fuel with
  | O => None
  | S fuel' =>
      let rec := function_targets_compatible fuel' scope in
      destNorm ← normalizePointerDerivations (parsedTypeClone destType);
      srcNorm ← normalizePointerDerivations (parsedTypeClone srcType);
      let destTarget := parsedTypePointerTargetType destNorm in
      let srcTarget := parsedTypePointerTargetType srcNorm in
      match findFunctionDerivation destTarget, findFunctionDerivation srcTarget with
      | Some destFn, Some srcFn =>
          ret ← types_compatible rec parsedTypesEqualForFunctionCompat scope
                  (parsedTypeFunctionReturnType destTarget) (parsedTypeFunctionReturnType srcTarget);
          if (ret : bool) then prototypes_compatible rec scope destFn srcFn else Some false
      | _, _ => Some true
      end
  end.

(** ** Assignment *)

Definition typeInfoIsVoidPointer (i : TypeInfo) : bool :=
  bool_decide (ti_category i = TYPEINFO_POINTER) && (ti_pointerDepth i =? 1) &&
  (match ti_originalType i with
   | Some t => let target := parsedTypePointerTargetType t in
               bool_decide (pt_kind target = TYPE_PRIMITIVE) && bool_decide (pt_primitiveType target = TOKEN_VOID)
   | None => false
   end || bool_decide (ti_primitive i = TOKEN_VOID)).

(** The qualifiers of all the pointers of a type; the C code has room for 32. *)
Definition collectPointerDerivations (t : ParsedType) : list PointerQualifier :=
  omap (fun d => match d with TYPE_DERIVATION_POINTER q => Some q | _ => None end) (pt_derivations t).

Definition clearParsedTypeQualifiers (t : ParsedType) : ParsedType :=
  let t := with_derivations t
    (map (fun d => match d with
                   | TYPE_DERIVATION_POINTER _ => plain_pointer
                   | TYPE_DERIVATION_ARRAY a =>
                       TYPE_DERIVATION_ARRAY (with_array_vla a
                         (isVLA a || (negb (hasConstantSize a) && bool_decide (is_Some (sizeExpr a)) && negb (isFlexible a))))
                   | TYPE_DERIVATION_FUNCTION _ => d
                   end) (pt_derivations t)) in
  mkParsedType (pt_kind t) (pt_tag t) (pt_inlineStructOrUnionDef t) (pt_inlineEnumDef t) (pt_isFunctionPointer t)
    (pt_fpParams t) (pt_primitiveType t) (pt_userTypeName t) (pt_modifiers t) no_qualifier (pt_storage t)
    (pt_pointerDepth t) (pt_isVLA t) (pt_directlyDeclaresFunction t) (pt_isVariadicFunction t) (pt_derivations t)
    (pt_attributes t) (pt_alignOverride t) (pt_hasAlignOverride t) (pt_paramArrayInfo t).

Definition parsedTypesEqualIgnoringQualifiers (l r : option ParsedType) : option bool :=
  match l, r with
  | Some l, Some r => normalized_equal clearParsedTypeQualifiers l r
  | _, _ => Some false
  end.

Definition enumPointerTargetsShareDefinitionInScope (l r : TypeInfo) (scope : Scope) : bool :=
  match scope, ti_originalType l, ti_originalType r with
  | _ :: _, Some lt, Some rt =>
      if (ti_pointerDepth l =? 1) && (ti_pointerDepth r =? 1) then
        let target t := (parsedTypeResolvePlainNamedTypedefInScope (parsedTypePointerTargetType t) scope).1 in
        bool_decide (pt_kind (target lt) = TYPE_ENUM) && bool_decide (pt_kind (target rt) = TYPE_ENUM) &&
        match pt_inlineEnumDef (target lt), pt_inlineEnumDef (target rt) with
        | Some dl, Some dr => bool_decide (dl = dr)
        | _, _ => false
        end
      else false
  | _, _, _ => false
  end.

(** Whether assigning drops a qualifier of [s]. *)
Definition loses (s d : PointerQualifier) : bool :=
  (isConst s && negb (isConst d)) || (isVolatile s && negb (isVolatile d)) || (isRestrict s && negb (isRestrict d)).

(** The levels behind the first one; [None] behind the 32 that are kept. *)
Fixpoint nested_loss (room : nat) (dest src : list PointerQualifier) : option bool :=
  match dest, src with
  | d :: dest', s :: src' =>
      match room with
      | O => None
      | S room' => if loses s d then Some true else nested_loss room' dest' src'
      end
  | _, _ => Some false
  end.

Definition functionPointerQualifierLoss (destType srcType : option ParsedType) : option bool :=
  match destType, srcType with
  | Some d, Some s =>
      nested_loss (TYPEINFO_MAX_POINTER_DEPTH - 1) (tail (collectPointerDerivations d)) (tail (collectPointerDerivations s))
  | _, _ => Some false
  end.

Inductive AssignmentCheckResult : Set := ASSIGN_OK | ASSIGN_INCOMPATIBLE | ASSIGN_QUALIFIER_LOSS.

Definition first_level (i : TypeInfo) : PointerQualifier :=
  if 0 <? ti_pointerDepth i then default no_qualifier (head (ti_pointerLevels i)) else no_qualifier.

(** Some level of the pointers loses a qualifier. *)
Definition level_loss (dest src : TypeInfo) : bool :=
  let limit := Z.to_nat (Z.min (ti_pointerDepth dest) 32) in
  existsb (fun p => loses p.1 p.2) (combine (take limit (ti_pointerLevels src)) (take limit (ti_pointerLevels dest))).

Section Assign.
(** Enough for the function pointers in the types that are compared. *)
Context (fuel : nat).

Definition functionPointerTargetsCompatible (scope : Scope) (destType srcType : option ParsedType) : option bool :=
  match destType, srcType with
  | Some d, Some s => function_targets_compatible fuel scope d s
  | _, _ => Some true
  end.

Definition assign_pointers (dest src : TypeInfo) (scope : Scope) : option AssignmentCheckResult :=
  if (typeInfoIsVoidPointer dest && negb (typeInfoIsFunctionPointer src)) ||
     (typeInfoIsVoidPointer src && negb (typeInfoIsFunctionPointer dest))
  then Some (if loses (first_level src) (first_level dest) then ASSIGN_QUALIFIER_LOSS else ASSIGN_OK)
  else if negb (ti_pointerDepth dest =? ti_pointerDepth src) then Some ASSIGN_INCOMPATIBLE
  else
    nested ← functionPointerQualifierLoss (ti_originalType dest) (ti_originalType src);
    if (nested : bool) then Some ASSIGN_QUALIFIER_LOSS
    else if level_loss dest src then Some ASSIGN_QUALIFIER_LOSS
    else if typeInfoIsFunctionPointer dest && typeInfoIsFunctionPointer src then
      ok ← functionPointerTargetsCompatible scope (ti_originalType dest) (ti_originalType src);
      Some (if (ok : bool) then ASSIGN_OK else ASSIGN_INCOMPATIBLE)
    else if negb (bool_decide (ti_tag dest = TAG_NONE)) && negb (bool_decide (ti_tag src = TAG_NONE)) &&
            match known_definitions dest src with Some (dd, ds) => negb (bool_decide (dd = ds)) | None => false end
         then Some ASSIGN_INCOMPATIBLE
    else if enumPointerTargetsShareDefinitionInScope dest src scope then Some ASSIGN_OK
    else
      same ← parsedTypesEqualIgnoringQualifiers (ti_originalType dest) (ti_originalType src);
      if (same : bool) then Some ASSIGN_OK
      else equal ← typesAreEqual dest src; Some (if (equal : bool) then ASSIGN_OK else ASSIGN_INCOMPATIBLE).

Definition canAssignTypesInScope (dest src : TypeInfo) (scope : Scope) : option AssignmentCheckResult :=
  if bool_decide (ti_category dest = TYPEINFO_INTEGER) && bool_decide (ti_primitive dest = TOKEN_BOOL) &&
     (ti_pointerDepth dest =? 0) && negb (ti_isArray dest) && (typeInfoIsArithmetic src || typeInfoIsPointerLike src)
  then Some ASSIGN_OK
  else if typeInfoIsPointerLike dest && typeInfoIsPointerLike src then assign_pointers dest src scope
  else if typeInfoIsArithmetic dest && typeInfoIsArithmetic src then Some ASSIGN_OK
  else if bool_decide (ti_category dest = ti_category src) then
    match ti_category dest with
    | TYPEINFO_STRUCT | TYPEINFO_UNION | TYPEINFO_ENUM =>
        equal ← typesAreEqual dest src; Some (if (equal : bool) then ASSIGN_OK else ASSIGN_INCOMPATIBLE)
    | _ => Some ASSIGN_OK
    end
  else Some ASSIGN_INCOMPATIBLE.

Definition canAssignTypes (dest src : TypeInfo) : option AssignmentCheckResult := canAssignTypesInScope dest src [].

End Assign.

(** ** The fuel of [typeInfoFromParsedType] is enough *)

(** Either no typedef is followed, or exactly one is. *)
Definition follows (step : (ParsedType -> option TypeInfo) -> option TypeInfo) : Prop :=
  (exists i, forall rec, step rec = Some i) \/
  (exists id s (g : TypeInfo -> TypeInfo), ss_symbols st !! id = Some s /\ forall rec, step rec = i ← rec (sym_type s); Some (g i)).

Lemma follows_map (step : (ParsedType -> option TypeInfo) -> option TypeInfo) (f : TypeInfo -> TypeInfo) :
  follows step -> follows (fun rec => i ← step rec; Some (f i)).
Proof.
  intros [[i H]|(id & s & g & Hs & H)].
  - left. exists (f i). intros rec. by rewrite H.
  - right. exists id, s, (fun i => f (g i)). split; [done|]. intros rec. rewrite H. by destruct (rec (sym_type s)).
Qed.

Lemma resolve_typedef_symbol (scope : Scope) (name : string) (t : ParsedType) :
  resolve_typedef scope name = Some t -> exists id s, ss_symbols st !! id = Some s /\ t = sym_type s.
Proof.
  induction scope as [|f parent IH]; [done|]. cbn [resolve_typedef].
  destruct (lookupSymbol st (sc_table f) name) as [id|]; cbn [mbind option_bind]; [|done].
  destruct (ss_symbols st !! id) as [s|] eqn:Es; [|done]. case_decide; [|done]. intros [= <-]. by exists id, s.
Qed.

Lemma base_kind_follows (t : ParsedType) (scope : Scope) : follows (fun rec => typeInfoFromBaseKind rec t scope).
Proof.
  unfold typeInfoFromBaseKind. destruct (pt_kind t); try (left; by eexists).
  destruct (is_builtin_int128_name _); [left; by eexists|].
  destruct (resolveTypedef t scope) as [r|] eqn:Er; [|left; by eexists].
  unfold resolveTypedef in Er. destruct (pt_userTypeName t) as [name|]; [|done].
  destruct (resolve_typedef_symbol scope name r Er) as (id & s & Hs & ->).
  right. by exists id, s, (fun base => applyQualifiers base t).
Qed.

Lemma derivations_follow (t : ParsedType) (ds : list Derivation) (scope : Scope) :
  follows (fun rec => typeInfoFromDerivations rec t ds scope).
Proof.
  induction ds as [|[q|a|f] rest IH]; cbn [typeInfoFromDerivations].
  - apply (follows_map _ (fun base => set_original (applyQualifiers base t) (Some t))), base_kind_follows.
  - by apply (follows_map _ (pointer_info t q)).
  - by apply (follows_map _ (array_info t a)).
  - left. by eexists.
Qed.

Lemma step_follows (t : ParsedType) (scope : Scope) : follows (fun rec => type_info_step rec scope t).
Proof.
  unfold type_info_step. apply (follows_map _ (fun info => propagateVLAFlag (applyQualifiers info t) t)).
  destruct (pt_derivations t) as [|d ds]; [|apply derivations_follow].
  apply (follows_map _ (fun base => if 0 <? pt_pointerDepth t then bare_pointer_info t base
           else match ti_originalType base with Some _ => base | None => set_original base (Some t) end)), base_kind_follows.
Qed.

Lemma type_info_more (fuel fuel' : nat) (scope : Scope) (t : ParsedType) (i : TypeInfo) :
  type_info fuel scope t = Some i -> (fuel <= fuel')%nat -> type_info fuel' scope t = Some i.
Proof.
  revert fuel' t i. induction fuel as [|fuel IH]; intros fuel' t i; [done|].
  destruct fuel' as [|fuel']; [lia|]. cbn [type_info]. intros H Hle.
  destruct (step_follows t scope) as [[j Hj]|(id & s & g & Hs & Hg)].
  - rewrite Hj in H |- *. done.
  - rewrite Hg in H |- *. destruct (type_info fuel scope (sym_type s)) as [k|] eqn:Ek; [|done].
    rewrite (IH fuel' _ _ Ek) by lia. done.
Qed.

(** The least fuel is [S n]. *)
Definition least_fuel (scope : Scope) (t : ParsedType) (n : nat) : Prop :=
  type_info n scope t = None /\ is_Some (type_info (S n) scope t).

Lemma least_fuel_exists (scope : Scope) (t : ParsedType) (fuel : nat) :
  is_Some (type_info fuel scope t) -> exists n, least_fuel scope t n.
Proof.
  induction fuel as [|fuel IH]; [by intros []|]. intros H.
  destruct (type_info fuel scope t) eqn:E; [by apply IH|]. by exists fuel.
Qed.

Lemma least_fuel_unique (scope : Scope) (t : ParsedType) (n m : nat) :
  least_fuel scope t n -> least_fuel scope t m -> n = m.
Proof.
  intros [Hn [i Hi]] [Hm [j Hj]]. destruct (Nat.lt_trichotomy n m) as [H|[H|H]]; [|done|].
  - by rewrite (type_info_more _ m _ _ _ Hi) in Hm by lia.
  - by rewrite (type_info_more _ n _ _ _ Hj) in Hn by lia.
Qed.

(** The symbols whose types are followed are all different. *)
Lemma followed_symbols (scope : Scope) (t : ParsedType) (n : nat) :
  least_fuel scope t n -> exists ids : list SymbolId, length ids = n /\ NoDup ids /\
    Forall (fun id => exists s k, ss_symbols st !! id = Some s /\ (k < n)%nat /\ least_fuel scope (sym_type s) k) ids.
Proof.
  revert t. induction n as [|n IH]; intros t [Hnone Hsome].
  { exists []. split_and!; constructor. }
  change (type_info (S n) scope t) with (type_info_step (type_info n scope) scope t) in Hnone.
  change (type_info (S (S n)) scope t) with (type_info_step (type_info (S n) scope) scope t) in Hsome.
  destruct (step_follows t scope) as [[j Hj]|(id & s & g & Hs & Hg)]; [by rewrite Hj in Hnone|].
  rewrite Hg in Hnone, Hsome.
  assert (Hl : least_fuel scope (sym_type s) n).
  { split; [by destruct (type_info n scope (sym_type s))|].
    destruct (type_info (S n) scope (sym_type s)); [done|by destruct Hsome]. }
  destruct (IH _ Hl) as (ids & Hlen & Hnd & Hall). exists (id :: ids). rewrite Forall_forall in Hall. split_and!.
  - cbn. by rewrite Hlen.
  - constructor; [|done]. intros Hin. destruct (Hall id Hin) as (s' & k & Hs' & Hk & Hlk).
    rewrite Hs in Hs'. injection Hs' as <-. pose proof (least_fuel_unique _ _ _ _ Hl Hlk). lia.
  - constructor; [by exists s, n; split_and!; [|lia|]|]. rewrite Forall_forall. intros id' Hin.
    destruct (Hall id' Hin) as (s' & k & ? & ? & ?). exists s', k. split_and!; [done|lia|done].
Qed.

(** If any fuel gives the information of a type, the fuel of [typeInfoFromParsedType] does. *)
Lemma type_info_enough (fuel : nat) (scope : Scope) (t : ParsedType) (i : TypeInfo) :
  type_info fuel scope t = Some i -> typeInfoFromParsedType t scope = Some i.
Proof.
  intros Hi. destruct (least_fuel_exists scope t fuel) as [n Hn]; [by exists i|].
  destruct (followed_symbols scope t n Hn) as (ids & Hlen & Hnd & Hall).
  assert (n <= size (ss_symbols st))%nat as Hle.
  { rewrite <- size_dom, <- Hlen, <- (size_list_to_set (C := gset nat) ids) by done. apply subseteq_size.
    intros id. rewrite elem_of_list_to_set, elem_of_dom. intros Hin. rewrite Forall_forall in Hall.
    destruct (Hall id Hin) as (s & k & Hs & _). by exists s. }
  destruct Hn as [_ [j Hj]]. unfold typeInfoFromParsedType. rewrite (type_info_more _ (S (size (ss_symbols st))) _ _ _ Hj) by lia.
  destruct (Nat.le_ge_cases fuel (S n)) as [H|H].
  - by rewrite (type_info_more _ (S n) _ _ _ Hi) in Hj by done.
  - by rewrite (type_info_more _ fuel _ _ _ Hj) in Hi by done.
Qed.

(** The loop of [normalizePointerDerivations] does not end when it is entered. *)
Lemma append_missing_diverges (fuel ptrCount : nat) (t : ParsedType) :
  Z.of_nat ptrCount < pt_pointerDepth t -> append_missing fuel ptrCount t = None.
Proof.
  revert ptrCount t. induction fuel as [|fuel IH]; intros c t H; [done|]. cbn [append_missing].
  destruct (Z.ltb_spec (Z.of_nat c) (pt_pointerDepth t)); [|lia]. apply IH. cbn. lia.
Qed.

End Checker.

(** ** The cached type of a symbol *)

Section Cache.
Context (host : Host).

Definition set_symbol_cache (id : SymbolId) (info : option TypeInfo) : SM unit :=
  modify (fun st => with_symbols st (alter (fun s => set_cached s info) id (ss_symbols st))).

Definition invalidateSymbolTypeInfoCache (id : SymbolId) : SM unit := set_symbol_cache id None.

Definition primeSymbolTypeInfoCache (id : SymbolId) (scope : Scope) : SM unit :=
  let* st := get in
  match ss_symbols st !! id with
  | None => ret tt
  | Some s =>
      let* computed := lift (typeInfoFromParsedType host st (sym_type s) scope) in
      set_symbol_cache id (Some computed)
  end.

Definition typeInfoFromSymbolCached (id : SymbolId) (scope : Scope) : SM TypeInfo :=
  let* st := get in
  match ss_symbols st !! id with
  | None => ret makeInvalidType
  | Some s =>
      match sym_cachedTypeInfo s with
      | Some info => ret info
      | None =>
          let* _ := primeSymbolTypeInfoCache id scope in
          let* st := get in
          ret (default makeInvalidType (s ← ss_symbols st !! id; sym_cachedTypeInfo s))
      end
  end.

End Cache.

(** ** Examples *)

Definition primitive_type (prim : TokenType) (m : TypeModifiers) : ParsedType :=
  mkParsedType TYPE_PRIMITIVE TAG_NONE None None false [] prim None m no_qualifier no_storage 0 false false false [] [] 0
    false None.

Definition named_type (name : string) : ParsedType :=
  mkParsedType TYPE_NAMED TAG_NONE None None false [] TOKEN_INT (Some name) no_modifiers no_qualifier no_storage 0 false
    false false [] [] 0 false None.

Definition int_type : ParsedType := primitive_type TOKEN_INT no_modifiers.
Definition pointer_to (t : ParsedType) : ParsedType := parsedTypeAppendPointer t.
Fixpoint pointers_to (n : nat) (t : ParsedType) : ParsedType :=
  match n with O => t | S n' => pointer_to (pointers_to n' t) end.

Definition empty_state (tl : TargetLayout) : SemState := mkSemState ∅ ∅ [] [] [] (Some tl) [].

Definition declare (kind : SymbolKind) (name : string) (t : ParsedType) (value : option Z) (id : SymbolId)
    (c : SemState * Scope) : SemState * Scope :=
  let st := with_symbols c.1 (<[id := mkSymbol name kind t None value None (mkFunctionSignature false false []) None None]> (ss_symbols c.1)) in
  (st, default c.2 (addToScope st c.2 id)).

(** [typedef int T; { typedef T T; ... }]: the inner name is looked up in its own scope, for ever. *)
Definition typedef_shadow : SemState * Scope :=
  let '(st, outer) := declare SYMBOL_TYPEDEF "T" int_type None 0%nat (empty_state layout_lp64_fp80, createScope []) in
  declare SYMBOL_TYPEDEF "T" (named_type "T") None 1%nat (st, createScope outer).

Example typedef_of_itself_loops :
  typeInfoFromParsedType HostOther typedef_shadow.1 (named_type "T") typedef_shadow.2 = None.
Proof. reflexivity. Qed.

(** [long] has 64 bits for the checker, 32 for a Windows target. *)
Example long_is_not_of_the_target :
  option_map ti_bitWidth (typeInfoFromParsedType HostOther (empty_state layout_llp64_fp64)
    (primitive_type TOKEN_LONG no_modifiers) (createScope [])) = Some 64 /\ longBits layout_llp64_fp64 = 32.
Proof. by split. Qed.

(** Two types with 34 pointers each: the arrays of [functionPointerQualifierLoss] have 32 entries. *)
Example many_pointers_overread :
  functionPointerQualifierLoss (Some (pointers_to 34 int_type)) (Some (pointers_to 34 int_type)) = None.
Proof. reflexivity. Qed.

(** A [const int *] is not assigned to an [int *]. *)
Example qualifier_is_kept :
  (s ← typeInfoFromParsedType HostOther (empty_state layout_lp64_fp80)
         (pointer_to (mkParsedType TYPE_PRIMITIVE TAG_NONE None None false [] TOKEN_INT None no_modifiers
            (mkQualifier true false false) no_storage 0 false false false [] [] 0 false None)) (createScope []);
   d ← typeInfoFromParsedType HostOther (empty_state layout_lp64_fp80) (pointer_to int_type) (createScope []);
   canAssignTypesInScope HostOther (empty_state layout_lp64_fp80) 1%nat d s (createScope [])) = Some ASSIGN_QUALIFIER_LOSS.
Proof. reflexivity. Qed.
