(* ===== verification/RecordLayout.v ===== *)
(** * Sizes, alignments and the layout of records (src/Syntax/layout.c).

    The functions of layout.c call each other through the types of members and elements, and
    constant evaluation through array sizes and bit-field widths: the two calls that go back
    up are the parameters [size_align_rec] and [const_eval]; ConstEval.v ties the knot.  The
    scope is the same in all of these calls.  [size_t] is [u64]. *)
From S2P Require Import Prelude CType StateError Tokens TargetLayout AST ParsedTypes TypeInfo Semantic TypeChecker.

Definition round_up (value align : Z) : Z :=
  if align =? 0 then value
  else let r := value `mod` align in if r =? 0 then value else u64 (value + (align - r)).

(** ** Attributes *)

(** What follows the first [needle] in [text], with it. *)
Definition from_substring (text needle : string) : option (list ascii) :=
  i ← String.index 0 needle text; Some (drop i (list_ascii_of_string text)).

(** [strtol (s, &end, 10)]: [None] when [end = s]. *)
Definition strtol10 (s : list ascii) : option Z :=
  let body := (span is_space s).2 in
  let negative := at_index body 0 =c "-"%char in
  let body := if negative || (at_index body 0 =c "+"%char) then tail body else body in
  match (span is_digit body).1 with
  | [] => None
  | ds => let v := digits_value 10 ds in Some (if negative then Z.max (- 2 ^ 63) (- v) else Z.min (2 ^ 63 - 1) v)
  end.

(** The number of [aligned(n)]. *)
Definition aligned_value (text : string) : option Z :=
  rest ← from_substring text "aligned";
  match (span (fun c => negb (c =c "("%char)) rest).2 with
  | [] => None
  | _ :: args => strtol10 (span is_space args).2
  end.

Definition collect_attribute (acc : bool * Z) (attr : ASTAttribute) : bool * Z :=
  match attr_payload attr with
  | None => acc
  | Some text =>
      (acc.1 || has_substring text "packed",
       match aligned_value text with
       | Some v => if (0 <? v) && (acc.2 <? v) then v else acc.2
       | None => acc.2
       end)
  end.

(** [packed] and [alignOverride] after the attributes. *)
Definition collectAttrLayout (attrs : list ASTAttribute) (packed : bool) : bool * Z :=
  foldl collect_attribute (packed, 0) attrs.

Definition isFlexibleArrayType (t : ParsedType) : bool :=
  match last (pt_derivations t) with Some (TYPE_DERIVATION_ARRAY a) => isFlexible a | _ => false end.

Definition sizeAlignFromBits (tl : TargetLayout) (bits suggestedAlign : Z) : Z * Z :=
  let bytes := (bits + 7) `div` 8 in
  let bytes := if bytes =? 0 then 1 else bytes in
  (bytes,
   if negb (suggestedAlign =? 0) then suggestedAlign
   else if bits <=? charBits tl then charAlign tl
   else if bits <=? shortBits tl then shortAlign tl
   else if bits <=? intBits tl then intAlign tl
   else if bits <=? longBits tl then longAlign tl
   else longLongAlign tl).

(** An alignment behind [packed] and [aligned(n)]. *)
Definition attributed_align (packed : bool) (override align : Z) : Z :=
  let align := if packed then 1 else align in
  if (0 <? override) && (align <? override) then override else align.

(** ** Placing the members of a struct *)

Record LayoutState := mkLayoutState {
  ls_offset : Z;
  ls_maxAlign : Z;
  ls_bitOffset : Z;
  ls_unitSize : Z;
  ls_layouts : list CCTagFieldLayout
}.

(** The storage unit of a bit-field: bits, alignment, bytes. *)
Record BitUnit := mkBitUnit { bu_bits : Z; bu_align : Z; bu_bytes : Z }.

Definition bit_unit (tl : option TargetLayout) (fieldSize fieldAlign : Z) (packed : bool) (override : Z) : BitUnit :=
  let bits := u64 (fieldSize * 8) in
  let bits := match tl with
              | Some tl => if (0 <? bitfieldUnitBits tl) && (bits <? bitfieldUnitBits tl) then bitfieldUnitBits tl else bits
              | None => bits
              end in
  let align := match tl with
               | Some tl => if (0 <? bitfieldUnitAlign tl) && (fieldAlign <? bitfieldUnitAlign tl) then bitfieldUnitAlign tl
                            else fieldAlign
               | None => fieldAlign
               end in
  let align := attributed_align packed override align in
  let bytes := u64 (bits + 7) `div` 8 in
  mkBitUnit bits (if align =? 0 then 1 else align) (if bytes =? 0 then 1 else bytes).

(** The unit that is being filled is closed. *)
Definition flush (ls : LayoutState) : LayoutState :=
  if 0 <? ls_bitOffset ls
  then mkLayoutState (u64 (ls_offset ls + ls_unitSize ls)) (ls_maxAlign ls) 0 0 (ls_layouts ls)
  else ls.

Definition big_endian (tl : option TargetLayout) : bool :=
  match tl with Some tl => bool_decide (endianness tl = TL_ENDIAN_BIG) | None => false end.

(** [None]: the field does not fit its unit. *)
Definition place_bitfield (tl : option TargetLayout) (unit : BitUnit) (widthVal : Z) (name : option string) (signed : bool)
    (ls : LayoutState) : option LayoutState :=
  let maxAlign := if ls_maxAlign ls <? bu_align unit then bu_align unit else ls_maxAlign ls in
  let offset := round_up (ls_offset ls) (bu_align unit) in
  if widthVal =? 0 then
    let offset := if 0 <? ls_bitOffset ls then u64 (offset + ls_unitSize ls) else offset in
    let offset := round_up offset (bu_align unit) in
    Some (mkLayoutState offset maxAlign 0 0
            (ls_layouts ls ++ [mkFieldLayout name offset 0 0 (bu_bytes unit) true true signed]))
  else
    let width := u64 widthVal in
    if bu_bits unit <? width then None
    else
      let unitSize := if ls_bitOffset ls =? 0 then bu_bytes unit else ls_unitSize ls in
      let '(offset, bitOffset, unitSize) :=
        if bu_bits unit <? u64 (ls_bitOffset ls + width) then (u64 (offset + unitSize), 0, bu_bytes unit)
        else (offset, ls_bitOffset ls, unitSize) in
      let fieldBitOff := if big_endian tl && (0 <? width) then u64 (bu_bits unit - width - bitOffset) else bitOffset in
      let layouts := ls_layouts ls ++ [mkFieldLayout name offset fieldBitOff width (bu_bytes unit) true false signed] in
      let bitOffset := u64 (bitOffset + width) in
      Some (if bitOffset =? bu_bits unit then mkLayoutState (u64 (offset + unitSize)) maxAlign 0 0 layouts
            else mkLayoutState offset maxAlign bitOffset unitSize layouts).

(** A member that is no bit-field; a flexible array takes no room. *)
Definition place_member (flexible : bool) (fieldSize fieldAlign : Z) (packed : bool) (override : Z) (name : option string)
    (signed : bool) (ls : LayoutState) : LayoutState :=
  let align := attributed_align packed override (if fieldAlign =? 0 then 1 else fieldAlign) in
  let start := round_up (ls_offset ls) align in
  let size := if flexible then 0 else fieldSize in
  mkLayoutState (u64 (start + size)) (if ls_maxAlign ls <? align then align else ls_maxAlign ls) (ls_bitOffset ls)
    (ls_unitSize ls)
    (ls_layouts ls ++ [mkFieldLayout name (u64 (u64 (start + size) - size)) 0 0 size false false signed]).

(** The size and the alignment of the struct. *)
Definition close_record (packed : bool) (structAlignOverride size maxAlign : Z) : Z * Z :=
  let align := if packed && (structAlignOverride =? 0) then 1 else maxAlign in
  let align := if (0 <? structAlignOverride) && (align <? structAlignOverride) then structAlignOverride else align in
  (round_up size align, align).

Section Layout.
Context (host : Host) (scope : Scope).
Context (size_align_rec : ParsedType -> SM (Z * Z)) (const_eval : ASTNode -> SM Z).

Definition node (id : NodeId) : SM ASTNode := let* st := get in lift (ss_nodes st !! id).

Definition type_info_in (t : ParsedType) : SM TypeInfo := let* st := get in lift (typeInfoFromParsedType host st t scope).

(** ** Fields *)

(** The base type, and the types and names of the further declarators. *)
Definition base_type (d : VarDecl ASTNode) : ParsedType :=
  match vd_declaredTypes d with Some (t :: _) => t | _ => vd_declaredType d end.

Definition declarator_name (n : option ASTNode) : option string := n ← n; node_value n.

Definition base_name (d : VarDecl ASTNode) : option string :=
  match vd_varNames d with n :: _ => declarator_name n | [] => None end.

Definition further_declarators (d : VarDecl ASTNode) : list (ParsedType * option string) :=
  match vd_declaredTypes d with
  | Some types => combine (tail types) (map declarator_name (tail (vd_varNames d)))
  | None => []
  end.

Definition layout_bitfield (d : VarDecl ASTNode) (widthExpr : NodeId) (packed : bool) (override : Z) (ls : LayoutState)
    : SM LayoutState :=
  let t := base_type d in
  let* baseInfo := type_info_in t in
  let* n := node widthExpr in
  let* widthVal := const_eval n in
  let* '(fieldSize, fieldAlign) := size_align_rec t in
  if fieldSize =? 0 then fail
  else
    let* st := get in
    match place_bitfield (ss_targetLayout st) (bit_unit (ss_targetLayout st) fieldSize fieldAlign packed override)
            widthVal (base_name d) (ti_isSigned baseInfo) ls with
    | Some ls => ret ls
    | None => fail
    end.

Definition layout_member (d : VarDecl ASTNode) (packed : bool) (override : Z) (ls : LayoutState) : SM LayoutState :=
  let t := base_type d in
  let* baseInfo := type_info_in t in
  let ls := flush ls in
  let flexible := isFlexibleArrayType t in
  let* '(fieldSize, fieldAlign) := size_align_rec (if flexible then parsedTypeArrayElementType t else t) in
  ret (place_member flexible fieldSize fieldAlign packed override (base_name d) (ti_isSigned baseInfo) ls).

Definition layout_declarator (packed : bool) (override : Z) (ls : LayoutState) (decl : ParsedType * option string)
    : SM LayoutState :=
  let ls := flush ls in
  let* '(size, align) := size_align_rec decl.1 in
  let* info := type_info_in decl.1 in
  ret (place_member false size align packed override decl.2 (ti_isSigned info) ls).

Definition layout_field (packed : bool) (ls : LayoutState) (field : option ASTNode) : SM LayoutState :=
  match field with
  | Some n =>
      match an_body n with
      | AST_VARIABLE_DECLARATION d =>
          let '(fieldPacked, override) := collectAttrLayout (an_attributes n) packed in
          let* ls := match vd_bitFieldWidth d with
                     | Some w => layout_bitfield d w fieldPacked override ls
                     | None => layout_member d fieldPacked override ls
                     end in
          for_each (layout_declarator fieldPacked override) ls (further_declarators d)
      | _ => ret ls
      end
  | None => ret ls
  end.

Definition record_fields (def : ASTNode) : list (option ASTNode) :=
  match an_body def with AST_STRUCT_DEFINITION _ fields _ | AST_UNION_DEFINITION _ fields _ => fields | _ => [] end.

(** Size, alignment and field layouts. *)
Definition layout_struct_fields (def : ASTNode) : SM (Z * Z * list CCTagFieldLayout) :=
  let '(packed, structAlignOverride) := collectAttrLayout (an_attributes def) false in
  let* ls := for_each (layout_field packed) (mkLayoutState 0 1 0 0 []) (record_fields def) in
  let ls := flush ls in
  ret (close_record packed structAlignOverride (ls_offset ls) (ls_maxAlign ls), ls_layouts ls).

(** ** Unions *)

(** The greatest size and alignment so far, and the layouts. *)
Definition union_member (isBitfield packed : bool) (override : Z) (t : ParsedType) (name : option string)
    (acc : Z * Z * list CCTagFieldLayout) : SM (Z * Z * list CCTagFieldLayout) :=
  let '(maxSize, maxAlign, layouts) := acc in
  let* '(size, align) := size_align_rec t in
  let align := attributed_align packed override align in
  let* info := type_info_in t in
  ret (Z.max maxSize size, Z.max maxAlign align,
       layouts ++ [mkFieldLayout name 0 0 0 size isBitfield false (ti_isSigned info)]).

Definition union_field (packed : bool) (acc : Z * Z * list CCTagFieldLayout) (field : option ASTNode)
    : SM (Z * Z * list CCTagFieldLayout) :=
  match field with
  | Some n =>
      match an_body n with
      | AST_VARIABLE_DECLARATION d =>
          let '(fieldPacked, override) := collectAttrLayout (an_attributes n) packed in
          let isBitfield := bool_decide (is_Some (vd_bitFieldWidth d)) in
          for_each (fun acc decl => union_member isBitfield fieldPacked override decl.1 decl.2 acc) acc
            ((base_type d, base_name d) :: further_declarators d)
      | _ => ret acc
      end
  | None => ret acc
  end.

Definition layout_union_fields (def : ASTNode) : SM (Z * Z * list CCTagFieldLayout) :=
  let '(packed, structAlignOverride) := collectAttrLayout (an_attributes def) false in
  let* '(maxSize, maxAlign, layouts) := for_each (union_field packed) (0, 1, []) (record_fields def) in
  ret (close_record packed structAlignOverride maxSize maxAlign, layouts).

(** ** Records, types *)

Definition layout_struct_union (kind : CCTagKind) (name : string) : SM (Z * Z) :=
  let* st := get in
  match cc_get_tag_layout st kind name with
  | Some layout => ret layout
  | None =>
      if cc_tag_is_computing st kind name then fail
      else
        let* _ := put (cc_tag_mark_computing st kind name true) in
        let done := modify (fun st => cc_tag_mark_computing st kind name false) in
        match cc_tag_definition st kind name with
        | None => let* _ := done in fail
        | Some id =>
            let* def := node id in
            let* r := attempt (if decide (kind = CC_TAG_STRUCT) then layout_struct_fields def else layout_union_fields def) in
            match r with
            | Some (size, align, layouts) =>
                let* _ := modify (fun st => cc_set_tag_field_layouts (cc_set_tag_layout st kind name size align)
                                              kind name layouts) in
                let* _ := done in
                ret (size, align)
            | None => let* _ := done in fail
            end
        end
  end.

(** A record whose tag is not defined yet is defined from the definition in the type. *)
Definition define_inline (kind : CCTagKind) (name : string) (original : option ParsedType) : SM unit :=
  let* st := get in
  match (t ← original; pt_inlineStructOrUnionDef t) with
  | Some id =>
      if cc_tag_is_defined st kind name then ret tt
      else
        let* def := node id in
        match kind, an_body def with
        | CC_TAG_STRUCT, AST_STRUCT_DEFINITION _ _ _ | CC_TAG_UNION, AST_UNION_DEFINITION _ _ _ =>
            put (cc_define_tag st kind name 0 (Some id)).2
        | _, _ => ret tt
        end
  | None => ret tt
  end.

Definition size_align_of_typeinfo (info : TypeInfo) : SM (Z * Z) :=
  let* st := get in
  let tl := target_layout host st scope in
  let bits := or_default (ti_bitWidth info) 32 in
  let record kind :=
    match scope, ti_userTypeName info with
    | _ :: _, Some name => let* _ := define_inline kind name (ti_originalType info) in layout_struct_union kind name
    | _, _ => fail
    end in
  match ti_category info with
  | TYPEINFO_INTEGER | TYPEINFO_ENUM => ret (sizeAlignFromBits tl bits 0)
  | TYPEINFO_FLOAT =>
      let '(size, align) := sizeAlignFromBits tl bits (if longDoubleBits tl <=? ti_bitWidth info then longDoubleAlign tl else 0) in
      ret (if ti_isComplex info then size * 2 else size, align)
  | TYPEINFO_POINTER => ret (pointerBits tl `div` 8, pointerAlign tl)
  | TYPEINFO_STRUCT => record CC_TAG_STRUCT
  | TYPEINFO_UNION => record CC_TAG_UNION
  | _ => fail
  end.

Definition size_align_of_array (a : ParsedArrayInfo) (fullType : ParsedType) : SM (Z * Z) :=
  if isFlexible a || isVLA a then fail
  else
    let* len := (if hasConstantSize a then ret (constantSize a)
                 else match sizeExpr a with
                      | Some id => let* n := node id in const_eval n
                      | None => ret (-1)
                      end) in
    if len <? 0 then fail
    else
      let* '(elemSize, elemAlign) := size_align_rec (parsedTypeArrayElementType fullType) in
      ret (u64 (elemSize * len), elemAlign).

(** [size_align_of_parsed_type] with [size_align_rec] for its own calls further down. *)
Definition size_align_step (t : ParsedType) : SM (Z * Z) :=
  let '(packed, alignOverride) := collectAttrLayout (pt_attributes t) false in
  let alignOverride := if pt_hasAlignOverride t && (alignOverride <? pt_alignOverride t) then pt_alignOverride t
                       else alignOverride in
  let* '(size, align) := match pt_derivations t with
                         | TYPE_DERIVATION_ARRAY a :: _ => size_align_of_array a t
                         | _ => let* info := type_info_in t in size_align_of_typeinfo info
                         end in
  ret (size, attributed_align packed alignOverride align).

End Layout.
