(* ===== verification/RecordLayoutSpec.v ===== *)
(** * The layout of a struct is sound.

    The fields of a struct stand in declaration order without overlapping, inside the struct,
    members and storage units at multiples of their alignment; the size is a multiple of the
    struct's alignment. *)
From S2P Require Import Prelude CType StateError Tokens TargetLayout AST ParsedTypes TypeInfo Semantic TypeChecker RecordLayout.

(** ** Specification *)

(** The bits of a field, counted from the start of the struct (little-endian units). *)
Definition field_start (f : CCTagFieldLayout) : Z := 8 * fl_byteOffset f + fl_bitOffset f.
Definition field_end (f : CCTagFieldLayout) : Z :=
  field_start f + (if fl_isBitfield f then fl_widthBits f else 8 * fl_storageUnitBytes f).

(** In order, without overlap, and in front of [limit]. *)
Definition in_order (fields : list CCTagFieldLayout) (limit : Z) : Prop :=
  ForallOrdPairs (fun f g => field_end f <= field_start g) fields /\
  Forall (fun f => 0 <= field_start f <= field_end f /\ field_end f <= limit) fields.

(** A declared field: one declarator with what its declaration says. *)
Record Declarator := mkDeclarator {
  dc_type : ParsedType;
  dc_name : option string;
  dc_width : option NodeId;
  dc_flexible : bool;
  dc_packed : bool;
  dc_override : Z
}.

Definition field_declarators (packed : bool) (field : option ASTNode) : list Declarator :=
  match field with
  | Some n =>
      match an_body n with
      | AST_VARIABLE_DECLARATION d =>
          let '(fieldPacked, override) := collectAttrLayout (an_attributes n) packed in
          mkDeclarator (base_type d) (base_name d) (vd_bitFieldWidth d)
            (match vd_bitFieldWidth d with None => isFlexibleArrayType (base_type d) | _ => false end) fieldPacked override ::
          map (fun p => mkDeclarator p.1 p.2 None false fieldPacked override) (further_declarators d)
      | _ => []
      end
  | None => []
  end.

Definition declarators (def : ASTNode) : list Declarator :=
  concat (map (field_declarators (collectAttrLayout (an_attributes def) false).1) (record_fields def)).

(** The type whose size and alignment count. *)
Definition sized_type (d : Declarator) : ParsedType :=
  if dc_flexible d then parsedTypeArrayElementType (dc_type d) else dc_type d.

Section Spec.
Context (size_align_rec : ParsedType -> SM (Z * Z)) (const_eval : ASTNode -> SM Z).
Context (tl : TargetLayout) (unitBytes : Z).

(** Sizes and alignments that leave room in [size_t]; all bit-fields have units of [unitBytes]. *)
Definition declarator_ok (d : Declarator) : Prop :=
  dc_override d <= 2 ^ 32 /\
  forall st st' size align, ss_targetLayout st = Some tl ->
    size_align_rec (sized_type d) st = Some (Some (size, align), st') ->
    0 <= size <= 2 ^ 32 /\ 0 <= align <= 2 ^ 32 /\
    (is_Some (dc_width d) -> Z.max (8 * size) (bitfieldUnitBits tl) = 8 * unitBytes).

(** The alignment of the storage unit of bit-field [d], whose type has alignment [align]. *)
Definition unit_align (align : Z) (d : Declarator) : Z :=
  let a := attributed_align (dc_packed d) (dc_override d) (Z.max align (bitfieldUnitAlign tl)) in if a =? 0 then 1 else a.

(** [f] is where declarator [d] was put in a struct of alignment [structAlign].  A storage unit
    is aligned when units in a row keep its alignment: not for an [aligned(16)] on an [int]. *)
Definition placed (structAlign : Z) (d : Declarator) (f : CCTagFieldLayout) : Prop :=
  fl_name f = dc_name d /\
  exists st st' size align, size_align_rec (sized_type d) st = Some (Some (size, align), st') /\
  match dc_width d with
  | Some _ =>
      fl_isBitfield f = true /\ fl_storageUnitBytes f = unitBytes /\
      (exists n s s', const_eval n s = Some (Some (fl_widthBits f), s')) /\
      0 <= fl_bitOffset f /\ 0 <= fl_widthBits f /\ fl_bitOffset f + fl_widthBits f <= 8 * unitBytes /\
      unit_align align d <= structAlign /\
      (unitBytes `mod` unit_align align d = 0 -> fl_byteOffset f `mod` unit_align align d = 0)
  | None =>
      let align := attributed_align (dc_packed d) (dc_override d) (if align =? 0 then 1 else align) in
      fl_isBitfield f = false /\ fl_bitOffset f = 0 /\ fl_byteOffset f `mod` align = 0 /\ align <= structAlign /\
      fl_storageUnitBytes f = (if dc_flexible d then 0 else size)
  end.
End Spec.

(** ** Arithmetic *)

Lemma round_up_spec (v a : Z) :
  0 <= v -> 0 < a -> v + a < 2 ^ 64 -> v <= round_up v a < v + a /\ round_up v a `mod` a = 0.
Proof.
  intros Hv Ha Hb. unfold round_up. pose proof (Z.mod_pos_bound v a Ha). pose proof (Z.div_mod v a ltac:(lia)).
  destruct (Z.eqb_spec a 0); [lia|]. cbn zeta. destruct (Z.eqb_spec (v `mod` a) 0); [lia|].
  rewrite wrapU_small by lia. split; [lia|].
  replace (v + (a - v `mod` a)) with ((v `div` a + 1) * a) by lia. apply Z_mod_mult.
Qed.

Lemma attributed_align_bounds (packed : bool) (override align : Z) :
  1 <= align <= 2 ^ 32 -> override <= 2 ^ 32 -> 1 <= attributed_align packed override align <= 2 ^ 32.
Proof. intros Ha Ho. unfold attributed_align. destruct packed; case_match; lia. Qed.

Lemma ordered_pairs_snoc {A} (R : A -> A -> Prop) (l : list A) (x : A) :
  ForallOrdPairs R l -> Forall (fun y => R y x) l -> ForallOrdPairs R (l ++ [x]).
Proof.
  induction 1 as [|y l Hy Hl IH]; intros Hx; cbn [app]; [repeat constructor|].
  apply Forall_cons in Hx as [Hyx Hx]. constructor; [|by apply IH]. apply Forall_app. by split; [|constructor].
Qed.

Lemma in_order_snoc (fields : list CCTagFieldLayout) (f : CCTagFieldLayout) (limit limit' : Z) :
  in_order fields limit -> 0 <= limit <= field_start f -> field_start f <= field_end f <= limit' ->
  in_order (fields ++ [f]) limit'.
Proof.
  intros [Hp Hf] Hs He. split.
  - apply ordered_pairs_snoc; [done|]. eapply Forall_impl; [exact Hf|]. cbn. lia.
  - apply Forall_app. split; [|repeat constructor; lia]. eapply Forall_impl; [exact Hf|]. cbn. lia.
Qed.

Lemma in_order_mono (fields : list CCTagFieldLayout) (limit limit' : Z) :
  in_order fields limit -> limit <= limit' -> in_order fields limit'.
Proof. intros [Hp Hf] Hl. split; [done|]. eapply Forall_impl; [exact Hf|]. cbn. lia. Qed.

(** ** The state of the walk *)

Section Walk.
Context (unitBytes : Z).
Hypothesis Hunit : 0 < unitBytes <= 2 ^ 32.

(** The bit behind everything that was placed. *)
Definition position (ls : LayoutState) : Z := 8 * ls_offset ls + ls_bitOffset ls.

Record ls_ok (n : nat) (ls : LayoutState) : Prop := {
  lo_offset : 0 <= ls_offset ls <= Z.of_nat n * 2 ^ 34;
  lo_bits : 0 <= ls_bitOffset ls < 8 * unitBytes;
  lo_unit : 0 < ls_bitOffset ls -> ls_unitSize ls = unitBytes;
  lo_align : 1 <= ls_maxAlign ls <= 2 ^ 32;
  lo_order : in_order (ls_layouts ls) (position ls)
}.

(** Behind a [flush], with room for the rest of a placement. *)
Lemma flush_ok (n : nat) (ls : LayoutState) :
  Z.of_nat n < 2 ^ 27 -> ls_ok n ls ->
  ls_bitOffset (flush ls) = 0 /\ 0 <= ls_offset (flush ls) <= Z.of_nat n * 2 ^ 34 + 2 ^ 32 /\
  ls_maxAlign (flush ls) = ls_maxAlign ls /\ ls_layouts (flush ls) = ls_layouts ls /\
  in_order (ls_layouts ls) (8 * ls_offset (flush ls)).
Proof.
  intros Hn [Ho Hb Hu Ha Hord]. unfold flush. destruct (Z.ltb_spec 0 (ls_bitOffset ls)) as [H|H]; cbn.
  - rewrite Hu by done. rewrite wrapU_small by lia. split_and!; try lia; try done.
    eapply in_order_mono; [exact Hord|]. unfold position. lia.
  - split_and!; try lia; try done. eapply in_order_mono; [exact Hord|]. unfold position. lia.
Qed.

Lemma place_member_ok (n : nat) (ls : LayoutState) (flexible packed : bool) (size align override : Z) (name : option string)
    (signed : bool) :
  Z.of_nat (S n) < 2 ^ 27 -> ls_ok n ls -> 0 <= size <= 2 ^ 32 -> 0 <= align <= 2 ^ 32 -> override <= 2 ^ 32 ->
  let ls' := place_member flexible size align packed override name signed (flush ls) in
  let al := attributed_align packed override (if align =? 0 then 1 else align) in
  ls_ok (S n) ls' /\ ls_maxAlign ls <= ls_maxAlign ls' /\ al <= ls_maxAlign ls' /\
  exists f, ls_layouts ls' = ls_layouts ls ++ [f] /\ fl_name f = name /\ fl_isBitfield f = false /\
    fl_bitOffset f = 0 /\ fl_byteOffset f `mod` al = 0 /\ fl_storageUnitBytes f = (if flexible then 0 else size).
Proof.
  intros Hn Hok Hs Ha Ho ls' al. destruct (flush_ok n ls) as (Hb & Hoff & Hmax & Hlay & Hord); [lia|done|].
  assert (1 <= al <= 2 ^ 32) as Hal. { subst al. apply attributed_align_bounds; [case_match|]; lia. }
  destruct (round_up_spec (ls_offset (flush ls)) al) as [Hr Hm]; [lia..|].
  set (sz := if flexible then 0 else size) in *. assert (0 <= sz <= 2 ^ 32) by (subst sz; by case_match; lia).
  assert (Hstart : u64 (u64 (round_up (ls_offset (flush ls)) al + sz) - sz) = round_up (ls_offset (flush ls)) al).
  { rewrite (wrapU_small _ (_ + sz)) by lia. rewrite Z.add_simpl_r. apply wrapU_small. lia. }
  subst ls'. unfold place_member. fold al sz. rewrite Hstart, Hmax, Hlay, Hb. cbn. destruct Hok.
  split_and!.
  - split; cbn.
    + rewrite wrapU_small by lia. lia.
    + lia.
    + lia.
    + case_match; lia.
    + eapply in_order_snoc; [exact Hord|unfold field_start; cbn; lia|].
      unfold field_end, field_start, position. cbn. rewrite wrapU_small by lia. lia.
  - case_match; lia.
  - destruct (Z.ltb_spec (ls_maxAlign ls) al); lia.
  - eexists. split; [done|]. by split_and!.
Qed.

Lemma bit_unit_spec (tl : TargetLayout) (size align override : Z) (packed : bool) :
  0 <= size <= 2 ^ 32 -> 0 <= align <= 2 ^ 32 -> override <= 2 ^ 32 -> bitfieldUnitAlign tl <= 2 ^ 32 ->
  Z.max (8 * size) (bitfieldUnitBits tl) = 8 * unitBytes ->
  let unit := bit_unit (Some tl) size align packed override in
  bu_bits unit = 8 * unitBytes /\ bu_bytes unit = unitBytes /\ 1 <= bu_align unit <= 2 ^ 32 /\
  bu_align unit = (let a := attributed_align packed override (Z.max align (bitfieldUnitAlign tl)) in if a =? 0 then 1 else a).
Proof.
  intros Hs Ha Ho Hu Hmax unit. unfold unit, bit_unit. cbn [bu_bits bu_bytes bu_align].
  replace (if (0 <? bitfieldUnitAlign tl) && (align <? bitfieldUnitAlign tl) then bitfieldUnitAlign tl else align)
    with (Z.max align (bitfieldUnitAlign tl))
    by (destruct (Z.ltb_spec 0 (bitfieldUnitAlign tl)), (Z.ltb_spec align (bitfieldUnitAlign tl)); cbn; lia).
  rewrite (wrapU_small 64 (size * 8)) by lia.
  replace (if (0 <? bitfieldUnitBits tl) && (size * 8 <? bitfieldUnitBits tl) then bitfieldUnitBits tl else size * 8)
    with (8 * unitBytes) by (destruct (Z.ltb_spec 0 (bitfieldUnitBits tl)), (Z.ltb_spec (size * 8) (bitfieldUnitBits tl)); cbn; lia).
  rewrite wrapU_small by lia.
  replace ((8 * unitBytes + 7) `div` 8) with unitBytes by (apply Z.div_unique with 7; lia).
  split; [done|]. split; [by destruct (Z.eqb_spec unitBytes 0); [lia|]|]. split; [|done].
  unfold attributed_align. destruct packed; repeat case_match; lia.
Qed.

Lemma place_bitfield_ok (tl : TargetLayout) (unit : BitUnit) (n : nat) (ls ls' : LayoutState) (width : Z)
    (name : option string) (signed : bool) :
  Z.of_nat (S n) < 2 ^ 27 -> ls_ok n ls -> endianness tl = TL_ENDIAN_LITTLE -> - 2 ^ 63 <= width < 2 ^ 63 ->
  bu_bits unit = 8 * unitBytes -> bu_bytes unit = unitBytes -> 1 <= bu_align unit <= 2 ^ 32 ->
  place_bitfield (Some tl) unit width name signed ls = Some ls' ->
  ls_ok (S n) ls' /\ ls_maxAlign ls <= ls_maxAlign ls' /\ bu_align unit <= ls_maxAlign ls' /\
  exists f, ls_layouts ls' = ls_layouts ls ++ [f] /\ fl_name f = name /\ fl_isBitfield f = true /\
    fl_storageUnitBytes f = unitBytes /\ fl_widthBits f = width /\ 0 <= fl_bitOffset f /\ 0 <= width /\
    fl_bitOffset f + width <= 8 * unitBytes /\ (unitBytes `mod` bu_align unit = 0 -> fl_byteOffset f `mod` bu_align unit = 0).
Proof.
  intros Hn Hok Hend Hw Hbits Hbytes Hal. destruct Hok as [Ho Hb Hu Ha Hord].
  destruct (round_up_spec (ls_offset ls) (bu_align unit)) as [Hr Hal0]; [lia..|].
  set (off := round_up (ls_offset ls) (bu_align unit)) in *.
  unfold place_bitfield. fold off. rewrite Hbits, Hbytes. unfold big_endian. rewrite Hend. cbn [bool_decide decide_rel andb].
  assert (1 <= (if ls_maxAlign ls <? bu_align unit then bu_align unit else ls_maxAlign ls) <= 2 ^ 32 /\
    ls_maxAlign ls <= (if ls_maxAlign ls <? bu_align unit then bu_align unit else ls_maxAlign ls) /\
    bu_align unit <= (if ls_maxAlign ls <? bu_align unit then bu_align unit else ls_maxAlign ls)) as (Hmax & Hle & Hual)
    by (destruct (Z.ltb_spec (ls_maxAlign ls) (bu_align unit)); lia).
  generalize dependent (if ls_maxAlign ls <? bu_align unit then bu_align unit else ls_maxAlign ls). intros m Hm Hle Hual.
  destruct (Z.eqb_spec width 0) as [->|Hw0].
  - intros [= <-]. assert (0 <= (if 0 <? ls_bitOffset ls then u64 (off + ls_unitSize ls) else off) <= off + 2 ^ 32 /\
      position ls <= 8 * (if 0 <? ls_bitOffset ls then u64 (off + ls_unitSize ls) else off)) as [Hoff Hpos].
    { unfold position. destruct (Z.ltb_spec 0 (ls_bitOffset ls)); [rewrite Hu by done; rewrite wrapU_small by lia|]; lia. }
    generalize dependent (if 0 <? ls_bitOffset ls then u64 (off + ls_unitSize ls) else off). intros off2 Hoff2 Hpos.
    destruct (round_up_spec off2 (bu_align unit)) as [Hr2 Hal2]; [lia..|].
    split; [|split; [done|split; [done|]]].
    + split; cbn; try lia. eapply in_order_snoc; [exact Hord| |]; unfold field_end, field_start, position in *; cbn; lia.
    + eexists. split; [done|]. cbn. split_and!; try done; lia.
  - destruct (Z.ltb_spec (8 * unitBytes) (u64 width)) as [|Hfit]; [done|].
    assert (0 < width) as Hpos.
    { destruct (Z.lt_total width 0) as [H|[H|H]]; [|lia|done]. exfalso. unfold wrapU in Hfit.
      rewrite <- (Z.mod_add width 1) in Hfit by lia. rewrite Z.mod_small in Hfit by lia. lia. }
    rewrite (wrapU_small 64 width) in * by lia. rewrite (wrapU_small 64 (ls_bitOffset ls + width)) by lia.
    set (usz := if ls_bitOffset ls =? 0 then unitBytes else ls_unitSize ls).
    assert (usz = unitBytes) as -> by (subst usz; destruct (Z.eqb_spec (ls_bitOffset ls) 0); [done|apply Hu; lia]).
    assert (exists off2 bit2, (if 8 * unitBytes <? ls_bitOffset ls + width then (u64 (off + unitBytes), 0, unitBytes)
        else (off, ls_bitOffset ls, unitBytes)) = (off2, bit2, unitBytes) /\ 0 <= off2 <= off + 2 ^ 32 /\
        0 <= bit2 /\ bit2 + width <= 8 * unitBytes /\ position ls <= 8 * off2 + bit2 /\
        (unitBytes `mod` bu_align unit = 0 -> off2 `mod` bu_align unit = 0))
      as (off2 & bit2 & -> & Ho2 & Hb2 & Hbw & Hp2 & Hal2).
    { unfold position. destruct (Z.ltb_spec (8 * unitBytes) (ls_bitOffset ls + width)) as [H|H].
      - exists (off + unitBytes), 0. rewrite wrapU_small by lia. split_and!; try done; try lia.
        intros Hmod. by rewrite Z.add_mod, Hmod, Hal0 by lia.
      - exists off, (ls_bitOffset ls). split_and!; try done; lia. }
    cbn beta iota zeta. rewrite (wrapU_small 64 (bit2 + width)) by lia. intros [= <-].
    split; [|split; [|split]].
    + destruct (Z.eqb_spec (bit2 + width) (8 * unitBytes)) as [E|E]; split; cbn; try (rewrite ?wrapU_small by lia; lia); try done;
        (eapply in_order_snoc; [exact Hord| |]; unfold field_end, field_start, position in *; cbn; rewrite ?wrapU_small by lia; lia).
    + by case_match.
    + by case_match.
    + eexists. split; [by case_match|]. cbn. split_and!; try done; lia.
Qed.
End Walk.

(** ** The whole walk *)

(** What the layout relies on in the two calls that go back up. *)
Class LayoutCalls (size_align_rec : ParsedType -> SM (Z * Z)) (const_eval : ASTNode -> SM Z) : Prop := {
  lc_size_target : forall t, preserves ss_targetLayout (size_align_rec t);
  lc_const_target : forall n, preserves ss_targetLayout (const_eval n);
  lc_const_range : forall n st w st', const_eval n st = Some (Some w, st') -> - 2 ^ 63 <= w < 2 ^ 63
}.

Section Struct.
Context (host : Host) (scope : Scope).
Context (size_align_rec : ParsedType -> SM (Z * Z)) (const_eval : ASTNode -> SM Z).
Context `{!LayoutCalls size_align_rec const_eval}.
Context (tl : TargetLayout) (unitBytes : Z).
Hypothesis Hunit : 0 < unitBytes <= 2 ^ 32.
Hypothesis Hlittle : endianness tl = TL_ENDIAN_LITTLE.
Hypothesis Hunitalign : bitfieldUnitAlign tl <= 2 ^ 32.

Abbreviation placed_at := (placed size_align_rec const_eval tl unitBytes).
Abbreviation decl_ok := (declarator_ok size_align_rec tl unitBytes).

(** After the declarators [done]. *)
Definition walked (done : list Declarator) (ls : LayoutState) (st : SemState) : Prop :=
  ss_targetLayout st = Some tl /\
  (Z.of_nat (length done) < 2 ^ 27 -> ls_ok unitBytes (length done) ls /\ Forall2 (placed_at (ls_maxAlign ls)) done (ls_layouts ls)).

Lemma placed_mono (m m' : Z) (d : Declarator) (f : CCTagFieldLayout) : m <= m' -> placed_at m d f -> placed_at m' d f.
Proof.
  intros Hm (Hn & st & st' & size & align & Hs & H). split; [done|]. exists st, st', size, align. split; [done|].
  destruct (dc_width d); [destruct H as (? & ? & ? & ? & ? & ? & ? & ?)|destruct H as (? & ? & ? & ? & ?)];
    split_and!; try done; lia.
Qed.

(** One more declarator was placed. *)
Lemma walked_snoc (done : list Declarator) (d : Declarator) (ls ls' : LayoutState) (st st' : SemState) :
  walked done ls st -> ss_targetLayout st' = Some tl ->
  (Z.of_nat (S (length done)) < 2 ^ 27 -> ls_ok unitBytes (length done) ls ->
   ls_ok unitBytes (S (length done)) ls' /\ ls_maxAlign ls <= ls_maxAlign ls' /\
   exists f, ls_layouts ls' = ls_layouts ls ++ [f] /\ placed_at (ls_maxAlign ls') d f) ->
  walked (done ++ [d]) ls' st'.
Proof.
  intros [_ Hw] Htl Hstep. split; [done|]. rewrite length_app, Nat.add_1_r. intros Hn.
  destruct (Hw ltac:(lia)) as [Hok Hall]. destruct (Hstep Hn Hok) as (Hok' & Hm & f & -> & Hf).
  split; [done|]. apply Forall2_app; [|by constructor].
  eapply Forall2_impl; [exact Hall|]. intros d' f'. by apply placed_mono.
Qed.

Lemma type_info_in_same (t : ParsedType) (st st' : SemState) (i : TypeInfo) :
  type_info_in host scope t st = Some (Some i, st') -> st' = st.
Proof. unfold type_info_in. intros (s & s1 & [= <- <-] & [_ ->]%lift_some)%bind_some. done. Qed.

Lemma member_walked (done : list Declarator) (d : Declarator) (ls ls' : LayoutState) (st st1 st' : SemState)
    (size align : Z) (signed : bool) :
  walked done ls st -> decl_ok d -> dc_width d = None -> ss_targetLayout st1 = Some tl ->
  size_align_rec (sized_type d) st1 = Some (Some (size, align), st') ->
  ls' = place_member (dc_flexible d) size align (dc_packed d) (dc_override d) (dc_name d) signed (flush ls) ->
  walked (done ++ [d]) ls' st'.
Proof.
  intros Hw [Ho Hd] Hnone Htl Hs ->. pose proof (lc_size_target _ _ _ _ Hs) as Htl'. rewrite Htl in Htl'.
  destruct (Hd _ _ _ _ Htl Hs) as (Hsize & Hal & _).
  eapply walked_snoc; [exact Hw|done|]. intros Hn Hok.
  destruct (place_member_ok unitBytes Hunit (length done) ls (dc_flexible d) (dc_packed d) size align (dc_override d)
    (dc_name d) signed Hn Hok Hsize Hal Ho) as (Hok' & Hm & Hal' & f & Hl & Hname & Hb & Hbit & Hoff & Hst).
  split; [done|]. split; [done|]. exists f. split; [done|]. split; [done|]. exists st1, st', size, align.
  split; [done|]. rewrite Hnone. by split_and!.
Qed.

Lemma layout_bitfield_walked (done : list Declarator) (v : VarDecl ASTNode) (w : NodeId) (packed : bool) (override : Z)
    (ls ls' : LayoutState) (st st' : SemState) :
  let d := mkDeclarator (base_type v) (base_name v) (Some w) false packed override in
  decl_ok d -> walked done ls st ->
  layout_bitfield host scope size_align_rec const_eval v w packed override ls st = Some (Some ls', st') ->
  walked (done ++ [d]) ls' st'.
Proof.
  intros d [Ho Hd] Hw. unfold layout_bitfield.
  intros (info & s1 & ->%type_info_in_same & H)%bind_some.
  apply bind_some in H as (n & s2 & Hn & H). unfold node in Hn.
  apply bind_some in Hn as (s0 & s3 & [= <- <-] & [_ ->]%lift_some).
  apply bind_some in H as (width & s2 & Hc & H). apply bind_some in H as ([size align] & s3 & Hs & H).
  destruct (size =? 0); [done|]. apply bind_some in H as (s4 & s5 & [= <- <-] & H).
  destruct Hw as [Htl Hw]. pose proof (lc_const_target _ _ _ _ Hc) as Htl2. rewrite Htl in Htl2.
  pose proof (lc_size_target _ _ _ _ Hs) as Htl3. rewrite Htl2 in Htl3. rewrite Htl3 in H.
  destruct (place_bitfield _ _ _ _ _ _) as [ls1|] eqn:Ep; [|done]. injection H as <- <-.
  destruct (Hd _ _ _ _ Htl2 Hs) as (Hsize & Hal & Hmax). specialize (Hmax ltac:(by eexists)).
  eapply walked_snoc; [by split|done|]. intros Hlen Hok.
  destruct (bit_unit_spec unitBytes Hunit tl size align override packed Hsize Hal Ho Hunitalign Hmax) as (Hb & Hby & Hua & Hunital).
  destruct (place_bitfield_ok unitBytes Hunit tl _ (length done) ls ls1 width _ _ Hlen Hok Hlittle
    (lc_const_range _ _ _ _ Hc) Hb Hby Hua Ep) as (Hok' & Hm & Hmal & f & Hl & Hname & Hbf & Hst & Hwid & Hbo & Hw0 & Hfit & Hoff).
  split; [done|]. split; [done|]. exists f. split; [done|]. split; [done|]. exists s2, s3, size, align. split; [done|].
  cbn [dc_width d]. change (unit_align tl align d) with (let a := attributed_align packed override (Z.max align (bitfieldUnitAlign tl)) in
    if a =? 0 then 1 else a). rewrite <- Hunital, Hwid. split_and!; try done. by exists n, st, s2.
Qed.

Lemma layout_member_walked (done : list Declarator) (v : VarDecl ASTNode) (packed : bool) (override : Z)
    (ls ls' : LayoutState) (st st' : SemState) :
  let d := mkDeclarator (base_type v) (base_name v) None (isFlexibleArrayType (base_type v)) packed override in
  decl_ok d -> walked done ls st -> layout_member host scope size_align_rec v packed override ls st = Some (Some ls', st') ->
  walked (done ++ [d]) ls' st'.
Proof.
  intros d Hd Hw. unfold layout_member. intros (info & s1 & ->%type_info_in_same & H)%bind_some.
  apply bind_some in H as ([size align] & s2 & Hs & [= <- <-]).
  by apply (member_walked done d ls _ st st s2 size align (ti_isSigned info) Hw Hd eq_refl (proj1 Hw) Hs).
Qed.

Lemma layout_declarator_walked (done : list Declarator) (p : ParsedType * option string) (packed : bool) (override : Z)
    (ls ls' : LayoutState) (st st' : SemState) :
  let d := mkDeclarator p.1 p.2 None false packed override in
  decl_ok d -> walked done ls st ->
  layout_declarator host scope size_align_rec packed override ls p st = Some (Some ls', st') ->
  walked (done ++ [d]) ls' st'.
Proof.
  intros d Hd Hw. unfold layout_declarator. intros ([size align] & s1 & Hs & H)%bind_some.
  apply bind_some in H as (info & s2 & ->%type_info_in_same & [= <- <-]).
  by apply (member_walked done d ls _ st st s1 size align (ti_isSigned info) Hw Hd eq_refl (proj1 Hw) Hs).
Qed.

Lemma layout_field_walked (done : list Declarator) (packed : bool) (field : option ASTNode) (ls ls' : LayoutState)
    (st st' : SemState) :
  Forall decl_ok (field_declarators packed field) -> walked done ls st ->
  layout_field host scope size_align_rec const_eval packed ls field st = Some (Some ls', st') ->
  walked (done ++ field_declarators packed field) ls' st'.
Proof.
  unfold layout_field, field_declarators. destruct field as [n|]; [|intros _ Hw [= <- <-]; by rewrite app_nil_r].
  destruct (an_body n); try (intros _ Hw [= <- <-]; by rewrite app_nil_r).
  destruct (collectAttrLayout (an_attributes n) packed) as [fieldPacked override].
  intros [Hbase Hmore]%Forall_cons Hw (ls1 & s1 & Hfirst & Hrest)%bind_some.
  rewrite cons_middle, app_assoc.
  set (mk := fun p : ParsedType * option string => mkDeclarator p.1 p.2 None false fieldPacked override) in *.
  set (d0 := mkDeclarator _ _ _ _ _ _) in *.
  assert (walked (done ++ [d0]) ls1 s1) as Hw1.
  { subst d0. destruct (vd_bitFieldWidth d) as [w|]; [by eapply layout_bitfield_walked|by eapply layout_member_walked]. }
  pose proof (for_each_ind (layout_declarator host scope size_align_rec fieldPacked override) (fun p => decl_ok (mk p))
    (fun pre => walked ((done ++ [d0]) ++ map mk pre)) (further_declarators d) [] ls1 ls' s1 st') as Hind.
  cbn [map app] in Hind. apply Hind; [|by rewrite List.Forall_map in Hmore|by rewrite app_nil_r|done].
  intros pre a x s a' s' Hx Hp Hstep. rewrite map_app, app_assoc. cbn [map]. by eapply layout_declarator_walked.
Qed.

Lemma layout_fields_walked (packed : bool) (fields : list (option ASTNode)) (ls : LayoutState) (st st' : SemState) :
  Forall (fun f => Forall decl_ok (field_declarators packed f)) fields -> ss_targetLayout st = Some tl ->
  for_each (layout_field host scope size_align_rec const_eval packed) (mkLayoutState 0 1 0 0 []) fields st = Some (Some ls, st') ->
  walked (concat (map (field_declarators packed) fields)) ls st'.
Proof.
  intros Hall Htl Hrun.
  apply (for_each_ind _ (fun f => Forall decl_ok (field_declarators packed f))
    (fun pre => walked (concat (map (field_declarators packed) pre))) fields [] _ ls st st') in Hrun; [done| |done|].
  - intros pre a x s a' s' Hx Hp Hstep. rewrite map_app, concat_app. cbn [map concat]. rewrite app_nil_r.
    by eapply layout_field_walked.
  - split; [done|]. intros _. split; [|constructor]. split; unfold position; cbn; [lia..|]. split; constructor.
Qed.

Lemma close_record_spec (packed : bool) (override size maxAlign : Z) :
  0 <= size <= 2 ^ 62 -> 1 <= maxAlign <= 2 ^ 32 -> override <= 2 ^ 32 ->
  let '(size', align) := close_record packed override size maxAlign in
  1 <= align /\ size <= size' /\ size' `mod` align = 0 /\ (packed = false -> maxAlign <= align).
Proof.
  intros Hs Hm Ho. unfold close_record.
  set (align := if _ && (_ <? override) then override else _).
  assert (1 <= align <= 2 ^ 32 /\ (packed = false -> maxAlign <= align)) as [Hal Hle].
  { subst align. destruct packed, (Z.eqb_spec override 0); cbn [andb]; case_match; lia. }
  destruct (round_up_spec size align) as [Hr Hd]; [lia..|]. split_and!; [lia|lia|done|done].
Qed.

(** C39: on a little-endian target, in a struct with bit-fields of one unit size and without sizes
    that wrap, every field gets a place: the fields stand in declaration order, none overlaps
    another, all lie inside the struct, members at multiples of their alignment and bit-fields
    with the declared width inside a storage unit, which is at a multiple of its alignment when
    that divides the unit size (an [aligned(16)] on an [int] does not); the size is a multiple of
    the struct's alignment, which unless the struct is packed is at least that of each field. *)
Theorem struct_layout_sound (def : ASTNode) (st st' : SemState) (size align : Z) (fields : list CCTagFieldLayout) :
  Forall decl_ok (declarators def) -> Z.of_nat (length (declarators def)) < 2 ^ 27 ->
  (collectAttrLayout (an_attributes def) false).2 <= 2 ^ 32 -> ss_targetLayout st = Some tl ->
  layout_struct_fields host scope size_align_rec const_eval def st = Some (Some (size, align, fields), st') ->
  1 <= align /\ size `mod` align = 0 /\ in_order fields (8 * size) /\
  Forall2 (placed_at (if (collectAttrLayout (an_attributes def) false).1 then 2 ^ 32 else align)) (declarators def) fields.
Proof.
  unfold declarators, layout_struct_fields. destruct (collectAttrLayout _ _) as [packed override]. cbn [fst snd].
  intros Hall Hlen Ho Htl (ls & s1 & Hwalk & H)%bind_some. rewrite List.Forall_concat, List.Forall_map in Hall.
  destruct (layout_fields_walked packed (record_fields def) ls st s1) as [_ Hw]; [done..|].
  destruct (Hw Hlen) as [Hok Hplaced]. destruct (flush_ok unitBytes Hunit _ ls Hlen Hok) as (_ & Hoff & Hmax & Hlay & Hord).
  destruct Hok as [_ _ _ Hal _].
  pose proof (close_record_spec packed override (ls_offset (flush ls)) (ls_maxAlign (flush ls)) ltac:(lia)
    ltac:(rewrite Hmax; lia) Ho) as Hclose.
  cbn zeta in H. destruct (close_record _ _ _ _) as [sz al]. injection H as <- <- <- <-. destruct Hclose as (H1 & Hsz & Hmod & Hle).
  rewrite Hlay. split_and!; [done|done| |].
  - eapply in_order_mono; [exact Hord|lia].
  - eapply Forall2_impl; [exact Hplaced|]. intros d f. apply placed_mono. destruct packed; [lia|]. rewrite Hmax in Hle. by apply Hle.
Qed.

End Struct.

(** ** The calls keep the target *)

Lemma update_tag_in_target (st : SemState) (kind : CCTagKind) (name : string) (f : CCTagRecord -> CCTagRecord) :
  ss_targetLayout (update_tag_in st kind name f) = ss_targetLayout st.
Proof. done. Qed.

Lemma define_tag_target (st : SemState) (kind : CCTagKind) (name : string) (fp : Z) (def : option NodeId) :
  ss_targetLayout (cc_define_tag st kind name fp def).2 = ss_targetLayout st.
Proof. unfold cc_define_tag. by repeat case_match. Qed.

Section Target.
Context (host : Host) (scope : Scope).
Context (size_align_rec : ParsedType -> SM (Z * Z)) (const_eval : ASTNode -> SM Z).
Hypothesis Hsize : forall t, preserves ss_targetLayout (size_align_rec t).
Hypothesis Hconst : forall n, preserves ss_targetLayout (const_eval n).

Local Ltac keep := repeat first
  [ match goal with H : context [preserves] |- _ => apply H end | apply preserves_ret | apply preserves_fail | apply preserves_get | apply preserves_lift | apply Hsize | apply Hconst
  | apply preserves_modify; done | apply preserves_bind; [|intros] | apply preserves_attempt | apply preserves_for_each; intros
  | case_match ].

Lemma type_info_in_target (t : ParsedType) : preserves ss_targetLayout (type_info_in host scope t).
Proof. unfold type_info_in. keep. Qed.

Lemma node_target (id : NodeId) : preserves ss_targetLayout (node id).
Proof. unfold node. keep. Qed.

Lemma layout_field_target (packed : bool) (ls : LayoutState) (field : option ASTNode) :
  preserves ss_targetLayout (layout_field host scope size_align_rec const_eval packed ls field).
Proof.
  pose proof type_info_in_target. pose proof node_target.
  unfold layout_field, layout_bitfield, layout_member, layout_declarator. keep.
Qed.

Lemma union_field_target (packed : bool) (acc : Z * Z * list CCTagFieldLayout) (field : option ASTNode) :
  preserves ss_targetLayout (union_field host scope size_align_rec packed acc field).
Proof. pose proof type_info_in_target. unfold union_field, union_member. keep. Qed.

Lemma layout_struct_union_target (kind : CCTagKind) (name : string) :
  preserves ss_targetLayout (layout_struct_union host scope size_align_rec const_eval kind name).
Proof.
  pose proof layout_field_target. pose proof union_field_target. pose proof node_target.
  unfold layout_struct_union. apply preserves_get_bind. intros s r s'. do 2 (case_match; [by intros [= <- <-]|]).
  apply preserves_put_bind; [done|]. unfold layout_struct_fields, layout_union_fields. keep.
Qed.

Lemma size_align_step_target (t : ParsedType) :
  preserves ss_targetLayout (size_align_step host scope size_align_rec const_eval t).
Proof.
  pose proof type_info_in_target. pose proof node_target. pose proof layout_struct_union_target.
  assert (forall kind name t', preserves ss_targetLayout (define_inline kind name t')).
  { intros kind name t'. unfold define_inline. apply preserves_get_bind. intros s r s'.
    case_match; [|by intros [= <- <-]]. case_match; [by intros [= <- <-]|].
    intros [[Hn ->]|(def & s1 & Hn & Hk)]%bind_inv; pose proof (node_target _ _ _ _ Hn) as Ht; [done|]. rewrite <- Ht.
    unfold node in Hn. apply bind_some in Hn as (? & ? & [= <- <-] & [_ ->]%lift_some).
    repeat case_match; injection Hk as <- <-; first [done | apply define_tag_target]. }
  unfold size_align_step, size_align_of_array, size_align_of_typeinfo. keep.
Qed.
End Target.

(** Any calls that keep the target and evaluate to a [long long] will do. *)
Lemma layout_calls_step (host : Host) (scope : Scope) (size_align_rec : ParsedType -> SM (Z * Z)) (const_eval : ASTNode -> SM Z) :
  LayoutCalls size_align_rec const_eval ->
  LayoutCalls (size_align_step host scope size_align_rec const_eval) const_eval.
Proof. intros [Hs Hc Hr]. split; [|done|done]. by apply size_align_step_target. Qed.

(** ** Examples *)

Definition literal_width (n : ASTNode) : SM Z :=
  match node_value n with
  | Some text => ret (i64 (digits_value 10 (list_ascii_of_string text)))
  | None => fail
  end.

(** Sizes of types that refer to no record and have no element. *)
Definition flat_size (scope : Scope) : ParsedType -> SM (Z * Z) := size_align_step HostOther scope (fun _ => fail) literal_width.

Lemma flat_calls (scope : Scope) : LayoutCalls (flat_size scope) literal_width.
Proof.
  apply layout_calls_step. unfold literal_width. split; [intros t; apply preserves_fail| |].
  - intros n. case_match; [apply preserves_ret|apply preserves_fail].
  - intros n st w st'. case_match; [|done]. intros [= <- <-]. pose proof (wrapS_range 64 (digits_value 10 (list_ascii_of_string s))). lia.
Qed.

Definition sample_field (t : ParsedType) (name : string) (width : option NodeId) : option ASTNode :=
  Some (plain_node 1 (AST_VARIABLE_DECLARATION
    (mkVarDecl t (Some [t]) [Some (plain_node 1 (AST_IDENTIFIER (Some name)))] [None] width))).

Definition double_type (m : TypeModifiers) : ParsedType := primitive_type TOKEN_DOUBLE m.
Definition long_modifiers : TypeModifiers := mkModifiers false false false true false false.

(** [struct { char c; int a : 3; int b : 30; double d; }] *)
Definition sample_struct : ASTNode :=
  plain_node 1 (AST_STRUCT_DEFINITION None
    [sample_field (primitive_type TOKEN_CHAR no_modifiers) "c" None; sample_field int_type "a" (Some 0%nat);
     sample_field int_type "b" (Some 1%nat); sample_field (double_type no_modifiers) "d" None] false).

(** [struct { int a : 4; long b : 40; int c; }] *)
Definition overlapping_struct : ASTNode :=
  plain_node 1 (AST_STRUCT_DEFINITION None
    [sample_field int_type "a" (Some 2%nat); sample_field (primitive_type TOKEN_LONG no_modifiers) "b" (Some 3%nat);
     sample_field int_type "c" None] false).

Definition literal_node (text : string) : ASTNode := plain_node 1 (AST_NUMBER_LITERAL (Some text)).

Definition layout_state : SemState :=
  mkSemState (list_to_map [(0%nat, literal_node "3"); (1%nat, literal_node "30"); (2%nat, literal_node "4"); (3%nat, literal_node "40")])
    ∅ [] [] [] (Some layout_lp64_fp80) [].

Definition sample_scope : Scope := createScope [].

Definition sample_fields (def : ASTNode) : option (Z * Z * list CCTagFieldLayout) :=
  match layout_struct_fields HostOther sample_scope (flat_size sample_scope) literal_width def layout_state with
  | Some (r, _) => r
  | None => None
  end.

Example sample_struct_layout :
  option_map (fun r => (r.1, map (fun f => (fl_name f, field_start f, field_end f)) r.2)) (sample_fields sample_struct) =
  Some (24, 8, [(Some "c"%string, 0, 8); (Some "a"%string, 32, 35); (Some "b"%string, 64, 94); (Some "d"%string, 128, 192)]).
Proof. vm_compute. reflexivity. Qed.

Lemma sample_declarators_ok : Forall (declarator_ok (flat_size sample_scope) layout_lp64_fp80 4) (declarators sample_struct).
Proof.
  unfold declarators. cbn -[declarator_ok]. repeat (apply Forall_cons; split); [..|constructor].
  all: split; [vm_compute; discriminate|].
  all: intros [? ? ? ? ? tl ?] s1 size align; cbn [ss_targetLayout]; intros [= ->] Hs.
  all: vm_compute in Hs; injection Hs as <- <- _.
  all: split; [lia|split; [lia|cbn; intros [? ?]; done]].
Qed.

Lemma struct_layout_sound_witness :
  exists size align fields, sample_fields sample_struct = Some (size, align, fields) /\ size `mod` align = 0 /\
    in_order fields (8 * size).
Proof.
  destruct (layout_struct_fields HostOther sample_scope (flat_size sample_scope) literal_width sample_struct layout_state)
    as [[[[[size align] fields]|] st']|] eqn:E; [|exfalso; by vm_compute in E..].
  exists size, align, fields. unfold sample_fields. rewrite E. split; [done|].
  destruct (struct_layout_sound HostOther sample_scope (flat_size sample_scope) literal_width
    (LayoutCalls0 := flat_calls sample_scope) layout_lp64_fp80 4 ltac:(lia) eq_refl ltac:(cbn; lia) sample_struct
    layout_state st' size align fields sample_declarators_ok) as (_ & ? & ? & _); [reflexivity|vm_compute; discriminate|reflexivity|done|done].
Defined.

(** A wider unit that goes on in a started smaller one is closed with the smaller size: [b] has
    the bits 4 to 43, and [c] starts at bit 32. *)
Example wider_bitfield_overlaps :
  option_map (fun r => map (fun f => (field_start f, field_end f)) r.2) (sample_fields overlapping_struct) =
  Some [(0, 4); (4, 44); (32, 64)].
Proof. vm_compute. reflexivity. Qed.

(** The size of [long double] is that of its 80 bits, no multiple of its alignment. *)
Example long_double_size :
  flat_size sample_scope (double_type long_modifiers) layout_state = Some (Some (10, 16), layout_state).
Proof. vm_compute. reflexivity. Qed.
