(* ===== verification/ConstEval.v ===== *)
(** * Evaluation of constant expressions (src/Syntax/const_eval.c), and the calls between it and
    the layout of types.

    Failure of the monad is a result that is not constant; no result at all ([stuck]) is
    undefined behaviour of the compiler: an overflow of [long long], or a shift by 64 bits or
    more.  Type analysis of expressions and the path of a member are parameters, and so is the
    C library's [strtold] with the conversion of its result to [long long]. *)
From S2P Require Import Prelude CType StateError Tokens TargetLayout LiteralUtils AST ParsedTypes.
From S2P Require Import TypeInfo Semantic TypeChecker RecordLayout.

Record ConstEvalResult := mkConst { cr_value : Z; cr_bitWidth : Z; cr_isUnsigned : bool }.

(** The low [bits] bits of a [long long]. *)
Definition truncateToWidth (value bits : Z) (isUnsigned : bool) : Z :=
  if (bits =? 0) || (64 <=? bits) then value
  else
    let mask := 2 ^ bits - 1 in
    let v := Z.land (u64 value) mask in
    if negb isUnsigned && Z.testbit v (bits - 1) then i64 (Z.lor v (Z.ldiff (2 ^ 64 - 1) mask)) else i64 v.

(** The argument is converted to [long long]. *)
Definition makeConstTyped (value bits : Z) (isUnsigned : bool) : ConstEvalResult :=
  mkConst (truncateToWidth (i64 value) bits isUnsigned) bits isUnsigned.

Definition makeConst (value : Z) : ConstEvalResult := makeConstTyped value 64 false.

Definition defaultIntBitsOf (tl : TargetLayout) : Z := or_default (intBits tl) 32.
Definition defaultPointerBits (tl : TargetLayout) : Z := or_default (pointerBits tl) 64.

(** The expression's type is not looked at. *)
Definition finalizeWithExprType (tl : TargetLayout) (r : ConstEvalResult) : ConstEvalResult :=
  let bits := or_default (cr_bitWidth r) (defaultIntBitsOf tl) in
  mkConst (truncateToWidth (cr_value r) bits (cr_isUnsigned r)) bits (cr_isUnsigned r).

(** Value, width and signedness of an integer literal. *)
Definition parseIntegerLiteral (text : list ascii) (tl : TargetLayout) : option (Z * Z * bool) :=
  info ← parse_integer_literal_info text tl; Some (i64 (il_value info), il_bits info, il_isUnsigned info).

(** A result of arithmetic on [long long]. *)
Definition long_long (v : Z) : SM Z := if inS 64 v then ret v else stuck.

Section ConstEval.
Context (host : Host) (scope : Scope).
(** [strtold] and [(long long)]: the value, and the text behind the number. *)
Context (strtold : list ascii -> option (Z * list ascii)).
Context (analyzeExpression : ASTNode -> SM TypeInfo).
Context (evalOffsetofFieldPath : ParsedType -> option string -> SM Z).
(** [size_align_of_parsed_type], and [constEvalInteger] for nodes that are not part of the expression. *)
Context (size_align : ParsedType -> SM (Z * Z)) (const_eval_rec : ASTNode -> SM Z).

Definition currentLayout : SM TargetLayout := let* st := get in ret (target_layout host st scope).

(** ** Binary operators *)

Definition commonIntegerType (tl : TargetLayout) (l r : ConstEvalResult) : Z * bool :=
  let info c := makeIntegerType (or_default (cr_bitWidth c) (defaultIntBitsOf tl)) (negb (cr_isUnsigned c)) TOKEN_INT in
  match usualArithmeticConversion host (info l) (info r) with
  | Some common => (or_default (ti_bitWidth common) (defaultIntBitsOf tl), negb (ti_isSigned common))
  | None => (defaultIntBitsOf tl, false)
  end.

Definition is_op (op : string) (ops : list string) : bool := existsb (String.eqb op) ops.

Definition compare_op (op : string) (l r : Z) : bool :=
  if String.eqb op "==" then l =? r else if String.eqb op "!=" then negb (l =? r)
  else if String.eqb op "<" then l <? r else if String.eqb op "<=" then l <=? r
  else if String.eqb op ">" then r <? l else r <=? l.

(** On unsigned 64-bit operands; the right one of a division is not 0. *)
Definition unsigned_op (op : string) (l r : Z) : Z :=
  if String.eqb op "+" then u64 (l + r) else if String.eqb op "-" then u64 (l - r)
  else if String.eqb op "*" then u64 (l * r)
  else if String.eqb op "/" then (if r =? 0 then 0 else l `div` r)
  else if r =? 0 then 0 else l `mod` r.

(** On [long long]. *)
Definition signed_op (op : string) (l r : Z) : SM Z :=
  if String.eqb op "+" then long_long (l + r) else if String.eqb op "-" then long_long (l - r)
  else if String.eqb op "*" then long_long (l * r)
  else if r =? 0 then ret 0
  else if negb (inS 64 (Z.quot l r)) then stuck
  else if String.eqb op "/" then ret (Z.quot l r) else ret (Z.rem l r).

Definition bitwise_op (op : string) (l r : Z) : Z :=
  if String.eqb op "|" then Z.lor l r else if String.eqb op "&" then Z.land l r else Z.lxor l r.

Definition evalBinaryOp (op : string) (l r : ConstEvalResult) : SM ConstEvalResult :=
  let* tl := currentLayout in
  let finish value bits isUnsigned := ret (finalizeWithExprType tl (makeConstTyped value bits isUnsigned)) in
  let '(bits, isUnsigned) := commonIntegerType tl l r in
  if is_op op ["|"; "&"; "^"] then
    finish (bitwise_op op (u64 (truncateToWidth (cr_value l) bits isUnsigned)) (u64 (truncateToWidth (cr_value r) bits isUnsigned)))
      bits isUnsigned
  else if is_op op ["=="; "!="; "<"; "<="; ">"; ">="] then
    let cmp := if isUnsigned then compare_op op (u64 (truncateToWidth (cr_value l) bits true)) (u64 (truncateToWidth (cr_value r) bits true))
               else compare_op op (truncateToWidth (cr_value l) bits false) (truncateToWidth (cr_value r) bits false) in
    finish (if cmp then 1 else 0) (defaultIntBitsOf tl) false
  else if is_op op ["<<"; ">>"] then
    let opBits := or_default (cr_bitWidth l) (defaultIntBitsOf tl) in
    let opUnsigned := cr_isUnsigned l in
    let amount := cr_value r in
    if (amount <? 0) || (opBits <=? amount) then fail
    else if 64 <=? amount then stuck
    else
      let v := truncateToWidth (cr_value l) opBits opUnsigned in
      finish (if String.eqb op "<<" then u64 (Z.shiftl (u64 v) amount)
              else if opUnsigned then Z.shiftr (u64 v) amount
              else Z.shiftr (truncateToWidth (cr_value l) opBits false) amount) opBits opUnsigned
  else if is_op op ["+"; "-"; "*"; "/"; "%"] then
    if is_op op ["/"; "%"] && (cr_value r =? 0) then fail
    else if isUnsigned then
      finish (unsigned_op op (u64 (truncateToWidth (cr_value l) bits true)) (u64 (truncateToWidth (cr_value r) bits true))) bits true
    else
      let* v := signed_op op (truncateToWidth (cr_value l) bits false) (truncateToWidth (cr_value r) bits false) in
      finish v bits isUnsigned
  else fail.

(** ** Sizes *)

Definition record_kind (info : TypeInfo) : CCTagKind :=
  match ti_category info with TYPEINFO_STRUCT => CC_TAG_STRUCT | _ => CC_TAG_UNION end.

(** The layout of a record type: size and alignment. *)
Definition record_layout (info : TypeInfo) : SM (Z * Z) :=
  match scope, ti_userTypeName info with
  | _ :: _, Some name => layout_struct_union host scope size_align const_eval_rec (record_kind info) name
  | _, _ => fail
  end.

Definition sizeFromTypeInfo (info : TypeInfo) : SM Z :=
  let bytes := (or_default (ti_bitWidth info) 32 + 7) `div` 8 in
  match ti_category info with
  | TYPEINFO_INTEGER | TYPEINFO_ENUM => ret (or_default bytes 1)
  | TYPEINFO_FLOAT => ret (if ti_isComplex info then or_default bytes 4 * 2 else or_default bytes 4)
  | TYPEINFO_POINTER => ret 8
  | TYPEINFO_STRUCT | TYPEINFO_UNION => let* '(size, _) := record_layout info in ret size
  | _ => fail
  end.

Definition sizeFromParsedType (t : ParsedType) : SM Z := let* '(size, _) := size_align t in ret size.
Definition alignFromParsedType (t : ParsedType) : SM Z := let* '(_, align) := size_align t in ret align.

Definition alignFromTypeInfo (info : TypeInfo) : SM Z :=
  let* tl := currentLayout in
  let bits := or_default (ti_bitWidth info) 32 in
  match ti_category info with
  | TYPEINFO_INTEGER | TYPEINFO_ENUM => ret (sizeAlignFromBits tl bits 0).2
  | TYPEINFO_FLOAT => ret (if longDoubleBits tl <=? bits then longDoubleAlign tl
                           else if doubleBits tl <=? bits then doubleAlign tl else floatAlign tl)
  | TYPEINFO_POINTER => ret (pointerAlign tl)
  | TYPEINFO_STRUCT | TYPEINFO_UNION => let* '(_, align) := record_layout info in ret align
  | _ => fail
  end.

Definition bitsFromTypeInfo (tl : TargetLayout) (info : TypeInfo) : option (Z * bool) :=
  match ti_category info with
  | TYPEINFO_INTEGER | TYPEINFO_ENUM => Some (or_default (ti_bitWidth info) (defaultIntBitsOf tl), negb (ti_isSigned info))
  | TYPEINFO_POINTER => Some (defaultPointerBits tl, true)
  | _ => None
  end.

(** The symbol a name refers to, by its address. *)
Definition symbol_named (name : option string) : SM (option SymbolId) :=
  let* st := get in ret (n ← name; resolveInScopeChain st scope n).

Definition symbol_of (id : SymbolId) : SM Symbol := let* st := get in lift (ss_symbols st !! id).

Definition lookupWCharType : SM TypeInfo :=
  let* tl := currentLayout in
  let* w := symbol_named (Some "wchar_t"%string) in
  match w with
  | None => ret (makeIntegerType (defaultIntBitsOf tl) true TOKEN_INT)
  | Some id =>
      let* s := symbol_of id in
      if decide (sym_kind s = SYMBOL_TYPEDEF) then typeInfoFromSymbolCached host id scope
      else ret (makeIntegerType (defaultIntBitsOf tl) true TOKEN_INT)
  end.

(** The bytes of a string literal with its terminator. *)
Definition string_size (value : option string) : SM Z :=
  let* tl := currentLayout in
  let '(enc, payload) := ast_literal_encoding (option_map list_ascii_of_string value) in
  let text := default [] payload in
  match enc with
  | LIT_ENC_WIDE =>
      let* wchar := lookupWCharType in
      let wcharBits := or_default (ti_bitWidth wchar) (defaultIntBitsOf tl) in
      let res := (decode_c_string_literal_wide text wcharBits).1 in
      if negb (ld_ok res) then fail
      else
        let* size := attempt (sizeFromTypeInfo wchar) in
        ret ((Z.of_nat (ld_length res) + 1) * default ((wcharBits + 7) `div` 8) size)
  | _ =>
      let charBits_ := or_default (charBits tl) 8 in
      let res := (decode_c_string_literal text charBits_).1 in
      if negb (ld_ok res) then fail
      else ret ((Z.of_nat (ld_length res) + 1) * or_default ((charBits_ + 7) `div` 8) 1)
  end.

Definition incomplete_record (info : TypeInfo) : bool :=
  match ti_category info with TYPEINFO_STRUCT | TYPEINFO_UNION => negb (ti_isComplete info) | _ => false end.

Definition analyzed_size (target : ASTNode) : SM Z :=
  let* info := analyzeExpression target in
  let* array := match ti_category info, ti_originalType info with
                | TYPEINFO_ARRAY, Some t => attempt (sizeFromParsedType t)
                | _, _ => ret None
                end in
  match array with
  | Some size => ret size
  | None => if incomplete_record info then fail else sizeFromTypeInfo info
  end.

Definition analyzed_align (target : ASTNode) : SM Z :=
  let* info := analyzeExpression target in
  if incomplete_record info then fail else alignFromTypeInfo info.

(** A declared name by the type of its symbol, anything else with [analyze]. *)
Definition by_symbol (name : option string) (f : ParsedType -> SM Z) (analyze : SM Z) : SM Z :=
  let* sym := symbol_named name in
  match sym with
  | Some id => let* s := symbol_of id in f (sym_type s)
  | None => analyze
  end.

Definition evalSizeof (target : option ASTNode) : SM Z :=
  match target, scope with
  | Some n, _ :: _ =>
      match an_body n with
      | AST_PARSED_TYPE t => sizeFromParsedType t
      | AST_COMPOUND_LITERAL t _ _ => sizeFromParsedType t
      | AST_STRING_LITERAL v => string_size v
      | AST_IDENTIFIER name => by_symbol name sizeFromParsedType (analyzed_size n)
      | _ => analyzed_size n
      end
  | _, _ => fail
  end.

Definition evalAlignof (target : option ASTNode) : SM Z :=
  match target, scope with
  | Some n, _ :: _ =>
      match an_body n with
      | AST_PARSED_TYPE t => alignFromParsedType t
      | AST_IDENTIFIER name => by_symbol name alignFromParsedType (analyzed_align n)
      | _ => analyzed_align n
      end
  | _, _ => fail
  end.

Definition evalCast (value : Z) (castType : ParsedType) : SM ConstEvalResult :=
  let* tl := currentLayout in
  let* info := type_info_in host scope castType in
  match bitsFromTypeInfo tl info with
  | Some (bits, isUnsigned) => ret (makeConstTyped (truncateToWidth value bits isUnsigned) bits isUnsigned)
  | None => fail
  end.

(** The value of a floating constant cast to an integer type. *)
Definition parseFloatingLiteralValue (text : option string) : option Z :=
  text ← text;
  '(value, rest) ← strtold (list_ascii_of_string text);
  let rest := match rest with c :: r => if is_precision_mark c then r else rest | [] => [] end in
  match rest with
  | [] => if decide (is_Some (parse_integer_literal_info (list_ascii_of_string text) (tl_default host))) then None
          else Some value
  | _ :: _ => None
  end.

(** ** Identifiers *)

(** The value of enumerator [name]: one more than its predecessor's unless it has its own. *)
Fixpoint enumerator_value (members : list (option ASTNode)) (values : list (option NodeId)) (name : option string)
    (current : Z) (haveValue : bool) : SM Z :=
  match members with
  | [] => fail
  | member :: rest =>
      match member with
      | Some n =>
          match an_body n with
          | AST_IDENTIFIER member_name =>
              let* '(current, haveValue) :=
                match values with
                | Some id :: _ =>
                    let* v := node id in
                    let* explicit := attempt (const_eval_rec v) in
                    ret (match explicit with Some x => (x, true) | None => (current, haveValue) end)
                | _ => ret (if haveValue then current else 0, true)
                end in
              if decide (member_name = name) then ret current
              else let* next := long_long (current + 1) in enumerator_value rest (tail values) name next haveValue
          | _ => enumerator_value rest (tail values) name current haveValue
          end
      | None => enumerator_value rest (tail values) name current haveValue
      end
  end.

Definition evalIdentifier (name : option string) (allowEnumRefs : bool) : SM Z :=
  let* sym := symbol_named name in
  match sym with
  | None => fail
  | Some id =>
      let* s := symbol_of id in
      match sym_kind s, sym_constValue s with
      | SYMBOL_VARIABLE, Some v => ret v
      | SYMBOL_ENUM, _ =>
          if negb allowEnumRefs then fail
          else
            match sym_constValue s, sym_definition s with
            | Some v, _ => ret v
            | None, Some d =>
                let* def := node d in
                match an_body def with
                | AST_ENUM_DEFINITION _ members values => enumerator_value members values name 0 false
                | _ => fail
                end
            | None, None => fail
            end
      | _, _ => fail
      end
  end.

(** ** Character constants *)

Definition char_out_of_range (line : Z) : SM ConstEvalResult :=
  let* _ := addError line "Character literal value is out of range" in fail.

Definition evalChar (line : Z) (value : option string) : SM ConstEvalResult :=
  match ast_literal_encoding (option_map list_ascii_of_string value) with
  | (enc, Some payload) =>
      let* tl := currentLayout in
      let chVal := match parseIntegerLiteral payload tl with Some (v, _, _) => v | None => chr (at_index payload 0) end in
      let* litType := (match enc, scope with
                       | LIT_ENC_WIDE, _ :: _ => lookupWCharType
                       | _, _ => ret (makeIntegerType (defaultIntBitsOf tl) true TOKEN_INT)
                       end) in
      if bool_decide (enc = LIT_ENC_WIDE) && (0x10FFFF <? u64 chVal) then char_out_of_range line
      else
        let bits := or_default (ti_bitWidth litType)
                      (match parseIntegerLiteral payload tl with Some (_, b, _) => b | None => defaultIntBitsOf tl end) in
        if (bits <? 63) && ((chVal <? 0) || (2 ^ bits - 1 <? chVal)) then char_out_of_range line
        else ret (makeConstTyped chVal bits (negb (ti_isSigned litType)))
  | _ => fail
  end.

(** ** Expressions *)

Definition is_offsetof (callee : option ASTNode) : bool :=
  match callee with
  | Some n => match an_body n with
              | AST_IDENTIFIER (Some name) => String.eqb name "__builtin_offsetof" || String.eqb name "offsetof"
              | _ => false
              end
  | None => false
  end.

Definition evalOffsetof (arguments : list (option ASTNode)) : SM ConstEvalResult :=
  match arguments with
  | [Some t; Some f] =>
      match an_body t, an_body f with
      | AST_PARSED_TYPE type, AST_IDENTIFIER field =>
          let* offset := evalOffsetofFieldPath type field in
          let* tl := currentLayout in
          ret (makeConstTyped offset (defaultPointerBits tl) true)
      | _, _ => fail
      end
  | _ => fail
  end.

Definition evalUnaryOp (op : string) (r : ConstEvalResult) : SM ConstEvalResult :=
  let* tl := currentLayout in
  let bits := or_default (cr_bitWidth r) (defaultIntBitsOf tl) in
  let finish value bits isUnsigned := ret (finalizeWithExprType tl (makeConstTyped value bits isUnsigned)) in
  if String.eqb op "-" then let* v := long_long (- cr_value r) in finish v bits (cr_isUnsigned r)
  else if String.eqb op "+" then finish (cr_value r) bits (cr_isUnsigned r)
  else if String.eqb op "!" then finish (if cr_value r =? 0 then 1 else 0) (defaultIntBitsOf tl) false
  else if String.eqb op "~" then finish (Z.lnot (cr_value r)) bits (cr_isUnsigned r)
  else fail.

(** The text of a number literal. *)
Definition number_text (n : ASTNode) : option string := match an_body n with AST_NUMBER_LITERAL v => v | _ => None end.

Fixpoint constEvalInternal (allowEnumRefs : bool) (expr : ASTNode) : SM ConstEvalResult :=
  let child (e : option ASTNode) : SM ConstEvalResult :=
    match e with Some n => constEvalInternal allowEnumRefs n | None => fail end in
  match expr with
  | mkASTNode _ line _ _ _ _ body =>
      match body with
      | AST_NUMBER_LITERAL v =>
          let* tl := currentLayout in
          match (text ← v; parseIntegerLiteral (list_ascii_of_string text) tl) with
          | Some (value, bits, isUnsigned) => ret (makeConstTyped value bits isUnsigned)
          | None => fail
          end
      | AST_CHAR_LITERAL v => match v with None => fail | Some _ => evalChar line v end
      | AST_IDENTIFIER name =>
          match scope with
          | [] => fail
          | _ =>
              let* value := evalIdentifier name allowEnumRefs in
              let* tl := currentLayout in
              ret (finalizeWithExprType tl (makeConst value))
          end
      | AST_CAST_EXPRESSION castType operand =>
          let* inner := attempt (child operand) in
          let* value := (match inner with
                         | Some r => ret (cr_value r)
                         | None =>
                             match (n ← operand; number_text n) with
                             | Some text =>
                                 let* target := type_info_in host scope castType in
                                 match parseFloatingLiteralValue (Some text) with
                                 | Some v => if typeInfoIsInteger target then ret (cr_value (makeConst v)) else fail
                                 | None => fail
                                 end
                             | None => fail
                             end
                         end) in
          evalCast value castType
      | AST_UNARY_EXPRESSION op operand _ =>
          match op with
          | Some op => let* r := child operand in evalUnaryOp op r
          | None => fail
          end
      | AST_BINARY_EXPRESSION op lhs rhs =>
          match op with
          | None => fail
          | Some op =>
              if is_op op ["||"; "&&"] then
                let* l := child lhs in
                if eqb (String.eqb op "||") (negb (cr_value l =? 0))
                then ret (makeConst (if String.eqb op "||" then 1 else 0))
                else
                  let* r := child rhs in
                  let* tl := currentLayout in
                  ret (finalizeWithExprType tl (makeConstTyped (if cr_value r =? 0 then 0 else 1) (defaultIntBitsOf tl) false))
              else
                let* l := attempt (child lhs) in
                let* r := attempt (child rhs) in
                match l, r with
                | Some l, Some r => evalBinaryOp op l r
                | _, _ => fail
                end
          end
      | AST_TERNARY_EXPRESSION condition trueExpr falseExpr =>
          let* c := child condition in
          let* r := (if negb (cr_value c =? 0) then child trueExpr else child falseExpr) in
          let* tl := currentLayout in
          ret (finalizeWithExprType tl r)
      | AST_COMMA_EXPRESSION expressions =>
          (fix last_value (l : list (option ASTNode)) (value : option ConstEvalResult) : SM ConstEvalResult :=
             match l with
             | [] => match value with
                     | Some r => let* tl := currentLayout in ret (finalizeWithExprType tl r)
                     | None => fail
                     end
             | e :: rest =>
                 let* r := match e with Some n => constEvalInternal allowEnumRefs n | None => fail end in
                 last_value rest (Some r)
             end) expressions None
      | AST_SIZEOF target =>
          let* size := evalSizeof target in
          let* tl := currentLayout in
          ret (makeConstTyped size (defaultPointerBits tl) true)
      | AST_ALIGNOF target =>
          let* align := evalAlignof target in
          let* tl := currentLayout in
          ret (makeConstTyped align (defaultPointerBits tl) true)
      | AST_FUNCTION_CALL callee arguments => if is_offsetof callee then evalOffsetof arguments else fail
      | _ => fail
      end
  end.

(** ** The operands an integer constant expression may have *)

Definition constEval : ASTNode -> bool -> SM ConstEvalResult := fun expr allowEnumRefs => constEvalInternal allowEnumRefs expr.

(** [lhs.isConst] and [lhs.value]. *)
Definition const_value (e : option ASTNode) : SM (option Z) :=
  match e with
  | Some n => let* r := attempt (constEvalInternal true n) in ret (option_map cr_value r)
  | None => ret None
  end.

Definition identifierIsIntegerConstantOperand (name : option string) : SM bool :=
  match scope, name with
  | _ :: _, Some n =>
      let* sym := symbol_named name in
      match sym with
      | None => ret false
      | Some id =>
          let* s := symbol_of id in
          ret (match sym_kind s with
               | SYMBOL_ENUM => true
               | SYMBOL_VARIABLE =>
                   bool_decide (sym_definition s = None) && bool_decide (is_Some (sym_constValue s)) &&
                   (String.eqb n "true" || String.eqb n "false")
               | _ => false
               end)
      end
  | _, _ => ret false
  end.

Definition has_vla (t : ParsedType) : SM bool := let* st := get in ret (parsedTypeHasVLA (ss_nodes st) t).

Definition sizeofOperandHasVariablyModifiedType (operand : option ASTNode) : SM bool :=
  match operand, scope with
  | Some n, _ :: _ =>
      match an_body n with
      | AST_PARSED_TYPE t => has_vla t
      | AST_COMPOUND_LITERAL t _ _ => has_vla t
      | AST_IDENTIFIER (Some name) =>
          let* sym := symbol_named (Some name) in
          match sym with
          | Some id => let* s := symbol_of id in has_vla (sym_type s)
          | None => ret false
          end
      | _ =>
          let* info := analyzeExpression n in
          if ti_isVLA info then ret true
          else match ti_originalType info with Some t => has_vla t | None => ret false end
      end
  | _, _ => ret false
  end.

(** Both tests, the second only behind the first. *)
Definition and_then (a b : SM bool) : SM bool := let* x := a in if (x : bool) then b else ret false.

Fixpoint hasIntegerConstantExpressionOperands (evaluated : bool) (expr : ASTNode) : SM bool :=
  let child (evaluated : bool) (e : option ASTNode) : SM bool :=
    match e with Some n => hasIntegerConstantExpressionOperands evaluated n | None => ret false end in
  match expr with
  | mkASTNode _ _ _ _ _ _ body =>
      match body with
      | AST_NUMBER_LITERAL v =>
          let* tl := currentLayout in
          ret (bool_decide (is_Some (text ← v; parseIntegerLiteral (list_ascii_of_string text) tl)))
      | AST_CHAR_LITERAL _ => ret true
      | AST_IDENTIFIER name => identifierIsIntegerConstantOperand name
      | AST_CAST_EXPRESSION castType operand =>
          let* target := type_info_in host scope castType in
          if negb (typeInfoIsInteger target) then ret false
          else if bool_decide (is_Some (text ← (n ← operand; number_text n); parseFloatingLiteralValue (Some text))) then ret true
          else child evaluated operand
      | AST_UNARY_EXPRESSION op operand _ =>
          match op with
          | Some op => if is_op op ["+"; "-"; "!"; "~"] then child evaluated operand else ret false
          | None => ret false
          end
      | AST_BINARY_EXPRESSION op lhs rhs =>
          and_then (child evaluated lhs)
            (match op with
             | Some op =>
                 if is_op op ["&&"; "||"] then
                   let* l := const_value lhs in
                   match l with
                   | None => ret false
                   | Some v => child (evaluated && eqb (String.eqb op "&&") (negb (v =? 0))) rhs
                   end
                 else child evaluated rhs
             | None => child evaluated rhs
             end)
      | AST_TERNARY_EXPRESSION condition trueExpr falseExpr =>
          and_then (child evaluated condition)
            (let* c := const_value condition in
             match c with
             | None => ret false
             | Some v => and_then (child (evaluated && negb (v =? 0)) trueExpr) (child (evaluated && (v =? 0)) falseExpr)
             end)
      | AST_SIZEOF target => let* vla := sizeofOperandHasVariablyModifiedType target in ret (negb vla)
      | AST_ALIGNOF _ => ret true
      | AST_FUNCTION_CALL callee _ => ret (is_offsetof callee)
      | AST_COMMA_EXPRESSION expressions =>
          if evaluated then ret false
          else
            match expressions with
            | [] => ret false
            | _ =>
                (fix all_operands (l : list (option ASTNode)) : SM bool :=
                   match l with
                   | [] => ret true
                   | e :: rest =>
                       and_then (match e with Some n => hasIntegerConstantExpressionOperands false n | None => ret false end)
                         (all_operands rest)
                   end) expressions
            end
      | _ => ret false
      end
  end.

Definition constEvalIntegerResult (expr : ASTNode) (allowEnumRefs : bool) : SM ConstEvalResult :=
  let* ok := hasIntegerConstantExpressionOperands true expr in
  if (ok : bool) then constEvalInternal allowEnumRefs expr else fail.

Definition constEvalInteger (expr : ASTNode) (allowEnumRefs : bool) : SM Z :=
  let* r := constEvalIntegerResult expr allowEnumRefs in ret (cr_value r).

End ConstEval.

(** ** The knot *)

Section Knot.
Context (host : Host) (scope : Scope) (strtold : list ascii -> option (Z * list ascii)).
Context (analyzeExpression : ASTNode -> SM TypeInfo) (evalOffsetofFieldPath : ParsedType -> option string -> SM Z).

(** [fuel] bounds how often a size needs a constant, or a constant a size or another constant. *)
Fixpoint calls (fuel : nat) : (ParsedType -> SM (Z * Z)) * (ASTNode -> SM Z) :=
  match fuel with
  | O => (fun _ => stuck, fun _ => stuck)
  | S fuel' =>
      (size_align_step host scope (calls fuel').1 (calls fuel').2,
       fun n => constEvalInteger host scope strtold analyzeExpression evalOffsetofFieldPath (calls fuel').1 (calls fuel').2 n true)
  end.

Definition size_align_of_parsed_type (fuel : nat) : ParsedType -> SM (Z * Z) := (calls fuel).1.

End Knot.
