(* ===== verification/ConstEvalSpec.v ===== *)
(** * Constant expressions have the values of C.

    Integer constant expressions with their types after C11 6.3.1, 6.5 and 6.6, and the
    agreement of the evaluator with them. *)
From S2P Require Import Prelude CType StateError Tokens TargetLayout LiteralUtils AST ParsedTypes.
From S2P Require Import TypeInfo Semantic TypeChecker RecordLayout RecordLayoutSpec ConstEval.

(** ** The expressions of C *)

(** Width and whether signed. *)
Definition ctype : Set := (Z * bool)%type.
Definition c_int : ctype := (32, true).

Definition in_type (t : ctype) (v : Z) : bool := if t.2 then inS t.1 v else inU t.1 v.
Definition convert (t : ctype) (v : Z) : Z := if t.2 then wrapS t.1 v else wrapU t.1 v.
Definition standard (t : ctype) : bool := existsb (Z.eqb t.1) [8; 16; 32; 64].
Definition type_eqb (t u : ctype) : bool := (t.1 =? u.1) && eqb t.2 u.2.

Inductive ArithOp : Set := CAdd | CSub | CMul | CDiv | CMod.
Inductive BitOp : Set := COr | CAnd | CXor.
Inductive RelOp : Set := CEq | CNe | CLt | CLe | CGt | CGe.
Inductive UnaryOp : Set := CMinus | CPlus | CCompl.

Inductive cexpr : Set :=
  | CConst (t : ctype) (v : Z)
  | CEnumerator (v : Z)
  | CCast (t : ctype) (e : cexpr)
  | CUnary (op : UnaryOp) (e : cexpr)
  | CNot (e : cexpr)
  | CArith (op : ArithOp) (a b : cexpr)
  | CBits (op : BitOp) (a b : cexpr)
  | CCompare (op : RelOp) (a b : cexpr)
  | CShl (a b : cexpr)
  | CShr (a b : cexpr)
  | CLogOr (a b : cexpr)
  | CLogAnd (a b : cexpr)
  | CCond (c a b : cexpr).

Fixpoint c_type (e : cexpr) : ctype :=
  match e with
  | CConst t _ | CCast t _ => t
  | CEnumerator _ | CNot _ | CCompare _ _ _ | CLogOr _ _ | CLogAnd _ _ => c_int
  | CUnary _ a | CShl a _ | CShr a _ => c_promote (c_type a)
  | CArith _ a b | CBits _ a b | CCond _ a b => c_common (c_type a) (c_type b)
  end.

(** The result of arithmetic: unsigned types wrap, an overflow of a signed one is no constant. *)
Definition c_result (t : ctype) (v : Z) : option Z :=
  if t.2 then (if in_type t v then Some v else None) else Some (convert t v).

Definition c_arith (op : ArithOp) (t : ctype) (a b : Z) : option Z :=
  match op with
  | CAdd => c_result t (a + b)
  | CSub => c_result t (a - b)
  | CMul => c_result t (a * b)
  | CDiv => if b =? 0 then None else c_result t (Z.quot a b)
  | CMod => if b =? 0 then None else _ ← c_result t (Z.quot a b); Some (Z.rem a b)
  end.

(** On the two's complement bits. *)
Definition bits_of (op : BitOp) (a b : Z) : Z := match op with COr => Z.lor a b | CAnd => Z.land a b | CXor => Z.lxor a b end.
Definition c_bits (op : BitOp) (t : ctype) (a b : Z) : Z :=
  convert t (bits_of op a b).

Definition c_compare (op : RelOp) (a b : Z) : bool :=
  match op with
  | CEq => a =? b | CNe => negb (a =? b) | CLt => a <? b | CLe => a <=? b | CGt => b <? a | CGe => b <=? a
  end.

Definition c_unary (op : UnaryOp) (t : ctype) (a : Z) : option Z :=
  match op with CMinus => c_result t (- a) | CPlus => Some a | CCompl => Some (convert t (Z.lnot a)) end.

Definition c_bool (b : bool) : Z := if b then 1 else 0.

(** The value in [c_type e]; [None]: not an integer constant expression. *)
Fixpoint c_eval (e : cexpr) : option Z :=
  match e with
  | CConst _ v | CEnumerator v => Some v
  | CCast t a => v ← c_eval a; Some (convert t v)
  | CUnary op a => v ← c_eval a; c_unary op (c_promote (c_type a)) v
  | CNot a => v ← c_eval a; Some (c_bool (v =? 0))
  | CArith op a b =>
      let t := c_common (c_type a) (c_type b) in
      va ← c_eval a; vb ← c_eval b; c_arith op t (convert t va) (convert t vb)
  | CBits op a b =>
      let t := c_common (c_type a) (c_type b) in
      va ← c_eval a; vb ← c_eval b; Some (c_bits op t (convert t va) (convert t vb))
  | CCompare op a b =>
      let t := c_common (c_type a) (c_type b) in
      va ← c_eval a; vb ← c_eval b; Some (c_bool (c_compare op (convert t va) (convert t vb)))
  | CShl a b =>
      let t := c_promote (c_type a) in
      va ← c_eval a; vb ← c_eval b;
      if (0 <=? vb) && (vb <? t.1) && (0 <=? va) then c_result t (va * 2 ^ vb) else None
  | CShr a b =>
      va ← c_eval a; vb ← c_eval b;
      if (0 <=? vb) && (vb <? (c_promote (c_type a)).1) then Some (Z.shiftr va vb) else None
  | CLogOr a b => va ← c_eval a; if va =? 0 then (vb ← c_eval b; Some (c_bool (negb (vb =? 0)))) else Some 1
  | CLogAnd a b => va ← c_eval a; if va =? 0 then Some 0 else (vb ← c_eval b; Some (c_bool (negb (vb =? 0))))
  | CCond c a b =>
      vc ← c_eval c; v ← (if vc =? 0 then c_eval b else c_eval a);
      Some (convert (c_common (c_type a) (c_type b)) v)
  end.

(** ** Where the evaluator agrees

    It does not promote the operands of unary and shift operators, gives a conditional the type
    of the branch taken, and gives enumerators and decided [&&] and [||] 64 bits.  [agrees true]:
    value and type are those of C; [agrees false]: the value is. *)
Fixpoint agrees (exact : bool) (e : cexpr) : bool :=
  match e with
  | CConst t v => standard t && in_type t v
  | CEnumerator v => negb exact && in_type c_int v
  | CCast t a => standard t && agrees false a
  | CNot a => agrees false a
  | CUnary op a =>
      agrees true a && (32 <=? (c_type a).1) &&
      match op, c_eval a with CMinus, Some v => negb (v =? 2 ^ 63) | _, _ => true end
  | CArith _ a b | CBits _ a b | CCompare _ a b => agrees true a && agrees true b
  | CShl a b | CShr a b => agrees true a && (32 <=? (c_type a).1) && agrees false b
  | CLogOr a b | CLogAnd a b => negb exact && agrees false a && agrees false b
  | CCond c a b =>
      agrees false c && agrees exact a && agrees exact b && type_eqb (c_type a) (c_type b) && (32 <=? (c_type a).1)
  end.

(** ** Trees that stand for an expression *)

Definition arith_text (op : ArithOp) : string :=
  match op with CAdd => "+" | CSub => "-" | CMul => "*" | CDiv => "/" | CMod => "%" end.
Definition bits_text (op : BitOp) : string := match op with COr => "|" | CAnd => "&" | CXor => "^" end.
Definition compare_text (op : RelOp) : string :=
  match op with CEq => "==" | CNe => "!=" | CLt => "<" | CLe => "<=" | CGt => ">" | CGe => ">=" end.
Definition unary_text (op : UnaryOp) : string := match op with CMinus => "-" | CPlus => "+" | CCompl => "~" end.

Section Denotes.
Context (host : Host) (scope : Scope) (st : SemState).

Let tl : TargetLayout := target_layout host st scope.

Inductive binary_node (n : ASTNode) (op : string) (a b : ASTNode) : Prop :=
  binary_node_intro : an_body n = AST_BINARY_EXPRESSION (Some op) (Some a) (Some b) -> binary_node n op a b.

(** Literals by their text, enumerators by their symbol, casts to integer types by their type. *)
Inductive denotes : ASTNode -> cexpr -> Prop :=
  | den_number n text info :
      an_body n = AST_NUMBER_LITERAL (Some text) -> parse_integer_literal_info (list_ascii_of_string text) tl = Some info ->
      denotes n (CConst (il_bits info, negb (il_isUnsigned info)) (il_value info))
  | den_char n text payload info :
      an_body n = AST_CHAR_LITERAL (Some text) ->
      ast_literal_encoding (Some (list_ascii_of_string text)) = (LIT_ENC_NARROW, Some payload) ->
      parse_integer_literal_info payload tl = Some info -> 0 <= il_value info < 2 ^ 31 ->
      denotes n (CConst c_int (il_value info))
  | den_enumerator n name id s v :
      an_body n = AST_IDENTIFIER (Some name) -> resolveInScopeChain st scope name = Some id -> ss_symbols st !! id = Some s ->
      sym_kind s = SYMBOL_ENUM -> sym_constValue s = Some v -> denotes n (CEnumerator v)
  | den_cast n castType operand e info t :
      an_body n = AST_CAST_EXPRESSION castType (Some operand) -> denotes operand e ->
      typeInfoFromParsedType host st castType scope = Some info -> bitsFromTypeInfo tl info = Some (t.1, negb t.2) ->
      denotes n (CCast t e)
  | den_unary n op operand e postfix :
      an_body n = AST_UNARY_EXPRESSION (Some (unary_text op)) (Some operand) postfix -> denotes operand e ->
      denotes n (CUnary op e)
  | den_not n operand e postfix :
      an_body n = AST_UNARY_EXPRESSION (Some "!"%string) (Some operand) postfix -> denotes operand e -> denotes n (CNot e)
  | den_arith n op a b ea eb : binary_node n (arith_text op) a b -> denotes a ea -> denotes b eb -> denotes n (CArith op ea eb)
  | den_bits n op a b ea eb : binary_node n (bits_text op) a b -> denotes a ea -> denotes b eb -> denotes n (CBits op ea eb)
  | den_compare n op a b ea eb :
      binary_node n (compare_text op) a b -> denotes a ea -> denotes b eb -> denotes n (CCompare op ea eb)
  | den_shl n a b ea eb : binary_node n "<<" a b -> denotes a ea -> denotes b eb -> denotes n (CShl ea eb)
  | den_shr n a b ea eb : binary_node n ">>" a b -> denotes a ea -> denotes b eb -> denotes n (CShr ea eb)
  | den_or n a b ea eb : binary_node n "||" a b -> denotes a ea -> denotes b eb -> denotes n (CLogOr ea eb)
  | den_and n a b ea eb : binary_node n "&&" a b -> denotes a ea -> denotes b eb -> denotes n (CLogAnd ea eb)
  | den_cond n c a b ec ea eb :
      an_body n = AST_TERNARY_EXPRESSION (Some c) (Some a) (Some b) -> denotes c ec -> denotes a ea -> denotes b eb ->
      denotes n (CCond ec ea eb).

End Denotes.

(** ** Truncation is conversion *)

Lemma wrapU_narrow (w x : Z) : 0 <= w <= 64 -> wrapU w (u64 x) = wrapU w x.
Proof.
  intros Hw. unfold wrapU. apply Z.mod_mod_divide. exists (2 ^ (64 - w)). rewrite <- Z.pow_add_r by lia. f_equal. lia.
Qed.

Lemma wrapU_narrow_signed (w x : Z) : 0 <= w <= 64 -> wrapU w (i64 x) = wrapU w x.
Proof. intros Hw. rewrite <- (wrapU_narrow w (i64 x)), wrapU_wrapS, wrapU_narrow by lia. done. Qed.

Lemma wrapS_narrow (w x : Z) : 0 < w <= 64 -> wrapS w (i64 x) = wrapS w x.
Proof. intros Hw. rewrite <- (wrapS_wrapU w (i64 x)), wrapU_narrow_signed, wrapS_wrapU by lia. done. Qed.

(** The upper half of the [w]-bit numbers has the sign bit. *)
Lemma sign_bit (w v : Z) : 0 < w -> 0 <= v < 2 ^ w -> Z.testbit v (w - 1) = (2 ^ (w - 1) <=? v).
Proof.
  intros Hw Hv. rewrite Z.testbit_eqb by lia. pose proof (pow2_split w Hw). pose proof (pow2_pos (w - 1) ltac:(lia)).
  destruct (Z.leb_spec (2 ^ (w - 1)) v).
  - replace (v `div` 2 ^ (w - 1)) with 1; [done|]. apply Z.div_unique with (v - 2 ^ (w - 1)); lia.
  - rewrite Z.div_small by lia. done.
Qed.

Lemma sign_extend (w v : Z) : 0 < w < 64 -> 0 <= v < 2 ^ w -> Z.lor v (Z.ldiff (2 ^ 64 - 1) (2 ^ w - 1)) = v + (2 ^ 64 - 2 ^ w).
Proof.
  intros Hw Hv. assert (Z.ldiff (2 ^ 64 - 1) (2 ^ w - 1) = 2 ^ 64 - 2 ^ w) as ->.
  { rewrite <- Z.sub_nocarry_ldiff; [lia|]. rewrite !Z.sub_1_r, <- !Z.ones_equiv. apply Z.bits_inj'. intros i Hi.
    rewrite Z.ldiff_spec, !Z.testbit_ones, Z.bits_0 by lia.
    destruct (Z.leb_spec 0 i), (Z.ltb_spec i w), (Z.ltb_spec i 64); try lia; done. }
  assert (Z.land v (2 ^ 64 - 2 ^ w) = 0) as Hland.
  { replace (2 ^ 64 - 2 ^ w) with (Z.shiftl (2 ^ (64 - w) - 1) w)
      by (rewrite Z.shiftl_mul_pow2, Z.mul_sub_distr_r, <- Z.pow_add_r by lia; f_equal; [f_equal|]; lia).
    apply Z.bits_inj'. intros i Hi. rewrite Z.land_spec, Z.bits_0. destruct (Z.lt_ge_cases i w).
    - rewrite Z.shiftl_spec_low by lia. apply andb_false_r.
    - destruct (decide (v = 0)) as [->|]; [by rewrite Z.bits_0|]. rewrite (Z.bits_above_log2 v i); [done|lia|].
      apply Z.lt_le_trans with w; [apply Z.log2_lt_pow2; lia|lia]. }
  rewrite <- Z.lxor_lor, Z.add_nocarry_lxor by done. done.
Qed.

Lemma truncate_spec (w x : Z) (isUnsigned : bool) :
  0 < w < 64 -> truncateToWidth (i64 x) w isUnsigned = if isUnsigned then wrapU w x else wrapS w x.
Proof.
  intros Hw. unfold truncateToWidth. destruct (Z.eqb_spec w 0), (Z.leb_spec 64 w); try lia. cbn [orb].
  rewrite wrapU_wrapS by lia. rewrite Z.sub_1_r, <- Z.ones_equiv, Z.land_ones by lia. fold (wrapU w (u64 x)).
  rewrite wrapU_narrow by lia. pose proof (wrapU_range w x ltac:(lia)) as Hr. pose proof (pow2_split w ltac:(lia)) as Hs.
  assert (2 ^ w <= 2 ^ 63) as H63 by (apply Z.pow_le_mono_r; lia).
  assert (i64 (wrapU w x) = wrapU w x) as Hsmall by (apply wrapS_small; lia).
  destruct isUnsigned; cbn [negb andb]; [done|]. rewrite sign_bit by lia.
  rewrite <- (wrapS_wrapU w x) by lia. generalize dependent (wrapU w x). intros v Hv _.
  assert (wrapS w v = if 2 ^ (w - 1) <=? v then v - 2 ^ w else v) as ->.
  { destruct (Z.leb_spec (2 ^ (w - 1)) v); [|apply wrapS_small; lia]. unfold wrapS.
    rewrite <- (Z.mod_add _ (-1)) by lia. rewrite Z.mod_small; lia. }
  destruct (Z.leb_spec (2 ^ (w - 1)) v); [|apply wrapS_small; lia].
  rewrite Z.ones_equiv, <- Z.sub_1_r, sign_extend by lia. unfold wrapS at 1.
  rewrite <- (Z.mod_add _ (-1)) by lia. rewrite Z.mod_small; lia.
Qed.

Lemma standard_cases (t : ctype) : standard t = true -> t.1 = 8 \/ t.1 = 16 \/ t.1 = 32 \/ t.1 = 64.
Proof. unfold standard. cbn. rewrite !orb_true_iff, !Z.eqb_eq. intros H. destruct_or! H; auto; done. Qed.

Lemma convert_range (t : ctype) (v : Z) : standard t = true -> in_type t (convert t v) = true.
Proof.
  intros Hs%standard_cases. unfold in_type, convert. destruct t as [w []]; cbn [fst snd] in *.
  - apply inS_spec, wrapS_range. lia.
  - apply inU_spec, wrapU_range. lia.
Qed.

Lemma convert_id (t : ctype) (v : Z) : standard t = true -> in_type t v = true -> convert t v = v.
Proof.
  intros Hs%standard_cases. unfold in_type, convert. destruct t as [w []]; cbn [fst snd] in *.
  - rewrite inS_spec. apply wrapS_small. lia.
  - rewrite inU_spec. apply wrapU_small.
Qed.

(** How the evaluator represents value [v] of type [t]. *)
Definition repr (t : ctype) (v : Z) : ConstEvalResult := mkConst (i64 v) t.1 (negb t.2).

Lemma truncate_convert (t : ctype) (x : Z) :
  standard t = true -> truncateToWidth (i64 x) t.1 (negb t.2) = i64 (convert t x).
Proof.
  intros Hs%standard_cases. destruct (decide (t.1 = 64)) as [E|E].
  - unfold truncateToWidth, convert. rewrite E. cbn [Z.eqb Z.leb orb]. change (64 <=? 64) with true. cbn [orb].
    destruct t as [w []]; cbn in *; subst; [|by rewrite wrapS_wrapU by lia].
    symmetry. apply wrapS_small; [lia|]. pose proof (wrapS_range 64 x). lia.
  - rewrite truncate_spec by lia. unfold convert. destruct t as [w []]; cbn [fst snd negb] in *.
    + symmetry. apply wrapS_small; [lia|]. pose proof (wrapS_range w x ltac:(lia)).
      assert (2 ^ (w - 1) <= 2 ^ 63) by (apply Z.pow_le_mono_r; lia). lia.
    + symmetry. apply wrapS_small; [lia|]. pose proof (wrapU_range w x ltac:(lia)).
      assert (2 ^ w <= 2 ^ 63) by (apply Z.pow_le_mono_r; lia). lia.
Qed.

Lemma typed_repr (t : ctype) (x : Z) : standard t = true -> makeConstTyped x t.1 (negb t.2) = repr t (convert t x).
Proof. intros Hs. unfold makeConstTyped, repr. by rewrite truncate_convert. Qed.

Lemma finalize_repr (tl : TargetLayout) (t : ctype) (v : Z) :
  standard t = true -> in_type t v = true -> finalizeWithExprType tl (repr t v) = repr t v.
Proof.
  intros Hs Hv. unfold finalizeWithExprType, repr, or_default. cbn [cr_bitWidth cr_isUnsigned cr_value].
  pose proof (standard_cases t Hs). destruct (Z.eqb_spec t.1 0); [lia|].
  by rewrite truncate_convert, convert_id by done.
Qed.

Lemma finish_repr (tl : TargetLayout) (t : ctype) (x : Z) :
  standard t = true -> finalizeWithExprType tl (makeConstTyped x t.1 (negb t.2)) = repr t (convert t x).
Proof. intros Hs. rewrite typed_repr by done. apply finalize_repr; [done|]. by apply convert_range. Qed.

(** ** The conversions *)

Lemma promote_standard (t : ctype) : standard t = true -> standard (c_promote t) = true.
Proof. intros H. unfold c_promote. by destruct (t.1 <? 32). Qed.

Lemma common_standard (t u : ctype) : standard t = true -> standard u = true -> standard (c_common t u) = true.
Proof.
  intros Ht%promote_standard Hu%promote_standard. unfold c_common. destruct (c_promote t) as [wa sa] eqn:Ea, (c_promote u) as [wb sb].
  repeat case_match; done.
Qed.

Lemma promote_wide (t : ctype) : (32 <=? t.1) = true -> c_promote t = t.
Proof. intros H%Z.leb_le. unfold c_promote. by destruct (Z.ltb_spec t.1 32); [lia|]. Qed.

Lemma common_same (t u : ctype) : type_eqb t u = true -> (32 <=? t.1) = true -> c_common t u = t.
Proof.
  intros [H1%Z.eqb_eq H2%eqb_prop]%andb_prop Hw. destruct t as [w s], u as [w' s']; cbn in *; subst.
  unfold c_common. rewrite promote_wide by done. cbn. rewrite Z.ltb_irrefl. by rewrite andb_diag.
Qed.

Lemma standard_width (t : ctype) : standard t = true -> 0 < t.1 <= 64.
Proof. intros H%standard_cases. lia. Qed.

(** Reading a representation as an unsigned 64-bit number, and narrowing that. *)
Lemma convert_u64 (t : ctype) (x : Z) : standard t = true -> convert t (u64 x) = convert t x.
Proof.
  intros Hs%standard_width. unfold convert. destruct t as [w []]; cbn in *.
  - rewrite <- (wrapS_wrapU w (u64 x)), wrapU_narrow, wrapS_wrapU by lia. done.
  - apply wrapU_narrow. lia.
Qed.

Lemma convert_mod (t : ctype) (x y : Z) : standard t = true -> wrapU t.1 x = wrapU t.1 y -> convert t x = convert t y.
Proof.
  intros Hs%standard_width H. unfold convert. destruct t as [w []]; cbn in *; [|done].
  by rewrite <- (wrapS_wrapU w x), H, wrapS_wrapU by lia.
Qed.

Lemma i64_in_type (t : ctype) (v : Z) : standard t = true -> in_type t v = true -> t <> (64, false) -> i64 v = v.
Proof.
  intros Hs%standard_cases Hv Ht. apply wrapS_small; [lia|]. unfold in_type in Hv. destruct t as [w []]; cbn in *.
  - apply inS_spec in Hv. assert (2 ^ (w - 1) <= 2 ^ 63) by (apply Z.pow_le_mono_r; lia). lia.
  - apply inU_spec in Hv. assert (w < 64) by (destruct (decide (w = 64)); [by subst|lia]).
    assert (2 ^ w <= 2 ^ 63) by (apply Z.pow_le_mono_r; lia). lia.
Qed.

Lemma u64_unsigned (w v : Z) : 0 < w <= 64 -> u64 (i64 (wrapU w v)) = wrapU w v.
Proof.
  intros Hw. rewrite wrapU_wrapS by lia. apply wrapU_small. pose proof (wrapU_range w v ltac:(lia)).
  assert (2 ^ w <= 2 ^ 64) by (apply Z.pow_le_mono_r; lia). lia.
Qed.

Lemma repr_zero (t : ctype) (v : Z) : standard t = true -> in_type t v = true -> (i64 v =? 0) = (v =? 0).
Proof.
  intros Hs Hv. destruct (decide (t = (64, false))) as [->|Ht]; [|by rewrite (i64_in_type t)].
  apply inU_spec in Hv. cbn in Hv. destruct (Z.lt_ge_cases v (2 ^ 63)).
  - rewrite wrapS_small by lia. done.
  - unfold wrapS. rewrite <- (Z.mod_add _ (-1)) by lia. rewrite Z.mod_small by lia.
    destruct (Z.eqb_spec (v + 2 ^ (64 - 1) + -1 * 2 ^ 64 - 2 ^ (64 - 1)) 0), (Z.eqb_spec v 0); lia.
Qed.

Lemma common_repr (host : Host) (tl : TargetLayout) (ta tb : ctype) (a b : Z) :
  standard ta = true -> standard tb = true ->
  commonIntegerType host tl (repr ta a) (repr tb b) = ((c_common ta tb).1, negb (c_common ta tb).2).
Proof.
  intros Ha Hb. unfold commonIntegerType, repr, or_default. cbn [cr_bitWidth cr_isUnsigned]. rewrite !negb_involutive.
  pose proof (standard_width _ Ha). pose proof (standard_width _ Hb).
  pose proof (standard_width _ (common_standard _ _ Ha Hb)).
  destruct (Z.eqb_spec ta.1 0), (Z.eqb_spec tb.1 0); try lia.
  destruct (usual_conversion_shape host (makeIntegerType ta.1 ta.2 TOKEN_INT) (makeIntegerType tb.1 tb.2 TOKEN_INT))
    as (r & -> & _ & Hr); [done|done|..].
  1,2: cbn; unfold is_c_width; apply standard_cases in Ha, Hb; lia.
  unfold int_shape in Hr. cbn in Hr. rewrite <- !surjective_pairing in Hr.
  assert (ti_bitWidth r = (c_common ta tb).1 /\ ti_isSigned r = (c_common ta tb).2) as [-> ->] by (by rewrite <- Hr).
  destruct (Z.eqb_spec (c_common ta tb).1 0); [lia|done].
Qed.

(** ** The operators *)

(** Bitwise operators work on each bit, so the high ones do not matter. *)
Lemma bits_narrow (op : BitOp) (w a b : Z) :
  0 < w <= 64 -> wrapU w (bitwise_op (bits_text op) (u64 a) (u64 b)) = wrapU w (bits_of op a b).
Proof.
  intros Hw. unfold wrapU. rewrite <- !Z.land_ones by lia. apply Z.bits_inj'. intros i Hi.
  destruct op; unfold bitwise_op, bits_of; cbn [bits_text String.eqb Ascii.eqb Bool.eqb];
    rewrite ?Z.land_spec, ?Z.lor_spec, ?Z.lxor_spec, ?Z.land_spec, ?Z.testbit_ones by lia;
    destruct (Z.leb_spec 0 i), (Z.ltb_spec i w), (Z.ltb_spec i 64); try lia; cbn [andb];
    by rewrite ?andb_true_r, ?andb_false_r.
Qed.

Section Operators.
Context (host : Host) (scope : Scope) (st : SemState).
Let tl : TargetLayout := target_layout host st scope.
Hypothesis Hint : intBits tl = 32.

Lemma bind_layout {A} (k : TargetLayout -> SM A) : bind (currentLayout host scope) k st = k tl st.
Proof. done. Qed.

Lemma default_int : defaultIntBitsOf tl = 32.
Proof. unfold defaultIntBitsOf. by rewrite Hint. Qed.

Lemma int_result (b : bool) : finalizeWithExprType tl (makeConstTyped (c_bool b) 32 false) = repr c_int (c_bool b).
Proof. rewrite (finish_repr tl c_int) by done. by destruct b. Qed.

(** An integer operand: its type is one of C's, its value one of the type's. *)
Definition typed (t : ctype) (v : Z) : Prop := standard t = true /\ in_type t v = true.

Lemma compare_repr (op : RelOp) (ta tb : ctype) (a b : Z) :
  typed ta a -> typed tb b ->
  evalBinaryOp host scope (compare_text op) (repr ta a) (repr tb b) st =
  Some (Some (repr c_int (c_bool (c_compare op (convert (c_common ta tb) a) (convert (c_common ta tb) b)))), st).
Proof.
  intros [Ha _] [Hb _]. pose proof (common_standard _ _ Ha Hb) as Hc. unfold evalBinaryOp. rewrite bind_layout, common_repr by done.
  set (t := c_common ta tb) in *. cbn [repr cr_value].
  replace (is_op (compare_text op) ["|"; "&"; "^"]%string) with false by by destruct op.
  replace (is_op (compare_text op) ["=="; "!="; "<"; "<="; ">"; ">="]%string) with true by by destruct op.
  rewrite default_int. cbn [repr cr_value]. rewrite <- int_result. unfold ret. do 5 f_equal.
  pose proof (truncate_convert t a Hc) as Hta. pose proof (truncate_convert t b Hc) as Htb.
  pose proof (standard_width t Hc) as Hw.
  destruct t as [w s]; cbn [fst snd] in *. destruct s; cbn [negb] in *; rewrite Hta, Htb.
  - rewrite !(i64_in_type (w, true)) by (first [done | by apply convert_range]). by destruct op.
  - unfold convert; cbn [fst snd]. rewrite !u64_unsigned by done. by destruct op.
Qed.

Lemma bits_repr (op : BitOp) (ta tb : ctype) (a b : Z) :
  typed ta a -> typed tb b ->
  let t := c_common ta tb in
  evalBinaryOp host scope (bits_text op) (repr ta a) (repr tb b) st =
  Some (Some (repr t (c_bits op t (convert t a) (convert t b))), st).
Proof.
  intros [Ha _] [Hb _] t. pose proof (common_standard _ _ Ha Hb : standard t = true) as Hc.
  unfold evalBinaryOp. rewrite bind_layout, common_repr by done. fold t. cbn [repr cr_value].
  replace (is_op (bits_text op) ["|"; "&"; "^"]%string) with true by by destruct op.
  rewrite !truncate_convert, finish_repr by done. unfold ret, c_bits. rewrite !wrapU_wrapS by lia.
  by rewrite (convert_mod t _ _ Hc (bits_narrow op t.1 _ _ (standard_width t Hc))).
Qed.

Lemma in_signed (w v : Z) : 0 < w <= 64 -> inS w v = true -> inS 64 v = true.
Proof.
  intros Hw. rewrite !inS_spec. assert (2 ^ (w - 1) <= 2 ^ 63) by (apply Z.pow_le_mono_r; lia). lia.
Qed.

(** Signed arithmetic on operands of the common type. *)
Lemma signed_op_spec (op : ArithOp) (w x y v : Z) (s : SemState) :
  0 < w <= 64 -> inS w x = true -> inS w y = true -> c_arith op (w, true) x y = Some v ->
  signed_op (arith_text op) x y s = Some (Some v, s) /\ inS w v = true.
Proof.
  intros Hw Hx Hy. unfold signed_op, long_long, c_arith, c_result, in_type. cbn [fst snd].
  assert (H64 : forall z, inS w z = true -> inS 64 z = true) by (intros z; by apply in_signed). clear Hx.
  revert Hy. destruct op; cbn [arith_text String.eqb Ascii.eqb Bool.eqb].
  1,2,3: intros _; destruct (inS w _) eqn:E; [|done]; intros [= <-]; rewrite (H64 _ E); by split.
  1,2: destruct (y =? 0) eqn:Ey; [done|]; destruct (inS w (Z.quot x y)) eqn:E; [|done]; cbn [mbind option_bind];
    intros Hy [= <-]; rewrite (H64 _ E); split; try done.
  apply Z.eqb_neq in Ey. pose proof (Z.rem_bound_abs x y Ey). apply inS_spec. apply inS_spec in Hy. lia.
Qed.

Lemma unsigned_op_spec (op : ArithOp) (w x y v : Z) :
  0 < w <= 64 -> inU w x = true -> inU w y = true -> c_arith op (w, false) x y = Some v ->
  convert (w, false) (unsigned_op (arith_text op) x y) = v.
Proof.
  intros Hw Hx%inU_spec Hy%inU_spec. unfold unsigned_op, c_arith, c_result, convert. cbn [fst snd].
  destruct op; cbn [arith_text String.eqb Ascii.eqb Bool.eqb].
  1,2,3: intros [= <-]; apply wrapU_narrow; lia.
  1,2: destruct (Z.eqb_spec y 0) as [|Ey]; [done|]; cbn [mbind option_bind]; intros [= <-].
  - by rewrite Z.quot_div_nonneg by lia.
  - rewrite Z.rem_mod_nonneg by lia. apply wrapU_small. pose proof (Z.mod_pos_bound x y). pose proof (Z.mod_le x y). lia.
Qed.

Lemma arith_repr (op : ArithOp) (ta tb : ctype) (a b v : Z) :
  typed ta a -> typed tb b ->
  let t := c_common ta tb in
  c_arith op t (convert t a) (convert t b) = Some v ->
  evalBinaryOp host scope (arith_text op) (repr ta a) (repr tb b) st = Some (Some (repr t v), st).
Proof.
  intros [Ha _] [Hb Hbt] t Hv. pose proof (common_standard _ _ Ha Hb : standard t = true) as Hc.
  pose proof (standard_width t Hc) as Hw. pose proof (convert_range t a Hc) as Hx. pose proof (convert_range t b Hc) as Hy.
  unfold evalBinaryOp. rewrite bind_layout, common_repr by done. fold t. cbn [repr cr_value].
  replace (is_op (arith_text op) _) with false by by destruct op. replace (is_op (arith_text op) _) with false by by destruct op.
  replace (is_op (arith_text op) _) with false by by destruct op.
  replace (is_op (arith_text op) ["+"; "-"; "*"; "/"; "%"]%string) with true by by destruct op.
  replace (is_op (arith_text op) ["/"; "%"]%string && (i64 b =? 0)) with false; [|].
  2: { rewrite (repr_zero tb b) by done. destruct (Z.eqb_spec b 0) as [->|]; [|by rewrite andb_false_r].
       assert (convert t 0 = 0) as E by (apply convert_id; [done|]; destruct t as [w []]; cbn;
         rewrite ?inS_spec, ?inU_spec; pose proof (pow2_pos (w - 1)); cbn in Hw; lia).
       rewrite E in Hv. by destruct op. }
  pose proof (finish_repr tl t) as Hfin. pose proof (truncate_convert t a Hc) as Hta. pose proof (truncate_convert t b Hc) as Htb.
  destruct t as [w []]; cbn [fst snd negb] in *; rewrite Hta, Htb.
  - rewrite !(i64_in_type (w, true)) by done.
    destruct (signed_op_spec op w (convert (w, true) a) (convert (w, true) b) v st Hw Hx Hy Hv) as [E Hin].
    unfold bind. rewrite E. unfold ret. rewrite Hfin by done. by rewrite convert_id.
  - unfold ret. rewrite Hfin by done. unfold convert in *. cbn [fst snd] in *. rewrite !u64_unsigned by done.
    do 4 f_equal. by apply (unsigned_op_spec op w).
Qed.

Lemma shift_amount (t : ctype) (b : Z) : standard t = true -> 0 <= b < t.1 -> i64 b = b.
Proof. intros H%standard_width Hb. apply wrapS_small; lia. Qed.

Lemma shl_repr (ta : ctype) (a b : Z) (rb : ConstEvalResult) (v : Z) :
  typed ta a -> (32 <=? ta.1) = true -> cr_value rb = i64 b ->
  (if (0 <=? b) && (b <? ta.1) && (0 <=? a) then c_result ta (a * 2 ^ b) else None) = Some v ->
  evalBinaryOp host scope "<<" (repr ta a) rb st = Some (Some (repr ta v), st).
Proof.
  intros [Ha Hat] Hw Hb Hv. pose proof (standard_width ta Ha) as Hw'. apply Z.leb_le in Hw.
  destruct ((0 <=? b) && (b <? ta.1) && (0 <=? a)) eqn:E; [|done]. rewrite !andb_true_iff, !Z.leb_le, Z.ltb_lt in E.
  unfold evalBinaryOp. rewrite bind_layout. destruct (commonIntegerType _ _ _ _). cbn [is_op existsb String.eqb Ascii.eqb Bool.eqb orb].
  rewrite Hb, (shift_amount ta) by (first [done|lia]). cbn [repr cr_value cr_bitWidth cr_isUnsigned]. unfold or_default.
  destruct (Z.eqb_spec ta.1 0); [lia|]. destruct (Z.ltb_spec b 0), (Z.leb_spec ta.1 b); try lia. cbn [orb].
  destruct (Z.leb_spec 64 b); [lia|]. rewrite truncate_convert, finish_repr by done. unfold ret.
  rewrite convert_u64, (convert_id ta a), Z.shiftl_mul_pow2, wrapU_wrapS by (first [done|lia]).
  assert (convert ta (u64 a * 2 ^ b) = convert ta (a * 2 ^ b)) as ->.
  { rewrite <- (convert_u64 ta (a * 2 ^ b)), <- (convert_u64 ta (u64 a * 2 ^ b)) by done. f_equal. unfold wrapU.
    by rewrite Zmult_mod_idemp_l. }
  unfold c_result in Hv. destruct ta as [w []]; cbn [snd] in Hv; [|by injection Hv as <-].
  destruct (in_type (w, true) (a * 2 ^ b)) eqn:Ev; [|done]. injection Hv as <-. by rewrite convert_id.
Qed.

Lemma shiftr_in_type (t : ctype) (a b : Z) : typed t a -> 0 <= b -> in_type t (Z.shiftr a b) = true.
Proof.
  intros [Hs Ha] Hb. pose proof (standard_width t Hs). rewrite Z.shiftr_div_pow2 by done.
  pose proof (pow2_pos b Hb). unfold in_type in *. destruct t as [w []]; cbn in *.
  - apply inS_spec in Ha. apply inS_spec. pose proof (pow2_pos (w - 1)).
    split; [apply Z.div_le_lower_bound; nia|apply Z.div_lt_upper_bound; nia].
  - apply inU_spec in Ha. apply inU_spec. split; [apply Z.div_pos; lia|]. apply Z.div_lt_upper_bound; nia.
Qed.

Lemma shr_repr (ta : ctype) (a b : Z) (rb : ConstEvalResult) :
  typed ta a -> cr_value rb = i64 b -> 0 <= b < ta.1 ->
  evalBinaryOp host scope ">>" (repr ta a) rb st = Some (Some (repr ta (Z.shiftr a b)), st).
Proof.
  intros [Ha Hat] Hb Hr. pose proof (standard_width ta Ha) as Hw'.
  unfold evalBinaryOp. rewrite bind_layout. destruct (commonIntegerType _ _ _ _). cbn [is_op existsb String.eqb Ascii.eqb Bool.eqb orb].
  rewrite Hb, (shift_amount ta) by done. cbn [repr cr_value cr_bitWidth cr_isUnsigned]. unfold or_default.
  destruct (Z.eqb_spec ta.1 0); [lia|]. destruct (Z.ltb_spec b 0), (Z.leb_spec ta.1 b); try lia. cbn [orb].
  destruct (Z.leb_spec 64 b); [lia|]. pose proof (finish_repr tl ta) as Hfin. pose proof (truncate_convert ta a Ha) as Ht.
  pose proof (shiftr_in_type ta a b ltac:(by split) ltac:(lia)) as Hin. rewrite (convert_id ta a) in Ht by done.
  destruct ta as [w []]; cbn [fst snd negb] in *; rewrite Ht.
  - rewrite Hfin, (i64_in_type (w, true)) by done. by rewrite convert_id.
  - rewrite Hfin, wrapU_wrapS by (first [done|lia]). unfold ret. do 4 f_equal.
    rewrite (wrapU_small 64 a); [by apply convert_id|]. apply inU_spec in Hat. cbn in Hat.
    assert (2 ^ w <= 2 ^ 64) by (apply Z.pow_le_mono_r; lia). lia.
Qed.

Lemma u64_opp (a : Z) : u64 (- i64 a) = u64 (- a).
Proof.
  rewrite <- !Z.sub_0_l. unfold wrapU. rewrite <- (Zminus_mod_idemp_r 0 (i64 a)), <- (Zminus_mod_idemp_r 0 a).
  do 2 f_equal. apply (wrapU_wrapS 64). lia.
Qed.

Lemma u64_lnot (a : Z) : u64 (Z.lnot (i64 a)) = u64 (Z.lnot a).
Proof.
  unfold Z.lnot, wrapU. rewrite <- !Z.sub_1_r, <- (Zminus_mod_idemp_l (- i64 a)), <- (Zminus_mod_idemp_l (- a)).
  do 2 f_equal. apply u64_opp.
Qed.

Lemma unary_repr (op : UnaryOp) (ta : ctype) (a v : Z) :
  typed ta a -> (op = CMinus -> a <> 2 ^ 63) -> c_unary op ta a = Some v ->
  evalUnaryOp host scope (unary_text op) (repr ta a) st = Some (Some (repr ta v), st).
Proof.
  intros [Ha Hat] Hm Hv. pose proof (standard_width ta Ha) as Hw. unfold evalUnaryOp. rewrite bind_layout.
  cbn [repr cr_value cr_bitWidth cr_isUnsigned]. unfold or_default. destruct (Z.eqb_spec ta.1 0); [lia|].
  pose proof (finish_repr tl ta) as Hfin. destruct op; cbn [unary_text String.eqb Ascii.eqb Bool.eqb].
  - assert (wrapU ta.1 (- i64 a) = wrapU ta.1 (- a)) as Hneg.
    { rewrite <- (wrapU_narrow ta.1 (- i64 a)), <- (wrapU_narrow ta.1 (- a)) by lia. apply f_equal, u64_opp. }
    assert (inS 64 (- i64 a) = true) as Hin.
    { apply inS_spec. pose proof (wrapS_range 64 a ltac:(lia)). destruct (decide (i64 a = - 2 ^ 63)) as [E|]; [|lia].
      exfalso. destruct (decide (ta = (64, false))) as [->|Ht].
      - apply inU_spec in Hat. cbn in Hat. unfold wrapS in E. apply Hm; [done|].
        destruct (Z.lt_ge_cases a (2 ^ 63)); [rewrite Z.mod_small in E by lia; lia|].
        rewrite <- (Z.mod_add _ (-1)) in E by lia. rewrite Z.mod_small in E by lia. lia.
      - rewrite (i64_in_type ta) in E by done. subst a. unfold c_unary, c_result, in_type in *.
        destruct ta as [w []]; cbn in *; [|apply inU_spec in Hat; lia]. destruct (inS w _) eqn:Ew; [|done].
        apply (in_signed w), inS_spec in Ew; lia. }
    unfold bind, long_long. rewrite Hin. unfold ret. rewrite Hfin by done. rewrite (convert_mod ta _ _ Ha Hneg).
    cbn in Hv. unfold c_result in Hv. destruct ta as [w []]; cbn [snd] in Hv; [|by injection Hv as <-].
    destruct (in_type (w, true) (- a)) eqn:Ev; [|done]. injection Hv as <-. by rewrite convert_id.
  - injection Hv as <-. unfold ret. rewrite Hfin by done. do 4 f_equal.
    rewrite (convert_mod ta (i64 a) a) by (first [done|apply wrapU_narrow_signed; lia]). by apply convert_id.
  - injection Hv as <-. unfold ret. rewrite Hfin by done. do 4 f_equal.
    apply convert_mod; [done|]. rewrite <- (wrapU_narrow ta.1 (Z.lnot (i64 a))), <- (wrapU_narrow ta.1 (Z.lnot a)) by lia.
    apply f_equal, u64_lnot.
Qed.
End Operators.

(** ** Agreement *)

Lemma c_result_typed (t : ctype) (x v : Z) : standard t = true -> c_result t x = Some v -> typed t v.
Proof.
  intros Hs. unfold c_result. destruct t.2 eqn:E; [|intros [= <-]; split; [done|by apply convert_range]].
  destruct (in_type t x) eqn:Ei; [|done]. by intros [= <-].
Qed.

Lemma c_arith_typed (op : ArithOp) (t : ctype) (a b v : Z) :
  standard t = true -> c_arith op t (convert t a) (convert t b) = Some v -> typed t v.
Proof.
  intros Hs Hv. pose proof (standard_width t Hs) as Hw. pose proof (convert_range t a Hs) as Ha. pose proof (convert_range t b Hs) as Hb.
  split; [done|]. destruct t as [w []].
  - by apply (signed_op_spec op w (convert (w, true) a) (convert (w, true) b) v
      (mkSemState ∅ ∅ [] [] [] None [])).
  - rewrite <- (unsigned_op_spec op w (convert (w, false) a) (convert (w, false) b) v) by done. by apply convert_range.
Qed.

Lemma c_bool_typed (b : bool) : typed c_int (c_bool b).
Proof. by destruct b. Qed.

Lemma c_eval_typed (x : bool) (e : cexpr) (v : Z) : agrees x e = true -> c_eval e = Some v -> typed (c_type e) v.
Proof.
  revert x v. induction e; intros x v' Ha; cbn [agrees] in Ha; cbn [c_eval c_type].
  - intros [= <-]. by apply andb_prop in Ha as [].
  - intros [= <-]. by apply andb_prop in Ha as [].
  - apply andb_prop in Ha as [Ht Ha]. destruct (c_eval e); [|done]. intros [= <-]. split; [done|by apply convert_range].
  - apply andb_prop in Ha as [Ha _]. apply andb_prop in Ha as [Ha Hw]. rewrite promote_wide by done.
    destruct (c_eval e) as [w|] eqn:E; [|done]. destruct (IHe true w Ha eq_refl) as [Hs Hi].
    destruct op; cbn; [by apply c_result_typed|by intros [= <-]|]. intros [= <-]. split; [done|by apply convert_range].
  - destruct (c_eval e); [|done]. intros [= <-]. apply c_bool_typed.
  - apply andb_prop in Ha as [Ha Hb]. destruct (c_eval e1) as [a|] eqn:E1; [|done]. destruct (c_eval e2) as [b|] eqn:E2; [|done].
    apply c_arith_typed, common_standard; [by apply (IHe1 true a)|by apply (IHe2 true b)].
  - apply andb_prop in Ha as [Ha Hb]. destruct (c_eval e1) as [a|] eqn:E1; [|done]. destruct (c_eval e2) as [b|] eqn:E2; [|done].
    intros [= <-]. assert (standard (c_common (c_type e1) (c_type e2)) = true) as Hs
      by (apply common_standard; [by apply (IHe1 true a)|by apply (IHe2 true b)]).
    split; [done|by apply convert_range].
  - destruct (c_eval e1); [|done]. destruct (c_eval e2); [|done]. intros [= <-]. apply c_bool_typed.
  - apply andb_prop in Ha as [Ha Hb]. apply andb_prop in Ha as [Ha Hw]. rewrite promote_wide by done.
    destruct (c_eval e1) as [a|] eqn:E1; [|done]. destruct (c_eval e2) as [b|]; [|done]. cbn [mbind option_bind].
    case_match; [|done]. apply c_result_typed. by apply (IHe1 true a).
  - apply andb_prop in Ha as [Ha Hb]. apply andb_prop in Ha as [Ha Hw]. rewrite promote_wide by done.
    destruct (c_eval e1) as [a|] eqn:E1; [|done]. destruct (c_eval e2) as [b|]; [|done]. cbn [mbind option_bind].
    destruct (_ && _) eqn:E; [|done]. apply andb_prop in E as [E%Z.leb_le _]. intros [= <-].
    pose proof (IHe1 true a Ha eq_refl) as Ht. split; [apply Ht|by apply shiftr_in_type].
  - destruct (c_eval e1); [|done]. cbn [mbind option_bind]. case_match; [|by intros [= <-]].
    destruct (c_eval e2); [|done]. intros [= <-]. apply c_bool_typed.
  - destruct (c_eval e1); [|done]. cbn [mbind option_bind]. case_match; [by intros [= <-]|].
    destruct (c_eval e2); [|done]. intros [= <-]. apply c_bool_typed.
  - apply andb_prop in Ha as [Ha Hw]. apply andb_prop in Ha as [Ha Ht]. apply andb_prop in Ha as [Ha Hb].
    apply andb_prop in Ha as [Hc Ha]. destruct (c_eval e1) as [c|]; [|done]. cbn [mbind option_bind].
    rewrite (common_same _ _ Ht Hw). assert (standard (c_type e2) = standard (c_type e3)) as Hst.
    { apply andb_prop in Ht as [Ht%Z.eqb_eq _]. unfold standard. by rewrite Ht. }
    destruct (c =? 0); [destruct (c_eval e3) as [w|] eqn:E|destruct (c_eval e2) as [w|] eqn:E]; try done; intros [= <-].
    + assert (standard (c_type e2) = true) as Hs by (rewrite Hst; by apply (IHe3 x w)). split; [done|by apply convert_range].
    + assert (standard (c_type e2) = true) as Hs by (by apply (IHe2 x w)). split; [done|by apply convert_range].
Qed.

Section Agreement.
Context (host : Host) (scope : Scope) (strtold : list ascii -> option (Z * list ascii)).
Context (analyzeExpression : ASTNode -> SM TypeInfo) (evalOffsetofFieldPath : ParsedType -> option string -> SM Z).
Context (size_align : ParsedType -> SM (Z * Z)) (const_eval_rec : ASTNode -> SM Z) (st : SemState).

Let tl : TargetLayout := target_layout host st scope.
Abbreviation eval := (constEvalInternal host scope strtold analyzeExpression evalOffsetofFieldPath size_align const_eval_rec true).

(** The result for [n] has the value [v]; with [exact], the type [t] as well. *)
Definition gives (exact : bool) (t : ctype) (v : Z) (n : ASTNode) : Prop :=
  exists r, eval n st = Some (Some r, st) /\ cr_value r = i64 v /\ finalizeWithExprType tl r = r /\ (exact = true -> r = repr t v).

Lemma gives_repr (x : bool) (t : ctype) (v : Z) (n : ASTNode) :
  typed t v -> eval n st = Some (Some (repr t v), st) -> gives x t v n.
Proof. intros [Hs Ht] H. exists (repr t v). split_and!; [done|done|by apply finalize_repr|done]. Qed.

Lemma eval_unary (n operand : ASTNode) (op : string) (postfix : bool) :
  an_body n = AST_UNARY_EXPRESSION (Some op) (Some operand) postfix ->
  eval n = bind (eval operand) (evalUnaryOp host scope op).
Proof. destruct n. cbn. by intros ->. Qed.

Lemma eval_binary (n a b : ASTNode) (op : string) (ra rb : ConstEvalResult) :
  binary_node n op a b -> is_op op ["||"; "&&"]%string = false ->
  eval a st = Some (Some ra, st) -> eval b st = Some (Some rb, st) -> eval n st = evalBinaryOp host scope op ra rb st.
Proof.
  intros [Hn] Hop Ha Hb. destruct n. cbn in Hn. subst. cbn [constEvalInternal]. rewrite Hop. unfold attempt, bind. by rewrite Ha, Hb.
Qed.

Lemma eval_logical (n a b : ASTNode) (op : string) (ra : ConstEvalResult) :
  binary_node n op a b -> is_op op ["||"; "&&"]%string = true -> eval a st = Some (Some ra, st) ->
  eval n st =
    (if eqb (String.eqb op "||") (negb (cr_value ra =? 0)) then Some (Some (makeConst (if String.eqb op "||" then 1 else 0)), st)
     else bind (eval b) (fun r => let* tl := currentLayout host scope in
       ret (finalizeWithExprType tl (makeConstTyped (if cr_value r =? 0 then 0 else 1) (defaultIntBitsOf tl) false))) st).
Proof.
  intros [Hn] Hop Ha. destruct n. cbn in Hn. subst. cbn [constEvalInternal]. rewrite Hop. unfold bind at 1. rewrite Ha. by case_match.
Qed.

Lemma eval_cond (n c a b : ASTNode) (rc r : ConstEvalResult) :
  an_body n = AST_TERNARY_EXPRESSION (Some c) (Some a) (Some b) -> eval c st = Some (Some rc, st) ->
  eval (if negb (cr_value rc =? 0) then a else b) st = Some (Some r, st) -> finalizeWithExprType tl r = r ->
  eval n st = Some (Some r, st).
Proof.
  intros Hn Hc Hr Hf. destruct n. cbn in Hn. subst. cbn [constEvalInternal]. unfold bind at 1. rewrite Hc.
  unfold bind at 1. replace ((if negb (cr_value rc =? 0) then eval a else eval b) st) with (Some (Some r, st)) by (by destruct (negb _)).
  unfold bind. change (currentLayout host scope st) with (Some (Some tl, st)). unfold ret. by rewrite Hf.
Qed.

Lemma eval_cast (n operand : ASTNode) (castType : ParsedType) (info : TypeInfo) (t : ctype) (r : ConstEvalResult) :
  an_body n = AST_CAST_EXPRESSION castType (Some operand) -> eval operand st = Some (Some r, st) ->
  typeInfoFromParsedType host st castType scope = Some info -> bitsFromTypeInfo tl info = Some (t.1, negb t.2) ->
  eval n st = Some (Some (makeConstTyped (truncateToWidth (cr_value r) t.1 (negb t.2)) t.1 (negb t.2)), st).
Proof.
  intros Hn Hr Hi Hb. destruct n. cbn in Hn. subst. cbn [constEvalInternal]. unfold bind at 1, attempt. rewrite Hr.
  unfold bind at 1. cbn [ret]. unfold evalCast. rewrite bind_layout. fold tl. unfold type_info_in, bind, get. rewrite Hi.
  cbn [lift ret]. by rewrite Hb.
Qed.

Hypothesis Hint : intBits tl = 32.

Lemma int_default : defaultIntBitsOf tl = 32.
Proof. by apply (default_int host scope st). Qed.

Lemma gives_int (x b : bool) (n : ASTNode) :
  eval n st = Some (Some (finalizeWithExprType tl (makeConstTyped (c_bool b) 32 false)), st) -> gives x c_int (c_bool b) n.
Proof. rewrite (int_result host scope st). apply gives_repr, c_bool_typed. Qed.

Lemma eval_number (x : bool) (n : ASTNode) (text : string) (info : IntegerLiteralInfo) :
  let t := (il_bits info, negb (il_isUnsigned info)) in
  an_body n = AST_NUMBER_LITERAL (Some text) -> parse_integer_literal_info (list_ascii_of_string text) tl = Some info ->
  typed t (il_value info) -> gives x t (il_value info) n.
Proof.
  intros t Hn Hp Ht. apply gives_repr; [done|]. destruct n. cbn in Hn. subst. cbn [constEvalInternal]. rewrite bind_layout.
  fold tl. cbn [mbind option_bind]. unfold parseIntegerLiteral. rewrite Hp. cbn [mbind option_bind].
  destruct Ht as [Hs Hi]. pose proof (typed_repr t (i64 (il_value info)) Hs) as H. cbn [fst snd t] in H.
  rewrite negb_involutive in H. rewrite H. unfold ret. do 3 f_equal.
  rewrite (convert_mod t _ (il_value info)) by (first [done|apply wrapU_narrow_signed; pose proof (standard_width t Hs); lia]).
  by rewrite convert_id.
Qed.

Lemma eval_char (x : bool) (n : ASTNode) (text : string) (payload : list ascii) (info : IntegerLiteralInfo) :
  an_body n = AST_CHAR_LITERAL (Some text) ->
  ast_literal_encoding (Some (list_ascii_of_string text)) = (LIT_ENC_NARROW, Some payload) ->
  parse_integer_literal_info payload tl = Some info -> 0 <= il_value info < 2 ^ 31 -> gives x c_int (il_value info) n.
Proof.
  intros Hn Henc Hp Hv. assert (typed c_int (il_value info)) as Ht by (split; [done|apply inS_spec; cbn; lia]).
  apply gives_repr; [done|]. destruct n. cbn in Hn. subst. cbn [constEvalInternal]. unfold evalChar. cbn [option_map].
  rewrite Henc, bind_layout. fold tl. unfold parseIntegerLiteral. rewrite Hp. cbn [mbind option_bind].
  rewrite (wrapS_small 64 (il_value info)) by lia. unfold bind, ret. cbn [bool_decide decide_rel andb].
  cbn [ti_bitWidth ti_isSigned makeIntegerType]. rewrite int_default. cbn [or_default Z.eqb Z.ltb andb negb].
  change (32 <? 63) with true. destruct (Z.ltb_spec (il_value info) 0), (Z.ltb_spec (2 ^ 32 - 1) (il_value info)); try lia. cbn [andb orb].
  destruct Ht as [Hs Hi]. pose proof (typed_repr c_int (il_value info) Hs : makeConstTyped (il_value info) 32 false = _) as H'.
  rewrite (convert_id c_int) in H' by done. by rewrite <- H'.
Qed.

Lemma eval_enumerator (t : ctype) (n : ASTNode) (name : string) (id : SymbolId) (s : Symbol) (v : Z) :
  an_body n = AST_IDENTIFIER (Some name) -> resolveInScopeChain st scope name = Some id -> ss_symbols st !! id = Some s ->
  sym_kind s = SYMBOL_ENUM -> sym_constValue s = Some v -> gives false t v n.
Proof.
  intros Hn Hr Hs Hk Hv. assert (finalizeWithExprType tl (makeConst v) = makeConst v) as Hf.
  { unfold makeConst. pose proof (typed_repr (64, true) v eq_refl) as H. cbn [fst snd negb] in H. rewrite H.
    apply finalize_repr; [done|]. by apply convert_range. }
  exists (makeConst v). split_and!; [|done|done|done]. destruct n. cbn in Hn. subst. cbn [constEvalInternal].
  destruct scope as [|f parent]; [done|]. unfold evalIdentifier, symbol_named, symbol_of, bind, get, ret. cbn [mbind option_bind].
  rewrite Hr, Hs. cbn [lift]. unfold ret. rewrite Hk, Hv. cbn [negb]. unfold currentLayout, bind, get, ret.
  by rewrite <- Hf at 2.
Qed.

Lemma is_op_false (op : string) (ops : list string) : Forall (fun o => o <> op) ops -> is_op op ops = false.
Proof.
  intros H. unfold is_op. apply not_true_iff_false. rewrite existsb_exists. intros (o & Ho & ->%String.eqb_eq).
  rewrite List.Forall_forall in H. by apply (H o).
Qed.

Lemma both_evaluate {A} (oa ob : option Z) (f : Z -> Z -> option A) (v : A) :
  (va ← oa; vb ← ob; f va vb) = Some v -> exists va vb, oa = Some va /\ ob = Some vb /\ f va vb = Some v.
Proof. destruct oa as [va|]; [|done]. destruct ob as [vb|]; [|done]. intros H. by exists va, vb. Qed.

Lemma binary_agrees (x : bool) (n a b : ASTNode) (op : string) (ta tb : ctype) (va vb : Z) (t : ctype) (v : Z) :
  binary_node n op a b -> is_op op ["||"; "&&"]%string = false -> gives true ta va a -> gives true tb vb b -> typed t v ->
  evalBinaryOp host scope op (repr ta va) (repr tb vb) st = Some (Some (repr t v), st) -> gives x t v n.
Proof.
  intros Hn Hop (ra & Ha & _ & _ & Ea) (rb & Hb & _ & _ & Eb) Ht He. rewrite Ea in Ha by done. rewrite Eb in Hb by done. apply gives_repr; [done|].
  by rewrite (eval_binary _ _ _ _ _ _ Hn Hop Ha Hb).
Qed.

(** [||] when [isOr], otherwise [&&]. *)
Lemma logical_agrees (isOr : bool) (n a b : ASTNode) (ta tb : ctype) (va v : Z) :
  binary_node n (if isOr then "||" else "&&") a b -> typed ta va -> gives false ta va a ->
  (if eqb isOr (va =? 0) then exists vb, typed tb vb /\ gives false tb vb b /\ v = c_bool (negb (vb =? 0))
   else v = c_bool isOr) -> gives false c_int v n.
Proof.
  intros Hn [Hs Hi] (ra & Hra & Eva & _) Hv.
  pose proof (eval_logical n a b _ ra Hn ltac:(by destruct isOr) Hra) as He. rewrite Eva, (repr_zero ta) in He by done.
  replace (String.eqb (if isOr then "||" else "&&") "||")%string with isOr in He by by destruct isOr.
  replace (eqb isOr (negb (va =? 0))) with (negb (eqb isOr (va =? 0))) in He by (by destruct isOr, (va =? 0)).
  destruct (eqb isOr (va =? 0)); cbn [negb] in He.
  - destruct Hv as (vb & [Hsb Hib] & (rb & Hrb & Evb & _) & ->). apply gives_int. rewrite He. unfold bind at 1. rewrite Hrb.
    rewrite bind_layout. fold tl. rewrite int_default, Evb, (repr_zero tb) by done. by destruct (vb =? 0).
  - subst v. exists (makeConst (c_bool isOr)). split_and!; [by rewrite He; destruct isOr|by destruct isOr|by destruct isOr|done].
Qed.

Lemma evaluator_agrees (n : ASTNode) (e : cexpr) :
  denotes host scope st n e -> forall x v, agrees x e = true -> c_eval e = Some v -> gives x (c_type e) v n.
Proof.
  induction 1; intros x v' Ha Hv; pose proof (c_eval_typed _ _ _ Ha Hv) as Hty; cbn [agrees] in Ha; cbn [c_eval c_type] in Hv, Hty |- *.
  - injection Hv as <-. by eapply eval_number.
  - injection Hv as <-. by eapply eval_char.
  - injection Hv as <-. apply andb_prop in Ha as [Ha _]. destruct x; [done|]. by eapply eval_enumerator.
  - apply andb_prop in Ha as [Hs Ha]. destruct (c_eval e) as [w|] eqn:Ew; [|done]. injection Hv as <-.
    destruct (IHdenotes false w Ha eq_refl) as (r & Hr & Hrv & _). apply gives_repr; [done|].
    rewrite (eval_cast _ _ _ _ _ _ H Hr H1 H2), Hrv, truncate_convert, typed_repr by done.
    f_equal. f_equal. f_equal. rewrite (convert_mod t _ (convert t w)) by
      (first [done|apply wrapU_narrow_signed; pose proof (standard_width t Hs); lia]).
    rewrite convert_id; [done|done|by apply convert_range].
  - apply andb_prop in Ha as [Ha Hm]. apply andb_prop in Ha as [Ha Hw]. rewrite promote_wide in Hv, Hty |- * by done.
    destruct (c_eval e) as [w|] eqn:Ew; [|done]. destruct (IHdenotes true w Ha eq_refl) as (r & Hr & _ & _ & Hrepr).
    apply gives_repr; [done|]. rewrite (eval_unary _ _ _ _ H). unfold bind. rewrite Hr, Hrepr by done.
    apply unary_repr; [by apply (c_eval_typed true)| |done].
    intros ->. by apply negb_true_iff, Z.eqb_neq in Hm.
  - destruct (c_eval e) as [w|] eqn:Ew; [|done]. injection Hv as <-.
    destruct (IHdenotes false w Ha eq_refl) as (r & Hr & Hrv & _). destruct (c_eval_typed false e w Ha Ew) as [Hs Hi].
    apply gives_int. rewrite (eval_unary _ _ _ _ H). unfold bind. rewrite Hr. unfold evalUnaryOp. rewrite bind_layout.
    cbn [String.eqb Ascii.eqb Bool.eqb]. rewrite Hrv, (repr_zero (c_type e)) by done. unfold ret. fold tl. by rewrite int_default.
  - apply andb_prop in Ha as [Ha Hb]. apply both_evaluate in Hv as (va & vb & Ea & Eb & Hv).
    apply (binary_agrees x _ _ _ _ (c_type ea) (c_type eb) va vb _ _ H); [by destruct op|auto|auto|done|].
    apply arith_repr; [by apply (c_eval_typed true)|by apply (c_eval_typed true)|done].
  - apply andb_prop in Ha as [Ha Hb]. apply both_evaluate in Hv as (va & vb & Ea & Eb & [= <-]).
    apply (binary_agrees x _ _ _ _ (c_type ea) (c_type eb) va vb _ _ H); [by destruct op|auto|auto|done|].
    apply bits_repr; by apply (c_eval_typed true).
  - apply andb_prop in Ha as [Ha Hb]. apply both_evaluate in Hv as (va & vb & Ea & Eb & [= <-]).
    apply (binary_agrees x _ _ _ _ (c_type ea) (c_type eb) va vb _ _ H); [by destruct op|auto|auto|done|].
    apply compare_repr; [done|by apply (c_eval_typed true)..].
  - apply andb_prop in Ha as [Ha Hb]. apply andb_prop in Ha as [Ha Hw]. apply both_evaluate in Hv as (va & vb & Ea & Eb & Hv).
    rewrite promote_wide in Hv, Hty |- * by done.
    destruct (IHdenotes1 true va Ha Ea) as (ra & Hra & _ & _ & Era). rewrite Era in Hra by done.
    destruct (IHdenotes2 false vb Hb Eb) as (rb & Hrb & Erb & _).
    apply gives_repr; [done|]. rewrite (eval_binary _ _ _ _ _ rb H) by done.
    by apply (shl_repr host scope st (c_type ea) va vb); [apply (c_eval_typed true)|..].
  - apply andb_prop in Ha as [Ha Hb]. apply andb_prop in Ha as [Ha Hw]. apply both_evaluate in Hv as (va & vb & Ea & Eb & Hv).
    rewrite promote_wide in Hv, Hty |- * by done.
    destruct (IHdenotes1 true va Ha Ea) as (ra & Hra & _ & _ & Era). rewrite Era in Hra by done.
    destruct (IHdenotes2 false vb Hb Eb) as (rb & Hrb & Erb & _).
    destruct (_ && _) eqn:E; [|done]. injection Hv as <-. apply andb_prop in E as [E1%Z.leb_le E2%Z.ltb_lt].
    apply gives_repr; [done|]. rewrite (eval_binary _ _ _ _ _ rb H) by done. by apply shr_repr; [apply (c_eval_typed true)|..].
  - apply andb_prop in Ha as [Ha Hb]. apply andb_prop in Ha as [Hx Ha]. destruct x; [done|]. clear Hty.
    destruct (c_eval ea) as [va|] eqn:Ea; [|done]. 
    apply (logical_agrees true n a b (c_type ea) (c_type eb) va v'); [done|by apply (c_eval_typed false)|by apply IHdenotes1|].
    cbn [mbind option_bind] in Hv. destruct (va =? 0); [|by injection Hv as <-].
    destruct (c_eval eb) as [vb|] eqn:Eb; [|done]. injection Hv as <-. exists vb. by split_and!; [apply (c_eval_typed false)|auto|].
  - apply andb_prop in Ha as [Ha Hb]. apply andb_prop in Ha as [Hx Ha]. destruct x; [done|]. clear Hty.
    destruct (c_eval ea) as [va|] eqn:Ea; [|done]. 
    apply (logical_agrees false n a b (c_type ea) (c_type eb) va v'); [done|by apply (c_eval_typed false)|by apply IHdenotes1|].
    cbn [mbind option_bind] in Hv. destruct (va =? 0); [by injection Hv as <-|].
    destruct (c_eval eb) as [vb|] eqn:Eb; [|done]. injection Hv as <-. exists vb. by split_and!; [apply (c_eval_typed false)|auto|].
  - apply andb_prop in Ha as [Ha Hw]. apply andb_prop in Ha as [Ha Ht]. apply andb_prop in Ha as [Ha Hb].
    apply andb_prop in Ha as [Hc Ha]. destruct (c_eval ec) as [vc|] eqn:Ec; [|done]. cbn [mbind option_bind] in Hv.
    rewrite (common_same _ _ Ht Hw) in Hv, Hty |- *. destruct (IHdenotes1 false vc Hc eq_refl) as (rc & Hrc & Erc & _).
    destruct (c_eval_typed false ec vc Hc Ec) as [Hsc Hic].
    assert (forall m e', agrees x e' = true -> c_type e' = c_type ea -> (if vc =? 0 then c_eval eb else c_eval ea) = c_eval e' ->
      (if negb (vc =? 0) then a else b) = m -> (forall w, c_eval e' = Some w -> gives x (c_type e') w m) -> gives x (c_type ea) v' n) as Hbranch.
    { intros m e' Ha' Ht' Hev Hm Hg. rewrite Hev in Hv. destruct (c_eval e') as [w|] eqn:Ew; [|done]. injection Hv as <-.
      destruct (Hg w eq_refl) as (r & Hr & Er & Hf & Hx). destruct (c_eval_typed x e' w Ha' Ew) as [Hs Hi]. rewrite Ht' in Hs, Hi, Hx.
      rewrite (convert_id (c_type ea)) by done. exists r. split_and!; [|done|done|done].
      apply (eval_cond n c a b rc); [done|done| |done]. by rewrite Erc, (repr_zero (c_type ec)), Hm by done. }
    destruct (vc =? 0); [apply (Hbranch b eb)|apply (Hbranch a ea)]; auto.
    apply andb_prop in Ht as [Ht1%Z.eqb_eq Ht2%eqb_prop]. destruct (c_type ea), (c_type eb); cbn in *; by subst.
Qed.

End Agreement.

(** ** The knot keeps the target *)

Section Calls.
Context (host : Host) (scope : Scope) (strtold : list ascii -> option (Z * list ascii)).
Context (analyzeExpression : ASTNode -> SM TypeInfo) (evalOffsetofFieldPath : ParsedType -> option string -> SM Z).
Hypothesis Hanalyze : forall n, preserves ss_targetLayout (analyzeExpression n).
Hypothesis Hoffset : forall t f, preserves ss_targetLayout (evalOffsetofFieldPath t f).

Section Level.
Context (size_align : ParsedType -> SM (Z * Z)) (const_eval_rec : ASTNode -> SM Z).
Hypothesis Hsize : forall t, preserves ss_targetLayout (size_align t).
Hypothesis Hconst : forall n, preserves ss_targetLayout (const_eval_rec n).

Lemma cached_type_target (id : SymbolId) : preserves ss_targetLayout (typeInfoFromSymbolCached host id scope).
Proof.
  unfold typeInfoFromSymbolCached, primeSymbolTypeInfoCache, set_symbol_cache.
  repeat first [apply preserves_ret | apply preserves_get | apply preserves_lift | apply preserves_bind; [|intros] | case_match
               | by apply preserves_modify].
Qed.

Lemma enumerator_target (members : list (option ASTNode)) (values : list (option NodeId)) (name : option string)
    (current : Z) (haveValue : bool) :
  preserves ss_targetLayout (enumerator_value const_eval_rec members values name current haveValue).
Proof.
  revert values current haveValue. induction members as [|m rest IH]; intros values current haveValue;
    [apply preserves_fail|]. cbn [enumerator_value]. unfold long_long, node.
  repeat first [apply IH | apply Hconst | apply preserves_ret | apply preserves_fail | apply preserves_stuck | apply preserves_get
               | apply preserves_lift | apply preserves_bind; [|intros] | apply preserves_attempt | case_match].
Qed.

Local Ltac keep := repeat first
  [ match goal with H : context [preserves] |- _ => apply H end
  | apply cached_type_target | apply enumerator_target | apply layout_struct_union_target
  | apply preserves_ret | apply preserves_fail | apply preserves_stuck | apply preserves_get | apply preserves_lift
  | apply preserves_modify; done | apply preserves_bind; [|intros] | apply preserves_attempt | case_match ].

Lemma sizeof_target (n : option ASTNode) : preserves ss_targetLayout (evalSizeof host scope analyzeExpression size_align const_eval_rec n).
Proof.
  unfold evalSizeof, string_size, by_symbol, analyzed_size, sizeFromParsedType, sizeFromTypeInfo, record_layout, lookupWCharType,
    symbol_named, symbol_of, currentLayout. keep.
Qed.

Lemma alignof_target (n : option ASTNode) : preserves ss_targetLayout (evalAlignof host scope analyzeExpression size_align const_eval_rec n).
Proof.
  unfold evalAlignof, by_symbol, analyzed_align, alignFromParsedType, alignFromTypeInfo, record_layout,
    symbol_named, symbol_of, currentLayout. keep.
Qed.

Abbreviation eval := (constEvalInternal host scope strtold analyzeExpression evalOffsetofFieldPath size_align const_eval_rec).
Abbreviation operands := (hasIntegerConstantExpressionOperands host scope strtold analyzeExpression evalOffsetofFieldPath size_align const_eval_rec).

Lemma child_cons (b : bool) (o : option ASTNode) (l : list (option ASTNode)) :
  Forall (fun n => preserves ss_targetLayout (eval b n)) (omap id (o :: l)) ->
  preserves ss_targetLayout (match o with Some n => eval b n | None => fail end) /\
  Forall (fun n => preserves ss_targetLayout (eval b n)) (omap id l).
Proof. destruct o as [c|]; cbn; [by rewrite Forall_cons|]. split; [apply preserves_fail|done]. Qed.

Lemma eval_target (b : bool) (n : ASTNode) : preserves ss_targetLayout (eval b n).
Proof.
  pose proof sizeof_target as Hsizeof. pose proof alignof_target as Halignof.
  induction n as [[nid line l1 l2 l3 attrs body] IH] using node_children_ind.
  destruct body; cbn [node_children an_body] in IH; cbn [constEvalInternal];
    try (repeat (apply child_cons in IH as [? IH]);
         unfold evalChar, char_out_of_range, addError, add_diag, lookupWCharType, evalIdentifier, evalCast, evalUnaryOp,
           evalBinaryOp, evalOffsetof, signed_op, long_long, symbol_named, symbol_of, node, type_info_in, currentLayout; by keep).
  generalize (None : option ConstEvalResult). revert IH. induction expressions as [|e rest IHl]; intros IH value; [unfold currentLayout; keep|].
  apply child_cons in IH as [He IH]. apply preserves_bind; [done|intros; by apply IHl].
Qed.
Lemma operand_cons (b : bool) (o : option ASTNode) (l : list (option ASTNode)) :
  Forall (fun n => forall b, preserves ss_targetLayout (operands b n)) (omap id (o :: l)) ->
  (forall b, preserves ss_targetLayout (match o with Some n => operands b n | None => ret false end)) /\
  Forall (fun n => forall b, preserves ss_targetLayout (operands b n)) (omap id l).
Proof. destruct o as [c|]; cbn; [by rewrite Forall_cons|]. split; [intros; apply preserves_ret|done]. Qed.

Lemma operands_target (b : bool) (n : ASTNode) : preserves ss_targetLayout (operands b n).
Proof.
  pose proof eval_target as Heval. revert b.
  induction n as [[nid line l1 l2 l3 attrs body] IH] using node_children_ind; intros b.
  destruct body; cbn [node_children an_body] in IH; cbn [hasIntegerConstantExpressionOperands];
    try (repeat (apply (operand_cons b) in IH as [? IH]);
         unfold and_then, const_value, identifierIsIntegerConstantOperand, sizeofOperandHasVariablyModifiedType, has_vla,
           symbol_named, symbol_of, node, type_info_in, currentLayout; by keep).
  case_match; [apply preserves_ret|]. case_match; [apply preserves_ret|].
  assert (forall l, Forall (fun n => forall b, preserves ss_targetLayout (operands b n)) (omap id l) ->
    preserves ss_targetLayout ((fix all_operands l := match l with [] => ret true | e :: rest =>
      and_then (match e with Some n => operands false n | None => ret false end) (all_operands rest) end) l)) as Hloop.
  { induction l0 as [|e rest IHl]; intros Hl; [apply preserves_ret|]. apply (operand_cons b) in Hl as [He Hl].
    apply preserves_bind; [apply He|intros []; [by apply IHl|apply preserves_ret]]. }
  by apply (Hloop (_ :: _)).
Qed.

(** ** Results are values of [long long] *)

Definition in64 (r : ConstEvalResult) : Prop := - 2 ^ 63 <= cr_value r < 2 ^ 63.
Definition ranged (m : SM ConstEvalResult) : Prop := forall s r s', m s = Some (Some r, s') -> in64 r.

Lemma typed_in64 (v bits : Z) (isUnsigned : bool) : in64 (makeConstTyped v bits isUnsigned).
Proof. unfold in64, makeConstTyped, truncateToWidth. cbn [cr_value]. repeat case_match; apply (wrapS_range 64); lia. Qed.

Lemma finalize_in64 (tl : TargetLayout) (r : ConstEvalResult) : in64 r -> in64 (finalizeWithExprType tl r).
Proof. unfold in64, finalizeWithExprType, truncateToWidth. cbn [cr_value]. intros H. repeat case_match; [done|apply (wrapS_range 64); lia..]. Qed.

Lemma ranged_ret (r : ConstEvalResult) : in64 r -> ranged (ret r).
Proof. by intros H s r' s' [= <- <-]. Qed.
Lemma ranged_fail : ranged fail.
Proof. done. Qed.
Lemma ranged_bind {A} (m : SM A) (k : A -> SM ConstEvalResult) : (forall a, ranged (k a)) -> ranged (bind m k).
Proof. intros Hk s r s' (a & s1 & _ & H)%bind_some. by apply (Hk a s1 r s'). Qed.
Lemma ranged_bind_result (m : SM ConstEvalResult) (k : ConstEvalResult -> SM ConstEvalResult) :
  ranged m -> (forall a, in64 a -> ranged (k a)) -> ranged (bind m k).
Proof. intros Hm Hk s r s' (a & s1 & Ha & H)%bind_some. by apply (Hk a (Hm _ _ _ Ha) s1 r s'). Qed.

Local Ltac range := repeat first
  [ apply ranged_fail | done | apply ranged_ret; first [apply typed_in64 | apply finalize_in64, typed_in64]
  | apply ranged_bind; intros | case_match ].

Lemma ranged_children (o : option ASTNode) (b : bool) (l : list (option ASTNode)) :
  Forall (fun n => ranged (eval b n)) (omap id (o :: l)) ->
  ranged (match o with Some n => eval b n | None => fail end) /\ Forall (fun n => ranged (eval b n)) (omap id l).
Proof. destruct o as [c|]; cbn; [by rewrite Forall_cons|]. done. Qed.

Lemma eval_ranged (b : bool) (n : ASTNode) : ranged (eval b n).
Proof.
  induction n as [[nid line l1 l2 l3 attrs body] IH] using node_children_ind.
  destruct body; cbn [node_children an_body] in IH; cbn [constEvalInternal];
    try (unfold evalChar, char_out_of_range, evalCast, evalUnaryOp, evalBinaryOp, evalOffsetof; by range).
  - apply ranged_children in IH as [_ IH]. apply ranged_children in IH as [Ht IH]. apply ranged_children in IH as [Hf _].
    apply ranged_bind. intros c. apply ranged_bind_result; [by destruct (negb (cr_value c =? 0))|]. intros r Hr. apply ranged_bind. intros tl.
    by apply ranged_ret, finalize_in64.
  - enough (forall value : option ConstEvalResult, (forall r, value = Some r -> in64 r) ->
      forall l, Forall (fun n => ranged (eval b n)) (omap id l) -> ranged ((fix last_value l value := match l with
        | [] => match value with Some r => let* tl := currentLayout host scope in ret (finalizeWithExprType tl r) | None => fail end
        | e :: rest => let* r := match e with Some n => eval b n | None => fail end in last_value rest (Some r)
        end) l value)) as Hloop by (by apply Hloop).
    clear IH. intros value Hvalue l. revert value Hvalue. induction l as [|e rest IHl]; intros value Hvalue IH.
    + destruct value as [r|]; [|done]. apply ranged_bind. intros tl. by apply ranged_ret, finalize_in64, Hvalue.
    + apply ranged_children in IH as [He IH]. apply ranged_bind_result; [done|]. intros r Hr. apply IHl; [by intros ? [= <-]|done].
Qed.

Lemma const_integer_calls (b : bool) (n : ASTNode) :
  preserves ss_targetLayout (constEvalInteger host scope strtold analyzeExpression evalOffsetofFieldPath size_align const_eval_rec n b) /\
  forall st w st', constEvalInteger host scope strtold analyzeExpression evalOffsetofFieldPath size_align const_eval_rec n b st =
    Some (Some w, st') -> - 2 ^ 63 <= w < 2 ^ 63.
Proof.
  split.
  - unfold constEvalInteger, constEvalIntegerResult. pose proof eval_target. pose proof operands_target. keep.
  - intros st w st' (r & s1 & Hr & [= <- <-])%bind_some. unfold constEvalIntegerResult in Hr.
    apply bind_some in Hr as ([] & s2 & _ & Hr); [|done]. by apply (eval_ranged b n s2 r s1).
Qed.
End Level.

(** The layout of structs may rely on the knot at every fuel. *)
Lemma calls_ok (fuel : nat) :
  let c := calls host scope strtold analyzeExpression evalOffsetofFieldPath fuel in LayoutCalls c.1 c.2.
Proof.
  induction fuel as [|fuel IH]; cbn [calls]; [by split|]. destruct IH as [Hs Hc _]. split.
  - by apply size_align_step_target.
  - intros n. by apply const_integer_calls.
  - intros n st w st'. by apply const_integer_calls.
Qed.

End Calls.

(** ** Examples *)

Definition number (text : string) : ASTNode := literal_node text.
Definition binary (op : string) (a b : ASTNode) : ASTNode := plain_node 1 (AST_BINARY_EXPRESSION (Some op) (Some a) (Some b)).
Definition unary (op : string) (a : ASTNode) : ASTNode := plain_node 1 (AST_UNARY_EXPRESSION (Some op) (Some a) false).
Definition conditional (c a b : ASTNode) : ASTNode := plain_node 1 (AST_TERNARY_EXPRESSION (Some c) (Some a) (Some b)).
Definition cast_to (t : ParsedType) (a : ASTNode) : ASTNode := plain_node 1 (AST_CAST_EXPRESSION t (Some a)).
Definition unsigned_modifiers : TypeModifiers := mkModifiers false true false false false false.
Definition uchar_type : ParsedType := primitive_type TOKEN_CHAR unsigned_modifiers.

(** Expressions without sizes, offsets and floating constants. *)
Definition evaluate (n : ASTNode) : option (option ConstEvalResult) :=
  option_map fst (constEvalInternal HostOther sample_scope (fun _ => None) (fun _ => fail) (fun _ _ => fail) (fun _ => fail)
    (fun _ => fail) true n layout_state).

(** [(300 + 4u) * 2 < 700 ? 1 << 4 : ~7] *)
Definition sample_expression : ASTNode :=
  conditional (binary "<" (binary "*" (binary "+" (number "300") (number "4u")) (number "2")) (number "700"))
    (binary "<<" (number "1") (number "4")) (unary "~" (number "7")).

Definition sample_cexpr : cexpr :=
  let int v := CConst c_int v in
  CCond (CCompare CLt (CArith CMul (CArith CAdd (int 300) (CConst (32, false) 4)) (int 2)) (int 700))
    (CShl (int 1) (int 4)) (CUnary CCompl (int 7)).


(** [~(unsigned char)0] is -1 in C, where the operand is promoted to [int]. *)
Example complement_is_not_promoted : evaluate (unary "~" (cast_to uchar_type (number "0"))) = Some (Some (mkConst 255 8 true)).
Proof. reflexivity. Qed.

(** [(_Bool)2] is 1 in C. *)
Example bool_cast_keeps_one_bit :
  evaluate (cast_to (primitive_type TOKEN_BOOL no_modifiers) (number "2")) = Some (Some (mkConst 0 1 true)).
Proof. reflexivity. Qed.

(** [(1 || 0) - 2u] is 4294967295 in C, where [||] gives an [int]. *)
Example decided_or_has_64_bits :
  evaluate (binary "-" (binary "||" (number "1") (number "0")) (number "2u")) = Some (Some (mkConst (-1) 64 false)).
Proof. reflexivity. Qed.

(** [1 ? -1 : 0u] is 4294967295 in C. *)
Example conditional_keeps_branch_type :
  evaluate (conditional (number "1") (unary "-" (number "1")) (number "0u")) = Some (Some (mkConst (-1) 32 false)).
Proof. reflexivity. Qed.

(** [-9223372036854775808u] and [(-9223372036854775807 - 1) / -1]: the compiler's own arithmetic overflows. *)
Example evaluator_overflows :
  evaluate (unary "-" (number "9223372036854775808u")) = None /\
  evaluate (binary "/" (binary "-" (unary "-" (number "9223372036854775807")) (number "1")) (unary "-" (number "1"))) = None.
Proof. by split. Qed.
