(* ===== verification/ControlFlow.v ===== *)
(** * Does control reach the end of a function? (src/Syntax/control_flow.c)

    Flow results do not depend on the diagnostics; those go to the shared state.  A failed
    allocation is left out.  The recursion of [checkStatement] visits nested case labels twice,
    so it has fuel; [node_height] is enough ([check_returns] in ControlFlowSpec.v). *)
From S2P Require Import Prelude StateError Tokens TargetLayout AST TypeInfo Semantic TypeChecker.

(** ** Goto targets *)

(** [GotoTargetSet]: the names in the order they were added. *)
Definition GotoTargetSet : Type := list string.

Definition gotoTargetSetContains (set : GotoTargetSet) (name : string) : bool :=
  negb (String.eqb name "") && existsb (String.eqb name) set.

Definition gotoTargetSetAdd (set : GotoTargetSet) (name : option string) : GotoTargetSet :=
  match name with
  | None => set
  | Some name => if String.eqb name "" then set else if existsb (String.eqb name) set then set else set ++ [name]
  end.

Fixpoint collectGotoTargets (node : ASTNode) (set : GotoTargetSet) {struct node} : GotoTargetSet :=
  let child (o : option ASTNode) set := match o with Some n => collectGotoTargets n set | None => set end in
  let children (l : list (option ASTNode)) set :=
    foldl (fun set o => match o with Some n => collectGotoTargets n set | None => set end) set l in
  match an_body node with
  | AST_BLOCK l | AST_PROGRAM l => children l set
  | AST_IF_STATEMENT _ t e => child e (child t set)
  | AST_WHILE_LOOP c b _ => child b (child c set)
  | AST_FOR_LOOP i c u b => child b (child u (child c (child i set)))
  | AST_SWITCH c cases => children cases (child c set)
  | AST_CASE _ body next => child next (children body set)
  | AST_LABEL_DECLARATION _ s => child s set
  | AST_GOTO_STATEMENT label => gotoTargetSetAdd set label
  | _ => set
  end.

(** ** The cases of a switch *)

(** The case labels below [node] that belong to the switch around it, appended to [list]. *)
Fixpoint collectOwnedSwitchCases (node : ASTNode) (list : list ASTNode) {struct node} : Datatypes.list ASTNode :=
  let child (o : option ASTNode) list := match o with Some n => collectOwnedSwitchCases n list | None => list end in
  let children l list :=
    foldl (fun list o => match o with Some n => collectOwnedSwitchCases n list | None => list end) list l in
  match an_body node with
  | AST_CASE _ body next => child next (children body (list ++ [node]))
  | AST_BLOCK l => children l list
  | AST_IF_STATEMENT _ t e => child e (child t list)
  | AST_WHILE_LOOP _ b _ => child b list
  | AST_FOR_LOOP _ _ _ b => child b list
  | AST_LABEL_DECLARATION _ s => child s list
  | _ => list
  end.

Definition owned_cases (caseList : list (option ASTNode)) : list ASTNode :=
  foldl (fun list o => match o with Some n => collectOwnedSwitchCases n list | None => list end) [] caseList.

(** ** Ways out of [for (;;)] *)

Fixpoint conditionlessLoopMayExit (node : ASTNode) (nestedLoopDepth nestedSwitchDepth : nat) {struct node} : bool :=
  let child (o : option ASTNode) loops switches :=
    match o with Some n => conditionlessLoopMayExit n loops switches | None => false end in
  let children l loops switches :=
    existsb (fun o => match o with Some n => conditionlessLoopMayExit n loops switches | None => false end) l in
  match an_body node with
  | AST_BREAK => (nestedLoopDepth =? 0)%nat && (nestedSwitchDepth =? 0)%nat
  | AST_GOTO_STATEMENT _ => true
  | AST_BLOCK l | AST_PROGRAM l => children l nestedLoopDepth nestedSwitchDepth
  | AST_IF_STATEMENT _ t e => child t nestedLoopDepth nestedSwitchDepth || child e nestedLoopDepth nestedSwitchDepth
  | AST_WHILE_LOOP _ b _ => child b (S nestedLoopDepth) nestedSwitchDepth
  | AST_FOR_LOOP i c u b =>
      child i nestedLoopDepth nestedSwitchDepth || child c nestedLoopDepth nestedSwitchDepth
      || child u nestedLoopDepth nestedSwitchDepth || child b (S nestedLoopDepth) nestedSwitchDepth
  | AST_SWITCH _ cases => children cases nestedLoopDepth (S nestedSwitchDepth)
  | AST_CASE _ body next =>
      children body nestedLoopDepth nestedSwitchDepth || child next nestedLoopDepth nestedSwitchDepth
  | AST_LABEL_DECLARATION _ s => child s nestedLoopDepth nestedSwitchDepth
  | _ => false
  end.

Definition mayExit (body : option ASTNode) : bool :=
  match body with Some n => conditionlessLoopMayExit n 0 0 | None => false end.

(** ** Checking statements *)

Record FlowContext := mkFlowContext {
  inLoop : bool;
  inSwitch : bool;
  reachable : bool;
  suppressUnreachable : bool;
  gotoTargets : GotoTargetSet
}.

Record FlowResult := mkFlowResult { returns : bool; stops : bool }.
Abbreviation makeFlow := mkFlowResult.

Definition no_flow : FlowResult := makeFlow false false.

Definition at_reach (ctx : FlowContext) (reach : bool) : FlowContext :=
  mkFlowContext (inLoop ctx) (inSwitch ctx) reach (negb reach) (gotoTargets ctx).
Definition in_loop (ctx : FlowContext) : FlowContext :=
  mkFlowContext true (inSwitch ctx) (reachable ctx) (suppressUnreachable ctx) (gotoTargets ctx).
Definition in_switch (ctx : FlowContext) : FlowContext :=
  mkFlowContext (inLoop ctx) true (reachable ctx) (suppressUnreachable ctx) (gotoTargets ctx).

Definition safeLine (node : ASTNode) : Z := if an_line node <=? 0 then 0 else an_line node.
Definition reportUnreachable (node : ASTNode) : SM unit := addWarning (safeLine node) "Unreachable statement".

(** A label some goto of the function names. *)
Definition is_target (targets : GotoTargetSet) (stmt : option ASTNode) : bool :=
  match stmt with
  | Some n => match an_body n with
              | AST_LABEL_DECLARATION (Some name) _ => gotoTargetSetContains targets name
              | _ => false
              end
  | None => false
  end.

Section Statements.
Variable checkStatement_rec : option ASTNode -> FlowContext -> SM FlowResult.

(** The loop of [checkStatementList] behind its first statements. *)
Fixpoint check_list (ctx : FlowContext) (reach sawReturn reportedDeadRegion : bool) (l : list (option ASTNode))
    : SM FlowResult :=
  match l with
  | [] => ret (makeFlow (negb reach && sawReturn) (negb reach))
  | stmt :: rest =>
      let revived := negb reach && is_target (gotoTargets ctx) stmt in
      let reach := reach || revived in
      let reported := reportedDeadRegion && negb revived in
      let report := match stmt with
                    | Some n => (0 <? an_line n) && negb reach && negb (suppressUnreachable ctx) && negb reported
                    | None => false
                    end in
      let* _ := match stmt with Some n => if report then reportUnreachable n else ret tt | None => ret tt end in
      let reported := reported || report in
      let* flow := checkStatement_rec stmt (at_reach ctx reach) in
      if reach && stops flow then check_list ctx false (sawReturn || returns flow) false rest
      else check_list ctx reach sawReturn reported rest
  end.

Definition checkStatementList (l : list (option ASTNode)) (ctx : FlowContext) : SM FlowResult :=
  check_list ctx (reachable ctx) false false l.

Definition checkIf (thenBranch elseBranch : option ASTNode) (ctx : FlowContext) : SM FlowResult :=
  let* thenFlow := checkStatement_rec thenBranch ctx in
  let* elseFlow := (if elseBranch is Some _ then checkStatement_rec elseBranch ctx else ret no_flow) in
  ret (makeFlow (returns thenFlow && returns elseFlow) (stops thenFlow && stops elseFlow)).

Definition case_parts (n : ASTNode) : option (option ASTNode * list (option ASTNode)) :=
  match an_body n with AST_CASE value body _ => Some (value, body) | _ => None end.

(** The first loop of [checkSwitch]: the flows of the case bodies, and whether there is a default. *)
Fixpoint check_cases (ctx : FlowContext) (cases : list ASTNode) (flows : list FlowResult) (sawDefault : bool)
    : SM (list FlowResult * bool) :=
  match cases with
  | [] => ret (flows, sawDefault)
  | caseNode :: rest =>
      let caseReachable := reachable ctx in
      let* _ := (if negb caseReachable && negb (suppressUnreachable ctx) then reportUnreachable caseNode else ret tt) in
      let '(value, body) := default (None, []) (case_parts caseNode) in
      let* flow := checkStatementList body (at_reach ctx caseReachable) in
      let* _ := (if caseReachable && negb (bool_decide (body = [])) && negb (stops flow)
                    && negb (bool_decide (length rest = 0%nat))
                 then addWarning (safeLine caseNode) "Switch case may fall through" else ret tt) in
      check_cases ctx rest (flows ++ [flow]) (sawDefault || (if value is None then true else false))
  end.

(** [chainFlows]: a case that does not stop goes on with the next one. *)
Definition chain_flows (flows : list FlowResult) : list FlowResult :=
  snd (foldr (fun flow '(nextChain, chains) =>
    let flow := if stops flow then flow else nextChain in (flow, flow :: chains)) (no_flow, []) flows).

Definition checkSwitch (caseList : list (option ASTNode)) (ctx : FlowContext) : SM FlowResult :=
  let cases := owned_cases caseList in
  let* '(flows, sawDefault) := check_cases (in_switch ctx) cases [] false in
  let anyReachable := reachable ctx && negb (bool_decide (cases = [])) in
  let allReturn := anyReachable && forallb returns (chain_flows flows) in
  let result := sawDefault && reachable ctx && anyReachable && allReturn in
  ret (makeFlow result result).

(** The [switch] of [checkStatement]. *)
Definition check_step (node : option ASTNode) (ctx : FlowContext) : SM FlowResult :=
  match node with
  | None => ret no_flow
  | Some n =>
      match an_body n with
      | AST_BLOCK l => checkStatementList l ctx
      | AST_IF_STATEMENT _ t e => checkIf t e ctx
      | AST_WHILE_LOOP c b _ =>
          let* _ := checkStatement_rec c ctx in
          let* _ := checkStatement_rec b (in_loop ctx) in
          ret no_flow
      | AST_FOR_LOOP i c u b =>
          let* _ := checkStatement_rec i ctx in
          let* _ := checkStatement_rec c ctx in
          let* _ := checkStatement_rec u ctx in
          let* bodyFlow := checkStatement_rec b (in_loop ctx) in
          let endless := if c is None then if u is None then true else false else false in
          ret (if endless && (returns bodyFlow || negb (mayExit b)) then makeFlow true true else no_flow)
      | AST_SWITCH _ cases => checkSwitch cases ctx
      | AST_CASE _ body _ => checkStatementList body ctx
      | AST_RETURN _ => ret (makeFlow true true)
      | AST_BREAK | AST_CONTINUE | AST_GOTO_STATEMENT _ => ret (makeFlow false true)
      | AST_LABEL_DECLARATION _ s => checkStatement_rec s ctx
      | _ => ret no_flow
      end
  end.
End Statements.

Fixpoint checkStatement (fuel : nat) : option ASTNode -> FlowContext -> SM FlowResult :=
  match fuel with
  | O => fun _ _ => stuck
  | S fuel => check_step (checkStatement fuel)
  end.

(** The statements nested in a node, counted in depth. *)
Fixpoint node_height (n : ASTNode) : nat :=
  let child (o : option ASTNode) := match o with Some n => node_height n | None => O end in
  let children l := foldr (fun o h => Nat.max (match o with Some n => node_height n | None => O end) h) O l in
  S (match an_body n with
     | AST_BLOCK l => children l
     | AST_IF_STATEMENT _ t e => Nat.max (child t) (child e)
     | AST_WHILE_LOOP c b _ => Nat.max (child c) (child b)
     | AST_FOR_LOOP i c u b => Nat.max (Nat.max (child i) (child c)) (Nat.max (child u) (child b))
     | AST_SWITCH _ cases => children cases
     | AST_CASE _ body next => Nat.max (children body) (child next)
     | AST_LABEL_DECLARATION _ s => child s
     | _ => O
     end).

(** ** Functions *)

Section Program.
Variables (host : Host) (scope : Scope).

(** The line [addErrorWithRanges] reports at. *)
Definition reported_line (spelling macroCallSite : SourceRange) : Z :=
  let loc := match loc_file (range_start macroCallSite) with Some _ => macroCallSite | None => spelling end in
  loc_line (range_start loc).

Definition end_of_function_error (node : ASTNode) (funcName : option ASTNode) : SM unit :=
  let name := default "<anonymous>"%string (n ← funcName; node_value n) in
  let message := String.substring 0 159
    (String.append "Control reaches end of non-void function '" (String.append name "'")) in
  let at_node := default node funcName in
  addError (reported_line (an_location at_node) (an_macroCallSite at_node)) message.

Definition check_function (node : ASTNode) (returnType : ParsedType) (funcName body : option ASTNode) : SM unit :=
  let targets := match body with Some b => collectGotoTargets b [] | None => [] end in
  let* flow := checkStatement (S (match body with Some b => node_height b | None => O end)) body
                 (mkFlowContext false false true false targets) in
  let* st := get in
  let* retInfo := lift (typeInfoFromParsedType host st returnType scope) in
  if negb (bool_decide (ti_category retInfo = TYPEINFO_VOID)) && negb (stops flow)
  then end_of_function_error node funcName else ret tt.

Fixpoint traverse (node : ASTNode) : SM unit :=
  match an_body node with
  | AST_PROGRAM l =>
      (fix statements (l : list (option ASTNode)) : SM unit :=
         match l with
         | [] => ret tt
         | o :: rest => let* _ := match o with Some n => traverse n | None => ret tt end in statements rest
         end) l
  | AST_FUNCTION_DEFINITION returnType funcName _ body _ _ => check_function node returnType funcName body
  | _ => ret tt
  end.

Definition analyzeControlFlow (root : option ASTNode) : SM unit :=
  match root, scope with
  | Some root, _ :: _ => traverse root
  | _, _ => ret tt
  end.
End Program.
