(* ===== verification/ControlFlowSpec.v ===== *)
(** * When the control-flow analysis is right (control_flow.c)

    Executions are given with conditions left open: any condition may be true or false, a
    [switch] may enter at any of its cases.  [exec] is then an over-approximation of C, and a
    function whose end no [exec] reaches has none that C reaches.

    - [check_returns]: the analysis ends, whatever the tree;
    - [analysis_sound]: a non-void function that gets no error never runs off its end,
      provided that [well_placed] holds of its body;
    - the examples show what goes wrong without [well_placed]. *)
From S2P Require Import Prelude StateError Tokens TargetLayout AST TypeInfo Semantic TypeChecker RecordLayoutSpec ControlFlow.

(** ** Executions *)

(** Where a statement is entered: at its start, at a label, or at a case of the switch around it. *)
Inductive entry : Type := Start | AtLabel (l : string) | AtCase.
Inductive outcome : Type := Normal | Break | Continue | Return | Goto (l : string).

(** The body of a loop, whether its condition is tested, and tested before the body. *)
Definition loop_of (n : ASTNode) : option (option ASTNode * bool * bool) :=
  match an_body n with
  | AST_WHILE_LOOP _ b isDoWhile => Some (b, true, negb isDoWhile)
  | AST_FOR_LOOP _ c _ b => let tested := if c is Some _ then true else false in Some (b, tested, tested)
  | _ => None
  end.

(** Statements that run to their end without a jump: declarations and expressions. *)
Definition is_simple (n : ASTNode) : bool :=
  match an_body n with
  | AST_BLOCK _ | AST_IF_STATEMENT _ _ _ | AST_WHILE_LOOP _ _ _ | AST_FOR_LOOP _ _ _ _ | AST_SWITCH _ _
  | AST_CASE _ _ _ | AST_RETURN _ | AST_BREAK | AST_CONTINUE | AST_GOTO_STATEMENT _ | AST_LABEL_DECLARATION _ _ => false
  | _ => true
  end.

Definition is_default (o : option ASTNode) : bool :=
  match o with Some n => if case_parts n is Some (None, _) then true else false | None => false end.

(** A [break] ends the switch it is in. *)
Definition out_of_switch (o : outcome) : outcome := match o with Break => Normal | o => o end.

Inductive exec : entry -> option ASTNode -> outcome -> Prop :=
  | exec_null : exec Start None Normal
  | exec_simple n : is_simple n = true -> exec Start (Some n) Normal
  | exec_block e n l o : an_body n = AST_BLOCK l -> exec_list e l o -> exec e (Some n) o
  | exec_then e n c t f o : an_body n = AST_IF_STATEMENT c t f -> exec e t o -> exec e (Some n) o
  | exec_else e n c t f o : an_body n = AST_IF_STATEMENT c t f -> exec e f o -> exec e (Some n) o
  | exec_loop_skip n b tested : loop_of n = Some (b, tested, true) -> exec Start (Some n) Normal
  | exec_loop_end e n b first o :
      loop_of n = Some (b, true, first) -> exec e b o -> o = Normal \/ o = Continue -> exec e (Some n) Normal
  | exec_loop_break e n b tested first : loop_of n = Some (b, tested, first) -> exec e b Break -> exec e (Some n) Normal
  | exec_loop_again e n b tested first o o' :
      loop_of n = Some (b, tested, first) -> exec e b o -> o = Normal \/ o = Continue ->
      exec Start (Some n) o' -> exec e (Some n) o'
  | exec_loop_return e n b tested first : loop_of n = Some (b, tested, first) -> exec e b Return -> exec e (Some n) Return
  | exec_loop_goto e n b tested first l : loop_of n = Some (b, tested, first) -> exec e b (Goto l) -> exec e (Some n) (Goto l)
  | exec_switch_skip n c cases :
      an_body n = AST_SWITCH c cases -> existsb is_default cases = false -> exec Start (Some n) Normal
  | exec_switch n c cases o :
      an_body n = AST_SWITCH c cases -> exec_list AtCase cases o -> exec Start (Some n) (out_of_switch o)
  | exec_switch_label l n c cases o :
      an_body n = AST_SWITCH c cases -> exec_list (AtLabel l) cases o -> exec (AtLabel l) (Some n) (out_of_switch o)
  | exec_case e n v body next o : an_body n = AST_CASE v body next -> exec_list e body o -> exec e (Some n) o
  | exec_at_case n v body next o : an_body n = AST_CASE v body next -> exec_list Start body o -> exec AtCase (Some n) o
  | exec_return n v : an_body n = AST_RETURN v -> exec Start (Some n) Return
  | exec_break n : an_body n = AST_BREAK -> exec Start (Some n) Break
  | exec_continue n : an_body n = AST_CONTINUE -> exec Start (Some n) Continue
  | exec_goto n l : an_body n = AST_GOTO_STATEMENT (Some l) -> l <> ""%string -> exec Start (Some n) (Goto l)
  | exec_labelled e n l s o : an_body n = AST_LABEL_DECLARATION l s -> exec e s o -> exec e (Some n) o
  | exec_at_label n l s o : an_body n = AST_LABEL_DECLARATION (Some l) s -> exec Start s o -> exec (AtLabel l) (Some n) o
with exec_list : entry -> list (option ASTNode) -> outcome -> Prop :=
  | exec_nil : exec_list Start [] Normal
  | exec_seq e s rest o : exec e s Normal -> exec_list Start rest o -> exec_list e (s :: rest) o
  | exec_leave e s rest o : exec e s o -> o <> Normal -> exec_list e (s :: rest) o
  | exec_skip e s rest o : e <> Start -> exec_list e rest o -> exec_list e (s :: rest) o.

Scheme exec_mut := Minimality for exec Sort Prop
  with exec_list_mut := Minimality for exec_list Sort Prop.
Combined Scheme exec_both from exec_mut, exec_list_mut.

(** A function body with its gotos followed. *)
Inductive run (body : option ASTNode) : entry -> outcome -> Prop :=
  | run_to e o : exec e body o -> run body e o
  | run_goto e l o : exec e body (Goto l) -> run body (AtLabel l) o -> run body e o.

Definition reaches_end (body : option ASTNode) : Prop := run body Start Normal.

(** ** Jumps go to collected labels *)

Definition collect (o : option ASTNode) (set : GotoTargetSet) : GotoTargetSet :=
  match o with Some n => collectGotoTargets n set | None => set end.
Definition collect_list (l : list (option ASTNode)) (set : GotoTargetSet) : GotoTargetSet :=
  foldl (fun set o => match o with Some n => collectGotoTargets n set | None => set end) set l.

Lemma add_subset (set : GotoTargetSet) (name : option string) : set ⊆ gotoTargetSetAdd set name.
Proof. destruct name as [name|]; cbn; [|done]. repeat case_match; set_solver. Qed.

Lemma collect_list_subset (l : list (option ASTNode)) (set : GotoTargetSet) :
  Forall (fun n => forall set, set ⊆ collectGotoTargets n set) (omap id l) -> set ⊆ collect_list l set.
Proof.
  revert set. induction l as [|[n|] l IH]; intros set Hl; cbn in *; [done| |by apply IH].
  apply Forall_cons in Hl as [Hn Hl]. etrans; [apply Hn|]. by apply IH.
Qed.

Lemma collect_opt_subset (o : option ASTNode) (set : GotoTargetSet) :
  (forall n, o = Some n -> forall set, set ⊆ collectGotoTargets n set) -> set ⊆ collect o set.
Proof. destruct o as [n|]; [|done]. intros H. by apply H. Qed.

(** A property of all children holds of the one at the front, and of the rest. *)
Lemma children_cons (P : ASTNode -> Prop) (o : option ASTNode) (l : list (option ASTNode)) :
  Forall P (omap id (o :: l)) -> (forall n, o = Some n -> P n) /\ Forall P (omap id l).
Proof. destruct o as [c|]; cbn; [rewrite Forall_cons; intros [? ?]; split; [by intros ? [= <-]|done]|done]. Qed.

Ltac children IH := repeat (apply children_cons in IH as [? IH]).

Lemma collect_subset (n : ASTNode) : forall set, set ⊆ collectGotoTargets n set.
Proof.
  induction n as [[nid line l1 l2 l3 attrs body] IH] using node_children_ind; intros set.
  destruct body; cbn [node_children an_body] in IH; cbn [collectGotoTargets an_body]; try done; try apply add_subset;
    try (by apply collect_list_subset); children IH.
  all: repeat match goal with
    | |- _ ⊆ match ?o with Some n => collectGotoTargets n ?s | None => ?s end => etrans; [|by apply (collect_opt_subset o s)]
    | |- _ ⊆ foldl _ ?s ?l => etrans; [|by apply (collect_list_subset l s)]
    end; try done.
Qed.

Lemma collect_mono (o : option ASTNode) (l : string) (set : GotoTargetSet) : l ∈ set -> l ∈ collect o set.
Proof. intros H. by apply (collect_opt_subset o set (fun n _ => collect_subset n)). Qed.

Lemma collect_list_mono (l : list (option ASTNode)) (name : string) (set : GotoTargetSet) :
  name ∈ set -> name ∈ collect_list l set.
Proof. apply collect_list_subset, Forall_forall. intros n _. apply collect_subset. Qed.

Lemma add_self (set : GotoTargetSet) (l : string) : l <> ""%string -> l ∈ gotoTargetSetAdd set (Some l).
Proof.
  intros Hl. cbn. rewrite (proj2 (String.eqb_neq l "") Hl). destruct (existsb (String.eqb l) set) eqn:E; [|set_solver].
  apply existsb_exists in E as (x & Hx & ->%String.eqb_eq). by apply list_elem_of_In.
Qed.

Lemma loop_of_body (n : ASTNode) (b : option ASTNode) (tested first : bool) :
  loop_of n = Some (b, tested, first) ->
  (exists c isDoWhile, an_body n = AST_WHILE_LOOP c b isDoWhile) \/ (exists i c u, an_body n = AST_FOR_LOOP i c u b /\ tested = (if c is Some _ then true else false) /\ first = tested).
Proof. unfold loop_of. destruct (an_body n) as []; try done; intros [= -> <- <-]; [left|right]; eauto 10. Qed.

(** The children of a node whose body is known. *)
Ltac open_node n := destruct n as [? ? ? ? ? ? ?]; cbn [an_body] in *; subst.

Lemma switch_goto (o : outcome) (l : string) : out_of_switch o = Goto l -> o = Goto l.
Proof. by destruct o. Qed.

Lemma goto_collected :
  (forall e s o, exec e s o -> forall l set, o = Goto l -> l ∈ collect s set) /\
  (forall e s o, exec_list e s o -> forall l set, o = Goto l -> l ∈ collect_list s set).
Proof.
  apply exec_both; intros; subst; try discriminate; try solve [eauto];
    repeat match goal with
    | H : loop_of ?n = Some _ |- _ => apply loop_of_body in H as [(?&?&?)|(?&?&?&?&?&?)]
    | H : out_of_switch _ = Goto _ |- _ => apply switch_goto in H
    end;
    try match goal with n : ASTNode |- _ => open_node n end; simplify_eq; cbn [collect collectGotoTargets an_body]; eauto.
  all: try match goal with
    | H : _ |- _ ∈ match ?o with Some n => collectGotoTargets n ?s | None => ?s end =>
        first [apply (H _ s eq_refl)|apply (collect_mono o); eauto]
    | H : _ |- _ ∈ foldl _ ?s ?l => apply (H _ s eq_refl)
    end.
  - by apply add_self.
  - apply (collect_list_mono rest). eauto.
Qed.

(** ** The verdict on reachable statements *)

Section Verdict.
Variable targets : GotoTargetSet.

Section List.
Variable verdict : ASTNode -> FlowResult.
Fixpoint verdict_list (reach saw : bool) (l : list (option ASTNode)) : FlowResult :=
  match l with
  | [] => makeFlow (negb reach && saw) (negb reach)
  | s :: rest =>
      let reach := reach || is_target targets s in
      let flow := match s with Some n => verdict n | None => no_flow end in
      if reach && stops flow then verdict_list false (saw || returns flow) rest else verdict_list reach saw rest
  end.
End List.

(** What [checkStatement] finds of a reachable statement whose switches have their cases at the top. *)
Fixpoint verdict (n : ASTNode) : FlowResult :=
  let child (o : option ASTNode) := match o with Some n => verdict n | None => no_flow end in
  match an_body n with
  | AST_BLOCK l => verdict_list verdict true false l
  | AST_IF_STATEMENT _ t e =>
      makeFlow (returns (child t) && returns (child e)) (stops (child t) && stops (child e))
  | AST_FOR_LOOP _ None None b =>
      if returns (child b) || negb (mayExit b) then makeFlow true true else no_flow
  | AST_SWITCH _ cases =>
      let flows := map (fun o => match o with Some n => verdict n | None => no_flow end) cases in
      let result := existsb is_default cases && forallb returns (chain_flows flows) in
      makeFlow result result
  | AST_CASE _ body _ => verdict_list verdict true false body
  | AST_RETURN _ => makeFlow true true
  | AST_BREAK | AST_CONTINUE | AST_GOTO_STATEMENT _ => makeFlow false true
  | AST_LABEL_DECLARATION _ s => child s
  | _ => no_flow
  end.

Definition verdict_opt (o : option ASTNode) : FlowResult := match o with Some n => verdict n | None => no_flow end.

(** A [break] of the loop or switch around the statement. *)
Fixpoint own_break (n : ASTNode) : bool :=
  let child (o : option ASTNode) := match o with Some n => own_break n | None => false end in
  let children l := existsb (fun o => match o with Some n => own_break n | None => false end) l in
  match an_body n with
  | AST_BREAK => true
  | AST_BLOCK l => children l
  | AST_IF_STATEMENT _ t e => child t || child e
  | AST_CASE _ body _ => children body
  | AST_LABEL_DECLARATION _ s => child s
  | _ => false
  end.

Definition breaks (o : option ASTNode) : bool := match o with Some n => own_break n | None => false end.

(** A goto target in the statement, or a case of the switch around it. *)
Fixpoint has_label (n : ASTNode) : bool :=
  let child (o : option ASTNode) := match o with Some n => has_label n | None => false end in
  let children l := existsb (fun o => match o with Some n => has_label n | None => false end) l in
  match an_body n with
  | AST_BLOCK l => children l
  | AST_IF_STATEMENT _ t e => child t || child e
  | AST_WHILE_LOOP _ b _ => child b
  | AST_FOR_LOOP _ _ _ b => child b
  | AST_SWITCH _ cases => children cases
  | AST_CASE _ body _ => children body
  | AST_LABEL_DECLARATION _ s => is_target targets (Some n) || child s
  | _ => false
  end.

Fixpoint has_case (n : ASTNode) : bool :=
  let child (o : option ASTNode) := match o with Some n => has_case n | None => false end in
  let children l := existsb (fun o => match o with Some n => has_case n | None => false end) l in
  match an_body n with
  | AST_BLOCK l => children l
  | AST_IF_STATEMENT _ t e => child t || child e
  | AST_WHILE_LOOP _ b _ => child b
  | AST_FOR_LOOP _ _ _ b => child b
  | AST_CASE _ _ _ => true
  | AST_LABEL_DECLARATION _ s => child s
  | _ => false
  end.

Section Placed.
Variable placed : ASTNode -> bool.
(** Dead statements have no entry but the label in front of them. *)
Fixpoint placed_list (reach : bool) (l : list (option ASTNode)) : bool :=
  match l with
  | [] => true
  | s :: rest =>
      let reach := reach || is_target targets s in
      match s with
      | Some n => negb (has_case n) && if reach then placed n else negb (has_label n)
      | None => true
      end && placed_list (reach && negb (stops (verdict_opt s))) rest
  end.
End Placed.

(** The shape of reachable code the analysis is right about: cases are directly below their
    switch; labels that are jumped to are in reachable code or directly in the list that makes
    them reachable; a [for (;;)] or a [switch] judged to stop has no [break] of its own. *)
Fixpoint well_placed (n : ASTNode) : bool :=
  let child (o : option ASTNode) := match o with Some n => negb (has_case n) && well_placed n | None => true end in
  match an_body n with
  | AST_BLOCK l => placed_list well_placed true l
  | AST_IF_STATEMENT _ t e => child t && child e
  | AST_WHILE_LOOP _ b _ => child b
  | AST_FOR_LOOP _ c u b => child b && negb (stops (verdict n) && breaks b)
  | AST_SWITCH _ cases =>
      forallb (fun o => match o with
                        | Some n => match an_body n with AST_CASE _ _ None => well_placed n | _ => false end
                        | None => false
                        end) cases
      && negb (stops (verdict n) && existsb breaks cases)
  | AST_CASE _ body _ => placed_list well_placed true body
  | AST_LABEL_DECLARATION _ s => child s
  | _ => true
  end.

Definition placed_opt (o : option ASTNode) : bool :=
  match o with Some n => negb (has_case n) && well_placed n | None => true end.

Definition label_ok (e : entry) : Prop := forall l, e = AtLabel l -> gotoTargetSetContains targets l = true.

Definition labels (o : option ASTNode) : bool := match o with Some n => has_label n | None => false end.
Definition cases_in (o : option ASTNode) : bool := match o with Some n => has_case n | None => false end.

Lemma entered :
  (forall e s o, exec e s o -> (label_ok e -> forall l, e = AtLabel l -> labels s = true) /\ (e = AtCase -> cases_in s = true)) /\
  (forall e s o, exec_list e s o ->
     (label_ok e -> forall l, e = AtLabel l -> existsb labels s = true) /\ (e = AtCase -> existsb cases_in s = true)).
Proof.
  apply exec_both; intros; split; intros; subst; try discriminate;
    repeat match goal with
    | H : loop_of ?n = Some _ |- _ => apply loop_of_body in H as [(?&?&?)|(?&?&?&?&?&?)]
    | H : _ /\ _ |- _ => destruct H
    end; try done; try solve [eauto];
    try match goal with n : ASTNode |- _ => open_node n end; simplify_eq;
    cbn [labels cases_in has_label has_case an_body existsb is_target]; eauto;
    try (apply orb_true_iff; eauto; fail).
Qed.

(** ** Soundness of the verdict *)

Definition placed_stmt (o : option ASTNode) : bool := match o with Some n => well_placed n | None => true end.
Definition is_case (o : option ASTNode) : bool := match o with Some n => if case_parts n is Some _ then true else false | None => false end.
Definition placed_case (o : option ASTNode) : bool :=
  match o with
  | Some n => match an_body n with AST_CASE _ _ None => well_placed n | _ => false end
  | None => false
  end.

(** What an execution shows of the verdict: its end is not stopped, its [break]s are seen. *)
Definition agrees (o : outcome) (flow : FlowResult) (broken : bool) : Prop :=
  (o = Normal -> stops flow = false) /\ (o = Break -> broken = true).

Definition sound_stmt (e : entry) (s : option ASTNode) (o : outcome) : Prop :=
  label_ok e -> (e = AtCase -> is_case s = true) -> placed_stmt s = true -> agrees o (verdict_opt s) (breaks s).

Definition last_goes_on (l : list (option ASTNode)) : Prop := exists s, last l = Some s /\ stops (verdict_opt s) = false.

Definition sound_list (e : entry) (l : list (option ASTNode)) (o : outcome) : Prop :=
  label_ok e ->
  (forall reach saw, placed_list well_placed reach l = true -> (e = Start -> reach = true) ->
     agrees o (verdict_list verdict reach saw l) (existsb breaks l)) /\
  (forallb placed_case l = true ->
     (o = Normal -> (e = Start /\ l = []) \/ last_goes_on l) /\ (o = Break -> existsb breaks l = true)).

Lemma placed_list_cons (reach : bool) (s : option ASTNode) (rest : list (option ASTNode)) :
  placed_list well_placed reach (s :: rest) = true ->
  cases_in s = false /\ (if reach || is_target targets s then placed_stmt s = true else labels s = false) /\
  placed_list well_placed ((reach || is_target targets s) && negb (stops (verdict_opt s))) rest = true.
Proof.
  cbn [placed_list]. intros [Hs Hrest]%andb_true_iff. split_and!; [| |done].
  - destruct s as [n|]; [|done]. by apply andb_true_iff in Hs as [?%negb_true_iff _].
  - destruct s as [n|]; [|by case_match]. apply andb_true_iff in Hs as [_ Hs]. case_match; [done|by apply negb_true_iff].
Qed.

(** An entered statement of a placed list is reachable. *)
Lemma entered_reachable (e : entry) (s : option ASTNode) (o : outcome) (reach : bool) (rest : list (option ASTNode)) :
  exec e s o -> label_ok e -> placed_list well_placed reach (s :: rest) = true -> (e = Start -> reach = true) ->
  reach || is_target targets s = true /\ placed_stmt s = true /\ e <> AtCase.
Proof.
  intros Hexec Hl (Hc & Hs & _)%placed_list_cons Hr. destruct (proj1 entered _ _ _ Hexec) as [Hlab Hcase].
  destruct e as [|l|].
  - rewrite Hr in * by done. done.
  - destruct (reach || is_target targets s); [done|]. by rewrite (Hlab Hl l eq_refl) in Hs.
  - by rewrite Hcase in Hc.
Qed.

Lemma placed_case_stmt (s : option ASTNode) : placed_case s = true -> is_case s = true /\ placed_stmt s = true.
Proof. destruct s as [[? ? ? ? ? ? []]|]; cbn; try done. by destruct nextCase. Qed.

Lemma last_cons (s : option ASTNode) (rest : list (option ASTNode)) : last_goes_on rest -> last_goes_on (s :: rest).
Proof. intros (x & Hx & Hs). exists x. split; [|done]. by destruct rest. Qed.

Lemma sound_seq (e : entry) (s : option ASTNode) (rest : list (option ASTNode)) (o : outcome) :
  exec e s Normal -> sound_stmt e s Normal -> sound_list Start rest o -> sound_list e (s :: rest) o.
Proof.
  intros Hexec Hs Hrest Hl. destruct (Hrest ltac:(by intros l [=])) as [Hlist Hcases]. split.
  - intros reach saw Hp Hr. destruct (entered_reachable _ _ _ _ _ Hexec Hl Hp Hr) as (Hreach & Hps & He).
    apply placed_list_cons in Hp as (_ & _ & Hp). destruct (Hs Hl ltac:(done) Hps) as [Hn _].
    cbn [verdict_list existsb]. fold (verdict_opt s). rewrite Hreach, (Hn eq_refl) in *.
    destruct (Hlist true saw Hp ltac:(done)) as [H1 H2]. split; [done|]. intros Ho. rewrite (H2 Ho). apply orb_true_r.
  - cbn [forallb existsb]. intros [[Hc Hps]%placed_case_stmt Hrc]%andb_true_iff. destruct (Hcases Hrc) as [H1 H2]. split.
    + intros Ho. right. destruct (H1 Ho) as [[_ ->]|H]; [|by apply last_cons].
      exists s. split; [done|]. destruct (Hs Hl ltac:(done) Hps) as [Hn _]. by apply Hn.
    + intros Ho. rewrite (H2 Ho). apply orb_true_r.
Qed.

Lemma sound_leave (e : entry) (s : option ASTNode) (rest : list (option ASTNode)) (o : outcome) :
  exec e s o -> sound_stmt e s o -> o <> Normal -> sound_list e (s :: rest) o.
Proof.
  intros Hexec Hs Ho Hl. split.
  - intros reach saw Hp Hr. destruct (entered_reachable _ _ _ _ _ Hexec Hl Hp Hr) as (_ & Hps & He).
    destruct (Hs Hl ltac:(done) Hps) as [_ Hb]. split; [done|]. intros ->. cbn [existsb]. by rewrite Hb.
  - cbn [forallb existsb]. intros [[Hc Hps]%placed_case_stmt _]%andb_true_iff. split; [done|].
    intros ->. destruct (Hs Hl ltac:(done) Hps) as [_ Hb]. by rewrite Hb.
Qed.

Lemma sound_skip (e : entry) (s : option ASTNode) (rest : list (option ASTNode)) (o : outcome) :
  e <> Start -> sound_list e rest o -> sound_list e (s :: rest) o.
Proof.
  intros He Hrest Hl. destruct (Hrest Hl) as [Hlist Hcases]. split.
  - intros reach saw (_ & _ & Hp)%placed_list_cons _. cbn [verdict_list existsb]. fold (verdict_opt s).
    destruct (reach || is_target targets s), (stops (verdict_opt s)); cbn [andb negb] in *;
      match goal with |- agrees _ (verdict_list _ ?r ?w _) _ => destruct (Hlist r w Hp ltac:(done)) as [H1 H2] end;
      (split; [done|]; intros Ho; rewrite (H2 Ho); apply orb_true_r).
  - cbn [forallb existsb]. intros [_ Hrc]%andb_true_iff. destruct (Hcases Hrc) as [H1 H2]. split.
    + intros Ho. right. destruct (H1 Ho) as [[? _]|H]; [done|by apply last_cons].
    + intros Ho. rewrite (H2 Ho). apply orb_true_r.
Qed.

(** *** Switches *)

Lemma chain_suffix (flows : list FlowResult) (next : FlowResult) (chains : list FlowResult) (c : FlowResult) :
  c ∈ chains ->
  c ∈ (foldr (fun flow '(nextChain, chains) =>
         let flow := if stops flow then flow else nextChain in (flow, flow :: chains)) (next, chains) flows).2.
Proof.
  intros Hc. induction flows as [|f flows IH]; [done|]. cbn [foldr].
  destruct (foldr _ (next, chains) flows) as [n l]. cbn in *. by right.
Qed.

Lemma last_falls_out (cases : list (option ASTNode)) :
  last_goes_on cases -> forallb returns (chain_flows (map verdict_opt cases)) = false.
Proof.
  intros (s & (l & ->)%last_Some & Hs). apply not_true_iff_false. rewrite forallb_forall. intros H.
  enough (In no_flow (chain_flows (map verdict_opt (l ++ [s])))) as Hin by by apply H in Hin.
  apply list_elem_of_In. unfold chain_flows. rewrite map_app, foldr_app. cbn [map foldr].
  rewrite Hs. apply chain_suffix. by left.
Qed.

Lemma verdict_switch (n : ASTNode) (c : option ASTNode) (cases : list (option ASTNode)) :
  an_body n = AST_SWITCH c cases ->
  stops (verdict n) = existsb is_default cases && forallb returns (chain_flows (map verdict_opt cases)).
Proof. intros Hn. by open_node n. Qed.

Lemma placed_switch (n : ASTNode) (c : option ASTNode) (cases : list (option ASTNode)) :
  an_body n = AST_SWITCH c cases -> well_placed n = true ->
  forallb placed_case cases = true /\ (existsb breaks cases = true -> stops (verdict n) = false).
Proof.
  intros Hn. open_node n. cbn [well_placed an_body]. intros [H1 H2%negb_true_iff]%andb_true_iff. split; [done|].
  intros Hb. apply andb_false_iff in H2 as [?|H2]; [done|].
  change (existsb breaks cases = false) in H2. by rewrite Hb in H2.
Qed.

Lemma sound_switch (e : entry) (n : ASTNode) (c : option ASTNode) (cases : list (option ASTNode)) (o : outcome) :
  an_body n = AST_SWITCH c cases -> e <> Start -> sound_list e cases o -> label_ok e -> placed_stmt (Some n) = true ->
  agrees (out_of_switch o) (verdict_opt (Some n)) (breaks (Some n)).
Proof.
  intros Hn He Hs Hl Hp. destruct (placed_switch n c cases Hn Hp) as [Hcases Hb].
  destruct (Hs Hl) as [_ [H1 H2]%(fun H => H Hcases)]. split; [|by destruct o].
  intros Ho. cbn [verdict_opt]. destruct o; try done; [|by apply Hb, H2].
  destruct (H1 eq_refl) as [[? _]|Hlast]; [done|]. rewrite (verdict_switch n c cases Hn), (last_falls_out cases Hlast). apply andb_false_r.
Qed.

(** *** Loops *)

Lemma placed_loop (n : ASTNode) (b : option ASTNode) (tested first : bool) :
  loop_of n = Some (b, tested, first) -> well_placed n = true ->
  placed_stmt b = true /\ is_case (Some n) = false /\ breaks (Some n) = false /\
  (tested || first = true -> stops (verdict n) = false) /\ (breaks b = true -> stops (verdict n) = false).
Proof.
  intros [(c & w & Hn)|(i & c & u & Hn & -> & ->)]%loop_of_body; open_node n; cbn [well_placed an_body].
  - intros Hb. split_and!; try done. destruct b; [|done]. by apply andb_true_iff in Hb as [_ ?].
  - intros [Hb Hf%negb_true_iff]%andb_true_iff. split_and!; [|done|done| |].
    + destruct b; [|done]. by apply andb_true_iff in Hb as [_ ?].
    + by destruct c.
    + intros Hbr. apply andb_false_iff in Hf as [?|Hf]; [done|]. by rewrite Hbr in Hf.
Qed.

Lemma sound_loop (e : entry) (n : ASTNode) (b : option ASTNode) (tested first : bool) (o o' : outcome) :
  loop_of n = Some (b, tested, first) -> sound_stmt e b o ->
  (o' = Normal -> o = Break \/ tested = true) -> o' <> Break -> sound_stmt e (Some n) o'.
Proof.
  intros Hn Hb Ho Hbr Hl Hc Hp. destruct (placed_loop n b tested first Hn Hp) as (Hpb & Hnc & _ & Ht & Hs).
  split; [|done]. intros ->. destruct (Ho eq_refl) as [->| ->]; [|by apply Ht].
  apply Hs. destruct (Hb Hl ltac:(intros ->; by rewrite Hnc in Hc; specialize (Hc eq_refl)) Hpb) as [_ H]. by apply H.
Qed.

Lemma placed_child (o : option ASTNode) :
  match o with Some n => negb (has_case n) && well_placed n | None => true end = true -> placed_stmt o = true.
Proof. destruct o; [|done]. by intros [_ ?]%andb_true_iff. Qed.

Lemma sound : 
  (forall e s o, exec e s o -> sound_stmt e s o) /\ (forall e l o, exec_list e l o -> sound_list e l o).
Proof.
  apply exec_both.
  - by intros.
  - intros n Hn _ _ _. split; [|done]. intros _. by destruct n as [? ? ? ? ? ? []].
  - intros e n l o Hn _ IH Hl Hc Hp. open_node n. destruct (IH Hl) as [IHl _]. apply IHl; [done|].
    by intros ->.
  - intros e n c t f o Hn _ IH Hl Hc Hp. open_node n. apply andb_true_iff in Hp as [Hp%placed_child _].
    destruct (IH Hl ltac:(intros ->; by specialize (Hc eq_refl)) Hp) as [H1 H2]. split; cbn; intros Ho; fold (verdict_opt t) (breaks t);
      [by rewrite H1|by rewrite H2].
  - intros e n c t f o Hn _ IH Hl Hc Hp. open_node n. apply andb_true_iff in Hp as [_ Hp%placed_child].
    destruct (IH Hl ltac:(intros ->; by specialize (Hc eq_refl)) Hp) as [H1 H2]. split; cbn; intros Ho; fold (verdict_opt f) (breaks f);
      [rewrite H1|rewrite H2]; auto with bool.
  - intros n b tested Hn Hl Hc Hp. destruct (placed_loop _ _ _ _ Hn Hp) as (_ & _ & _ & Ht & _). split; [|done].
    intros _. apply Ht, orb_true_r.
  - intros e n b first o Hn _ IH _. apply (sound_loop e n b true first o); auto.
  - intros e n b tested first Hn _ IH. apply (sound_loop e n b tested first Break); auto.
  - intros e n b tested first o o' Hn _ IH _ _ IHn Hl Hc Hp. apply IHn; done.
  - intros e n b tested first Hn _ IH. apply (sound_loop e n b tested first Return); done.
  - intros e n b tested first l Hn _ IH. apply (sound_loop e n b tested first (Goto l)); done.
  - intros n c cases Hn Hd Hl Hc Hp. split; [|done]. intros _. cbn [verdict_opt]. by rewrite (verdict_switch n c cases Hn), Hd.
  - intros n c cases o Hn _ IH Hl Hc Hp. by apply (sound_switch AtCase n c cases).
  - intros l n c cases o Hn _ IH Hl Hc Hp. by apply (sound_switch (AtLabel l) n c cases).
  - intros e n v body next o Hn _ IH Hl Hc Hp. open_node n. destruct (IH Hl) as [IHl _]. apply IHl; [done|]. by intros ->.
  - intros n v body next o Hn _ IH Hl Hc Hp. open_node n. destruct (IH ltac:(done)) as [IHl _]. by apply IHl.
  - intros n v Hn Hl Hc Hp. by open_node n.
  - intros n Hn Hl Hc Hp. by open_node n.
  - intros n Hn Hl Hc Hp. by open_node n.
  - intros n l Hn _ Hl Hc Hp. by open_node n.
  - intros e n l s o Hn _ IH Hl Hc Hp. open_node n. apply IH; [done|intros ->; by specialize (Hc eq_refl)|by apply placed_child].
  - intros n l s o Hn _ IH Hl Hc Hp. open_node n. apply IH; [done|done|by apply placed_child].
  - intros _. split; [intros reach saw _ Hr; by rewrite Hr|]. intros _. split; [by left|done].
  - intros e s rest o He IHs _ IHr. by apply sound_seq.
  - intros e s rest o He IHs Ho. by apply sound_leave.
  - intros e s rest o He _ IH. by apply sound_skip.
Qed.
End Verdict.

(** ** The analysis ends *)

Definition total {A} (m : SM A) : Prop := forall st, exists a st', m st = Some (Some a, st').

Lemma total_ret {A} (a : A) : total (ret a).
Proof. intros st. by exists a, st. Qed.
Lemma total_modify (f : SemState -> SemState) : total (modify f).
Proof. intros st. by exists tt, (f st). Qed.
Lemma total_bind {A B} (m : SM A) (k : A -> SM B) : total m -> (forall a, total (k a)) -> total (bind m k).
Proof. intros Hm Hk st. destruct (Hm st) as (a & st1 & E). unfold bind. rewrite E. apply Hk. Qed.
Lemma total_if {A} (b : bool) (m1 m2 : SM A) : total m1 -> total m2 -> total (if b then m1 else m2).
Proof. by destruct b. Qed.

Definition height_opt (o : option ASTNode) : nat := match o with Some n => node_height n | None => O end.
Definition height_list (l : list (option ASTNode)) : nat := foldr (fun o h => Nat.max (height_opt o) h) O l.

Lemma height_list_elem (o : option ASTNode) (l : list (option ASTNode)) : o ∈ l -> (height_opt o <= height_list l)%nat.
Proof. induction 1 as [o l|o o' l _ IH]; [apply Nat.le_max_l|]. etrans; [apply IH|apply Nat.le_max_r]. Qed.

(** A case found in a statement is no higher than it. *)
Definition owned_opt (o : option ASTNode) (list : list ASTNode) : Datatypes.list ASTNode :=
  match o with Some n => collectOwnedSwitchCases n list | None => list end.
Definition owned_list (l : list (option ASTNode)) (list : list ASTNode) : Datatypes.list ASTNode :=
  foldl (fun list o => owned_opt o list) list l.

Definition found_low (n : ASTNode) : Prop :=
  forall list x, x ∈ collectOwnedSwitchCases n list -> x ∈ list \/ (node_height x <= node_height n)%nat.

Lemma owned_opt_height (o : option ASTNode) (list : list ASTNode) (x : ASTNode) :
  (forall n, o = Some n -> found_low n) -> x ∈ owned_opt o list -> x ∈ list \/ (node_height x <= height_opt o)%nat.
Proof. destruct o as [n|]; [|by left]. intros H. by apply H. Qed.

Lemma owned_list_height (l : list (option ASTNode)) (list : list ASTNode) (x : ASTNode) :
  Forall found_low (omap id l) -> x ∈ owned_list l list -> x ∈ list \/ (node_height x <= height_list l)%nat.
Proof.
  revert list. induction l as [|o l IH]; intros list; [by left|]. intros [Ho Hl]%children_cons Hx.
  apply IH in Hx as [Hx|Hx]; [|right|done].
  - apply owned_opt_height in Hx as [Hx|Hx]; [by left|right|done]. etrans; [exact Hx|apply Nat.le_max_l].
  - etrans; [exact Hx|apply Nat.le_max_r].
Qed.

Lemma owned_height (n : ASTNode) : found_low n.
Proof.
  induction n as [[nid line l1 l2 l3 attrs body] IH] using node_children_ind; intros list x.
  destruct body; cbn [node_children an_body] in IH; cbn [collectOwnedSwitchCases an_body]; try (by left); try children IH;
    cbn [node_height an_body];
    fold (height_opt); intros Hx;
    repeat match type of Hx with
    | x ∈ match ?o with Some n => collectOwnedSwitchCases n ?s | None => ?s end =>
        apply (owned_opt_height o s x) in Hx as [Hx|Hx]; [|right; unfold height_opt in Hx; lia|done]
    | x ∈ foldl _ ?s ?l => apply (owned_list_height l s x) in Hx as [Hx|Hx]; [|right; unfold height_list, height_opt in Hx; lia|done]
    end; try (by left).
  apply elem_of_app in Hx as [Hx|Hx]; [by left|]. right. apply list_elem_of_singleton in Hx as ->. cbn. lia.
Qed.

Lemma owned_cases_height (cases : list (option ASTNode)) :
  Forall (fun n => node_height n <= height_list cases)%nat (owned_cases cases).
Proof.
  apply Forall_forall. intros x Hx.
  apply (owned_list_height cases [] x) in Hx as [Hx|Hx]; [by apply elem_of_nil in Hx|done|].
  apply Forall_forall. intros n _. apply owned_height.
Qed.

Section Total.
Variable rec : option ASTNode -> FlowContext -> SM FlowResult.
Variable bound : nat.
Hypothesis Hrec : forall o ctx, (height_opt o <= bound)%nat -> total (rec o ctx).

Lemma check_list_total (ctx : FlowContext) (l : list (option ASTNode)) :
  (height_list l <= bound)%nat -> forall reach saw reported, total (check_list rec ctx reach saw reported l).
Proof.
  induction l as [|s l IH]; intros Hl reach saw reported; [apply total_ret|].
  change (Nat.max (height_opt s) (height_list l) <= bound)%nat in Hl.
  cbn [check_list]. apply total_bind; [case_match; [apply total_if; [apply total_modify|apply total_ret]|apply total_ret]|].
  intros _. apply total_bind; [apply Hrec; lia|]. intros flow. apply total_if; apply IH; lia.
Qed.

Lemma check_cases_total (ctx : FlowContext) (cases : list ASTNode) :
  Forall (fun n => node_height n <= S bound)%nat cases ->
  forall flows sawDefault, total (check_cases rec ctx cases flows sawDefault).
Proof.
  induction cases as [|c cases IH]; intros Hc flows sawDefault; [apply total_ret|]. apply Forall_cons in Hc as [Hc Hcs].
  cbn [check_cases]. apply total_bind; [apply total_if; [apply total_modify|apply total_ret]|]. intros _.
  destruct (default (None, []) (case_parts c)) as [value body] eqn:E. apply total_bind.
  { apply check_list_total. destruct c as [? ? ? ? ? ? []]; cbn in E; try (injection E as <- <-; cbn; lia).
    injection E as <- <-. cbn in Hc. unfold height_list, height_opt. lia. }
  intros flow. apply total_bind; [apply total_if; [apply total_modify|apply total_ret]|]. intros _. by apply IH.
Qed.

Lemma rec_or_none_total (o : option ASTNode) (ctx : FlowContext) :
  (height_opt o <= bound)%nat -> total (if o is Some _ then rec o ctx else ret no_flow).
Proof. destruct o; [by apply Hrec|by intros; apply total_ret]. Qed.

Lemma check_step_total (o : option ASTNode) (ctx : FlowContext) :
  (height_opt o <= S bound)%nat -> total (check_step rec o ctx).
Proof.
  destruct o as [[nid line l1 l2 l3 attrs body]|]; [|by intros; apply total_ret].
  destruct body; cbn [height_opt node_height an_body]; intros Hh; cbn [check_step an_body]; try apply total_ret;
    unfold checkStatementList, checkSwitch, checkIf;
    try (apply check_list_total; unfold height_list, height_opt; lia).
  1-3: repeat (apply total_bind; [first [apply Hrec|apply rec_or_none_total]; unfold height_opt; lia|intros ?]); apply total_ret.
  - apply Hrec. unfold height_opt. lia.
  - apply total_bind; [|intros [? ?]; apply total_ret]. apply check_cases_total.
    eapply Forall_impl; [apply owned_cases_height|]. intros x Hx. unfold height_list, height_opt in Hx. lia.
Qed.
End Total.

Lemma check_returns (fuel : nat) : forall (o : option ASTNode) (ctx : FlowContext),
  (height_opt o < fuel)%nat -> total (checkStatement fuel o ctx).
Proof.
  induction fuel as [|fuel IH]; intros o ctx Hh; [lia|]. destruct fuel as [|fuel].
  { destruct o as [n|]; [destruct n; cbn in Hh; lia|apply total_ret]. }
  apply (check_step_total _ fuel); [|lia]. intros; apply IH; lia.
Qed.

(** ** Only warnings *)

Definition is_error (d : SemDiag) : bool := let 'mkSemDiag isWarning _ _ := d in negb isWarning.
Definition errors (st : SemState) : list SemDiag := List.filter is_error (ss_diagnostics st).

Lemma warning_no_error (line : Z) (message : string) : preserves errors (addWarning line message).
Proof. apply preserves_modify. intros st. unfold errors. cbn. rewrite List.filter_app. apply app_nil_r. Qed.

(** The state without its diagnostics: all that types depend on. *)
Definition silent (st : SemState) : SemState :=
  mkSemState (ss_nodes st) (ss_symbols st) (ss_structs st) (ss_unions st) (ss_enums st) (ss_targetLayout st) [].

Lemma warning_silent (line : Z) (message : string) : preserves silent (addWarning line message).
Proof. by apply preserves_modify. Qed.

Lemma type_info_silent (host : Host) (st : SemState) (t : ParsedType) (scope : Scope) :
  typeInfoFromParsedType host (silent st) t scope = typeInfoFromParsedType host st t scope.
Proof. reflexivity. Qed.

(** What warnings leave alone. *)
Section Warnings.
Context {T : Type} (part : SemState -> T).
Hypothesis Hwarning : forall line message, preserves part (addWarning line message).

Section Rec.
Variable rec : option ASTNode -> FlowContext -> SM FlowResult.
Hypothesis Hrec : forall o ctx, preserves part (rec o ctx).

Lemma check_list_preserves (ctx : FlowContext) (l : list (option ASTNode)) :
  forall reach saw reported, preserves part (check_list rec ctx reach saw reported l).
Proof.
  induction l as [|s l IH]; intros reach saw reported; [apply preserves_ret|]. cbn [check_list].
  apply preserves_bind; [repeat case_match; try apply preserves_ret; apply Hwarning|]. intros _.
  apply preserves_bind; [apply Hrec|]. intros flow. destruct (_ && stops flow); apply IH.
Qed.

Lemma check_cases_preserves (ctx : FlowContext) (cases : list ASTNode) :
  forall flows sawDefault, preserves part (check_cases rec ctx cases flows sawDefault).
Proof.
  induction cases as [|c cases IH]; intros flows sawDefault; [apply preserves_ret|]. cbn [check_cases].
  apply preserves_bind; [case_match; [apply Hwarning|apply preserves_ret]|]. intros _.
  destruct (default (None, []) (case_parts c)) as [value body]. apply preserves_bind; [apply check_list_preserves|]. intros flow.
  apply preserves_bind; [case_match; [apply Hwarning|apply preserves_ret]|]. intros _. apply IH.
Qed.

Lemma check_step_preserves (o : option ASTNode) (ctx : FlowContext) : preserves part (check_step rec o ctx).
Proof.
  unfold check_step, checkStatementList, checkSwitch, checkIf. repeat case_match; try apply preserves_ret; try apply check_list_preserves; try apply Hrec;
    repeat first [apply preserves_ret|apply Hrec|apply check_cases_preserves|apply preserves_bind; intros].
  by case_match; apply preserves_ret.
Qed.
End Rec.

Lemma check_preserves (fuel : nat) : forall (o : option ASTNode) (ctx : FlowContext), preserves part (checkStatement fuel o ctx).
Proof. induction fuel as [|fuel IH]; intros o ctx; [done|]. by apply check_step_preserves. Qed.
End Warnings.

(** ** The verdict is what the code computes *)

Section Computes.
Variable targets : GotoTargetSet.

Definition computes (o : option ASTNode) (flow : FlowResult) (m : SM FlowResult) : Prop :=
  placed_stmt targets o = true -> forall st f st', m st = Some (Some f, st') -> f = flow.

Lemma no_owned_list (l : list (option ASTNode)) (list : list ASTNode) :
  Forall (fun n => has_case n = false -> forall list, collectOwnedSwitchCases n list = list) (omap id l) ->
  existsb cases_in l = false -> owned_list l list = list.
Proof.
  revert list. induction l as [|o l IH]; intros list; [done|]. intros [Ho Hl]%children_cons [H1 H2]%orb_false_iff.
  cbn. destruct o as [n|]; [|by apply IH]. cbn. rewrite Ho by done. by apply IH.
Qed.

Lemma no_owned (n : ASTNode) : has_case n = false -> forall list, collectOwnedSwitchCases n list = list.
Proof.
  induction n as [[nid line l1 l2 l3 attrs body] IH] using node_children_ind.
  destruct body; cbn [node_children an_body has_case] in *; try done; intros Hc list; cbn [collectOwnedSwitchCases an_body];
    try (by apply no_owned_list); children IH;
    repeat match type of Hc with _ || _ = false => apply orb_false_iff in Hc as [? Hc] end;
    repeat match goal with |- context [match ?o with Some n => collectOwnedSwitchCases n _ | None => _ end] => destruct o end;
    repeat match goal with H : forall n, Some ?a = Some n -> _ |- _ => rewrite (H a eq_refl) by done end; try done.
Qed.

Lemma placed_list_cases (l : list (option ASTNode)) : forall reach,
  placed_list targets (well_placed targets) reach l = true -> existsb cases_in l = false.
Proof. induction l as [|s l IH]; intros reach; [done|]. intros (Hc & _ & Hl)%placed_list_cons. cbn. rewrite Hc. by apply (IH _ Hl). Qed.

Lemma owned_direct (cases : list (option ASTNode)) (list : list ASTNode) :
  forallb (placed_case targets) cases = true -> owned_list cases list = list ++ omap id cases.
Proof.
  revert list. induction cases as [|o cases IH]; intros list; [by rewrite app_nil_r|].
  cbn [forallb]. intros [Ho Hl]%andb_true_iff. destruct o as [[nid line l1 l2 l3 attrs body]|]; [|done]. destruct body; try done. destruct nextCase; [done|].
  change (owned_list cases (owned_list caseBody (list ++ [mkASTNode nid line l1 l2 l3 attrs (AST_CASE caseValue caseBody None)])) =
    list ++ mkASTNode nid line l1 l2 l3 attrs (AST_CASE caseValue caseBody None) :: omap id cases).
  rewrite (no_owned_list caseBody), IH, <- app_assoc; [done|done| |by apply (placed_list_cases _ true)].
  apply Forall_forall. intros n _. apply no_owned.
Qed.

Section Step.
Variable rec : option ASTNode -> FlowContext -> SM FlowResult.
Hypothesis Hrec : forall o ctx, reachable ctx = true -> gotoTargets ctx = targets ->
  computes o (verdict_opt targets o) (rec o ctx).

Lemma check_list_verdict (ctx : FlowContext) (l : list (option ASTNode)) : gotoTargets ctx = targets ->
  forall reach saw reported st f st', placed_list targets (well_placed targets) reach l = true ->
  check_list rec ctx reach saw reported l st = Some (Some f, st') -> f = verdict_list targets (verdict targets) reach saw l.
Proof.
  intros Ht. induction l as [|s l IH]; intros reach saw reported st f st'; [by intros _ [= <-]|].
  intros (_ & Hs & Hl)%placed_list_cons. cbn [check_list verdict_list]. fold (verdict_opt targets s).
  rewrite Ht. replace (reach || negb reach && is_target targets s) with (reach || is_target targets s) by (by destruct reach).
  intros (_ & st1 & _ & (flow & st2 & Hflow & Hrest)%bind_some)%bind_some. destruct (reach || is_target targets s) eqn:Hr.
  - rewrite (Hrec s (at_reach ctx true) eq_refl Ht Hs _ _ _ Hflow) in *. cbn [andb] in *.
    destruct (stops (verdict_opt targets s)); by apply IH in Hrest.
  - cbn [andb] in *. by apply IH in Hrest.
Qed.

Lemma check_cases_verdict (ctx : FlowContext) (cases : list (option ASTNode)) :
  gotoTargets ctx = targets -> reachable ctx = true -> forallb (placed_case targets) cases = true ->
  forall flows sawDefault st r st', check_cases rec ctx (omap id cases) flows sawDefault st = Some (Some r, st') ->
  r = (flows ++ map (verdict_opt targets) cases, sawDefault || existsb is_default cases).
Proof.
  intros Ht Hr. induction cases as [|o cases IH]; cbn [forallb]; intros Hc flows sawDefault st r st'.
  { intros [= <-]. by rewrite app_nil_r, orb_false_r. }
  apply andb_true_iff in Hc as [Ho Hc]. destruct o as [[nid line l1 l2 l3 attrs body]|]; [|done]. destruct body; try done. destruct nextCase; [done|].
  cbn [omap list_omap id check_cases case_parts an_body default].
  intros (_ & st1 & _ & (flow & st2 & Hflow & (_ & st3 & _ & Hrest)%bind_some)%bind_some)%bind_some.
  apply (IH Hc) in Hrest as ->. rewrite Hr in Hflow.
  apply (check_list_verdict (at_reach ctx true) caseBody Ht true) in Hflow as ->; [|done].
  rewrite <- app_assoc. cbn [existsb is_default case_parts an_body map verdict_opt verdict app].
  f_equal. rewrite <- orb_assoc. by destruct caseValue.
Qed.

Lemma check_step_verdict (o : option ASTNode) (ctx : FlowContext) :
  reachable ctx = true -> gotoTargets ctx = targets -> computes o (verdict_opt targets o) (check_step rec o ctx).
Proof.
  intros Hr Ht Hp st f st'. destruct o as [[nid line l1 l2 l3 attrs body]|]; [|by intros [= <-]].
  destruct body; cbn [check_step an_body]; unfold checkStatementList, checkIf, checkSwitch; try (by intros [= <-]).
  - intros H. rewrite Hr in H. by apply (check_list_verdict ctx statements Ht) in H as ->.
  - intros (tf & st1 & Htf & (ef & st2 & Hef & [= <-])%bind_some)%bind_some.
    apply andb_true_iff in Hp as [H1%placed_child H2%placed_child].
    rewrite (Hrec thenBranch ctx Hr Ht H1 _ _ _ Htf).
    assert (ef = verdict_opt targets elseBranch) as -> by (destruct elseBranch; [by apply (Hrec _ _ Hr Ht H2) in Hef|by injection Hef]).
    done.
  - by intros (? & ? & _ & (? & ? & _ & [= <-])%bind_some)%bind_some.
  - intros (? & ? & _ & (? & ? & _ & (? & ? & _ & (bf & ? & Hb & [= <-])%bind_some)%bind_some)%bind_some)%bind_some.
    apply andb_true_iff in Hp as [Hp%placed_child _]. apply (Hrec body (in_loop ctx) Hr Ht Hp) in Hb as ->. by destruct condition, increment.
  - intros H. by apply (Hrec statement ctx Hr Ht (placed_child targets _ Hp)) in H as ->.
  - intros ([flows d] & ? & Hf & [= <-])%bind_some.
    pose proof (placed_switch targets (mkASTNode nid line l1 l2 l3 attrs (AST_SWITCH condition caseList)) condition caseList eq_refl Hp) as [Hc _].
    change (owned_cases caseList) with (owned_list caseList []) in *. rewrite (owned_direct _ [] Hc) in *. cbn [app] in *.
    apply (check_cases_verdict (in_switch ctx)) in Hf as [= -> ->]; [|done..]. rewrite Hr. cbn [app orb].
    change (verdict_opt targets (Some (mkASTNode nid line l1 l2 l3 attrs (AST_SWITCH condition caseList)))) with
      (let r := existsb is_default caseList && forallb returns (chain_flows (map (verdict_opt targets) caseList)) in makeFlow r r).
    destruct (existsb is_default caseList) eqn:Hd; [|done].
    rewrite bool_decide_eq_false_2; [by repeat rewrite andb_true_l|]. intros Hnil. clear -Hd Hc Hnil.
    destruct caseList as [|[n|] l]; done.
  - intros H. rewrite Hr in H. by apply (check_list_verdict ctx caseBody Ht) in H as ->.
Qed.
End Step.

Lemma check_verdict (fuel : nat) : forall (o : option ASTNode) (ctx : FlowContext),
  reachable ctx = true -> gotoTargets ctx = targets -> computes o (verdict_opt targets o) (checkStatement fuel o ctx).
Proof. induction fuel as [|fuel IH]; intros o ctx Hr Ht; [done|]. by apply check_step_verdict. Qed.
End Computes.

(** ** Functions *)

Lemma goto_named :
  (forall e s o, exec e s o -> forall l, o = Goto l -> l <> ""%string) /\
  (forall e s o, exec_list e s o -> forall l, o = Goto l -> l <> ""%string).
Proof. apply exec_both; intros; simplify_eq; eauto using switch_goto. Qed.

Lemma targets_contain (body : option ASTNode) (e : entry) (l : string) :
  exec e body (Goto l) -> gotoTargetSetContains (collect body []) l = true.
Proof.
  intros H. unfold gotoTargetSetContains. rewrite (proj2 (String.eqb_neq l ""%string) (proj1 goto_named _ _ _ H l eq_refl)).
  apply existsb_exists. exists l. split; [|apply String.eqb_refl].
  apply list_elem_of_In, (proj1 goto_collected _ _ _ H l [] eq_refl).
Qed.

Definition placed_body (body : option ASTNode) : bool := placed_stmt (collect body []) body.

Lemma stops_no_end (body : option ASTNode) :
  placed_body body = true -> stops (verdict_opt (collect body []) body) = true -> ~ reaches_end body.
Proof.
  intros Hp Hs. unfold reaches_end.
  enough (forall e o, run body e o -> e <> AtCase -> label_ok (collect body []) e -> o <> Normal) as H by (intros Hr; by apply (H _ _ Hr)).
  induction 1 as [e o Hexec|e l o Hexec _ IH]; intros He Hl.
  - intros ->. destruct (proj1 (sound (collect body [])) _ _ _ Hexec Hl ltac:(done) Hp) as [Hn _]. by rewrite Hn in Hs.
  - apply IH; [done|]. intros l' [= <-]. by apply (targets_contain body e).
Qed.

(** C40 (safety).  The analysis of a function whose return type is not void ends; when it adds
    no error, no execution of the body, with its gotos followed, runs off the end, for every body
    whose labels, cases and breaks stand where [well_placed] wants them. *)
Theorem analysis_sound (host : Host) (scope : Scope) (fn : ASTNode) (returnType : ParsedType) (funcName : option ASTNode)
    (params : list (option ASTNode)) (body : option ASTNode) (variadic prototype : bool) (st : SemState) (info : TypeInfo) :
  an_body fn = AST_FUNCTION_DEFINITION returnType funcName params body variadic prototype ->
  typeInfoFromParsedType host st returnType scope = Some info -> ti_category info <> TYPEINFO_VOID ->
  placed_body body = true ->
  exists st', traverse host scope fn st = Some (Some tt, st') /\ (errors st' = errors st -> ~ reaches_end body).
Proof.
  intros Hfn Hinfo Hvoid Hp. destruct fn as [nid line l1 l2 l3 attrs b]. cbn [an_body] in Hfn. subst b. cbn [traverse an_body].
  unfold check_function. fold (collect body []). fold (height_opt body).
  set (ctx := mkFlowContext false false true false (collect body [])).
  destruct (check_returns (S (height_opt body)) body ctx ltac:(lia) st) as (flow & st1 & Hcheck).
  pose proof (check_preserves silent warning_silent _ _ _ _ _ _ Hcheck) as Hsilent.
  pose proof (check_preserves errors warning_no_error _ _ _ _ _ _ Hcheck) as Herr.
  pose proof (check_verdict _ _ body ctx eq_refl eq_refl Hp _ _ _ Hcheck) as ->.
  unfold bind at 1. rewrite Hcheck. unfold bind at 1, get. unfold bind.
  rewrite <- (type_info_silent host st1), Hsilent, type_info_silent, Hinfo. cbn [lift ret].
  rewrite bool_decide_eq_false_2 by done. destruct (stops _) eqn:Hstops; cbn [negb andb].
  - exists st1. split; [done|]. intros _. by apply stops_no_end.
  - eexists. split; [reflexivity|]. unfold errors in *. cbn. rewrite List.filter_app, Herr. intros H.
    by apply (f_equal (length (A := SemDiag))) in H; rewrite length_app in H; cbn in H; lia.
Qed.

(** ** Examples *)

Definition stmt (body : ASTBody ASTNode) : option ASTNode := Some (plain_node 1 body).
Definition named (name : string) : option ASTNode := stmt (AST_IDENTIFIER (Some name)).
Definition block (l : list (option ASTNode)) : option ASTNode := stmt (AST_BLOCK l).
Definition if_then (t : option ASTNode) : option ASTNode := stmt (AST_IF_STATEMENT (named "x") t None).
Definition forever (b : option ASTNode) : option ASTNode := stmt (AST_FOR_LOOP None None None b).
Definition return_one : option ASTNode := stmt (AST_RETURN (stmt (AST_NUMBER_LITERAL (Some "1"%string)))).
Definition jump (l : string) : option ASTNode := stmt (AST_GOTO_STATEMENT (Some l)).
Definition label (l : string) (s : option ASTNode) : option ASTNode := stmt (AST_LABEL_DECLARATION (Some l) s).
Definition break_stmt : option ASTNode := stmt AST_BREAK.

Definition int_function (name : string) (body : option ASTNode) : ASTNode :=
  plain_node 1 (AST_FUNCTION_DEFINITION int_type (named name) [] body false true).

(** The errors of a function that returns [int]. *)
Definition errors_of (name : string) (body : option ASTNode) : option (list SemDiag) :=
  match traverse HostOther (createScope []) (int_function name body) (empty_state layout_lp64_fp80) with
  | Some (_, st) => Some (errors st)
  | None => None
  end.

(** [if (x) goto out; for (;;) { if (x) break; if (x) return 1; f; } return 1; out: return 1;] *)
Definition sample_body : option ASTNode :=
  block [if_then (jump "out");
         forever (block [if_then break_stmt; if_then return_one; named "f"]);
         return_one;
         label "out" return_one].

Lemma analysis_sound_witness : errors_of "f" sample_body = Some [] /\ ~ reaches_end sample_body.
Proof.
  split; [reflexivity|].
  destruct (analysis_sound HostOther (createScope []) (int_function "f" sample_body) int_type (named "f") [] sample_body false true
    (empty_state layout_lp64_fp80) (set_original (makeIntegerType 32 true TOKEN_INT) (Some int_type)) eq_refl)
    as (st' & Hrun & H); [reflexivity|done|reflexivity|].
  apply H. vm_compute in Hrun. injection Hrun as <-. reflexivity.
Defined.

(** [for (;;) { if (x) break; return 1; }] counts as returning, but the [break] leaves it. *)
Example break_before_return_missed :
  let body := block [forever (block [if_then break_stmt; return_one])] in
  errors_of "f" body = Some [] /\ reaches_end body.
Proof.
  split; [reflexivity|]. apply run_to. eapply exec_block; [reflexivity|]. apply exec_seq; [|constructor].
  eapply exec_loop_break; [reflexivity|]. eapply exec_block; [reflexivity|]. apply exec_leave; [|done].
  eapply exec_then; [reflexivity|]. by apply exec_break.
Qed.

(** [switch (x) { case 1: if (x) break; return 1; default: return 1; }] as well. *)
Example break_in_switch_missed :
  let body := block [stmt (AST_SWITCH (named "x")
    [stmt (AST_CASE (named "x") [if_then break_stmt; return_one] None); stmt (AST_CASE None [return_one] None)])] in
  errors_of "f" body = Some [] /\ reaches_end body.
Proof.
  split; [reflexivity|]. apply run_to. eapply exec_block; [reflexivity|]. apply exec_seq; [|constructor].
  change Normal with (out_of_switch Break). eapply exec_switch; [reflexivity|]. apply exec_leave; [|done].
  eapply exec_at_case; [reflexivity|]. apply exec_leave; [|done]. eapply exec_then; [reflexivity|]. by apply exec_break.
Qed.

(** A label inside a block behind a [return] does not make the block reachable. *)
Example nested_label_missed :
  let body := block [if_then (jump "l"); return_one; block [label "l" (named "f")]] in
  errors_of "f" body = Some [] /\ reaches_end body.
Proof.
  split; [reflexivity|]. apply (run_goto _ _ "l").
  - eapply exec_block; [reflexivity|]. apply exec_leave; [|done]. eapply exec_then; [reflexivity|]. by eapply exec_goto.
  - apply run_to. eapply exec_block; [reflexivity|]. do 2 (apply exec_skip; [done|]). apply exec_seq; [|constructor].
    eapply exec_block; [reflexivity|]. apply exec_seq; [|constructor]. eapply exec_at_label; [reflexivity|]. by apply exec_simple.
Qed.

(** [do return 1; while (x);] is an error, though nothing gets past it. *)
Example do_while_return_refused :
  errors_of "f" (block [stmt (AST_WHILE_LOOP (named "x") return_one true)]) =
  Some [mkSemDiag false 0 "Control reaches end of non-void function 'f'"].
Proof. reflexivity. Qed.

(** [main] may run off its end in C; here it may not. *)
Example main_needs_a_return :
  errors_of "main" (block []) = Some [mkSemDiag false 0 "Control reaches end of non-void function 'main'"].
Proof. reflexivity. Qed.
