(* ===== verification/UnitsDim.v ===== *)
(** * Dimension vectors (src/Extensions/Units/units_model.c).

    A [FisicsDim8] is the list of its eight [int8_t] exponents; [dim_ok] says it is one.
    The checked operations return [None] where the code returns [false].  [Outcome] also
    tells apart what C leaves undefined (an [int] product that overflows). *)
From S2P Require Import Prelude.

Inductive FisicsDimSlot : Set :=
  | FISICS_DIM_LENGTH | FISICS_DIM_MASS | FISICS_DIM_TIME | FISICS_DIM_CURRENT
  | FISICS_DIM_TEMPERATURE | FISICS_DIM_AMOUNT | FISICS_DIM_LUMINOUS | FISICS_DIM_CUSTOM.

Definition slot_index (slot : FisicsDimSlot) : nat :=
  match slot with
  | FISICS_DIM_LENGTH => 0 | FISICS_DIM_MASS => 1 | FISICS_DIM_TIME => 2 | FISICS_DIM_CURRENT => 3
  | FISICS_DIM_TEMPERATURE => 4 | FISICS_DIM_AMOUNT => 5 | FISICS_DIM_LUMINOUS => 6
  | FISICS_DIM_CUSTOM => 7
  end%nat.

Inductive FisicsDimFamily : Set :=
  | FISICS_DIM_FAMILY_DIMENSIONLESS | FISICS_DIM_FAMILY_LENGTH | FISICS_DIM_FAMILY_MASS
  | FISICS_DIM_FAMILY_TIME | FISICS_DIM_FAMILY_CURRENT | FISICS_DIM_FAMILY_TEMPERATURE
  | FISICS_DIM_FAMILY_AMOUNT | FISICS_DIM_FAMILY_LUMINOUS | FISICS_DIM_FAMILY_CUSTOM
  | FISICS_DIM_FAMILY_VELOCITY | FISICS_DIM_FAMILY_ACCELERATION | FISICS_DIM_FAMILY_AREA
  | FISICS_DIM_FAMILY_SECOND_MOMENT_OF_AREA | FISICS_DIM_FAMILY_FORCE | FISICS_DIM_FAMILY_ENERGY
  | FISICS_DIM_FAMILY_POWER | FISICS_DIM_FAMILY_PRESSURE | FISICS_DIM_FAMILY_CHARGE
  | FISICS_DIM_FAMILY_VOLTAGE | FISICS_DIM_FAMILY_RESISTANCE.

#[export] Instance FisicsDimFamily_eq_dec : EqDecision FisicsDimFamily.
Proof. solve_decision. Defined.

Definition family_code (f : FisicsDimFamily) : Z :=
  match f with
  | FISICS_DIM_FAMILY_DIMENSIONLESS => 0 | FISICS_DIM_FAMILY_LENGTH => 1
  | FISICS_DIM_FAMILY_MASS => 2 | FISICS_DIM_FAMILY_TIME => 3 | FISICS_DIM_FAMILY_CURRENT => 4
  | FISICS_DIM_FAMILY_TEMPERATURE => 5 | FISICS_DIM_FAMILY_AMOUNT => 6
  | FISICS_DIM_FAMILY_LUMINOUS => 7 | FISICS_DIM_FAMILY_CUSTOM => 8
  | FISICS_DIM_FAMILY_VELOCITY => 9 | FISICS_DIM_FAMILY_ACCELERATION => 10
  | FISICS_DIM_FAMILY_AREA => 11 | FISICS_DIM_FAMILY_SECOND_MOMENT_OF_AREA => 12
  | FISICS_DIM_FAMILY_FORCE => 13 | FISICS_DIM_FAMILY_ENERGY => 14 | FISICS_DIM_FAMILY_POWER => 15
  | FISICS_DIM_FAMILY_PRESSURE => 16 | FISICS_DIM_FAMILY_CHARGE => 17
  | FISICS_DIM_FAMILY_VOLTAGE => 18 | FISICS_DIM_FAMILY_RESISTANCE => 19
  end.

Definition family_name (f : FisicsDimFamily) : string :=
  match f with
  | FISICS_DIM_FAMILY_DIMENSIONLESS => "dimensionless"
  | FISICS_DIM_FAMILY_LENGTH => "length"
  | FISICS_DIM_FAMILY_MASS => "mass"
  | FISICS_DIM_FAMILY_TIME => "time"
  | FISICS_DIM_FAMILY_CURRENT => "current"
  | FISICS_DIM_FAMILY_TEMPERATURE => "temperature"
  | FISICS_DIM_FAMILY_AMOUNT => "amount"
  | FISICS_DIM_FAMILY_LUMINOUS => "luminous"
  | FISICS_DIM_FAMILY_CUSTOM => "custom"
  | FISICS_DIM_FAMILY_VELOCITY => "velocity"
  | FISICS_DIM_FAMILY_ACCELERATION => "acceleration"
  | FISICS_DIM_FAMILY_AREA => "area"
  | FISICS_DIM_FAMILY_SECOND_MOMENT_OF_AREA => "second_moment_of_area"
  | FISICS_DIM_FAMILY_FORCE => "force"
  | FISICS_DIM_FAMILY_ENERGY => "energy"
  | FISICS_DIM_FAMILY_POWER => "power"
  | FISICS_DIM_FAMILY_PRESSURE => "pressure"
  | FISICS_DIM_FAMILY_CHARGE => "charge"
  | FISICS_DIM_FAMILY_VOLTAGE => "voltage"
  | FISICS_DIM_FAMILY_RESISTANCE => "resistance"
  end.

Definition fisics_dim_family_name (f : FisicsDimFamily) : string := family_name f.

Definition FISICS_DIM_COUNT : nat := 8.
Definition FisicsDim8 : Set := list Z.

Definition dim_ok (d : FisicsDim8) : Prop :=
  length d = FISICS_DIM_COUNT /\ Forall (fun x => inS 8 x = true) d.

(** A C computation that ends, fails with a message, or is undefined. *)
Inductive Outcome (A : Type) : Type :=
  | Returned (a : A)
  | Failed (detail : string)
  | Undefined.
Arguments Returned {A} a.
Arguments Failed {A} detail.
Arguments Undefined {A}.

Definition outcome_bind {A B} (r : Outcome A) (k : A -> Outcome B) : Outcome B :=
  match r with Returned a => k a | Failed s => Failed s | Undefined => Undefined end.

Notation "'let!' x ':=' r 'in' k" := (outcome_bind r (fun x => k))
  (at level 10, x pattern, r at level 100, k at level 200) : fisics_scope.

Definition checked_cast_i8 (value : Z) : option Z := if inS 8 value then Some value else None.

Definition dim_with_slot (slot : FisicsDimSlot) : FisicsDim8 :=
  <[slot_index slot := 1]> (replicate FISICS_DIM_COUNT 0).

Definition fisics_dim_zero : FisicsDim8 := replicate FISICS_DIM_COUNT 0.

Definition fisics_dim_equal (a b : FisicsDim8) : bool := forallb (fun '(x, y) => x =? y) (zip a b).

Definition fisics_dim_add (a b : FisicsDim8) : option FisicsDim8 :=
  mapM checked_cast_i8 (zip_with Z.add a b).

Definition fisics_dim_sub (a b : FisicsDim8) : option FisicsDim8 :=
  mapM checked_cast_i8 (zip_with Z.sub a b).

(** The loop stops at the first exponent whose [int] product overflows (undefined) or
    does not fit [int8_t] (failure, reported by the caller's [detail]). *)
Fixpoint fisics_dim_scale (dim : FisicsDim8) (power : Z) (detail : string) : Outcome FisicsDim8 :=
  match dim with
  | [] => Returned []
  | x :: rest =>
      if negb (inS 32 (x * power)) then Undefined
      else match checked_cast_i8 (x * power) with
           | None => Failed detail
           | Some y => let! ys := fisics_dim_scale rest power detail in Returned (y :: ys)
           end
  end.

Definition fisics_dim_is_dimensionless (dim : FisicsDim8) : bool := forallb (fun x => x =? 0) dim.

Definition fisics_dim_length : FisicsDim8 := dim_with_slot FISICS_DIM_LENGTH.
Definition fisics_dim_mass : FisicsDim8 := dim_with_slot FISICS_DIM_MASS.
Definition fisics_dim_time : FisicsDim8 := dim_with_slot FISICS_DIM_TIME.
Definition fisics_dim_current : FisicsDim8 := dim_with_slot FISICS_DIM_CURRENT.
Definition fisics_dim_temperature : FisicsDim8 := dim_with_slot FISICS_DIM_TEMPERATURE.
Definition fisics_dim_amount : FisicsDim8 := dim_with_slot FISICS_DIM_AMOUNT.
Definition fisics_dim_luminous : FisicsDim8 := dim_with_slot FISICS_DIM_LUMINOUS.
Definition fisics_dim_custom : FisicsDim8 := dim_with_slot FISICS_DIM_CUSTOM.
Definition fisics_dim_velocity : FisicsDim8 := [1; 0; -1; 0; 0; 0; 0; 0].
Definition fisics_dim_acceleration : FisicsDim8 := [1; 0; -2; 0; 0; 0; 0; 0].
Definition fisics_dim_area : FisicsDim8 := [2; 0; 0; 0; 0; 0; 0; 0].
Definition fisics_dim_second_moment_of_area : FisicsDim8 := [4; 0; 0; 0; 0; 0; 0; 0].
Definition fisics_dim_force : FisicsDim8 := [1; 1; -2; 0; 0; 0; 0; 0].
Definition fisics_dim_energy : FisicsDim8 := [2; 1; -2; 0; 0; 0; 0; 0].
Definition fisics_dim_power : FisicsDim8 := [2; 1; -3; 0; 0; 0; 0; 0].
Definition fisics_dim_pressure : FisicsDim8 := [-1; 1; -2; 0; 0; 0; 0; 0].
Definition fisics_dim_charge : FisicsDim8 := [0; 0; 1; 1; 0; 0; 0; 0].
Definition fisics_dim_voltage : FisicsDim8 := [2; 1; -3; -1; 0; 0; 0; 0].
Definition fisics_dim_resistance : FisicsDim8 := [2; 1; -3; -2; 0; 0; 0; 0].

(** ** Printing: ["m^2*kg/s^3"] *)

Definition base_names : list (list ascii) :=
  list_ascii_of_string <$> ["m"; "kg"; "s"; "A"; "K"; "mol"; "cd"; "X"]%string.

(** One base name with its exponent's magnitude. *)
Definition dim_factor (name : list ascii) (mag : Z) : list ascii :=
  name ++ (if mag =? 1 then [] else "^"%char :: decimal_digits 4 mag).

(** One pass over the exponents: [pass 0] writes the positive ones, [pass 1] the negative
    ones after a slash; factors of one pass are joined by [*]. *)
Fixpoint dim_pass (positive : bool) (first : bool) (names : list (list ascii)) (dim : FisicsDim8)
    : list ascii :=
  match names, dim with
  | name :: names', exp :: dim' =>
      if (if positive then exp <=? 0 else 0 <=? exp) then dim_pass positive first names' dim'
      else (if first then (if positive then [] else ["/"%char]) else ["*"%char]) ++
           dim_factor name (Z.abs exp) ++ dim_pass positive false names' dim'
  | _, _ => []
  end.

Definition fisics_dim_to_string (dim : FisicsDim8) : list ascii :=
  let num := dim_pass true true base_names dim in
  let den := dim_pass false true base_names dim in
  match num, den with
  | [], [] => ["1"%char]
  | [], _ :: _ => "1"%char :: den
  | _ :: _, _ => num ++ den
  end.

(** ** The checked operations form a partial abelian group. *)

Lemma checked_cast_Some (x y : Z) : checked_cast_i8 x = Some y <-> y = x /\ inS 8 x = true.
Proof. unfold checked_cast_i8. case_match; naive_solver. Qed.

Lemma mapM_checked (l k : list Z) :
  mapM checked_cast_i8 l = Some k <-> k = l /\ Forall (fun x => inS 8 x = true) l.
Proof.
  rewrite mapM_Some. split.
  - induction 1 as [|x y l k [-> Hx]%checked_cast_Some _ [-> IH]]; [by split|].
    split; [done|]. by constructor.
  - intros [-> H]. induction H; constructor; [|done]. by apply checked_cast_Some.
Qed.

Lemma fisics_dim_add_Some (a b c : FisicsDim8) :
  fisics_dim_add a b = Some c <->
  c = zip_with Z.add a b /\ Forall (fun x => inS 8 x = true) (zip_with Z.add a b).
Proof. apply mapM_checked. Qed.

Lemma fisics_dim_sub_Some (a b c : FisicsDim8) :
  fisics_dim_sub a b = Some c <->
  c = zip_with Z.sub a b /\ Forall (fun x => inS 8 x = true) (zip_with Z.sub a b).
Proof. apply mapM_checked. Qed.

Lemma zip_with_add_comm (a b : list Z) : zip_with Z.add a b = zip_with Z.add b a.
Proof.
  revert b. induction a as [|x a IH]; intros [|y b]; simpl; [done..|]. by rewrite Z.add_comm, IH.
Qed.

Lemma zip_with_add_sub (a b : list Z) :
  length a = length b -> zip_with Z.sub (zip_with Z.add a b) b = a.
Proof.
  revert b. induction a as [|x a IH]; intros [|y b]; simpl; intros; try done.
  f_equal; [lia|]. apply IH. lia.
Qed.

Lemma zip_with_sub_add (a b : list Z) :
  length a = length b -> zip_with Z.add (zip_with Z.sub a b) b = a.
Proof.
  revert b. induction a as [|x a IH]; intros [|y b]; simpl; intros; try done.
  f_equal; [lia|]. apply IH. lia.
Qed.

Lemma zip_with_add_assoc (a b c : list Z) :
  zip_with Z.add (zip_with Z.add a b) c = zip_with Z.add a (zip_with Z.add b c).
Proof.
  revert b c. induction a as [|x a IH]; intros [|y b] [|z c]; simpl; try done.
  f_equal; [lia|]. apply IH.
Qed.

Lemma zip_with_add_zero (a : list Z) (n : nat) :
  length a = n -> zip_with Z.add a (replicate n 0) = a.
Proof.
  intros <-. induction a as [|x a IH]; simpl; [done|]. by rewrite IH, Z.add_0_r.
Qed.

Lemma fisics_dim_add_ok (a b c : FisicsDim8) :
  dim_ok a -> dim_ok b -> fisics_dim_add a b = Some c -> dim_ok c.
Proof.
  intros [Ha _] [Hb _] [-> H]%fisics_dim_add_Some. split; [|done].
  rewrite length_zip_with, Ha, Hb. done.
Qed.

Lemma fisics_dim_sub_ok (a b c : FisicsDim8) :
  dim_ok a -> dim_ok b -> fisics_dim_sub a b = Some c -> dim_ok c.
Proof.
  intros [Ha _] [Hb _] [-> H]%fisics_dim_sub_Some. split; [|done].
  rewrite length_zip_with, Ha, Hb. done.
Qed.

Lemma fisics_dim_equal_spec (a b : FisicsDim8) :
  dim_ok a -> dim_ok b -> fisics_dim_equal a b = true <-> a = b.
Proof.
  intros [Ha _] [Hb _]. rewrite <- Hb in Ha. clear Hb. unfold fisics_dim_equal.
  revert b Ha. induction a as [|x a IH]; intros [|y b] Hl; try done. simpl in *.
  rewrite andb_true_iff, Z.eqb_eq, IH by lia. naive_solver.
Qed.

(** C12: multiplying and dividing units adds and subtracts exponents in a partial abelian
    group: addition is commutative and has the dimensionless vector as unit; a sum that
    exists is undone by subtraction and conversely; two ways of adding three vectors
    agree when both exist; no operation yields an exponent outside [int8_t]. *)
Theorem dim_arithmetic_laws (a b c : FisicsDim8) :
  dim_ok a -> dim_ok b -> dim_ok c ->
  fisics_dim_add a b = fisics_dim_add b a /\
  fisics_dim_add a fisics_dim_zero = Some a /\
  (forall s, fisics_dim_add a b = Some s <-> dim_ok s /\ fisics_dim_sub s b = Some a) /\
  (forall s t, (s' ← fisics_dim_add a b; fisics_dim_add s' c) = Some s ->
     (t' ← fisics_dim_add b c; fisics_dim_add a t') = Some t -> s = t).
Proof.
  intros Ha Hb Hc. pose proof Ha as [Hla Hra]. pose proof Hb as [Hlb Hrb]. split_and!.
  - unfold fisics_dim_add. by rewrite zip_with_add_comm.
  - apply fisics_dim_add_Some. unfold fisics_dim_zero.
    by rewrite zip_with_add_zero.
  - intros s. split.
    + intros H. split; [by apply (fisics_dim_add_ok a b)|].
      apply fisics_dim_add_Some in H as [-> _]. apply fisics_dim_sub_Some.
      rewrite zip_with_add_sub by congruence. done.
    + intros [[Hls Hrs] [-> _]%fisics_dim_sub_Some]. apply fisics_dim_add_Some.
      rewrite zip_with_sub_add by congruence. done.
  - intros s t. destruct (fisics_dim_add a b) as [ab|] eqn:Eab; [|done].
    destruct (fisics_dim_add b c) as [bc|] eqn:Ebc; [|done]. cbn [mbind option_bind].
    apply fisics_dim_add_Some in Eab as [-> _]. apply fisics_dim_add_Some in Ebc as [-> _].
    intros [-> _]%fisics_dim_add_Some [-> _]%fisics_dim_add_Some.
    apply zip_with_add_assoc.
Qed.

Lemma dim_arithmetic_laws_witness :
  fisics_dim_add fisics_dim_voltage fisics_dim_current = Some fisics_dim_power /\
  (forall s, fisics_dim_add fisics_dim_voltage fisics_dim_current = Some s <->
     dim_ok s /\ fisics_dim_sub s fisics_dim_current = Some fisics_dim_voltage).
Proof.
  split; [reflexivity|].
  apply (dim_arithmetic_laws fisics_dim_voltage fisics_dim_current fisics_dim_time);
    (split; [reflexivity|]; repeat constructor).
Defined.
