(* ===== verification/UnitsRegistry.v ===== *)
(** * The registry of concrete units (src/Extensions/Units/units_registry.c) and explicit
    conversion (units_conversion.c).

    A [double] is a [spec_float] at precision 53 and exponent bound 1024, the Standard
    Library's executable IEEE 754; a decimal literal is its correctly rounded quotient.
    The lazily filled static arrays are constants, and the strings of the table are not
    null.  Nested loops over families and units run over [table_units], the units in
    table order. *)
From Stdlib Require Import SpecFloat.
From S2P Require Import Prelude UnitsDim.

Abbreviation double := spec_float.

Definition double_of_Z (z : Z) : double := binary_normalize 53 1024 z 0 false.

(** The literal [m / 10^k], both below [2^53]. *)
Definition decimal (m k : Z) : double := SFdiv 53 1024 (double_of_Z m) (double_of_Z (10 ^ k)).

Definition double_zero : double := S754_zero false.
Definition double_one : double := double_of_Z 1.
Definition is_finite (f : double) : bool :=
  match f with S754_zero _ | S754_finite _ _ _ => true | _ => false end.

Record FisicsUnitDef := mkUnit {
  name : string;
  symbol : string;
  family : FisicsDimFamily;
  dim : FisicsDim8;
  scale_to_canonical : double;
  offset_to_canonical : double;
  aliases : list string
}.

Definition UNIT_DEF_INIT (unit_name unit_symbol : string) (unit_family : FisicsDimFamily)
    (e : FisicsDim8) (scale_value : double) (alias_array : list string) : FisicsUnitDef :=
  mkUnit unit_name unit_symbol unit_family e scale_value double_zero alias_array.

Record FisicsUnitFamilyDef := mkFamily {
  fam_family : FisicsDimFamily;
  fam_name : string;
  fam_units : list FisicsUnitDef
}.

Definition kLengthUnits : list FisicsUnitDef :=
  [UNIT_DEF_INIT "meter" "m" FISICS_DIM_FAMILY_LENGTH [1; 0; 0; 0; 0; 0; 0; 0] (decimal 1 0)
     ["meters"; "metre"; "metres"];
   UNIT_DEF_INIT "millimeter" "mm" FISICS_DIM_FAMILY_LENGTH [1; 0; 0; 0; 0; 0; 0; 0] (decimal 1 3)
     ["millimeters"; "millimetre"; "millimetres"];
   UNIT_DEF_INIT "centimeter" "cm" FISICS_DIM_FAMILY_LENGTH [1; 0; 0; 0; 0; 0; 0; 0] (decimal 1 2)
     ["centimeters"; "centimetre"; "centimetres"];
   UNIT_DEF_INIT "kilometer" "km" FISICS_DIM_FAMILY_LENGTH [1; 0; 0; 0; 0; 0; 0; 0] (decimal 1000 0)
     ["kilometers"; "kilometre"; "kilometres"];
   UNIT_DEF_INIT "foot" "ft" FISICS_DIM_FAMILY_LENGTH [1; 0; 0; 0; 0; 0; 0; 0] (decimal 3048 4)
     ["feet"; "feet"];
   UNIT_DEF_INIT "inch" "in" FISICS_DIM_FAMILY_LENGTH [1; 0; 0; 0; 0; 0; 0; 0] (decimal 254 4)
     ["inches"; "inches"];
   UNIT_DEF_INIT "yard" "yd" FISICS_DIM_FAMILY_LENGTH [1; 0; 0; 0; 0; 0; 0; 0] (decimal 9144 4)
     ["yards"; "yards"];
   UNIT_DEF_INIT "mile" "mi" FISICS_DIM_FAMILY_LENGTH [1; 0; 0; 0; 0; 0; 0; 0] (decimal 1609344 3)
     ["miles"; "miles"]]%string.

Definition kMassUnits : list FisicsUnitDef :=
  [UNIT_DEF_INIT "kilogram" "kg" FISICS_DIM_FAMILY_MASS [0; 1; 0; 0; 0; 0; 0; 0] (decimal 1 0)
     ["kilograms"; "kilograms"];
   UNIT_DEF_INIT "gram" "g" FISICS_DIM_FAMILY_MASS [0; 1; 0; 0; 0; 0; 0; 0] (decimal 1 3)
     ["grams"; "grams"];
   UNIT_DEF_INIT "milligram" "mg" FISICS_DIM_FAMILY_MASS [0; 1; 0; 0; 0; 0; 0; 0] (decimal 1 6)
     ["milligrams"; "milligrams"];
   UNIT_DEF_INIT "metric_ton" "t" FISICS_DIM_FAMILY_MASS [0; 1; 0; 0; 0; 0; 0; 0] (decimal 1000 0)
     ["metric_tons"; "tonne"; "tonnes"];
   UNIT_DEF_INIT "pound" "lb" FISICS_DIM_FAMILY_MASS [0; 1; 0; 0; 0; 0; 0; 0] (decimal 45359237 8)
     ["pounds"; "pounds"]]%string.

Definition kTimeUnits : list FisicsUnitDef :=
  [UNIT_DEF_INIT "second" "s" FISICS_DIM_FAMILY_TIME [0; 0; 1; 0; 0; 0; 0; 0] (decimal 1 0)
     ["seconds"; "seconds"];
   UNIT_DEF_INIT "millisecond" "ms" FISICS_DIM_FAMILY_TIME [0; 0; 1; 0; 0; 0; 0; 0] (decimal 1 3)
     ["milliseconds"; "milliseconds"];
   UNIT_DEF_INIT "minute" "min" FISICS_DIM_FAMILY_TIME [0; 0; 1; 0; 0; 0; 0; 0] (decimal 60 0)
     ["minutes"; "minutes"];
   UNIT_DEF_INIT "hour" "h" FISICS_DIM_FAMILY_TIME [0; 0; 1; 0; 0; 0; 0; 0] (decimal 3600 0)
     ["hours"; "hours"]]%string.

Definition kCurrentUnits : list FisicsUnitDef :=
  [UNIT_DEF_INIT "ampere" "A" FISICS_DIM_FAMILY_CURRENT [0; 0; 0; 1; 0; 0; 0; 0] (decimal 1 0)
     ["amp"; "amps"; "amperes"]]%string.

Definition kTemperatureUnits : list FisicsUnitDef :=
  [UNIT_DEF_INIT "kelvin" "K" FISICS_DIM_FAMILY_TEMPERATURE [0; 0; 0; 0; 1; 0; 0; 0] (decimal 1 0)
     ["kelvins"; "kelvins"]]%string.

Definition kAmountUnits : list FisicsUnitDef :=
  [UNIT_DEF_INIT "mole" "mol" FISICS_DIM_FAMILY_AMOUNT [0; 0; 0; 0; 0; 1; 0; 0] (decimal 1 0)
     ["moles"; "moles"]]%string.

Definition kLuminousUnits : list FisicsUnitDef :=
  [UNIT_DEF_INIT "candela" "cd" FISICS_DIM_FAMILY_LUMINOUS [0; 0; 0; 0; 0; 0; 1; 0] (decimal 1 0)
     ["candelas"; "candelas"]]%string.

Definition kVelocityUnits : list FisicsUnitDef :=
  [UNIT_DEF_INIT "meter_per_second" "m/s" FISICS_DIM_FAMILY_VELOCITY [1; 0; -1; 0; 0; 0; 0; 0] (decimal 1 0)
     ["meters_per_second"; "meters_per_second"];
   UNIT_DEF_INIT "foot_per_second" "ft/s" FISICS_DIM_FAMILY_VELOCITY [1; 0; -1; 0; 0; 0; 0; 0] (decimal 3048 4)
     ["feet_per_second"; "feet_per_second"]]%string.

Definition kAccelerationUnits : list FisicsUnitDef :=
  [UNIT_DEF_INIT "meter_per_second_squared" "m/s^2" FISICS_DIM_FAMILY_ACCELERATION [1; 0; -2; 0; 0; 0; 0; 0] (decimal 1 0)
     ["meters_per_second_squared"; "meters_per_second_squared"]]%string.

Definition kAreaUnits : list FisicsUnitDef :=
  [UNIT_DEF_INIT "square_meter" "m^2" FISICS_DIM_FAMILY_AREA [2; 0; 0; 0; 0; 0; 0; 0] (decimal 1 0)
     ["square_meters"; "square_metre"; "square_metres"];
   UNIT_DEF_INIT "square_millimeter" "mm^2" FISICS_DIM_FAMILY_AREA [2; 0; 0; 0; 0; 0; 0; 0] (decimal 1 6)
     ["square_millimeters"; "square_millimetre"; "square_millimetres"];
   UNIT_DEF_INIT "square_centimeter" "cm^2" FISICS_DIM_FAMILY_AREA [2; 0; 0; 0; 0; 0; 0; 0] (decimal 1 4)
     ["square_centimeters"; "square_centimetre"; "square_centimetres"]]%string.

Definition kSecondMomentOfAreaUnits : list FisicsUnitDef :=
  [UNIT_DEF_INIT "meter_to_fourth" "m^4" FISICS_DIM_FAMILY_SECOND_MOMENT_OF_AREA [4; 0; 0; 0; 0; 0; 0; 0] (decimal 1 0)
     ["meters_to_fourth"; "metre_to_fourth"; "metres_to_fourth"];
   UNIT_DEF_INIT "millimeter_to_fourth" "mm^4" FISICS_DIM_FAMILY_SECOND_MOMENT_OF_AREA [4; 0; 0; 0; 0; 0; 0; 0] (decimal 1 12)
     ["millimeters_to_fourth"; "millimetre_to_fourth"; "millimetres_to_fourth"];
   UNIT_DEF_INIT "centimeter_to_fourth" "cm^4" FISICS_DIM_FAMILY_SECOND_MOMENT_OF_AREA [4; 0; 0; 0; 0; 0; 0; 0] (decimal 1 8)
     ["centimeters_to_fourth"; "centimetre_to_fourth"; "centimetres_to_fourth"]]%string.

Definition kForceUnits : list FisicsUnitDef :=
  [UNIT_DEF_INIT "newton" "N" FISICS_DIM_FAMILY_FORCE [1; 1; -2; 0; 0; 0; 0; 0] (decimal 1 0)
     ["newtons"; "newtons"];
   UNIT_DEF_INIT "kilonewton" "kN" FISICS_DIM_FAMILY_FORCE [1; 1; -2; 0; 0; 0; 0; 0] (decimal 1000 0)
     ["kilonewtons"; "kilonewtons"];
   UNIT_DEF_INIT "pound_force" "lbf" FISICS_DIM_FAMILY_FORCE [1; 1; -2; 0; 0; 0; 0; 0] (decimal 44482216152605 13)
     ["pound_forces"; "pound_forces"]]%string.

Definition kEnergyUnits : list FisicsUnitDef :=
  [UNIT_DEF_INIT "joule" "J" FISICS_DIM_FAMILY_ENERGY [2; 1; -2; 0; 0; 0; 0; 0] (decimal 1 0)
     ["joules"; "joules"];
   UNIT_DEF_INIT "kilojoule" "kJ" FISICS_DIM_FAMILY_ENERGY [2; 1; -2; 0; 0; 0; 0; 0] (decimal 1000 0)
     ["kilojoules"; "kilojoules"];
   UNIT_DEF_INIT "watt_hour" "Wh" FISICS_DIM_FAMILY_ENERGY [2; 1; -2; 0; 0; 0; 0; 0] (decimal 3600 0)
     ["watt_hours"; "watt_hours"];
   UNIT_DEF_INIT "kilowatt_hour" "kWh" FISICS_DIM_FAMILY_ENERGY [2; 1; -2; 0; 0; 0; 0; 0] (decimal 3600000 0)
     ["kilowatt_hours"; "kilowatt_hours"]]%string.

Definition kPowerUnits : list FisicsUnitDef :=
  [UNIT_DEF_INIT "watt" "W" FISICS_DIM_FAMILY_POWER [2; 1; -3; 0; 0; 0; 0; 0] (decimal 1 0)
     ["watts"; "watts"];
   UNIT_DEF_INIT "milliwatt" "mW" FISICS_DIM_FAMILY_POWER [2; 1; -3; 0; 0; 0; 0; 0] (decimal 1 3)
     ["milliwatts"; "milliwatts"];
   UNIT_DEF_INIT "kilowatt" "kW" FISICS_DIM_FAMILY_POWER [2; 1; -3; 0; 0; 0; 0; 0] (decimal 1000 0)
     ["kilowatts"; "kilowatts"];
   UNIT_DEF_INIT "megawatt" "MW" FISICS_DIM_FAMILY_POWER [2; 1; -3; 0; 0; 0; 0; 0] (decimal 1000000 0)
     ["megawatts"; "megawatts"]]%string.

Definition kPressureUnits : list FisicsUnitDef :=
  [UNIT_DEF_INIT "pascal" "Pa" FISICS_DIM_FAMILY_PRESSURE [-1; 1; -2; 0; 0; 0; 0; 0] (decimal 1 0)
     ["pascals"; "pascals"];
   UNIT_DEF_INIT "kilopascal" "kPa" FISICS_DIM_FAMILY_PRESSURE [-1; 1; -2; 0; 0; 0; 0; 0] (decimal 1000 0)
     ["kilopascals"; "kilopascals"];
   UNIT_DEF_INIT "bar" "bar" FISICS_DIM_FAMILY_PRESSURE [-1; 1; -2; 0; 0; 0; 0; 0] (decimal 100000 0)
     ["bars"; "bars"];
   UNIT_DEF_INIT "psi" "psi" FISICS_DIM_FAMILY_PRESSURE [-1; 1; -2; 0; 0; 0; 0; 0] (decimal 6894757293168361 12)
     ["psis"; "psis"]]%string.

Definition kChargeUnits : list FisicsUnitDef :=
  [UNIT_DEF_INIT "coulomb" "C" FISICS_DIM_FAMILY_CHARGE [0; 0; 1; 1; 0; 0; 0; 0] (decimal 1 0)
     ["coulombs"; "coulombs"];
   UNIT_DEF_INIT "ampere_hour" "Ah" FISICS_DIM_FAMILY_CHARGE [0; 0; 1; 1; 0; 0; 0; 0] (decimal 3600 0)
     ["ampere_hours"; "ampere_hours"];
   UNIT_DEF_INIT "milliampere_hour" "mAh" FISICS_DIM_FAMILY_CHARGE [0; 0; 1; 1; 0; 0; 0; 0] (decimal 36 1)
     ["milliampere_hours"; "milliampere_hours"]]%string.

Definition kVoltageUnits : list FisicsUnitDef :=
  [UNIT_DEF_INIT "volt" "V" FISICS_DIM_FAMILY_VOLTAGE [2; 1; -3; -1; 0; 0; 0; 0] (decimal 1 0)
     ["volts"; "volts"];
   UNIT_DEF_INIT "millivolt" "mV" FISICS_DIM_FAMILY_VOLTAGE [2; 1; -3; -1; 0; 0; 0; 0] (decimal 1 3)
     ["millivolts"; "millivolts"];
   UNIT_DEF_INIT "kilovolt" "kV" FISICS_DIM_FAMILY_VOLTAGE [2; 1; -3; -1; 0; 0; 0; 0] (decimal 1000 0)
     ["kilovolts"; "kilovolts"]]%string.

Definition kResistanceUnits : list FisicsUnitDef :=
  [UNIT_DEF_INIT "ohm" "ohm" FISICS_DIM_FAMILY_RESISTANCE [2; 1; -3; -2; 0; 0; 0; 0] (decimal 1 0)
     ["ohms"; "ohms"];
   UNIT_DEF_INIT "milliohm" "mOhm" FISICS_DIM_FAMILY_RESISTANCE [2; 1; -3; -2; 0; 0; 0; 0] (decimal 1 3)
     ["milliohms"; "milliohms"];
   UNIT_DEF_INIT "kiloohm" "kOhm" FISICS_DIM_FAMILY_RESISTANCE [2; 1; -3; -2; 0; 0; 0; 0] (decimal 1000 0)
     ["kiloohms"; "kiloohms"];
   UNIT_DEF_INIT "megaohm" "MOhm" FISICS_DIM_FAMILY_RESISTANCE [2; 1; -3; -2; 0; 0; 0; 0] (decimal 1000000 0)
     ["megaohms"; "megaohms"]]%string.

Definition kUnitFamilies : list FisicsUnitFamilyDef :=
  [mkFamily FISICS_DIM_FAMILY_LENGTH "length" kLengthUnits;
   mkFamily FISICS_DIM_FAMILY_MASS "mass" kMassUnits;
   mkFamily FISICS_DIM_FAMILY_TIME "time" kTimeUnits;
   mkFamily FISICS_DIM_FAMILY_CURRENT "current" kCurrentUnits;
   mkFamily FISICS_DIM_FAMILY_TEMPERATURE "temperature" kTemperatureUnits;
   mkFamily FISICS_DIM_FAMILY_AMOUNT "amount" kAmountUnits;
   mkFamily FISICS_DIM_FAMILY_LUMINOUS "luminous" kLuminousUnits;
   mkFamily FISICS_DIM_FAMILY_VELOCITY "velocity" kVelocityUnits;
   mkFamily FISICS_DIM_FAMILY_ACCELERATION "acceleration" kAccelerationUnits;
   mkFamily FISICS_DIM_FAMILY_AREA "area" kAreaUnits;
   mkFamily FISICS_DIM_FAMILY_SECOND_MOMENT_OF_AREA "second_moment_of_area" kSecondMomentOfAreaUnits;
   mkFamily FISICS_DIM_FAMILY_FORCE "force" kForceUnits;
   mkFamily FISICS_DIM_FAMILY_ENERGY "energy" kEnergyUnits;
   mkFamily FISICS_DIM_FAMILY_POWER "power" kPowerUnits;
   mkFamily FISICS_DIM_FAMILY_PRESSURE "pressure" kPressureUnits;
   mkFamily FISICS_DIM_FAMILY_CHARGE "charge" kChargeUnits;
   mkFamily FISICS_DIM_FAMILY_VOLTAGE "voltage" kVoltageUnits;
   mkFamily FISICS_DIM_FAMILY_RESISTANCE "resistance" kResistanceUnits]%string.

(** ** Lookup *)

Definition table_units (families : list FisicsUnitFamilyDef) : list FisicsUnitDef :=
  families ≫= fam_units.

Definition spellings (u : FisicsUnitDef) : list string := name u :: symbol u :: aliases u.

Definition has_spelling (text : string) (u : FisicsUnitDef) : bool :=
  String.eqb (name u) text || String.eqb (symbol u) text ||
  existsb (fun a => String.eqb a text) (aliases u).

Definition lookup_in (families : list FisicsUnitFamilyDef) (text : string) : option FisicsUnitDef :=
  List.find (has_spelling text) (table_units families).

Definition fisics_unit_lookup (text : string) : option FisicsUnitDef := lookup_in kUnitFamilies text.

Definition fisics_unit_lookup_family (f : FisicsDimFamily) : option FisicsUnitFamilyDef :=
  List.find (fun fam => bool_decide (fam_family fam = f)) kUnitFamilies.

Definition fisics_unit_family_count : nat := length kUnitFamilies.
Definition fisics_unit_family_at (index : nat) : option FisicsUnitFamilyDef := kUnitFamilies !! index.

(** ** Validation *)

Definition family_expected_dim (f : FisicsDimFamily) : option FisicsDim8 :=
  match f with
  | FISICS_DIM_FAMILY_LENGTH => Some fisics_dim_length
  | FISICS_DIM_FAMILY_MASS => Some fisics_dim_mass
  | FISICS_DIM_FAMILY_TIME => Some fisics_dim_time
  | FISICS_DIM_FAMILY_CURRENT => Some fisics_dim_current
  | FISICS_DIM_FAMILY_TEMPERATURE => Some fisics_dim_temperature
  | FISICS_DIM_FAMILY_AMOUNT => Some fisics_dim_amount
  | FISICS_DIM_FAMILY_LUMINOUS => Some fisics_dim_luminous
  | FISICS_DIM_FAMILY_CUSTOM => Some fisics_dim_custom
  | FISICS_DIM_FAMILY_VELOCITY => Some fisics_dim_velocity
  | FISICS_DIM_FAMILY_ACCELERATION => Some fisics_dim_acceleration
  | FISICS_DIM_FAMILY_AREA => Some fisics_dim_area
  | FISICS_DIM_FAMILY_SECOND_MOMENT_OF_AREA => Some fisics_dim_second_moment_of_area
  | FISICS_DIM_FAMILY_FORCE => Some fisics_dim_force
  | FISICS_DIM_FAMILY_ENERGY => Some fisics_dim_energy
  | FISICS_DIM_FAMILY_POWER => Some fisics_dim_power
  | FISICS_DIM_FAMILY_PRESSURE => Some fisics_dim_pressure
  | FISICS_DIM_FAMILY_CHARGE => Some fisics_dim_charge
  | FISICS_DIM_FAMILY_VOLTAGE => Some fisics_dim_voltage
  | FISICS_DIM_FAMILY_RESISTANCE => Some fisics_dim_resistance
  | FISICS_DIM_FAMILY_DIMENSIONLESS => None
  end.

Record FisicsUnitRegistryAudit := mkAudit {
  family_count : nat;
  unit_count : nat;
  alias_count : nat;
  issue_count : nat
}.

(** [record_issue] when the condition holds. *)
Definition record_issue (b : bool) : nat := if b then 1 else 0.

Definition count_sum {A} (f : A -> nat) (l : list A) : nat := foldr (fun x n => (f x + n)%nat) 0%nat l.

Definition unit_has_canonical_base (u : FisicsUnitDef) : bool :=
  SFeqb (scale_to_canonical u) double_one && SFeqb (offset_to_canonical u) double_zero.

Definition validate_unit_tokens (u : FisicsUnitDef) : nat :=
  record_issue (String.eqb (name u) "") + record_issue (String.eqb (symbol u) "") +
  count_sum (fun a =>
    if String.eqb a "" then 1%nat
    else record_issue (String.eqb a (name u) || String.eqb a (symbol u))) (aliases u).

(** The collisions between two units. *)
Definition pair_collisions (u v : FisicsUnitDef) : nat :=
  record_issue (String.eqb (name u) (name v) || String.eqb (name u) (symbol v) ||
                String.eqb (symbol u) (name v) || String.eqb (symbol u) (symbol v)) +
  count_sum (fun a =>
    record_issue (String.eqb a (name v) || String.eqb a (symbol v)) +
    count_sum (fun b => record_issue (String.eqb a b)) (aliases v))%nat (aliases u) +
  count_sum (fun b => record_issue (String.eqb b (name u) || String.eqb b (symbol u))) (aliases v).

(** Every pair of units once, the earlier one first. *)
Fixpoint unit_collisions (units : list FisicsUnitDef) : nat :=
  match units with
  | [] => 0
  | u :: rest => count_sum (pair_collisions u) rest + unit_collisions rest
  end.

Definition validate_cross_collisions (families : list FisicsUnitFamilyDef) : nat :=
  unit_collisions (table_units families).

Definition validate_unit (fam : FisicsUnitFamilyDef) (u : FisicsUnitDef) : nat :=
  validate_unit_tokens u +
  record_issue (negb (bool_decide (family u = fam_family fam))) +
  record_issue (match family_expected_dim (fam_family fam) with
                | Some d => negb (fisics_dim_equal (dim u) d)
                | None => true
                end) +
  record_issue (negb (is_finite (scale_to_canonical u)) || SFleb (scale_to_canonical u) double_zero) +
  record_issue (negb (is_finite (offset_to_canonical u)) ||
                negb (SFeqb (offset_to_canonical u) double_zero)).

Definition validate_family (fam : FisicsUnitFamilyDef) : nat :=
  record_issue (String.eqb (fam_name fam) "" ||
                negb (String.eqb (fam_name fam) (fisics_dim_family_name (fam_family fam)))) +
  match fam_units fam with
  | [] => 1
  | _ :: _ =>
      count_sum (validate_unit fam) (fam_units fam) +
      record_issue (negb (Nat.eqb (length (filter (fun u => unit_has_canonical_base u = true) (fam_units fam))) 1))
  end.

Definition fisics_unit_registry_validate_table (families : list FisicsUnitFamilyDef)
    : bool * FisicsUnitRegistryAudit :=
  match families with
  | [] => (false, mkAudit 0 0 0 1)
  | _ :: _ =>
      let issues := (count_sum validate_family families + validate_cross_collisions families)%nat in
      (Nat.eqb issues 0,
       mkAudit (length families) (length (table_units families))
         (count_sum (fun u => length (aliases u)) (table_units families)) issues)
  end.

Definition fisics_unit_registry_validate : bool * FisicsUnitRegistryAudit :=
  fisics_unit_registry_validate_table kUnitFamilies.

(** ** Fingerprint: 64-bit FNV over the table's bytes, on a little-endian host *)

Definition fingerprint_bytes (hash : Z) (bytes : list Z) : Z :=
  foldl (fun h b => u64 (Z.lxor h b * 1099511628211)) hash bytes.

Definition string_bytes (s : string) : list Z :=
  (fun c => Z.of_N (N_of_ascii c)) <$> list_ascii_of_string s.

Definition fingerprint_text (hash : Z) (text : string) : Z :=
  fingerprint_bytes (fingerprint_bytes hash (string_bytes text)) [255].

Definition little_endian (n : nat) (z : Z) : list Z :=
  (fun i => Z.shiftr z (8 * Z.of_nat i) mod 256) <$> seq 0 n.

(** The 64 bits of a double ([NaN] as the default quiet one). *)
Definition double_bits (f : double) : Z :=
  let sign (s : bool) := if s then 2 ^ 63 else 0 in
  match f with
  | S754_zero s => sign s
  | S754_infinity s => sign s + 2047 * 2 ^ 52
  | S754_nan => 4095 * 2 ^ 51
  | S754_finite s m e =>
      if Z.pos m <? 2 ^ 52 then sign s + Z.pos m
      else sign s + (e + 1075) * 2 ^ 52 + (Z.pos m - 2 ^ 52)
  end.

Definition fingerprint_unit (hash : Z) (u : FisicsUnitDef) : Z :=
  let hash := fingerprint_text hash (name u) in
  let hash := fingerprint_text hash (symbol u) in
  let hash := fingerprint_bytes hash ((fun x => x mod 256) <$> dim u) in
  let hash := fingerprint_bytes hash (little_endian 8 (double_bits (scale_to_canonical u))) in
  let hash := fingerprint_bytes hash (little_endian 8 (double_bits (offset_to_canonical u))) in
  foldl fingerprint_text hash (aliases u).

Definition fingerprint_family (hash : Z) (fam : FisicsUnitFamilyDef) : Z :=
  let hash := fingerprint_bytes hash (little_endian 4 (family_code (fam_family fam))) in
  foldl fingerprint_unit (fingerprint_text hash (fam_name fam)) (fam_units fam).

Definition fisics_unit_registry_fingerprint : Z :=
  foldl fingerprint_family 1469598103934665603 kUnitFamilies.

(** ** Explicit conversion *)

Definition unit_has_nonzero_scale (u : FisicsUnitDef) : bool :=
  negb (SFeqb (scale_to_canonical u) double_zero).

Definition fisics_unit_family_supports_explicit_conversion (f : FisicsDimFamily) : bool :=
  match f with
  | FISICS_DIM_FAMILY_LENGTH | FISICS_DIM_FAMILY_MASS | FISICS_DIM_FAMILY_TIME
  | FISICS_DIM_FAMILY_CURRENT | FISICS_DIM_FAMILY_AMOUNT | FISICS_DIM_FAMILY_LUMINOUS
  | FISICS_DIM_FAMILY_VELOCITY | FISICS_DIM_FAMILY_ACCELERATION | FISICS_DIM_FAMILY_FORCE
  | FISICS_DIM_FAMILY_ENERGY | FISICS_DIM_FAMILY_POWER | FISICS_DIM_FAMILY_PRESSURE
  | FISICS_DIM_FAMILY_CHARGE | FISICS_DIM_FAMILY_VOLTAGE | FISICS_DIM_FAMILY_RESISTANCE => true
  | _ => false
  end.

(** [None] is a null pointer; the result is the detail of a refusal. *)
Definition fisics_unit_can_convert (source target : option FisicsUnitDef) : string + unit :=
  match source, target with
  | Some source, Some target =>
      if negb (bool_decide (family source = family target))
      then inl "explicit conversion requires source and target units from the same family"%string
      else if negb (fisics_dim_equal (dim source) (dim target))
      then inl "explicit conversion requires source and target units with identical dimensions"%string
      else if negb (fisics_unit_family_supports_explicit_conversion (family source))
      then inl "explicit conversion is currently enabled only for multiplicative unit families"%string
      else if negb (unit_has_nonzero_scale source) || negb (unit_has_nonzero_scale target)
      then inl "explicit conversion requires nonzero canonical scales for both units"%string
      else inr tt
  | _, _ => inl "explicit conversion requires resolved source and target concrete units"%string
  end.

Definition fisics_unit_to_canonical (sourceValue : double) (u : FisicsUnitDef) : option double :=
  if negb (unit_has_nonzero_scale u) then None
  else Some (SFadd 53 1024 (SFmul 53 1024 sourceValue (scale_to_canonical u)) (offset_to_canonical u)).

Definition fisics_unit_from_canonical (canonicalValue : double) (u : FisicsUnitDef) : option double :=
  if negb (unit_has_nonzero_scale u) then None
  else Some (SFdiv 53 1024 (SFsub 53 1024 canonicalValue (offset_to_canonical u)) (scale_to_canonical u)).

Definition fisics_unit_convert_explicit (sourceValue : double) (source target : option FisicsUnitDef)
    : string + double :=
  match fisics_unit_can_convert source target with
  | inl detail => inl detail
  | inr _ =>
      match source, target with
      | Some source, Some target =>
          match fisics_unit_to_canonical sourceValue source with
          | None => inl "failed to convert source value to canonical family space"%string
          | Some canonical =>
              match fisics_unit_from_canonical canonical target with
              | None => inl "failed to convert canonical family value to target unit"%string
              | Some out => inr out
              end
          end
      | _, _ => inl "explicit conversion requires resolved source and target concrete units"%string
      end
  end.

Example registry_audit :
  fisics_unit_registry_validate = (true, mkAudit 18 55 122 0).
Proof. by vm_compute. Qed.

(** ** What validation guarantees *)

Lemma record_issue_zero (b : bool) : record_issue b = 0%nat <-> b = false.
Proof. by destruct b. Qed.

Lemma count_sum_zero {A} (f : A -> nat) (l : list A) :
  count_sum f l = 0%nat <-> Forall (fun x => f x = 0%nat) l.
Proof.
  induction l as [|x l IH]; simpl; [by split|].
  rewrite Forall_cons, <- IH. lia.
Qed.

Lemma has_spelling_spec (text : string) (u : FisicsUnitDef) :
  has_spelling text u = true <-> text ∈ spellings u.
Proof.
  unfold has_spelling, spellings. rewrite !orb_true_iff, !String.eqb_eq, existsb_exists.
  rewrite !elem_of_cons. setoid_rewrite String.eqb_eq.
  setoid_rewrite <- list_elem_of_In. naive_solver.
Qed.

(** Two units without collisions share no spelling. *)
Lemma pair_collisions_disjoint (u v : FisicsUnitDef) (text : string) :
  pair_collisions u v = 0%nat -> text ∈ spellings u -> text ∈ spellings v -> False.
Proof.
  unfold pair_collisions. intros [[H1 H2]%Nat.eq_add_0 H3]%Nat.eq_add_0.
  apply record_issue_zero in H1. rewrite !orb_false_iff, !String.eqb_neq in H1.
  apply count_sum_zero in H2, H3. rewrite Forall_forall in H2, H3.
  unfold spellings. rewrite !elem_of_cons.
  assert (forall a, a ∈ aliases u ->
            a <> name v /\ a <> symbol v /\ a ∉ aliases v) as Hu.
  { intros a Ha.
    specialize (H2 a Ha). apply Nat.eq_add_0 in H2 as [H4 H5].
    apply record_issue_zero in H4. rewrite orb_false_iff, !String.eqb_neq in H4.
    apply count_sum_zero in H5. rewrite Forall_forall in H5.
    split_and!; [naive_solver..|]. intros Hin. specialize (H5 a Hin).
    apply record_issue_zero in H5. by rewrite String.eqb_refl in H5. }
  assert (forall b, b ∈ aliases v -> b <> name u /\ b <> symbol u) as Hv.
  { intros b Hb. specialize (H3 b Hb). apply record_issue_zero in H3.
    rewrite orb_false_iff, !String.eqb_neq in H3. naive_solver. }
  intros [->|[->|Ha]] [E|[E|Hb]]; try (destruct (Hu _ Ha) as (? & ? & ?)); try (destruct (Hv _ Hb));
    naive_solver.
Qed.

Lemma find_unique_spelling (units : list FisicsUnitDef) (u : FisicsUnitDef) (text : string) :
  unit_collisions units = 0%nat -> u ∈ units -> text ∈ spellings u ->
  List.find (has_spelling text) units = Some u.
Proof.
  induction units as [|v rest IH]; intros Hc Hu Ht; [by apply not_elem_of_nil in Hu|].
  simpl in Hc. apply Nat.eq_add_0 in Hc as [Hv Hrest]. simpl.
  apply elem_of_cons in Hu as [<-|Hu].
  - by rewrite (proj2 (has_spelling_spec text u) Ht).
  - destruct (has_spelling text v) eqn:E; [|by apply IH].
    apply has_spelling_spec in E. exfalso. apply count_sum_zero in Hv.
    rewrite Forall_forall in Hv. by apply (pair_collisions_disjoint v u text (Hv u Hu)).
Qed.

Lemma validate_table_zero (families : list FisicsUnitFamilyDef) (audit : FisicsUnitRegistryAudit) :
  fisics_unit_registry_validate_table families = (true, audit) ->
  Forall (fun fam => validate_family fam = 0%nat) families /\
  unit_collisions (table_units families) = 0%nat.
Proof.
  unfold fisics_unit_registry_validate_table. destruct families as [|f fs]; [done|].
  remember (f :: fs) as families. intros [= H _]. apply Nat.eqb_eq, Nat.eq_add_0 in H as [H1 H2].
  split; [by apply count_sum_zero|done].
Qed.

Lemma validated_unit (families : list FisicsUnitFamilyDef) (audit : FisicsUnitRegistryAudit)
    (u : FisicsUnitDef) :
  fisics_unit_registry_validate_table families = (true, audit) -> u ∈ table_units families ->
  exists d, family_expected_dim (family u) = Some d /\ fisics_dim_equal (dim u) d = true /\
    unit_has_nonzero_scale u = true.
Proof.
  intros [H _]%validate_table_zero Hu. unfold table_units in Hu.
  apply list_elem_of_bind in Hu as (fam & Hu & Hfam).
  rewrite Forall_forall in H. specialize (H fam Hfam). unfold validate_family in H.
  apply Nat.eq_add_0 in H as [_ H].
  destruct (fam_units fam) as [|u0 us] eqn:Eus; [by apply not_elem_of_nil in Hu|].
  apply Nat.eq_add_0 in H as [H _]. apply count_sum_zero in H.
  rewrite Forall_forall in H. specialize (H u Hu). unfold validate_unit in H.
  repeat (apply Nat.eq_add_0 in H as [H ?]).
  rewrite record_issue_zero in *.
  assert (family u = fam_family fam) as ->.
  { destruct (decide (family u = fam_family fam)) as [E|E]; [done|].
    rewrite bool_decide_eq_false_2 in * by done. done. }
  destruct (family_expected_dim (fam_family fam)) as [d|]; [|done].
  exists d. split_and!; [done|by apply negb_false_iff|].
  unfold unit_has_nonzero_scale. apply negb_true_iff.
  destruct (scale_to_canonical u) as [[]|[]| |[]]; simpl in *; try done.
Qed.

Lemma fisics_dim_equal_trans_eq (a b c : FisicsDim8) :
  dim_ok a -> dim_ok b -> dim_ok c -> fisics_dim_equal a c = true -> fisics_dim_equal b c = true ->
  fisics_dim_equal a b = true.
Proof. intros Ha Hb Hc. rewrite !fisics_dim_equal_spec by done. congruence. Qed.

Lemma family_expected_dim_ok (f : FisicsDimFamily) (d : FisicsDim8) :
  family_expected_dim f = Some d -> dim_ok d.
Proof. destruct f; intros [= <-]; (split; [reflexivity|by repeat constructor]). Qed.

Lemma fisics_dim_equal_refl (d : FisicsDim8) : fisics_dim_equal d d = true.
Proof. unfold fisics_dim_equal. induction d as [|x d IH]; simpl; [done|]. by rewrite Z.eqb_refl. Qed.

Lemma can_convert_cases (u v : FisicsUnitDef) :
  fisics_unit_can_convert (Some u) (Some v) = inr tt <->
  family u = family v /\ fisics_dim_equal (dim u) (dim v) = true /\
  fisics_unit_family_supports_explicit_conversion (family u) = true /\
  unit_has_nonzero_scale u = true /\ unit_has_nonzero_scale v = true.
Proof.
  unfold fisics_unit_can_convert. destruct (decide (family u = family v)) as [E|E].
  - rewrite bool_decide_eq_true_2 by done. simpl. destruct (fisics_dim_equal _ _), (_ (family u)),
      (unit_has_nonzero_scale u), (unit_has_nonzero_scale v); simpl; naive_solver.
  - rewrite bool_decide_eq_false_2 by done. naive_solver.
Qed.

(** C13: in a table that passes validation every spelling (name, symbol or alias) belongs to
    one unit: lookup finds exactly the unit that declares the spelling. *)
Theorem validated_lookup_unambiguous (families : list FisicsUnitFamilyDef)
    (audit : FisicsUnitRegistryAudit) (u : FisicsUnitDef) (text : string) :
  fisics_unit_registry_validate_table families = (true, audit) ->
  lookup_in families text = Some u <-> u ∈ table_units families /\ text ∈ spellings u.
Proof.
  intros [_ Hc]%validate_table_zero. unfold lookup_in. split.
  - intros [Hin Ht]%find_some. split; [by apply list_elem_of_In|by apply has_spelling_spec].
  - intros [Hu Ht]. by apply find_unique_spelling.
Qed.

Lemma validated_lookup_unambiguous_witness :
  exists u, fisics_unit_lookup "tonnes" = Some u /\ name u = "metric_ton"%string.
Proof.
  pose (u := UNIT_DEF_INIT "metric_ton" "t" FISICS_DIM_FAMILY_MASS [0; 1; 0; 0; 0; 0; 0; 0]
               (decimal 1000 0) ["metric_tons"; "tonne"; "tonnes"]%string).
  exists u. split; [|reflexivity].
  apply (validated_lookup_unambiguous kUnitFamilies (mkAudit 18 55 122 0) u "tonnes").
  - by vm_compute.
  - split; [|by do 4 right; left].
    unfold table_units. apply list_elem_of_bind. exists (mkFamily FISICS_DIM_FAMILY_MASS "mass" kMassUnits).
    split; [by do 3 right; left|by right; left].
Defined.

(** C14: between units of a validated table explicit conversion succeeds exactly when they
    are of one family that supports it, and then computes
    [((x * scale_u + offset_u) - offset_v) / scale_v] in double arithmetic; the later
    failures of [fisics_unit_convert_explicit] never happen. *)
Theorem validated_conversion (families : list FisicsUnitFamilyDef) (audit : FisicsUnitRegistryAudit)
    (u v : FisicsUnitDef) (x : double) :
  fisics_unit_registry_validate_table families = (true, audit) ->
  Forall (fun w => dim_ok (dim w)) (table_units families) ->
  u ∈ table_units families -> v ∈ table_units families ->
  if bool_decide (family u = family v) && fisics_unit_family_supports_explicit_conversion (family u)
  then fisics_unit_convert_explicit x (Some u) (Some v) =
       inr (SFdiv 53 1024
              (SFsub 53 1024
                 (SFadd 53 1024 (SFmul 53 1024 x (scale_to_canonical u)) (offset_to_canonical u))
                 (offset_to_canonical v)) (scale_to_canonical v))
  else exists detail, fisics_unit_convert_explicit x (Some u) (Some v) = inl detail.
Proof.
  intros Hval Hdims Hu Hv. rewrite Forall_forall in Hdims.
  destruct (validated_unit _ _ _ Hval Hu) as (du & Hdu & Heu & Hsu).
  destruct (validated_unit _ _ _ Hval Hv) as (dv & Hdv & Hev & Hsv).
  unfold fisics_unit_convert_explicit.
  destruct (bool_decide (family u = family v) && _) eqn:E.
  - apply andb_true_iff in E as [Hf%bool_decide_eq_true_1 Hsup].
    rewrite <- Hf, Hdu in Hdv. simplify_eq.
    rewrite (proj2 (can_convert_cases u v)).
    + unfold fisics_unit_to_canonical, fisics_unit_from_canonical. by rewrite Hsu, Hsv.
    + split_and!; [done| |done..].
      eapply fisics_dim_equal_trans_eq; [by apply Hdims..| |exact Heu|exact Hev].
      by eapply family_expected_dim_ok.
  - destruct (fisics_unit_can_convert (Some u) (Some v)) as [d|[]] eqn:Ec; [by eexists|].
    apply can_convert_cases in Ec as (Hf & _ & Hsup & _).
    rewrite bool_decide_eq_true_2, Hsup in E by done. done.
Qed.

Definition kilometer_unit : FisicsUnitDef := nth 3 kLengthUnits (UNIT_DEF_INIT "" "" FISICS_DIM_FAMILY_LENGTH [] double_zero []).
Definition foot_unit : FisicsUnitDef := nth 4 kLengthUnits (UNIT_DEF_INIT "" "" FISICS_DIM_FAMILY_LENGTH [] double_zero []).

Lemma validated_conversion_witness :
  exists y, fisics_unit_convert_explicit (double_of_Z 3) (Some kilometer_unit) (Some foot_unit) = inr y.
Proof.
  eexists.
  apply (validated_conversion kUnitFamilies (mkAudit 18 55 122 0) kilometer_unit foot_unit).
  - by vm_compute.
  - unfold table_units. cbn. repeat (constructor; [split; [reflexivity|by repeat constructor]|]).
    constructor.
  - apply list_elem_of_bind. exists (mkFamily FISICS_DIM_FAMILY_LENGTH "length" kLengthUnits).
    split; [by do 3 right; left|by left].
  - apply list_elem_of_bind. exists (mkFamily FISICS_DIM_FAMILY_LENGTH "length" kLengthUnits).
    split; [by do 4 right; left|by left].
Defined.

(** Area units differ only by a scale, yet conversion between them is refused. *)
Example area_units_do_not_convert :
  fisics_unit_convert_explicit double_one (fisics_unit_lookup "m^2") (fisics_unit_lookup "cm^2")
  = inl "explicit conversion is currently enabled only for multiplicative unit families"%string.
Proof. by vm_compute. Qed.
