(* ===== verification/UnitsParser.v ===== *)
(** * Dimension expressions (src/Extensions/Units/units_parser.c, and the atom table of
    units_model.c).

    A cursor into the text is the text that remains; the end of the list is the
    terminating NUL.  The character classes are those of [CType]. *)
From S2P Require Import Prelude CType Tokens AST UnitsDim UnitsRegistry.

Inductive FisicsDimAtomKind : Set :=
  | FISICS_DIM_ATOM_UNKNOWN | FISICS_DIM_ATOM_DIMENSION | FISICS_DIM_ATOM_DEFERRED_UNIT.

Record DimAtomEntry := mkAtom {
  atom_name : string;
  atom_kind : FisicsDimAtomKind;
  atom_family : FisicsDimFamily;
  atom_dim : FisicsDim8
}.

Definition kDimAtoms : list DimAtomEntry :=
  [mkAtom "1" FISICS_DIM_ATOM_DIMENSION FISICS_DIM_FAMILY_DIMENSIONLESS [0; 0; 0; 0; 0; 0; 0; 0];
   mkAtom "dimensionless" FISICS_DIM_ATOM_DIMENSION FISICS_DIM_FAMILY_DIMENSIONLESS [0; 0; 0; 0; 0; 0; 0; 0];
   mkAtom "scalar" FISICS_DIM_ATOM_DIMENSION FISICS_DIM_FAMILY_DIMENSIONLESS [0; 0; 0; 0; 0; 0; 0; 0];
   mkAtom "m" FISICS_DIM_ATOM_DIMENSION FISICS_DIM_FAMILY_LENGTH [1; 0; 0; 0; 0; 0; 0; 0];
   mkAtom "length" FISICS_DIM_ATOM_DIMENSION FISICS_DIM_FAMILY_LENGTH [1; 0; 0; 0; 0; 0; 0; 0];
   mkAtom "distance" FISICS_DIM_ATOM_DIMENSION FISICS_DIM_FAMILY_LENGTH [1; 0; 0; 0; 0; 0; 0; 0];
   mkAtom "displacement" FISICS_DIM_ATOM_DIMENSION FISICS_DIM_FAMILY_LENGTH [1; 0; 0; 0; 0; 0; 0; 0];
   mkAtom "kg" FISICS_DIM_ATOM_DIMENSION FISICS_DIM_FAMILY_MASS [0; 1; 0; 0; 0; 0; 0; 0];
   mkAtom "mass" FISICS_DIM_ATOM_DIMENSION FISICS_DIM_FAMILY_MASS [0; 1; 0; 0; 0; 0; 0; 0];
   mkAtom "s" FISICS_DIM_ATOM_DIMENSION FISICS_DIM_FAMILY_TIME [0; 0; 1; 0; 0; 0; 0; 0];
   mkAtom "time" FISICS_DIM_ATOM_DIMENSION FISICS_DIM_FAMILY_TIME [0; 0; 1; 0; 0; 0; 0; 0];
   mkAtom "duration" FISICS_DIM_ATOM_DIMENSION FISICS_DIM_FAMILY_TIME [0; 0; 1; 0; 0; 0; 0; 0];
   mkAtom "A" FISICS_DIM_ATOM_DIMENSION FISICS_DIM_FAMILY_CURRENT [0; 0; 0; 1; 0; 0; 0; 0];
   mkAtom "current" FISICS_DIM_ATOM_DIMENSION FISICS_DIM_FAMILY_CURRENT [0; 0; 0; 1; 0; 0; 0; 0];
   mkAtom "electric_current" FISICS_DIM_ATOM_DIMENSION FISICS_DIM_FAMILY_CURRENT [0; 0; 0; 1; 0; 0; 0; 0];
   mkAtom "K" FISICS_DIM_ATOM_DIMENSION FISICS_DIM_FAMILY_TEMPERATURE [0; 0; 0; 0; 1; 0; 0; 0];
   mkAtom "temperature" FISICS_DIM_ATOM_DIMENSION FISICS_DIM_FAMILY_TEMPERATURE [0; 0; 0; 0; 1; 0; 0; 0];
   mkAtom "mol" FISICS_DIM_ATOM_DIMENSION FISICS_DIM_FAMILY_AMOUNT [0; 0; 0; 0; 0; 1; 0; 0];
   mkAtom "amount" FISICS_DIM_ATOM_DIMENSION FISICS_DIM_FAMILY_AMOUNT [0; 0; 0; 0; 0; 1; 0; 0];
   mkAtom "amount_of_substance" FISICS_DIM_ATOM_DIMENSION FISICS_DIM_FAMILY_AMOUNT [0; 0; 0; 0; 0; 1; 0; 0];
   mkAtom "cd" FISICS_DIM_ATOM_DIMENSION FISICS_DIM_FAMILY_LUMINOUS [0; 0; 0; 0; 0; 0; 1; 0];
   mkAtom "luminous" FISICS_DIM_ATOM_DIMENSION FISICS_DIM_FAMILY_LUMINOUS [0; 0; 0; 0; 0; 0; 1; 0];
   mkAtom "luminous_intensity" FISICS_DIM_ATOM_DIMENSION FISICS_DIM_FAMILY_LUMINOUS [0; 0; 0; 0; 0; 0; 1; 0];
   mkAtom "X" FISICS_DIM_ATOM_DIMENSION FISICS_DIM_FAMILY_CUSTOM [0; 0; 0; 0; 0; 0; 0; 1];
   mkAtom "custom" FISICS_DIM_ATOM_DIMENSION FISICS_DIM_FAMILY_CUSTOM [0; 0; 0; 0; 0; 0; 0; 1];
   mkAtom "custom_dimension" FISICS_DIM_ATOM_DIMENSION FISICS_DIM_FAMILY_CUSTOM [0; 0; 0; 0; 0; 0; 0; 1];
   mkAtom "velocity" FISICS_DIM_ATOM_DIMENSION FISICS_DIM_FAMILY_VELOCITY [1; 0; -1; 0; 0; 0; 0; 0];
   mkAtom "speed" FISICS_DIM_ATOM_DIMENSION FISICS_DIM_FAMILY_VELOCITY [1; 0; -1; 0; 0; 0; 0; 0];
   mkAtom "acceleration" FISICS_DIM_ATOM_DIMENSION FISICS_DIM_FAMILY_ACCELERATION [1; 0; -2; 0; 0; 0; 0; 0];
   mkAtom "area" FISICS_DIM_ATOM_DIMENSION FISICS_DIM_FAMILY_AREA [2; 0; 0; 0; 0; 0; 0; 0];
   mkAtom "cross_sectional_area" FISICS_DIM_ATOM_DIMENSION FISICS_DIM_FAMILY_AREA [2; 0; 0; 0; 0; 0; 0; 0];
   mkAtom "section_area" FISICS_DIM_ATOM_DIMENSION FISICS_DIM_FAMILY_AREA [2; 0; 0; 0; 0; 0; 0; 0];
   mkAtom "second_moment_of_area" FISICS_DIM_ATOM_DIMENSION FISICS_DIM_FAMILY_SECOND_MOMENT_OF_AREA [4; 0; 0; 0; 0; 0; 0; 0];
   mkAtom "area_moment_of_inertia" FISICS_DIM_ATOM_DIMENSION FISICS_DIM_FAMILY_SECOND_MOMENT_OF_AREA [4; 0; 0; 0; 0; 0; 0; 0];
   mkAtom "second_area_moment" FISICS_DIM_ATOM_DIMENSION FISICS_DIM_FAMILY_SECOND_MOMENT_OF_AREA [4; 0; 0; 0; 0; 0; 0; 0];
   mkAtom "force" FISICS_DIM_ATOM_DIMENSION FISICS_DIM_FAMILY_FORCE [1; 1; -2; 0; 0; 0; 0; 0];
   mkAtom "energy" FISICS_DIM_ATOM_DIMENSION FISICS_DIM_FAMILY_ENERGY [2; 1; -2; 0; 0; 0; 0; 0];
   mkAtom "work" FISICS_DIM_ATOM_DIMENSION FISICS_DIM_FAMILY_ENERGY [2; 1; -2; 0; 0; 0; 0; 0];
   mkAtom "kinetic_energy" FISICS_DIM_ATOM_DIMENSION FISICS_DIM_FAMILY_ENERGY [2; 1; -2; 0; 0; 0; 0; 0];
   mkAtom "potential_energy" FISICS_DIM_ATOM_DIMENSION FISICS_DIM_FAMILY_ENERGY [2; 1; -2; 0; 0; 0; 0; 0];
   mkAtom "power" FISICS_DIM_ATOM_DIMENSION FISICS_DIM_FAMILY_POWER [2; 1; -3; 0; 0; 0; 0; 0];
   mkAtom "pressure" FISICS_DIM_ATOM_DIMENSION FISICS_DIM_FAMILY_PRESSURE [-1; 1; -2; 0; 0; 0; 0; 0];
   mkAtom "charge" FISICS_DIM_ATOM_DIMENSION FISICS_DIM_FAMILY_CHARGE [0; 0; 1; 1; 0; 0; 0; 0];
   mkAtom "voltage" FISICS_DIM_ATOM_DIMENSION FISICS_DIM_FAMILY_VOLTAGE [2; 1; -3; -1; 0; 0; 0; 0];
   mkAtom "electric_potential" FISICS_DIM_ATOM_DIMENSION FISICS_DIM_FAMILY_VOLTAGE [2; 1; -3; -1; 0; 0; 0; 0];
   mkAtom "resistance" FISICS_DIM_ATOM_DIMENSION FISICS_DIM_FAMILY_RESISTANCE [2; 1; -3; -2; 0; 0; 0; 0]]%string.

Record FisicsDimAtomInfo := mkAtomInfo {
  ai_kind : FisicsDimAtomKind;
  ai_family : FisicsDimFamily;
  ai_family_name : string;
  ai_dim : FisicsDim8
}.

Definition fisics_dim_lookup_atom (text : string) : option FisicsDimAtomInfo :=
  match List.find (fun a => String.eqb (atom_name a) text) kDimAtoms with
  | Some a => Some (mkAtomInfo (atom_kind a) (atom_family a) (family_name (atom_family a)) (atom_dim a))
  | None =>
      match fisics_unit_lookup text with
      | Some u => Some (mkAtomInfo FISICS_DIM_ATOM_DEFERRED_UNIT (family u) (family_name (family u))
                          fisics_dim_zero)
      | None => None
      end
  end.

Definition is_ws (c : ascii) : bool :=
  (chr c =? 32) || (chr c =? 9) || (chr c =? 10) || (chr c =? 13).
Definition is_ident_char (c : ascii) : bool := is_alnum c || (chr c =? 95) || (chr c =? 45).

Definition skip_ws (cur : list ascii) : list ascii := (span is_ws cur).2.

(** [value = value * 10 + digit] in [int], undefined when it overflows. *)
Fixpoint int_digits (ds : list ascii) (value : Z) : Outcome Z :=
  match ds with
  | [] => Returned value
  | c :: rest =>
      let v := value * 10 + (chr c - 48) in
      if inS 32 (value * 10) && inS 32 v then int_digits rest v else Undefined
  end.

Definition parse_int (cur : list ascii) (detail : string) : Outcome (Z * list ascii) :=
  let cur := skip_ws cur in
  let '(sign, cur) := match cur with
                      | c :: rest => if chr c =? 43 then (1, rest)
                                     else if chr c =? 45 then (-1, rest) else (1, cur)
                      | [] => (1, [])
                      end in
  let '(ds, rest) := span is_digit cur in
  match ds with
  | [] => Failed detail
  | _ :: _ => let! value := int_digits ds 0 in Returned (value * sign, rest)
  end.

(** [c] is next: the cursor behind it. *)
Definition next_is (c : Z) (cur : list ascii) : option (list ascii) :=
  match cur with
  | x :: rest => if chr x =? c then Some rest else None
  | [] => None
  end.

Definition parse_atom (cur : list ascii) : Outcome (FisicsDim8 * list ascii) :=
  let cur := skip_ws cur in
  let '(ident, cur) := span is_ident_char cur in
  match ident with
  | [] => Failed "expected a dimension name"
  | _ :: _ =>
      let text := string_of_list_ascii ident in
      match fisics_dim_lookup_atom text with
      | None => Failed (append "unknown dimension atom '" (append text "'"))
      | Some info =>
          match ai_kind info with
          | FISICS_DIM_ATOM_UNKNOWN => Failed (append "unknown dimension atom '" (append text "'"))
          | FISICS_DIM_ATOM_DEFERRED_UNIT =>
              Failed (append "concrete unit word '" (append text (append
                "' belongs in [[fisics::unit(...)]] rather than fisics::dim(...) ("
                (append (ai_family_name info) " family)"))))
          | FISICS_DIM_ATOM_DIMENSION =>
              let base := ai_dim info in
              let cur := skip_ws cur in
              match next_is 94 cur with
              | None => Returned (base, cur)
              | Some cur =>
                  let! (power, cur) := parse_int cur "expected integer exponent after '^'" in
                  let! base := fisics_dim_scale base power "dimension exponent overflow" in
                  Returned (base, cur)
              end
          end
      end
  end.

Definition combine (pendingOp : bool) (accum atom : FisicsDim8) : Outcome FisicsDim8 :=
  if pendingOp
  then match fisics_dim_add accum atom with
       | Some d => Returned d | None => Failed "dimension addition overflow"
       end
  else match fisics_dim_sub accum atom with
       | Some d => Returned d | None => Failed "dimension subtraction overflow"
       end.

(** The loop: [accum] is [None] before the first atom, [pendingOp] is [true] for [*].  An
    iteration reads at least one character, so the text's length is enough fuel. *)
Fixpoint parse_dim_loop (fuel : nat) (cur : list ascii) (accum : option FisicsDim8) (pendingOp : bool)
    : Outcome FisicsDim8 :=
  match cur with
  | [] => Returned (default fisics_dim_zero accum)
  | _ :: _ =>
      match fuel with
      | O => Undefined
      | S fuel' =>
          let! (atom, cur) := parse_atom cur in
          let! accum := match accum with
                        | None => Returned atom
                        | Some accum => combine pendingOp accum atom
                        end in
          match skip_ws cur with
          | [] => Returned accum
          | c :: rest =>
              if chr c =? 42 then parse_dim_loop fuel' (skip_ws rest) (Some accum) true
              else if chr c =? 47 then parse_dim_loop fuel' (skip_ws rest) (Some accum) false
              else Failed "expected '*' or '/' between dimension atoms"
          end
      end
  end.

Definition fisics_units_parse_dim_expr (text : list ascii) : Outcome FisicsDim8 :=
  match skip_ws text with
  | [] => Returned fisics_dim_zero
  | cur => parse_dim_loop (length cur) cur None true
  end.

(** ** Attribute payloads *)

(** The text between the prefix and the final parenthesis. *)
Definition extract_cxx_attr_payload (attr : ASTAttribute) (prefix : string) : option (list ascii) :=
  match attr_syntax attr, attr_payload attr with
  | AST_ATTRIBUTE_SYNTAX_CXX, Some payload =>
      if negb (String.prefix prefix payload) then None
      else
        let prefixLen := String.length prefix in
        let payloadLen := String.length payload in
        if decide (payloadLen < prefixLen + 1)%nat then None
        else match list_ascii_of_string payload !! (payloadLen - 1)%nat with
             | Some c => if chr c =? 41
                         then Some (take (payloadLen - prefixLen - 1)
                                      (drop prefixLen (list_ascii_of_string payload)))
                         else None
             | None => None
             end
  | _, _ => None
  end.

Definition fisics_units_dim_attribute_extract (attr : ASTAttribute) : option (list ascii) :=
  extract_cxx_attr_payload attr "fisics::dim(".

Definition fisics_units_unit_attribute_extract (attr : ASTAttribute) : option (list ascii) :=
  extract_cxx_attr_payload attr "fisics::unit(".

Definition fisics_units_attribute_extract (attr : ASTAttribute) : option (list ascii) :=
  fisics_units_dim_attribute_extract attr.

Definition parse_string (s : string) : Outcome FisicsDim8 :=
  fisics_units_parse_dim_expr (list_ascii_of_string s).

Example parse_force : parse_string "kg * m / s^2" = Returned fisics_dim_force.
Proof. by vm_compute. Qed.

(** Two factors below the slash: the printed text means something else. *)
Example resistance_prints :
  fisics_dim_to_string fisics_dim_resistance = list_ascii_of_string "m^2*kg/s^3*A^2".
Proof. by vm_compute. Qed.

Example resistance_reparses :
  fisics_units_parse_dim_expr (fisics_dim_to_string fisics_dim_resistance)
  = Returned [2; 1; -3; 2; 0; 0; 0; 0].
Proof. by vm_compute. Qed.

(** An exponent of ten digits overflows [int]. *)
Example long_exponent_is_undefined : parse_string "m^9999999999" = Undefined.
Proof. by vm_compute. Qed.

(** ** Termination: every iteration reads a character. *)

Lemma span_length {A} (p : A -> bool) (l : list A) :
  length l = (length (span p l).1 + length (span p l).2)%nat.
Proof. rewrite <- length_app. by rewrite span_app. Qed.

Lemma skip_ws_length (cur : list ascii) : (length (skip_ws cur) <= length cur)%nat.
Proof. unfold skip_ws. rewrite (span_length is_ws cur). lia. Qed.

Lemma parse_int_length (cur cur' : list ascii) (d : string) (v : Z) :
  parse_int cur d = Returned (v, cur') -> (length cur' <= length cur)%nat.
Proof.
  unfold parse_int. pose proof (skip_ws_length cur) as Hws.
  assert (forall s r, match skip_ws cur with
            | c :: rest => if chr c =? 43 then (1, rest) else if chr c =? 45 then (-1, rest)
                           else (1, skip_ws cur)
            | [] => (1, []) end = (s, r) -> (length r <= length cur)%nat) as Hr.
  { intros s r. destruct (skip_ws cur) as [|c rest]; [intros [= _ <-]; lia|].
    simpl in *. repeat case_match; intros [= _ <-]; simpl; lia. }
  destruct (match skip_ws cur with [] => _ | _ => _ end) as [s r] eqn:E.
  specialize (Hr s r eq_refl). pose proof (span_length is_digit r) as Hs.
  destruct (span is_digit r) as [ds rest]. simpl in Hs. destruct ds as [|c ds]; [done|].
  destruct (int_digits (c :: ds) 0); simpl; [|done..]. intros [= _ <-]. lia.
Qed.

Lemma parse_atom_length (cur cur' : list ascii) (d : FisicsDim8) :
  parse_atom cur = Returned (d, cur') -> (length cur' < length cur)%nat.
Proof.
  unfold parse_atom. pose proof (skip_ws_length cur) as Hws.
  pose proof (span_length is_ident_char (skip_ws cur)) as Hsp.
  destruct (span is_ident_char (skip_ws cur)) as [ident cur1]. simpl in Hsp.
  destruct ident as [|c ident]; [done|]. simpl in Hsp.
  destruct (fisics_dim_lookup_atom _) as [info|]; [|done].
  destruct (ai_kind info); [done| |done].
  pose proof (skip_ws_length cur1). destruct (next_is 94 (skip_ws cur1)) as [cur2|] eqn:E.
  - assert (length cur2 <= length (skip_ws cur1))%nat.
    { destruct (skip_ws cur1) as [|x l]; simpl in E; [done|]. case_match; simplify_eq. simpl. lia. }
    destruct (parse_int cur2 _) as [[power cur3]| |] eqn:Ep; simpl; [|done..].
    apply parse_int_length in Ep. destruct (fisics_dim_scale _ _ _); simpl; [|done..].
    intros [= _ <-]. lia.
  - intros [= _ <-]. lia.
Qed.

Lemma parse_dim_loop_fuel (f1 f2 : nat) (cur : list ascii) (accum : option FisicsDim8) (op : bool) :
  (length cur <= f1)%nat -> (length cur <= f2)%nat ->
  parse_dim_loop f1 cur accum op = parse_dim_loop f2 cur accum op.
Proof.
  revert f2 cur accum op. induction f1 as [|f1 IH]; intros f2 cur accum op H1 H2.
  { destruct cur; [|simpl in H1; lia]. by destruct f2. }
  destruct f2 as [|f2]; [destruct cur; [done|simpl in H2; lia]|].
  destruct cur as [|c cur]; [done|]. cbn [parse_dim_loop].
  destruct (parse_atom (c :: cur)) as [[atom cur1]| |] eqn:E; cbn [outcome_bind]; [|done..].
  apply parse_atom_length in E.
  destruct (match accum with None => _ | Some _ => _ end); cbn [outcome_bind]; [|done..].
  pose proof (skip_ws_length cur1). destruct (skip_ws cur1) as [|x rest]; [done|].
  pose proof (skip_ws_length rest). simpl in *.
  repeat case_match; [apply IH; lia..|done].
Qed.

(** ** Printing and parsing back *)

Definition rest_loop (fuel : nat) (accum : FisicsDim8) (cur : list ascii) : Outcome FisicsDim8 :=
  match skip_ws cur with
  | [] => Returned accum
  | c :: rest =>
      if chr c =? 42 then parse_dim_loop fuel (skip_ws rest) (Some accum) true
      else if chr c =? 47 then parse_dim_loop fuel (skip_ws rest) (Some accum) false
      else Failed "expected '*' or '/' between dimension atoms"
  end.

(** Text that may follow a factor. *)
Definition after_factor (tail : list ascii) : Prop :=
  match tail with [] => True | c :: _ => chr c = 42 \/ chr c = 47 end.

Definition printed_magnitude_ok (n : nat) : bool :=
  let mag := Z.of_nat n in
  forallb is_digit (decimal_digits 4 mag) && negb (bool_decide (decimal_digits 4 mag = [])) &&
  match int_digits (decimal_digits 4 mag) 0 with Returned v => v =? mag | _ => false end.

Lemma printed_magnitudes : forallb printed_magnitude_ok (seq 1 128) = true.
Proof. by vm_compute. Qed.

Lemma printed_magnitude (mag : Z) :
  1 <= mag <= 128 ->
  Forall (fun c => is_digit c = true) (decimal_digits 4 mag) /\ decimal_digits 4 mag <> [] /\
  int_digits (decimal_digits 4 mag) 0 = Returned mag.
Proof.
  intros Hm. pose proof printed_magnitudes as H. rewrite forallb_forall in H.
  specialize (H (Z.to_nat mag) ltac:(apply in_seq; lia)). unfold printed_magnitude_ok in H.
  rewrite Z2Nat.id in H by lia. rewrite !andb_true_iff in H. destruct H as [[H1 H2] H3].
  split_and!.
  - apply Forall_forall. intros c Hc. rewrite forallb_forall in H1. apply H1. by apply list_elem_of_In.
  - intros E. by rewrite E in H2.
  - destruct (int_digits _ 0); [|done..]. f_equal. lia.
Qed.

Lemma is_digit_not_ws (c : ascii) : is_digit c = true -> is_ws c = false /\ (chr c =? 43) = false /\ (chr c =? 45) = false.
Proof. unfold is_ws; ctype. intros. split_and!; lia. Qed.

Lemma skip_ws_stop (c : ascii) (cur : list ascii) : is_ws c = false -> skip_ws (c :: cur) = c :: cur.
Proof. intros H. unfold skip_ws. simpl. by rewrite H. Qed.

Lemma after_factor_stop (tail : list ascii) (p : ascii -> bool) :
  after_factor tail -> (forall c, chr c = 42 \/ chr c = 47 -> p c = false) ->
  forall y, head tail = Some y -> p y = false.
Proof. intros Ht Hp y Hy. destruct tail as [|c tail]; [done|]. simplify_eq/=. by apply Hp. Qed.

Lemma parse_int_printed (mag : Z) (tail : list ascii) (d : string) :
  1 <= mag <= 128 -> after_factor tail ->
  parse_int (decimal_digits 4 mag ++ tail) d = Returned (mag, tail).
Proof.
  intros Hm Ht. destruct (printed_magnitude mag Hm) as (Hd & Hne & Hv). unfold parse_int.
  assert (span is_digit (decimal_digits 4 mag ++ tail) = (decimal_digits 4 mag, tail)) as Hsp.
  { apply span_stop; [done|]. apply after_factor_stop; [done|]. ctype. intros; lia. }
  destruct (decimal_digits 4 mag) as [|c ds] eqn:E; [done|]. rewrite <- app_comm_cons in *.
  inversion_clear Hd as [|? ? Hc _]. destruct (is_digit_not_ws c Hc) as (H1 & H2 & H3).
  rewrite skip_ws_stop by done. rewrite H2, H3, Hsp, Hv. simpl. by rewrite Z.mul_1_r.
Qed.

Lemma fisics_dim_scale_fits (d : FisicsDim8) (p : Z) (s : string) :
  Forall (fun x => inS 8 (x * p) = true) d ->
  fisics_dim_scale d p s = Returned ((fun x => x * p) <$> d).
Proof.
  induction 1 as [|x d Hx _ IH]; [done|]. cbn [fisics_dim_scale].
  assert (inS 32 (x * p) = true) as ->.
  { apply inS_spec. apply inS_spec in Hx. lia. }
  unfold checked_cast_i8. rewrite Hx. simpl. by rewrite IH.
Qed.

(** The vector with [m] at index [i]. *)
Definition unit_vector (i : nat) (m : Z) : FisicsDim8 := <[i := m]> (replicate 8 0).

Lemma unit_vector_scale (i : nat) (m : Z) (s : string) :
  inS 8 m = true -> fisics_dim_scale (unit_vector i 1) m s = Returned (unit_vector i m).
Proof.
  intros Hm. rewrite fisics_dim_scale_fits.
  - f_equal. unfold unit_vector. rewrite list_fmap_insert, fmap_replicate. f_equal. lia.
  - unfold unit_vector. apply Forall_insert; [by apply Forall_replicate|].
    by rewrite Z.mul_1_l.
Qed.

Definition base_name_ok (i : nat) : bool :=
  match base_names !! i with
  | Some nm =>
      forallb is_ident_char nm &&
      match nm with c :: _ => negb (is_ws c) | [] => false end &&
      match fisics_dim_lookup_atom (string_of_list_ascii nm) with
      | Some info =>
          match ai_kind info with
          | FISICS_DIM_ATOM_DIMENSION => bool_decide (ai_dim info = unit_vector i 1)
          | _ => false
          end
      | None => false
      end
  | None => false
  end.

Lemma base_names_ok : forallb base_name_ok (seq 0 8) = true.
Proof. by vm_compute. Qed.

Lemma base_name_spec (i : nat) (nm : list ascii) :
  base_names !! i = Some nm ->
  Forall (fun c => is_ident_char c = true) nm /\
  (exists c l, nm = c :: l /\ is_ws c = false) /\
  exists info, fisics_dim_lookup_atom (string_of_list_ascii nm) = Some info /\
    ai_kind info = FISICS_DIM_ATOM_DIMENSION /\ ai_dim info = unit_vector i 1.
Proof.
  intros Hi. pose proof base_names_ok as H. rewrite forallb_forall in H.
  specialize (H i ltac:(apply in_seq; apply lookup_lt_Some in Hi; simpl in Hi; lia)).
  unfold base_name_ok in H. rewrite Hi, !andb_true_iff in H. destruct H as [[H1 H2] H3].
  split_and!.
  - apply Forall_forall. intros c Hc. rewrite forallb_forall in H1. apply H1. by apply list_elem_of_In.
  - destruct nm as [|c l]; [done|]. do 2 eexists. split; [done|]. by apply negb_true_iff.
  - destruct (fisics_dim_lookup_atom _) as [info|]; [|done]. exists info.
    destruct (ai_kind info); [done| |done]. split_and!; [done..|].
    by apply bool_decide_eq_true_1 in H3.
Qed.

(** Reading an atom whose name is [nm], in front of [rest]. *)
Lemma parse_atom_name (i : nat) (nm rest : list ascii) :
  base_names !! i = Some nm -> (forall y, head rest = Some y -> is_ident_char y = false) ->
  parse_atom (nm ++ rest) =
    match next_is 94 (skip_ws rest) with
    | None => Returned (unit_vector i 1, skip_ws rest)
    | Some cur =>
        let! (power, cur) := parse_int cur "expected integer exponent after '^'" in
        let! base := fisics_dim_scale (unit_vector i 1) power "dimension exponent overflow" in
        Returned (base, cur)
    end.
Proof.
  intros Hi Hr. destruct (base_name_spec i nm Hi) as (Hid & (c & l & -> & Hc) & info & Hl & Hk & Hd).
  unfold parse_atom. rewrite <- app_comm_cons, skip_ws_stop by done.
  assert (span is_ident_char (c :: l ++ rest) = (c :: l, rest)) as ->
    by (by apply (span_stop is_ident_char (c :: l) rest)).
  by rewrite Hl, Hk, Hd.
Qed.

(** A printed factor reads back as its vector. *)
Lemma parse_atom_factor (i : nat) (nm tail : list ascii) (mag : Z) :
  base_names !! i = Some nm -> 1 <= mag <= 127 -> after_factor tail ->
  parse_atom (dim_factor nm mag ++ tail) = Returned (unit_vector i mag, tail).
Proof.
  intros Hi Hm Ht. unfold dim_factor. rewrite <- app_assoc. rewrite (parse_atom_name i) by
    (first [done | destruct (mag =? 1); [|by intros y [= <-]];
       apply after_factor_stop; [done|]; unfold is_ident_char; ctype; intros; lia]).
  destruct (Z.eqb_spec mag 1) as [->|Hne]; simpl app.
  - assert (skip_ws tail = tail) as ->.
    { destruct tail as [|x tail]; [done|]. apply skip_ws_stop. unfold is_ws. simpl in Ht. lia. }
    assert (next_is 94 tail = None) as ->; [|done].
    destruct tail as [|x tail]; [done|]. simpl in *.
    destruct (Z.eqb_spec (chr x) 94); [lia|done].
  - rewrite skip_ws_stop by (by vm_compute).
    change (next_is 94 ("^"%char :: ?x)) with (Some x). cbv beta iota.
    rewrite parse_int_printed by (done || lia). cbn [outcome_bind].
    rewrite unit_vector_scale; [done|]. apply inS_spec. lia.
Qed.

(** *** The numerator *)

Definition pos_part (d : FisicsDim8) : FisicsDim8 := Z.max 0 <$> d.
Definition upto (i : nat) (d : FisicsDim8) : FisicsDim8 := take i d ++ replicate (8 - i) 0.

Lemma upto_step (i : nat) (d : FisicsDim8) (m : Z) :
  length d = 8%nat -> d !! i = Some m -> zip_with Z.add (upto i d) (unit_vector i m) = upto (S i) d.
Proof.
  intros Hl Hi. pose proof (lookup_lt_Some _ _ _ Hi). apply list_eq. intros j.
  rewrite lookup_zip_with. unfold upto, unit_vector.
  destruct (decide (j < 8)%nat) as [Hj|Hj].
  - rewrite (take_S_r _ _ _ Hi), <- app_assoc.
    destruct (Nat.lt_trichotomy j i) as [Hlt|[->|Hgt]].
    + rewrite !lookup_app_l, list_lookup_insert_ne, lookup_replicate_2 by (rewrite ?length_take; lia).
      destruct (lookup_lt_is_Some_2 (take i d) j) as [x Hx]; [rewrite length_take; lia|].
      rewrite Hx. simpl. f_equal. lia.
    + rewrite !lookup_app_r by (rewrite length_take; lia).
      rewrite length_take, Nat.min_l, Nat.sub_diag by lia.
      rewrite list_lookup_insert_eq by (rewrite length_replicate; lia).
      rewrite lookup_replicate_2 by lia. done.
    + rewrite !lookup_app_r by (rewrite length_take; lia).
      rewrite length_take, Nat.min_l by lia.
      rewrite list_lookup_insert_ne, !lookup_replicate_2 by lia.
      destruct (j - i)%nat as [|n] eqn:E; [lia|]. simpl. by rewrite lookup_replicate_2 by lia.
  - rewrite !lookup_ge_None_2; [done|..];
      rewrite ?length_app, ?length_take, ?length_insert, ?length_replicate; lia.
Qed.

Lemma upto_all (d : FisicsDim8) : length d = 8%nat -> upto 8 d = d.
Proof. intros H. unfold upto. rewrite take_ge by lia. by rewrite app_nil_r. Qed.

Lemma upto_in_range (i : nat) (d : FisicsDim8) :
  Forall (fun x => inS 8 x = true) d -> Forall (fun x => inS 8 x = true) (upto i d).
Proof. intros H. apply Forall_app. split; [by apply Forall_take|by apply Forall_replicate]. Qed.

Lemma upto_add (i : nat) (d : FisicsDim8) (m : Z) :
  dim_ok d -> d !! i = Some m -> combine true (upto i d) (unit_vector i m) = Returned (upto (S i) d).
Proof.
  intros [Hl Hr] Hi. unfold combine.
  assert (fisics_dim_add (upto i d) (unit_vector i m) = Some (upto (S i) d)) as ->; [|done].
  apply fisics_dim_add_Some. rewrite upto_step by done. split; [done|]. by apply upto_in_range.
Qed.

Lemma upto_skip (i : nat) (d : FisicsDim8) :
  length d = 8%nat -> d !! i = Some 0 -> upto (S i) d = upto i d.
Proof.
  intros Hl Hi. pose proof (lookup_lt_Some _ _ _ Hi). unfold upto.
  rewrite (take_S_r _ _ _ Hi), <- app_assoc. f_equal.
  by replace (8 - i)%nat with (S (8 - S i)) by lia.
Qed.

Lemma dim_pass_after (positive : bool) (names : list (list ascii)) (d : FisicsDim8) (tail : list ascii) :
  after_factor tail -> after_factor (dim_pass positive false names d ++ tail).
Proof.
  intros Ht. revert d. induction names as [|nm names IH]; intros [|x d]; simpl; try done.
  destruct (if positive then _ else _); [apply IH|]. by left.
Qed.

Lemma pos_part_ok (d : FisicsDim8) : dim_ok d -> dim_ok (pos_part d).
Proof.
  intros [Hl Hr]. unfold pos_part. split; [by rewrite length_fmap|]. apply Forall_fmap.
  eapply Forall_impl; [exact Hr|]. intros x Hx. apply inS_spec in Hx. apply inS_spec. simpl. lia.
Qed.

Lemma rest_loop_star (f : nat) (a : FisicsDim8) (i : nat) (nm : list ascii) (cur : list ascii) :
  base_names !! i = Some nm ->
  rest_loop f a ("*"%char :: nm ++ cur) = parse_dim_loop f (nm ++ cur) (Some a) true.
Proof.
  intros Hi. destruct (base_name_spec i nm Hi) as (_ & (c & l & -> & Hc) & _).
  unfold rest_loop. rewrite skip_ws_stop by done. cbn [chr]. change (chr "*" =? 42) with true.
  cbv iota. by rewrite <- app_comm_cons, skip_ws_stop.
Qed.

(** One factor: the loop reads it and combines it. *)
Lemma parse_dim_loop_factor (f i : nat) (nm tail : list ascii) (mag : Z) (a : FisicsDim8) (op : bool) :
  base_names !! i = Some nm -> 1 <= mag <= 127 -> after_factor tail ->
  parse_dim_loop (S f) (dim_factor nm mag ++ tail) (Some a) op =
  let! a' := combine op a (unit_vector i mag) in rest_loop f a' tail.
Proof.
  intros Hi Hm Ht. pose proof (parse_atom_factor i nm tail mag Hi Hm Ht) as Hp.
  destruct (base_name_spec i nm Hi) as (_ & (c & l & -> & _) & _).
  unfold dim_factor in *. rewrite <- app_assoc in *. rewrite <- app_comm_cons in *.
  cbn [parse_dim_loop]. rewrite Hp. done.
Qed.

Lemma numerator_parses (k i f : nat) (d : FisicsDim8) (tail : list ascii) :
  dim_ok d -> (k + i = 8)%nat -> after_factor tail ->
  (length (dim_pass true false (drop i base_names) (drop i d) ++ tail) <= f)%nat ->
  exists f', (length tail <= f')%nat /\
    rest_loop f (upto i (pos_part d)) (dim_pass true false (drop i base_names) (drop i d) ++ tail)
    = rest_loop f' (pos_part d) tail.
Proof.
  intros Hd. revert i f. induction k as [|k IH]; intros i f Hki Ht Hf.
  { assert (i = 8%nat) as -> by lia. change (drop 8 base_names) with (@nil (list ascii)) in *.
    simpl in *. exists f. split; [done|]. rewrite upto_all; [done|].
    apply (pos_part_ok d Hd). }
  destruct (lookup_lt_is_Some_2 d i) as [x Hx]; [destruct Hd as [-> _]; unfold FISICS_DIM_COUNT; lia|].
  destruct (lookup_lt_is_Some_2 base_names i) as [nm Hnm]; [simpl; lia|].
  assert (pos_part d !! i = Some (Z.max 0 x)) as Hpx by (etrans; [exact (list_lookup_fmap (Z.max 0) d i)|by rewrite Hx]).
  pose proof (pos_part_ok d Hd) as Hpd.
  rewrite (drop_S _ _ _ Hx), (drop_S _ _ _ Hnm) in *. cbn [dim_pass] in *.
  destruct (Z.leb_spec x 0) as [Hle|Hgt].
  - rewrite <- (upto_skip i); [|apply Hpd|rewrite Hpx; f_equal; lia].
    apply IH; [lia|done|done].
  - rewrite <- !app_assoc in *. cbn [app] in *.
    assert (inS 8 x = true) as Hrange.
    { destruct Hd as [_ Hr]. rewrite Forall_forall in Hr. apply Hr. by eapply list_elem_of_lookup_2. }
    apply inS_spec in Hrange. rewrite Z.abs_eq in * by lia.
    unfold dim_factor at 1. rewrite <- app_assoc, (rest_loop_star f _ i) by done. rewrite app_assoc.
    fold (dim_factor nm x).
    destruct f as [|f]; [simpl in Hf; lia|].
    rewrite (parse_dim_loop_factor f i) by (done || lia || by apply dim_pass_after).
    rewrite (upto_add i (pos_part d)) by (done || (rewrite Hpx; f_equal; lia)).
    cbn [outcome_bind]. apply IH; [lia|done|].
    cbn [length] in Hf. rewrite length_app in Hf. lia.
Qed.

(** *** The whole text *)

(** The first factor carries no [*]. *)
Lemma dim_pass_first (names : list (list ascii)) (d : FisicsDim8) :
  (dim_pass true true names d = [] /\ dim_pass true false names d = []) \/
  exists i nm x tail, names !! i = Some nm /\ d !! i = Some x /\ 0 < x /\ after_factor tail /\
    dim_pass true true names d = dim_factor nm x ++ tail /\
    dim_pass true false names d = "*"%char :: dim_factor nm x ++ tail.
Proof.
  revert d. induction names as [|nm names IH]; intros [|x d]; [by left..|]. cbn [dim_pass].
  destruct (Z.leb_spec x 0) as [Hle|Hgt].
  - destruct (IH d) as [?|(i & nm' & x' & tail & ?)]; [by left|]. right. by exists (S i), nm', x', tail.
  - right. exists 0%nat, nm, x, (dim_pass true false names d). rewrite Z.abs_eq by lia.
    split_and!; [done..| |done|done].
    rewrite <- (app_nil_r (dim_pass true false names d)). by apply dim_pass_after.
Qed.

Definition negatives (d : list Z) : nat := length (filter (fun x => x < 0) d).

Lemma negatives_cons (x : Z) (d : list Z) :
  negatives (x :: d) = ((if decide (x < 0)%Z then 1 else 0) + negatives d)%nat.
Proof. unfold negatives. rewrite filter_cons. by case_decide. Qed.

Lemma no_negatives (names : list (list ascii)) (d : FisicsDim8) (first : bool) :
  negatives d = 0%nat -> dim_pass false first names d = [] /\ pos_part d = d.
Proof.
  revert names first. induction d as [|x d IH]; intros names first; [by destruct names|].
  rewrite negatives_cons. case_decide; [lia|]. intros Hn.
  destruct (IH [] false Hn) as [_ Hp]. split.
  - destruct names as [|nm names]; [done|]. cbn [dim_pass].
    destruct (Z.leb_spec 0 x); [|lia]. by apply IH.
  - unfold pos_part in *. cbn. f_equal; [lia|done].
Qed.

Lemma one_negative (names : list (list ascii)) (d : FisicsDim8) :
  length names = length d -> negatives d = 1%nat ->
  exists j nm x, names !! j = Some nm /\ d !! j = Some x /\ x < 0 /\
    dim_pass false true names d = "/"%char :: dim_factor nm (- x) /\
    zip_with Z.sub (pos_part d) (<[j := - x]> (replicate (length d) 0)) = d.
Proof.
  revert names. induction d as [|x d IH]; intros [|nm names] Hl; try done.
  rewrite negatives_cons. simpl in Hl. case_decide as Hx; intros Hn.
  - destruct (no_negatives names d false ltac:(lia)) as [Hp Hd].
    exists 0%nat, nm, x. cbn [dim_pass]. destruct (Z.leb_spec 0 x); [lia|].
    rewrite Hp, app_nil_r, Z.abs_neq by lia. split_and!; [done..|].
    change (pos_part (x :: d)) with (Z.max 0 x :: pos_part d). rewrite Hd. cbn.
    f_equal; [lia|]. clear. induction d as [|y d IH]; simpl; [done|]. f_equal; [lia|done].
  - destruct (IH names) as (j & nm' & y & Hnm & Hy & Hneg & Hp & Hd); [lia|lia|].
    exists (S j), nm', y. cbn [dim_pass]. destruct (Z.leb_spec 0 x); [|lia].
    split_and!; [done..|].
    change (pos_part (x :: d)) with (Z.max 0 x :: pos_part d). cbn. f_equal; [lia|done].
Qed.

(** Dimensions whose text reads back: nothing below [-127], one factor below the slash. *)
Definition printable (d : FisicsDim8) : Prop :=
  dim_ok d /\ Forall (fun x => -127 <= x) d /\ (negatives d <= 1)%nat.

(** After the numerator: the denominator brings the negative exponent back. *)
Lemma denominator_parses (f : nat) (d : FisicsDim8) :
  printable d -> (length (dim_pass false true base_names d) <= f)%nat ->
  rest_loop f (pos_part d) (dim_pass false true base_names d) = Returned d.
Proof.
  intros (Hd & Hmin & Hneg) Hf. pose proof Hd as [Hl Hr].
  destruct (decide (negatives d = 0%nat)) as [Hz|Hz].
  { destruct (no_negatives base_names d true Hz) as [-> ->]. done. }
  destruct (one_negative base_names d) as (j & nm & x & Hnm & Hx & Hxneg & Hden & Hsub);
    [by rewrite Hl|lia|].
  rewrite Hden in *. rewrite Forall_forall in Hmin.
  pose proof (Hmin x ltac:(by eapply list_elem_of_lookup_2)).
  destruct (base_name_spec j nm Hnm) as (_ & (c & l & Hnmeq & Hc) & _).
  unfold rest_loop. rewrite skip_ws_stop by done.
  change (chr "/" =? 42) with false. change (chr "/" =? 47) with true. cbv iota.
  assert (skip_ws (dim_factor nm (- x)) = dim_factor nm (- x)) as ->.
  { unfold dim_factor. rewrite Hnmeq, <- app_comm_cons. by apply skip_ws_stop. }
  destruct f as [|f]; [simpl in Hf; lia|].
  rewrite <- (app_nil_r (dim_factor nm (- x))).
  rewrite (parse_dim_loop_factor f j) by (done || lia).
  assert (fisics_dim_sub (pos_part d) (unit_vector j (- x)) = Some d) as Hs.
  { apply fisics_dim_sub_Some. unfold unit_vector. rewrite Hl in Hsub.
    unfold FISICS_DIM_COUNT in Hsub. by rewrite Hsub. }
  unfold combine. by rewrite Hs.
Qed.

Lemma parse_dim_loop_first_factor (f i : nat) (nm tail : list ascii) (mag : Z) :
  base_names !! i = Some nm -> 1 <= mag <= 127 -> after_factor tail ->
  parse_dim_loop f (dim_factor nm mag ++ tail) None true
  = parse_dim_loop f (dim_factor nm mag ++ tail) (Some fisics_dim_zero) true.
Proof.
  intros Hi Hm Ht. pose proof (parse_atom_factor i nm tail mag Hi Hm Ht) as Hp.
  destruct (base_name_spec i nm Hi) as (_ & (c & l & -> & _) & _).
  unfold dim_factor in *. rewrite <- app_assoc in *. rewrite <- app_comm_cons in *.
  destruct f as [|f]; [done|]. cbn [parse_dim_loop]. rewrite Hp. cbn [outcome_bind].
  assert (combine true fisics_dim_zero (unit_vector i mag) = Returned (unit_vector i mag)) as ->; [|done].
  unfold combine.
  assert (fisics_dim_add fisics_dim_zero (unit_vector i mag) = Some (unit_vector i mag)) as ->; [|done].
  assert (zip_with Z.add fisics_dim_zero (unit_vector i mag) = unit_vector i mag) as Hz.
  { rewrite zip_with_add_comm. apply zip_with_add_zero. unfold unit_vector.
    by rewrite length_insert, length_replicate. }
  apply fisics_dim_add_Some. rewrite Hz. split; [done|]. unfold unit_vector.
  apply Forall_insert; [by apply Forall_replicate|]. apply inS_spec. lia.
Qed.

Lemma parse_one (den : list ascii) :
  after_factor den -> parse_atom ("1"%char :: den) = Returned (fisics_dim_zero, den).
Proof.
  intros Hd. unfold parse_atom. rewrite skip_ws_stop by done.
  assert (span is_ident_char ("1"%char :: den) = (["1"%char], den)) as ->.
  { apply (span_stop is_ident_char ["1"%char] den); [by repeat constructor|].
    apply after_factor_stop; [done|]. unfold is_ident_char; ctype. intros; lia. }
  assert (skip_ws den = den) as Hws.
  { destruct den as [|x den]; [done|]. apply skip_ws_stop. unfold is_ws. simpl in Hd. lia. }
  assert (next_is 94 den = None) as Hn.
  { destruct den as [|x den]; [done|]. simpl in *. destruct (Z.eqb_spec (chr x) 94); [lia|done]. }
  cbn - [skip_ws next_is]. by rewrite Hws, Hn.
Qed.

Lemma denominator_after (d : FisicsDim8) : after_factor (dim_pass false true base_names d).
Proof.
  assert (forall names, after_factor (dim_pass false true names d)) as H; [|done].
  induction d as [|x d IH]; intros [|nm names]; [done..|]. cbn [dim_pass].
  destruct (Z.leb_spec 0 x); [apply IH|]. by right.
Qed.

(** C15: a dimension with at most one negative exponent, none below [-127], prints to a text
    that parses back to it. *)
Theorem dim_print_parse (d : FisicsDim8) :
  printable d -> fisics_units_parse_dim_expr (fisics_dim_to_string d) = Returned d.
Proof.
  intros Hp. pose proof Hp as (Hd & _ & _). pose proof Hd as [Hl Hr].
  pose proof (denominator_after d) as Hden. unfold fisics_dim_to_string, fisics_units_parse_dim_expr.
  destruct (dim_pass_first base_names d) as [[-> Hstar]|(i & nm & x & tl & Hnm & Hx & Hpos & Htl & Hfst & Hstar)].
  - assert (pos_part d = fisics_dim_zero) as Hz.
    { destruct (numerator_parses 8 0 0 d [] Hd eq_refl I) as (f' & _ & Heq).
      - rewrite !drop_0, Hstar. done.
      - rewrite !drop_0, Hstar in Heq. change (Returned fisics_dim_zero = Returned (pos_part d)) in Heq. congruence. }
    pose proof (denominator_parses (length (dim_pass false true base_names d)) d Hp ltac:(lia)) as Hrest.
    assert (match dim_pass false true base_names d with
            | [] => ["1"%char] | _ :: _ => "1"%char :: dim_pass false true base_names d end
            = "1"%char :: dim_pass false true base_names d) as -> by (by destruct (dim_pass false true _ _)).
    rewrite skip_ws_stop by done. cbn [length parse_dim_loop]. rewrite parse_one by done.
    cbn [outcome_bind]. rewrite <- Hz. exact Hrest.
  - assert (x <= 127) as Hx127.
    { rewrite Forall_forall in Hr. pose proof (Hr x ltac:(by eapply list_elem_of_lookup_2)) as Hb.
      apply inS_spec in Hb. simpl in Hb. lia. }
    set (den := dim_pass false true base_names d) in *.
    destruct (base_name_spec i nm Hnm) as (_ & (c & l & Hnmeq & Hc) & _).
    assert (dim_pass true true base_names d ++ den = dim_factor nm x ++ tl ++ den) as Htext
      by (by rewrite Hfst, app_assoc).
    assert (after_factor (tl ++ den)) as Htl' by (by destruct tl).
    assert (match dim_pass true true base_names d with
            | [] => match den with [] => ["1"%char] | _ :: _ => "1"%char :: den end
            | _ :: _ => dim_pass true true base_names d ++ den end
            = dim_factor nm x ++ tl ++ den) as ->.
    { rewrite <- Htext, Hfst. unfold dim_factor. by rewrite Hnmeq. }
    set (text := dim_factor nm x ++ tl ++ den).
    assert (exists c' l', text = c' :: l' /\ skip_ws text = text) as (c' & l' & Hcons & Hws).
    { unfold text, dim_factor. rewrite Hnmeq. do 2 eexists. split; [done|]. by apply skip_ws_stop. }
    rewrite Hws, Hcons, <- Hcons. unfold text at 2.
    rewrite (parse_dim_loop_first_factor _ i) by (done || lia). fold text.
    destruct (numerator_parses 8 0 (length text + 1) d den Hd eq_refl Hden) as (f' & Hf' & Heq).
    { rewrite !drop_0, Hstar. unfold text. simpl. rewrite <- app_assoc. lia. }
    rewrite !drop_0, Hstar in Heq. simpl app in Heq. rewrite <- app_assoc in Heq. fold text in Heq.
    change (upto 0 (pos_part d)) with fisics_dim_zero in Heq.
    unfold text in Heq at 2. unfold dim_factor in Heq at 1. rewrite <- app_assoc in Heq.
    rewrite (rest_loop_star _ _ i) in Heq by done. rewrite app_assoc in Heq.
    fold (dim_factor nm x) in Heq. fold text in Heq.
    rewrite (parse_dim_loop_fuel (length text) (length text + 1)) by lia.
    rewrite Heq. by apply denominator_parses.
Qed.

Lemma dim_print_parse_witness :
  fisics_units_parse_dim_expr (fisics_dim_to_string fisics_dim_power) = Returned fisics_dim_power.
Proof.
  apply dim_print_parse. split; [split; [reflexivity|by repeat constructor]|].
  split; [repeat constructor; lia|]. unfold negatives. by vm_compute; lia.
Defined.

(** The dimension parser terminates: on every text its loop needs no more iterations
    than the text has characters, so more fuel changes nothing. *)
Theorem dim_parser_terminates (text : list ascii) (fuel : nat) (accum : option FisicsDim8) (op : bool) :
  (length text <= fuel)%nat ->
  parse_dim_loop fuel text accum op = parse_dim_loop (length text) text accum op.
Proof. intros H. by apply parse_dim_loop_fuel. Qed.

Lemma dim_parser_terminates_witness :
  parse_dim_loop 50 (list_ascii_of_string "kg*m/s^2") None true = Returned fisics_dim_force.
Proof.
  etransitivity; [apply (dim_parser_terminates (list_ascii_of_string "kg*m/s^2") 50); vm_compute; lia|].
  by vm_compute.
Defined.
