(* ===== verification/UnitsDiag.v ===== *)
(** * Diagnostics of the units extension (src/Extensions/extension_diagnostics.c), and the
    diagnostics buffer (src/Compiler/diagnostics.c).

    A unit pointer is an entry of the registry; entries have distinct names, by which they are
    compared.  Null pointers are [None]. *)
From S2P Require Import Prelude Tokens AST UnitsDim UnitsRegistry.

(** The codes the extension reports. *)
Inductive UnitsDiagCode : Set :=
  | UNITS_DISABLED | UNITS_INVALID_DIM | UNITS_DUPLICATE | UNITS_INVALID_UNIT | UNITS_DUPLICATE_UNIT
  | UNITS_UNIT_REQUIRES_DIM | UNITS_UNIT_DIM_MISMATCH | UNITS_ADD_DIM_MISMATCH | UNITS_SUB_DIM_MISMATCH
  | UNITS_ASSIGN_DIM_MISMATCH | UNITS_COMPARE_DIM_MISMATCH | UNITS_EXPONENT_OVERFLOW | UNITS_UNSUPPORTED_OPERATION
  | UNITS_IMPLICIT_CONCRETE_CONVERSION | UNITS_CONVERSION_INVALID_TARGET | UNITS_CONVERSION_INCOMPATIBLE
  | UNITS_CONVERSION_REQUIRES_SOURCE_UNIT | UNITS_CONVERSION_REQUIRES_FLOATING | UNITS_ARGUMENT_DIM_MISMATCH
  | UNITS_RETURN_DIM_MISMATCH | UNITS_RETURN_CONTRACT_MISMATCH | UNITS_SQRT_UNSUPPORTED
  | UNITS_MATH_ARGUMENT_DIM_MISMATCH.

#[export] Instance UnitsDiagCode_eq_dec : EqDecision UnitsDiagCode.
Proof. solve_decision. Defined.

(** What tools read of a diagnostic besides its text. *)
Record DiagDetails := mkDetails {
  dd_lhsDim : option FisicsDim8;
  dd_rhsDim : option FisicsDim8;
  dd_context : option string;
  dd_sourceUnit : option FisicsUnitDef;
  dd_targetUnit : option FisicsUnitDef
}.

Definition no_details : DiagDetails := mkDetails None None None None None.

(** All of them are errors. *)
Record UnitsDiag := mkUnitsDiag {
  ud_file : option string;
  ud_line : Z;
  ud_column : Z;
  ud_code : UnitsDiagCode;
  ud_hint : option string;
  ud_message : string;
  ud_details : DiagDetails
}.

Definition same_text (a b : option string) : bool := bool_decide (a = b).

(** The details are not compared. *)
Definition diag_matches (a b : UnitsDiag) : bool :=
  bool_decide (ud_code a = ud_code b) && (ud_line a =? ud_line b) && (ud_column a =? ud_column b) &&
  same_text (ud_file a) (ud_file b) && String.eqb (ud_message a) (ud_message b) && same_text (ud_hint a) (ud_hint b).

(** A diagnostic that is there already is not added again. *)
Definition compiler_report_units_diag (buf : list UnitsDiag) (d : UnitsDiag) : list UnitsDiag :=
  if existsb (fun old => diag_matches old d) buf then buf else buf ++ [d].

Definition node_loc (node : option ASTNode) : SourceLocation :=
  match node with
  | Some n => let start := range_start (an_location n) in
              if 0 <? loc_line start then start else mkSourceLocation None (an_line n) 0
  | None => mkSourceLocation None 0 0
  end.

(** ** The messages *)

Definition diag (node : option ASTNode) (code : UnitsDiagCode) (hint message : string) (details : DiagDetails) : UnitsDiag :=
  let loc := node_loc node in
  mkUnitsDiag (loc_file loc) (loc_line loc) (loc_column loc) code (if String.eqb hint "" then None else Some hint) message
    details.

Definition dim_text (d : FisicsDim8) : string := string_of_list_ascii (fisics_dim_to_string d).
Definition quoted (s : string) : string := "'" +:+ s +:+ "'".
Definition text_or (s : option string) (other : string) : string := default other s.
Definition unit_name (u : option FisicsUnitDef) (other : string) : string := text_or (option_map name u) other.

Section Reports.
Variable node : option ASTNode.

Definition report_dim_mismatch (code : UnitsDiagCode) (hint context before between : string) (lhsDim rhsDim : FisicsDim8)
    : UnitsDiag :=
  diag node code hint (before +:+ quoted (dim_text lhsDim) +:+ between +:+ quoted (dim_text rhsDim))
    (mkDetails (Some lhsDim) (Some rhsDim) (Some context) None None).

Definition report_dim_binary_issue (code : UnitsDiagCode) (hint before op lhs rhs : string) (lhsDim rhsDim : FisicsDim8)
    : UnitsDiag :=
  diag node code hint
    (before +:+ quoted op +:+ lhs +:+ quoted (dim_text lhsDim) +:+ rhs +:+ quoted (dim_text rhsDim)) no_details.

Definition diag_units_disabled (exprText : option string) : UnitsDiag :=
  diag node UNITS_DISABLED "enable with --overlay=physics-units or FISICS_OVERLAY=physics-units"
    ("fisics units annotation " +:+ quoted (text_or exprText "") +:+ " requires the physics-units overlay") no_details.

Definition diag_invalid_units_expr (exprText : option string) (detail : string) : UnitsDiag :=
  diag node UNITS_INVALID_DIM detail ("invalid fisics::dim expression " +:+ quoted (text_or exprText "")) no_details.

Definition diag_duplicate_units_attr : UnitsDiag :=
  diag node UNITS_DUPLICATE "use only one [[fisics::dim(...)]] annotation per declaration node"
    "duplicate fisics::dim annotation on declaration" no_details.

Definition diag_invalid_unit_attr (unitText : option string) (detail : string) : UnitsDiag :=
  diag node UNITS_INVALID_UNIT detail ("invalid fisics::unit expression " +:+ quoted (text_or unitText "")) no_details.

Definition diag_duplicate_unit_attr : UnitsDiag :=
  diag node UNITS_DUPLICATE_UNIT "use only one [[fisics::unit(...)]] annotation per declaration node"
    "duplicate fisics::unit annotation on declaration" no_details.

Definition diag_unit_requires_dim (unitText : option string) : UnitsDiag :=
  diag node UNITS_UNIT_REQUIRES_DIM
    "the first unit-bearing lane requires [[fisics::dim(...)]] before [[fisics::unit(...)]]"
    ("fisics::unit expression " +:+ quoted (text_or unitText "") +:+ " requires a matching fisics::dim annotation") no_details.

Definition diag_unit_dim_mismatch (unitText : option string) (declDim unitDim : FisicsDim8) : UnitsDiag :=
  diag node UNITS_UNIT_DIM_MISMATCH "the concrete unit must belong to the same resolved dimension as fisics::dim(...)"
    ("fisics::unit expression " +:+ quoted (text_or unitText "") +:+ " has dimension " +:+ quoted (dim_text unitDim)
       +:+ " but declaration dim is " +:+ quoted (dim_text declDim)) no_details.

Definition diag_units_argument_dim_mismatch : FisicsDim8 -> FisicsDim8 -> UnitsDiag :=
  report_dim_mismatch UNITS_ARGUMENT_DIM_MISMATCH "argument and parameter require identical dimensions" "argument"
    "units argument mismatch: parameter expects " " but argument is ".

Definition diag_units_assign_dim_mismatch : FisicsDim8 -> FisicsDim8 -> UnitsDiag :=
  report_dim_mismatch UNITS_ASSIGN_DIM_MISMATCH "assignment requires identical dimensions on both sides" "assignment"
    "units assignment mismatch: lhs is " " but rhs is ".

Definition diag_units_add_dim_mismatch : FisicsDim8 -> FisicsDim8 -> UnitsDiag :=
  report_dim_mismatch UNITS_ADD_DIM_MISMATCH "addition requires identical dimensions on both sides" "addition"
    "units addition mismatch: lhs is " " but rhs is ".

Definition diag_units_sub_dim_mismatch : FisicsDim8 -> FisicsDim8 -> UnitsDiag :=
  report_dim_mismatch UNITS_SUB_DIM_MISMATCH "subtraction requires identical dimensions on both sides" "subtraction"
    "units subtraction mismatch: lhs is " " but rhs is ".

Definition diag_units_compare_dim_mismatch : FisicsDim8 -> FisicsDim8 -> UnitsDiag :=
  report_dim_mismatch UNITS_COMPARE_DIM_MISMATCH "comparison requires identical dimensions on both sides" "comparison"
    "units comparison mismatch: lhs is " " but rhs is ".

Definition diag_units_exponent_overflow (op : option string) : FisicsDim8 -> FisicsDim8 -> UnitsDiag :=
  report_dim_binary_issue UNITS_EXPONENT_OVERFLOW "dimension exponent math exceeded the int8 units range"
    "units exponent overflow for " (text_or op "<op>") ": lhs is " " and rhs is ".

Definition diag_units_ternary_dim_mismatch : FisicsDim8 -> FisicsDim8 -> UnitsDiag :=
  report_dim_binary_issue UNITS_UNSUPPORTED_OPERATION
    "ternary expressions require identical dimensions on both result branches"
    "units ternary mismatch for " "?:" ": true branch is " " but false branch is ".

Definition unit_details (context : string) (source target : option FisicsUnitDef) : DiagDetails :=
  mkDetails (option_map dim source) (option_map dim target) (Some context) source target.

Definition diag_units_implicit_unit_conversion (context : string) (source target : option FisicsUnitDef) : UnitsDiag :=
  diag node UNITS_IMPLICIT_CONCRETE_CONVERSION
    "same-dimension concrete unit changes currently require an explicit fisics_convert_unit(...) call"
    ("implicit concrete unit conversion in " +:+ context +:+ " requires explicit conversion from "
       +:+ quoted (unit_name source "<source>") +:+ " to " +:+ quoted (unit_name target "<target>"))
    (unit_details context source target).

Definition diag_units_conversion_invalid_target (targetText detail : string) : UnitsDiag :=
  diag node UNITS_CONVERSION_INVALID_TARGET detail ("invalid explicit units conversion target " +:+ quoted targetText) no_details.

Definition diag_units_conversion_incompatible (source target : option FisicsUnitDef) (detail : string) : UnitsDiag :=
  diag node UNITS_CONVERSION_INCOMPATIBLE detail
    ("explicit units conversion from " +:+ quoted (unit_name source "<source>") +:+ " to "
       +:+ quoted (unit_name target "<target>") +:+ " is not allowed")
    (unit_details "explicit conversion" source target).

Definition diag_units_conversion_requires_source_unit (targetText : string) : UnitsDiag :=
  diag node UNITS_CONVERSION_REQUIRES_SOURCE_UNIT
    "explicit conversion currently requires the source expression to carry a resolved concrete unit"
    ("explicit units conversion to " +:+ quoted targetText +:+ " requires a resolved source concrete unit") no_details.

Definition diag_units_conversion_requires_floating (calleeName : option string) : UnitsDiag :=
  diag node UNITS_CONVERSION_REQUIRES_FLOATING
    "the first explicit conversion lane currently supports only floating scalar source expressions"
    ("explicit units conversion helper " +:+ quoted (text_or calleeName "fisics_convert_unit")
       +:+ " currently requires a floating scalar source expression") no_details.

Definition diag_units_return_dim_mismatch : FisicsDim8 -> FisicsDim8 -> UnitsDiag :=
  report_dim_mismatch UNITS_RETURN_DIM_MISMATCH "return value and declaration require identical dimensions" "return"
    "units return mismatch: expected " " but found ".

Definition diag_units_return_contract_mismatch : FisicsDim8 -> FisicsDim8 -> UnitsDiag :=
  report_dim_mismatch UNITS_RETURN_CONTRACT_MISMATCH "return value and declaration require identical dimensions" "return"
    "units return contract mismatch: expected " " but found ".

Definition diag_units_sqrt_unsupported (input : FisicsDim8) (unit : option FisicsUnitDef) (reason : string) : UnitsDiag :=
  diag node UNITS_SQRT_UNSUPPORTED "Dim8 keeps integer exponents; normalize units explicitly or use a representable quantity"
    ("units square root unsupported for " +:+ quoted (dim_text input) +:+ ": " +:+ reason)
    (mkDetails (Some input) None (Some "sqrt"%string) unit None).

Definition diag_units_math_argument_dim_mismatch (operation : string) (lhs rhs : FisicsDim8) : UnitsDiag :=
  diag node UNITS_MATH_ARGUMENT_DIM_MISMATCH "math arguments require matching dimensions; use an explicitly typed zero"
    ("units " +:+ operation +:+ " argument mismatch: first is " +:+ quoted (dim_text lhs) +:+ " but second is "
       +:+ quoted (dim_text rhs))
    (mkDetails (Some lhs) (Some rhs) (Some operation) None None).
End Reports.
