(* ===== verification/UnitsTables.v ===== *)
(** * The tables of the units extension (src/Extensions/extension_hooks.c, extension_units_view.c,
    extension_units_expr_table.c, extension_units_expr_bindings.c,
    extension_units_call_contracts.c, Units/units_decl_semantics.c).

    Tables are keyed by the addresses of nodes.  Annotations are referred to by their place in
    the table: they are all made while parsing, before any pass keeps a pointer to one.
    [xs_present] is whether the extension state was allocated.  Failed allocations and the dumps
    are left out, and so is the physical overlay, whose capture of calls is off. *)
From S2P Require Import Prelude StateError Tokens AST ParsedTypes Semantic UnitsDim UnitsRegistry UnitsParser UnitsDiag.

Record FisicsUnitsAnnotation := mkAnnotation {
  ann_node : ASTNode;
  ann_declaratorIndex : nat;
  ann_dimExprText : option (list ascii);
  ann_canonicalText : option (list ascii);
  ann_dim : FisicsDim8;
  ann_resolved : bool;
  ann_dimDuplicateCount : nat;
  ann_unitExprText : option (list ascii);
  ann_unitDef : option FisicsUnitDef;
  ann_unitResolved : bool;
  ann_unitDuplicateCount : nat
}.

(** The result of an expression; the key is its node. *)
Record FisicsUnitsExprResult := mkExprResult {
  er_node : NodeId;
  er_dim : FisicsDim8;
  er_resolved : bool;
  er_unitDef : option FisicsUnitDef;
  er_unitResolved : bool
}.

Record FisicsUnitsCallArgContract := mkContract {
  ct_callNode : NodeId;
  ct_argIndex : Z;
  ct_dim : FisicsDim8;
  ct_resolved : bool;
  ct_unitDef : option FisicsUnitDef;
  ct_unitResolved : bool
}.

Definition FISICS_UNITS_RETURN_CONTRACT_INDEX : Z := 2 ^ 64 - 1.

(** [bd_symbolType] is [None] when [hasSymbolType] is false. *)
Record FisicsUnitsExprBinding := mkBinding {
  bd_node : NodeId;
  bd_annotation : option nat;
  bd_symbolType : option ParsedType;
  bd_originNode : option NodeId;
  bd_functionDefinition : option NodeId;
  bd_initializer : option (DesignatedInit ASTNode)
}.

Inductive FisicsUnitsMathOperation : Set :=
  | FISICS_UNITS_MATH_NONE | FISICS_UNITS_MATH_SQRT | FISICS_UNITS_MATH_FABS | FISICS_UNITS_MATH_HYPOT
  | FISICS_UNITS_MATH_FMAX | FISICS_UNITS_MATH_EXPM1 | FISICS_UNITS_MATH_LOG | FISICS_UNITS_MATH_FMIN
  | FISICS_UNITS_MATH_ATAN2.

#[export] Instance FisicsUnitsMathOperation_eq_dec : EqDecision FisicsUnitsMathOperation.
Proof. solve_decision. Defined.

(** The extension state, the diagnostics, and what the passes read: the state of the semantic
    passes and whether the overlay is on.  [xs_aliases] are the static arrays of
    units_expr_semantics.c. *)
Record ExtState := mkExtState {
  xs_sem : SemState;
  xs_overlay : bool;
  xs_present : bool;
  xs_annotations : list FisicsUnitsAnnotation;
  xs_results : list FisicsUnitsExprResult;
  xs_bindings : list FisicsUnitsExprBinding;
  xs_mathCalls : list (NodeId * FisicsUnitsMathOperation);
  xs_contracts : list FisicsUnitsCallArgContract;
  xs_aliases : list (string * nat);
  xs_diagnostics : list UnitsDiag
}.

Abbreviation XM := (ST ExtState).

Definition with_annotations (st : ExtState) (l : list FisicsUnitsAnnotation) : ExtState :=
  mkExtState (xs_sem st) (xs_overlay st) true l (xs_results st) (xs_bindings st) (xs_mathCalls st) (xs_contracts st)
    (xs_aliases st) (xs_diagnostics st).
Definition with_results (st : ExtState) (l : list FisicsUnitsExprResult) : ExtState :=
  mkExtState (xs_sem st) (xs_overlay st) true (xs_annotations st) l (xs_bindings st) (xs_mathCalls st) (xs_contracts st)
    (xs_aliases st) (xs_diagnostics st).
Definition with_bindings (st : ExtState) (l : list FisicsUnitsExprBinding) : ExtState :=
  mkExtState (xs_sem st) (xs_overlay st) true (xs_annotations st) (xs_results st) l (xs_mathCalls st) (xs_contracts st)
    (xs_aliases st) (xs_diagnostics st).
Definition with_mathCalls (st : ExtState) (l : list (NodeId * FisicsUnitsMathOperation)) : ExtState :=
  mkExtState (xs_sem st) (xs_overlay st) true (xs_annotations st) (xs_results st) (xs_bindings st) l (xs_contracts st)
    (xs_aliases st) (xs_diagnostics st).
Definition with_contracts (st : ExtState) (l : list FisicsUnitsCallArgContract) : ExtState :=
  mkExtState (xs_sem st) (xs_overlay st) true (xs_annotations st) (xs_results st) (xs_bindings st) (xs_mathCalls st) l
    (xs_aliases st) (xs_diagnostics st).
Definition with_aliases (st : ExtState) (l : list (string * nat)) : ExtState :=
  mkExtState (xs_sem st) (xs_overlay st) (xs_present st) (xs_annotations st) (xs_results st) (xs_bindings st)
    (xs_mathCalls st) (xs_contracts st) l (xs_diagnostics st).
Definition with_diagnostics (st : ExtState) (l : list UnitsDiag) : ExtState :=
  mkExtState (xs_sem st) (xs_overlay st) (xs_present st) (xs_annotations st) (xs_results st) (xs_bindings st)
    (xs_mathCalls st) (xs_contracts st) (xs_aliases st) l.

Definition report (d : UnitsDiag) : XM unit :=
  modify (fun st => with_diagnostics st (compiler_report_units_diag (xs_diagnostics st) d)).

(** Changes the first entry that satisfies [p], or adds [new]. *)
Fixpoint upsert {A} (p : A -> bool) (f : A -> A) (new : A) (l : list A) : list A :=
  match l with
  | [] => [f new]
  | x :: rest => if p x then f x :: rest else x :: upsert p f new rest
  end.

(** ** Results of expressions *)

Definition has_result (id : NodeId) (r : FisicsUnitsExprResult) : bool := (er_node r =? id)%nat.

Definition fisics_extension_set_units_expr_result_with_unit (node : ASTNode) (d : FisicsDim8) (resolved : bool)
    (unitDef : option FisicsUnitDef) (unitResolved : bool) : XM unit :=
  let r := mkExprResult (an_id node) d resolved unitDef (unitResolved && bool_decide (is_Some unitDef)) in
  modify (fun st => with_results st (upsert (has_result (an_id node)) (fun _ => r) r (xs_results st))).

Definition fisics_extension_set_units_expr_result (node : ASTNode) (d : FisicsDim8) (resolved : bool) : XM unit :=
  fisics_extension_set_units_expr_result_with_unit node d resolved None false.

Definition fisics_extension_clear_units_expr_results : XM unit :=
  modify (fun st => if xs_present st then with_results st [] else st).

Definition lookup_result (st : ExtState) (id : NodeId) : option FisicsUnitsExprResult :=
  List.find (has_result id) (xs_results st).

Definition fisics_extension_lookup_units_expr_result (node : option ASTNode) : XM (option FisicsUnitsExprResult) :=
  let* st := get in ret (n ← node; lookup_result st (an_id n)).

Definition fisics_extension_units_expr_result_at (st : ExtState) (index : nat) : option FisicsUnitsExprResult :=
  xs_results st !! index.

Definition fisics_extension_units_expr_result_count (st : ExtState) : nat := length (xs_results st).

(** ** Annotations of declarations *)

Definition annotates (id : NodeId) (declaratorIndex : nat) (a : FisicsUnitsAnnotation) : bool :=
  (an_id (ann_node a) =? id)%nat && (ann_declaratorIndex a =? declaratorIndex)%nat.

Definition new_annotation (node : ASTNode) (declaratorIndex : nat) : FisicsUnitsAnnotation :=
  mkAnnotation node declaratorIndex None None fisics_dim_zero false 0 None None false 0.

(** [ensure_units_annotation], and then a change of the annotation. *)
Definition update_annotation (node : ASTNode) (declaratorIndex : nat) (f : FisicsUnitsAnnotation -> FisicsUnitsAnnotation)
    : XM unit :=
  modify (fun st => with_annotations st
    (upsert (annotates (an_id node) declaratorIndex) f (new_annotation node declaratorIndex) (xs_annotations st))).

Definition set_dim_text (text : list ascii) (a : FisicsUnitsAnnotation) : FisicsUnitsAnnotation :=
  let '(text, count) := match ann_dimExprText a with
                        | Some old => (old, S (ann_dimDuplicateCount a))
                        | None => (text, 1%nat)
                        end in
  mkAnnotation (ann_node a) (ann_declaratorIndex a) (Some text) (ann_canonicalText a) (ann_dim a) (ann_resolved a) count
    (ann_unitExprText a) (ann_unitDef a) (ann_unitResolved a) (ann_unitDuplicateCount a).

Definition set_unit_text (text : list ascii) (a : FisicsUnitsAnnotation) : FisicsUnitsAnnotation :=
  let '(text, count) := match ann_unitExprText a with
                        | Some old => (old, S (ann_unitDuplicateCount a))
                        | None => (text, 1%nat)
                        end in
  mkAnnotation (ann_node a) (ann_declaratorIndex a) (ann_dimExprText a) (ann_canonicalText a) (ann_dim a) (ann_resolved a)
    (ann_dimDuplicateCount a) (Some text) (ann_unitDef a) (ann_unitResolved a) count.

Definition note_units_dim_attr (node : ASTNode) (declaratorIndex : nat) (text : list ascii) : XM unit :=
  update_annotation node declaratorIndex (set_dim_text text).
Definition note_units_unit_attr (node : ASTNode) (declaratorIndex : nat) (text : list ascii) : XM unit :=
  update_annotation node declaratorIndex (set_unit_text text).

(** The number of attributes that were noted. *)
Definition note_units_attrs_from_list (node : ASTNode) (declaratorIndex : nat) (attrs : list ASTAttribute) : XM nat :=
  for_each (fun noted attr =>
    match fisics_units_dim_attribute_extract attr, fisics_units_unit_attribute_extract attr with
    | Some text, _ => let* _ := note_units_dim_attr node declaratorIndex text in ret (S noted)
    | None, Some text => let* _ := note_units_unit_attr node declaratorIndex text in ret (S noted)
    | None, None => ret noted
    end) 0%nat attrs.

Definition declarator_count (n : ASTNode) : nat :=
  match an_body n with AST_VARIABLE_DECLARATION d => length (vd_varNames d) | _ => 0 end.

Definition fisics_extension_note_units_prefix (node : ASTNode) (attrs : list ASTAttribute) : XM unit :=
  let slots := match an_body node with AST_VARIABLE_DECLARATION _ => declarator_count node | _ => 1%nat end in
  let* _ := for_each (fun _ i => note_units_attrs_from_list node i attrs) 0%nat (seq 0 slots) in ret tt.

(** [astVarDeclTypeAt]. *)
Definition astVarDeclTypeAt (d : VarDecl ASTNode) (index : nat) : ParsedType :=
  match vd_declaredTypes d with
  | Some types => if (index <? length (vd_varNames d))%nat then default (vd_declaredType d) (types !! index) else vd_declaredType d
  | None => vd_declaredType d
  end.

Definition fisics_extension_note_declaration (node : ASTNode) : XM unit :=
  match an_body node with
  | AST_VARIABLE_DECLARATION d =>
      let* _ := for_each (fun _ i =>
        match pt_attributes (astVarDeclTypeAt d i), vd_declaredTypes d with
        | (_ :: _) as attrs, _ => note_units_attrs_from_list node i attrs
        | [], None => note_units_attrs_from_list node i (an_attributes node)
        | [], Some _ => ret 0%nat
        end) 0%nat (seq 0 (declarator_count node)) in ret tt
  | body =>
      let* noted := note_units_attrs_from_list node 0 (an_attributes node) in
      match noted, body with
      | O, AST_FUNCTION_DECLARATION returnType _ _ _ _ | O, AST_FUNCTION_DEFINITION returnType _ _ _ _ _ =>
          let* _ := note_units_attrs_from_list node 0 (pt_attributes returnType) in ret tt
      | _, _ => ret tt
      end
  end.

(** *** Their resolution *)

Definition text_string (text : list ascii) : string := string_of_list_ascii text.

(** The dimension and its canonical text. *)
Definition fisics_units_resolve_annotation (node : ASTNode) (exprText : list ascii) (overlayEnabled : bool)
    : XM (FisicsDim8 * list ascii) :=
  if negb overlayEnabled then let* _ := report (diag_units_disabled (Some node) (Some (text_string exprText))) in fail
  else
    match fisics_units_parse_dim_expr exprText with
    | Returned d => ret (d, fisics_dim_to_string d)
    | Failed detail => let* _ := report (diag_invalid_units_expr (Some node) (Some (text_string exprText)) detail) in fail
    | Undefined => stuck
    end.

Definition fisics_units_resolve_unit_annotation (node : ASTNode) (unitText : list ascii) (overlayEnabled hasResolvedDim : bool)
    (declDim : FisicsDim8) : XM FisicsUnitDef :=
  let text := Some (text_string unitText) in
  if negb overlayEnabled then let* _ := report (diag_units_disabled (Some node) text) in fail
  else if negb hasResolvedDim then let* _ := report (diag_unit_requires_dim (Some node) text) in fail
  else
    match fisics_unit_lookup (text_string unitText) with
    | None =>
        let* _ := report (diag_invalid_unit_attr (Some node) text
          "unknown concrete unit; Phase 7 currently accepts only seeded registry entries") in fail
    | Some unit =>
        if fisics_dim_equal (dim unit) declDim then ret unit
        else let* _ := report (diag_unit_dim_mismatch (Some node) text declDim (dim unit)) in fail
    end.

(** The name a diagnostic about an annotation points at. *)
Definition diagnostic_owner (a : FisicsUnitsAnnotation) : ASTNode :=
  match an_body (ann_node a) with
  | AST_VARIABLE_DECLARATION d =>
      if (1 <? length (vd_varNames d))%nat then
        match vd_varNames d !! ann_declaratorIndex a with Some (Some name) => name | _ => ann_node a end
      else ann_node a
  | _ => ann_node a
  end.

Definition resolve_one (overlayEnabled : bool) (a : FisicsUnitsAnnotation) : XM FisicsUnitsAnnotation :=
  let owner := diagnostic_owner a in
  let* _ := (if (1 <? ann_dimDuplicateCount a)%nat then report (diag_duplicate_units_attr (Some owner)) else ret tt) in
  let* _ := (if (1 <? ann_unitDuplicateCount a)%nat then report (diag_duplicate_unit_attr (Some owner)) else ret tt) in
  let* resolved := match ann_dimExprText a with
                   | Some text => if (ann_dimDuplicateCount a <=? 1)%nat
                                  then attempt (fisics_units_resolve_annotation owner text overlayEnabled) else ret None
                   | None => ret None
                   end in
  let '(d, canonical) := match resolved with Some (d, text) => (d, Some text) | None => (ann_dim a, None) end in
  let* unit := match ann_unitExprText a with
               | Some text => if (ann_unitDuplicateCount a <=? 1)%nat
                              then attempt (fisics_units_resolve_unit_annotation owner text overlayEnabled
                                              (bool_decide (is_Some resolved)) d) else ret None
               | None => ret None
               end in
  ret (mkAnnotation (ann_node a) (ann_declaratorIndex a) (ann_dimExprText a) canonical d (bool_decide (is_Some resolved))
         (ann_dimDuplicateCount a) (ann_unitExprText a) unit (bool_decide (is_Some unit)) (ann_unitDuplicateCount a)).

Definition run_units_decl_scaffold : XM unit :=
  let* st := get in
  if negb (xs_present st) then ret tt
  else
    let* resolved := for_each (fun done a => let* a := resolve_one (xs_overlay st) a in ret (done ++ [a])) [] (xs_annotations st) in
    modify (fun st => with_annotations st resolved).

(** *** Lookup *)

Definition annotation_at (st : ExtState) (i : nat) : option FisicsUnitsAnnotation := xs_annotations st !! i.

(** The place of the first annotation of a declarator. *)
Definition fisics_extension_lookup_units_declarator_annotation (st : ExtState) (owner : option ASTNode) (declaratorIndex : nat)
    : option nat :=
  n ← owner; fst <$> list_find (fun a => annotates (an_id n) declaratorIndex a = true) (xs_annotations st).

Definition fisics_extension_lookup_units_annotation (st : ExtState) (owner : option ASTNode) : option nat :=
  fisics_extension_lookup_units_declarator_annotation st owner 0.

Definition fisics_extension_units_annotation_at (st : ExtState) (index : nat) : option FisicsUnitsAnnotation :=
  annotation_at st index.

Definition fisics_extension_units_annotation_count (st : ExtState) : nat := length (xs_annotations st).
Definition fisics_extension_units_resolved_count (st : ExtState) : nat := count_if ann_resolved (xs_annotations st).

(** ** Bindings of names and accesses *)

Definition binds (id : NodeId) (b : FisicsUnitsExprBinding) : bool := (bd_node b =? id)%nat.
Definition new_binding (id : NodeId) : FisicsUnitsExprBinding := mkBinding id None None None None None.

Definition update_binding (id : NodeId) (f : FisicsUnitsExprBinding -> FisicsUnitsExprBinding) : XM unit :=
  modify (fun st => with_bindings st (upsert (binds id) f (new_binding id) (xs_bindings st))).

Definition fisics_extension_note_units_annotation_binding (node : ASTNode) (annotation : nat) : XM unit :=
  update_binding (an_id node) (fun b =>
    mkBinding (bd_node b) (Some annotation) (bd_symbolType b) (bd_originNode b) (bd_functionDefinition b) (bd_initializer b)).

(** The declared name of the symbol in its definition. *)
Definition origin_of (s : Symbol) (definition : option ASTNode) : option NodeId :=
  match definition with
  | Some n =>
      match an_body n with
      | AST_VARIABLE_DECLARATION d =>
          match List.find (fun ident => bool_decide ((i ← ident; node_value i) = Some (sym_name s))) (vd_varNames d) with
          | Some (Some ident) => Some (an_id ident)
          | _ => Some (an_id n)
          end
      | _ => Some (an_id n)
      end
  | None => None
  end.

Definition units_expr_binding_replace_symbol_snapshot (s : Symbol) (definition : option ASTNode) (b : FisicsUnitsExprBinding)
    : FisicsUnitsExprBinding :=
  mkBinding (bd_node b) (bd_annotation b) (Some (parsedTypeClone (sym_type s))) (origin_of s definition)
    (if decide (sym_kind s = SYMBOL_FUNCTION) then sym_definition s else None) (sym_initializer s).

Definition definition_node (st : ExtState) (s : Symbol) : option ASTNode :=
  id ← sym_definition s; ss_nodes (xs_sem st) !! id.

(** Nothing is noted before the extension state exists. *)
Definition fisics_extension_note_units_symbol_binding (node : ASTNode) (s : Symbol) : XM unit :=
  let* st := get in
  if negb (xs_present st) then ret tt
  else
    let snapshot b := units_expr_binding_replace_symbol_snapshot s (definition_node st s)
      (mkBinding (bd_node b) (sym_unitsAnnotation s) (bd_symbolType b) (bd_originNode b) (bd_functionDefinition b)
         (bd_initializer b)) in
    update_binding (an_id node) snapshot.

Definition binding_of (st : ExtState) (node : option ASTNode) : option FisicsUnitsExprBinding :=
  n ← node; List.find (binds (an_id n)) (xs_bindings st).

Definition fisics_extension_lookup_units_annotation_binding (st : ExtState) (node : option ASTNode) : option nat :=
  b ← binding_of st node; bd_annotation b.
Definition fisics_extension_lookup_units_symbol_type_binding (st : ExtState) (node : option ASTNode) : option ParsedType :=
  b ← binding_of st node; bd_symbolType b.
Definition fisics_extension_lookup_units_symbol_initializer_binding (st : ExtState) (node : option ASTNode)
    : option (DesignatedInit ASTNode) :=
  b ← binding_of st node; bd_initializer b.
Definition fisics_extension_lookup_units_function_binding (st : ExtState) (node : option ASTNode) : option NodeId :=
  b ← binding_of st node; bd_functionDefinition b.
Definition fisics_units_lookup_origin (st : ExtState) (node : option ASTNode) : option NodeId :=
  b ← binding_of st node; bd_originNode b.

Definition fisics_extension_note_units_type_binding (node : ASTNode) (type : ParsedType) : XM unit :=
  let clone := parsedTypeClone type in
  update_binding (an_id node) (fun b =>
    mkBinding (bd_node b) (bd_annotation b) (if decide (pt_kind clone = TYPE_INVALID) then None else Some clone)
      (bd_originNode b) (bd_functionDefinition b) (bd_initializer b)).

(** Only a node that is bound already gets an origin. *)
Definition fisics_units_note_origin (node : ASTNode) (origin : option NodeId) : XM unit :=
  let* st := get in
  match origin, binding_of st (Some node) with
  | Some o, Some _ =>
      update_binding (an_id node) (fun b =>
        mkBinding (bd_node b) (bd_annotation b) (bd_symbolType b) (Some o) (bd_functionDefinition b) (bd_initializer b))
  | _, _ => ret tt
  end.

(** ** Contracts of calls *)

(** Dimension, whether it is resolved, and the unit when that is. *)
Record TypeContract := mkTypeContract {
  tc_dim : FisicsDim8;
  tc_resolved : bool;
  tc_unitDef : option FisicsUnitDef
}.

Definition collect_contract (acc : option (option FisicsDim8 * option FisicsUnitDef)) (attr : ASTAttribute)
    : option (option FisicsDim8 * option FisicsUnitDef) :=
  '(d, unit) ← acc;
  match d, fisics_units_dim_attribute_extract attr with
  | None, Some text =>
      match fisics_units_parse_dim_expr text with
      | Returned d => Some (Some d, unit)
      | Failed _ => Some (None, unit)
      | Undefined => None
      end
  | _, _ =>
      match unit, fisics_units_unit_attribute_extract attr with
      | None, Some text => Some (d, fisics_unit_lookup (text_string text))
      | _, _ => Some (d, unit)
      end
  end.

(** [None]: no attribute says anything, the result stays zeroed.  The outer [None] is undefined. *)
Definition fisics_units_parse_type_contract (type : option ParsedType) : option (option TypeContract) :=
  match type with
  | None => Some None
  | Some t =>
      '(d, unit) ← foldl collect_contract (Some (None, None)) (pt_attributes t);
      Some (match d, unit with
            | None, None => None
            | None, Some u => Some (mkTypeContract (dim u) true (Some u))
            | Some d, None => Some (mkTypeContract d true None)
            | Some d, Some u => Some (mkTypeContract d true (if fisics_dim_equal d (dim u) then Some u else None))
            end)
  end.

Definition is_contract (callNode : NodeId) (argIndex : Z) (c : FisicsUnitsCallArgContract) : bool :=
  (ct_callNode c =? callNode)%nat && (ct_argIndex c =? argIndex).

Definition fisics_extension_note_units_call_arg_contract_from_param_type (callNode : ASTNode) (argIndex : Z) (type : ParsedType)
    : XM unit :=
  let* contract := lift (fisics_units_parse_type_contract (Some type)) in
  match contract with
  | None => fail
  | Some c =>
      let new := mkContract (an_id callNode) argIndex (tc_dim c) (tc_resolved c) (tc_unitDef c)
                   (bool_decide (is_Some (tc_unitDef c))) in
      modify (fun st => with_contracts st
        (upsert (is_contract (an_id callNode) argIndex) (fun _ => new) new (xs_contracts st)))
  end.

Definition fisics_extension_lookup_units_call_arg_contract (st : ExtState) (callNode : ASTNode) (argIndex : Z)
    : option FisicsUnitsCallArgContract :=
  List.find (is_contract (an_id callNode) argIndex) (xs_contracts st).

(** Unit pointers are equal. *)
Definition same_unit (a b : option FisicsUnitDef) : bool :=
  match a, b with
  | Some a, Some b => String.eqb (name a) (name b)
  | None, None => true
  | _, _ => false
  end.

Definition fisics_units_return_contracts_compatible (a b : option ParsedType) : option bool :=
  ca ← fisics_units_parse_type_contract a;
  cb ← fisics_units_parse_type_contract b;
  Some (match ca, cb with
        | Some ca, Some cb =>
            fisics_dim_equal (tc_dim ca) (tc_dim cb) &&
            match tc_unitDef ca, tc_unitDef cb with Some u, Some v => same_unit (Some u) (Some v) | _, _ => true end
        | _, _ => true
        end).
