(* ===== verification/UnitsMath.v ===== *)
(** * Units of literals, accesses and math calls (src/Extensions/Units/units_literal_semantics.c,
    units_access_semantics.c, units_math_semantics.c). *)
From S2P Require Import Prelude StateError Tokens AST ParsedTypes Semantic UnitsDim UnitsRegistry UnitsParser UnitsDiag UnitsTables.

(** ** Literals *)

Definition op_is (op : option string) (s : string) : bool := bool_decide (op = Some s).
Definition op_in (op : option string) (l : list string) : bool := existsb (op_is op) l.

(** [budget]: 65 less the depth. *)
Fixpoint literal_value (budget : nat) (node : option ASTNode) : bool :=
  match budget, node with
  | S budget, Some n =>
      match an_body n with
      | AST_NUMBER_LITERAL _ | AST_CHAR_LITERAL _ => true
      | AST_CAST_EXPRESSION _ e => literal_value budget e
      | AST_UNARY_EXPRESSION op e _ => op_in op ["+"; "-"; "~"; "!"] && literal_value budget e
      | AST_BINARY_EXPRESSION _ l r => literal_value budget l && literal_value budget r
      | AST_TERNARY_EXPRESSION c t f => literal_value budget c && literal_value budget t && literal_value budget f
      | _ => false
      end
  | _, _ => false
  end.

Definition fisics_units_is_literal_value (node : option ASTNode) : bool := literal_value 65 node.

(** ** Accesses *)

Definition fisics_units_capture_access_type (node : ASTNode) (type : ParsedType) : XM unit :=
  let* st := get in
  if negb (xs_overlay st) then ret tt
  else
    let* _ := fisics_extension_note_units_type_binding node type in
    let* st := get in
    match an_body node with
    | AST_ARRAY_ACCESS array _ => fisics_units_note_origin node (fisics_units_lookup_origin st array)
    | AST_POINTER_DEREFERENCE pointer => fisics_units_note_origin node (fisics_units_lookup_origin st pointer)
    | _ => ret tt
    end.

Definition fisics_units_record_access_result (node : ASTNode) : XM unit :=
  let* st := get in
  let* contract := lift (fisics_units_parse_type_contract (fisics_extension_lookup_units_symbol_type_binding st (Some node))) in
  match contract with
  | Some c =>
      if tc_resolved c
      then fisics_extension_set_units_expr_result_with_unit node (tc_dim c) true (tc_unitDef c)
             (bool_decide (is_Some (tc_unitDef c)))
      else ret tt
  | None => ret tt
  end.

(** ** Which calls are math calls *)

Record FisicsInclude := mkInclude {
  inc_name : option string;
  inc_resolved : bool;
  inc_resolved_path : option string;
  inc_system : bool
}.

Definition is_math_header_declaration (includes : list FisicsInclude) (definition : option ASTNode) : bool :=
  match definition with
  | Some n =>
      match an_body n with
      | AST_FUNCTION_DECLARATION _ funcName _ _ _ =>
          let file := match (f ← funcName; loc_file (range_start (an_location f))) with
                      | Some file => Some file
                      | None => loc_file (range_start (an_location n))
                      end in
          let system := List.filter (fun i => inc_resolved i && inc_system i) includes in
          match file with
          | Some file => existsb (fun i => bool_decide (inc_name i = Some "math.h"%string)) system &&
                         existsb (fun i => bool_decide (inc_resolved_path i = Some file)) system
          | None => false
          end
      | _ => false
      end
  | None => false
  end.

Definition is_virtual_math_wrapper (definition : option ASTNode) : bool :=
  match definition with
  | Some n => match an_body n with
              | AST_FUNCTION_DEFINITION _ _ _ _ _ _ =>
                  bool_decide (loc_file (range_start (an_location n)) = Some "<fisics>/tgmath.h"%string)
              | _ => false
              end
  | None => false
  end.

Definition math_rules : list (string * FisicsUnitsMathOperation * nat) :=
  [("sqrt", FISICS_UNITS_MATH_SQRT, 1); ("fabs", FISICS_UNITS_MATH_FABS, 1); ("hypot", FISICS_UNITS_MATH_HYPOT, 2);
   ("fmax", FISICS_UNITS_MATH_FMAX, 2); ("expm1", FISICS_UNITS_MATH_EXPM1, 1); ("log", FISICS_UNITS_MATH_LOG, 1);
   ("fmin", FISICS_UNITS_MATH_FMIN, 2); ("atan2", FISICS_UNITS_MATH_ATAN2, 2)]%string%nat.

Definition after_prefix (prefix s : string) : option string :=
  if String.prefix prefix s then Some (String.substring (String.length prefix) (String.length s) s) else None.

(** A real floating type of the given width. *)
Definition real_floating (primitive : TokenType) (extended : bool) (t : ParsedType) : bool :=
  bool_decide (pt_kind t = TYPE_PRIMITIVE) && bool_decide (pt_primitiveType t = primitive) &&
  eqb (isLong (pt_modifiers t)) extended && (pt_pointerDepth t =? 0) && negb (parsedTypeIsDirectArray t) &&
  negb (pt_isFunctionPointer t) && negb (isComplex (pt_modifiers t)) && negb (isImaginary (pt_modifiers t)).

Definition is_sqrt_or_fabs (op : FisicsUnitsMathOperation) : bool :=
  bool_decide (op = FISICS_UNITS_MATH_SQRT) || bool_decide (op = FISICS_UNITS_MATH_FABS).

(** The operations behind [FABS], [HYPOT] and [FMAX] in the enumeration. *)
Definition from_expm1 (op : FisicsUnitsMathOperation) : bool :=
  match op with
  | FISICS_UNITS_MATH_EXPM1 | FISICS_UNITS_MATH_LOG | FISICS_UNITS_MATH_FMIN | FISICS_UNITS_MATH_ATAN2 => true
  | _ => false
  end.

(** Whether a rule is the trusted meaning of a call. *)
Definition rule_applies (includes : list FisicsInclude) (argumentCount : nat) (callee : Symbol) (definition : option ASTNode)
    (rule : string * FisicsUnitsMathOperation * nat) : bool :=
  let '(rule_name, op, arity) := rule in
  let '(generic, builtin, base) :=
    match after_prefix "__fisics_tg_" (sym_name callee), after_prefix "__builtin_" (sym_name callee) with
    | Some base, _ => (true, false, base)
    | None, Some base => (false, true, base)
    | None, None => (false, false, sym_name callee)
    end in
  match after_prefix rule_name base with
  | None => false
  | Some suffix =>
      let long := bool_decide (suffix = "l"%string) in
      let float := bool_decide (suffix = "f"%string) in
      let spelling := bool_decide (suffix = ""%string) || (negb generic && (float || long)) in
      let seededGeneric := bool_decide (sym_definition callee = None) && is_sqrt_or_fabs op in
      let trusted := if generic then seededGeneric || is_virtual_math_wrapper definition
                     else if builtin then bool_decide (op = FISICS_UNITS_MATH_FABS) && bool_decide (sym_definition callee = None)
                     else is_math_header_declaration includes definition in
      let sig := sym_signature callee in
      let signature := (generic && seededGeneric) ||
                       (hasPrototype sig && negb (isVariadic sig) && bool_decide (length (params sig) = arity)) in
      let exact := from_expm1 op ||
                   (negb generic && (bool_decide (op = FISICS_UNITS_MATH_SQRT) || bool_decide (op = FISICS_UNITS_MATH_HYPOT))) in
      let prim := if String.prefix "f" suffix then TOKEN_FLOAT else TOKEN_DOUBLE in
      let extended := String.prefix "l" suffix in
      let signature :=
        if exact then
          signature && negb generic &&
          match definition with
          | Some n => match an_body n with
                      | AST_FUNCTION_DECLARATION result _ _ _ _ => real_floating prim extended result
                      | _ => false
                      end
          | None => false
          end && forallb (real_floating prim extended) (take arity (params sig))
        else signature in
      spelling && bool_decide (argumentCount = arity) && trusted && signature
  end.

Definition math_operation (includes : list FisicsInclude) (argumentCount : nat) (callee : Symbol) (definition : option ASTNode)
    : FisicsUnitsMathOperation :=
  foldl (fun op rule => if rule_applies includes argumentCount callee definition rule then rule.1.2 else op)
    FISICS_UNITS_MATH_NONE math_rules.

Definition fisics_units_note_math_call (includes : list FisicsInclude) (call : ASTNode) (arguments : list (option ASTNode))
    (callee : Symbol) (realArguments : bool) : XM unit :=
  let* st := get in
  if negb (xs_overlay st) || negb (bool_decide (sym_kind callee = SYMBOL_FUNCTION)) || negb realArguments then ret tt
  else
    let op := math_operation includes (length arguments) callee (definition_node st callee) in
    if decide (op = FISICS_UNITS_MATH_NONE) then ret tt
    else if existsb (fun c => (c.1 =? an_id call)%nat) (xs_mathCalls st) then ret tt
    else modify (fun st => with_mathCalls st (xs_mathCalls st ++ [(an_id call, op)])).

Definition fisics_units_math_operation (st : ExtState) (call : ASTNode) : FisicsUnitsMathOperation :=
  match List.find (fun c => (c.1 =? an_id call)%nat) (xs_mathCalls st) with
  | Some (_, op) => op
  | None => FISICS_UNITS_MATH_NONE
  end.

(** ** Their results *)

Definition sqrt_roots : list (string * string) :=
  [("square_meter", "meter"); ("square_millimeter", "millimeter"); ("square_centimeter", "centimeter");
   ("meter_to_fourth", "square_meter"); ("millimeter_to_fourth", "square_millimeter");
   ("centimeter_to_fourth", "square_centimeter")]%string.

Definition sqrt_unit (source : FisicsUnitDef) (resultDim : FisicsDim8) : option FisicsUnitDef :=
  snd <$> list_find (fun u => fisics_dim_equal (dim u) resultDim = true)
    (omap (fun root => if String.eqb (name source) root.1 then fisics_unit_lookup root.2 else None) sqrt_roots).

Definition resolved_unit (r : FisicsUnitsExprResult) : option FisicsUnitDef :=
  if er_unitResolved r then er_unitDef r else None.

(** Both units are known and differ. *)
Definition units_differ (a b : option FisicsUnitDef) : bool :=
  match a, b with Some a, Some b => negb (String.eqb (name a) (name b)) | _, _ => false end.

(** The second argument, when its dimension is resolved. *)
Definition resolved_argument (arguments : list (option ASTNode)) (i : nat) : XM (option FisicsUnitsExprResult) :=
  let* a := lift (arguments !! i) in
  let* r := fisics_extension_lookup_units_expr_result a in
  ret (match r with Some r => if er_resolved r then Some r else None | None => None end).

Definition set_result (node : ASTNode) (d : FisicsDim8) (u : option FisicsUnitDef) : XM unit :=
  fisics_extension_set_units_expr_result_with_unit node d true u (bool_decide (is_Some u)).

Definition math_name (op : FisicsUnitsMathOperation) : string :=
  match op with
  | FISICS_UNITS_MATH_EXPM1 => "expm1"
  | FISICS_UNITS_MATH_LOG => "log"
  | FISICS_UNITS_MATH_ATAN2 => "atan2"
  | FISICS_UNITS_MATH_HYPOT => "hypot"
  | FISICS_UNITS_MATH_FMIN => "fmin"
  | _ => "fmax"
  end.

Definition record_dimensionless_math (op : FisicsUnitsMathOperation) (call : ASTNode) (arg : FisicsUnitsExprResult) : XM unit :=
  if fisics_dim_equal (er_dim arg) fisics_dim_zero then set_result call fisics_dim_zero None
  else report (diag_units_math_argument_dim_mismatch (Some call) (math_name op) fisics_dim_zero (er_dim arg)).

(** The checks on the two arguments of [atan2], [hypot], [fmax] and [fmin]; then [k] with both. *)
Definition matching_arguments (op : FisicsUnitsMathOperation) (call : ASTNode) (arguments : list (option ASTNode))
    (arg : FisicsUnitsExprResult) (k : FisicsUnitsExprResult -> XM unit) : XM unit :=
  let* rhs := resolved_argument arguments 1 in
  match rhs with
  | None => ret tt
  | Some rhs =>
      if negb (fisics_dim_equal (er_dim arg) (er_dim rhs)) then
        report (diag_units_math_argument_dim_mismatch (Some call) (math_name op) (er_dim arg) (er_dim rhs))
      else if units_differ (resolved_unit arg) (resolved_unit rhs) then
        report (diag_units_implicit_unit_conversion (Some call) (math_name op) (resolved_unit arg) (resolved_unit rhs))
      else k rhs
  end.

Definition record_sqrt (call : ASTNode) (arg : FisicsUnitsExprResult) : XM unit :=
  if existsb (fun e => negb (Z.rem e 2 =? 0)) (er_dim arg) then
    report (diag_units_sqrt_unsupported (Some call) (er_dim arg) None
      "square root requires even exponents on every dimension axis")
  else
    let resultDim := map (fun e => Z.quot e 2) (er_dim arg) in
    match resolved_unit arg with
    | Some u =>
        match sqrt_unit u resultDim with
        | Some root => set_result call resultDim (Some root)
        | None => report (diag_units_sqrt_unsupported (Some call) (er_dim arg) (Some u)
                    "square root of this concrete unit has no supported registry mapping")
        end
    | None => set_result call resultDim None
    end.

(** Whether the call is a recognised math call. *)
Definition fisics_units_record_math_result (call : ASTNode) (arguments : list (option ASTNode)) : XM bool :=
  let* st := get in
  let op := fisics_units_math_operation st call in
  if decide (op = FISICS_UNITS_MATH_NONE) then ret false
  else
    let* arg := resolved_argument arguments 0 in
    let* _ := match arg with
              | None => ret tt
              | Some arg =>
                  match op with
                  | FISICS_UNITS_MATH_EXPM1 | FISICS_UNITS_MATH_LOG => record_dimensionless_math op call arg
                  | FISICS_UNITS_MATH_ATAN2 =>
                      matching_arguments op call arguments arg (fun _ => set_result call fisics_dim_zero None)
                  | FISICS_UNITS_MATH_SQRT => record_sqrt call arg
                  | FISICS_UNITS_MATH_FABS => set_result call (er_dim arg) (resolved_unit arg)
                  | _ => matching_arguments op call arguments arg (fun rhs =>
                           set_result call (er_dim arg)
                             (match resolved_unit rhs with Some _ => resolved_unit arg | None => None end))
                  end
              end in
    ret true.
