(* ===== verification/UnitsExpr.v ===== *)
(** * Units of expressions (src/Extensions/Units/units_expr_semantics.c, units_initializer_semantics.c,
    units_call_semantics.c, units_return_semantics.c).

    The pass visits the tree once, children first, and keeps a result per node in the table of
    the extension.  Where a pointer to an annotation is NULL the place is [None].  [undefined]
    reads of the code are [stuck].  Fuel bounds the depth of the tree. *)
From S2P Require Import Prelude StateError Tokens TargetLayout AST ParsedTypes TypeInfo Semantic TypeChecker.
From S2P Require Import UnitsDim UnitsRegistry UnitsParser UnitsDiag UnitsTables UnitsMath.

(** ** What is known of an expression *)

(** Dimension, unit and whether the unit is resolved, of a result whose dimension is resolved. *)
Definition lookup_resolved_expr_metadata (node : option ASTNode) : XM (option FisicsUnitsExprResult) :=
  let* r := fisics_extension_lookup_units_expr_result node in
  ret (match r with Some r => if er_resolved r then Some r else None | None => None end).

Definition record_result (node : ASTNode) (d : FisicsDim8) (u : option FisicsUnitDef) (unitResolved : bool) : XM unit :=
  fisics_extension_set_units_expr_result_with_unit node d true u unitResolved.

(** The result of [from] becomes the one of [node]. *)
Definition copy_result (node : ASTNode) (from : option ASTNode) : XM unit :=
  let* r := lookup_resolved_expr_metadata from in
  match r with
  | None => ret tt
  | Some r => record_result node (er_dim r) (er_unitDef r) (er_unitResolved r)
  end.

Definition record_dimensionless_literal (node : ASTNode) : XM unit :=
  fisics_extension_set_units_expr_result node fisics_dim_zero true.

(** The annotation gives a dimension. *)
Definition annotation_usable (a : FisicsUnitsAnnotation) : bool := ann_resolved a && (ann_dimDuplicateCount a <=? 1)%nat.

Definition annotation_unit (a : FisicsUnitsAnnotation) : option FisicsUnitDef :=
  if ann_unitResolved a then ann_unitDef a else None.

Definition usable_annotation (st : ExtState) (place : option nat) : option FisicsUnitsAnnotation :=
  i ← place; a ← annotation_at st i; if annotation_usable a then Some a else None.

Definition record_identifier_result (node : ASTNode) : XM unit :=
  let* st := get in
  match usable_annotation st (fisics_extension_lookup_units_annotation_binding st (Some node)) with
  | None => ret tt
  | Some a => record_result node (ann_dim a) (annotation_unit a) (ann_unitResolved a)
  end.

Definition is_units_preserving_unary_op (op : option string) : bool := op_in op ["+"; "-"; "++"; "--"].
Definition is_units_add_sub_op (op : option string) : bool := op_in op ["+"; "-"].
Definition is_units_mul_div_op (op : option string) : bool := op_in op ["*"; "/"].
Definition is_units_comparison_op (op : option string) : bool := op_in op ["=="; "!="; "<"; "<="; ">"; ">="].

Definition compound_assignment_base_op (op : option string) : option string :=
  if op_is op "+=" then Some "+" else if op_is op "-=" then Some "-"
  else if op_is op "*=" then Some "*" else if op_is op "/=" then Some "/" else None.

Definition maybe_record_unary_result (node : ASTNode) (op : option string) (operand : option ASTNode) : XM unit :=
  if is_units_preserving_unary_op op then copy_result node operand else ret tt.

Definition maybe_record_cast_result (node : ASTNode) (e : option ASTNode) : XM unit := copy_result node e.

Definition maybe_record_comma_result (node : ASTNode) (es : list (option ASTNode)) : XM unit :=
  match last es with Some tail => copy_result node tail | None => ret tt end.

(** The units of two results are resolved and differ. *)
Definition units_resolved_and_different (l r : FisicsUnitsExprResult) : bool :=
  units_differ (resolved_unit l) (resolved_unit r).

(** [record_result] after two operands that agree. *)
Definition record_common (node : ASTNode) (l r : FisicsUnitsExprResult) : XM unit :=
  record_result node (er_dim l) (resolved_unit l) (er_unitResolved l && same_unit (er_unitDef l) (er_unitDef r)).

Definition explicit_conversion_context_for_binary (op : option string) : string :=
  if op_is op "+" then "addition" else if op_is op "-" then "subtraction"
  else if is_units_comparison_op op then "comparison" else "expression".

Definition maybe_report_binary_mismatch (node : ASTNode) (op : option string) (leftDim rightDim : FisicsDim8) : XM unit :=
  if negb (is_units_add_sub_op op) || fisics_dim_equal leftDim rightDim then ret tt
  else if op_is op "+" then report (diag_units_add_dim_mismatch (Some node) leftDim rightDim)
  else report (diag_units_sub_dim_mismatch (Some node) leftDim rightDim).

Definition record_add_sub (node : ASTNode) (op : option string) (l r : FisicsUnitsExprResult) : XM unit :=
  if negb (fisics_dim_equal (er_dim l) (er_dim r)) then maybe_report_binary_mismatch node op (er_dim l) (er_dim r)
  else if units_resolved_and_different l r then
    report (diag_units_implicit_unit_conversion (Some node) (explicit_conversion_context_for_binary op)
              (er_unitDef r) (er_unitDef l))
  else record_common node l r.

(** [outUnit] and [outUnitResolved] of a product or quotient: the unit of a factor when the other
    has no dimension. *)
Definition scaled_unit (times : bool) (l r : FisicsUnitsExprResult) : option FisicsUnitDef * bool :=
  if times && fisics_dim_is_dimensionless (er_dim l) && er_unitResolved r then (er_unitDef r, true)
  else if fisics_dim_is_dimensionless (er_dim r) && er_unitResolved l then (er_unitDef l, true)
  else (None, false).

Definition record_mul_div (node : ASTNode) (op : option string) (l r : FisicsUnitsExprResult) : XM unit :=
  let times := op_is op "*" in
  match (if times then fisics_dim_add (er_dim l) (er_dim r) else fisics_dim_sub (er_dim l) (er_dim r)) with
  | None => report (diag_units_exponent_overflow (Some node) op (er_dim l) (er_dim r))
  | Some d => record_result node d (scaled_unit times l r).1 (scaled_unit times l r).2
  end.

Definition record_comparison (node : ASTNode) (op : option string) (l r : FisicsUnitsExprResult) : XM unit :=
  if negb (fisics_dim_equal (er_dim l) (er_dim r)) then
    report (diag_units_compare_dim_mismatch (Some node) (er_dim l) (er_dim r))
  else if units_resolved_and_different l r then
    report (diag_units_implicit_unit_conversion (Some node) (explicit_conversion_context_for_binary op)
              (er_unitDef r) (er_unitDef l))
  else fisics_extension_set_units_expr_result node fisics_dim_zero true.

Definition maybe_record_binary_result (node : ASTNode) (op : option string) (left right : option ASTNode) : XM unit :=
  let* l := lookup_resolved_expr_metadata left in
  let* r := lookup_resolved_expr_metadata right in
  match l, r with
  | Some l, Some r =>
      if is_units_add_sub_op op then record_add_sub node op l r
      else if is_units_mul_div_op op then record_mul_div node op l r
      else if is_units_comparison_op op then record_comparison node op l r
      else ret tt
  | _, _ => ret tt
  end.

Definition maybe_record_ternary_result (node : ASTNode) (trueExpr falseExpr : option ASTNode) : XM unit :=
  let* t := lookup_resolved_expr_metadata trueExpr in
  let* f := lookup_resolved_expr_metadata falseExpr in
  match t, f with
  | Some t, Some f =>
      if negb (fisics_dim_equal (er_dim t) (er_dim f)) then
        report (diag_units_ternary_dim_mismatch (Some node) (er_dim t) (er_dim f))
      else if units_resolved_and_different t f then
        report (diag_units_implicit_unit_conversion (Some node) "ternary result" (er_unitDef f) (er_unitDef t))
      else record_common node t f
  | _, _ => ret tt
  end.

(** ** Calls of functions with a body *)

(** The result all returns agree on so far, and whether two differ. *)
Record ReturnUnits := mkReturnUnits {
  ru_found : option FisicsUnitsExprResult;
  ru_conflict : bool
}.

Definition returns_conflict (first r : FisicsUnitsExprResult) : bool :=
  negb (fisics_dim_equal (er_dim first) (er_dim r)) || negb (eqb (er_unitResolved first) (er_unitResolved r))
  || (er_unitResolved first && er_unitResolved r && negb (same_unit (er_unitDef first) (er_unitDef r))).

Definition note_return (st : ExtState) (acc : ReturnUnits) (value : option ASTNode) : ReturnUnits :=
  match (n ← value; lookup_result st (an_id n)) with
  | Some r =>
      if er_resolved r then
        match ru_found acc with
        | None => mkReturnUnits (Some r) (ru_conflict acc)
        | Some first => if returns_conflict first r then mkReturnUnits (Some first) true else acc
        end
      else acc
  | None => acc
  end.

Section Collect.
Variable st : ExtState.

Fixpoint collect_function_return_units (n : ASTNode) (acc : ReturnUnits) : ReturnUnits :=
  let child acc (o : option ASTNode) := match o with Some n => collect_function_return_units n acc | None => acc end in
  if ru_conflict acc then acc
  else
    match an_body n with
    | AST_BLOCK l | AST_PROGRAM l | AST_SWITCH _ l | AST_CASE _ l _ =>
        foldl (fun acc o => match o with Some n => collect_function_return_units n acc | None => acc end) acc l
    | AST_RETURN v => note_return st acc v
    | AST_IF_STATEMENT _ t e => child (child acc t) e
    | AST_FOR_LOOP _ _ _ b | AST_WHILE_LOOP _ b _ | AST_LABEL_DECLARATION _ b | AST_STATEMENT_EXPRESSION b => child acc b
    | _ => acc
    end.
End Collect.

Definition callee_name (call : ASTNode) : option string :=
  match an_body call with
  | AST_FUNCTION_CALL (Some c) _ => match an_body c with AST_IDENTIFIER v => v | _ => None end
  | _ => None
  end.

Definition node_is_explicit_units_convert_call (call : ASTNode) : bool :=
  op_in (callee_name call) ["fisics_convert_unit"; "__builtin_fisics_convert_unit"].

Definition maybe_record_function_call_result (call : ASTNode) (callee : option ASTNode) : XM unit :=
  if node_is_explicit_units_convert_call call then ret tt
  else
    let* st := get in
    let inferred :=
      match fisics_extension_lookup_units_function_binding st callee with
      | None => ret tt
      | Some id =>
          let* definition := lift (ss_nodes (xs_sem st) !! id) in
          match an_body definition with
          | AST_FUNCTION_DEFINITION _ _ _ body _ _ =>
              let units := match body with
                           | Some b => collect_function_return_units st b (mkReturnUnits None false)
                           | None => mkReturnUnits None false
                           end in
              match ru_found units, ru_conflict units with
              | Some r, false => record_result call (er_dim r) (resolved_unit r) (er_unitResolved r)
              | _, _ => ret tt
              end
          | _ => ret tt
          end
      end in
    match fisics_extension_lookup_units_call_arg_contract st call FISICS_UNITS_RETURN_CONTRACT_INDEX with
    | Some c => if ct_resolved c then record_result call (ct_dim c) (ct_unitDef c) (ct_unitResolved c) else inferred
    | None => inferred
    end.

(** ** Explicit conversions *)

Definition string_literal_payload (node : option ASTNode) : option (list ascii) :=
  n ← node;
  match an_body n with
  | AST_STRING_LITERAL v => (ast_literal_encoding (option_map list_ascii_of_string v)).2
  | _ => None
  end.

(** The text of the target when it is not empty, and the unit it names. *)
Definition lookup_conversion_target_unit (target : option ASTNode) : option string * option FisicsUnitDef :=
  match string_literal_payload target with
  | Some ((_ :: _) as payload) => (Some (text_string payload), fisics_unit_lookup (text_string payload))
  | _ => (None, None)
  end.

Definition maybe_record_units_conversion_call (call : ASTNode) (arguments : list (option ASTNode)) : XM unit :=
  match node_is_explicit_units_convert_call call, arguments with
  | true, [source; target] =>
      let* r := lookup_resolved_expr_metadata source in
      match r with
      | None => ret tt
      | Some r =>
          let '(text, unit) := lookup_conversion_target_unit target in
          match unit with
          | None =>
              report (diag_units_conversion_invalid_target (Some call) (text_or text "")
                "explicit conversion target must name a seeded concrete unit string")
          | Some targetUnit =>
              match resolved_unit r with
              | None => report (diag_units_conversion_requires_source_unit (Some call) (text_or text (name targetUnit)))
              | Some sourceUnit =>
                  match fisics_unit_can_convert (Some sourceUnit) (Some targetUnit) with
                  | inl detail => report (diag_units_conversion_incompatible (Some call) (Some sourceUnit) (Some targetUnit) detail)
                  | inr _ => record_result call (dim targetUnit) (Some targetUnit) true
                  end
              end
          end
      end
  | _, _ => ret tt
  end.

(** ** Pointers to annotated objects *)

Definition units_annotation_is_concrete (a : FisicsUnitsAnnotation) : bool :=
  annotation_usable a && ann_unitResolved a && bool_decide (is_Some (ann_unitDef a)).

(** The place, when the annotation there is concrete. *)
Definition concrete_place (st : ExtState) (place : option nat) : option nat :=
  i ← place; a ← annotation_at st i; if units_annotation_is_concrete a then Some i else None.

(** Both places are concrete and have the same unit. *)
Definition units_annotations_same_concrete (st : ExtState) (l r : option nat) : bool :=
  match (i ← concrete_place st l; annotation_at st i), (i ← concrete_place st r; annotation_at st i) with
  | Some a, Some b => fisics_dim_equal (ann_dim a) (ann_dim b) && same_unit (ann_unitDef a) (ann_unitDef b)
  | _, _ => false
  end.

Definition UNITS_POINTER_ALIAS_MAX : nat := 256.

Definition lookup_units_pointer_alias (st : ExtState) (alias : option string) : option nat :=
  n ← alias;
  if String.eqb n "" then None
  else snd <$> List.find (fun a => String.eqb a.1 n) (rev (xs_aliases st)).

Definition remember_units_pointer_alias (alias : option string) (place : option nat) : XM unit :=
  let* st := get in
  match alias, concrete_place st place with
  | Some n, Some i =>
      if String.eqb n "" then ret tt
      else if existsb (fun a => String.eqb a.1 n) (xs_aliases st) || (length (xs_aliases st) <? UNITS_POINTER_ALIAS_MAX)%nat
      then modify (fun st => with_aliases st (upsert (fun a => String.eqb a.1 n) (fun _ => (n, i)) (n, i) (xs_aliases st)))
      else ret tt
  | _, _ => ret tt
  end.

(** ** Fields of records *)

(** The declared names in the fields of a definition: their declaration, their place in it. *)
Definition record_names (recordDef : ASTNode) : list (ASTNode * VarDecl ASTNode * nat) :=
  match an_body recordDef with
  | AST_STRUCT_DEFINITION _ fields _ | AST_UNION_DEFINITION _ fields _ =>
      fields ≫= fun o =>
        match o with
        | Some f => match an_body f with
                    | AST_VARIABLE_DECLARATION d => map (fun k => (f, d, k)) (seq 0 (length (vd_varNames d)))
                    | _ => []
                    end
        | None => []
        end
  | _ => []
  end.

Definition field_name_is (field : string) (e : ASTNode * VarDecl ASTNode * nat) : bool :=
  match vd_varNames e.1.2 !! e.2 with
  | Some (Some n) => match an_body n with AST_IDENTIFIER v => bool_decide (v = Some field) | _ => false end
  | _ => false
  end.

(** NULL and the empty name say nothing. *)
Definition named (field : option string) : option string :=
  f ← field; if String.eqb f "" then None else Some f.

Definition lookup_units_record_field (recordDef : ASTNode) (field : option string) (positionalIndex : nat)
    : option (ASTNode * VarDecl ASTNode * nat) :=
  match named field with
  | Some f => List.find (field_name_is f) (record_names recordDef)
  | None => record_names recordDef !! positionalIndex
  end.

Definition field_type (e : ASTNode * VarDecl ASTNode * nat) : option ParsedType :=
  match vd_declaredTypes e.1.2 with
  | Some types => types !! e.2
  | None => Some (vd_declaredType e.1.2)
  end.

Definition type_info_is_record (i : TypeInfo) : bool :=
  bool_decide (ti_category i = TYPEINFO_STRUCT) || bool_decide (ti_category i = TYPEINFO_UNION).

Definition is_record_definition (n : ASTNode) : bool :=
  match an_body n with AST_STRUCT_DEFINITION _ _ _ | AST_UNION_DEFINITION _ _ _ => true | _ => false end.

(** The node behind an address; NULL when it defines no record. *)
Definition record_definition_at (st : ExtState) (id : NodeId) : XM (option ASTNode) :=
  let* n := lift (ss_nodes (xs_sem st) !! id) in ret (if is_record_definition n then Some n else None).

Definition resolve_units_record_definition (parsedType : option ParsedType) (info : TypeInfo) : XM (option ASTNode) :=
  let* st := get in
  let* inline := match (t ← parsedType; pt_inlineStructOrUnionDef t) with
                 | Some id => record_definition_at st id
                 | None => ret None
                 end in
  match inline, ti_userTypeName info with
  | Some def, _ => ret (Some def)
  | None, Some tag =>
      if type_info_is_record info then
        let kind := if decide (ti_category info = TYPEINFO_UNION) then CC_TAG_UNION else CC_TAG_STRUCT in
        match cc_tag_definition (xs_sem st) kind tag with
        | Some id => record_definition_at st id
        | None => ret None
        end
      else ret None
  | None, None => ret None
  end.

Section Scope.
Variables (host : Host) (root_scope : Scope).

Definition type_info_at_root (t : ParsedType) : XM TypeInfo :=
  let* st := get in lift (typeInfoFromParsedType host (xs_sem st) t root_scope).

(** The information of an access's base, and whether its [originalType] points to [scratch],
    which is gone when the function returns. *)
Definition lookup_member_base_type_info (base : option ASTNode) (pointerAccess : bool) : XM (option (TypeInfo * bool)) :=
  let* st := get in
  let bound := fisics_extension_lookup_units_symbol_type_binding st base in
  let '(parsed, scratch) :=
    match base with
    | Some n =>
        match an_body n with
        | AST_POINTER_DEREFERENCE pointer =>
            match fisics_extension_lookup_units_symbol_type_binding st pointer with
            | Some t => (Some (parsedTypePointerTargetType t), true)
            | None => (bound, false)
            end
        | _ => (bound, false)
        end
    | None => (None, false)
    end in
  match parsed with
  | None => ret None
  | Some t =>
      let '(t, scratch) := if pointerAccess then (parsedTypePointerTargetType t, true) else (t, scratch) in
      let* info := type_info_at_root t in
      ret (if decide (ti_category info = TYPEINFO_INVALID) then None
           else Some (info, scratch && negb (bool_decide (pt_kind t = TYPE_NAMED))))
  end.

Definition lookup_member_units_annotation (node : ASTNode) (base : option ASTNode) (field : option string)
    (pointerAccess : bool) : XM (option nat) :=
  let* st := get in
  match named field, fisics_extension_lookup_units_symbol_type_binding st (Some node) with
  | Some _, None =>
      let* info := lookup_member_base_type_info base pointerAccess in
      match info with
      | Some (info, gone) =>
          if negb (type_info_is_record info) then ret None
          else if gone : bool then stuck
          else
            let* def := resolve_units_record_definition (ti_originalType info) info in
            match def with
            | None => ret None
            | Some def =>
                ret (e ← lookup_units_record_field def field 0;
                     concrete_place st (fisics_extension_lookup_units_annotation st (Some e.1.1)))
            end
      | None => ret None
      end
  | _, _ => ret None
  end.

(** The annotation of what an address points to, and of an lvalue; [budget]: 17 less the depth. *)
Fixpoint lookup_address_target_units_annotation (budget : nat) (node : option ASTNode) : XM (option nat) :=
  match budget, node with
  | S budget, Some n =>
      match an_body n with
      | AST_UNARY_EXPRESSION op e _ =>
          if op_is op "&" then lookup_assignment_lvalue_units_annotation budget e else ret None
      | AST_TERNARY_EXPRESSION _ t f =>
          let* l := lookup_address_target_units_annotation budget t in
          let* r := lookup_address_target_units_annotation budget f in
          let* st := get in
          ret (if units_annotations_same_concrete st l r then l else None)
      | AST_COMMA_EXPRESSION es =>
          match last es with
          | Some tail => lookup_address_target_units_annotation budget tail
          | None => ret None
          end
      | AST_CAST_EXPRESSION _ e => lookup_address_target_units_annotation budget e
      | AST_IDENTIFIER v =>
          let* st := get in
          match concrete_place st (lookup_units_pointer_alias st v) with
          | Some i => ret (Some i)
          | None =>
              match (init ← fisics_extension_lookup_units_symbol_initializer_binding st (Some n); di_expression init) with
              | Some e => lookup_address_target_units_annotation budget (Some e)
              | None => ret None
              end
          end
      | _ => ret None
      end
  | _, _ => ret None
  end
with lookup_assignment_lvalue_units_annotation (budget : nat) (node : option ASTNode) : XM (option nat) :=
  match budget, node with
  | S budget, Some n =>
      let* st := get in
      match concrete_place st (fisics_extension_lookup_units_annotation_binding st (Some n)) with
      | Some i => ret (Some i)
      | None =>
          match an_body n with
          | AST_ARRAY_ACCESS a _ => lookup_assignment_lvalue_units_annotation budget a
          | AST_DOT_ACCESS b f => if (0 <? budget)%nat then lookup_member_units_annotation n b f false else ret None
          | AST_POINTER_ACCESS b f => if (0 <? budget)%nat then lookup_member_units_annotation n b f true else ret None
          | AST_POINTER_DEREFERENCE p => lookup_address_target_units_annotation budget p
          | AST_UNARY_EXPRESSION op e _ =>
              if op_is op "*" then lookup_address_target_units_annotation budget e else ret None
          | AST_COMMA_EXPRESSION es =>
              match last es with
              | Some tail => lookup_assignment_lvalue_units_annotation budget tail
              | None => ret None
              end
          | AST_CAST_EXPRESSION _ e => lookup_assignment_lvalue_units_annotation budget e
          | _ => ret None
          end
      end
  | _, _ => ret None
  end.

Definition maybe_remember_units_pointer_alias (nameNode : option ASTNode) (init : option (DesignatedInit ASTNode)) : XM unit :=
  match nameNode, (i ← init; di_expression i) with
  | Some n, Some e =>
      match an_body n with
      | AST_IDENTIFIER v =>
          let* place := lookup_address_target_units_annotation 17 (Some e) in
          remember_units_pointer_alias v place
      | _ => ret tt
      end
  | _, _ => ret tt
  end.

(** ** Assignments *)

Definition fill_units_from_lvalue_annotation (target : option ASTNode) : XM (option FisicsUnitsExprResult) :=
  let* place := lookup_assignment_lvalue_units_annotation 17 target in
  let* st := get in
  ret (i ← place; a ← annotation_at st i;
       Some (mkExprResult (from_option an_id O target) (ann_dim a) true (ann_unitDef a) true)).

Definition assignment_target (target : option ASTNode) : XM (option FisicsUnitsExprResult) :=
  let* known := lookup_resolved_expr_metadata target in
  match known with
  | Some r => ret (Some r)
  | None => fill_units_from_lvalue_annotation target
  end.

(** The assignment has the dimension and the unit of its target. *)
Definition record_target (node : ASTNode) (t : FisicsUnitsExprResult) : XM unit :=
  record_result node (er_dim t) (resolved_unit t) (er_unitResolved t).

Definition record_plain_assignment (node : ASTNode) (valueNode : option ASTNode) (t v : FisicsUnitsExprResult) : XM unit :=
  if fisics_units_is_literal_value valueNode then record_result node (er_dim t) (er_unitDef t) (er_unitResolved t)
  else if negb (fisics_dim_equal (er_dim t) (er_dim v)) then
    report (diag_units_assign_dim_mismatch (Some node) (er_dim t) (er_dim v))
  else if units_resolved_and_different t v then
    report (diag_units_implicit_unit_conversion (match valueNode with Some n => Some n | None => Some node end) "assignment"
              (er_unitDef v) (er_unitDef t))
  else record_target node t.

Definition record_compound_assignment (node : ASTNode) (baseOp : string) (t v : FisicsUnitsExprResult) : XM unit :=
  if String.eqb baseOp "+" || String.eqb baseOp "-" then
    if negb (fisics_dim_equal (er_dim t) (er_dim v)) then
      report ((if String.eqb baseOp "+" then diag_units_add_dim_mismatch else diag_units_sub_dim_mismatch)
                (Some node) (er_dim t) (er_dim v))
    else if units_resolved_and_different t v then
      report (diag_units_implicit_unit_conversion (Some node) "compound assignment" (er_unitDef v) (er_unitDef t))
    else record_target node t
  else
    match (if String.eqb baseOp "*" then fisics_dim_add (er_dim t) (er_dim v) else fisics_dim_sub (er_dim t) (er_dim v)) with
    | None => report (diag_units_exponent_overflow (Some node) (Some baseOp) (er_dim t) (er_dim v))
    | Some combined =>
        if fisics_dim_equal (er_dim t) combined then record_target node t
        else report (diag_units_assign_dim_mismatch (Some node) (er_dim t) combined)
    end.

Definition maybe_record_assignment_result (node : ASTNode) (target : option ASTNode) (op : option string)
    (value : option ASTNode) : XM unit :=
  match op with
  | None => ret tt
  | Some _ =>
      let* t := assignment_target target in
      let* v := lookup_resolved_expr_metadata value in
      match t, v with
      | Some t, Some v =>
          if op_is op "=" then record_plain_assignment node value t v
          else match compound_assignment_base_op op with
               | Some baseOp => record_compound_assignment node baseOp t v
               | None => ret tt
               end
      | _, _ => ret tt
      end
  end.

(** ** Initializers *)

(** An operand whose dimension and unit must fit what is expected: [mismatch] reports the
    dimension, [context] the unit. *)
Definition check_against (expected : FisicsDim8) (expectedUnit : option FisicsUnitDef) (node : option ASTNode)
    (mismatch : FisicsDim8 -> FisicsDim8 -> UnitsDiag) (context : string) : XM unit :=
  let* r := lookup_resolved_expr_metadata node in
  match r with
  | None => ret tt
  | Some r =>
      if negb (fisics_dim_equal expected (er_dim r)) then report (mismatch expected (er_dim r))
      else if units_differ expectedUnit (resolved_unit r) then
        report (diag_units_implicit_unit_conversion node context (er_unitDef r) expectedUnit)
      else ret tt
  end.

Definition is_direct_literal (n : ASTNode) : bool :=
  match an_body n with AST_NUMBER_LITERAL _ | AST_CHAR_LITERAL _ => true | _ => false end.

(** [budget]: 65 less the depth. *)
Fixpoint validate_initializer (budget : nat) (owner : ASTNode) (expression : option ASTNode) (declaratorIndex : nat)
    (declarationOwned : bool) : XM unit :=
  match budget, expression with
  | S budget, Some e =>
      let* st := get in
      match usable_annotation st (fisics_extension_lookup_units_declarator_annotation st (Some owner) declaratorIndex) with
      | None => ret tt
      | Some a =>
          match an_body e with
          | AST_COMPOUND_LITERAL _ entries _ =>
              for_each (fun _ entry =>
                match entry with
                | Some i => validate_initializer budget owner (di_expression i) declaratorIndex false
                | None => ret tt
                end) tt entries
          | _ =>
              if fisics_units_is_literal_value (Some e) then
                if declarationOwned && is_direct_literal e
                then record_result e (ann_dim a) (annotation_unit a) (ann_unitResolved a)
                else ret tt
              else check_against (ann_dim a) (annotation_unit a) (Some e) (diag_units_assign_dim_mismatch (Some e)) "initializer"
          end
      end
  | _, _ => ret tt
  end.

Definition fisics_units_validate_initializer (owner : ASTNode) (expression : option ASTNode) (declarationOwned : bool) : XM unit :=
  validate_initializer 65 owner expression 0 declarationOwned.

Definition fisics_units_validate_declarator_initializer (owner : ASTNode) (declaratorIndex : nat) (expression : option ASTNode)
    : XM unit :=
  validate_initializer 65 owner expression declaratorIndex true.

(** The entries of a record's initializer; [aggregate]: the initializer of a field that is a record. *)
Definition validate_entries (aggregate : ParsedType -> ASTNode -> XM unit) (recordDef : ASTNode)
    (entries : list (option (DesignatedInit ASTNode))) : XM nat :=
  for_each (fun positionalIndex entry =>
    let next := match entry with
                | Some i => if named (di_fieldName i) is Some _ then positionalIndex else S positionalIndex
                | None => positionalIndex
                end in
    match entry, (i ← entry; di_expression i) with
    | Some i, Some e =>
        match lookup_units_record_field recordDef (di_fieldName i) positionalIndex with
        | None => ret next
        | Some f =>
            let scalar := fisics_units_validate_initializer f.1.1 (Some e) false in
            let* _ := match an_body e with
                      | AST_COMPOUND_LITERAL _ _ _ =>
                          let* type := lift (field_type f) in
                          let* info := type_info_at_root type in
                          if type_info_is_record info then aggregate type e else scalar
                      | _ => scalar
                      end in
            ret next
        end
    | _, _ => ret next
    end) O entries.

(** [budget]: 17 less the depth. *)
Fixpoint validate_units_aggregate_initializer (budget : nat) (aggregateType : ParsedType) (compoundExpr : ASTNode) : XM unit :=
  match budget, an_body compoundExpr with
  | S budget, AST_COMPOUND_LITERAL _ entries _ =>
      let* info := type_info_at_root aggregateType in
      if negb (type_info_is_record info) then ret tt
      else
        let* def := resolve_units_record_definition (Some aggregateType) info in
        match def with
        | None => ret tt
        | Some def => let* _ := validate_entries (validate_units_aggregate_initializer budget) def entries in ret tt
        end
  | _, _ => ret tt
  end.

(** ** Arguments and returns *)

(** The parameter of the symbol's definition or declaration. *)
Definition parameter_at (st : ExtState) (s : option Symbol) (index : nat) : option ASTNode :=
  s ← s;
  if decide (sym_kind s = SYMBOL_FUNCTION) then
    def ← definition_node st s;
    match an_body def with
    | AST_FUNCTION_DEFINITION _ _ ps _ _ _ | AST_FUNCTION_DECLARATION _ _ ps _ _ => p ← ps !! index; p
    | _ => None
    end
  else None.

(** The symbol whose declaration describes the parameters; not the one a local pointer hides. *)
Definition called_symbol (st : ExtState) (call : ASTNode) (callee : option ASTNode) : option Symbol :=
  match fisics_extension_lookup_units_symbol_type_binding st callee with
  | Some t => if negb (pt_directlyDeclaresFunction t) || (0 <? pt_pointerDepth t) || pt_isFunctionPointer t then None
              else n ← callee_name call; resolved_symbol (xs_sem st) root_scope n
  | None => n ← callee_name call; resolved_symbol (xs_sem st) root_scope n
  end.

Definition expected_argument (st : ExtState) (call : ASTNode) (s : option Symbol) (i : nat)
    : option (FisicsDim8 * option FisicsUnitDef) :=
  let declared :=
    a ← usable_annotation st (fisics_extension_lookup_units_annotation st (parameter_at st s i));
    Some (ann_dim a, annotation_unit a) in
  match fisics_extension_lookup_units_call_arg_contract st call (Z.of_nat i) with
  | Some c => if ct_resolved c then Some (ct_dim c, if ct_unitResolved c then ct_unitDef c else None) else declared
  | None => declared
  end.

Definition fisics_units_validate_call_arguments (call : ASTNode) (callee : option ASTNode) (arguments : list (option ASTNode))
    : XM unit :=
  for_each (fun _ i =>
    let* st := get in
    match expected_argument st call (called_symbol st call callee) i with
    | None => ret tt
    | Some (d, u) =>
        let argument := mjoin (arguments !! i) in
        if fisics_units_is_literal_value argument then ret tt
        else check_against d u argument (diag_units_argument_dim_mismatch argument) "argument"
    end) tt (seq 0 (length arguments)).

Definition fisics_units_validate_return (function : option ASTNode) (value : option ASTNode) : XM unit :=
  match function with
  | None => ret tt
  | Some f =>
      let* st := get in
      match fisics_extension_lookup_units_call_arg_contract st f FISICS_UNITS_RETURN_CONTRACT_INDEX with
      | Some c =>
          if negb (ct_resolved c) || fisics_units_is_literal_value value then ret tt
          else check_against (ct_dim c) (if ct_unitResolved c then ct_unitDef c else None) value
                 (diag_units_return_dim_mismatch value) "return"
      | None => ret tt
      end
  end.

(** ** The walk *)

Section Walk.
(** [function]: the definition around the node ([s_units_current_function]). *)
Variable walk_rec : option ASTNode -> option ASTNode -> XM unit.

Definition walk_list (function : option ASTNode) (l : list (option ASTNode)) : XM unit :=
  for_each (fun _ n => walk_rec function n) tt l.

Definition walk_id (function : option ASTNode) (id : option NodeId) : XM unit :=
  match id with
  | None => ret tt
  | Some id => let* st := get in let* n := lift (ss_nodes (xs_sem st) !! id) in walk_rec function (Some n)
  end.

Definition walk_designated_init (function : option ASTNode) (declNode : ASTNode) (declaratorIndex : nat)
    (init : option (DesignatedInit ASTNode)) : XM unit :=
  match init with
  | None => ret tt
  | Some i =>
      let* _ := walk_rec function (di_indexExpr i) in
      let* _ := walk_rec function (di_expression i) in
      fisics_units_validate_declarator_initializer declNode declaratorIndex (di_expression i)
  end.

Definition walk_declarator (function : option ASTNode) (node : ASTNode) (d : VarDecl ASTNode) (i : nat) : XM unit :=
  let init := mjoin (vd_initializers d !! i) in
  let* _ := walk_designated_init function node i init in
  let* _ := maybe_remember_units_pointer_alias (mjoin (vd_varNames d !! i)) init in
  match (x ← init; di_expression x) with
  | Some e =>
      match an_body e with
      | AST_COMPOUND_LITERAL literalType _ _ =>
          if decide (pt_kind literalType = TYPE_INVALID)
          then validate_units_aggregate_initializer 17 (astVarDeclTypeAt d i) e
          else ret tt
      | _ => ret tt
      end
  | None => ret tt
  end.

Definition walk_call (function : option ASTNode) (node : ASTNode) (callee : option ASTNode) (arguments : list (option ASTNode))
    : XM unit :=
  let* _ := walk_rec function callee in
  let* _ := walk_list function arguments in
  let* _ := maybe_record_units_conversion_call node arguments in
  let* math := fisics_units_record_math_result node arguments in
  let* _ := (if math : bool then ret tt else maybe_record_function_call_result node callee) in
  fisics_units_validate_call_arguments node callee arguments.

Definition walk_step (function : option ASTNode) (node : option ASTNode) : XM unit :=
  match node with
  | None => ret tt
  | Some n =>
      let walk := walk_rec function in
      match an_body n with
      | AST_PROGRAM l | AST_BLOCK l | AST_STRUCT_DEFINITION _ l _ | AST_UNION_DEFINITION _ l _ | AST_FUNCTION_DECLARATION _ _ l _ _ =>
          walk_list function l
      | AST_STATEMENT_EXPRESSION b | AST_LABEL_DECLARATION _ b => walk b
      | AST_VARIABLE_DECLARATION d =>
          let* _ := for_each (fun _ i => walk_declarator function n d i) tt (seq 0 (length (vd_varNames d))) in
          walk_id function (vd_bitFieldWidth d)
      | AST_ENUM_DEFINITION _ members values =>
          for_each (fun _ i => walk_id function (mjoin (values !! i))) tt (seq 0 (length members))
      | AST_FUNCTION_DEFINITION _ _ ps b _ _ =>
          let* _ := walk_list (Some n) ps in walk_rec (Some n) b
      | AST_IF_STATEMENT a b c => let* _ := walk a in let* _ := walk b in walk c
      | AST_FOR_LOOP i c u b => let* _ := walk i in let* _ := walk c in let* _ := walk u in walk b
      | AST_WHILE_LOOP c b _ => let* _ := walk c in walk b
      | AST_SWITCH c l | AST_CASE c l _ => let* _ := walk c in walk_list function l
      | AST_RETURN v => let* _ := walk v in fisics_units_validate_return function v
      | AST_SEQUENCE l r => let* _ := walk l in walk r
      | AST_TERNARY_EXPRESSION c t f =>
          let* _ := walk c in let* _ := walk t in let* _ := walk f in maybe_record_ternary_result n t f
      | AST_BINARY_EXPRESSION op l r =>
          let* _ := walk l in let* _ := walk r in maybe_record_binary_result n op l r
      | AST_UNARY_EXPRESSION op e _ =>
          let* _ := walk e in
          let* _ := maybe_record_unary_result n op e in
          if op_is op "*" then fisics_units_record_access_result n else ret tt
      | AST_SIZEOF e | AST_ALIGNOF e => walk e
      | AST_ASSIGNMENT t op v => let* _ := walk t in let* _ := walk v in maybe_record_assignment_result n t op v
      | AST_COMMA_EXPRESSION es => let* _ := walk_list function es in maybe_record_comma_result n es
      | AST_CAST_EXPRESSION _ e => let* _ := walk e in maybe_record_cast_result n e
      | AST_ARRAY_ACCESS a i => let* _ := walk a in let* _ := walk i in fisics_units_record_access_result n
      | AST_POINTER_DEREFERENCE p | AST_POINTER_ACCESS p _ | AST_DOT_ACCESS p _ =>
          let* _ := walk p in fisics_units_record_access_result n
      | AST_FUNCTION_CALL callee arguments => walk_call function n callee arguments
      | AST_COMPOUND_LITERAL literalType entries _ =>
          let* _ := for_each (fun _ entry => walk_designated_init function n 0 entry) tt entries in
          if decide (pt_kind literalType = TYPE_INVALID) then ret tt
          else validate_units_aggregate_initializer 17 literalType n
      | AST_NUMBER_LITERAL _ | AST_CHAR_LITERAL _ => record_dimensionless_literal n
      | AST_IDENTIFIER _ => record_identifier_result n
      | _ => ret tt
      end
  end.
End Walk.

Fixpoint walk_expr_results (fuel : nat) : option ASTNode -> option ASTNode -> XM unit :=
  match fuel with
  | O => fun _ _ => stuck
  | S fuel => walk_step (walk_expr_results fuel)
  end.

Definition fisics_units_run_expr_semantics (fuel : nat) (root : ASTNode) : XM unit :=
  let* _ := modify (fun st => with_aliases st []) in
  let* _ := fisics_extension_clear_units_expr_results in
  walk_expr_results fuel None (Some root).

(** The units part of the hook. *)
Definition fisics_extension_run_semantic_scaffold (fuel : nat) (root : ASTNode) : XM unit :=
  let* _ := run_units_decl_scaffold in
  fisics_units_run_expr_semantics fuel root.
End Scope.

(** ** Contracts of returns (units_return_semantics.c) *)

Definition units_attribute_kind (attr : ASTAttribute) : Z :=
  match fisics_units_dim_attribute_extract attr, fisics_units_unit_attribute_extract attr with
  | Some _, _ => 1
  | None, Some _ => 2
  | None, None => 0
  end.

Definition has_kind (type : option ParsedType) (kind : Z) : bool :=
  match type with Some t => existsb (fun a => units_attribute_kind a =? kind) (pt_attributes t) | None => false end.

(** The attributes of kinds [current] lacks are added to it. *)
Definition inherit_attributes (current : ParsedType) (attrs : list ASTAttribute) : ParsedType :=
  let missing k := negb (has_kind (Some current) k) in
  let wanted a := ((units_attribute_kind a =? 1) && missing 1) || ((units_attribute_kind a =? 2) && missing 2) in
  with_attributes current (pt_attributes current ++ List.filter wanted attrs).

Definition fisics_units_inherit_return_attributes (current : ParsedType) (previous : option ParsedType) : ParsedType :=
  match previous with Some p => inherit_attributes current (pt_attributes p) | None => current end.

(** The return type with the attributes it got. *)
Definition fisics_units_note_function_return_contract (node : ASTNode) (previous : option ParsedType) (current : ParsedType)
    : XM ParsedType :=
  let current := inherit_attributes current (an_attributes node) in
  let* st := get in
  if negb (xs_overlay st) then ret current
  else
    let* p := lift (fisics_units_parse_type_contract previous) in
    let* c := lift (fisics_units_parse_type_contract (Some current)) in
    let* _ := match p, c with
              | Some p, Some c =>
                  if negb (tc_resolved p && tc_resolved c) then ret tt
                  else if negb (fisics_dim_equal (tc_dim p) (tc_dim c)) then
                    report (diag_units_return_contract_mismatch (Some node) (tc_dim p) (tc_dim c))
                  else if units_differ (tc_unitDef p) (tc_unitDef c) then
                    report (diag_units_implicit_unit_conversion (Some node) "return contract" (tc_unitDef c) (tc_unitDef p))
                  else ret tt
              | _, _ => ret tt
              end in
    let current := fisics_units_inherit_return_attributes current previous in
    let* _ := attempt (fisics_extension_note_units_call_arg_contract_from_param_type node FISICS_UNITS_RETURN_CONTRACT_INDEX
                         current) in
    ret current.
