(* ===== verification/UnitsTyping.v ===== *)
(** * Every unit in the tables of the units extension has the dimension next to it.

    [units_typed] is the invariant; the operations that fill the tables and the pass over the
    expressions (UnitsExpr.v) keep it, and the pass over the declarations establishes it. *)
From S2P Require Import Prelude StateError Tokens TargetLayout AST ParsedTypes TypeInfo Semantic TypeChecker.
From S2P Require Import UnitsDim UnitsRegistry UnitsParser UnitsDiag UnitsTables UnitsMath UnitsExpr.

Create HintDb units.

#[export] Set Warnings "-register-all".
Arguments fisics_unit_lookup : simpl never.
Arguments fisics_units_parse_dim_expr : simpl never.

(** ** Dimensions are vectors of eight exponents *)

Lemma dim_zero_ok : dim_ok fisics_dim_zero.
Proof. split; [done|]. by repeat constructor. Qed.

Definition dim_okb (d : FisicsDim8) : bool := (length d =? FISICS_DIM_COUNT)%nat && forallb (inS 8) d.

Lemma dim_okb_spec (d : FisicsDim8) : dim_okb d = true <-> dim_ok d.
Proof. unfold dim_okb, dim_ok. by rewrite andb_true_iff, Nat.eqb_eq, forallb_forall, Forall_forall; setoid_rewrite list_elem_of_In. Qed.

Lemma registry_dims : forallb (fun u => dim_okb (dim u)) (table_units kUnitFamilies) = true.
Proof. by vm_compute. Qed.

Lemma lookup_unit_ok (text : string) (u : FisicsUnitDef) : fisics_unit_lookup text = Some u -> dim_ok (dim u).
Proof.
  intros [Hin _]%find_some. apply dim_okb_spec.
  pose proof (proj1 (forallb_forall _ _) registry_dims) as H. by apply H.
Qed.

Lemma atom_dims : forallb (fun a => dim_okb (atom_dim a)) kDimAtoms = true.
Proof. by vm_compute. Qed.

Lemma lookup_atom_ok (text : string) (info : FisicsDimAtomInfo) : fisics_dim_lookup_atom text = Some info -> dim_ok (ai_dim info).
Proof.
  unfold fisics_dim_lookup_atom. destruct (List.find _ _) as [a|] eqn:Ef.
  - intros [= <-]. apply find_some in Ef as [Hin _]. apply dim_okb_spec.
    by apply (proj1 (forallb_forall _ _) atom_dims).
  - destruct (fisics_unit_lookup text); [|done]. intros [= <-]. apply dim_zero_ok.
Qed.

Lemma dim_scale_ok (d : FisicsDim8) (p : Z) (s : string) (d' : FisicsDim8) :
  fisics_dim_scale d p s = Returned d' -> length d' = length d /\ Forall (fun x => inS 8 x = true) d'.
Proof.
  revert d'. induction d as [|x d IH]; cbn [fisics_dim_scale]; intros d'; [by intros [= <-]|].
  destruct (negb _); [done|]. unfold checked_cast_i8. destruct (inS 8 (x * p)) eqn:E; [|done].
  destruct (fisics_dim_scale d p s) as [ys| |]; [|done..]. intros [= <-].
  destruct (IH ys eq_refl) as [Hl Hf]. split; [cbn; by rewrite Hl|by constructor].
Qed.

Lemma outcome_bind_Returned {A B} (m : Outcome A) (k : A -> Outcome B) (b : B) :
  outcome_bind m k = Returned b -> exists a, m = Returned a /\ k a = Returned b.
Proof. destruct m as [a| |]; cbn; [|done..]. by exists a. Qed.

Lemma parse_atom_ok (cur rest : list ascii) (d : FisicsDim8) : parse_atom cur = Returned (d, rest) -> dim_ok d.
Proof.
  unfold parse_atom. destruct (span _ _) as [[|c ident] cur']; [done|].
  destruct (fisics_dim_lookup_atom _) as [info|] eqn:Ei; [|done]. apply lookup_atom_ok in Ei as Hok.
  destruct (ai_kind info); [done| |done]. destruct (next_is _ _) as [cur2|]; [|by intros [= <- _]].
  intros ([power cur3] & _ & H)%outcome_bind_Returned. apply outcome_bind_Returned in H as (base & Hs & [= <- _]).
  apply dim_scale_ok in Hs as [Hl Hf]. split; [|done]. rewrite Hl. apply Hok.
Qed.

Lemma combine_ok (op : bool) (a b d : FisicsDim8) : dim_ok a -> dim_ok b -> combine op a b = Returned d -> dim_ok d.
Proof.
  intros Ha Hb. unfold combine. destruct op.
  - destruct (fisics_dim_add a b) as [c|] eqn:E; [|done]. intros [= <-]. by apply (fisics_dim_add_ok a b).
  - destruct (fisics_dim_sub a b) as [c|] eqn:E; [|done]. intros [= <-]. by apply (fisics_dim_sub_ok a b).
Qed.

Lemma parse_dim_loop_ok (fuel : nat) (cur : list ascii) (accum : option FisicsDim8) (op : bool) (d : FisicsDim8) :
  (forall a, accum = Some a -> dim_ok a) -> parse_dim_loop fuel cur accum op = Returned d -> dim_ok d.
Proof.
  revert cur accum op. induction fuel as [|fuel IH]; intros [|c cur] accum op Ha; cbn [parse_dim_loop]; try done.
  1-2: intros [= <-]; destruct accum as [a|]; [by apply Ha|apply dim_zero_ok].
  intros ([atom cur1] & Hatom & H)%outcome_bind_Returned. apply outcome_bind_Returned in H as (acc & Hacc & H).
  apply parse_atom_ok in Hatom.
  assert (Hok : dim_ok acc).
  { destruct accum as [a|]; [apply (combine_ok op a atom); [by apply Ha|done..]|by injection Hacc as <-]. }
  destruct (skip_ws cur1) as [|x rest]; [by injection H as <-|].
  destruct (_ =? 42); [|destruct (_ =? 47); [|done]]; (eapply IH, H; by intros ? [= <-]).
Qed.

Lemma parse_dim_expr_ok (text : list ascii) (d : FisicsDim8) : fisics_units_parse_dim_expr text = Returned d -> dim_ok d.
Proof.
  unfold fisics_units_parse_dim_expr. destruct (skip_ws text); [intros [= <-]; apply dim_zero_ok|].
  by apply parse_dim_loop_ok.
Qed.

(** ** The invariant *)

(** A dimension with the unit that goes with it, if one is known. *)
Definition measure_ok (d : FisicsDim8) (u : option FisicsUnitDef) : Prop := dim_ok d /\ forall x, u = Some x -> dim x = d.

Definition result_typed (r : FisicsUnitsExprResult) : Prop := measure_ok (er_dim r) (resolved_unit r).

Definition annotation_typed (a : FisicsUnitsAnnotation) : Prop :=
  ann_resolved a = true -> measure_ok (ann_dim a) (annotation_unit a).

Definition contract_unit (c : FisicsUnitsCallArgContract) : option FisicsUnitDef :=
  if ct_unitResolved c then ct_unitDef c else None.

Definition contract_typed (c : FisicsUnitsCallArgContract) : Prop :=
  ct_resolved c = true -> measure_ok (ct_dim c) (contract_unit c).

Record units_typed (st : ExtState) : Prop := {
  ut_annotations : Forall annotation_typed (xs_annotations st);
  ut_results : Forall result_typed (xs_results st);
  ut_contracts : Forall contract_typed (xs_contracts st)
}.

Lemma measure_none (d : FisicsDim8) : dim_ok d -> measure_ok d None.
Proof. by split. Qed.

Lemma measure_some (u : FisicsUnitDef) : dim_ok (dim u) -> measure_ok (dim u) (Some u).
Proof. split; [done|]. by intros ? [= <-]. Qed.

Lemma measure_equal (d : FisicsDim8) (u : FisicsUnitDef) :
  dim_ok d -> dim_ok (dim u) -> fisics_dim_equal d (dim u) = true -> measure_ok d (Some u).
Proof. intros Hd Hu He. split; [done|]. intros ? [= <-]. symmetry. by apply fisics_dim_equal_spec. Qed.

#[export] Hint Resolve dim_zero_ok measure_none measure_some measure_equal lookup_unit_ok parse_dim_expr_ok : units.

(** ** The tables *)

Lemma Forall_upsert {A} (P : A -> Prop) (p : A -> bool) (f : A -> A) (new : A) (l : list A) :
  Forall P l -> (forall x, P x -> P (f x)) -> P (f new) -> Forall P (upsert p f new l).
Proof. intros Hl Hf Hn. induction Hl as [|x l Hx Hl IH]; cbn [upsert]; [by constructor|]. case_match; constructor; auto. Qed.

Lemma upsert_typed (st : ExtState) (p : FisicsUnitsExprResult -> bool) (r : FisicsUnitsExprResult) :
  units_typed st -> result_typed r -> units_typed (with_results st (upsert p (fun _ => r) r (xs_results st))).
Proof. intros [Ha Hr Hc] Ht. split; cbn; [done| |done]. by apply Forall_upsert. Qed.

Lemma set_result_typed (node : ASTNode) (d : FisicsDim8) (u : option FisicsUnitDef) (b : bool) :
  measure_ok d (if b then u else None) ->
  triple units_typed (fisics_extension_set_units_expr_result_with_unit node d true u b) (fun _ => True).
Proof.
  intros [Hd Hu]. apply triple_modify. intros st Hst. apply upsert_typed; [done|]. split; [done|]. cbn.
  intros x. unfold resolved_unit. cbn. destruct b; [|done]. cbn. case_bool_decide; [|done]. apply Hu.
Qed.

Lemma set_dim_typed (node : ASTNode) (d : FisicsDim8) :
  dim_ok d -> triple units_typed (fisics_extension_set_units_expr_result node d true) (fun _ => True).
Proof. intros Hd. apply set_result_typed. by apply measure_none. Qed.

Lemma clear_typed : triple units_typed fisics_extension_clear_units_expr_results (fun _ => True).
Proof. apply triple_modify. intros st [Ha Hr Hc]. destruct (xs_present st); by split. Qed.

Lemma report_typed (d : UnitsDiag) : triple units_typed (report d) (fun _ => True).
Proof. apply triple_modify. by intros st [Ha Hr Hc]. Qed.

Lemma lookup_typed (node : option ASTNode) :
  triple units_typed (fisics_extension_lookup_units_expr_result node) (fun o => forall r, o = Some r -> result_typed r).
Proof.
  intros st r st' Hst [= <- <-]. split; [done|]. intros o [= <-] x Hx. destruct node as [n|]; [|done].
  apply find_some in Hx as [Hin%list_elem_of_In _]. by apply (proj1 (Forall_forall _ _) (ut_results _ Hst)).
Qed.

Lemma resolved_typed (m : XM (option FisicsUnitsExprResult)) :
  triple units_typed m (fun o => forall r, o = Some r -> result_typed r) ->
  triple units_typed (bind m (fun r => ret (match r with Some r => if er_resolved r then Some r else None | None => None end)))
    (fun o => forall r, o = Some r -> result_typed r).
Proof.
  intros Hm. eapply triple_bind; [exact Hm|]. intros [r|] Hr; apply triple_ret; [|done].
  destruct (er_resolved r); [done|]. by intros ? [=].
Qed.

Lemma metadata_typed (node : option ASTNode) :
  triple units_typed (lookup_resolved_expr_metadata node) (fun o => forall r, o = Some r -> result_typed r).
Proof. apply resolved_typed, lookup_typed. Qed.

Lemma argument_typed (arguments : list (option ASTNode)) (i : nat) :
  triple units_typed (resolved_argument arguments i) (fun o => forall r, o = Some r -> result_typed r).
Proof. eapply triple_bind; [by apply (triple_lift _ _ (fun _ => True))|]. intros a _. apply resolved_typed, lookup_typed. Qed.

Lemma result_measure (r : FisicsUnitsExprResult) : result_typed r -> measure_ok (er_dim r) (if er_unitResolved r then er_unitDef r else None).
Proof. done. Qed.

Lemma result_resolved (r : FisicsUnitsExprResult) : result_typed r -> measure_ok (er_dim r) (if er_unitResolved r then resolved_unit r else None).
Proof. intros [Hd Hu]. split; [done|]. intros x. destruct (er_unitResolved r) eqn:E; [|done]. intros Hx. by apply Hu. Qed.

Lemma result_dim (r : FisicsUnitsExprResult) : result_typed r -> dim_ok (er_dim r).
Proof. by intros [Hd _]. Qed.

#[export] Hint Resolve result_measure result_resolved result_dim : units.

(** Where an annotation is looked up, it is typed. *)
Lemma annotation_at_typed (st : ExtState) (i : nat) (a : FisicsUnitsAnnotation) :
  units_typed st -> annotation_at st i = Some a -> annotation_typed a.
Proof. intros Hst Ha. by apply (proj1 (Forall_lookup _ _) (ut_annotations _ Hst) i). Qed.

Lemma usable_typed (st : ExtState) (place : option nat) (a : FisicsUnitsAnnotation) :
  units_typed st -> usable_annotation st place = Some a -> measure_ok (ann_dim a) (annotation_unit a).
Proof.
  intros Hst. unfold usable_annotation. destruct place as [i|]; [|done]. cbn.
  destruct (annotation_at st i) as [b|] eqn:Eb; [|done]. cbn. destruct (annotation_usable b) eqn:Eu; [|done].
  intros [= <-]. apply (annotation_at_typed st i b Hst Eb). unfold annotation_usable in Eu. by apply andb_true_iff in Eu as [? _].
Qed.

Lemma contract_at_typed (st : ExtState) (call : ASTNode) (i : Z) (c : FisicsUnitsCallArgContract) :
  units_typed st -> fisics_extension_lookup_units_call_arg_contract st call i = Some c -> contract_typed c.
Proof.
  intros Hst [Hin%list_elem_of_In _]%find_some. by apply (proj1 (Forall_forall _ _) (ut_contracts _ Hst)).
Qed.

(** ** Contracts of types *)

Definition collected_ok (acc : option FisicsDim8 * option FisicsUnitDef) : Prop :=
  (forall d, acc.1 = Some d -> dim_ok d) /\ (forall u, acc.2 = Some u -> dim_ok (dim u)).

Lemma collect_ok (acc acc' : option FisicsDim8 * option FisicsUnitDef) (attr : ASTAttribute) :
  collected_ok acc -> collect_contract (Some acc) attr = Some acc' -> collected_ok acc'.
Proof.
  destruct acc as [d u]. intros [Hd Hu]. cbn [fst snd] in *. unfold collect_contract. cbn [mbind option_bind].
  assert (Hunit : match u, fisics_units_unit_attribute_extract attr with
                  | None, Some text => Some (d, fisics_unit_lookup (text_string text))
                  | _, _ => Some (d, u)
                  end = Some acc' -> collected_ok acc').
  { destruct u, (fisics_units_unit_attribute_extract attr); intros [= <-]; split; cbn; eauto with units. }
  destruct d as [d|], (fisics_units_dim_attribute_extract attr) as [text|]; [exact Hunit..| |exact Hunit].
  destruct (fisics_units_parse_dim_expr text) as [d'| |] eqn:Ep; [..|done]; intros [= <-]; split; cbn; try done.
  intros ? [= <-]. by apply parse_dim_expr_ok in Ep.
Qed.

Lemma collect_all_ok (attrs : list ASTAttribute) (acc acc' : option FisicsDim8 * option FisicsUnitDef) :
  collected_ok acc -> foldl collect_contract (Some acc) attrs = Some acc' -> collected_ok acc'.
Proof.
  revert acc. induction attrs as [|a attrs IH]; intros acc Hacc; cbn [foldl]; [by intros [= <-]|].
  destruct (collect_contract (Some acc) a) as [acc1|] eqn:E.
  - intros H. eapply IH, H. by eapply collect_ok.
  - intros H. exfalso. clear -H. induction attrs as [|x l IHl]; [done|exact (IHl H)].
Qed.

Lemma type_contract_typed (t : option ParsedType) (c : TypeContract) :
  fisics_units_parse_type_contract t = Some (Some c) -> measure_ok (tc_dim c) (tc_unitDef c).
Proof.
  destruct t as [t|]; cbn; [|done]. destruct (foldl _ _ _) as [[d u]|] eqn:E; [|done].
  apply collect_all_ok in E as [Hd Hu]; [|by split]. cbn in *.
  destruct d as [d|], u as [u|]; intros [= <-]; cbn; eauto with units.
  destruct (fisics_dim_equal d (dim u)) eqn:Ee; eauto with units.
Qed.


(** ** The operations keep the invariant *)

Definition keeps {A} (m : XM A) : Prop := triple units_typed m (fun _ => True).

Lemma keeps_modify (f : ExtState -> ExtState) : (forall st, units_typed st -> units_typed (f st)) -> keeps (modify f).
Proof. apply triple_modify. Qed.

(** Splits a [triple] along the monad; what looks into a table keeps what is known of its entry. *)
Ltac keeps_step :=
  lazymatch goal with
  | |- keeps _ => unfold keeps
  | |- triple _ (ret _) _ => by apply triple_ret
  | |- triple _ fail _ => apply triple_fail
  | |- triple _ stuck _ => apply triple_stuck
  | |- triple _ (report _) _ => apply report_typed
  | |- triple _ (bind get _) _ => eapply triple_bind; [apply triple_get|]; intros ?st ?Hst
  | |- triple _ (bind (lookup_resolved_expr_metadata _) _) _ => eapply triple_bind; [apply metadata_typed|]; intros ? ?
  | |- triple _ (bind (resolved_argument _ _) _) _ => eapply triple_bind; [apply argument_typed|]; intros ? ?
  | |- triple _ (bind (lift _) _) _ => eapply (triple_bind _ _ _ (fun _ => True)); [by apply triple_lift|]; intros ? _
  | |- triple _ (bind _ _) _ => eapply (triple_bind _ _ _ (fun _ => True)); [|intros ? _]
  | |- triple _ (lift _) _ => by apply triple_lift
  | |- triple _ (for_each _ _ _) _ => apply triple_for_each; [intros ? ? _|done]
  | |- triple _ (match ?x with _ => _ end) _ => destruct x eqn:?
  | |- _ => solve [eauto with units]
  end.
Ltac keeps := repeat keeps_step.

(** A result found in the table is typed. *)
Ltac found := repeat match goal with H : forall r, Some ?x = Some r -> _ |- _ => specialize (H x eq_refl) end.

Lemma record_result_keeps (node : ASTNode) (d : FisicsDim8) (u : option FisicsUnitDef) (b : bool) :
  measure_ok d (if b then u else None) -> triple units_typed (record_result node d u b) (fun _ => True).
Proof. apply set_result_typed. Qed.

Lemma copy_result_keeps (node : ASTNode) (from : option ASTNode) : triple units_typed (copy_result node from) (fun _ => True).
Proof. unfold copy_result. keeps. found. apply record_result_keeps. by apply result_measure. Qed.

Lemma literal_keeps (node : ASTNode) : triple units_typed (record_dimensionless_literal node) (fun _ => True).
Proof. apply set_dim_typed, dim_zero_ok. Qed.

Lemma annotation_unit_guard (a : FisicsUnitsAnnotation) :
  measure_ok (ann_dim a) (annotation_unit a) ->
  measure_ok (ann_dim a) (if ann_unitResolved a then annotation_unit a else None).
Proof. unfold annotation_unit. by destruct (ann_unitResolved a). Qed.

Lemma identifier_keeps (node : ASTNode) : triple units_typed (record_identifier_result node) (fun _ => True).
Proof.
  unfold record_identifier_result. keeps. apply record_result_keeps, annotation_unit_guard. by eapply usable_typed.
Qed.

(** A result is recorded from the first of two that have the same dimension. *)
Lemma common_keeps (node : ASTNode) (l r : FisicsUnitsExprResult) :
  result_typed l -> triple units_typed (record_common node l r) (fun _ => True).
Proof. intros [Hd Hu]. apply record_result_keeps. split; [done|]. intros x. destruct (_ && _); [apply Hu|done]. Qed.

#[export] Hint Resolve report_typed record_result_keeps copy_result_keeps literal_keeps identifier_keeps common_keeps
  set_dim_typed : units.

Lemma dimensionless_zero (d : FisicsDim8) : dim_ok d -> fisics_dim_is_dimensionless d = true -> d = fisics_dim_zero.
Proof.
  intros [Hl _] Hz. unfold fisics_dim_is_dimensionless in Hz. unfold FISICS_DIM_COUNT in Hl. do 9 (destruct d as [|? d]; try done).
  cbn in Hz. unfold fisics_dim_zero, FISICS_DIM_COUNT. cbn. rewrite !andb_true_iff, !Z.eqb_eq in Hz.
  by destruct Hz as (-> & -> & -> & -> & -> & -> & -> & -> & _).
Qed.

Lemma zip_with_zero_add (a : list Z) (n : nat) : length a = n -> zip_with Z.add (replicate n 0) a = a.
Proof. intros Hl. by rewrite zip_with_add_comm, zip_with_add_zero. Qed.

Lemma zip_with_sub_zero (a : list Z) (n : nat) : length a = n -> zip_with Z.sub a (replicate n 0) = a.
Proof. intros <-. induction a as [|x a IH]; simpl; [done|]. by rewrite IH, Z.sub_0_r. Qed.

Lemma zero_add (d d' : FisicsDim8) : dim_ok d -> fisics_dim_add fisics_dim_zero d = Some d' -> d' = d.
Proof. intros [Hl _] [-> _]%fisics_dim_add_Some. by apply zip_with_zero_add. Qed.
Lemma add_zero (d d' : FisicsDim8) : dim_ok d -> fisics_dim_add d fisics_dim_zero = Some d' -> d' = d.
Proof. intros [Hl _] [-> _]%fisics_dim_add_Some. by apply zip_with_add_zero. Qed.
Lemma sub_zero (d d' : FisicsDim8) : dim_ok d -> fisics_dim_sub d fisics_dim_zero = Some d' -> d' = d.
Proof. intros [Hl _] [-> _]%fisics_dim_sub_Some. by apply zip_with_sub_zero. Qed.

(** The unit of a product has the dimension of the product. *)
Lemma scaled_measure (times : bool) (l r : FisicsUnitsExprResult) (d : FisicsDim8) :
  result_typed l -> result_typed r ->
  (if times then fisics_dim_add (er_dim l) (er_dim r) else fisics_dim_sub (er_dim l) (er_dim r)) = Some d ->
  measure_ok d (if (scaled_unit times l r).2 then (scaled_unit times l r).1 else None).
Proof.
  intros [Hdl Hul] [Hdr Hur] Hd. split.
  { destruct times; [by apply (fisics_dim_add_ok _ _ _ Hdl Hdr)|by apply (fisics_dim_sub_ok _ _ _ Hdl Hdr)]. }
  intros x. unfold scaled_unit.
  destruct (times && fisics_dim_is_dimensionless (er_dim l) && er_unitResolved r) eqn:El; cbn [fst snd].
  - apply andb_true_iff in El as [[-> Hz]%andb_true_iff Hr]. apply dimensionless_zero in Hz; [|done]. rewrite Hz in Hd.
    apply zero_add in Hd as ->; [|done]. intros Hx. apply Hur. unfold resolved_unit. by rewrite Hr.
  - destruct (_ && er_unitResolved l) eqn:Er; cbn [fst snd]; [|done].
    apply andb_true_iff in Er as [Hz Hr]. apply dimensionless_zero in Hz; [|done]. rewrite Hz in Hd.
    assert (d = er_dim l) as ->. { destruct times; [by apply add_zero in Hd|by apply sub_zero in Hd]. }
    intros Hx. apply Hul. unfold resolved_unit. by rewrite Hr.
Qed.

Lemma binary_keeps (node : ASTNode) (op : option string) (l r : option ASTNode) :
  triple units_typed (maybe_record_binary_result node op l r) (fun _ => True).
Proof.
  unfold maybe_record_binary_result, record_add_sub, record_mul_div, record_comparison, maybe_report_binary_mismatch.
  keeps; found; eauto using dim_zero_ok with units.
  all: by apply record_result_keeps, scaled_measure.
Qed.

Lemma ternary_keeps (node : ASTNode) (t f : option ASTNode) :
  triple units_typed (maybe_record_ternary_result node t f) (fun _ => True).
Proof. unfold maybe_record_ternary_result. keeps; found; eauto with units. Qed.

Lemma unary_keeps (node : ASTNode) (op : option string) (e : option ASTNode) :
  triple units_typed (maybe_record_unary_result node op e) (fun _ => True).
Proof. unfold maybe_record_unary_result. keeps. Qed.

Lemma comma_keeps (node : ASTNode) (es : list (option ASTNode)) :
  triple units_typed (maybe_record_comma_result node es) (fun _ => True).
Proof. unfold maybe_record_comma_result. keeps. Qed.

Lemma cast_keeps (node : ASTNode) (e : option ASTNode) : triple units_typed (maybe_record_cast_result node e) (fun _ => True).
Proof. apply copy_result_keeps. Qed.

Lemma contract_of_type_typed (I : ExtState -> Prop) (t : option ParsedType) :
  triple I (lift (fisics_units_parse_type_contract t))
    (fun o => forall c, o = Some c -> measure_ok (tc_dim c) (tc_unitDef c)).
Proof. apply triple_lift. intros o Ho c ->. by apply type_contract_typed in Ho. Qed.

Lemma known_unit {A} (u : option A) : (if bool_decide (is_Some u) then u else None) = u.
Proof. by destruct u. Qed.

Lemma access_keeps (node : ASTNode) : triple units_typed (fisics_units_record_access_result node) (fun _ => True).
Proof.
  unfold fisics_units_record_access_result. eapply triple_bind; [apply triple_get|]. intros st Hst.
  eapply triple_bind; [apply contract_of_type_typed|]. intros [c|] Hc; keeps. apply set_result_typed. rewrite known_unit. by apply Hc.
Qed.

(** *** Math calls *)

Lemma set_result_keeps (node : ASTNode) (d : FisicsDim8) (u : option FisicsUnitDef) :
  measure_ok d u -> triple units_typed (set_result node d u) (fun _ => True).
Proof. intros [Hd Hu]. apply set_result_typed. split; [done|]. intros x. case_bool_decide; [apply Hu|done]. Qed.

Lemma halved_ok (d : FisicsDim8) : dim_ok d -> dim_ok (map (fun e => Z.quot e 2) d).
Proof.
  intros [Hl Hf]. split; [by rewrite length_map|]. clear Hl. induction Hf as [|x d Hx _ IH]; cbn; constructor; [|done].
  apply inS_spec. apply inS_spec in Hx. Z.to_euclidean_division_equations. lia.
Qed.

Lemma sqrt_unit_dim (u r : FisicsUnitDef) (d : FisicsDim8) :
  dim_ok d -> sqrt_unit u d = Some r -> measure_ok d (Some r).
Proof.
  intros Hd. unfold sqrt_unit. destruct (list_find _ _) as [[i v]|] eqn:E; [|done]. intros [= <-].
  apply list_find_Some in E as (Hin & He & _). apply list_elem_of_lookup_2, list_elem_of_omap in Hin as ([a b] & _ & Hl).
  destruct (String.eqb _ _); [|done]. apply lookup_unit_ok in Hl. split; [done|]. intros ? [= <-]. by apply fisics_dim_equal_spec.
Qed.

#[export] Hint Resolve set_result_keeps halved_ok sqrt_unit_dim unary_keeps binary_keeps ternary_keeps comma_keeps cast_keeps
  : units.

Lemma matching_keeps (op : FisicsUnitsMathOperation) (call : ASTNode) (arguments : list (option ASTNode))
    (arg : FisicsUnitsExprResult) (k : FisicsUnitsExprResult -> XM unit) :
  (forall r, result_typed r -> triple units_typed (k r) (fun _ => True)) ->
  triple units_typed (matching_arguments op call arguments arg k) (fun _ => True).
Proof. intros Hk. unfold matching_arguments. keeps; found; eauto. Qed.

Lemma math_keeps (call : ASTNode) (arguments : list (option ASTNode)) :
  triple units_typed (fisics_units_record_math_result call arguments) (fun _ => True).
Proof.
  unfold fisics_units_record_math_result, record_dimensionless_math, record_sqrt. keeps; found.
  all: try (apply matching_keeps; intros r Hr); apply set_result_keeps.
  all: try match goal with H : result_typed ?r |- measure_ok (er_dim ?r) _ => destruct H as [Hd Hu] end.
  all: try (split; [done|]; intros x; destruct (resolved_unit r); [apply Hu|done]).
  all: eauto using result_dim with units.
Qed.

(** *** Calls *)

Lemma find_result_typed (st : ExtState) (id : NodeId) (r : FisicsUnitsExprResult) :
  units_typed st -> lookup_result st id = Some r -> result_typed r.
Proof. intros Hst [Hin%list_elem_of_In _]%find_some. by apply (proj1 (Forall_forall _ _) (ut_results _ Hst)). Qed.

Definition returns_typed (acc : ReturnUnits) : Prop := forall r, ru_found acc = Some r -> result_typed r.

Lemma note_return_typed (st : ExtState) (acc : ReturnUnits) (v : option ASTNode) :
  units_typed st -> returns_typed acc -> returns_typed (note_return st acc v).
Proof.
  intros Hst Hacc. unfold note_return. destruct v as [n|]; [|done]. cbn.
  destruct (lookup_result st (an_id n)) as [r|] eqn:E; [|done].
  destruct (er_resolved r); [|done]. destruct acc as [[first|] conflict]; cbn.
  - destruct (returns_conflict first r); [|done]. intros x [= <-]. by apply Hacc.
  - intros x [= <-]. by apply (find_result_typed st (an_id n)).
Qed.

Lemma omap_id_Forall {A} (P : A -> Prop) (l : list (option A)) (a : A) : Forall P (omap id l) -> Some a ∈ l -> P a.
Proof. rewrite Forall_forall. intros H Ha. apply H, list_elem_of_omap. by exists (Some a). Qed.

Section CollectTyped.
Variable st : ExtState.

Definition collects (n : ASTNode) : Prop :=
  forall acc, returns_typed acc -> returns_typed (collect_function_return_units st n acc).

Lemma collect_child (o : option ASTNode) (acc : ReturnUnits) :
  (forall n, o = Some n -> collects n) -> returns_typed acc ->
  returns_typed (match o with Some n => collect_function_return_units st n acc | None => acc end).
Proof. destruct o as [n|]; intros H Hacc; [by apply H|done]. Qed.

Lemma collect_list (l : list (option ASTNode)) (acc : ReturnUnits) :
  (forall n, Some n ∈ l -> collects n) -> returns_typed acc ->
  returns_typed (foldl (fun acc o => match o with Some n => collect_function_return_units st n acc | None => acc end) acc l).
Proof.
  revert acc. induction l as [|o l IH]; intros acc Hl Hacc; cbn [foldl]; [done|].
  apply IH; [intros n Hn; apply Hl; by right|]. apply collect_child; [|done]. intros n ->. apply Hl. by left.
Qed.

Lemma collect_typed (n : ASTNode) : units_typed st -> collects n.
Proof.
  intros Hst. revert n. refine (node_children_ind _ _). intros n IH acc Hacc.
  destruct n as [nid line l1 l2 l3 attrs body]. cbn [collect_function_return_units an_body].
  destruct (ru_conflict acc); [done|]. unfold node_children in IH. cbn [an_body] in IH.
  destruct body; try done; try (by apply note_return_typed);
    repeat first [apply collect_list; [intros c Hin|]|apply collect_child; [intros c Hin; subst|]]; try done;
    apply (omap_id_Forall _ _ _ IH); try done; by repeat constructor.
Qed.
End CollectTyped.

Lemma call_result_keeps (call : ASTNode) (callee : option ASTNode) :
  triple units_typed (maybe_record_function_call_result call callee) (fun _ => True).
Proof.
  unfold maybe_record_function_call_result. destruct (node_is_explicit_units_convert_call call); [by apply triple_ret|].
  eapply triple_bind; [apply triple_get|]. intros st Hst. cbn zeta.
  match goal with |- triple _ (match _ with Some c => if _ then _ else ?k | None => _ end) _ => assert (Hk : keeps k) end.
  { unfold keeps. destruct (fisics_extension_lookup_units_function_binding st callee) as [id|]; [|by apply triple_ret].
    eapply (triple_bind _ _ _ (fun _ => True)); [by apply triple_lift|]. intros def _. destruct (an_body def); try by apply triple_ret.
    set (units := match body with Some b => _ | None => _ end).
    assert (Hu : returns_typed units) by (subst units; destruct body; [by apply collect_typed|done]).
    destruct (ru_found units) as [r|] eqn:Er, (ru_conflict units); try by apply triple_ret.
    apply record_result_keeps, result_resolved, Hu, Er. }
  destruct (fisics_extension_lookup_units_call_arg_contract _ _ _) as [c|] eqn:Ec; [|done].
  destruct (ct_resolved c) eqn:Er; [|done]. apply record_result_keeps. by apply (contract_at_typed st _ _ c Hst Ec).
Qed.

Lemma conversion_keeps (call : ASTNode) (arguments : list (option ASTNode)) :
  triple units_typed (maybe_record_units_conversion_call call arguments) (fun _ => True).
Proof.
  unfold maybe_record_units_conversion_call, lookup_conversion_target_unit. keeps.
  apply record_result_keeps. simplify_eq. apply measure_some.
  destruct (string_literal_payload _) as [[|c payload]|]; simplify_eq. eauto with units.
Qed.

#[export] Hint Resolve identifier_keeps access_keeps math_keeps call_result_keeps conversion_keeps : units.

(** *** Places of concrete annotations *)

Section Scope.
Variables (host : Host) (root_scope : Scope).

Definition place_ok (st : ExtState) (place : option nat) : Prop := forall i, place = Some i -> concrete_place st (Some i) = Some i.

Lemma concrete_place_ok (st : ExtState) (place : option nat) : place_ok st (concrete_place st place).
Proof.
  intros i. unfold concrete_place. destruct place as [j|]; [|done]. cbn.
  destruct (annotation_at st j) as [a|] eqn:Ea; [|done]. cbn. destruct (units_annotation_is_concrete a) eqn:Ec; [|done].
  intros [= <-]. rewrite Ea. cbn. by rewrite Ec.
Qed.

Lemma concrete_measure (st : ExtState) (i : nat) (a : FisicsUnitsAnnotation) :
  units_typed st -> concrete_place st (Some i) = Some i -> annotation_at st i = Some a -> measure_ok (ann_dim a) (ann_unitDef a).
Proof.
  intros Hst. unfold concrete_place. cbn. intros Hc Ha. rewrite Ha in Hc. cbn in Hc.
  destruct (units_annotation_is_concrete a) eqn:Ec; [|done]. unfold units_annotation_is_concrete, annotation_usable in Ec.
  rewrite !andb_true_iff in Ec. destruct Ec as [[[Hr _] Hu] _].
  pose proof (annotation_at_typed st i a Hst Ha Hr) as Hm. unfold annotation_unit in Hm. by rewrite Hu in Hm.
Qed.

(** Lookups read the state and leave it as it is. *)
Ltac reads_step :=
  lazymatch goal with
  | |- triple _ (ret _) _ => apply triple_ret
  | |- triple _ stuck _ => apply triple_stuck
  | |- triple _ (bind get _) _ => eapply triple_bind; [apply triple_get|]; intros ? <-
  | |- triple _ (bind (lift _) _) _ => eapply (triple_bind _ _ _ (fun _ => True)); [by apply triple_lift|]; intros ? _
  | |- triple _ (bind _ _) _ => eapply (triple_bind _ _ _ (fun _ => True)); [|intros ? _]
  | |- triple _ (lift _) _ => by apply triple_lift
  | |- triple _ (match ?x with _ => _ end) _ => destruct x eqn:?
  end.
Ltac reads := repeat reads_step; try done.

Lemma base_info_reads (st : ExtState) (base : option ASTNode) (pointerAccess : bool) :
  triple (eq st) (lookup_member_base_type_info host root_scope base pointerAccess) (fun _ => True).
Proof. unfold lookup_member_base_type_info, type_info_at_root. reads. Qed.

Lemma record_definition_reads (st : ExtState) (t : option ParsedType) (info : TypeInfo) :
  triple (eq st) (resolve_units_record_definition t info) (fun _ => True).
Proof. unfold resolve_units_record_definition, record_definition_at. reads. Qed.

Lemma member_reads (st : ExtState) (node : ASTNode) (base : option ASTNode) (field : option string) (p : bool) :
  triple (eq st) (lookup_member_units_annotation host root_scope node base field p) (place_ok st).
Proof.
  unfold lookup_member_units_annotation. eapply triple_bind; [apply triple_get|]. intros ? <-.
  destruct (named field), (fisics_extension_lookup_units_symbol_type_binding st (Some node)); try by apply triple_ret.
  eapply (triple_bind _ _ _ (fun _ => True)); [apply base_info_reads|]. intros [[info gone]|] _; [|by apply triple_ret].
  destruct (negb _); [by apply triple_ret|]. destruct gone; [apply triple_stuck|].
  eapply (triple_bind _ _ _ (fun _ => True)); [apply record_definition_reads|]. intros [def|] _; apply triple_ret; [|done].
  destruct (lookup_units_record_field _ _ _) as [e|]; cbn; [apply concrete_place_ok|done].
Qed.

Lemma place_reads (st : ExtState) (budget : nat) :
  (forall node, triple (eq st) (lookup_address_target_units_annotation host root_scope budget node) (place_ok st)) /\
  (forall node, triple (eq st) (lookup_assignment_lvalue_units_annotation host root_scope budget node) (place_ok st)).
Proof.
  induction budget as [|budget [IHt IHl]]; (split; intros [n|]);
    cbn [lookup_address_target_units_annotation lookup_assignment_lvalue_units_annotation]; try by apply triple_ret.
  - destruct (an_body n); try by apply triple_ret.
    + eapply triple_bind; [apply IHt|]. intros l Hl. eapply triple_bind; [apply IHt|]. intros r Hr. reads. by destruct (units_annotations_same_concrete _ _ _).
    + destruct (op_is _ _); [apply IHl|by apply triple_ret].
    + destruct (last _); [apply IHt|by apply triple_ret].
    + apply IHt.
    + eapply triple_bind; [apply triple_get|]. intros ? <-.
      destruct (concrete_place _ _) as [i|] eqn:E; [apply triple_ret; rewrite <- E; apply concrete_place_ok|].
      case_match; [apply IHt|by apply triple_ret].
  - eapply triple_bind; [apply triple_get|]. intros ? <-.
    destruct (concrete_place _ _) as [i|] eqn:E; [apply triple_ret; rewrite <- E; apply concrete_place_ok|].
    destruct (an_body n); try by apply triple_ret.
    all: try (apply IHt); try (apply IHl); case_match; try (by apply triple_ret); auto using member_reads.
Qed.

(** *** Assignments *)

(** What a place found by a lookup says. *)
Lemma place_typed (m : XM (option nat)) (node : NodeId) :
  (forall st, triple (eq st) m (place_ok st)) ->
  triple units_typed
    (let* place := m in
     let* st := get in
     ret (i ← place; a ← annotation_at st i; Some (mkExprResult node (ann_dim a) true (ann_unitDef a) true)))
    (fun o => forall r, o = Some r -> result_typed r).
Proof.
  intros Hm st r st' Hst [[H ->]|(place & st1 & H & H')]%bind_inv.
  - destruct (Hm st _ _ _ eq_refl H) as [<- _]. by split.
  - destruct (Hm st _ _ _ eq_refl H) as [<- Hp]. specialize (Hp _ eq_refl).
    injection H' as <- <-. split; [done|]. intros o [= <-] x Hx. destruct place as [i|]; [|done]. cbn in Hx.
    destruct (annotation_at st i) as [a|] eqn:Ea; [|done]. injection Hx as <-.
    by apply (concrete_measure st i a Hst (Hp i eq_refl)).
Qed.

Lemma fill_typed (target : option ASTNode) :
  triple units_typed (fill_units_from_lvalue_annotation host root_scope target) (fun o => forall r, o = Some r -> result_typed r).
Proof. apply place_typed. intros st. apply place_reads. Qed.

Lemma target_keeps (node : ASTNode) (t : FisicsUnitsExprResult) :
  result_typed t -> triple units_typed (record_target node t) (fun _ => True).
Proof. intros Ht. by apply record_result_keeps, result_resolved. Qed.

Lemma plain_keeps (node : ASTNode) (value : option ASTNode) (t v : FisicsUnitsExprResult) :
  result_typed t -> triple units_typed (record_plain_assignment node value t v) (fun _ => True).
Proof.
  intros Ht. unfold record_plain_assignment. destruct (fisics_units_is_literal_value value); [by apply record_result_keeps|].
  repeat case_match; try apply report_typed; by apply target_keeps.
Qed.

Lemma compound_keeps (node : ASTNode) (baseOp : string) (t v : FisicsUnitsExprResult) :
  result_typed t -> triple units_typed (record_compound_assignment node baseOp t v) (fun _ => True).
Proof.
  intros Ht. unfold record_compound_assignment. destruct (_ || _).
  - repeat case_match; try apply report_typed; by apply target_keeps.
  - destruct (if String.eqb baseOp "*" then _ else _); [|apply report_typed].
    case_match; [by apply target_keeps|apply report_typed].
Qed.

Lemma assignment_keeps (node : ASTNode) (target : option ASTNode) (op : option string) (value : option ASTNode) :
  triple units_typed (maybe_record_assignment_result host root_scope node target op value) (fun _ => True).
Proof.
  unfold maybe_record_assignment_result. destruct op as [op|]; [|by apply triple_ret].
  eapply (triple_bind _ _ _ (fun o => forall r, o = Some r -> result_typed r)).
  { unfold assignment_target. eapply triple_bind; [apply metadata_typed|]. intros [r|] Hr; [by apply triple_ret|apply fill_typed]. }
  intros [t|] Ht; (eapply triple_bind; [apply metadata_typed|]); intros [v|] _; try by apply triple_ret.
  specialize (Ht t eq_refl). destruct (op_is _ _); [by apply plain_keeps|].
  destruct (compound_assignment_base_op _); [by apply compound_keeps|by apply triple_ret].
Qed.

(** *** Initializers *)

Lemma check_keeps (d : FisicsDim8) (u : option FisicsUnitDef) (node : option ASTNode)
    (mismatch : FisicsDim8 -> FisicsDim8 -> UnitsDiag) (context : string) :
  triple units_typed (check_against d u node mismatch context) (fun _ => True).
Proof. unfold check_against. keeps. Qed.

Lemma initializer_keeps (budget : nat) (owner : ASTNode) (e : option ASTNode) (i : nat) (owned : bool) :
  triple units_typed (validate_initializer budget owner e i owned) (fun _ => True).
Proof.
  revert e owned. induction budget as [|budget IH]; intros e owned; cbn [validate_initializer]; [by apply triple_ret|].
  destruct e as [e|]; [|by apply triple_ret]. eapply triple_bind; [apply triple_get|]. intros st Hst.
  destruct (usable_annotation st _) as [a|] eqn:Ea; [|by apply triple_ret].
  apply usable_typed in Ea as Hm; [|done].
  assert (Hscalar : triple units_typed
    (if fisics_units_is_literal_value (Some e) then
       if owned && is_direct_literal e then record_result e (ann_dim a) (annotation_unit a) (ann_unitResolved a) else ret tt
     else check_against (ann_dim a) (annotation_unit a) (Some e) (diag_units_assign_dim_mismatch (Some e)) "initializer")
    (fun _ => True)).
  { case_match; [case_match; [|by apply triple_ret]|apply check_keeps]. by apply record_result_keeps, annotation_unit_guard. }
  destruct (an_body e); try exact Hscalar. apply triple_for_each; [|done]. intros _ [entry|] _; [apply IH|by apply triple_ret].
Qed.

Lemma reads_keeps {A} (m : XM A) (Q : ExtState -> A -> Prop) : (forall st, triple (eq st) m (Q st)) -> triple units_typed m (fun _ => True).
Proof. intros H st r st' Hst Hr. destruct (H st st r st' eq_refl Hr) as [<- _]. by split. Qed.

Lemma entries_keep (aggregate : ParsedType -> ASTNode -> XM unit) (def : ASTNode) (entries : list (option (DesignatedInit ASTNode))) :
  (forall t n, triple units_typed (aggregate t n) (fun _ => True)) ->
  triple units_typed (validate_entries host root_scope aggregate def entries) (fun _ => True).
Proof.
  intros Ha. apply triple_for_each; [|done]. intros pos entry _. cbn zeta.
  unfold type_info_at_root, fisics_units_validate_initializer. keeps; auto using initializer_keeps.
Qed.

Lemma aggregate_keeps (budget : nat) (t : ParsedType) (n : ASTNode) :
  triple units_typed (validate_units_aggregate_initializer host root_scope budget t n) (fun _ => True).
Proof.
  revert t n. induction budget as [|budget IH]; intros t n; cbn [validate_units_aggregate_initializer]; [by apply triple_ret|].
  destruct (an_body n); try by apply triple_ret. unfold type_info_at_root.
  eapply (triple_bind _ _ _ (fun _ => True)); [apply (reads_keeps _ (fun _ _ => True)); intros; reads|]. intros info _.
  destruct (negb _); [by apply triple_ret|].
  eapply (triple_bind _ _ _ (fun _ => True)); [apply (reads_keeps _ (fun _ _ => True)); intros; apply record_definition_reads|].
  intros [def|] _; [|by apply triple_ret].
  eapply (triple_bind _ _ _ (fun _ => True)); [by apply entries_keep|]. intros _ _. by apply triple_ret.
Qed.

(** *** The walk *)

Lemma alias_keeps (name : option ASTNode) (init : option (DesignatedInit ASTNode)) :
  triple units_typed (maybe_remember_units_pointer_alias host root_scope name init) (fun _ => True).
Proof.
  unfold maybe_remember_units_pointer_alias. destruct name as [n|], (i ← init; di_expression i) as [e|]; try by apply triple_ret.
  destruct (an_body n); try by apply triple_ret.
  eapply (triple_bind _ _ _ (fun _ => True)); [apply (reads_keeps _ place_ok); intros st; apply place_reads|].
  intros place _. unfold remember_units_pointer_alias. keeps. apply keeps_modify. by intros ? [].
Qed.

Lemma arguments_keep (call : ASTNode) (callee : option ASTNode) (arguments : list (option ASTNode)) :
  triple units_typed (fisics_units_validate_call_arguments root_scope call callee arguments) (fun _ => True).
Proof. unfold fisics_units_validate_call_arguments. keeps. apply check_keeps. Qed.

Lemma return_keeps (function value : option ASTNode) : triple units_typed (fisics_units_validate_return function value) (fun _ => True).
Proof. unfold fisics_units_validate_return. keeps; apply check_keeps. Qed.

Hint Resolve assignment_keeps initializer_keeps aggregate_keeps alias_keeps arguments_keep return_keeps : units.

Section Walk.
Variable walk_rec : option ASTNode -> option ASTNode -> XM unit.
Hypothesis Hrec : forall f n, triple units_typed (walk_rec f n) (fun _ => True).

Lemma walk_list_keeps (f : option ASTNode) (l : list (option ASTNode)) : triple units_typed (walk_list walk_rec f l) (fun _ => True).
Proof. unfold walk_list. keeps; apply Hrec. Qed.

Lemma walk_id_keeps (f : option ASTNode) (id : option NodeId) : triple units_typed (walk_id walk_rec f id) (fun _ => True).
Proof. unfold walk_id. keeps; apply Hrec. Qed.

Lemma walk_init_keeps (f : option ASTNode) (decl : ASTNode) (i : nat) (init : option (DesignatedInit ASTNode)) :
  triple units_typed (walk_designated_init walk_rec f decl i init) (fun _ => True).
Proof. unfold walk_designated_init, fisics_units_validate_declarator_initializer. keeps; auto with units. Qed.

Hint Resolve walk_list_keeps walk_id_keeps walk_init_keeps : units.

Lemma walk_step_keeps (f node : option ASTNode) : triple units_typed (walk_step host root_scope walk_rec f node) (fun _ => True).
Proof.
  destruct node as [n|]; [|by apply triple_ret]. unfold walk_step, walk_call, walk_declarator. cbn zeta.
  destruct (an_body n); keeps; auto with units.
Qed.
End Walk.

Lemma walk_keeps (fuel : nat) (f node : option ASTNode) :
  triple units_typed (walk_expr_results host root_scope fuel f node) (fun _ => True).
Proof. revert f node. induction fuel as [|fuel IH]; intros f node; [apply triple_stuck|]. by apply walk_step_keeps. Qed.

Lemma run_keeps (fuel : nat) (root : ASTNode) :
  triple units_typed (fisics_units_run_expr_semantics host root_scope fuel root) (fun _ => True).
Proof.
  unfold fisics_units_run_expr_semantics. keeps; [apply keeps_modify; by intros ? []|apply clear_typed|apply walk_keeps].
Qed.
End Scope.

(** ** What the parser and the semantic passes note

    [noted st]: the state of the extension may be [st] when the hook of the semantic analysis
    runs.  The tables of the compiler may have changed between two notes. *)

Definition with_sem (st : ExtState) (sem : SemState) : ExtState :=
  mkExtState sem (xs_overlay st) (xs_present st) (xs_annotations st) (xs_results st) (xs_bindings st) (xs_mathCalls st)
    (xs_contracts st) (xs_aliases st) (xs_diagnostics st).

Inductive noted : ExtState -> Prop :=
  | noted_none sem overlay : noted (mkExtState sem overlay false [] [] [] [] [] [] [])
  | noted_sem st sem : noted st -> noted (with_sem st sem)
  | noted_prefix st node attrs r st' : noted st -> fisics_extension_note_units_prefix node attrs st = Some (r, st') -> noted st'
  | noted_declaration st node r st' : noted st -> fisics_extension_note_declaration node st = Some (r, st') -> noted st'
  | noted_annotation st node i r st' :
      noted st -> fisics_extension_note_units_annotation_binding node i st = Some (r, st') -> noted st'
  | noted_symbol st node s r st' : noted st -> fisics_extension_note_units_symbol_binding node s st = Some (r, st') -> noted st'
  | noted_access st node t r st' : noted st -> fisics_units_capture_access_type node t st = Some (r, st') -> noted st'
  | noted_math st includes call arguments callee b r st' :
      noted st -> fisics_units_note_math_call includes call arguments callee b st = Some (r, st') -> noted st'
  | noted_contract st call i t r st' :
      noted st -> fisics_extension_note_units_call_arg_contract_from_param_type call i t st = Some (r, st') -> noted st'
  | noted_return st node previous current r st' :
      noted st -> fisics_units_note_function_return_contract node previous current st = Some (r, st') -> noted st'.

Record noted_ok (st : ExtState) : Prop := {
  no_contracts : Forall contract_typed (xs_contracts st);
  no_results : xs_results st = [];
  no_absent : xs_present st = false -> xs_annotations st = []
}.

Lemma noted_modify (f : ExtState -> ExtState) :
  (forall st, xs_contracts (f st) = xs_contracts st /\ xs_results (f st) = xs_results st /\ xs_present (f st) = true) ->
  triple noted_ok (modify f) (fun _ => True).
Proof.
  intros H. apply triple_modify. intros st [Hc Hr _]. destruct (H st) as (E1 & E2 & E3).
  split; [by rewrite E1|by rewrite E2|by rewrite E3].
Qed.

Lemma noted_report (d : UnitsDiag) : triple noted_ok (report d) (fun _ => True).
Proof. apply triple_modify. by intros st [Hc Hr Ha]. Qed.

Ltac noted_step :=
  lazymatch goal with
  | |- triple _ (ret _) _ => by apply triple_ret
  | |- triple _ fail _ => apply triple_fail
  | |- triple _ (report _) _ => apply noted_report
  | |- triple _ (modify _) _ => by apply noted_modify
  | |- triple _ (update_binding _ _) _ => by apply noted_modify
  | |- triple _ (update_annotation _ _ _) _ => by apply noted_modify
  | |- triple _ (bind get _) _ => eapply triple_bind; [apply triple_get|]; intros ?st ?Hst
  | |- triple _ (bind (lift _) _) _ => eapply triple_bind; [apply contract_of_type_typed|]; intros ? ?
  | |- triple _ (bind _ _) _ => eapply (triple_bind _ _ _ (fun _ => True)); [|intros ? _]
  | |- triple _ (for_each _ _ _) _ => apply triple_for_each; [intros ? ? _|done]
  | |- triple _ (match ?x with _ => _ end) _ => destruct x eqn:?
  end.

Lemma attrs_noted (node : ASTNode) (i : nat) (attrs : list ASTAttribute) :
  triple noted_ok (note_units_attrs_from_list node i attrs) (fun _ => True).
Proof. unfold note_units_attrs_from_list, note_units_dim_attr, note_units_unit_attr. repeat noted_step. Qed.

Lemma prefix_noted (node : ASTNode) (attrs : list ASTAttribute) :
  triple noted_ok (fisics_extension_note_units_prefix node attrs) (fun _ => True).
Proof. unfold fisics_extension_note_units_prefix. cbn zeta. repeat noted_step. apply attrs_noted. Qed.

Lemma declaration_noted (node : ASTNode) : triple noted_ok (fisics_extension_note_declaration node) (fun _ => True).
Proof. unfold fisics_extension_note_declaration. destruct (an_body node); repeat noted_step; apply attrs_noted. Qed.

Lemma call_contract_noted (call : ASTNode) (i : Z) (t : ParsedType) :
  triple noted_ok (fisics_extension_note_units_call_arg_contract_from_param_type call i t) (fun _ => True).
Proof.
  eapply triple_bind; [apply contract_of_type_typed|]. intros [c|] Hc; [|apply triple_fail].
  apply triple_modify. intros st [Hct Hr _]. destruct (Hc c eq_refl) as [Hd Hu].
  assert (Hnew : contract_typed (mkContract (an_id call) i (tc_dim c) (tc_resolved c) (tc_unitDef c) (bool_decide (is_Some (tc_unitDef c))))).
  { intros _. split; [done|]. intros x. unfold contract_unit. cbn. rewrite known_unit. apply Hu. }
  split; [|done..]. cbn. by apply Forall_upsert.
Qed.

Lemma noted_keeps (st : ExtState) : noted st -> noted_ok st.
Proof.
  induction 1 as [|st sem _ [Hc Hr Ha]|st node attrs r st' _ IH H|st node r st' _ IH H|st node i r st' _ IH H
    |st node s r st' _ IH H|st node t r st' _ IH H|st includes call arguments callee b r st' _ IH H|st call i t r st' _ IH H
    |st node previous current r st' _ IH H].
  - by split.
  - by split.
  - eapply prefix_noted, H. exact IH.
  - eapply declaration_noted, H. exact IH.
  - assert (Ht : triple noted_ok (fisics_extension_note_units_annotation_binding node i) (fun _ => True)) by by apply noted_modify.
    eapply Ht, H. exact IH.
  - assert (Ht : triple noted_ok (fisics_extension_note_units_symbol_binding node s) (fun _ => True)).
    { unfold fisics_extension_note_units_symbol_binding. repeat noted_step. }
    eapply Ht, H. exact IH.
  - assert (Ht : triple noted_ok (fisics_units_capture_access_type node t) (fun _ => True)).
    { unfold fisics_units_capture_access_type, fisics_extension_note_units_type_binding, fisics_units_note_origin.
      repeat noted_step. }
    eapply Ht, H. exact IH.
  - assert (Ht : triple noted_ok (fisics_units_note_math_call includes call arguments callee b) (fun _ => True)).
    { unfold fisics_units_note_math_call. cbn zeta. repeat noted_step. }
    eapply Ht, H. exact IH.
  - eapply call_contract_noted, H. exact IH.
  - assert (Ht : triple noted_ok (fisics_units_note_function_return_contract node previous current) (fun _ => True)).
    { unfold fisics_units_note_function_return_contract. cbn zeta. repeat noted_step.
      eapply triple_any, triple_attempt, call_contract_noted. }
    eapply Ht, H. exact IH.
Qed.

(** ** The annotations once they are resolved *)

Lemma resolve_dim_ok (node : ASTNode) (text : list ascii) (overlay : bool) :
  triple noted_ok (fisics_units_resolve_annotation node text overlay) (fun p => dim_ok p.1).
Proof.
  unfold fisics_units_resolve_annotation. destruct (negb overlay).
  { eapply (triple_bind _ _ _ (fun _ => True)); [apply noted_report|]. intros _ _. apply triple_fail. }
  destruct (fisics_units_parse_dim_expr text) as [d|detail|] eqn:Ep; [|..|apply triple_stuck].
  - apply triple_ret. by apply parse_dim_expr_ok in Ep.
  - eapply (triple_bind _ _ _ (fun _ => True)); [apply noted_report|]. intros _ _. apply triple_fail.
Qed.

Lemma resolve_unit_ok (node : ASTNode) (text : list ascii) (overlay resolved : bool) (d : FisicsDim8) :
  (resolved = true -> dim_ok d) ->
  triple noted_ok (fisics_units_resolve_unit_annotation node text overlay resolved d) (fun u => dim u = d).
Proof.
  intros Hd. unfold fisics_units_resolve_unit_annotation. cbn zeta.
  assert (Hfail : forall diag, triple noted_ok (let* _ := report diag in fail) (fun u : FisicsUnitDef => dim u = d)).
  { intros diag. eapply (triple_bind _ _ _ (fun _ => True)); [apply noted_report|]. intros _ _. apply triple_fail. }
  destruct (negb overlay); [apply Hfail|]. destruct resolved; [|apply Hfail]. cbn [negb].
  destruct (fisics_unit_lookup _) as [u|] eqn:Eu; [|apply Hfail].
  destruct (fisics_dim_equal (dim u) d) eqn:Ee; [|apply Hfail]. apply triple_ret.
  apply fisics_dim_equal_spec; [by apply lookup_unit_ok in Eu|by apply Hd|done].
Qed.

Lemma resolve_one_typed (overlay : bool) (a : FisicsUnitsAnnotation) :
  triple noted_ok (resolve_one overlay a) annotation_typed.
Proof.
  unfold resolve_one. cbn zeta.
  eapply (triple_bind _ _ _ (fun _ => True)); [case_match; [apply noted_report|by apply triple_ret]|]. intros _ _.
  eapply (triple_bind _ _ _ (fun _ => True)); [case_match; [apply noted_report|by apply triple_ret]|]. intros _ _.
  eapply (triple_bind _ _ _ (fun o => forall p, o = Some p -> dim_ok p.1)).
  { destruct (ann_dimExprText a); [|by apply triple_ret]. destruct (_ <=? _)%nat; [|by apply triple_ret].
    apply triple_attempt, resolve_dim_ok. }
  intros resolved Hres.
  set (d := (match resolved with Some (d, text) => (d, Some text) | None => (ann_dim a, None) end).1).
  assert (Hd : bool_decide (is_Some resolved) = true -> dim_ok d).
  { destruct resolved as [[d' text]|]; [|done]. intros _. by apply (Hres (d', text)). }
  destruct (match resolved with Some (d, text) => (d, Some text) | None => (ann_dim a, None) end) as [d' canonical]. cbn in d. subst d.
  eapply (triple_bind _ _ _ (fun o => forall u, o = Some u -> dim u = d')).
  { destruct (ann_unitExprText a); [|by apply triple_ret]. destruct (_ <=? _)%nat; [|by apply triple_ret].
    by apply triple_attempt, resolve_unit_ok. }
  intros u Hu. apply triple_ret. intros Hr. cbn in Hr. split; [by apply Hd|]. unfold annotation_unit. cbn. intros x.
  rewrite known_unit. apply Hu.
Qed.

Lemma declarations_typed (st st' : ExtState) :
  noted_ok st -> run_units_decl_scaffold st = Some (Some tt, st') -> units_typed st'.
Proof.
  intros Hst. unfold run_units_decl_scaffold. intros (st1 & s1 & [= <- <-] & H)%bind_some.
  destruct (xs_present st) eqn:Ep; cbn [negb] in H.
  2: { injection H as <-. destruct Hst as [Hc Hr Ha]. split; [by rewrite Ha|by rewrite Hr|done]. }
  apply bind_some in H as (l & s1 & H & [= <-]).
  assert (Ht : triple noted_ok (for_each (fun done a => let* a := resolve_one (xs_overlay st) a in ret (done ++ [a])) [] (xs_annotations st))
                 (Forall annotation_typed)).
  { apply triple_for_each; [|constructor]. intros done a Hl. eapply triple_bind; [apply resolve_one_typed|].
    intros x Hx. apply triple_ret, Forall_app. split; [exact Hl|]. by constructor. }
  destruct (Ht _ _ _ Hst H) as [[Hc Hr _] Hl]. split; cbn; [by apply Hl|by rewrite Hr|done].
Qed.

(** C4: whatever the parser and the semantic passes noted, when the hook of the semantic analysis
    ends, every resolved annotation, every recorded expression result and every call contract has
    a vector of eight [int8_t] exponents as its dimension, and a resolved unit next to it is one of
    exactly that dimension. *)
Theorem scaffold_types_results (host : Host) (scope : Scope) (fuel : nat) (root : ASTNode) (st st' : ExtState) :
  noted st -> fisics_extension_run_semantic_scaffold host scope fuel root st = Some (Some tt, st') -> units_typed st'.
Proof.
  intros Hst%noted_keeps ([] & s1 & Hdecl & Hrun)%bind_some.
  apply declarations_typed in Hdecl; [|done]. exact (proj1 (run_keeps host scope fuel root _ _ _ Hdecl Hrun)).
Qed.

(** ** Samples *)

Definition at_id (id : NodeId) (body : ASTBody ASTNode) : ASTNode :=
  mkASTNode id 1 empty_source_range empty_source_range empty_source_range [] body.

Definition units_attribute (payload : string) : ASTAttribute := mkAttribute AST_ATTRIBUTE_SYNTAX_CXX (Some payload).

Definition units_double (payloads : list string) : ParsedType :=
  mkParsedType TYPE_PRIMITIVE TAG_NONE None None false [] TOKEN_DOUBLE None no_modifiers no_qualifier no_storage 0 false
    false false [] (map units_attribute payloads) 0 false None.

(** [double x, y, ...] of one type, in node [id]; the names are the nodes behind it. *)
Definition units_declaration (id : NodeId) (payloads : list string) (names : list string) : ASTNode :=
  at_id id (AST_VARIABLE_DECLARATION
    (mkVarDecl (units_double payloads) None (imap (fun i n => Some (at_id (S (id + i))%nat (AST_IDENTIFIER (Some n)))) names)
       (map (fun _ => None) names) None)).

Definition units_symbol (name : string) (type : ParsedType) (annotation : option nat) : Symbol :=
  mkSymbol name SYMBOL_VARIABLE type None None None (mkFunctionSignature false false []) None annotation.

Definition use (id : NodeId) (name : string) : ASTNode := at_id id (AST_IDENTIFIER (Some name)).
Definition number (id : NodeId) (text : string) : ASTNode := at_id id (AST_NUMBER_LITERAL (Some text)).
Definition operation (id : NodeId) (l : ASTNode) (op : string) (r : ASTNode) : ASTNode :=
  at_id id (AST_BINARY_EXPRESSION (Some op) (Some l) (Some r)).


Arguments at_id id%_nat_scope.
Arguments units_declaration id%_nat_scope.
Arguments use id%_nat_scope.
Arguments number id%_nat_scope.
Arguments operation id%_nat_scope.

Definition fresh_units : ExtState := mkExtState (empty_state layout_lp64_fp80) true false [] [] [] [] [] [] [].

(** [double x [[fisics::dim(length)]] [[fisics::unit(meter)]];] and a use of it in node 10. *)
Definition meter_payloads : list string := ["fisics::dim(length)"; "fisics::unit(meter)"]%string.
Definition meter_declaration : ASTNode := units_declaration 1 meter_payloads ["x"]%string.

Definition note_meter : XM unit :=
  let* _ := fisics_extension_note_declaration meter_declaration in
  fisics_extension_note_units_symbol_binding (use 10 "x") (units_symbol "x" (units_double meter_payloads) (Some O)).

(** Node, dimension and unit of each result. *)
Definition recorded (st : ExtState) : list (NodeId * string * option string) :=
  map (fun r => (er_node r, dim_text (er_dim r), option_map name (resolved_unit r))) (xs_results st).

Definition run_units (notes : XM unit) (root : ASTNode) : option ExtState :=
  match (let* _ := notes in fisics_extension_run_semantic_scaffold HostOther (createScope []) 50 root) fresh_units with
  | Some (Some _, st) => Some st
  | _ => None
  end.

(** [2 * x] *)
Definition twice_x : ASTNode := operation 12 (number 11 "2") "*" (use 10 "x").

Lemma scaffold_types_results_witness :
  exists st, run_units note_meter twice_x = Some st /\ units_typed st /\
    recorded st = [(11%nat, "1", None); (10%nat, "m", Some "meter"); (12%nat, "m", Some "meter")]%string.
Proof.
  destruct (note_meter fresh_units) as [[[[]|] st1]|] eqn:E1; [|vm_compute in E1; discriminate E1..].
  destruct (fisics_extension_run_semantic_scaffold HostOther (createScope []) 50 twice_x st1) as [[[[]|] st2]|] eqn:E2;
    [|vm_compute in E1; injection E1 as <-; vm_compute in E2; discriminate E2..].
  exists st2. split_and!.
  - unfold run_units, bind. by rewrite E1, E2.
  - apply (scaffold_types_results HostOther (createScope []) 50 twice_x st1); [|exact E2].
    apply bind_some in E1 as ([] & s0 & Hd & Hs). eapply noted_symbol, Hs. eapply noted_declaration, Hd. apply noted_none.
  - vm_compute in E1. injection E1 as <-. vm_compute in E2. injection E2 as <-. vm_compute. reflexivity.
Defined.
