(* ===== verification/UnitsScale.v ===== *)
(** * Changes of the base units, over the real numbers.

    A change multiplies the numbers of base quantity [i] by a positive factor; a quantity of
    dimension [d] is then multiplied by [scale ls d]. *)
From Stdlib Require Import Reals Lra.
From S2P Require Import Prelude UnitsDim.
#[local] Open Scope R_scope.

Fixpoint scale (ls : list R) (d : list Z) : R :=
  match ls, d with
  | l :: ls, x :: d => powerRZ l x * scale ls d
  | _, _ => 1
  end.

Definition positive (ls : list R) : Prop := Forall (fun l => 0 < l) ls.

(** One positive factor for each of the eight exponents. *)
Definition factors_ok (ls : list R) : Prop := length ls = FISICS_DIM_COUNT /\ positive ls.

Lemma scale_pos (ls : list R) (d : list Z) : positive ls -> 0 < scale ls d.
Proof.
  intros Hls. revert d. induction Hls as [|l ks Hl _ IH]; intros [|x d]; cbn [scale]; try lra.
  apply Rmult_lt_0_compat; [by apply powerRZ_lt|apply IH].
Qed.

Lemma scale_zero (ls : list R) (n : nat) : positive ls -> scale ls (replicate n 0%Z) = 1.
Proof.
  intros Hls. revert n. induction Hls as [|l ks Hl _ IH]; intros [|n]; cbn [scale replicate]; try done.
  rewrite IH. cbn. lra.
Qed.

Lemma scale_add (ls : list R) (a b : list Z) : positive ls -> length a = length b -> scale ls (zip_with Z.add a b) = scale ls a * scale ls b.
Proof.
  intros Hls. revert a b. induction Hls as [|l ks Hl _ IH]; intros [|x a] [|y b] Hab; cbn [scale zip_with]; try done; try lra.
  rewrite IH by (cbn in Hab; lia). rewrite powerRZ_add by lra. lra.
Qed.

Lemma scale_sub (ls : list R) (a b : list Z) : positive ls -> length a = length b -> scale ls (zip_with Z.sub a b) * scale ls b = scale ls a.
Proof.
  intros Hls Hl. rewrite <- scale_add; [|done|rewrite length_zip_with; lia]. by rewrite zip_with_sub_add.
Qed.

(** The scale of a quotient. *)
Lemma scale_div (ls : list R) (a b : list Z) : positive ls -> length a = length b -> scale ls (zip_with Z.sub a b) = scale ls a / scale ls b.
Proof. intros Hls Hl. pose proof (scale_pos ls b Hls). rewrite <- (scale_sub ls a b Hls Hl). field. lra. Qed.

Lemma scale_half (ls : list R) (d : list Z) :
  positive ls -> Forall (fun e => Z.rem e 2 = 0%Z) d -> scale ls (map (fun e => Z.quot e 2) d) * scale ls (map (fun e => Z.quot e 2) d) = scale ls d.
Proof.
  intros Hls Hd. rewrite <- scale_add by done. f_equal.
  induction Hd as [|x d Hx _ IH]; cbn; [done|]. f_equal; [|done]. rewrite (Z.quot_rem' x 2) at 3. lia.
Qed.

Lemma scale_nonneg_root (ls : list R) (d : list Z) (x : R) : positive ls -> Forall (fun e => Z.rem e 2 = 0%Z) d -> 0 <= x ->
  sqrt (scale ls d * x) = scale ls (map (fun e => Z.quot e 2) d) * sqrt x.
Proof.
  intros Hls Hd Hx. pose proof (scale_pos ls (map (fun e => Z.quot e 2) d) Hls) as Hp.
  rewrite sqrt_mult_alt by (by apply Rlt_le, scale_pos). rewrite <- (scale_half ls d Hls Hd), sqrt_square; [done|lra].
Qed.
