(* ===== verification/UnitsSoundness.v ===== *)
(** * The dimensions of expressions mean something

    [derives]: the rules by which an expression has a dimension.  [evaluates]: its value over the
    real numbers.  A derivable dimension says how the value changes with the base units
    ([derives_scales]), and the pass of UnitsExpr.v records derivable dimensions only
    ([walk_derives]).  This covers expressions of names, literals, arithmetic, comparisons,
    choices, casts to floating types and the known math calls ([pure]); assignments, [++], [--]
    and accesses are left out, and so is the rounding of floating-point numbers. *)
From Stdlib Require Import Reals Lra.
From S2P Require Import Prelude StateError Tokens TargetLayout AST ParsedTypes TypeInfo Semantic TypeChecker.
From S2P Require Import UnitsDim UnitsRegistry UnitsParser UnitsDiag UnitsTables UnitsMath UnitsExpr UnitsTyping UnitsScale.

(** ** Expressions *)

(** The nodes of an expression. *)
Inductive within (e : ASTNode) : ASTNode -> Prop :=
  | within_self : within e e
  | within_child n c : within e n -> c ∈ node_children n -> within e c.

Definition math_arity (op : FisicsUnitsMathOperation) : nat :=
  match op with
  | FISICS_UNITS_MATH_NONE => 0
  | FISICS_UNITS_MATH_HYPOT | FISICS_UNITS_MATH_FMAX | FISICS_UNITS_MATH_FMIN | FISICS_UNITS_MATH_ATAN2 => 2
  | _ => 1
  end.

Definition pure (st : ExtState) (n : ASTNode) : bool :=
  match an_body n with
  | AST_NUMBER_LITERAL _ | AST_CHAR_LITERAL _ | AST_IDENTIFIER _ | AST_CAST_EXPRESSION _ _ | AST_COMMA_EXPRESSION _
  | AST_BINARY_EXPRESSION _ _ _ | AST_TERNARY_EXPRESSION _ _ _ => true
  | AST_UNARY_EXPRESSION op _ _ => negb (op_in op ["*"; "++"; "--"])
  | AST_FUNCTION_CALL _ arguments =>
      let op := fisics_units_math_operation st n in
      negb (bool_decide (op = FISICS_UNITS_MATH_NONE)) && (length arguments =? math_arity op)%nat &&
      negb (node_is_explicit_units_convert_call n)
  | _ => false
  end.

Definition is_leaf (n : ASTNode) : bool :=
  match an_body n with AST_NUMBER_LITERAL _ | AST_CHAR_LITERAL _ | AST_IDENTIFIER _ => true | _ => false end.

(** The annotation of the object a name stands for. *)
Definition name_annotation (st : ExtState) (n : ASTNode) : option FisicsUnitsAnnotation :=
  usable_annotation st (fisics_extension_lookup_units_annotation_binding st (Some n)).

Definition even_dim (d : FisicsDim8) : Prop := Forall (fun e => Z.rem e 2 = 0) d.
Definition half_dim (d : FisicsDim8) : FisicsDim8 := map (fun e => Z.quot e 2) d.

(** ** The rules *)

Section Rules.
Variable st : ExtState.

(** A math call with its arguments. *)
Definition math_call (n : ASTNode) (op : FisicsUnitsMathOperation) (arguments : list (option ASTNode)) : Prop :=
  (exists callee, an_body n = AST_FUNCTION_CALL callee arguments) /\ fisics_units_math_operation st n = op.

Inductive derives : ASTNode -> FisicsDim8 -> Prop :=
  | derives_number n v : an_body n = AST_NUMBER_LITERAL v -> derives n fisics_dim_zero
  | derives_char n v : an_body n = AST_CHAR_LITERAL v -> derives n fisics_dim_zero
  | derives_identifier n v a : an_body n = AST_IDENTIFIER v -> name_annotation st n = Some a -> derives n (ann_dim a)
  | derives_sign n op e p d :
      an_body n = AST_UNARY_EXPRESSION op (Some e) p -> op_in op ["+"; "-"] = true -> derives e d -> derives n d
  | derives_cast n t e d : an_body n = AST_CAST_EXPRESSION t (Some e) -> derives e d -> derives n d
  | derives_comma n es e d : an_body n = AST_COMMA_EXPRESSION es -> last es = Some (Some e) -> derives e d -> derives n d
  | derives_sum n op l r d :
      an_body n = AST_BINARY_EXPRESSION op (Some l) (Some r) -> is_units_add_sub_op op = true ->
      derives l d -> derives r d -> derives n d
  | derives_product n l r a b d :
      an_body n = AST_BINARY_EXPRESSION (Some "*"%string) (Some l) (Some r) ->
      derives l a -> derives r b -> fisics_dim_add a b = Some d -> derives n d
  | derives_quotient n l r a b d :
      an_body n = AST_BINARY_EXPRESSION (Some "/"%string) (Some l) (Some r) ->
      derives l a -> derives r b -> fisics_dim_sub a b = Some d -> derives n d
  | derives_comparison n op l r d :
      an_body n = AST_BINARY_EXPRESSION op (Some l) (Some r) -> is_units_comparison_op op = true ->
      derives l d -> derives r d -> derives n fisics_dim_zero
  | derives_choice n c t f d :
      an_body n = AST_TERNARY_EXPRESSION c (Some t) (Some f) -> derives t d -> derives f d -> derives n d
  | derives_fabs n a d : math_call n FISICS_UNITS_MATH_FABS [Some a] -> derives a d -> derives n d
  | derives_sqrt n a d :
      math_call n FISICS_UNITS_MATH_SQRT [Some a] -> derives a d -> even_dim d -> derives n (half_dim d)
  | derives_number_function n op a :
      op = FISICS_UNITS_MATH_EXPM1 \/ op = FISICS_UNITS_MATH_LOG ->
      math_call n op [Some a] -> derives a fisics_dim_zero -> derives n fisics_dim_zero
  | derives_pair n op a b d :
      op = FISICS_UNITS_MATH_HYPOT \/ op = FISICS_UNITS_MATH_FMAX \/ op = FISICS_UNITS_MATH_FMIN ->
      math_call n op [Some a; Some b] -> derives a d -> derives b d -> derives n d
  | derives_angle n a b d :
      math_call n FISICS_UNITS_MATH_ATAN2 [Some a; Some b] -> derives a d -> derives b d -> derives n fisics_dim_zero.

Lemma even_half_ok (d : FisicsDim8) : dim_ok d -> dim_ok (half_dim d).
Proof. apply halved_ok. Qed.

Lemma derives_ok (n : ASTNode) (d : FisicsDim8) : units_typed st -> derives n d -> dim_ok d.
Proof.
  intros Hst. induction 1; eauto using dim_zero_ok, even_half_ok, fisics_dim_add_ok, fisics_dim_sub_ok.
  by eapply usable_typed.
Qed.

(** ** Values *)

#[local] Open Scope R_scope.

Definition compares (op : option string) (x y : R) : Prop :=
  if op_is op "==" then x = y else if op_is op "!=" then x <> y else if op_is op "<" then x < y
  else if op_is op "<=" then x <= y else if op_is op ">" then x > y else x >= y.

Definition real_double (t : ParsedType) : Prop :=
  exists primitive extended, (primitive = TOKEN_DOUBLE \/ primitive = TOKEN_FLOAT) /\ real_floating primitive extended t = true.

(** [value]: the numbers the names and literals stand for. *)
Inductive evaluates (value : ASTNode -> R) : ASTNode -> R -> Prop :=
  | ev_leaf n : is_leaf n = true -> evaluates value n (value n)
  | ev_plus n e p x : an_body n = AST_UNARY_EXPRESSION (Some "+"%string) (Some e) p -> evaluates value e x -> evaluates value n x
  | ev_minus n e p x :
      an_body n = AST_UNARY_EXPRESSION (Some "-"%string) (Some e) p -> evaluates value e x -> evaluates value n (- x)
  | ev_cast n t e x : an_body n = AST_CAST_EXPRESSION t (Some e) -> real_double t -> evaluates value e x -> evaluates value n x
  | ev_comma n es e x :
      an_body n = AST_COMMA_EXPRESSION es -> last es = Some (Some e) -> evaluates value e x -> evaluates value n x
  | ev_add n l r x y :
      an_body n = AST_BINARY_EXPRESSION (Some "+"%string) (Some l) (Some r) ->
      evaluates value l x -> evaluates value r y -> evaluates value n (x + y)
  | ev_sub n l r x y :
      an_body n = AST_BINARY_EXPRESSION (Some "-"%string) (Some l) (Some r) ->
      evaluates value l x -> evaluates value r y -> evaluates value n (x - y)
  | ev_mul n l r x y :
      an_body n = AST_BINARY_EXPRESSION (Some "*"%string) (Some l) (Some r) ->
      evaluates value l x -> evaluates value r y -> evaluates value n (x * y)
  | ev_div n l r x y :
      an_body n = AST_BINARY_EXPRESSION (Some "/"%string) (Some l) (Some r) ->
      evaluates value l x -> evaluates value r y -> y <> 0 -> evaluates value n (x / y)
  | ev_true n op l r x y :
      an_body n = AST_BINARY_EXPRESSION op (Some l) (Some r) -> is_units_comparison_op op = true ->
      evaluates value l x -> evaluates value r y -> compares op x y -> evaluates value n 1
  | ev_false n op l r x y :
      an_body n = AST_BINARY_EXPRESSION op (Some l) (Some r) -> is_units_comparison_op op = true ->
      evaluates value l x -> evaluates value r y -> ~ compares op x y -> evaluates value n 0
  | ev_then n c t f b x :
      an_body n = AST_TERNARY_EXPRESSION (Some c) (Some t) f -> evaluates value c b -> b <> 0 ->
      evaluates value t x -> evaluates value n x
  | ev_else n c t f x :
      an_body n = AST_TERNARY_EXPRESSION (Some c) t (Some f) -> evaluates value c 0 ->
      evaluates value f x -> evaluates value n x
  | ev_fabs n a x : math_call n FISICS_UNITS_MATH_FABS [Some a] -> evaluates value a x -> evaluates value n (Rabs x)
  | ev_sqrt n a x : math_call n FISICS_UNITS_MATH_SQRT [Some a] -> evaluates value a x -> 0 <= x -> evaluates value n (sqrt x)
  | ev_expm1 n a x : math_call n FISICS_UNITS_MATH_EXPM1 [Some a] -> evaluates value a x -> evaluates value n (exp x - 1)
  | ev_log n a x : math_call n FISICS_UNITS_MATH_LOG [Some a] -> evaluates value a x -> 0 < x -> evaluates value n (ln x)
  | ev_hypot n a b x y :
      math_call n FISICS_UNITS_MATH_HYPOT [Some a; Some b] -> evaluates value a x -> evaluates value b y ->
      evaluates value n (sqrt (x * x + y * y))
  | ev_fmax n a b x y :
      math_call n FISICS_UNITS_MATH_FMAX [Some a; Some b] -> evaluates value a x -> evaluates value b y ->
      evaluates value n (Rmax x y)
  | ev_fmin n a b x y :
      math_call n FISICS_UNITS_MATH_FMIN [Some a; Some b] -> evaluates value a x -> evaluates value b y ->
      evaluates value n (Rmin x y)
  | ev_atan2 n a b y x rho theta :
      math_call n FISICS_UNITS_MATH_ATAN2 [Some a; Some b] -> evaluates value a y -> evaluates value b x ->
      0 < rho -> - PI < theta <= PI -> y = rho * sin theta -> x = rho * cos theta -> evaluates value n theta.
End Rules.

(** ** Derivable dimensions and changes of the base units *)

(** The rules a derivation may end in, once the node is known. *)
Ltac same_node :=
  repeat match goal with
  | H : ex _ /\ _ |- _ => destruct H
  | H : ex _ |- _ => destruct H
  | H1 : an_body ?n = _, H2 : an_body ?n = _ |- _ => rewrite H1 in H2; simplify_eq
  | H1 : fisics_units_math_operation ?st ?n = _, H2 : fisics_units_math_operation ?st ?n = _ |- _ =>
      rewrite H1 in H2; simplify_eq
  | H : @eq FisicsUnitsMathOperation _ _ \/ _ |- _ => destruct H; simplify_eq
  | H : op_in (Some _) _ = true |- _ => by vm_compute in H
  | H : is_units_add_sub_op (Some _) = true |- _ => by vm_compute in H
  | H : is_units_comparison_op (Some _) = true |- _ => by vm_compute in H
  end.
Ltac rule H := inversion H; subst; clear H; unfold math_call in *; same_node.

Section Scaling.
Local Open Scope R_scope.
Variables (st : ExtState) (e : ASTNode) (ls : list R) (value value' : ASTNode -> R).
Hypothesis Htyped : units_typed st.
Hypothesis Hls : factors_ok ls.

(** The base units of [value'] are those of [value] changed by [ls]: a literal stands for the same
    number, a name for one that changes as its annotation says. *)
Definition rescaled : Prop :=
  forall n, within e n ->
    match an_body n with
    | AST_NUMBER_LITERAL _ | AST_CHAR_LITERAL _ => value' n = value n
    | AST_IDENTIFIER _ => forall a, name_annotation st n = Some a -> value' n = scale ls (ann_dim a) * value n
    | _ => True
    end.

(** What a choice depends on has a dimension. *)
Definition choices_derivable : Prop :=
  forall n c t f, within e n -> an_body n = AST_TERNARY_EXPRESSION (Some c) t f -> exists d, derives st c d.

Lemma positive_factors : positive ls.
Proof. apply Hls. Qed.

Lemma scale_zero_dim : scale ls fisics_dim_zero = 1.
Proof. apply scale_zero, positive_factors. Qed.

Lemma same_length (n m : ASTNode) (a b : FisicsDim8) : derives st n a -> derives st m b -> length a = length b.
Proof. intros [-> _]%derives_ok [-> _]%derives_ok; done. Qed.

Lemma compares_scaled (op : option string) (k x y : R) : 0 < k -> compares op (k * x) (k * y) <-> compares op x y.
Proof.
  intros Hk. unfold compares.
  assert (Heq : k * x = k * y <-> x = y) by (split; [intros H; apply (Rmult_eq_reg_l k); [done|lra]|by intros ->]).
  assert (Hlt : forall a b, k * a < k * b <-> a < b) by (intros; split; [by apply (Rmult_lt_reg_l k)|by apply Rmult_lt_compat_l]).
  assert (Hle : forall a b, k * a <= k * b <-> a <= b) by (intros; split; [by apply (Rmult_le_reg_l k)|intros; apply Rmult_le_compat_l; lra]).
  assert (Hge : k * x >= k * y <-> x >= y) by (split; intros H%Rge_le; apply Rle_ge; by apply Hle).
  repeat match goal with |- context [if op_is op ?s then _ else _] => destruct (op_is op s) end; auto.
  - by rewrite Heq.
  - apply Hlt.
Qed.

Lemma Rmult_max (k x y : R) : 0 < k -> Rmax (k * x) (k * y) = k * Rmax x y.
Proof. intros Hk. rewrite RmaxRmult by lra. done. Qed.

Lemma Rmult_min (k x y : R) : 0 < k -> Rmin (k * x) (k * y) = k * Rmin x y.
Proof.
  intros Hk. unfold Rmin. destruct (Rle_dec x y) as [H|H], (Rle_dec (k * x) (k * y)) as [H'|H']; try done; exfalso.
  - apply H', Rmult_le_compat_l; lra.
  - apply H. by apply (Rmult_le_reg_l k).
Qed.

Lemma sqrt_scaled (k x : R) : 0 < k -> 0 <= x -> sqrt (k * k * x) = k * sqrt x.
Proof. intros Hk Hx. rewrite sqrt_mult_alt by nra. rewrite sqrt_square; lra. Qed.

Hypothesis Hscaled : rescaled.
Hypothesis Hchoices : choices_derivable.

Lemma within_body (n c : ASTNode) (l : list (option ASTNode)) :
  within e n -> node_children n = omap Datatypes.id l -> Some c ∈ l -> within e c.
Proof. intros Hn Hl Hc. eapply within_child; [done|]. rewrite Hl. apply list_elem_of_omap. by exists (Some c). Qed.

(** The child of a node of the expression is one. *)
Ltac child :=
  match goal with
  | Hn : within e ?n, Hb : an_body ?n = _ |- within e ?c =>
      eapply within_body; [exact Hn|unfold node_children; rewrite Hb; reflexivity|]
  end.

Lemma comparison_not_sum (op : option string) : is_units_comparison_op op = true -> is_units_add_sub_op op = true -> False.
Proof.
  unfold is_units_comparison_op, is_units_add_sub_op, op_in, op_is. cbn [existsb].
  rewrite !orb_true_iff, !bool_decide_eq_true. intros H [->|[->|]]; [..|done]; naive_solver.
Qed.

Lemma scaled (n : ASTNode) (x y : R) : evaluates st value' n y -> x = y -> evaluates st value' n x.
Proof. by intros H ->. Qed.

Lemma pos (d : FisicsDim8) : 0 < scale ls d.
Proof. apply scale_pos, positive_factors. Qed.

(** The conclusion below, of one node. *)
Definition scales (n : ASTNode) (x : R) : Prop :=
  within e n -> forall d, derives st n d -> evaluates st value' n (scale ls d * x).

(** *** The rules for operators *)

Lemma comparison_scales (n l r : ASTNode) (op : option string) (x y b : R) :
  (b = 1 /\ compares op x y) \/ (b = 0 /\ ~ compares op x y) ->
  an_body n = AST_BINARY_EXPRESSION op (Some l) (Some r) -> is_units_comparison_op op = true ->
  scales l x -> scales r y -> scales n b.
Proof.
  intros Hb Hn Hop Hl Hr Hw d Hd.
  assert (Hc : d = fisics_dim_zero /\ exists a, derives st l a /\ derives st r a).
  { rule Hd; [by exfalso; eapply comparison_not_sum|]. eauto. }
  destruct Hc as (-> & a & Hdl & Hdr).
  apply Hl in Hdl; [|child; by repeat constructor]. apply Hr in Hdr; [|child; by repeat constructor].
  rewrite scale_zero_dim, Rmult_1_l. destruct Hb as [[-> Hb]|[-> Hb]].
  - eapply ev_true; [done..|]. by apply compares_scaled; [apply pos|].
  - eapply ev_false; [done..|]. by rewrite compares_scaled by apply pos.
Qed.

Lemma sum_scales (n l r : ASTNode) (plus : bool) (x y : R) :
  an_body n = AST_BINARY_EXPRESSION (Some (if plus then "+" else "-")%string) (Some l) (Some r) ->
  scales l x -> scales r y -> scales n (if plus then x + y else x - y).
Proof.
  intros Hn Hl Hr Hw d Hd.
  assert (Hc : derives st l d /\ derives st r d) by (destruct plus; rule Hd; eauto).
  destruct Hc as [Hdl Hdr]. apply Hl in Hdl; [|child; by repeat constructor]. apply Hr in Hdr; [|child; by repeat constructor].
  destruct plus; (eapply scaled; [first [by eapply ev_add|by eapply ev_sub]|lra]).
Qed.

Lemma product_scales (n l r : ASTNode) (x y : R) :
  an_body n = AST_BINARY_EXPRESSION (Some "*"%string) (Some l) (Some r) -> scales l x -> scales r y -> scales n (x * y).
Proof.
  intros Hn Hl Hr Hw d Hd. rule Hd. apply fisics_dim_add_Some in H2 as [-> _]. rename H0 into Hdl, H1 into Hdr.
  pose proof (same_length _ _ _ _ Hdl Hdr) as Hlen.
  apply Hl in Hdl; [|child; by repeat constructor]. apply Hr in Hdr; [|child; by repeat constructor].
  eapply scaled; [by eapply ev_mul|]. rewrite scale_add by (done || apply positive_factors). lra.
Qed.

Lemma quotient_scales (n l r : ASTNode) (x y : R) :
  an_body n = AST_BINARY_EXPRESSION (Some "/"%string) (Some l) (Some r) -> y <> 0 ->
  scales l x -> scales r y -> scales n (x / y).
Proof.
  intros Hn Hy Hl Hr Hw d Hd. rule Hd. apply fisics_dim_sub_Some in H2 as [-> _]. rename H0 into Hdl, H1 into Hdr.
  pose proof (same_length _ _ _ _ Hdl Hdr) as Hlen.
  apply Hl in Hdl; [|child; by repeat constructor]. apply Hr in Hdr; [|child; by repeat constructor].
  pose proof (pos b) as Hb. eapply scaled; [eapply ev_div; [done..|]|].
  - apply Rmult_integral_contrapositive. split; lra.
  - rewrite scale_div by (done || apply positive_factors). field. lra.
Qed.

Lemma choice_scales (n c k : ASTNode) (t f : option ASTNode) (b x : R) (first : bool) :
  an_body n = AST_TERNARY_EXPRESSION (Some c) t f -> (if first then t else f) = Some k ->
  evaluates st value c b -> scales c b -> (if first then b <> 0 else b = 0) -> scales k x -> scales n x.
Proof.
  intros Hn Hk _ Hc Hb Hx Hw d Hd.
  assert (Hdk : derives st k d) by (rule Hd; destruct first; by simplify_eq).
  destruct (Hchoices n c t f Hw Hn) as [a Ha]. apply Hc in Ha; [|child; by repeat constructor]. pose proof (pos a) as Hpa.
  apply Hx in Hdk; [|child; destruct first; subst; by repeat constructor].
  destruct first; subst.
  - eapply ev_then; [done|done| |done]. apply Rmult_integral_contrapositive. split; lra.
  - eapply ev_else; [done| |done]. by rewrite Rmult_0_r in Ha.
Qed.

(** *** The rules for math calls *)

Lemma argument_within (n a : ASTNode) (op : FisicsUnitsMathOperation) (arguments : list (option ASTNode)) :
  within e n -> math_call st n op arguments -> Some a ∈ arguments -> within e a.
Proof.
  intros Hw [[callee Hn] _] Ha. eapply within_body; [exact Hw|unfold node_children; rewrite Hn; reflexivity|]. by right.
Qed.

Lemma fabs_scales (n a : ASTNode) (x : R) :
  math_call st n FISICS_UNITS_MATH_FABS [Some a] -> scales a x -> scales n (Rabs x).
Proof.
  intros Hn Ha Hw d Hd. assert (Hda : derives st a d) by by rule Hd.
  apply Ha in Hda; [|eapply argument_within; [done..|by constructor]]. pose proof (pos d).
  eapply scaled; [by eapply ev_fabs|]. rewrite Rabs_mult, (Rabs_right (scale ls d)); lra.
Qed.

Lemma sqrt_scales (n a : ASTNode) (x : R) :
  math_call st n FISICS_UNITS_MATH_SQRT [Some a] -> 0 <= x -> scales a x -> scales n (sqrt x).
Proof.
  intros Hn Hx Ha Hw d Hd.
  assert (Hda : exists b, derives st a b /\ even_dim b /\ d = half_dim b) by (rule Hd; eauto).
  destruct Hda as (b & Hda & Heven & ->). apply Ha in Hda; [|eapply argument_within; [done..|by constructor]].
  pose proof (pos b). eapply scaled; [eapply ev_sqrt; [done..|]|].
  - apply Rmult_le_pos; lra.
  - unfold half_dim. rewrite scale_nonneg_root; [done|apply positive_factors|done|done].
Qed.

Lemma number_function_scales (n a : ASTNode) (op : FisicsUnitsMathOperation) (x y : R) :
  op = FISICS_UNITS_MATH_EXPM1 /\ y = exp x - 1 \/ op = FISICS_UNITS_MATH_LOG /\ 0 < x /\ y = ln x ->
  math_call st n op [Some a] -> scales a x -> scales n y.
Proof.
  intros Hop Hn Ha Hw d Hd.
  assert (Hda : derives st a fisics_dim_zero /\ d = fisics_dim_zero) by (destruct Hop as [[-> _]|[-> _]]; by rule Hd).
  destruct Hda as [Hda ->]. apply Ha in Hda; [|eapply argument_within; [done..|by constructor]].
  rewrite scale_zero_dim, Rmult_1_l in *. destruct Hop as [[-> ->]|(-> & Hx & ->)]; [by eapply ev_expm1|by eapply ev_log].
Qed.

(** Two arguments of one dimension. *)
Lemma pair_arguments (n a b : ASTNode) (op : FisicsUnitsMathOperation) (x y : R) (d : FisicsDim8) :
  op = FISICS_UNITS_MATH_HYPOT \/ op = FISICS_UNITS_MATH_FMAX \/ op = FISICS_UNITS_MATH_FMIN ->
  math_call st n op [Some a; Some b] -> scales a x -> scales b y -> within e n -> derives st n d ->
  evaluates st value' a (scale ls d * x) /\ evaluates st value' b (scale ls d * y).
Proof.
  intros Hop Hn Ha Hb Hw Hd. assert (Hdd : derives st a d /\ derives st b d) by (destruct Hop as [->|[->| ->]]; by rule Hd).
  destruct Hdd. split; [apply Ha|apply Hb]; try done; (eapply argument_within; [done..|by repeat constructor]).
Qed.

Lemma angle_scales (n a b : ASTNode) (y x rho theta : R) :
  math_call st n FISICS_UNITS_MATH_ATAN2 [Some a; Some b] -> scales a y -> scales b x ->
  0 < rho -> - PI < theta <= PI -> y = rho * sin theta -> x = rho * cos theta -> scales n theta.
Proof.
  intros Hn Ha Hb Hrho Htheta Hy Hx Hw d Hd.
  assert (Hdd : d = fisics_dim_zero /\ exists c, derives st a c /\ derives st b c) by (rule Hd; eauto).
  destruct Hdd as (-> & c & Hda & Hdb). apply Ha in Hda; [|eapply argument_within; [done..|by repeat constructor]].
  apply Hb in Hdb; [|eapply argument_within; [done..|by repeat constructor]].
  rewrite scale_zero_dim, Rmult_1_l. eapply (ev_atan2 _ _ _ _ _ _ _ (scale ls c * rho)); [done..| |done| |].
  - apply Rmult_lt_0_compat; [apply pos|done].
  - rewrite Hy. lra.
  - rewrite Hx. lra.
Qed.

Lemma pair_scales (n a b : ASTNode) (op : FisicsUnitsMathOperation) (x y z : R) :
  op = FISICS_UNITS_MATH_HYPOT /\ z = sqrt (x * x + y * y) \/ op = FISICS_UNITS_MATH_FMAX /\ z = Rmax x y
    \/ op = FISICS_UNITS_MATH_FMIN /\ z = Rmin x y ->
  math_call st n op [Some a; Some b] -> scales a x -> scales b y -> scales n z.
Proof.
  intros Hop Hn Ha Hb Hw d Hd. pose proof (pos d) as Hpd.
  destruct (pair_arguments n a b op x y d) as [Hea Heb]; [naive_solver|done..|].
  destruct Hop as [[-> ->]|[[-> ->]|[-> ->]]].
  - eapply scaled; [by eapply ev_hypot|]. rewrite <- sqrt_scaled by nra. f_equal. lra.
  - eapply scaled; [by eapply ev_fmax|]. by rewrite Rmult_max.
  - eapply scaled; [by eapply ev_fmin|]. by rewrite Rmult_min.
Qed.

(** *** All rules *)

Lemma leaf_scales (n : ASTNode) : is_leaf n = true -> scales n (value n).
Proof.
  intros Hleaf Hw d Hd. pose proof (Hscaled n Hw) as Hs. eapply scaled; [by apply ev_leaf|].
  unfold is_leaf in Hleaf. destruct (an_body n) eqn:Hb; try done; rule Hd.
  - by rewrite scale_zero_dim, Rmult_1_l.
  - by rewrite scale_zero_dim, Rmult_1_l.
  - symmetry. auto.
Qed.

(** A value in the new units. *)
Lemma derives_scales (n : ASTNode) (x : R) : evaluates st value n x -> scales n x.
Proof.
  induction 1.
  - by apply leaf_scales.
  - intros Hw d Hd. eapply ev_plus; [done|]. apply IHevaluates; [child; by constructor|by rule Hd].
  - intros Hw d Hd. eapply scaled; [eapply ev_minus; [done|apply (IHevaluates ltac:(child; by constructor) d); by rule Hd]|lra].
  - intros Hw d Hd. eapply ev_cast; [done..|]. apply IHevaluates; [child; by constructor|by rule Hd].
  - intros Hw d Hd. eapply ev_comma; [done..|]. apply IHevaluates; [child; by apply last_Some_elem_of|by rule Hd].
  - by apply (sum_scales n l r true).
  - by apply (sum_scales n l r false).
  - by apply (product_scales n l r).
  - by apply (quotient_scales n l r).
  - eapply comparison_scales; [by left|done..].
  - eapply comparison_scales; [by right|done..].
  - by apply (choice_scales n c t (Some t) f b x true).
  - by apply (choice_scales n c f t (Some f) 0 x false).
  - by apply (fabs_scales n a).
  - by apply (sqrt_scales n a).
  - eapply number_function_scales; [by left|done..].
  - eapply number_function_scales; [by right|done..].
  - eapply pair_scales; [by left|done..].
  - eapply pair_scales; [by right; left|done..].
  - eapply pair_scales; [by right; right|done..].
  - by apply (angle_scales n a b y x rho theta).
Qed.
End Scaling.

(** ** The pass records derivable dimensions *)

Lemma lookup_upsert (id id' : NodeId) (r r' : FisicsUnitsExprResult) (l : list FisicsUnitsExprResult) :
  er_node r = id -> List.find (has_result id') (upsert (has_result id) (fun _ => r) r l) = Some r' ->
  (id = id' /\ r' = r) \/ List.find (has_result id') l = Some r'.
Proof.
  intros Hid. assert (Hr : has_result id' r = true -> id = id') by (unfold has_result; rewrite Hid; apply Nat.eqb_eq).
  induction l as [|x l IH]; cbn [upsert List.find].
  - destruct (has_result id' r); [intros [= <-]; left; auto|done].
  - destruct (has_result id x) eqn:Ex; cbn [List.find].
    + destruct (has_result id' r) eqn:Er; [intros [= <-]; left; auto|]. intros H. right.
      unfold has_result in *. apply Nat.eqb_eq in Ex. by rewrite Ex, <- Hid, Er.
    + by destruct (has_result id' x); [right|apply IH].
Qed.

(** What the walk of a pure expression leaves as it is. *)
Record same_tables (a b : ExtState) : Prop := {
  st_annotations : xs_annotations b = xs_annotations a;
  st_bindings : xs_bindings b = xs_bindings a;
  st_mathCalls : xs_mathCalls b = xs_mathCalls a
}.

Lemma math_same (st s : ExtState) (n : ASTNode) :
  same_tables st s -> fisics_units_math_operation s n = fisics_units_math_operation st n.
Proof. intros [_ _ Em]. unfold fisics_units_math_operation. by rewrite Em. Qed.

Section Walk.
Variables (host : Host) (root_scope : Scope) (st : ExtState) (e : ASTNode).
Hypothesis Htyped : units_typed st.
Hypothesis Hpure : forall n, within e n -> pure st n = true.
Hypothesis Haddress : forall n m, within e n -> within e m -> an_id n = an_id m -> n = m.

Record derived (s : ExtState) : Prop := {
  de_same : same_tables st s;
  de_results : forall n r, within e n -> lookup_result s (an_id n) = Some r -> derives st n (er_dim r)
}.

Lemma set_derived (n : ASTNode) (d : FisicsDim8) (u : option FisicsUnitDef) (b : bool) :
  within e n -> derives st n d ->
  triple derived (fisics_extension_set_units_expr_result_with_unit n d true u b) (fun _ => True).
Proof.
  intros Hn Hd. apply triple_modify. intros s [[Ha Hb Hm] Hr]. split; [by split|]. intros m r Hm' Hl.
  apply lookup_upsert in Hl as [[Hid ->]|Hl]; [|by apply Hr|done].
  by rewrite <- (Haddress n m Hn Hm' Hid).
Qed.

Lemma report_derived (d : UnitsDiag) : triple derived (report d) (fun _ => True).
Proof. apply triple_modify. by intros s [[Ha Hb Hm] Hr]. Qed.

(** [o] is a node of the expression or NULL; the dimension found for it is derivable. *)
Definition inside (o : option ASTNode) : Prop := forall c, o = Some c -> within e c.
Definition known (o : option ASTNode) (res : option FisicsUnitsExprResult) : Prop :=
  forall r, res = Some r -> exists c, o = Some c /\ derives st c (er_dim r).

Lemma result_derived (o : option ASTNode) :
  inside o -> triple derived (fisics_extension_lookup_units_expr_result o) (known o).
Proof.
  intros Ho s r s' Hs [= <- <-]. split; [done|]. intros a [= <-] x Hx. destruct o as [c|]; [|done].
  exists c. split; [done|]. by apply (de_results _ Hs c x (Ho c eq_refl)).
Qed.

Lemma filter_derived (m : XM (option FisicsUnitsExprResult)) (o : option ASTNode) :
  triple derived m (known o) ->
  triple derived (bind m (fun r => ret (match r with Some r => if er_resolved r then Some r else None | None => None end)))
    (known o).
Proof.
  intros Hm. eapply triple_bind; [exact Hm|]. intros [r|] Hr; apply triple_ret; [|done].
  intros x Hx. apply Hr. by destruct (er_resolved r).
Qed.

Lemma metadata_derived (o : option ASTNode) : inside o -> triple derived (lookup_resolved_expr_metadata o) (known o).
Proof. intros Ho. by apply filter_derived, result_derived. Qed.

Lemma argument_derived (arguments : list (option ASTNode)) (i : nat) :
  (forall o, o ∈ arguments -> inside o) ->
  triple derived (resolved_argument arguments i) (fun res => exists o, arguments !! i = Some o /\ known o res).
Proof.
  intros Hin. eapply triple_bind; [apply (triple_lift _ _ (fun o => arguments !! i = Some o)); auto|].
  intros o Ho. eapply triple_mono; [apply filter_derived, result_derived|].
  - by apply Hin, (list_elem_of_lookup_2 _ i).
  - intros res Hres. by exists o.
Qed.

Lemma equal_dims (n m : ASTNode) (a b : FisicsDim8) :
  derives st n a -> derives st m b -> fisics_dim_equal a b = true -> a = b.
Proof. intros Ha%derives_ok Hb%derives_ok He; [|done..]. by apply fisics_dim_equal_spec. Qed.

Lemma copy_derived (n : ASTNode) (o : option ASTNode) :
  within e n -> inside o -> (forall c d, o = Some c -> derives st c d -> derives st n d) ->
  triple derived (copy_result n o) (fun _ => True).
Proof.
  intros Hn Ho Hrule. eapply triple_bind; [by apply metadata_derived|]. intros [r|] Hr; [|by apply triple_ret].
  destruct (Hr r eq_refl) as (c & Hc & Hd). apply set_derived; [done|]. by apply (Hrule c).
Qed.

Lemma binary_derived (n : ASTNode) (op : option string) (l r : option ASTNode) :
  within e n -> an_body n = AST_BINARY_EXPRESSION op l r -> inside l -> inside r ->
  triple derived (maybe_record_binary_result n op l r) (fun _ => True).
Proof.
  intros Hn Hb Hl Hr. eapply triple_bind; [by apply metadata_derived|]. intros a Ha.
  eapply triple_bind; [by apply metadata_derived|]. intros b Hb'.
  destruct a as [a|], b as [b|]; try by apply triple_ret.
  destruct (Ha a eq_refl) as (x & -> & Hx), (Hb' b eq_refl) as (y & -> & Hy).
  destruct (is_units_add_sub_op op) eqn:Esum; [|destruct (is_units_mul_div_op op) eqn:Emul; [|destruct (is_units_comparison_op op) eqn:Ecmp; [|by apply triple_ret]]].
  - unfold record_add_sub, maybe_report_binary_mismatch, record_common. destruct (fisics_dim_equal _ _) eqn:Ee; cbn [negb].
    + rewrite <- (equal_dims _ _ _ _ Hx Hy Ee) in Hy. case_match; [apply report_derived|]. apply set_derived; [done|].
      by eapply derives_sum.
    + repeat case_match; try apply report_derived; by apply triple_ret.
  - unfold record_mul_div. cbn zeta. destruct (op_is op "*") eqn:Eop.
    + apply bool_decide_eq_true in Eop as ->. destruct (fisics_dim_add _ _) eqn:Ed; [|apply report_derived].
      apply set_derived; [done|]. by eapply derives_product.
    + assert (op = Some "/"%string) as ->.
      { unfold is_units_mul_div_op, op_in, op_is in *. cbn [existsb] in Emul.
        rewrite Eop, orb_false_l, orb_false_r in Emul. by apply bool_decide_eq_true in Emul. }
      destruct (fisics_dim_sub _ _) eqn:Ed; [|apply report_derived]. apply set_derived; [done|]. by eapply derives_quotient.
  - unfold record_comparison. destruct (fisics_dim_equal _ _) eqn:Ee; cbn [negb]; [|apply report_derived].
    rewrite <- (equal_dims _ _ _ _ Hx Hy Ee) in Hy. case_match; [apply report_derived|]. apply set_derived; [done|].
    by eapply derives_comparison.
Qed.

Lemma ternary_derived (n : ASTNode) (c t f : option ASTNode) :
  within e n -> an_body n = AST_TERNARY_EXPRESSION c t f -> inside t -> inside f ->
  triple derived (maybe_record_ternary_result n t f) (fun _ => True).
Proof.
  intros Hn Hb Ht Hf. eapply triple_bind; [by apply metadata_derived|]. intros a Ha.
  eapply triple_bind; [by apply metadata_derived|]. intros b Hb'.
  destruct a as [a|], b as [b|]; try by apply triple_ret.
  destruct (Ha a eq_refl) as (x & -> & Hx), (Hb' b eq_refl) as (y & -> & Hy).
  destruct (fisics_dim_equal _ _) eqn:Ee; cbn [negb]; [|apply report_derived].
  rewrite <- (equal_dims _ _ _ _ Hx Hy Ee) in Hy. case_match; [apply report_derived|]. apply set_derived; [done|].
  by eapply derives_choice.
Qed.

Lemma identifier_derived (n : ASTNode) (v : option string) :
  within e n -> an_body n = AST_IDENTIFIER v -> triple derived (record_identifier_result n) (fun _ => True).
Proof.
  intros Hn Hb. unfold record_identifier_result. eapply triple_bind; [apply triple_get|]. intros s [[Ea Eb _] _].
  destruct (usable_annotation s _) as [a|] eqn:Eu; [|by apply triple_ret]. apply set_derived; [done|].
  eapply derives_identifier; [done|]. rewrite <- Eu. unfold name_annotation, usable_annotation, annotation_at,
    fisics_extension_lookup_units_annotation_binding, binding_of. by rewrite Ea, Eb.
Qed.

(** *** Math calls *)

Lemma pure_call (n : ASTNode) (callee : option ASTNode) (arguments : list (option ASTNode)) :
  within e n -> an_body n = AST_FUNCTION_CALL callee arguments ->
  fisics_units_math_operation st n <> FISICS_UNITS_MATH_NONE /\
  length arguments = math_arity (fisics_units_math_operation st n) /\ node_is_explicit_units_convert_call n = false.
Proof.
  intros Hn Hb. pose proof (Hpure n Hn) as Hp. unfold pure in Hp. rewrite Hb, !andb_true_iff in Hp.
  destruct Hp as [[Hop%negb_true_iff%bool_decide_eq_false Hl%Nat.eqb_eq] Hc%negb_true_iff]. by split_and!.
Qed.

Lemma one_argument (arguments : list (option ASTNode)) (a : ASTNode) :
  length arguments = 1%nat -> arguments !! 0%nat = Some (Some a) -> arguments = [Some a].
Proof. destruct arguments as [|? [|]]; cbn; [done|by intros _ [= ->]|done]. Qed.

Lemma two_arguments (arguments : list (option ASTNode)) (a b : ASTNode) :
  length arguments = 2%nat -> arguments !! 0%nat = Some (Some a) -> arguments !! 1%nat = Some (Some b) ->
  arguments = [Some a; Some b].
Proof. destruct arguments as [|? [|? [|]]]; cbn; try done. by intros _ [= ->] [= ->]. Qed.

Lemma matching_derived (op : FisicsUnitsMathOperation) (n a : ASTNode) (arguments : list (option ASTNode))
    (arg : FisicsUnitsExprResult) (k : FisicsUnitsExprResult -> XM unit) :
  (forall o, o ∈ arguments -> inside o) -> derives st a (er_dim arg) ->
  (forall b rhs, arguments !! 1%nat = Some (Some b) -> derives st b (er_dim arg) -> triple derived (k rhs) (fun _ => True)) ->
  triple derived (matching_arguments op n arguments arg k) (fun _ => True).
Proof.
  intros Hin Ha Hk. unfold matching_arguments. eapply triple_bind; [by apply argument_derived|].
  intros [rhs|] (o & Ho & Hrhs); [|by apply triple_ret]. destruct (Hrhs rhs eq_refl) as (b & -> & Hb).
  destruct (fisics_dim_equal _ _) eqn:Ee; cbn [negb]; [|apply report_derived].
  rewrite <- (equal_dims _ _ _ _ Ha Hb Ee) in Hb. case_match; [apply report_derived|]. by apply (Hk b).
Qed.

Lemma number_function_derived (op : FisicsUnitsMathOperation) (n a : ASTNode) (arg : FisicsUnitsExprResult) :
  within e n -> op = FISICS_UNITS_MATH_EXPM1 \/ op = FISICS_UNITS_MATH_LOG -> math_call st n op [Some a] ->
  derives st a (er_dim arg) -> triple derived (record_dimensionless_math op n arg) (fun _ => True).
Proof.
  intros Hn Hop Hc Ha. unfold record_dimensionless_math. destruct (fisics_dim_equal _ _) eqn:Ee; [|apply report_derived].
  apply set_derived; [done|]. apply fisics_dim_equal_spec in Ee; [|by eapply derives_ok|apply dim_zero_ok].
  rewrite Ee in Ha. by eapply derives_number_function.
Qed.

Lemma sqrt_derived (n a : ASTNode) (arg : FisicsUnitsExprResult) :
  within e n -> math_call st n FISICS_UNITS_MATH_SQRT [Some a] -> derives st a (er_dim arg) ->
  triple derived (record_sqrt n arg) (fun _ => True).
Proof.
  intros Hn Hc Ha. unfold record_sqrt. cbn zeta. destruct (existsb _ _) eqn:Ex; [apply report_derived|].
  assert (Hd : derives st n (half_dim (er_dim arg))).
  { eapply derives_sqrt; [done..|]. apply Forall_forall. intros x Hx. apply Z.eqb_eq.
    destruct (Z.rem x 2 =? 0)%Z eqn:E; [done|]. exfalso.
    assert (H : existsb (fun e => negb (Z.rem e 2 =? 0)%Z) (er_dim arg) = true).
    { apply existsb_exists. exists x. rewrite E. split; [by apply list_elem_of_In|done]. }
    by rewrite H in Ex. }
  repeat case_match; try apply report_derived; by apply set_derived.
Qed.

Lemma math_derived (n : ASTNode) (callee : option ASTNode) (arguments : list (option ASTNode)) :
  within e n -> an_body n = AST_FUNCTION_CALL callee arguments -> (forall o, o ∈ arguments -> inside o) ->
  triple derived (fisics_units_record_math_result n arguments) (fun recognised => recognised = true).
Proof.
  intros Hn Hb Hin. destruct (pure_call n callee arguments Hn Hb) as (Hop & Hlen & _).
  unfold fisics_units_record_math_result. eapply triple_bind; [apply triple_get|]. intros s [Hs _]. cbn zeta.
  rewrite (math_same st) by done.
  assert (Hcall : math_call st n (fisics_units_math_operation st n) arguments) by (split; [by exists callee|done]).
  set (op := fisics_units_math_operation st n) in *. clearbody op.
  rewrite decide_False by done. eapply triple_bind; [by apply argument_derived|].
  intros res (o & Ho & Hres). eapply (triple_bind _ _ _ (fun _ => True)); [|intros _ _; by apply triple_ret].
  destruct res as [arg|]; [|by apply triple_ret]. destruct (Hres arg eq_refl) as (a & -> & Ha).
  destruct op; try done; cbn in Hlen.
  all: try (pose proof (one_argument _ a Hlen Ho) as E; subst arguments).
  - by eapply sqrt_derived.
  - apply set_derived; [done|]. by eapply derives_fabs.
  - eapply matching_derived; [done..|]. intros b rhs Hb2 Hdb. rewrite (two_arguments _ a b Hlen Ho Hb2) in Hcall.
    apply set_derived; [done|]. eapply derives_pair; [|exact Hcall|done..]. auto.
  - eapply matching_derived; [done..|]. intros b rhs Hb2 Hdb. rewrite (two_arguments _ a b Hlen Ho Hb2) in Hcall.
    apply set_derived; [done|]. eapply derives_pair; [|exact Hcall|done..]. auto.
  - eapply number_function_derived; [done| |done..]. by left.
  - eapply number_function_derived; [done| |done..]. by right.
  - eapply matching_derived; [done..|]. intros b rhs Hb2 Hdb. rewrite (two_arguments _ a b Hlen Ho Hb2) in Hcall.
    apply set_derived; [done|]. eapply derives_pair; [|exact Hcall|done..]. auto.
  - eapply matching_derived; [done..|]. intros b rhs Hb2 Hdb. rewrite (two_arguments _ a b Hlen Ho Hb2) in Hcall.
    apply set_derived; [done|]. by eapply derives_angle.
Qed.

(** *** The walk *)

Lemma check_derived (d : FisicsDim8) (u : option FisicsUnitDef) (o : option ASTNode)
    (mismatch : FisicsDim8 -> FisicsDim8 -> UnitsDiag) (context : string) :
  inside o -> triple derived (check_against d u o mismatch context) (fun _ => True).
Proof.
  intros Ho. eapply triple_bind; [by apply metadata_derived|]. intros [r|] _; [|by apply triple_ret].
  repeat case_match; try apply report_derived; by apply triple_ret.
Qed.

Lemma arguments_derived (n : ASTNode) (callee : option ASTNode) (arguments : list (option ASTNode)) :
  (forall o, o ∈ arguments -> inside o) ->
  triple derived (fisics_units_validate_call_arguments root_scope n callee arguments) (fun _ => True).
Proof.
  intros Hin. apply triple_for_each; [|done]. intros _ i _. eapply triple_bind; [apply triple_get|]. intros s _.
  destruct (expected_argument _ _ _ _) as [[d u]|]; [|by apply triple_ret]. cbn zeta.
  case_match; [by apply triple_ret|]. apply check_derived. intros c Hc.
  destruct (arguments !! i) as [o|] eqn:Ei; [|done]. cbn in Hc. by apply (Hin o); [eapply list_elem_of_lookup_2|].
Qed.

(** The children of a node of the expression. *)
Lemma children_inside (n : ASTNode) (l : list (option ASTNode)) (o : option ASTNode) :
  within e n -> node_children n = omap Datatypes.id l -> o ∈ l -> inside o.
Proof. intros Hn Hl Ho c ->. by eapply within_body. Qed.

Ltac inside := eapply children_inside; [eassumption|unfold node_children; match goal with H : an_body _ = _ |- _ => rewrite H end; reflexivity|by repeat constructor].

Lemma walk_step_derived (walk : option ASTNode -> option ASTNode -> XM unit) (fn o : option ASTNode) :
  (forall fn o, inside o -> triple derived (walk fn o) (fun _ => True)) -> inside o ->
  triple derived (walk_step host root_scope walk fn o) (fun _ => True).
Proof.
  intros Hrec Ho. destruct o as [n|]; [|by apply triple_ret]. pose proof (Ho n eq_refl) as Hn. pose proof (Hpure n Hn) as Hp.
  assert (Hthen : forall o (k : XM unit), inside o -> triple derived k (fun _ => True) -> triple derived (let* _ := walk fn o in k) (fun _ => True)).
  { intros o k Hin Hk. eapply triple_bind; [by apply Hrec|]. by intros. }
  assert (Hlist : forall l, (forall o, o ∈ l -> inside o) -> triple derived (walk_list walk fn l) (fun _ => True)).
  { intros l Hl. unfold walk_list. assert (H : forall o, o ∈ l -> triple derived (walk fn o) (fun _ => True)) by auto. clear Hl.
    induction l as [|x l IH]; [by apply triple_ret|]. eapply triple_bind; [apply H; by left|]. intros [] _. apply IH.
    intros y Hy. apply H. by right. }
  unfold walk_step. cbn zeta. unfold pure in Hp. destruct (an_body n) eqn:Hb; try done.
  - repeat (apply Hthen; [inside|]). apply (ternary_derived n condition); [done..|inside|inside].
  - repeat (apply Hthen; [inside|]). apply binary_derived; [done..|inside|inside].
  - apply Hthen; [inside|]. apply negb_true_iff in Hp. unfold op_in in Hp. cbn [existsb] in Hp.
    rewrite !orb_false_iff in Hp. destruct Hp as (Hstar & Hinc & Hdec & _). rewrite Hstar.
    eapply (triple_bind _ _ _ (fun _ => True)); [|intros; by apply triple_ret]. unfold maybe_record_unary_result.
    destruct (is_units_preserving_unary_op op) eqn:Epres; [|by apply triple_ret].
    apply copy_derived; [done|inside|]. intros c d ->. apply derives_sign with op isPostfix; [done|].
    unfold is_units_preserving_unary_op, op_in in *. cbn [existsb] in *. by rewrite Hinc, Hdec in Epres.
  - assert (Hin : forall o, o ∈ expressions -> inside o).
    { intros o Hin. eapply children_inside; [exact Hn|unfold node_children; by rewrite Hb|done]. }
    eapply triple_bind; [by apply Hlist|]. intros _ _. unfold maybe_record_comma_result.
    destruct (last expressions) as [o|] eqn:El; [|by apply triple_ret]. apply copy_derived; [done| |].
    + by apply Hin, last_Some_elem_of.
    + intros c d -> Hd. by eapply derives_comma.
  - apply Hthen; [inside|]. apply copy_derived; [done|inside|]. intros c d -> Hd. by eapply derives_cast.
  - apply set_derived; [done|]. by eapply derives_number.
  - apply set_derived; [done|]. by eapply derives_char.
  - by eapply identifier_derived.
  - assert (Hin : forall o, o ∈ arguments -> inside o).
    { intros o Hin. eapply children_inside; [exact Hn|unfold node_children; by rewrite Hb|by right]. }
    unfold walk_call. apply Hthen; [inside|]. eapply triple_bind; [by apply Hlist|]. intros _ _.
    destruct (pure_call n _ _ Hn Hb) as (_ & _ & Hconv).
    eapply (triple_bind _ _ _ (fun _ => True)); [unfold maybe_record_units_conversion_call; rewrite Hconv; by apply triple_ret|].
    intros _ _. eapply triple_bind; [by eapply math_derived|]. intros b ->.
    eapply triple_bind; [by apply (triple_ret _ _ (fun _ => True))|]. intros _ _. by apply arguments_derived.
Qed.

Lemma walk_derived (fuel : nat) (fn o : option ASTNode) :
  inside o -> triple derived (walk_expr_results host root_scope fuel fn o) (fun _ => True).
Proof. revert fn o. induction fuel as [|fuel IH]; intros fn o Ho; [apply triple_stuck|]. by apply walk_step_derived. Qed.

(** *** The walk ends *)

Definition ends {A} (m : XM A) : Prop :=
  forall s, same_tables st s -> exists a s', m s = Some (Some a, s') /\ same_tables st s'.

Lemma ends_ret {A} (a : A) : ends (ret a).
Proof. intros s Hs. by exists a, s. Qed.
Lemma ends_bind {A B} (m : XM A) (k : A -> XM B) : ends m -> (forall a, ends (k a)) -> ends (bind m k).
Proof.
  intros Hm Hk s Hs. destruct (Hm s Hs) as (a & s1 & H & Hs1). destruct (Hk a s1 Hs1) as (b & s2 & H2 & Hs2).
  exists b, s2. unfold bind. by rewrite H.
Qed.
Lemma ends_get {A} (k : ExtState -> XM A) : (forall s, same_tables st s -> ends (k s)) -> ends (bind get k).
Proof. intros Hk s Hs. by apply (Hk s Hs s). Qed.
Lemma ends_modify (f : ExtState -> ExtState) : (forall s, same_tables st s -> same_tables st (f s)) -> ends (modify f).
Proof. intros Hf s Hs. exists tt, (f s). split; [done|auto]. Qed.
Lemma ends_report (d : UnitsDiag) : ends (report d).
Proof. apply ends_modify. by intros s [Ha Hb Hm]. Qed.
Lemma ends_set (n : ASTNode) (d : FisicsDim8) (u : option FisicsUnitDef) (b : bool) :
  ends (fisics_extension_set_units_expr_result_with_unit n d true u b).
Proof. apply ends_modify. by intros s [Ha Hb Hm]. Qed.
Lemma ends_list {A} (f : unit -> A -> XM unit) (l : list A) : (forall a, a ∈ l -> ends (f tt a)) -> ends (for_each f tt l).
Proof.
  induction l as [|x l IH]; intros Hl; [apply ends_ret|]. apply ends_bind; [apply Hl; by left|].
  intros []. apply IH. intros a Ha. apply Hl. by right.
Qed.
Lemma ends_argument (arguments : list (option ASTNode)) (i : nat) :
  (i < length arguments)%nat -> ends (resolved_argument arguments i).
Proof.
  intros Hi. apply lookup_lt_is_Some in Hi as [o Ho]. unfold resolved_argument. rewrite Ho.
  apply ends_bind; [apply ends_ret|]. intros a. apply ends_bind; [apply ends_get; intros; apply ends_ret|].
  intros r. apply ends_ret.
Qed.

Ltac ends_step :=
  lazymatch goal with
  | |- ends (ret _) => apply ends_ret
  | |- ends (report _) => apply ends_report
  | |- ends (fisics_extension_set_units_expr_result_with_unit _ _ _ _ _) => apply ends_set
  | |- ends (bind get _) => apply ends_get; intros ? ?
  | |- ends (bind (resolved_argument _ _) _) => apply ends_bind; [apply ends_argument; lia|intros ?]
  | |- ends (bind _ _) => apply ends_bind; [|intros ?]
  | |- ends (match ?x with _ => _ end) => destruct x
  end.
Ltac ends := repeat ends_step.

Lemma ends_metadata (o : option ASTNode) : ends (lookup_resolved_expr_metadata o).
Proof. unfold lookup_resolved_expr_metadata, fisics_extension_lookup_units_expr_result. ends. Qed.

Lemma ends_copy (n : ASTNode) (o : option ASTNode) : ends (copy_result n o).
Proof. apply ends_bind; [apply ends_metadata|]. intros [r|]; apply ends_set || apply ends_ret. Qed.

Lemma ends_binary (n : ASTNode) (op : option string) (l r : option ASTNode) : ends (maybe_record_binary_result n op l r).
Proof.
  apply ends_bind; [apply ends_metadata|]. intros a. apply ends_bind; [apply ends_metadata|]. intros b.
  unfold record_add_sub, maybe_report_binary_mismatch, record_mul_div, record_comparison, record_common, record_result,
    fisics_extension_set_units_expr_result. ends.
Qed.

Lemma ends_ternary (n : ASTNode) (t f : option ASTNode) : ends (maybe_record_ternary_result n t f).
Proof.
  apply ends_bind; [apply ends_metadata|]. intros a. apply ends_bind; [apply ends_metadata|]. intros b.
  unfold record_common, record_result. ends.
Qed.

Lemma ends_identifier (n : ASTNode) : ends (record_identifier_result n).
Proof. unfold record_identifier_result, record_result. ends. Qed.

Lemma ends_math (n : ASTNode) (arguments : list (option ASTNode)) :
  length arguments = math_arity (fisics_units_math_operation st n) -> ends (fisics_units_record_math_result n arguments).
Proof.
  intros Hlen. apply ends_get. intros s Hs. cbn zeta. rewrite (math_same st) by done.
  destruct (fisics_units_math_operation st n); cbn in Hlen;
    unfold record_sqrt, record_dimensionless_math, matching_arguments, set_result; cbn zeta; ends; done.
Qed.

Lemma ends_arguments (n : ASTNode) (callee : option ASTNode) (arguments : list (option ASTNode)) :
  ends (fisics_units_validate_call_arguments root_scope n callee arguments).
Proof.
  apply ends_list. intros i _. apply ends_get. intros s _. destruct (expected_argument _ _ _ _) as [[d u]|]; [|apply ends_ret].
  cbn zeta. destruct (fisics_units_is_literal_value _); [apply ends_ret|].
  apply ends_bind; [apply ends_metadata|]. intros r. ends.
Qed.

(** A known math call is recognised, so its own contract is not looked up. *)
Lemma recognised (n : ASTNode) (arguments : list (option ASTNode)) (s s1 : ExtState) (b : bool) :
  fisics_units_math_operation st n <> FISICS_UNITS_MATH_NONE -> same_tables st s ->
  fisics_units_record_math_result n arguments s = Some (Some b, s1) -> b = true.
Proof.
  intros Hop Hs (s2 & s3 & [= <- <-] & H)%bind_some. cbn zeta in H. rewrite (math_same st) in H by done.
  rewrite decide_False in H by done. apply bind_some in H as (a & s4 & _ & H). apply bind_some in H as ([] & s5 & _ & H).
  by injection H.
Qed.

Lemma walk_step_ends (walk : option ASTNode -> option ASTNode -> XM unit) (fn : option ASTNode) (n : ASTNode) :
  within e n -> (forall fn c, c ∈ node_children n -> ends (walk fn (Some c))) -> (forall fn, ends (walk fn None)) ->
  ends (walk_step host root_scope walk fn (Some n)).
Proof.
  intros Hn Hrec Hnull. pose proof (Hpure n Hn) as Hp.
  assert (Hchild : forall l o, node_children n = omap Datatypes.id l -> o ∈ l -> ends (walk fn o)).
  { intros l [c|] Hl Hin; [|apply Hnull]. apply Hrec. rewrite Hl. apply list_elem_of_omap. by exists (Some c). }
  unfold walk_step. cbn zeta. unfold pure in Hp. destruct (an_body n) eqn:Hb; try done.
  all: repeat (apply ends_bind; [eapply Hchild; [unfold node_children; rewrite Hb; reflexivity|by repeat constructor]|intros _]).
  - apply ends_ternary.
  - apply ends_binary.
  - apply negb_true_iff in Hp. unfold op_in in Hp. cbn [existsb] in Hp. rewrite !orb_false_iff in Hp.
    destruct Hp as (-> & _). apply ends_bind; [|intros; apply ends_ret]. unfold maybe_record_unary_result.
    destruct (is_units_preserving_unary_op op); [apply ends_copy|apply ends_ret].
  - apply ends_bind.
    + apply ends_list. intros o Ho. eapply Hchild; [unfold node_children; by rewrite Hb|done].
    + intros _. unfold maybe_record_comma_result. destruct (last expressions); [apply ends_copy|apply ends_ret].
  - apply ends_copy.
  - apply ends_set.
  - apply ends_set.
  - apply ends_identifier.
  - destruct (pure_call n _ _ Hn Hb) as (Hop & Hlen & Hconv). unfold walk_call.
    apply ends_bind; [unfold walk_list; apply ends_list; intros o Ho; eapply Hchild; [unfold node_children; by rewrite Hb|by right]|intros _].
    apply ends_bind; [unfold maybe_record_units_conversion_call; rewrite Hconv; apply ends_ret|intros _].
    intros s Hs. destruct (ends_math n arguments Hlen s Hs) as (b & s1 & H & Hs1).
    rewrite (recognised n arguments s s1 b Hop Hs H) in H.
    unfold bind at 1. rewrite H. cbn. apply ends_arguments. done.
Qed.

(** Fuel for each element is fuel for all. *)
Lemma fuel_for_all {A} (Q : nat -> A -> Prop) (l : list A) :
  Forall (fun c => exists k, forall fuel, (k <= fuel)%nat -> Q fuel c) l ->
  exists k, forall fuel, (k <= fuel)%nat -> Forall (Q fuel) l.
Proof.
  induction 1 as [|c l [k Hk] _ [k' IH]]; [by exists 0%nat|].
  exists (k `max` k')%nat. intros fuel Hf. constructor; [apply Hk|apply IH]; lia.
Qed.

Lemma walk_ends (n : ASTNode) :
  within e n -> exists k, forall fuel, (k <= fuel)%nat -> forall fn, ends (walk_expr_results host root_scope fuel fn (Some n)).
Proof.
  revert n. refine (node_children_ind _ _). intros n IH Hn.
  destruct (fuel_for_all (fun fuel c => forall fn, ends (walk_expr_results host root_scope fuel fn (Some c))) (node_children n)) as [k Hk].
  { rewrite Forall_forall in IH |- *. intros c Hc. apply (IH c Hc). by eapply within_child. }
  exists (S (S k)). intros [|fuel] Hf fn; [lia|]. apply walk_step_ends; [done|..].
  - intros fn' c Hc. assert (Hall := Hk fuel ltac:(lia)). rewrite Forall_forall in Hall. by apply Hall.
  - intros fn'. destruct fuel; [lia|]. apply ends_ret.
Qed.
End Walk.

(** C16: units of measure in the sense of dimensional analysis.  The pass over a pure expression
    ends; when it records a dimension for it and every condition of a choice in it has a recorded
    result as well ([choice_by_length_recorded]), the expression scales by exactly that dimension:
    with the base units changed by any positive factors (each annotated name changed by its
    annotation), its value is multiplied by the scale of the recorded dimension.  The value is that
    of [evaluates]: in real numbers, without rounding, division included, and undefined for casts
    to other types than [float] and [double] ([truncation_keeps_meters]) and for the math functions
    without a rule. *)
Theorem dimensional_soundness (host : Host) (scope : Scope) (fn : option ASTNode) (st : ExtState) (e : ASTNode) :
  units_typed st ->
  (forall n, within e n -> pure st n = true) ->
  (forall n m, within e n -> within e m -> an_id n = an_id m -> n = m) ->
  (forall n, within e n -> lookup_result st (an_id n) = None) ->
  exists k, forall fuel, (k <= fuel)%nat ->
    exists st', walk_expr_results host scope fuel fn (Some e) st = Some (Some tt, st') /\
      forall r, lookup_result st' (an_id e) = Some r ->
        (forall n c t f, within e n -> an_body n = AST_TERNARY_EXPRESSION (Some c) t f ->
           exists rc, lookup_result st' (an_id c) = Some rc) ->
        forall ls value value' x, factors_ok ls -> rescaled st e ls value value' ->
          evaluates st value e x -> evaluates st value' e (scale ls (er_dim r) * x)%R.
Proof.
  intros Htyped Hpure Haddr Hfresh.
  assert (Hst : derived st e st) by (split; [by split|intros n r Hn Hl; by rewrite Hfresh in Hl]).
  destruct (walk_ends host scope st e Hpure e) as [k Hk]; [constructor|]. exists k. intros fuel Hf.
  destruct (Hk fuel Hf fn st) as ([] & st' & Hrun & _); [done|]. exists st'. split; [exact Hrun|].
  assert (Hin : inside e (Some e)) by (intros c [= <-]; constructor).
  destruct (walk_derived host scope st e Htyped Hpure Haddr fuel fn (Some e) Hin st (Some tt) st' Hst Hrun) as [[_ Hres] _].
  intros r Hr Hchoice ls value value' x Hls Hscaled He.
  eapply derives_scales; [done..| |exact He|constructor|by apply Hres; [constructor|]].
  intros n c t f Hn Hb. destruct (Hchoice n c t f Hn Hb) as [rc Hrc]. exists (er_dim rc). apply Hres; [|done].
  eapply within_child; [done|]. unfold node_children. rewrite Hb. by constructor.
Qed.

(** [2 * x] of UnitsTyping.v, with [x] in meters. *)
Definition meter_state : ExtState :=
  match (let* _ := note_meter in run_units_decl_scaffold) fresh_units with Some (_, s) => s | None => fresh_units end.

Lemma meter_state_typed : units_typed meter_state.
Proof.
  assert (H : (let* _ := note_meter in run_units_decl_scaffold) fresh_units = Some (Some tt, meter_state)) by (vm_compute; reflexivity).
  apply bind_some in H as ([] & s1 & Hnote & Hdecl). eapply declarations_typed, Hdecl. apply noted_keeps.
  apply bind_some in Hnote as ([] & s0 & Hd & Hs). eapply noted_symbol, Hs. eapply noted_declaration, Hd. apply noted_none.
Qed.

Lemma within_twice (n : ASTNode) : within twice_x n -> n ∈ [twice_x; number 11 "2"; use 10 "x"]%string.
Proof.
  induction 1 as [|n c _ IH Hc]; [by constructor|].
  repeat (apply elem_of_cons in IH as [->|IH]; [vm_compute in Hc; repeat (apply elem_of_cons in Hc as [->|Hc]; [by repeat constructor|]); by apply not_elem_of_nil in Hc|]).
  by apply not_elem_of_nil in IH.
Qed.

Lemma twice_forall (P : ASTNode -> Prop) :
  P twice_x -> P (number 11 "2") -> P (use 10 "x") -> forall n, within twice_x n -> P n.
Proof.
  intros H1 H2 H3 n Hn%within_twice. repeat (apply elem_of_cons in Hn as [->|Hn]; [done|]). by apply not_elem_of_nil in Hn.
Qed.

(** Meters into millimeters. *)
Definition millimeters : list R := [1000; 1; 1; 1; 1; 1; 1; 1]%R.
Definition three_meters (n : ASTNode) : R := if (an_id n =? 10)%nat then 3%R else 2%R.
Definition in_millimeters (n : ASTNode) : R := if (an_id n =? 10)%nat then 3000%R else 2%R.

Lemma dimensional_soundness_witness :
  evaluates meter_state three_meters twice_x (2 * 3)%R /\
  evaluates meter_state in_millimeters twice_x (scale millimeters fisics_dim_length * (2 * 3))%R.
Proof.
  assert (Hv : evaluates meter_state three_meters twice_x (2 * 3)%R).
  { eapply ev_mul; [reflexivity|apply (ev_leaf _ three_meters (number 11 "2"))|apply (ev_leaf _ three_meters (use 10 "x"))]; reflexivity. }
  split; [exact Hv|].
  destruct (dimensional_soundness HostOther (createScope []) None meter_state twice_x) as [k Hk].
  - apply meter_state_typed.
  - by apply twice_forall.
  - intros n m Hn. revert n Hn m. apply (twice_forall (fun n => forall m, within twice_x m -> an_id n = an_id m -> n = m)).
    + by apply (twice_forall (fun m => an_id twice_x = an_id m -> twice_x = m)).
    + by apply (twice_forall (fun m => an_id (number 11 "2") = an_id m -> number 11 "2" = m)).
    + by apply (twice_forall (fun m => an_id (use 10 "x") = an_id m -> use 10 "x" = m)).
  - apply twice_forall; by vm_compute.
  - destruct (Hk (50 + k)%nat ltac:(lia)) as (st' & Hrun & H).
    assert (Hr : exists st2 r, walk_expr_results HostOther (createScope []) 50 None (Some twice_x) meter_state = Some (Some tt, st2) /\
      lookup_result st2 12%nat = Some r /\ er_dim r = fisics_dim_length) by (vm_compute; eauto).
    assert (Hsame : walk_expr_results HostOther (createScope []) 50 None (Some twice_x) meter_state
      = walk_expr_results HostOther (createScope []) (50 + k) None (Some twice_x) meter_state) by (vm_compute; reflexivity).
    destruct Hr as (st2 & r & Hrun2 & Hl & <-). rewrite Hsame, Hrun in Hrun2. injection Hrun2 as ->.
    apply (H r Hl) with (value := three_meters); [| | |exact Hv].
    + assert (Hno : forall n, within twice_x n -> match an_body n with AST_TERNARY_EXPRESSION _ _ _ => False | _ => True end)
        by by apply twice_forall.
      intros n c t f Hn Hb. specialize (Hno n Hn). by rewrite Hb in Hno.
    + split; [done|]. unfold millimeters. repeat constructor; lra.
    + unfold rescaled. apply twice_forall; try done. cbn [an_body use at_id]. intros a Ha. vm_compute in Ha. injection Ha as <-.
      cbn. change (Pos.to_nat 1) with 1%nat. cbn. lra.
Defined.
