(* ===== verification/UnitsSamples.v ===== *)
(** * Small programs through the units pass

    What the pass reports, where it differs from what its comments and its other rules say. *)
From S2P Require Import Prelude StateError CType Tokens TargetLayout AST ParsedTypes TypeInfo Semantic TypeChecker.
From S2P Require Import UnitsDim UnitsRegistry UnitsParser UnitsDiag UnitsTables UnitsMath UnitsExpr UnitsTyping.

(** The messages of a run, and what it recorded. *)
Definition messages (r : option ExtState) : option (list string) := option_map (fun st => map ud_message (xs_diagnostics st)) r.
Definition recorded_for (id : NodeId) (r : option ExtState) : option (option string) :=
  st ← r; x ← lookup_result st id; Some (option_map name (resolved_unit x)).

(** A declaration of one name in node [id] with its annotation in place [i]; then uses of it. *)
Definition declares (id : NodeId) (i : nat) (payloads : list string) (x : string) (uses : list NodeId) : XM unit :=
  let* _ := fisics_extension_note_declaration (units_declaration id payloads [x]) in
  for_each (fun _ u => fisics_extension_note_units_symbol_binding (use u x) (units_symbol x (units_double payloads) (Some i)))
    tt uses.

Arguments declares (id i)%_nat_scope payloads x uses.
Arguments recorded_for id%_nat_scope.

Definition length_payloads : list string := ["fisics::dim(length)"]%string.
Definition second_payloads : list string := ["fisics::dim(time)"; "fisics::unit(second)"]%string.

(** ** Sums *)

(** [x] and [z] in meters, [y] a length of no stated unit. *)
Definition note_lengths : XM unit :=
  let* _ := declares 1 0 meter_payloads "x" [10%nat] in
  let* _ := declares 3 1 length_payloads "y" [11%nat] in
  declares 5 2 meter_payloads "z" [12%nat].

(** [z + (x + y)] is in meters, [(x + y) + z] is not. *)
Example sum_unit_depends_on_order :
  recorded_for 14 (run_units note_lengths (operation 14 (use 12 "z") "+" (operation 13 (use 10 "x") "+" (use 11 "y"))))
    = Some (Some "meter"%string) /\
  recorded_for 14 (run_units note_lengths (operation 14 (operation 13 (use 10 "x") "+" (use 11 "y")) "+" (use 12 "z")))
    = Some None.
Proof. by vm_compute. Qed.

(** [x++] adds the number 1 to meters; [x += 1] and [x + 1] are reported. *)
Definition note_one : XM unit := declares 1 0 meter_payloads "x" [10%nat].

Example increment_of_meters_accepted :
  messages (run_units note_one (at_id 12 (AST_UNARY_EXPRESSION (Some "++"%string) (Some (use 10 "x")) true))) = Some [] /\
  messages (run_units note_one (at_id 12 (AST_ASSIGNMENT (Some (use 10 "x")) (Some "+="%string) (Some (number 11 "1")))))
    = Some ["units addition mismatch: lhs is 'm' but rhs is '1'"]%string /\
  messages (run_units note_one (operation 12 (use 10 "x") "+" (number 11 "1")))
    = Some ["units addition mismatch: lhs is 'm' but rhs is '1'"]%string.
Proof. by vm_compute. Qed.

(** A cast to an integer type keeps meters, but truncation gives different lengths in different units. *)
Example truncation_keeps_meters :
  recorded_for 12 (run_units note_one (at_id 12 (AST_CAST_EXPRESSION int_type (Some (use 10 "x"))))) = Some (Some "meter"%string).
Proof. by vm_compute. Qed.

(** [x < 1 ? y : z]: the comparison of meters with a plain number is reported and gets no result,
    but the choice it makes is recorded in meters all the same. *)
Definition choice_by_length : option ExtState :=
  let note := let* _ := declares 1 0 meter_payloads "x" [10%nat] in
              let* _ := declares 3 1 meter_payloads "y" [11%nat] in declares 5 2 meter_payloads "z" [12%nat] in
  run_units note (at_id 15 (AST_TERNARY_EXPRESSION (Some (operation 14 (use 10 "x") "<" (number 13 "1")))
                              (Some (use 11 "y")) (Some (use 12 "z")))).

Example choice_by_length_recorded :
  recorded_for 14 choice_by_length = None /\ recorded_for 15 choice_by_length = Some (Some "meter"%string).
Proof. by vm_compute. Qed.

(** ** Pointers *)

(** [double *p = &x;] in one function; [*p = t;] in another, where [p] is a parameter. *)
Definition note_pointers : XM unit :=
  let* _ := declares 1 0 meter_payloads "x" [10%nat] in
  declares 3 1 second_payloads "t" [11%nat].

Definition pointer_declaration : ASTNode :=
  at_id 20 (AST_VARIABLE_DECLARATION
    (mkVarDecl (units_double []) None [Some (use 21 "p")]
       [Some (mkDesignatedInit None None (Some (at_id 22 (AST_UNARY_EXPRESSION (Some "&"%string) (Some (use 10 "x")) false))) false)]
       None)).
Definition store_through_p : ASTNode :=
  at_id 30 (AST_ASSIGNMENT (Some (at_id 31 (AST_POINTER_DEREFERENCE (Some (use 32 "p"))))) (Some "="%string) (Some (use 11 "t"))).
Definition function_of (id : NodeId) (body : ASTNode) : ASTNode :=
  at_id id (AST_FUNCTION_DEFINITION (units_double []) None [] (Some (at_id (S id) (AST_BLOCK [Some body]))) false true).
Arguments function_of id%_nat_scope.

Example pointer_alias_leaves_its_function :
  messages (run_units note_pointers (at_id 50 (AST_PROGRAM [Some (function_of 40 store_through_p)]))) = Some [] /\
  messages (run_units note_pointers
    (at_id 50 (AST_PROGRAM [Some (function_of 42 pointer_declaration); Some (function_of 40 store_through_p)])))
    = Some ["units assignment mismatch: lhs is 'm' but rhs is 's'"]%string.
Proof. by vm_compute. Qed.

(** ** Records *)

(** [struct { double a, b; }] with [a] a length and [b] a time, and [{ x, t }] for it. *)
Definition pair_fields : ASTNode :=
  at_id 60 (AST_VARIABLE_DECLARATION
    (mkVarDecl (units_double []) (Some [units_double meter_payloads; units_double second_payloads])
       [Some (use 61 "a"); Some (use 62 "b")] [None; None] None)).
Definition pair_record : ASTNode := at_id 63 (AST_STRUCT_DEFINITION None [Some pair_fields] false).
Definition pair_type : ParsedType :=
  mkParsedType TYPE_STRUCT TAG_STRUCT (Some 63%nat) None false [] TOKEN_INT None no_modifiers no_qualifier no_storage 0 false
    false false [] [] 0 false None.
Definition pair_value (types : ParsedType) : ASTNode :=
  at_id 70 (AST_COMPOUND_LITERAL types
    [Some (mkDesignatedInit None None (Some (use 10 "x")) false); Some (mkDesignatedInit None None (Some (use 11 "t")) false)] false).

Definition note_pair : XM unit :=
  let* _ := modify (fun st => with_sem st
    (mkSemState (<[63%nat := pair_record]> ∅) ∅ [] [] [] (Some layout_lp64_fp80) [])) in
  let* _ := note_pointers in
  fisics_extension_note_declaration pair_fields.

(** The second value is held against the annotation of the first name. *)
Example second_field_checked_as_first :
  messages (run_units note_pair (pair_value pair_type)) = Some ["units assignment mismatch: lhs is 'm' but rhs is 's'"]%string.
Proof. by vm_compute. Qed.

(** [q->a]: the type that was looked up points into a frame that is gone. *)
Definition note_pair_pointer : XM unit :=
  let* _ := note_pair in
  fisics_extension_note_units_symbol_binding (use 80 "q") (units_symbol "q" (with_derivations pair_type [plain_pointer]) None).

Definition store_in_q : ASTNode :=
  at_id 82 (AST_ASSIGNMENT (Some (at_id 81 (AST_POINTER_ACCESS (Some (use 80 "q")) (Some "a"%string)))) (Some "="%string)
    (Some (use 11 "t"))).

Example member_type_read_after_return : run_units note_pair_pointer store_in_q = None.
Proof. by vm_compute. Qed.
