(* ===== verification/ParserState.v ===== *)
(** * The parser's state, its view of the tokens, its errors and its names
    (src/Parser/parser.h, Helpers/parser_helpers.c; the compiler context behind it).

    The window of four tokens is read off the buffer at the cursor: [initParser] and [advance]
    fill it that way, and nothing else writes it.  The parser is the Pratt parser, the only one
    the pipeline makes.  It always has a context, the extension's state and the state of the
    passes in it; the physical overlay is off.  What the code writes to stdout and stderr is
    left out.

    [PM]: no result ([None]) when the fuel of a loop or of the nesting ends, [fail] for a NULL
    node or a C [false]. *)
From S2P Require Import Prelude StateError CType Tokens AST ParsedTypes Semantic UnitsTables.

Inductive CCDialect : Set := CC_DIALECT_C99 | CC_DIALECT_C11 | CC_DIALECT_C17.

#[export] Instance CCDialect_eq_dec : EqDecision CCDialect.
Proof. solve_decision. Defined.

Inductive ParserDiagCode : Set := CDIAG_PARSER_GENERIC | CDIAG_PARSER_EXPECT_SEMICOLON.

#[export] Instance ParserDiagCode_eq_dec : EqDecision ParserDiagCode.
Proof. solve_decision. Defined.

(** All of them are errors. *)
Record ParserDiag := mkParserDiag {
  pd_start : SourceLocation;
  pd_code : ParserDiagCode;
  pd_hint : option string;
  pd_message : string
}.

(** [p_ordinaryScope]: the names of each frame, innermost frame first. *)
Record Parser := mkParser {
  p_tokenBuffer : TokenBuffer;
  p_cursor : nat;
  p_enableStatementExpressions : bool;
  p_preserveDirectives : bool;
  p_suppressErrors : bool;
  p_fatalParseErrors : nat;
  p_switchDepth : Z;
  p_anonTagCounter : Z;
  p_ordinaryScope : list (list string)
}.

(** [ps_showSystemErrors]: the variable FISICS_SHOW_SYSTEM_PARSE_ERRORS.  [ps_nextNode]: the
    address of the next node. *)
Record PState := mkPState {
  ps_parser : Parser;
  ps_dialect : CCDialect;
  ps_blockPointers : bool;
  ps_relaxedAtomic : bool;
  ps_showSystemErrors : bool;
  ps_typedefs : list string;
  ps_ext : ExtState;
  ps_diagnostics : list ParserDiag;
  ps_nextNode : NodeId
}.

Abbreviation PM := (ST PState).

(** ** Fields *)

Definition set_parser (p : Parser) (s : PState) : PState :=
  mkPState p (ps_dialect s) (ps_blockPointers s) (ps_relaxedAtomic s) (ps_showSystemErrors s) (ps_typedefs s) (ps_ext s)
    (ps_diagnostics s) (ps_nextNode s).
Definition set_typedefs (l : list string) (s : PState) : PState :=
  mkPState (ps_parser s) (ps_dialect s) (ps_blockPointers s) (ps_relaxedAtomic s) (ps_showSystemErrors s) l (ps_ext s)
    (ps_diagnostics s) (ps_nextNode s).
Definition set_ext (x : ExtState) (s : PState) : PState :=
  mkPState (ps_parser s) (ps_dialect s) (ps_blockPointers s) (ps_relaxedAtomic s) (ps_showSystemErrors s) (ps_typedefs s) x
    (ps_diagnostics s) (ps_nextNode s).
Definition set_diagnostics (l : list ParserDiag) (s : PState) : PState :=
  mkPState (ps_parser s) (ps_dialect s) (ps_blockPointers s) (ps_relaxedAtomic s) (ps_showSystemErrors s) (ps_typedefs s)
    (ps_ext s) l (ps_nextNode s).
Definition set_nextNode (id : NodeId) (s : PState) : PState :=
  mkPState (ps_parser s) (ps_dialect s) (ps_blockPointers s) (ps_relaxedAtomic s) (ps_showSystemErrors s) (ps_typedefs s)
    (ps_ext s) (ps_diagnostics s) id.

Definition set_cursor (i : nat) (p : Parser) : Parser :=
  mkParser (p_tokenBuffer p) i (p_enableStatementExpressions p) (p_preserveDirectives p) (p_suppressErrors p)
    (p_fatalParseErrors p) (p_switchDepth p) (p_anonTagCounter p) (p_ordinaryScope p).
Definition set_suppressErrors (b : bool) (p : Parser) : Parser :=
  mkParser (p_tokenBuffer p) (p_cursor p) (p_enableStatementExpressions p) (p_preserveDirectives p) b
    (p_fatalParseErrors p) (p_switchDepth p) (p_anonTagCounter p) (p_ordinaryScope p).
Definition set_fatalParseErrors (n : nat) (p : Parser) : Parser :=
  mkParser (p_tokenBuffer p) (p_cursor p) (p_enableStatementExpressions p) (p_preserveDirectives p) (p_suppressErrors p)
    n (p_switchDepth p) (p_anonTagCounter p) (p_ordinaryScope p).
Definition set_switchDepth (d : Z) (p : Parser) : Parser :=
  mkParser (p_tokenBuffer p) (p_cursor p) (p_enableStatementExpressions p) (p_preserveDirectives p) (p_suppressErrors p)
    (p_fatalParseErrors p) d (p_anonTagCounter p) (p_ordinaryScope p).
Definition set_anonTagCounter (n : Z) (p : Parser) : Parser :=
  mkParser (p_tokenBuffer p) (p_cursor p) (p_enableStatementExpressions p) (p_preserveDirectives p) (p_suppressErrors p)
    (p_fatalParseErrors p) (p_switchDepth p) n (p_ordinaryScope p).
Definition set_ordinaryScope (l : list (list string)) (p : Parser) : Parser :=
  mkParser (p_tokenBuffer p) (p_cursor p) (p_enableStatementExpressions p) (p_preserveDirectives p) (p_suppressErrors p)
    (p_fatalParseErrors p) (p_switchDepth p) (p_anonTagCounter p) l.

Definition update_parser (f : Parser -> Parser) : PM unit := modify (fun s => set_parser (f (ps_parser s)) s).
Definition the_parser : PM Parser := let* s := get in ret (ps_parser s).

(** ** Tokens *)

(** [currentToken] is [token_ahead 0], [nextToken] [token_ahead 1], and so on. *)
Definition token_ahead (k : nat) (s : PState) : Token :=
  token_buffer_peek (p_tokenBuffer (ps_parser s)) (p_cursor (ps_parser s) + k).

Definition current : PM Token := let* s := get in ret (token_ahead 0 s).
Definition peekNextToken : PM Token := let* s := get in ret (token_ahead 1 s).
Definition peekTwoTokensAhead : PM Token := let* s := get in ret (token_ahead 2 s).

Definition advance : PM unit := update_parser (fun p => set_cursor (S (p_cursor p)) p).

Definition current_is (type : TokenType) : PM bool := let* t := current in ret (tt_eqb (tok_type t) type).
Definition current_in (types : list TokenType) : PM bool :=
  let* t := current in ret (existsb (tt_eqb (tok_type t)) types).

Definition value_is (t : Token) (text : string) : bool := bool_decide (tok_value t = Some text).

(** ** Loops

    A pass over the body gives the next state of the loop, or what the loop ends with. *)
Fixpoint iterate {A R} (fuel : nat) (body : A -> PM (A + R)) (a : A) : PM R :=
  match fuel with
  | O => stuck
  | S fuel => let* r := body a in match r with inl a => iterate fuel body a | inr r => ret r end
  end.

Definition skip {A} (m : PM A) : PM unit := let* _ := m in ret tt.

(** [while (c) body]. *)
Definition while (fuel : nat) (c : PM bool) (body : PM unit) : PM unit :=
  iterate fuel (fun _ => let* go := c in if (go : bool) then (let* _ := body in ret (inl tt)) else ret (inr tt)) tt.

(** ** Errors *)

Definition pd_matches (a b : ParserDiag) : bool :=
  bool_decide (pd_code a = pd_code b) && bool_decide (loc_line (pd_start a) = loc_line (pd_start b)) &&
  bool_decide (loc_column (pd_start a) = loc_column (pd_start b)) && bool_decide (loc_file (pd_start a) = loc_file (pd_start b)) &&
  String.eqb (pd_message a) (pd_message b) && bool_decide (pd_hint a = pd_hint b).

Definition compiler_report_diag (range : SourceRange) (code : ParserDiagCode) (hint : option string) (message : string)
    : PM unit :=
  modify (fun s =>
    let d := mkParserDiag (range_start range) code hint message in
    if existsb (fun old => pd_matches old d) (ps_diagnostics s) then s else set_diagnostics (ps_diagnostics s ++ [d]) s).

Definition isSystemHeaderPath (file : string) : bool :=
  String.prefix "/Library/Developer/CommandLineTools/SDKs/" file || String.prefix "/usr/include" file ||
  String.prefix "/Applications/Xcode.app/Contents/Developer/" file.

Definition has_file (range : SourceRange) : bool := bool_decide (is_Some (loc_file (range_start range))).

(** Where an error at a token is reported. *)
Definition error_range (tok : Token) (preferTokenSpelling : bool) : SourceRange :=
  if negb preferTokenSpelling && has_file (tok_macroCallSite tok) then tok_macroCallSite tok else tok_location tok.

Definition printParseErrorImpl (expected : string) (preferTokenSpelling : bool) : PM unit :=
  let* s := get in
  let tok := token_ahead 0 s in
  let range := error_range tok preferTokenSpelling in
  if p_suppressErrors (ps_parser s) then ret tt
  else if isSystemHeaderPath (default "<unknown>"%string (loc_file (range_start range))) && negb (ps_showSystemErrors s)
  then ret tt
  else compiler_report_diag range CDIAG_PARSER_GENERIC None
         ("expected '" +:+ expected +:+ "', got '" +:+ default "<eof>"%string (tok_value tok) +:+ "' (type "
          +:+ int_text (TokenType_code (tok_type tok)) +:+ ")").

Definition printParseError (expected : string) : PM unit := printParseErrorImpl expected false.
Definition printParseErrorAtTokenSpelling (expected : string) : PM unit := printParseErrorImpl expected true.

Definition markParserFatalError : PM unit := update_parser (fun p => set_fatalParseErrors (S (p_fatalParseErrors p)) p).

(** An error, and NULL. *)
Definition parse_error {A} (message : string) : PM A := let* _ := printParseError message in fail.

(** [if (!x) { printParseError (message); return NULL; }] *)
Definition or_error {A} (m : PM A) (message : string) : PM A :=
  let* r := attempt m in match r with Some a => ret a | None => parse_error message end.

(** [if (currentToken.type != type) { printParseError (message); return NULL; } advance ();] *)
Definition expect (type : TokenType) (message : string) : PM unit :=
  let* ok := current_is type in if (ok : bool) then advance else parse_error message.

(** The same, where the error only goes to stdout. *)
Definition expect_silently (type : TokenType) : PM unit :=
  let* ok := current_is type in if (ok : bool) then advance else fail.

(** ** Ordinary names *)

Definition parserPushOrdinaryScope : PM unit := update_parser (fun p => set_ordinaryScope ([] :: p_ordinaryScope p) p).
Definition parserPopOrdinaryScope : PM unit := update_parser (fun p => set_ordinaryScope (tail (p_ordinaryScope p)) p).

Definition parserRecordOrdinaryIdentifier (name : option string) : PM unit :=
  match name with
  | None | Some ""%string => ret tt
  | Some name => update_parser (fun p =>
      let '(frame, rest) := match p_ordinaryScope p with [] => ([], []) | frame :: rest => (frame, rest) end in
      set_ordinaryScope ((if bool_decide (name ∈ frame) then frame else name :: frame) :: rest) p)
  end.

Definition cc_is_typedef (s : PState) (name : string) : bool := bool_decide (name ∈ ps_typedefs s).

(** [cc_add_typedef]: a name that is there is not added. *)
Definition cc_add_typedef (name : string) : PM unit :=
  modify (fun s => if cc_is_typedef s name then s else set_typedefs (ps_typedefs s ++ [name]) s).

Definition parserIsTypedefVisible (s : PState) (name : option string) : bool :=
  match name with
  | None | Some ""%string => false
  | Some name => cc_is_typedef s name &&
      negb (existsb (fun frame => bool_decide (name ∈ frame)) (p_ordinaryScope (ps_parser s)))
  end.

Definition CC_BUILTIN_LIST : list string :=
  ["void"; "_Bool"; "bool"; "char"; "signed char"; "unsigned char"; "short"; "short int"; "signed short"; "signed short int";
   "unsigned short"; "unsigned short int"; "int"; "signed"; "signed int"; "unsigned"; "unsigned int"; "long"; "long int";
   "signed long"; "signed long int"; "unsigned long"; "unsigned long int"; "long long"; "long long int";
   "unsigned long long"; "unsigned long long int"; "float"; "double"; "long double"; "int8_t"; "int16_t"; "int32_t";
   "int64_t"; "uint8_t"; "uint16_t"; "uint32_t"; "uint64_t"; "size_t"; "ssize_t"; "intptr_t"; "uintptr_t"; "ptrdiff_t"]%string.

Definition cc_is_builtin_type (name : string) : bool := bool_decide (name ∈ CC_BUILTIN_LIST).

(** [cc_seed_builtins]: the typedefs of a new context. *)
Definition seeded_typedefs : list string :=
  ["size_t"; "ssize_t"; "intptr_t"; "uintptr_t"; "ptrdiff_t"; "__int128_t"; "__uint128_t"; "bool"; "wchar_t"; "wint_t";
   "sig_atomic_t"; "locale_t"]%string.

Definition add_tag (kind : CCTagKind) (name : string) : PM unit :=
  modify (fun s => set_ext (let x := ps_ext s in
    mkExtState (cc_add_tag (xs_sem x) kind name) (xs_overlay x) (xs_present x) (xs_annotations x) (xs_results x) (xs_bindings x)
      (xs_mathCalls x) (xs_contracts x) (xs_aliases x) (xs_diagnostics x)) s).

(** ** Starting *)

(** [gnuEnv]: the variable ENABLE_GNU_STATEMENT_EXPRESSIONS. *)
Definition initParser (buffer : TokenBuffer) (preserveDirectives : bool) (gnuEnv : option string) : Parser :=
  mkParser buffer 0
    (match gnuEnv with Some (String c _) => negb (c =c "0") | _ => true end)
    preserveDirectives false 0 0 0 [[]].

(** ** Speculation *)

(** [m] on a clone of the parser.  The frames of names are shared with it: those of the parser
    itself are as the clone leaves them. *)
Definition on_clone {A} (m : PM A) : PM (option A) := fun s =>
  let p := ps_parser s in
  match m (set_parser (set_suppressErrors true p) s) with
  | None => None
  | Some (r, s') =>
      let frames := p_ordinaryScope (ps_parser s') in
      if decide (length frames < length (p_ordinaryScope p))%nat then None
      else Some (Some r, set_parser (set_ordinaryScope (drop (length frames - length (p_ordinaryScope p)) frames) p) s')
  end.

(** ** Tokens by kind *)

Definition getOperatorString (type : TokenType) : string :=
  match type with
  | TOKEN_LESS => "<" | TOKEN_GREATER => ">" | TOKEN_LESS_EQUAL => "<=" | TOKEN_GREATER_EQUAL => ">=" | TOKEN_EQUAL => "=="
  | TOKEN_NOT_EQUAL => "!=" | TOKEN_LOGICAL_AND => "&&" | TOKEN_LOGICAL_OR => "||" | TOKEN_LOGICAL_NOT => "!"
  | TOKEN_BITWISE_AND => "&" | TOKEN_BITWISE_OR => "|" | TOKEN_BITWISE_XOR => "^" | TOKEN_BITWISE_NOT => "~"
  | TOKEN_LEFT_SHIFT => "<<" | TOKEN_RIGHT_SHIFT => ">>" | TOKEN_PLUS => "+" | TOKEN_MINUS => "-" | TOKEN_ASTERISK => "*"
  | TOKEN_DIVIDE => "/" | TOKEN_MODULO => "%" | TOKEN_ASSIGN => "=" | TOKEN_PLUS_ASSIGN => "+=" | TOKEN_MINUS_ASSIGN => "-="
  | TOKEN_MULT_ASSIGN => "*=" | TOKEN_DIV_ASSIGN => "/=" | TOKEN_MOD_ASSIGN => "%=" | TOKEN_BITWISE_AND_ASSIGN => "&="
  | TOKEN_BITWISE_OR_ASSIGN => "|=" | TOKEN_BITWISE_XOR_ASSIGN => "^=" | TOKEN_LEFT_SHIFT_ASSIGN => "<<="
  | TOKEN_RIGHT_SHIFT_ASSIGN => ">>=" | TOKEN_INCREMENT => "++" | TOKEN_DECREMENT => "--"
  | _ => "UNKNOWN"
  end%string.

Definition isPrimitiveTypeToken (type : TokenType) : bool :=
  match type with
  | TOKEN_INT | TOKEN_FLOAT | TOKEN_DOUBLE | TOKEN_CHAR | TOKEN_BOOL | TOKEN_VOID | TOKEN_LONG | TOKEN_SHORT | TOKEN_SIGNED
  | TOKEN_UNSIGNED => true
  | _ => false
  end.

Definition isValidExpressionStart (type : TokenType) : bool :=
  match type with
  | TOKEN_IDENTIFIER | TOKEN_LPAREN | TOKEN_NUMBER | TOKEN_FLOAT_LITERAL | TOKEN_STRING | TOKEN_CHAR_LITERAL | TOKEN_MINUS
  | TOKEN_PLUS | TOKEN_LOGICAL_NOT | TOKEN_BITWISE_NOT | TOKEN_INCREMENT | TOKEN_DECREMENT | TOKEN_ASTERISK
  | TOKEN_BITWISE_AND | TOKEN_SIZEOF | TOKEN_ALIGNOF => true
  | _ => false
  end.
