(* ===== verification/AstBuild.v ===== *)
(** * Making nodes (src/AST/ast_node.c, Parser/Helpers/designated_init.c, ast_attribute.c).

    A new node gets the next address.  A node enters the store of nodes when a type, an
    enumerator's value or a bit-field takes its address ([keep_node]); a later change of it
    is written there too ([store_node]). *)
From S2P Require Import Prelude StateError Tokens AST ParsedTypes Semantic UnitsTables ParserState.

(** ** Fields of a node *)

Definition set_line (line : Z) (n : ASTNode) : ASTNode :=
  mkASTNode (an_id n) line (an_location n) (an_macroCallSite n) (an_macroDefinition n) (an_attributes n) (an_body n).
Definition set_location (r : SourceRange) (n : ASTNode) : ASTNode :=
  mkASTNode (an_id n) (an_line n) r (an_macroCallSite n) (an_macroDefinition n) (an_attributes n) (an_body n).
Definition set_node_attributes (l : list ASTAttribute) (n : ASTNode) : ASTNode :=
  mkASTNode (an_id n) (an_line n) (an_location n) (an_macroCallSite n) (an_macroDefinition n) l (an_body n).
Definition set_body (b : ASTBody ASTNode) (n : ASTNode) : ASTNode :=
  mkASTNode (an_id n) (an_line n) (an_location n) (an_macroCallSite n) (an_macroDefinition n) (an_attributes n) b.

(** ** The store *)

Definition put_node (n : ASTNode) (s : PState) : PState :=
  let x := ps_ext s in let sem := xs_sem x in
  set_ext (mkExtState
    (mkSemState (<[an_id n := n]> (ss_nodes sem)) (ss_symbols sem) (ss_structs sem) (ss_unions sem) (ss_enums sem)
       (ss_targetLayout sem) (ss_diagnostics sem))
    (xs_overlay x) (xs_present x) (xs_annotations x) (xs_results x) (xs_bindings x) (xs_mathCalls x) (xs_contracts x)
    (xs_aliases x) (xs_diagnostics x)) s.

Definition stored_node (s : PState) (id : NodeId) : option ASTNode := ss_nodes (xs_sem (ps_ext s)) !! id.

Definition keep_node (n : ASTNode) : PM NodeId := let* _ := modify (put_node n) in ret (an_id n).

Definition keep_opt (o : option ASTNode) : PM (option NodeId) :=
  match o with Some n => let* id := keep_node n in ret (Some id) | None => ret None end.

Definition store_node (n : ASTNode) : PM ASTNode :=
  let* _ := modify (fun s => match stored_node s (an_id n) with Some _ => put_node n s | None => s end) in ret n.

(** The extension's hooks work on its state. *)
Definition in_extension {A} (m : XM A) : PM A := fun s =>
  match m (ps_ext s) with None => None | Some (r, x) => Some (r, set_ext x s) end.

(** ** Lines and places *)

Definition new_node (body : ASTBody ASTNode) : PM ASTNode := fun s =>
  Some (Some (mkASTNode (ps_nextNode s) 0 empty_source_range empty_source_range empty_source_range [] body),
        set_nextNode (S (ps_nextNode s)) s).

Definition first_file (a b : SourceRange) : SourceRange := if has_file a then a else if has_file b then b else a.

Definition inherit_line_from_node (source : option ASTNode) (target : ASTNode) : ASTNode :=
  match source with
  | None => target
  | Some s =>
      mkASTNode (an_id target) (if an_line target =? 0 then an_line s else an_line target)
        (first_file (an_location target) (an_location s)) (first_file (an_macroCallSite target) (an_macroCallSite s))
        (first_file (an_macroDefinition target) (an_macroDefinition s)) (an_attributes target) (an_body target)
  end.

Definition has_line (n : ASTNode) : bool := negb (an_line n =? 0).

Definition inherit_line_from_pair (first second : option ASTNode) (target : ASTNode) : ASTNode :=
  let target := inherit_line_from_node first target in
  if has_line target then target else inherit_line_from_node second target.

(** The entries are tried while the node has no line. *)
Definition inherit_line_from_array (nodes : list (option ASTNode)) (target : ASTNode) : ASTNode :=
  foldl (fun t n => if has_line t then t else inherit_line_from_node n t) target nodes.

Definition inherit_line_from_designated_inits (entries : list (option (DesignatedInit ASTNode))) (target : ASTNode) : ASTNode :=
  foldl (fun t e =>
    match e with
    | None => t
    | Some e =>
        let t := if has_line t then t else inherit_line_from_node (di_expression e) t in
        if has_line t then t else inherit_line_from_node (di_indexExpr e) t
    end) target entries.

Definition known_range (r : SourceRange) : SourceRange := if has_file r then r else empty_source_range.

Definition astNodeSetProvenance (tok : Token) (n : ASTNode) : ASTNode :=
  let line := loc_line (range_start (tok_location tok)) in
  mkASTNode (an_id n) (if line =? 0 then tok_line tok else line) (tok_location tok) (known_range (tok_macroCallSite tok))
    (known_range (tok_macroDefinition tok)) (an_attributes n) (an_body n).

(** ** Attributes *)

(** [astAttributeCreate], and copies of what it makes. *)
Definition astAttributeCreate (syntax : ASTAttributeSyntax) (payload : option string) : ASTAttribute :=
  mkAttribute syntax (Some (default ""%string payload)).

Definition astNodeAppendAttributes (attrs : list ASTAttribute) (n : ASTNode) : ASTNode :=
  set_node_attributes (an_attributes n ++ attrs) n.

Definition astNodeCloneTypeAttributes (type : ParsedType) (n : ASTNode) : ASTNode :=
  astNodeAppendAttributes (map (fun a => astAttributeCreate (attr_syntax a) (attr_payload a)) (pt_attributes type)) n.

(** ** The nodes *)

Definition make (body : ASTBody ASTNode) (place : ASTNode -> ASTNode) : PM ASTNode :=
  let* n := new_node body in ret (place n).

Definition createProgramNode (declarations : list (option ASTNode)) : PM ASTNode :=
  make (AST_PROGRAM declarations) (inherit_line_from_array declarations).

Definition createBlockNode (statements : list (option ASTNode)) : PM ASTNode :=
  make (AST_BLOCK statements) (inherit_line_from_array statements).

Definition createStatementExpressionNode (block : ASTNode) : PM ASTNode :=
  make (AST_STATEMENT_EXPRESSION (Some block)) (inherit_line_from_node (Some block)).

Definition createIncludeDirectiveNode (filePath : string) (isSystem : bool) : PM ASTNode :=
  new_node (AST_INCLUDE_DIRECTIVE (Some filePath) isSystem).
Definition createDefineDirectiveNode (macroName : string) (macroValue : option string) : PM ASTNode :=
  new_node (AST_DEFINE_DIRECTIVE (Some macroName) macroValue).
Definition createConditionalDirectiveNode (symbol : string) (isNegated : bool) : PM ASTNode :=
  new_node (AST_CONDITIONAL_DIRECTIVE (Some symbol) isNegated).
Definition createEndifDirectiveNode : PM ASTNode := new_node AST_ENDIF_DIRECTIVE.

Definition createUnaryExprNode (op : string) (operand : option ASTNode) (isPostfix : bool) : PM ASTNode :=
  make (AST_UNARY_EXPRESSION (Some op) operand isPostfix) (inherit_line_from_node operand).

(** A cast on the left lends the place of what it casts. *)
Definition createBinaryExprNode (op : string) (left : ASTNode) (right : option ASTNode) : PM ASTNode :=
  let locationLeft := match an_body left with AST_CAST_EXPRESSION _ (Some e) => e | _ => left end in
  make (AST_BINARY_EXPRESSION (Some op) (Some left) right) (inherit_line_from_pair (Some locationLeft) right).

Definition createTernaryExprNode (condition trueExpr falseExpr : ASTNode) : PM ASTNode :=
  make (AST_TERNARY_EXPRESSION (Some condition) (Some trueExpr) (Some falseExpr))
    (fun n => inherit_line_from_node (Some falseExpr)
                (inherit_line_from_node (Some trueExpr) (inherit_line_from_node (Some condition) n))).

Definition createCommaExprNode (expressions : list (option ASTNode)) : PM ASTNode :=
  make (AST_COMMA_EXPRESSION expressions) (inherit_line_from_array expressions).

Definition createCastExpressionNode (castType : ParsedType) (expr : ASTNode) : PM ASTNode :=
  make (AST_CAST_EXPRESSION castType (Some expr)) (inherit_line_from_node (Some expr)).

Definition createCompoundLiteralNode (literalType : ParsedType) (entries : list (option (DesignatedInit ASTNode))) : PM ASTNode :=
  make (AST_COMPOUND_LITERAL literalType entries false) (inherit_line_from_designated_inits entries).

Definition createAsmNode (asmText : option string) : PM ASTNode := new_node (AST_ASM asmText).

Definition createStaticAssertNode (condition : ASTNode) (message : option ASTNode) : PM ASTNode :=
  make (AST_STATIC_ASSERT (Some condition) message) (inherit_line_from_pair (Some condition) message).

Definition createSizeofNode (target : ASTNode) : PM ASTNode :=
  make (AST_SIZEOF (Some target)) (inherit_line_from_node (Some target)).
Definition createAlignofNode (target : ASTNode) : PM ASTNode :=
  make (AST_ALIGNOF (Some target)) (inherit_line_from_node (Some target)).

Definition createNumberLiteralNode (value : option string) : PM ASTNode := new_node (AST_NUMBER_LITERAL value).
Definition createCharLiteralNode (value : option string) : PM ASTNode := new_node (AST_CHAR_LITERAL value).
Definition createStringLiteralNode (value : option string) : PM ASTNode := new_node (AST_STRING_LITERAL value).
Definition createIdentifierNode (name : option string) : PM ASTNode := new_node (AST_IDENTIFIER name).

Definition createAssignmentNode (target : ASTNode) (value : option ASTNode) (op : TokenType) : PM ASTNode :=
  make (AST_ASSIGNMENT (Some target) (Some (getOperatorString op)) value) (inherit_line_from_pair (Some target) value).

Definition createVariableDeclarationNode (declaredType : ParsedType) (declaredTypes : option (list ParsedType))
    (identifiers : list (option ASTNode)) (initializers : list (option (DesignatedInit ASTNode)))
    (bitFieldWidth : option NodeId) : PM ASTNode :=
  make (AST_VARIABLE_DECLARATION (mkVarDecl declaredType declaredTypes identifiers initializers bitFieldWidth))
    (fun n => inherit_line_from_designated_inits initializers
                (match identifiers with Some i :: _ => set_line (an_line i) n | _ => n end)).

Definition createTypedefNode (baseType : ParsedType) (alias : option ASTNode) : PM ASTNode :=
  make (AST_TYPEDEF baseType alias) (match alias with Some a => set_line (an_line a) | None => id end).

(** The identifier of the name is made, and placed, by the callers. *)
Definition createEnumDefinitionNode (name : ASTNode) (members : list (option ASTNode)) (values : list (option NodeId)) : PM ASTNode :=
  new_node (AST_ENUM_DEFINITION (Some name) members values).

Definition createStructOrUnionDefinitionNode (isStruct : bool) (name : ASTNode) (fields : list (option ASTNode))
    (hasFlexibleArray : bool) : PM ASTNode :=
  new_node (if isStruct then AST_STRUCT_DEFINITION (Some name) fields hasFlexibleArray
            else AST_UNION_DEFINITION (Some name) fields hasFlexibleArray).

Definition createArrayAccessNode (array index : ASTNode) : PM ASTNode :=
  make (AST_ARRAY_ACCESS (Some array) (Some index)) (inherit_line_from_pair (Some array) (Some index)).

Definition createMemberAccessNode (op : TokenType) (base : ASTNode) (fieldName : option string) : PM ASTNode :=
  make (if tt_eqb op TOKEN_ARROW then AST_POINTER_ACCESS (Some base) fieldName else AST_DOT_ACCESS (Some base) fieldName)
    (inherit_line_from_node (Some base)).

Definition createIfStatementNode (condition : option ASTNode) (thenBody : ASTNode) : PM ASTNode :=
  make (AST_IF_STATEMENT condition (Some thenBody) None) (inherit_line_from_pair condition (Some thenBody)).

Definition createIfElseStatementNode (condition : option ASTNode) (thenBody elseBody : ASTNode) : PM ASTNode :=
  make (AST_IF_STATEMENT condition (Some thenBody) (Some elseBody))
    (fun n => inherit_line_from_node (Some elseBody)
                (inherit_line_from_node (Some thenBody) (inherit_line_from_node condition n))).

Definition createWhileLoopNode (condition body : ASTNode) (isDoWhile : bool) : PM ASTNode :=
  make (AST_WHILE_LOOP (Some condition) (Some body) isDoWhile) (inherit_line_from_pair (Some condition) (Some body)).

Definition createForLoopNode (init condition increment body : option ASTNode) : PM ASTNode :=
  make (AST_FOR_LOOP init condition increment body)
    (fun n => inherit_line_from_node body
                (inherit_line_from_node increment (inherit_line_from_node condition (inherit_line_from_node init n)))).

Definition createReturnNode (expr : option ASTNode) : PM ASTNode := make (AST_RETURN expr) (inherit_line_from_node expr).
Definition createBreakNode : PM ASTNode := new_node AST_BREAK.
Definition createContinueNode : PM ASTNode := new_node AST_CONTINUE.
Definition createGotoStatementNode (label : option string) : PM ASTNode := new_node (AST_GOTO_STATEMENT label).
Definition createLabelDeclarationNode (labelName : option string) (statement : option ASTNode) : PM ASTNode :=
  make (AST_LABEL_DECLARATION labelName statement) (inherit_line_from_node statement).

Definition createFunctionDeclarationNode (returnType : ParsedType) (funcName : ASTNode) (paramList : list (option ASTNode))
    (variadic prototype : bool) : PM ASTNode :=
  make (AST_FUNCTION_DECLARATION returnType (Some funcName) paramList variadic prototype) (inherit_line_from_node (Some funcName)).

Definition createFunctionDefinitionNode (returnType : ParsedType) (funcName : ASTNode) (paramList : list (option ASTNode))
    (body : ASTNode) (variadic prototype : bool) : PM ASTNode :=
  make (AST_FUNCTION_DEFINITION returnType (Some funcName) paramList (Some body) variadic prototype)
    (fun n => inherit_line_from_node (Some body)
                (inherit_line_from_array paramList (inherit_line_from_node (Some funcName) n))).

Definition createFunctionCallNode (callee : ASTNode) (arguments : list (option ASTNode)) : PM ASTNode :=
  make (AST_FUNCTION_CALL (Some callee) arguments)
    (fun n => inherit_line_from_array arguments (inherit_line_from_node (Some callee) n)).

(** Without a line the first statement of the array lends its place.  The array has room for
    four; when it holds none, the pointer that is read there was never written, and there is no
    result. *)
Definition inherit_line_or_first (main : option ASTNode) (statements : list (option ASTNode)) (n : ASTNode) : PM ASTNode :=
  let n := inherit_line_from_node main n in
  if has_line n then ret n
  else match statements with [] => stuck | first :: _ => ret (inherit_line_from_node first n) end.

Definition createCaseNode (caseValue : option ASTNode) (caseBody : list (option ASTNode)) : PM ASTNode :=
  let* n := new_node (AST_CASE caseValue caseBody None) in inherit_line_or_first caseValue caseBody n.

Definition createSwitchNode (condition : ASTNode) (caseList : list (option ASTNode)) : PM ASTNode :=
  let* n := new_node (AST_SWITCH (Some condition) caseList) in inherit_line_or_first (Some condition) caseList n.

Definition createParsedTypeNode (type : ParsedType) : PM ASTNode := new_node (AST_PARSED_TYPE type).

(** ** Initializers *)

Definition createDesignatedInit (fieldName : option string) (expression : ASTNode) : DesignatedInit ASTNode :=
  mkDesignatedInit fieldName None (Some expression) false.
Definition createSimpleInit (expr : option ASTNode) : DesignatedInit ASTNode := mkDesignatedInit None None expr false.
Definition createIndexedInit (indexExpr valueExpr : ASTNode) : DesignatedInit ASTNode :=
  mkDesignatedInit None (Some indexExpr) (Some valueExpr) false.

(** Its type is to be inferred from what it initializes. *)
Definition createCompoundInit (entries : list (option (DesignatedInit ASTNode))) : PM ASTNode :=
  createCompoundLiteralNode invalid_parsed_type entries.
