(* ===== verification/ParserAttributes.v ===== *)
(** * Attribute specifiers (src/Parser/Helpers/parser_attributes.c): their start, their text and
    the attributes they make.

    [fuel] bounds the tokens of one specifier, and the specifiers. *)
From S2P Require Import Prelude StateError CType Tokens AST ParsedTypes ParserState AstBuild.

(** ** The text of a specifier *)

Definition is_word (c : ascii) : bool := is_alnum c || (c =c "_").

Definition last_char (s : string) : option ascii := last (list_ascii_of_string s).

Definition needsSpace (b text : string) : bool :=
  match last_char b, text with
  | Some l, String n _ => is_word l && is_word n
  | _, _ => false
  end.

Definition builderAppend (b text : string) : string :=
  (if needsSpace b text then b ++ " " ++ text else b ++ text)%string.

Definition tok_text (tok : Token) : string := default ""%string (tok_value tok).

Definition DQUOTE : string := String (ascii_of_N 34) "".

Definition appendTokenText (b : string) (tok : Token) : string :=
  match tok_type tok with
  | TOKEN_STRING => (b ++ DQUOTE ++ tok_text tok ++ DQUOTE)%string
  | TOKEN_CHAR_LITERAL => (b ++ "'" ++ tok_text tok ++ "'")%string
  | _ => builderAppend b (tok_text tok)
  end.

(** Up to the token that closes the region.  No text at all is NULL, the caller's failure. *)
Definition collectBalancedRegion (fuel : nat) (openTok closeTok : TokenType) (startingDepth : Z) : PM string :=
  iterate fuel (fun '(depth, text) =>
    let* tok := current in
    if tt_eqb (tok_type tok) TOKEN_EOF then fail
    else if tt_eqb (tok_type tok) closeTok then
      if depth - 1 <=? 0 then
        let* _ := advance in
        if String.eqb text "" then fail else ret (inr text)
      else let* _ := advance in ret (inl (depth - 1, appendTokenText text tok))
    else
      let* _ := advance in
      ret (inl (if tt_eqb (tok_type tok) openTok then depth + 1 else depth, appendTokenText text tok)))
    (startingDepth, ""%string).

(** ** What starts one *)

Definition kParenAttrs : list string :=
  ["__printflike"; "__scanflike"; "__format__"; "__format_arg"; "__nonnull"; "__returns_nonnull"; "__alloc_size";
   "__alloc_align"; "__malloc"; "__warn_unused_result"; "__availability"; "__swift_name"; "__swift_unavailable";
   "__deprecated_msg"; "__deprecated_enum_msg"; "__unavailable"; "__counted_by"; "__counted_by_or_null"; "__sized_by";
   "__sized_by_or_null"; "__ended_by"; "__null_terminated"]%string.

Definition kNoParenAttrs : list string :=
  ["__dead"; "__dead2"; "__pure"; "__pure2"; "__unused"; "__cold"; "__deprecated"; "__deprecated_msg";
   "__deprecated_enum_msg"; "__not_tail_called"; "__result_use_check"; "__abortlike"; "__stateful_pure"; "__single";
   "__unsafe_indexable"; "__null_terminated"; "__nonnull"; "__nullable"; "__noreturn"; "__always_inline"; "__noinline";
   "__WATCHOS_PROHIBITED"; "__TVOS_PROHIBITED"; "__OSX_PROHIBITED"; "__IOS_PROHIBITED"]%string.

Definition is_name (tok : Token) : bool := tt_eqb (tok_type tok) TOKEN_IDENTIFIER.

Definition looksLikeFallbackAttribute (s : PState) : bool :=
  let tok := token_ahead 0 s in
  match is_name tok, tok_value tok with
  | true, Some name =>
      if String.prefix "_LIBC_" name || String.prefix "__ptrcheck_" name then true
      else if negb (String.prefix "__" name) then false
      else if tt_eqb (tok_type (token_ahead 1 s)) TOKEN_LPAREN then bool_decide (name ∈ kParenAttrs)
      else bool_decide (name ∈ kNoParenAttrs)
  | _, _ => false
  end.

Definition named_in (names : list string) (tok : Token) : bool :=
  is_name tok && match tok_value tok with Some v => bool_decide (v ∈ names) | None => false end.

Definition asm_names : list string := ["__asm"; "__asm__"; "asm"]%string.
Definition nullability_names : list string := ["_Nonnull"; "_Nullable"; "_Null_unspecified"]%string.

Definition starts_attribute (s : PState) : bool :=
  let tok := token_ahead 0 s in
  named_in (["__attribute__"; "__declspec"]%string ++ asm_names ++ nullability_names) tok ||
  looksLikeFallbackAttribute s || tt_eqb (tok_type tok) TOKEN_ASM ||
  tt_eqb (tok_type tok) TOKEN_LBRACKET && tt_eqb (tok_type (token_ahead 1 s)) TOKEN_LBRACKET.

Definition parserLookaheadStartsAttribute : PM bool := let* s := get in ret (starts_attribute s).

(** ** The specifiers *)

Section Attributes.
Context (fuel : nat).

Definition parseGNUAttribute : PM ASTAttribute :=
  let* _ := advance in
  let* _ := expect TOKEN_LPAREN "Expected '(' after __attribute__" in
  let* _ := expect TOKEN_LPAREN "Expected '(' to start attribute list" in
  let* payload := collectBalancedRegion fuel TOKEN_LPAREN TOKEN_RPAREN 1 in
  let* _ := expect TOKEN_RPAREN "Expected ')' after attribute list" in
  ret (astAttributeCreate AST_ATTRIBUTE_SYNTAX_GNU (Some payload)).

Definition parseCXXAttribute : PM ASTAttribute :=
  let* _ := advance in
  let* _ := advance in
  let* payload := collectBalancedRegion fuel TOKEN_LBRACKET TOKEN_RBRACKET 1 in
  let* _ := expect TOKEN_RBRACKET "Expected closing ']' for attribute" in
  ret (astAttributeCreate AST_ATTRIBUTE_SYNTAX_CXX (Some payload)).

Definition parseDeclspecAttribute : PM ASTAttribute :=
  let* _ := advance in
  let* _ := expect TOKEN_LPAREN "Expected '(' after __declspec" in
  let* payload := collectBalancedRegion fuel TOKEN_LPAREN TOKEN_RPAREN 1 in
  ret (astAttributeCreate AST_ATTRIBUTE_SYNTAX_DECLSPEC (Some payload)).

Definition parseAsmAttribute : PM ASTAttribute :=
  let* _ := advance in
  let* _ := expect TOKEN_LPAREN "Expected '(' after asm" in
  let* payload := collectBalancedRegion fuel TOKEN_LPAREN TOKEN_RPAREN 1 in
  ret (astAttributeCreate AST_ATTRIBUTE_SYNTAX_GNU (Some payload)).

Definition parseNullabilityAttribute : PM ASTAttribute :=
  let* tok := current in
  if named_in nullability_names tok then
    let* _ := advance in ret (astAttributeCreate AST_ATTRIBUTE_SYNTAX_GNU (tok_value tok))
  else fail.

(** Behind its argument, a closing parenthesis that follows is taken too. *)
Definition parseFallbackAttribute : PM ASTAttribute :=
  let* s := get in
  if negb (looksLikeFallbackAttribute s) then fail
  else
    let* tok := current in
    let* _ := advance in
    let text := builderAppend "" (tok_text tok) in
    let* paren := current_is TOKEN_LPAREN in
    if (paren : bool) then
      let text := builderAppend text "(" in
      let* _ := advance in
      let* payload := collectBalancedRegion fuel TOKEN_LPAREN TOKEN_RPAREN 1 in
      let text := (text ++ payload)%string in
      let* close := current_is TOKEN_RPAREN in
      if (close : bool) then
        let* _ := advance in ret (astAttributeCreate AST_ATTRIBUTE_SYNTAX_GNU (Some (builderAppend text ")")))
      else ret (astAttributeCreate AST_ATTRIBUTE_SYNTAX_GNU (Some text))
    else ret (astAttributeCreate AST_ATTRIBUTE_SYNTAX_GNU (Some text)).

(** The first of two alternatives that is not NULL. *)
Definition otherwise {A} (m k : PM A) : PM A :=
  let* r := attempt m in match r with Some a => ret a | None => k end.

Definition parseSingleAttribute : PM ASTAttribute :=
  let* s := get in
  let tok := token_ahead 0 s in
  if named_in ["__attribute__"%string] tok then parseGNUAttribute
  else if named_in ["__declspec"%string] tok then parseDeclspecAttribute
  else if named_in asm_names tok || tt_eqb (tok_type tok) TOKEN_ASM then parseAsmAttribute
  else
    otherwise (if is_name tok then parseNullabilityAttribute else fail)
      (otherwise parseFallbackAttribute
         (let* s := get in
          if tt_eqb (tok_type (token_ahead 0 s)) TOKEN_LBRACKET && tt_eqb (tok_type (token_ahead 1 s)) TOKEN_LBRACKET
          then parseCXXAttribute else fail)).

(** A specifier that fails ends the list. *)
Definition parserParseAttributeSpecifiers : PM (list ASTAttribute) :=
  iterate fuel (fun items =>
    let* starts := parserLookaheadStartsAttribute in
    if negb starts then ret (inr items)
    else
      let* attr := attempt parseSingleAttribute in
      match attr with None => ret (inr items) | Some a => ret (inl (items ++ [a])) end) [].
End Attributes.

(** [skip_gnu_attribute_specifier]. *)
Definition skip_gnu_attribute_specifier (fuel : nat) : PM unit :=
  let* tok := current in
  if negb (named_in ["__attribute__"%string] tok) then ret tt
  else
    let* _ := advance in
    let* paren := current_is TOKEN_LPAREN in
    if negb paren then ret tt
    else
      iterate fuel (fun depth =>
        let* tok := current in
        if tt_eqb (tok_type tok) TOKEN_EOF then ret (inr tt)
        else if tt_eqb (tok_type tok) TOKEN_LPAREN then let* _ := advance in ret (inl (depth + 1))
        else if tt_eqb (tok_type tok) TOKEN_RPAREN then
          let* _ := advance in
          if depth - 1 <=? 0 then ret (inr tt) else ret (inl (depth - 1))
        else let* _ := advance in ret (inl depth)) 0.
