(* ===== verification/ParserCalls.v ===== *)
(** * What the parts of the parser call of each other.

    The parser's functions are mutually recursive across its files.  Each file defines its
    functions over [ParserCalls], the entries of the others one level of nesting further down,
    and the number of passes its loops may take; ParserMain.v ties the knot. *)
From S2P Require Import Prelude StateError Tokens AST ParsedTypes ParserState.

(** The context a type is parsed in. *)
Inductive TypeContext : Set := TYPECTX_Strict | TYPECTX_Declaration.

#[export] Instance TypeContext_eq_dec : EqDecision TypeContext.
Proof. solve_decision. Defined.

(** [dc_functionParameters]: NULL until a parameter list is captured. *)
Record ParsedDeclarator := mkDeclarator {
  dc_identifier : option ASTNode;
  dc_type : ParsedType;
  dc_functionParameters : option (list (option ASTNode));
  dc_functionIsVariadic : bool;
  dc_functionHasPrototype : bool;
  dc_declaresFunction : bool
}.

Definition dc_with_type (d : ParsedDeclarator) (t : ParsedType) : ParsedDeclarator :=
  mkDeclarator (dc_identifier d) t (dc_functionParameters d) (dc_functionIsVariadic d) (dc_functionHasPrototype d)
    (dc_declaresFunction d).
Definition dc_with_identifier (d : ParsedDeclarator) (i : ASTNode) : ParsedDeclarator :=
  mkDeclarator (Some i) (dc_type d) (dc_functionParameters d) (dc_functionIsVariadic d) (dc_functionHasPrototype d)
    (dc_declaresFunction d).
Definition dc_with_parameters (d : ParsedDeclarator) (l : list (option ASTNode)) (variadic prototype : bool) : ParsedDeclarator :=
  mkDeclarator (dc_identifier d) (dc_type d) (Some l) variadic prototype (dc_declaresFunction d).
Definition dc_as_function (d : ParsedDeclarator) : ParsedDeclarator :=
  mkDeclarator (dc_identifier d) (dc_type d) (dc_functionParameters d) (dc_functionIsVariadic d) (dc_functionHasPrototype d) true.

(** How a declarator is parsed. *)
Record DeclaratorMode := mkMode {
  trackDirectFunction : bool;
  requireIdentifier : bool;
  captureFunctionParams : bool
}.

Definition abstract_mode : DeclaratorMode := mkMode false false false.
Definition variable_mode : DeclaratorMode := mkMode false true false.

(** [c_fields]: the fields up to an error, and whether one is a flexible array.
    [c_parameter_list]: the parameters and whether there is an ellipsis, or NULL with the number
    of parameters counted before the error. *)
Class ParserCalls := mkCalls {
  c_fuel : nat;
  c_expression : Z -> PM ASTNode;
  c_type : TypeContext -> PM ParsedType;
  c_declarator_internal : DeclaratorMode -> ParsedDeclarator -> PM ParsedDeclarator;
  c_declarator : ParsedType -> DeclaratorMode -> PM ParsedDeclarator;
  c_initializer_list : ParsedType -> PM (list (option (DesignatedInit ASTNode)));
  c_fields : PM (list (option ASTNode) * bool);
  c_parameter_list : PM (nat + list (option ASTNode) * bool);
  c_block : PM ASTNode;
  c_statement : PM ASTNode;
  c_if : PM ASTNode
}.

(** [parseAssignmentExpression] and [parseExpression] of the Pratt parser. *)
Definition parseAssignmentExpression `{ParserCalls} : PM ASTNode := c_expression 0.
Definition parseExpression `{ParserCalls} : PM ASTNode := c_expression (-1).
