(* ===== verification/ParserTypes.v ===== *)
(** * Types from tokens (src/Parser/Helpers/parsed_type.c). *)
From S2P Require Import Prelude StateError CType PPExpr Tokens AST ParsedTypes Semantic ParserState AstBuild ParserAttributes ParserCalls.

(** ** Numbers *)

(** [strtoll (s, &end, base)], clamped; [None] when there are no digits ([end] is [s]).  A base
    of 0 is read off the prefix. *)
Definition strtoll (base : Z) (s : string) : option Z :=
  let body := (span is_space (list_ascii_of_string s)).2 in
  let '(neg, body) := match body with
                      | c :: rest => if c =c "-" then (true, rest) else if c =c "+" then (false, rest) else (false, body)
                      | [] => (false, [])
                      end in
  let '(base, body) := if base =? 0 then strtoull_prefix body else (base, body) in
  match (span (in_base base) body).1 with
  | [] => None
  | ds => let v := digits_value base ds in Some (Z.max (- 2 ^ 63) (Z.min (if neg : bool then - v else v) (2 ^ 63 - 1)))
  end.

(** [atoll]. *)
Definition atoll (s : string) : Z := default 0 (strtoll 10 s).

(** ** Fields of a type *)

Definition pt_set_base (kind : TypeKind) (tag : TagKind) (name : option string) (prim : TokenType) (t : ParsedType) : ParsedType :=
  mkParsedType kind tag (pt_inlineStructOrUnionDef t) (pt_inlineEnumDef t) (pt_isFunctionPointer t)
    (pt_fpParams t) prim name (pt_modifiers t) (pt_qualifiers t) (pt_storage t)
    (pt_pointerDepth t) (pt_isVLA t) (pt_directlyDeclaresFunction t) (pt_isVariadicFunction t) (pt_derivations t)
    (pt_attributes t) (pt_alignOverride t) (pt_hasAlignOverride t) (pt_paramArrayInfo t).
Definition pt_set_definitions (s e : option NodeId) (t : ParsedType) : ParsedType :=
  mkParsedType (pt_kind t) (pt_tag t) s e (pt_isFunctionPointer t)
    (pt_fpParams t) (pt_primitiveType t) (pt_userTypeName t) (pt_modifiers t) (pt_qualifiers t) (pt_storage t)
    (pt_pointerDepth t) (pt_isVLA t) (pt_directlyDeclaresFunction t) (pt_isVariadicFunction t) (pt_derivations t)
    (pt_attributes t) (pt_alignOverride t) (pt_hasAlignOverride t) (pt_paramArrayInfo t).
Definition pt_set_specifiers (m : TypeModifiers) (q : PointerQualifier) (st : StorageSpecifiers) (t : ParsedType) : ParsedType :=
  mkParsedType (pt_kind t) (pt_tag t) (pt_inlineStructOrUnionDef t) (pt_inlineEnumDef t) (pt_isFunctionPointer t)
    (pt_fpParams t) (pt_primitiveType t) (pt_userTypeName t) m q st
    (pt_pointerDepth t) (pt_isVLA t) (pt_directlyDeclaresFunction t) (pt_isVariadicFunction t) (pt_derivations t)
    (pt_attributes t) (pt_alignOverride t) (pt_hasAlignOverride t) (pt_paramArrayInfo t).
Definition pt_set_align (align : Z) (has : bool) (t : ParsedType) : ParsedType :=
  mkParsedType (pt_kind t) (pt_tag t) (pt_inlineStructOrUnionDef t) (pt_inlineEnumDef t) (pt_isFunctionPointer t)
    (pt_fpParams t) (pt_primitiveType t) (pt_userTypeName t) (pt_modifiers t) (pt_qualifiers t) (pt_storage t)
    (pt_pointerDepth t) (pt_isVLA t) (pt_directlyDeclaresFunction t) (pt_isVariadicFunction t) (pt_derivations t)
    (pt_attributes t) align has (pt_paramArrayInfo t).

(** [parsedTypeDefault]. *)
Definition parsedTypeDefault : ParsedType :=
  mkParsedType TYPE_INVALID TAG_NONE None None false [] TOKEN_VOID None no_modifiers no_qualifier no_storage 0 false
    false false [] [] 0 false None.

Definition is_invalid (t : ParsedType) : bool := bool_decide (pt_kind t = TYPE_INVALID).

Definition or_modifiers (a b : TypeModifiers) : TypeModifiers :=
  mkModifiers (isSigned a || isSigned b) (isUnsigned a || isUnsigned b) (isShort a || isShort b) (isLong a || isLong b)
    (isComplex a || isComplex b) (isImaginary a || isImaginary b).
Definition or_qualifiers (a b : PointerQualifier) : PointerQualifier :=
  mkQualifier (isConst a || isConst b) (isVolatile a || isVolatile b) (isRestrict a || isRestrict b).
Definition or_storage (a b : StorageSpecifiers) : StorageSpecifiers :=
  mkStorage (isInline a || isInline b) (isStatic a || isStatic b) (isExtern a || isExtern b) (isRegister a || isRegister b)
    (isAuto a || isAuto b) (isThreadLocal a || isThreadLocal b).

Definition add_specifiers (m : TypeModifiers) (q : PointerQualifier) (st : StorageSpecifiers) (t : ParsedType) : ParsedType :=
  pt_set_specifiers (or_modifiers (pt_modifiers t) m) (or_qualifiers (pt_qualifiers t) q) (or_storage (pt_storage t) st) t.

Definition add_qualifier (q : PointerQualifier) : ParsedType -> ParsedType := add_specifiers no_modifiers q no_storage.
Definition add_modifier (m : TypeModifiers) : ParsedType -> ParsedType := add_specifiers m no_qualifier no_storage.
Definition add_storage (st : StorageSpecifiers) : ParsedType -> ParsedType := add_specifiers no_modifiers no_qualifier st.

(** What a storage class, and a qualifier or modifier, does to the type. *)
Definition storage_specifier (type : TokenType) : option (ParsedType -> ParsedType) :=
  match type with
  | TOKEN_TYPEDEF => Some id
  | TOKEN_STATIC => Some (add_storage (mkStorage false true false false false false))
  | TOKEN_EXTERN => Some (add_storage (mkStorage false false true false false false))
  | TOKEN_REGISTER => Some (add_storage (mkStorage false false false true false false))
  | TOKEN_AUTO => Some (add_storage (mkStorage false false false false true false))
  | _ => None
  end.

Definition trailing_qualifier (type : TokenType) : option (ParsedType -> ParsedType) :=
  match type with
  | TOKEN_CONST => Some (add_qualifier (mkQualifier true false false))
  | TOKEN_VOLATILE => Some (add_qualifier (mkQualifier false true false))
  | TOKEN_RESTRICT => Some (add_qualifier (mkQualifier false false true))
  | TOKEN_NORETURN => Some id
  | TOKEN_COMPLEX => Some (add_modifier (mkModifiers false false false false true false))
  | TOKEN_IMAGINARY => Some (add_modifier (mkModifiers false false false false false true))
  | _ => None
  end.

Definition type_modifier (type : TokenType) : option (ParsedType -> ParsedType) :=
  match type with
  | TOKEN_SIGNED => Some (add_modifier (mkModifiers true false false false false false))
  | TOKEN_UNSIGNED => Some (add_modifier (mkModifiers false true false false false false))
  | TOKEN_SHORT => Some (add_modifier (mkModifiers false false true false false false))
  | TOKEN_LONG => Some (add_modifier (mkModifiers false false false true false false))
  | TOKEN_INLINE => Some (add_storage (mkStorage true false false false false false))
  | _ => trailing_qualifier type
  end.

Definition tagKindFromToken (type : TokenType) : TagKind :=
  match type with TOKEN_STRUCT => TAG_STRUCT | TOKEN_UNION => TAG_UNION | TOKEN_ENUM => TAG_ENUM | _ => TAG_NONE end.

Definition context_tag (tag : TagKind) : option CCTagKind :=
  match tag with
  | TAG_STRUCT => Some CC_TAG_STRUCT | TAG_UNION => Some CC_TAG_UNION | TAG_ENUM => Some CC_TAG_ENUM | TAG_NONE => None
  end.

Definition has_tag (s : PState) (kind : CCTagKind) (name : string) : bool :=
  cc_has_tag (UnitsTables.xs_sem (ps_ext s)) kind name.

Definition tagIsKnown (s : PState) (tag : TagKind) (name : string) : bool :=
  match context_tag tag with Some kind => has_tag s kind name | None => false end.

Definition identifierMatchesKnownType (s : PState) (name : option string) : bool :=
  match name with Some n => parserIsTypedefVisible s name || cc_is_builtin_type n | None => false end.

Definition parser_allows_atomic_keyword (s : PState) : bool :=
  ps_relaxedAtomic s || match ps_dialect s with CC_DIALECT_C11 | CC_DIALECT_C17 => true | CC_DIALECT_C99 => false end.

Definition isInteropCallingConventionMarker : Token -> bool :=
  named_in ["VKAPI_ATTR"; "VKAPI_CALL"; "VKAPI_PTR"; "APIENTRY"; "WINAPI"; "CALLBACK"; "STDMETHODCALLTYPE"; "__stdcall";
            "__cdecl"; "__fastcall"]%string.

Definition isAlignasToken : Token -> bool := named_in ["_Alignas"; "alignas"]%string.

(** A further pointer, with its qualifiers. *)
Definition append_pointer (q : PointerQualifier) (t : ParsedType) : ParsedType :=
  let t := parsedTypeAppendPointer t in
  match rev (pt_derivations t) with
  | _ :: before => with_derivations t (rev before ++ [TYPE_DERIVATION_POINTER q])
  | [] => t
  end.

Section Types.
Context `{calls : ParserCalls}.

Definition attributes : PM (list ASTAttribute) := parserParseAttributeSpecifiers c_fuel.

Definition consumeTypeAttributes (t : ParsedType) : PM ParsedType :=
  let* attrs := attributes in ret (parsedTypeAdoptAttributes t attrs).

(** [_Atomic] where it is not allowed: an error, once ([reported]). *)
Definition atomic_unsupported (reported : bool) : PM bool :=
  let* s := get in
  if parser_allows_atomic_keyword s || reported then ret reported
  else let* _ := printParseError "_Atomic is not supported yet" in let* _ := markParserFatalError in ret true.

Definition consumePointerQualifiers : PM PointerQualifier :=
  iterate c_fuel (fun q =>
    let* tok := current in
    match tok_type tok with
    | TOKEN_ATOMIC => let* _ := atomic_unsupported false in let* _ := advance in ret (inl q)
    | TOKEN_CONST => let* _ := advance in ret (inl (or_qualifiers q (mkQualifier true false false)))
    | TOKEN_VOLATILE => let* _ := advance in ret (inl (or_qualifiers q (mkQualifier false true false)))
    | TOKEN_RESTRICT => let* _ := advance in ret (inl (or_qualifiers q (mkQualifier false false true)))
    | _ => ret (inr q)
    end) no_qualifier.

(** [*], and [^] where block pointers are on. *)
Definition at_pointer : PM bool :=
  let* s := get in
  let type := tok_type (token_ahead 0 s) in
  ret (tt_eqb type TOKEN_ASTERISK || ps_blockPointers s && tt_eqb type TOKEN_BITWISE_XOR).

(** The greatest alignment asked for. *)
Definition override_align (expr : ASTNode) (t : ParsedType) : ParsedType :=
  match an_body expr with
  | AST_NUMBER_LITERAL (Some text) =>
      match strtoll 0 text with
      | Some v => if 0 <? v
                  then pt_set_align (if negb (pt_hasAlignOverride t) || (pt_alignOverride t <? v) then v else pt_alignOverride t) true t
                  else t
      | None => t
      end
  | _ => t
  end.

(** An error leaves the type as it is, and the tokens where they are. *)
Definition consumeAlignasSpecifiers (t : ParsedType) : PM ParsedType :=
  iterate c_fuel (fun t =>
    let* tok := current in
    if negb (isAlignasToken tok) then ret (inr t)
    else
      let* _ := advance in
      let* r := attempt
        (let* _ := expect TOKEN_LPAREN "Expected '(' after alignas" in
         let* expr := or_error parseAssignmentExpression "Invalid alignas argument" in
         let* _ := expect TOKEN_RPAREN "Expected ')' to close alignas" in
         ret (override_align expr t)) in
      match r with Some t => ret (inl t) | None => ret (inr t) end) t.

(** ** The bodies of enumerations *)

(** An attribute list whose attributes are dropped, and GNU specifiers behind it. *)
Definition drop_attributes : PM unit :=
  let* _ := attributes in
  while c_fuel (let* tok := current in ret (named_in ["__attribute__"%string] tok)) (skip_gnu_attribute_specifier c_fuel).

(** One enumerator and its value. *)
Definition parse_enumerator : PM (ASTNode * option NodeId) :=
  let* tok := current in
  let* name := createIdentifierNode (tok_value tok) in
  let name := astNodeSetProvenance tok name in
  let* _ := advance in
  let* _ := drop_attributes in
  let* assigned := current_is TOKEN_ASSIGN in
  let* value :=
    (if (assigned : bool) then
       let* _ := advance in
       let* v := or_error parseAssignmentExpression "Invalid value expression in enum" in
       let* id := keep_node v in ret (Some id)
     else ret None) in
  let* _ := drop_attributes in
  ret (name, value).

(** A comma may stand before the brace: no name follows it. *)
Definition parse_enumerators : PM (list (option ASTNode) * list (option NodeId)) :=
  iterate c_fuel (fun '(members, values) =>
    let* named := current_is TOKEN_IDENTIFIER in
    if negb named then ret (inr (members, values))
    else
      let* '(name, value) := parse_enumerator in
      let next := (members ++ [Some name], values ++ [value]) in
      let* tok := current in
      match tok_type tok with
      | TOKEN_COMMA => let* _ := advance in ret (inl next)
      | TOKEN_RBRACE => ret (inr next)
      | _ => parse_error "Expected ',' or '}' after enum member"
      end) ([], []).

Definition parseInlineEnumBody : PM (list (option ASTNode) * list (option NodeId)) :=
  let* _ := expect TOKEN_LBRACE "Expected '{' to begin enum body" in
  let* '(members, values) := parse_enumerators in
  match members with
  | [] => parse_error "Enum declaration requires at least one enumerator"
  | _ => let* _ := expect TOKEN_RBRACE "Expected '}' to close enum body" in ret (members, values)
  end.

(** ** Specifiers *)

Definition storage_specifiers (t : ParsedType) : PM ParsedType :=
  let* t := iterate c_fuel (fun t =>
    let* tok := current in
    match storage_specifier (tok_type tok) with
    | Some f => let* _ := advance in ret (inl (f t))
    | None => ret (inr t)
    end) t in
  let* t := consumeTypeAttributes t in
  let* t := consumeAlignasSpecifiers t in
  consumeAlignasSpecifiers t.

(** The loop over modifiers: the type, the type in [_Atomic (...)], and what was reported. *)
Record Modifiers := mkModState {
  md_type : ParsedType;
  md_atomic : option ParsedType;
  md_atomicReported : bool;
  md_threadReported : bool
}.

Definition md_with_type (m : Modifiers) (t : ParsedType) : Modifiers :=
  mkModState t (md_atomic m) (md_atomicReported m) (md_threadReported m).

Definition is_thread (tok : Token) : bool := tt_eqb (tok_type tok) TOKEN_THREAD_LOCAL && value_is tok "__thread".

(** Behind [_Atomic]: a type name in parentheses. *)
Definition atomic_specifier (m : Modifiers) : PM Modifiers :=
  let* reported := atomic_unsupported (md_atomicReported m) in
  let m := mkModState (md_type m) (md_atomic m) reported (md_threadReported m) in
  let* _ := advance in
  let* paren := current_is TOKEN_LPAREN in
  if negb paren then ret m
  else
    let* _ := advance in
    let* inner := c_type TYPECTX_Strict in
    if is_invalid inner then parse_error "Expected type-name in _Atomic(...)"
    else
      let* _ := expect TOKEN_RPAREN "Expected ')' to close _Atomic type-name" in
      ret (mkModState (md_type m) (Some inner) reported (md_threadReported m)).

Definition modifier_step (m : Modifiers) : PM (Modifiers + Modifiers) :=
  let* tok := current in
  match type_modifier (tok_type tok) with
  | Some f => let* _ := advance in ret (inl (md_with_type m (f (md_type m))))
  | None =>
      if is_thread tok then
        let* _ := advance in
        ret (inl (md_with_type m (add_storage (mkStorage false false false false false true) (md_type m))))
      else if tt_eqb (tok_type tok) TOKEN_THREAD_LOCAL then
        let* _ := (if md_threadReported m then ret tt
                   else let* _ := printParseError "_Thread_local is not supported yet" in markParserFatalError) in
        let* _ := advance in
        ret (inl (mkModState (md_type m) (md_atomic m) (md_atomicReported m) true))
      else if tt_eqb (tok_type tok) TOKEN_ATOMIC then let* m := atomic_specifier m in ret (inl m)
      else if isInteropCallingConventionMarker tok then let* _ := advance in ret (inl m)
      else
        let* t := consumeTypeAttributes (md_type m) in
        let* t := consumeAlignasSpecifiers t in
        let* t := consumeAlignasSpecifiers t in
        ret (inr (md_with_type m t))
  end.

(** ** The base type

    A result without a value: the type is invalid, and what was read of it is dropped. *)

(** What [src] has besides its specifiers, its attributes and its alignment. *)
Definition parsedTypeAdoptBase (dst src : ParsedType) : ParsedType :=
  mkParsedType (pt_kind src) (pt_tag src) (pt_inlineStructOrUnionDef src) (pt_inlineEnumDef src) (pt_isFunctionPointer src)
    (pt_fpParams src) (pt_primitiveType src) (pt_userTypeName src) (pt_modifiers dst) (pt_qualifiers dst) (pt_storage dst)
    (pt_pointerDepth src) (pt_isVLA src) (pt_directlyDeclaresFunction src) (pt_isVariadicFunction src) (pt_derivations src)
    (pt_attributes dst) (pt_alignOverride dst) (pt_hasAlignOverride dst) (pt_paramArrayInfo src).

(** The type of [_Atomic (...)] under the modifiers seen outside of it. *)
Definition adopt_atomic (inner t : ParsedType) : ParsedType :=
  let inline := mkStorage (isInline (pt_storage inner)) false false false false false in
  parsedTypeAdoptBase
    (pt_set_align (pt_alignOverride inner) (pt_hasAlignOverride inner)
       (add_specifiers (pt_modifiers inner) (pt_qualifiers inner) inline t)) inner.

Definition primitive_base (t : ParsedType) : PM ParsedType :=
  let* tok := current in
  let* _ := advance in
  let* _ := while c_fuel (let* tok := current in ret (isPrimitiveTypeToken (tok_type tok))) advance in
  ret (pt_set_base TYPE_PRIMITIVE (pt_tag t) (pt_userTypeName t) (tok_type tok) t).

(** [parser->anonTagCounter++] in a name. *)
Definition anonymous_tag (word : string) (line : Z) : PM string :=
  let* p := the_parser in
  let* _ := update_parser (set_anonTagCounter (u64 (p_anonTagCounter p + 1))) in
  ret ("__anon_" +:+ word +:+ "_" +:+ string_of_list_ascii (decimal_digits 20 (p_anonTagCounter p)) +:+ "_" +:+ int_text line).

Definition tag_name (name : option string) (word : string) (line : Z) : PM string :=
  match name with Some n => ret n | None => anonymous_tag word line end.

Definition align_attributes (t : ParsedType) : list ASTAttribute :=
  if pt_hasAlignOverride t && (0 <? pt_alignOverride t)
  then [astAttributeCreate AST_ATTRIBUTE_SYNTAX_GNU
          (Some ("aligned(" +:+ string_of_list_ascii (decimal_digits 20 (pt_alignOverride t)) +:+ ")"))]
  else [].

Definition finish_definition (t : ParsedType) : PM ParsedType :=
  let* t := consumeTypeAttributes t in consumeAlignasSpecifiers t.

(** The alignment is added to the attributes of the definition twice. *)
Definition record_body (tagToken : TokenType) (name : option string) (tagLine : Z) (t : ParsedType) : PM ParsedType :=
  let isStruct := tt_eqb tagToken TOKEN_STRUCT in
  let* _ := advance in
  let* '(fields, hasFlexible) := c_fields in
  let* _ := expect TOKEN_RBRACE "Expected '}' to close struct/union body" in
  let* trailing := attributes in
  let trailing := trailing ++ align_attributes t ++ align_attributes t in
  let* here := current in
  let* name := tag_name name (if isStruct then "struct" else "union") (tok_line here) in
  let* ident := createIdentifierNode (Some name) in
  let* def := createStructOrUnionDefinitionNode isStruct (set_line tagLine ident) fields hasFlexible in
  let def := astNodeAppendAttributes trailing (astNodeCloneTypeAttributes t (set_line tagLine def)) in
  let* id := keep_node def in
  let t := pt_set_base (if isStruct then TYPE_STRUCT else TYPE_UNION) (tagKindFromToken tagToken) (Some name) (pt_primitiveType t) t in
  let* _ := add_tag (if isStruct then CC_TAG_STRUCT else CC_TAG_UNION) name in
  finish_definition (pt_set_definitions (Some id) (pt_inlineEnumDef t) t).

Definition enum_body (name : option string) (tagLine : Z) (t : ParsedType) : PM ParsedType :=
  let* '(members, values) := parseInlineEnumBody in
  let* trailing := attributes in
  let* name := tag_name name "enum" tagLine in
  let* ident := createIdentifierNode (Some name) in
  let* def := createEnumDefinitionNode (set_line tagLine ident) members values in
  let def := astNodeAppendAttributes trailing (set_line tagLine def) in
  let* id := keep_node def in
  let t := pt_set_base TYPE_ENUM TAG_ENUM (Some name) (pt_primitiveType t) t in
  let* _ := add_tag CC_TAG_ENUM name in
  finish_definition (pt_set_definitions (pt_inlineStructOrUnionDef t) (Some id) t).

Definition kind_of_tag (tag : TagKind) : TypeKind :=
  match tag with TAG_STRUCT => TYPE_STRUCT | TAG_UNION => TYPE_UNION | TAG_ENUM => TYPE_ENUM | TAG_NONE => TYPE_NAMED end.

Definition tag_reference (ctx : TypeContext) (tagToken : TokenType) (name : option string) (t : ParsedType) : PM ParsedType :=
  let tag := tagKindFromToken tagToken in
  let* s := get in
  match name with
  | None =>
      let* _ := (if decide (ctx = TYPECTX_Declaration) then printParseError "Expected identifier after aggregate keyword" else ret tt) in
      fail
  | Some n =>
      if bool_decide (ctx = TYPECTX_Strict) && negb (tagIsKnown s tag n) then fail
      else ret (pt_set_base (kind_of_tag tag) tag name (pt_primitiveType t) t)
  end.

Definition tagged_base (ctx : TypeContext) (t : ParsedType) : PM ParsedType :=
  let* tok := current in
  let tagToken := tok_type tok in
  let* _ := advance in
  let* t := consumeTypeAttributes t in
  let* tok := current in
  let* name := (if is_name tok then let* _ := advance in lift (option_map Some (tok_value tok)) else ret None) in
  let* t := consumeTypeAttributes t in
  let* brace := current_is TOKEN_LBRACE in
  if (brace : bool) then
    if tt_eqb tagToken TOKEN_ENUM then enum_body name (tok_line tok) t
    else record_body tagToken name (tok_line tok) t
  else tag_reference ctx tagToken name t.

Definition has_int_modifier (m : TypeModifiers) : bool := isUnsigned m || isSigned m || isShort m || isLong m.

Definition named_base (ctx : TypeContext) (t : ParsedType) : PM ParsedType :=
  let* s := get in
  let ident := tok_value (token_ahead 0 s) in
  let hasTypeModifiers := has_int_modifier (pt_modifiers t) in
  let known := negb hasTypeModifiers && identifierMatchesKnownType s ident in
  let hidden := match ident with Some n => cc_is_typedef s n | None => false end && negb (parserIsTypedefVisible s ident) in
  let named :=
    let* name := lift ident in
    let* _ := advance in ret (pt_set_base TYPE_NAMED (pt_tag t) (Some name) (pt_primitiveType t) t) in
  if known then named
  else if hidden then
    let* _ := (if decide (ctx = TYPECTX_Declaration)
               then let* _ := printParseError "type name hidden by ordinary identifier" in markParserFatalError
               else ret tt) in
    fail
  else if decide (ctx = TYPECTX_Strict) then fail
  else if hasTypeModifiers then ret (pt_set_base TYPE_PRIMITIVE (pt_tag t) (pt_userTypeName t) TOKEN_INT t)
  else named.

(** The type with its base; [false]: there is no type name, and the type is returned as it is. *)
Definition base_type (ctx : TypeContext) (m : Modifiers) : PM (ParsedType * bool) :=
  let t := md_type m in
  let* tok := current in
  let based (p : PM ParsedType) : PM (ParsedType * bool) := let* t := p in ret (t, true) in
  match md_atomic m with
  | Some inner => ret (adopt_atomic inner t, true)
  | None =>
      if isPrimitiveTypeToken (tok_type tok) then based (primitive_base t)
      else
        match tok_type tok with
        | TOKEN_STRUCT | TOKEN_UNION | TOKEN_ENUM => based (tagged_base ctx t)
        | TOKEN_IDENTIFIER => based (named_base ctx t)
        | _ =>
            let mods := pt_modifiers t in
            if has_int_modifier mods || isComplex mods || isImaginary mods
            then ret (pt_set_base TYPE_PRIMITIVE (pt_tag t) (pt_userTypeName t)
                        (if isComplex mods || isImaginary mods then TOKEN_DOUBLE else TOKEN_INT) t, true)
            else
              let* _ := (if decide (ctx = TYPECTX_Declaration) then printParseError "Expected type name" else ret tt) in
              ret (t, false)
        end
  end.

(** ** Behind the base *)

Definition trailing_qualifiers (reported : bool) (t : ParsedType) : PM ParsedType :=
  iterate c_fuel (fun '(t, reported) =>
    let* tok := current in
    match trailing_qualifier (tok_type tok) with
    | Some f => let* _ := advance in ret (inl (f t, reported))
    | None =>
        if tt_eqb (tok_type tok) TOKEN_ATOMIC then
          let* reported := atomic_unsupported reported in let* _ := advance in ret (inl (t, reported))
        else if isInteropCallingConventionMarker tok then let* _ := advance in ret (inl (t, reported))
        else let* t := consumeTypeAttributes t in ret (inr t)
    end) (t, reported).

Definition eager_pointers (t : ParsedType) : PM ParsedType :=
  iterate c_fuel (fun t =>
    let* pointer := at_pointer in
    if negb pointer then ret (inr t)
    else
      let* _ := advance in
      let* q := consumePointerQualifiers in
      ret (inl (append_pointer q t))) t.

(** The whole type, or nothing. *)
Definition parse_type_core (ctx : TypeContext) : PM ParsedType :=
  let* t := consumeTypeAttributes parsedTypeDefault in
  let* t := consumeAlignasSpecifiers t in
  let* t := storage_specifiers t in
  let* m := iterate c_fuel modifier_step (mkModState t None false false) in
  let* '(t, based) := base_type ctx m in
  if negb based then ret t
  else
    let* t := trailing_qualifiers (md_atomicReported m) t in
    let* t := (if decide (ctx = TYPECTX_Declaration) then ret t else eager_pointers t) in
    finish_definition t.

(** Where the code returns [parsedTypeDefault ()], what was read so far is read. *)
Definition parseTypeCtx (ctx : TypeContext) : PM ParsedType :=
  let* r := attempt (parse_type_core ctx) in ret (default parsedTypeDefault r).
End Types.

Definition parseType `{ParserCalls} : PM ParsedType := c_type TYPECTX_Declaration.
