(* ===== verification/ParserDeclarators.v ===== *)
(** * Declarators (src/Parser/parser_declarator_core.c). *)
From S2P Require Import Prelude StateError Tokens AST ParsedTypes Semantic UnitsTables ParserState AstBuild ParserAttributes ParserCalls ParserTypes.

Definition at_type (k : nat) (s : PState) : TokenType := tok_type (token_ahead k s).

(** ** Pointers *)

Definition applyPointerChainToType (t : ParsedType) (chain : list PointerQualifier) : ParsedType :=
  foldl (fun t q => append_pointer q t) t (rev chain).

(** The only array and pointers behind it: the pointers go to the front. *)
Definition normalizeGroupedArrayPointer (t : ParsedType) : ParsedType :=
  if bool_decide (count_if is_array (pt_derivations t) = 1%nat) then
    let '(before, rest) := span (fun d => negb (is_array d)) (pt_derivations t) in
    match rest with
    | [] => t
    | a :: after =>
        with_derivations t
          (List.filter is_pointer after ++ before ++ [a] ++ List.filter (fun d => negb (is_pointer d)) after)
    end
  else t.

(** ** Arrays *)

(** [parsedTypeGetMutableArrayDerivation], and a change of what it finds. *)
Fixpoint update_array (index : nat) (f : ParsedArrayInfo -> ParsedArrayInfo) (ds : list Derivation) : list Derivation :=
  match ds with
  | [] => []
  | TYPE_DERIVATION_ARRAY a :: rest =>
      match index with
      | O => TYPE_DERIVATION_ARRAY (f a) :: rest
      | S index => TYPE_DERIVATION_ARRAY a :: update_array index f rest
      end
  | d :: rest => d :: update_array index f rest
  end.

Definition with_array (t : ParsedType) (index : nat) (f : ParsedArrayInfo -> ParsedArrayInfo) : ParsedType :=
  with_derivations t (update_array index f (pt_derivations t)).

(** [atoll] of the size, when it is a number. *)
Definition literal_size (size : option ASTNode) : option Z :=
  match size with
  | Some n => match an_body n with AST_NUMBER_LITERAL (Some text) => Some (atoll text) | _ => None end
  | None => None
  end.

Definition array_suffix_info (size : option ASTNode) (static : bool) (q : PointerQualifier) (a : ParsedArrayInfo) : ParsedArrayInfo :=
  mkArrayInfo (sizeExpr a) (isVLA a)
    (match literal_size size with Some _ => true | None => hasConstantSize a end)
    (default (constantSize a) (literal_size size)) (isFlexible a) static q.

Section Declarators.
Context `{calls : ParserCalls}.

Definition parsePointerChain : PM (list PointerQualifier) :=
  iterate c_fuel (fun chain =>
    let* pointer := at_pointer in
    if negb pointer then ret (inr chain)
    else
      let* _ := advance in
      let* q := consumePointerQualifiers in
      ret (inl (chain ++ [q]))) [].

(** [static] and the qualifiers of a parameter's array. *)
Definition array_qualifiers : PM (bool * PointerQualifier) :=
  iterate c_fuel (fun '(static, q) =>
    let* tok := current in
    match tok_type tok with
    | TOKEN_STATIC => let* _ := advance in ret (inl (true, q))
    | TOKEN_CONST => let* _ := advance in ret (inl (static, or_qualifiers q (mkQualifier true false false)))
    | TOKEN_VOLATILE => let* _ := advance in ret (inl (static, or_qualifiers q (mkQualifier false true false)))
    | TOKEN_RESTRICT => let* _ := advance in ret (inl (static, or_qualifiers q (mkQualifier false false true)))
    | _ => ret (inr (static, q))
    end) (false, no_qualifier).

(** The size between the brackets, and whether it is [*].  After an error there is no size. *)
Definition array_size (static : bool) : PM (option ASTNode * bool) :=
  let static_error := let* _ := printParseError "Array parameter 'static' requires a size expression" in ret (None, false) in
  let* tok := current in
  match tok_type tok with
  | TOKEN_ASTERISK =>
      if static then static_error
      else
        let* _ := advance in
        let* close := current_is TOKEN_RBRACKET in
        if (close : bool) then let* _ := advance in ret (None, true) else ret (None, false)
  | TOKEN_RBRACKET => if static then static_error else let* _ := advance in ret (None, false)
  | _ =>
      let* size := attempt parseAssignmentExpression in
      match size with
      | None => let* _ := printParseError "Failed to parse expression" in ret (None, false)
      | Some n =>
          let* close := current_is TOKEN_RBRACKET in
          if (close : bool) then let* _ := advance in ret (Some n, false) else ret (None, false)
      end
  end.

(** At the opening bracket. *)
Definition parseArraySize : PM (option ASTNode * bool * (bool * PointerQualifier)) :=
  let* _ := advance in
  let* '(static, q) := array_qualifiers in
  let* size := array_size static in
  ret (size, (static, q)).

Definition array_suffix (t : ParsedType) : PM ParsedType :=
  let* '(size, vla, (static, q)) := parseArraySize in
  let* id := keep_opt size in
  let t := parsedTypeAppendArray t id vla in
  ret (with_array t (count_if is_array (pt_derivations t) - 1) (array_suffix_info size static q)).

(** ** Functions *)

(** Names up to the closing parenthesis; in front of a semicolon it is a list of types. *)
Definition looksLikeIdentifierParamList : PM bool :=
  let* r := on_clone (iterate c_fuel (fun sawIdent =>
    let* s := get in
    match at_type 0 s with
    | TOKEN_RPAREN => ret (inr (sawIdent && negb (tt_eqb (at_type 1 s) TOKEN_SEMICOLON)))
    | TOKEN_IDENTIFIER =>
        let* _ := advance in
        match at_type 1 s with
        | TOKEN_COMMA => let* _ := advance in ret (inl true)
        | TOKEN_RPAREN => ret (inl true)
        | _ => ret (inr false)
        end
    | _ => ret (inr false)
    end) false) in
  ret (default false r).

Definition skip_identifiers : PM unit :=
  iterate c_fuel (fun _ =>
    let* s := get in
    match at_type 0 s with
    | TOKEN_RPAREN => ret (inr tt)
    | TOKEN_IDENTIFIER =>
        let* _ := advance in
        match at_type 1 s with
        | TOKEN_COMMA => let* _ := advance in ret (inl tt)
        | TOKEN_RPAREN => ret (inl tt)
        | _ => fail
        end
    | _ => fail
    end) tt.

(** A frame of names for the time of [m]. *)
Definition in_scope {A} (m : PM A) : PM A :=
  let* _ := parserPushOrdinaryScope in
  let* r := attempt m in
  let* _ := parserPopOrdinaryScope in
  match r with Some a => ret a | None => fail end.

Definition record_name (ident : option ASTNode) : PM unit :=
  match ident with Some n => parserRecordOrdinaryIdentifier (node_value n) | None => ret tt end.

Definition adjust_array_parameter (t : ParsedType) : PM ParsedType :=
  let* s := get in
  ret (default t (parsedTypeAdjustArrayParameter (ss_nodes (xs_sem (ps_ext s))) t)).

(** The type of one parameter. *)
Definition function_type_parameter : PM ParsedType :=
  let* leading := attributes in
  let* base := parseType in
  if is_invalid base then fail
  else
    let* d := c_declarator base abstract_mode in
    let* _ := record_name (dc_identifier d) in
    adjust_array_parameter (parsedTypeAdoptAttributes (parsedTypeClone (dc_type d)) leading).

(** The parameter types of a prototype, and whether there is an ellipsis. *)
Definition function_type_parameters : PM (list ParsedType * bool) :=
  let* r := iterate c_fuel (fun types =>
    let* s := get in
    match at_type 0 s with
    | TOKEN_RPAREN | TOKEN_EOF => ret (inr (types, false))
    | TOKEN_ELLIPSIS => let* _ := advance in ret (inr (types, true))
    | _ =>
        if tt_eqb (at_type 0 s) TOKEN_VOID && tt_eqb (at_type 1 s) TOKEN_RPAREN && bool_decide (types = [])
        then let* _ := advance in ret (inr ([], false))
        else
          let* t := function_type_parameter in
          let* comma := current_is TOKEN_COMMA in
          if (comma : bool) then let* _ := advance in ret (inl (types ++ [t])) else ret (inr (types ++ [t], false))
    end) [] in
  let* close := current_is TOKEN_RPAREN in
  if (close : bool) then ret r else fail.

(** The types, the ellipsis, and whether it is a prototype. *)
Definition parseFunctionTypeParameterList : PM (list ParsedType * bool * bool) :=
  let* empty := current_is TOKEN_RPAREN in
  if (empty : bool) then ret ([], false, false)
  else
    let* names := looksLikeIdentifierParamList in
    if (names : bool) then let* _ := skip_identifiers in ret ([], false, false)
    else let* '(types, variadic) := in_scope function_type_parameters in ret (types, variadic, true).

Definition buildParamTypesFromDecls (l : list (option ASTNode)) : list ParsedType :=
  map (fun p =>
    match p with
    | Some n => match an_body n with
                | AST_VARIABLE_DECLARATION d => parsedTypeClone (astVarDeclTypeAt d 0)
                | _ => invalid_parsed_type
                end
    | None => invalid_parsed_type
    end) l.

Definition parsedTypeIsPlainVoidParameter (t : ParsedType) : bool :=
  bool_decide (pt_kind t = TYPE_PRIMITIVE) && tt_eqb (pt_primitiveType t) TOKEN_VOID && (pt_pointerDepth t =? 0) &&
  match pt_derivations t with [] => true | _ => false end.

(** The parameters as declarations.  When the list is NULL but parameters were counted, the
    types cannot be built. *)
Definition captured_parameters (d : ParsedDeclarator) : PM (list ParsedType * bool * bool * ParsedDeclarator) :=
  let* empty := current_is TOKEN_RPAREN in
  let* r := c_parameter_list in
  match r with
  | inl O => parse_error "Invalid function parameter list"
  | inl (S _) =>
      let* close := current_is TOKEN_RPAREN in
      parse_error (if (close : bool) then "Out of memory building function parameter types" else "Expected ')' after parameter list")
  | inr (l, variadic) =>
      let* close := current_is TOKEN_RPAREN in
      if negb close then parse_error "Expected ')' after parameter list"
      else
        let types := buildParamTypesFromDecls l in
        let types := match types with
                     | [t] => if negb variadic && parsedTypeIsPlainVoidParameter t then [] else types
                     | _ => types
                     end in
        ret (types, variadic, negb empty, dc_with_parameters d l variadic (negb empty))
  end.

Definition parseFunctionSuffix (mode : DeclaratorMode) (grouped : bool) (d : ParsedDeclarator) : PM ParsedDeclarator :=
  let* _ := advance in
  let* '(types, variadic, prototype, d) :=
    (if captureFunctionParams mode && negb grouped && bool_decide (dc_functionParameters d = None)
     then captured_parameters d
     else
       let* '(types, variadic, prototype) := or_error parseFunctionTypeParameterList "Invalid function parameter list" in
       let* close := current_is TOKEN_RPAREN in
       if negb close then parse_error "Expected ')' after parameter list" else ret (types, variadic, prototype, d)) in
  let* _ := advance in
  let t := parsedTypeAppendFunction (dc_type d) types variadic prototype in
  let t := if grouped && existsb is_pointer (pt_derivations t) then parsedTypeSetFunctionPointer t types else t in
  let d := dc_with_type d t in
  ret (if trackDirectFunction mode && negb grouped then dc_as_function d else d).

(** ** The declarator *)

(** [(name)]. *)
Definition declaratorGroupIsTransparentIdentifier : PM bool :=
  let* s := get in
  ret (tt_eqb (at_type 0 s) TOKEN_LPAREN && tt_eqb (at_type 1 s) TOKEN_IDENTIFIER && tt_eqb (at_type 2 s) TOKEN_RPAREN).

Definition adopt_attributes (d : ParsedDeclarator) : PM ParsedDeclarator :=
  let* attrs := attributes in ret (dc_with_type d (parsedTypeAdoptAttributes (dc_type d) attrs)).

(** Attributes and pointers, up to what they stand in front of. *)
Definition declarator_pointers (d : ParsedDeclarator) : PM (ParsedDeclarator * list PointerQualifier) :=
  let* d := adopt_attributes d in
  let* chain := parsePointerChain in
  iterate c_fuel (fun '(d, chain) =>
    let* d := adopt_attributes d in
    let* star := current_is TOKEN_ASTERISK in
    if negb star then ret (inr (d, chain))
    else let* extra := parsePointerChain in ret (inl (d, chain ++ extra))) (d, chain).

(** The name or the group; with it, whether a group counts as one. *)
Definition declarator_core (mode : DeclaratorMode) (d : ParsedDeclarator) : PM (ParsedDeclarator * bool) :=
  let* tok := current in
  match tok_type tok with
  | TOKEN_IDENTIFIER =>
      let* d := (match dc_identifier d with
                 | Some _ => ret d
                 | None =>
                     let* n := createIdentifierNode (tok_value tok) in
                     ret (dc_with_identifier d (astNodeSetProvenance tok n))
                 end) in
      let* _ := advance in
      ret (d, false)
  | TOKEN_LPAREN =>
      let* transparent := declaratorGroupIsTransparentIdentifier in
      let* _ := advance in
      let* d := c_declarator_internal mode d in
      let* _ := expect TOKEN_RPAREN "Expected ')' in declarator" in
      ret (d, negb transparent)
  | _ =>
      if requireIdentifier mode && bool_decide (dc_identifier d = None)
      then parse_error "Expected identifier in declarator" else ret (d, false)
  end.

(** The suffixes; with the declarator, whether one is an array. *)
Definition declarator_suffixes (mode : DeclaratorMode) (grouped : bool) (d : ParsedDeclarator) : PM (ParsedDeclarator * bool) :=
  iterate c_fuel (fun '(d, sawArray) =>
    let* tok := current in
    match tok_type tok with
    | TOKEN_LBRACKET =>
        let* attribute := parserLookaheadStartsAttribute in
        if (attribute : bool) then ret (inr (d, sawArray))
        else let* t := array_suffix (dc_type d) in ret (inl (dc_with_type d t, true))
    | TOKEN_LPAREN => let* d := parseFunctionSuffix mode grouped d in ret (inl (d, sawArray))
    | _ => ret (inr (d, sawArray))
    end) (d, false).

Definition parseDeclaratorInternal (mode : DeclaratorMode) (d : ParsedDeclarator) : PM ParsedDeclarator :=
  let* '(d, chain) := declarator_pointers d in
  let* '(d, grouped) := declarator_core mode d in
  let* '(d, sawArray) := declarator_suffixes mode grouped d in
  let* d := adopt_attributes d in
  let t := applyPointerChainToType (dc_type d) chain in
  let t := if grouped && sawArray then normalizeGroupedArrayPointer t else t in
  let d := dc_with_type d (parsedTypeNormalizeFunctionPointer t) in
  let d := match pt_derivations (dc_type d) with
           | TYPE_DERIVATION_FUNCTION _ :: _ => if trackDirectFunction mode then dc_as_function d else d
           | _ => d
           end in
  if requireIdentifier mode && bool_decide (dc_identifier d = None)
  then parse_error "Expected identifier in declarator" else ret d.

Definition parserParseDeclarator (base : ParsedType) (mode : DeclaratorMode) : PM ParsedDeclarator :=
  parseDeclaratorInternal mode (mkDeclarator None (parsedTypeClone base) None false false false).
End Declarators.
