(* ===== verification/ParserInitializers.v ===== *)
(** * Initializer lists and their designators (src/Parser/parser_array.c).

    An error that the code only prints to stdout is a failure without a diagnostic. *)
From S2P Require Import Prelude StateError Tokens AST ParsedTypes ParserState AstBuild ParserCalls.

(** ** Designators *)

Inductive InitializerPathStep : Type :=
  | INIT_PATH_FIELD (fieldName : string)
  | INIT_PATH_INDEX (indexExpr : ASTNode).

Definition step_init (step : InitializerPathStep) (value : ASTNode) (reset : bool) : DesignatedInit ASTNode :=
  let d := match step with
           | INIT_PATH_FIELD name => createDesignatedInit (Some name) value
           | INIT_PATH_INDEX index => createIndexedInit index value
           end in
  mkDesignatedInit (di_fieldName d) (di_indexExpr d) (di_expression d) reset.

(** A path of several steps becomes nested lists of one entry; [reset] goes to the last step. *)
Fixpoint createNestedDesignatorPath (steps : list InitializerPathStep) (value : ASTNode) (reset : bool)
    : PM (DesignatedInit ASTNode) :=
  match steps with
  | [] => fail
  | [step] => ret (step_init step value reset)
  | step :: rest =>
      let* inner := createNestedDesignatorPath rest value reset in
      let* nested := createCompoundInit [Some inner] in
      ret (step_init step nested false)
  end.

Definition is_compound_literal (n : ASTNode) : bool := match an_body n with AST_COMPOUND_LITERAL _ _ _ => true | _ => false end.

Section Initializers.
Context `{calls : ParserCalls}.

Definition parseInitializerDesignatorPath : PM (list InitializerPathStep) :=
  let* steps := iterate c_fuel (fun steps =>
    let* tok := current in
    match tok_type tok with
    | TOKEN_DOT =>
        let* _ := advance in
        let* name := current in
        if negb (tt_eqb (tok_type name) TOKEN_IDENTIFIER) then parse_error "Expected field name after '.' in initializer"
        else
          match tok_value name with
          | None => fail
          | Some field => let* _ := advance in ret (inl (steps ++ [INIT_PATH_FIELD field]))
          end
    | TOKEN_LBRACKET =>
        let* _ := advance in
        let* index := or_error parseAssignmentExpression "Invalid array index in initializer designator" in
        let* _ := expect TOKEN_RBRACKET "Expected ']' after initializer designator index" in
        ret (inl (steps ++ [INIT_PATH_INDEX index]))
    | _ => ret (inr steps)
    end) [] in
  match steps with [] => fail | _ => ret steps end.

(** ** Lists *)

(** An error, reported or not. *)
Definition reject {A} (reported : bool) (message : string) : PM A := if reported then parse_error message else fail.

Definition or_reject {A} (reported : bool) (m : PM A) (message : string) : PM A :=
  let* r := attempt m in match r with Some a => ret a | None => reject reported message end.

(** A nested list or an expression. *)
Definition initializer_value (reported : bool) (no_value : string) (type : ParsedType) : PM ASTNode :=
  let* brace := current_is TOKEN_LBRACE in
  if (brace : bool) then
    let* nested := or_reject reported (c_initializer_list type) "Failed to parse nested initializer list" in
    createCompoundInit nested
  else or_reject reported parseAssignmentExpression no_value.

(** Entries up to the closing brace. *)
Definition initializer_entries (reported : bool) (entry : PM (DesignatedInit ASTNode))
    : PM (list (option (DesignatedInit ASTNode))) :=
  let* entries := iterate c_fuel (fun entries =>
    let* tok := current in
    match tok_type tok with
    | TOKEN_RBRACE | TOKEN_EOF => ret (inr entries)
    | _ =>
        let* e := entry in
        let* tok := current in
        match tok_type tok with
        | TOKEN_COMMA => let* _ := advance in ret (inl (entries ++ [Some e]))
        | TOKEN_RBRACE => ret (inr (entries ++ [Some e]))
        | _ => reject reported "Expected ',' or '}' in struct initializer"
        end
    end) [] in
  let* close := current_is TOKEN_RBRACE in
  if (close : bool) then let* _ := advance in ret entries else reject reported "Expected closing '}' in struct initializer".

(** One entry; [designator] starts a designated one. *)
Definition initializer_entry (reported : bool) (designator : TokenType) (type : ParsedType) : PM (DesignatedInit ASTNode) :=
  let* designated := current_is designator in
  if (designated : bool) then
    let* steps := parseInitializerDesignatorPath in
    let* assign := current_is TOKEN_ASSIGN in
    if negb assign then reject reported "Expected '=' after field name in struct initializer"
    else
      let* _ := advance in
      let* value := initializer_value reported "Expected expression after '=' in struct initializer" type in
      createNestedDesignatorPath steps value (is_compound_literal value)
  else
    let* value := initializer_value reported "Invalid expression in struct initializer" type in
    ret (createSimpleInit (Some value)).

Definition braced_initializer (reported : bool) (designator : TokenType) (parentType : ParsedType)
    : PM (list (option (DesignatedInit ASTNode))) :=
  let* brace := current_is TOKEN_LBRACE in
  if negb brace then fail
  else let* _ := advance in initializer_entries reported (initializer_entry reported designator parentType).

(** Its errors go to stdout only. *)
Definition parseArrayInitializer : ParsedType -> PM (list (option (DesignatedInit ASTNode))) :=
  braced_initializer false TOKEN_LBRACKET.

Definition parseStructInitializer : ParsedType -> PM (list (option (DesignatedInit ASTNode))) :=
  braced_initializer true TOKEN_DOT.

Definition parseInitializerList (type : ParsedType) : PM (list (option (DesignatedInit ASTNode))) :=
  let* s := get in
  let brace := tt_eqb (tok_type (token_ahead 0 s)) TOKEN_LBRACE in
  let next := tok_type (token_ahead 1 s) in
  if brace && tt_eqb next TOKEN_DOT then parseStructInitializer type
  else if brace && tt_eqb next TOKEN_LBRACKET then parseArrayInitializer type
  else
    match pt_kind type with
    | TYPE_STRUCT | TYPE_UNION | TYPE_NAMED => parseStructInitializer type
    | _ => parseArrayInitializer type
    end.
End Initializers.
