(* ===== verification/ParserExpr.v ===== *)
(** * Expressions: the Pratt parser (src/Parser/Expr/parser_expr_pratt.c,
    parser_expr_pratt_type_forms.c, Parser/Helpers/parser_lookahead.c and the entries of
    Expr/parser_expr.c). *)
From S2P Require Import Prelude StateError Tokens AST ParsedTypes ParserState AstBuild ParserAttributes ParserCalls ParserTypes.
From S2P Require Import ParserDeclarators ParserInitializers.

(** ** Binding powers *)

Definition is_assignment_token (type : TokenType) : bool :=
  match type with
  | TOKEN_ASSIGN | TOKEN_PLUS_ASSIGN | TOKEN_MINUS_ASSIGN | TOKEN_MULT_ASSIGN | TOKEN_DIV_ASSIGN | TOKEN_MOD_ASSIGN
  | TOKEN_LEFT_SHIFT_ASSIGN | TOKEN_RIGHT_SHIFT_ASSIGN | TOKEN_BITWISE_AND_ASSIGN | TOKEN_BITWISE_OR_ASSIGN
  | TOKEN_BITWISE_XOR_ASSIGN => true
  | _ => false
  end.

Definition getTokenPrecedence (type : TokenType) : Z :=
  match type with
  | TOKEN_COMMA => 0
  | TOKEN_LOGICAL_OR => 1
  | TOKEN_LOGICAL_AND => 2
  | TOKEN_BITWISE_OR => 3
  | TOKEN_BITWISE_XOR => 4
  | TOKEN_BITWISE_AND => 5
  | TOKEN_EQUAL | TOKEN_NOT_EQUAL => 6
  | TOKEN_LESS | TOKEN_LESS_EQUAL | TOKEN_GREATER | TOKEN_GREATER_EQUAL => 7
  | TOKEN_LEFT_SHIFT | TOKEN_RIGHT_SHIFT => 8
  | TOKEN_PLUS | TOKEN_MINUS => 9
  | TOKEN_ASTERISK | TOKEN_DIVIDE | TOKEN_MODULO => 10
  | TOKEN_LPAREN | TOKEN_LBRACKET | TOKEN_DOT | TOKEN_ARROW => 14
  | TOKEN_INCREMENT | TOKEN_DECREMENT => 15
  | TOKEN_QUESTION => 1
  | _ => if is_assignment_token type then 1 else -1
  end.

Definition getTokenRightBindingPower (type : TokenType) : Z :=
  let p := getTokenPrecedence type in
  if is_assignment_token type || tt_eqb type TOKEN_QUESTION then p - 1 else p.

(** ** Adjacent string literals *)

(** What was seen of the encodings, and the text so far. *)
Record StringPieces := mkPieces { sawWide : bool; sawUtf8 : bool; sawEscapedNarrow : bool; sp_text : string }.

Definition add_piece (p : StringPieces) (value : option string) : StringPieces :=
  let text := default ""%string value in
  let '(enc, payload) := ast_literal_encoding (Some (list_ascii_of_string text)) in
  let escaped := bool_decide (enc = LIT_ENC_NARROW) && String.prefix "N|" text in
  mkPieces (sawWide p || bool_decide (enc = LIT_ENC_WIDE)) (sawUtf8 p || bool_decide (enc = LIT_ENC_UTF8))
    (sawEscapedNarrow p || escaped) (sp_text p +:+ string_of_list_ascii (default [] payload)).

Definition merged_text (p : StringPieces) : string :=
  if sawWide p then "W|" +:+ sp_text p
  else if sawUtf8 p then "U8|" +:+ sp_text p
  else if sawEscapedNarrow p then "N|" +:+ sp_text p
  else sp_text p.

(** ** Looking ahead *)

Inductive ParenthesizedTypeFormKind : Set :=
  | PARENTHESIZED_TYPE_FORM_NONE | PARENTHESIZED_TYPE_FORM_CAST | PARENTHESIZED_TYPE_FORM_COMPOUND_LITERAL.

#[export] Instance ParenthesizedTypeFormKind_eq_dec : EqDecision ParenthesizedTypeFormKind.
Proof. solve_decision. Defined.

(** The tokens that start a type and nothing else. *)
Definition starts_type (type : TokenType) : bool :=
  match type with
  | TOKEN_INT | TOKEN_FLOAT | TOKEN_DOUBLE | TOKEN_CHAR | TOKEN_LONG | TOKEN_SHORT | TOKEN_SIGNED | TOKEN_UNSIGNED
  | TOKEN_VOID | TOKEN_BOOL | TOKEN_STRUCT | TOKEN_UNION | TOKEN_ENUM | TOKEN_CONST | TOKEN_VOLATILE | TOKEN_RESTRICT
  | TOKEN_INLINE | TOKEN_NORETURN | TOKEN_STATIC | TOKEN_EXTERN | TOKEN_AUTO | TOKEN_REGISTER | TOKEN_THREAD_LOCAL
  | TOKEN_ATOMIC => true
  | _ => false
  end.

(** ** Nodes with their operator *)

Definition set_recovery (b : bool) (n : ASTNode) : ASTNode :=
  match an_body n with
  | AST_COMPOUND_LITERAL t entries _ => set_body (AST_COMPOUND_LITERAL t entries b) n
  | _ => n
  end.

Definition with_end (stop : SourceLocation) (n : ASTNode) : ASTNode :=
  set_location (mkSourceRange (range_start (an_location n)) stop) n.

(** A comma expression takes a further item; anything else becomes the first of two. *)
Definition comma_node (left right : ASTNode) : PM ASTNode :=
  match an_body left with
  | AST_COMMA_EXPRESSION items => store_node (set_body (AST_COMMA_EXPRESSION (items ++ [Some right])) left)
  | _ => createCommaExprNode [Some left; Some right]
  end.

Section Expressions.
Context `{calls : ParserCalls}.

(** At an opening parenthesis: behind the one that closes it, or at the end. *)
Definition consumeBalancedParens : PM unit :=
  iterate c_fuel (fun depth =>
    let* s := get in
    let depth := match at_type 0 s with TOKEN_LPAREN => depth + 1 | TOKEN_RPAREN => depth - 1 | _ => depth end in
    let* _ := advance in
    ret (if (depth =? 0) || tt_eqb (at_type 1 s) TOKEN_EOF then inr tt else inl depth)) 0.

Definition consumeAbstractDeclarator : PM unit :=
  iterate c_fuel (fun _ =>
    let* pointer := at_pointer in
    let* tok := current in
    if pointer : bool then let* _ := advance in ret (inl tt)
    else
      match tok_type tok with
      | TOKEN_LPAREN => let* _ := consumeBalancedParens in ret (inl tt)
      | TOKEN_LBRACKET =>
          let* _ := advance in
          let* _ := while c_fuel (let* t := current in
                                  ret (negb (tt_eqb (tok_type t) TOKEN_RBRACKET) && negb (tt_eqb (tok_type t) TOKEN_EOF))) advance in
          let* close := current_is TOKEN_RBRACKET in
          let* _ := (if (close : bool) then advance else ret tt) in
          ret (inl tt)
      | _ => ret (inr tt)
      end) tt.

(** Behind an opening parenthesis. *)
Definition parserProbeParenthesizedTypeForm : PM ParenthesizedTypeFormKind :=
  let* r := on_clone
    (let* looked := c_type TYPECTX_Strict in
     if is_invalid looked then ret PARENTHESIZED_TYPE_FORM_NONE
     else
       let* _ := consumeAbstractDeclarator in
       let* s := get in
       if negb (tt_eqb (at_type 0 s) TOKEN_RPAREN) then ret PARENTHESIZED_TYPE_FORM_NONE
       else if tt_eqb (at_type 1 s) TOKEN_LBRACE then ret PARENTHESIZED_TYPE_FORM_COMPOUND_LITERAL
       else if isValidExpressionStart (at_type 1 s) then ret PARENTHESIZED_TYPE_FORM_CAST
       else ret PARENTHESIZED_TYPE_FORM_NONE) in
  ret (default PARENTHESIZED_TYPE_FORM_NONE r).

Definition probe_type_declaration : PM bool :=
  let* r := on_clone
    (let* t := c_type TYPECTX_Strict in
     let* next := current_in [TOKEN_IDENTIFIER; TOKEN_LPAREN] in
     ret (negb (is_invalid t) && next)) in
  ret (default false r).

Definition looksLikeTypeDeclaration : PM bool :=
  let* s := get in
  let tok := token_ahead 0 s in
  let ident := tt_eqb (tok_type tok) TOKEN_IDENTIFIER in
  if tt_eqb (tok_type tok) TOKEN_TYPEDEF then ret false
  else if isAlignasToken tok || starts_type (tok_type tok) then ret true
  else if ident && parserIsTypedefVisible s (tok_value tok) then ret true
  else
    let* attribute := (if ident then parserLookaheadStartsAttribute else ret true) in
    if negb attribute then ret false else probe_type_declaration.

(** ** Types in parentheses *)

(** The type with its abstract declarator; without one, when that fails. *)
Definition type_with_declarator (t : ParsedType) : PM ParsedType :=
  let* d := attempt (c_declarator t abstract_mode) in
  ret (match d with Some d => parsedTypeClone (dc_type d) | None => t end).

Definition parenthesized_type (invalid unclosed : string) : PM ParsedType :=
  let* t := c_type TYPECTX_Strict in
  if is_invalid t then parse_error invalid
  else
    let* t := type_with_declarator t in
    let* _ := expect TOKEN_RPAREN unclosed in
    ret t.

(** Behind the opening parenthesis. *)
Definition parseCastExpressionPratt (castToken : Token) : PM ASTNode :=
  let* castType := parenthesized_type "Invalid type in cast expression" "Expected ')' after cast type" in
  let* target := or_error (c_expression 11) "Invalid expression after cast" in
  let* n := createCastExpressionNode castType target in
  ret (astNodeSetProvenance castToken n).

(** To the next comma or closing brace of this list. *)
Definition skip_initializer : PM unit :=
  iterate c_fuel (fun '(paren, bracket, brace) =>
    let* tok := current in
    let next (p k b : Z) := let* _ := advance in ret (inl (p, k, b)) in
    match tok_type tok with
    | TOKEN_EOF => ret (inr tt)
    | TOKEN_COMMA =>
        if (paren =? 0) && (bracket =? 0) && (brace =? 0) then let* _ := advance in ret (inr tt) else next paren bracket brace
    | TOKEN_RBRACE => if brace =? 0 then ret (inr tt) else next paren bracket (brace - 1)
    | TOKEN_LPAREN => next (paren + 1) bracket brace
    | TOKEN_RPAREN => next (Z.max 0 (paren - 1)) bracket brace
    | TOKEN_LBRACKET => next paren (bracket + 1) brace
    | TOKEN_RBRACKET => next paren (Z.max 0 (bracket - 1)) brace
    | TOKEN_LBRACE => next paren bracket (brace + 1)
    | _ => next paren bracket brace
    end) (0, 0, 0).

Definition compound_value (type : ParsedType) : PM ASTNode :=
  let* brace := current_is TOKEN_LBRACE in
  if (brace : bool) then let* nested := c_initializer_list type in createCompoundInit nested else c_expression 0.

(** One entry; none when a designator without its [=] was skipped. *)
Definition compound_entry (type : ParsedType) : PM (option (DesignatedInit ASTNode)) :=
  let* designated := current_in [TOKEN_DOT; TOKEN_LBRACKET] in
  if (designated : bool) then
    let* steps := parseInitializerDesignatorPath in
    let* assign := current_is TOKEN_ASSIGN in
    if negb assign then
      let* _ := printParseErrorAtTokenSpelling "Expected '=' after initializer designator" in
      let* _ := skip_initializer in
      ret None
    else
      let* _ := advance in
      let* value := compound_value type in
      let* di := createNestedDesignatorPath steps value (is_compound_literal value) in
      ret (Some di)
  else let* value := compound_value type in ret (Some (createSimpleInit (Some value))).

(** The entries up to the brace; with them, whether one was skipped. *)
Definition compound_entries (type : ParsedType) : PM (list (option (DesignatedInit ASTNode)) * bool) :=
  iterate c_fuel (fun '(items, recovered) =>
    let* stop := current_in [TOKEN_RBRACE; TOKEN_EOF] in
    if (stop : bool) then ret (inr (items, recovered))
    else
      let* entry := compound_entry type in
      match entry with
      | None => ret (inl (items, true))
      | Some di =>
          let* comma := current_is TOKEN_COMMA in
          let* _ := (if (comma : bool) then advance else ret tt) in
          ret (inl (items ++ [Some di], recovered))
      end) ([], false).

Definition parseCompoundLiteralPratt : PM ASTNode :=
  let* literalType := parenthesized_type "Invalid type in compound literal" "Expected ')' after compound literal type" in
  let* _ := expect TOKEN_LBRACE "Expected '{' to start compound literal initializer" in
  let* '(items, recovered) := compound_entries literalType in
  let* _ := expect TOKEN_RBRACE "Expected '}' to close compound literal initializer" in
  let* n := createCompoundLiteralNode literalType items in
  ret (set_recovery recovered n).

(** Whether a type and its declarator stand behind the parenthesis. *)
Definition probe_type_operand (closed : bool) : PM bool :=
  let* open := current_is TOKEN_LPAREN in
  if negb open then ret false
  else
    let* r := on_clone
      (let* _ := advance in
       let* t := c_type TYPECTX_Strict in
       if is_invalid t then fail
       else
         let* _ := c_declarator t abstract_mode in
         let* close := current_is TOKEN_RPAREN in
         ret (negb closed || close)) in
    ret (default false r).

(** The operand of [sizeof] and [_Alignof] as a type, behind the parenthesis. *)
Definition type_operand (invalid bad_declarator : string) : PM ParsedType :=
  let* _ := advance in
  let* t := c_type TYPECTX_Strict in
  if is_invalid t then parse_error invalid
  else let* d := or_error (c_declarator t abstract_mode) bad_declarator in ret (dc_type d).

(** An operand that is not closed is reported and kept. *)
Definition parseSizeofExpressionPratt (sizeofToken : Token) : PM ASTNode :=
  let* isType := probe_type_operand false in
  if (isType : bool) then
    let* t := type_operand "Invalid type in sizeof(type)" "Invalid abstract declarator in sizeof(type)" in
    let* tok := current in
    let* stop := (if tt_eqb (tok_type tok) TOKEN_RPAREN
                  then let* _ := advance in ret (range_end (tok_location tok))
                  else let* _ := printParseError "Expected ')' after sizeof(type)" in ret (range_start (tok_location tok))) in
    let* operand := createParsedTypeNode t in
    let* n := createSizeofNode operand in
    ret (with_end stop (astNodeSetProvenance sizeofToken n))
  else
    let* operand := or_error (c_expression 11) "Invalid operand for sizeof" in
    let* n := createSizeofNode operand in
    ret (astNodeSetProvenance sizeofToken n).

Definition parseAlignofExpressionPratt (alignofToken : Token) : PM ASTNode :=
  let* isType := probe_type_operand true in
  let* operand :=
    (if (isType : bool) then
       let* t := type_operand "Invalid type in alignof(type)" "Invalid abstract declarator in alignof(type)" in
       let* _ := expect TOKEN_RPAREN "Expected ')' after alignof(type)" in
       createParsedTypeNode t
     else or_error (c_expression 11) "Invalid operand for alignof") in
  let* n := createAlignofNode operand in
  ret (astNodeSetProvenance alignofToken n).

(** ** Calls *)

(** Behind the opening parenthesis. *)
Definition ledFunctionCall (callee : ASTNode) : PM ASTNode :=
  let* empty := current_is TOKEN_RPAREN in
  let* args :=
    (if (empty : bool) then ret []
     else iterate c_fuel (fun args =>
       let* arg := c_expression 0 in
       let* comma := current_is TOKEN_COMMA in
       if (comma : bool) then let* _ := advance in ret (inl (args ++ [Some arg])) else ret (inr (args ++ [Some arg]))) []) in
  let* _ := expect TOKEN_RPAREN "Expected ')' to close function call" in
  createFunctionCallNode callee args.

(** [a.b.c]: the second argument of [__builtin_offsetof]. *)
Definition offsetof_path : PM ASTNode :=
  let* tok := current in
  if negb (tt_eqb (tok_type tok) TOKEN_IDENTIFIER) then parse_error "Expected field name in __builtin_offsetof"
  else
    let* first := lift (tok_value tok) in
    let* _ := advance in
    let* path := iterate c_fuel (fun path =>
      let* dot := current_is TOKEN_DOT in
      if negb dot then ret (inr path)
      else
        let* _ := advance in
        let* tok := current in
        if negb (tt_eqb (tok_type tok) TOKEN_IDENTIFIER) then parse_error "Expected field name after '.' in __builtin_offsetof"
        else
          let* segment := lift (tok_value tok) in
          let* _ := advance in
          ret (inl (path +:+ "." +:+ segment))) first in
    createIdentifierNode (Some path).

Definition type_argument : PM ASTNode := let* t := parseType in createParsedTypeNode t.

Definition call_argument (isOffsetof isVaArg : bool) (index : nat) : PM ASTNode :=
  let* type :=
    (if isOffsetof && bool_decide (index = 0%nat) || negb isOffsetof && isVaArg && bool_decide (index = 1%nat)
     then looksLikeTypeDeclaration else ret false) in
  if (type : bool) then type_argument
  else if isOffsetof && bool_decide (index = 1%nat) then offsetof_path
  else c_expression 0.

(** At the parenthesis behind the name of the callee. *)
Definition parseFunctionCallPratt (callee : ASTNode) : PM ASTNode :=
  let* _ := expect TOKEN_LPAREN "Expected '(' to start function call" in
  let name := match an_body callee with AST_IDENTIFIER (Some n) => n | _ => ""%string end in
  let isVaArg := bool_decide (name ∈ ["__builtin_va_arg"; "va_arg"]%string) in
  let isOffsetof := bool_decide (name ∈ ["__builtin_offsetof"; "offsetof"]%string) in
  let* empty := current_is TOKEN_RPAREN in
  let* args :=
    (if (empty : bool) then ret []
     else iterate c_fuel (fun args =>
       let* arg := call_argument isOffsetof isVaArg (length args) in
       let next := args ++ [Some arg] in
       let* comma := current_is TOKEN_COMMA in
       if negb comma then ret (inr next)
       else
         let* _ := advance in
         let* close := current_is TOKEN_RPAREN in
         ret (if (close : bool) then inr next else inl next)) []) in
  let* _ := expect TOKEN_RPAREN "Expected ')' to close function call" in
  createFunctionCallNode callee args.

(** ** The Pratt loop *)

Definition string_literal (tok : Token) : PM ASTNode :=
  let* pieces := iterate c_fuel (fun p =>
    let* next := current in
    if tt_eqb (tok_type next) TOKEN_STRING then let* _ := advance in ret (inl (add_piece p (tok_value next)))
    else ret (inr p)) (add_piece (mkPieces false false false "") (tok_value tok)) in
  let* n := createStringLiteralNode (Some (merged_text pieces)) in
  ret (astNodeSetProvenance tok n).

Definition parseGNUStatementExpression : PM ASTNode :=
  let* brace := current_is TOKEN_LBRACE in
  if negb brace then parse_error "Expected '{' to start statement expression"
  else let* block := c_block in createStatementExpressionNode block.

(** Behind an opening parenthesis that is no cast and no compound literal. *)
Definition group : PM ASTNode :=
  let* s := get in
  if tt_eqb (at_type 0 s) TOKEN_LBRACE then
    if negb (p_enableStatementExpressions (ps_parser s))
    then parse_error "GNU statement expressions are disabled (set ENABLE_GNU_STATEMENT_EXPRESSIONS=1)"
    else
      let* e := parseGNUStatementExpression in
      let* _ := expect TOKEN_RPAREN "Expected ')' after statement expression" in
      ret e
  else
    let* e := attempt (c_expression (-1)) in
    let* _ := expect TOKEN_RPAREN "Expected ')' in grouping" in
    match e with Some e => ret e | None => fail end.

Definition prefix_expression (tok : Token) : PM ASTNode :=
  let* right := attempt (c_expression 11) in
  let* n := createUnaryExprNode (getOperatorString (tok_type tok)) right false in
  ret (astNodeSetProvenance tok n).

(** What starts with a token; it is consumed. *)
Definition nud (tok : Token) : PM ASTNode :=
  match tok_type tok with
  | TOKEN_NUMBER | TOKEN_FLOAT_LITERAL =>
      let* n := createNumberLiteralNode (tok_value tok) in ret (astNodeSetProvenance tok n)
  | TOKEN_CHAR_LITERAL => let* n := createCharLiteralNode (tok_value tok) in ret (astNodeSetProvenance tok n)
  | TOKEN_STRING => string_literal tok
  | TOKEN_IDENTIFIER =>
      if value_is tok "__extension__" then c_expression 11
      else
        let* n := createIdentifierNode (tok_value tok) in
        let ident := astNodeSetProvenance tok n in
        let* paren := current_is TOKEN_LPAREN in
        if (paren : bool) then parseFunctionCallPratt ident else ret ident
  | TOKEN_MINUS | TOKEN_PLUS | TOKEN_LOGICAL_NOT | TOKEN_BITWISE_NOT | TOKEN_INCREMENT | TOKEN_DECREMENT | TOKEN_ASTERISK
  | TOKEN_BITWISE_AND => prefix_expression tok
  | TOKEN_LPAREN =>
      let* form := parserProbeParenthesizedTypeForm in
      match form with
      | PARENTHESIZED_TYPE_FORM_COMPOUND_LITERAL => parseCompoundLiteralPratt
      | PARENTHESIZED_TYPE_FORM_CAST => parseCastExpressionPratt tok
      | PARENTHESIZED_TYPE_FORM_NONE => group
      end
  | TOKEN_SIZEOF => parseSizeofExpressionPratt tok
  | TOKEN_ALIGNOF => parseAlignofExpressionPratt tok
  | _ => parse_error "Unexpected token at start of expression"
  end.

Definition is_binary_token (type : TokenType) : bool :=
  match type with
  | TOKEN_PLUS | TOKEN_MINUS | TOKEN_ASTERISK | TOKEN_DIVIDE | TOKEN_MODULO | TOKEN_EQUAL | TOKEN_NOT_EQUAL | TOKEN_LESS
  | TOKEN_LESS_EQUAL | TOKEN_GREATER | TOKEN_GREATER_EQUAL | TOKEN_LOGICAL_AND | TOKEN_LOGICAL_OR | TOKEN_BITWISE_AND
  | TOKEN_BITWISE_OR | TOKEN_BITWISE_XOR | TOKEN_LEFT_SHIFT | TOKEN_RIGHT_SHIFT => true
  | _ => false
  end.

Definition subscript (left : ASTNode) : PM ASTNode :=
  let* index := attempt (c_expression 0) in
  let* close := current_is TOKEN_RBRACKET in
  match index with
  | Some i => if (close : bool) then let* _ := advance in createArrayAccessNode left i
              else parse_error "Expected ']' after subscript expression"
  | None => parse_error "Expected ']' after subscript expression"
  end.

Definition member (op : TokenType) (left : ASTNode) : PM ASTNode :=
  let* field := current in
  if negb (tt_eqb (tok_type field) TOKEN_IDENTIFIER) then parse_error "Expected identifier after member access"
  else let* _ := advance in createMemberAccessNode op left (tok_value field).

Definition ternary (left : ASTNode) : PM ASTNode :=
  let* thenExpr := c_expression (-1) in
  let* _ := expect TOKEN_COLON "Expected ':' in ternary expression" in
  let* elseExpr := c_expression (getTokenRightBindingPower TOKEN_QUESTION) in
  createTernaryExprNode left thenExpr elseExpr.

(** What an operator makes of what stands on its left; it is consumed. *)
Definition led (left : ASTNode) (tok : Token) : PM ASTNode :=
  let type := tok_type tok in
  if is_binary_token type then
    let* right := attempt (c_expression (getTokenRightBindingPower type)) in
    createBinaryExprNode (getOperatorString type) left right
  else if is_assignment_token type then
    let* right := attempt (c_expression (getTokenRightBindingPower type)) in
    createAssignmentNode left right type
  else
    match type with
    | TOKEN_INCREMENT | TOKEN_DECREMENT => createUnaryExprNode (getOperatorString type) (Some left) true
    | TOKEN_LPAREN => ledFunctionCall left
    | TOKEN_LBRACKET => subscript left
    | TOKEN_DOT | TOKEN_ARROW => member type left
    | TOKEN_QUESTION => ternary left
    | TOKEN_COMMA =>
        let* right := or_error (c_expression (getTokenRightBindingPower type)) "Invalid expression after ','" in
        comma_node left right
    | _ => parse_error "Unexpected token in expression"
    end.

(** The operators that bind tighter than [minPrecedence]. *)
Definition led_loop (minPrecedence : Z) (left : ASTNode) : PM ASTNode :=
  iterate c_fuel (fun left =>
    let* op := current in
    if getTokenPrecedence (tok_type op) <=? minPrecedence then ret (inr left)
    else
      let* _ := advance in
      let* left := led left op in
      ret (inl left)) left.

Definition parseExpressionPratt (minPrecedence : Z) : PM ASTNode :=
  let* tok := current in
  if negb (isValidExpressionStart (tok_type tok)) then parse_error "Unexpected token at start of expression"
  else
    let* _ := advance in
    let* left := nud tok in
    led_loop minPrecedence left.

(** An expression as a statement; a comma expression becomes a block of its items. *)
Definition handleExpressionOrAssignment : PM ASTNode :=
  let* e := c_expression (-1) in
  let* _ := expect_silently TOKEN_SEMICOLON in
  match an_body e with
  | AST_COMMA_EXPRESSION items => createBlockNode items
  | _ => ret e
  end.
End Expressions.
