(* ===== verification/ParserFunc.v ===== *)
(** * Functions and their parameters (src/Parser/parser_func.c; its [parseFunctionCall] is not
    the Pratt parser's). *)
From S2P Require Import Prelude StateError Tokens AST ParsedTypes Semantic UnitsTables ParserState AstBuild ParserAttributes ParserCalls ParserTypes.
From S2P Require Import ParserDeclarators.

(** A declaration of one name, and its type's attributes. *)
Definition single_declaration (name : option ASTNode) (type : ParsedType) (width : option NodeId) : PM ASTNode :=
  let* n := createVariableDeclarationNode type (Some [type]) [name] [None] width in
  ret (astNodeCloneTypeAttributes type n).

(** ** Old-style parameters *)

Record KNRParam := mkKNRParam { knr_name : ASTNode; knr_type : ParsedType; knr_declared : bool }.

Definition makeImplicitIntType : ParsedType :=
  pt_set_specifiers (mkModifiers true false false false false false) no_qualifier no_storage
    (pt_set_base TYPE_PRIMITIVE TAG_NONE None TOKEN_INT invalid_parsed_type).

Definition findKNRParam (l : list KNRParam) (name : string) : option nat :=
  option_map fst (list_find (fun p => node_value (knr_name p) = Some name) l).

Section Functions.
Context `{calls : ParserCalls}.

(** [currentListIsKNR] asks the same of the tokens. *)
Definition currentListIsKNR : PM bool := looksLikeIdentifierParamList.

Definition parseKNRIdentifierList : PM (list KNRParam) :=
  let* l := iterate c_fuel (fun l =>
    let* tok := current in
    match tok_type tok with
    | TOKEN_RPAREN | TOKEN_EOF => ret (inr l)
    | TOKEN_IDENTIFIER =>
        let* n := createIdentifierNode (tok_value tok) in
        let* _ := advance in
        let next := l ++ [mkKNRParam (astNodeSetProvenance tok n) makeImplicitIntType false] in
        let* comma := current_is TOKEN_COMMA in
        if (comma : bool) then let* _ := advance in ret (inl next) else ret (inr next)
    | _ => parse_error "Expected identifier in old-style parameter list"
    end) [] in
  let* close := current_is TOKEN_RPAREN in
  if (close : bool) then ret l else parse_error "Expected ')' to close parameter list".

(** One declarator gives its parameter a type. *)
Definition declare_knr (base : ParsedType) (l : list KNRParam) : PM (list KNRParam) :=
  let* d := or_error (c_declarator base variable_mode) "Invalid parameter declarator" in
  match dc_identifier d with
  | None => parse_error "Parameter name required"
  | Some n =>
      match node_value n with
      | None => parse_error "Parameter name required"
      | Some name =>
          match findKNRParam l name with
          | None => parse_error "Declaration does not match an old-style parameter"
          | Some i =>
              if match l !! i with Some p => knr_declared p | None => false end
              then parse_error "Duplicate declaration for parameter"
              else ret (<[i := mkKNRParam n (dc_type d) true]> l)
          end
      end
  end.

Definition parseOldStyleParamDeclarations (l : list KNRParam) : PM (list KNRParam) :=
  iterate c_fuel (fun l =>
    let* stop := current_in [TOKEN_LBRACE; TOKEN_EOF] in
    if (stop : bool) then ret (inr l)
    else
      let* base := parseType in
      if is_invalid base then fail
      else
        let* l := iterate c_fuel (fun l =>
          let* l := declare_knr base l in
          let* comma := current_is TOKEN_COMMA in
          if (comma : bool) then let* _ := advance in ret (inl l) else ret (inr l)) l in
        let* _ := expect TOKEN_SEMICOLON "Expected ';' after parameter declaration" in
        ret (inl l)) l.

Definition buildKNRParamDecls (l : list KNRParam) : PM (list (option ASTNode)) :=
  for_each (fun decls p =>
    let type := if knr_declared p then knr_type p else makeImplicitIntType in
    let* n := single_declaration (Some (knr_name p)) type None in
    ret (decls ++ [Some n])) [] l.

(** ** Parameters *)

Definition note_declaration (n : ASTNode) : PM unit := in_extension (fisics_extension_note_declaration n).

(** One parameter; [unnamed] counts those without a name. *)
Definition parameter (unnamed : Z) : PM (ASTNode * Z) :=
  let* leading := attributes in
  let* base := parseType in
  let* d := or_error (c_declarator (parsedTypeAdoptAttributes base leading) abstract_mode) "Invalid parameter declarator" in
  let* trailing := attributes in
  let* type := adjust_array_parameter (parsedTypeAdoptAttributes (dc_type d) trailing) in
  let* _ := record_name (dc_identifier d) in
  let* name := (match dc_identifier d with
                | Some n => ret n
                | None => createIdentifierNode (Some ("__unnamed_param" +:+ string_of_list_ascii (decimal_digits 20 unnamed)))
                end) in
  let* n := single_declaration (Some name) type None in
  let* _ := note_declaration n in
  ret (n, match dc_identifier d with Some _ => unnamed | None => unnamed + 1 end).

(** Up to the closing parenthesis; with the parameters, whether there is an ellipsis, and
    whether there was no error. *)
Definition parameters : PM (list (option ASTNode) * bool * bool) :=
  iterate c_fuel (fun '(l, unnamed) =>
    let* tok := current in
    match tok_type tok with
    | TOKEN_RPAREN | TOKEN_EOF => ret (inr (l, false, true))
    | TOKEN_ELLIPSIS => let* _ := advance in ret (inr (l, true, true))
    | _ =>
        let* p := attempt (parameter unnamed) in
        match p with
        | None => ret (inr (l, false, false))
        | Some (n, unnamed) =>
            let l := l ++ [Some n] in
            let* tok := current in
            match tok_type tok with
            | TOKEN_COMMA =>
                let* _ := advance in
                let* close := current_is TOKEN_RPAREN in
                if (close : bool) then let* _ := printParseError "Expected identifier" in ret (inr (l, false, true))
                else ret (inl (l, unnamed))
            | TOKEN_RPAREN | TOKEN_ELLIPSIS => ret (inl (l, unnamed))
            | _ => let* _ := printParseError "Expected ',' or ')' in parameter list" in ret (inr (l, false, false))
            end
        end
    end) ([], 0).

Definition parseParameterList : PM (nat + list (option ASTNode) * bool) :=
  in_scope
    (let* '(l, variadic, ok) := parameters in
     let null := inl (length l) in
     if negb ok then ret null
     else
       let* close := current_is TOKEN_RPAREN in
       if negb close then let* _ := printParseError "Expected ')' to close parameter list" in ret null
       else if variadic && bool_decide (l = []) then
         let* _ := printParseError "Variadic parameter list requires at least one named parameter" in ret null
       else ret (inr (l, variadic))).

(** ** Definitions *)

(** The names of the parameters, for the time of the body. *)
Definition record_parameters (l : list (option ASTNode)) : PM unit :=
  for_each (fun _ p =>
    match p with
    | Some n =>
        match an_body n with
        | AST_VARIABLE_DECLARATION d => for_each (fun _ name => record_name name) tt (vd_varNames d)
        | _ => ret tt
        end
    | None => ret tt
    end) tt l.

Definition parse_body (l : list (option ASTNode)) : PM ASTNode :=
  in_scope (let* _ := record_parameters l in c_block).

(** Behind the declarator and its attributes: a prototype or a body. *)
Definition function_tail (returnType : ParsedType) (name : ASTNode) (l : list (option ASTNode)) (variadic prototype : bool)
    (attrs : list ASTAttribute) : PM ASTNode :=
  let noted (n : ASTNode) :=
    let n := astNodeAppendAttributes attrs (astNodeCloneTypeAttributes returnType n) in
    let* _ := note_declaration n in ret n in
  let* tok := current in
  match tok_type tok with
  | TOKEN_SEMICOLON =>
      let* _ := advance in
      let* n := createFunctionDeclarationNode returnType name l variadic prototype in
      noted n
  | TOKEN_LBRACE =>
      let* body := parse_body l in
      let* n := createFunctionDefinitionNode returnType name l body variadic prototype in
      noted n
  | _ => parse_error "Expected ';' or '{' after function declaration"
  end.

Definition definition_mode (capture : bool) : DeclaratorMode := mkMode true true capture.

(** A declarator that starts with a parenthesis. *)
Definition grouped_function (returnType : ParsedType) : PM ASTNode :=
  let* d := or_error (c_declarator returnType (definition_mode true)) "Invalid function declarator" in
  match dc_declaresFunction d, dc_identifier d with
  | true, Some name =>
      let* attrs := attributes in
      function_tail (parsedTypeDeclaredFunctionReturnType (dc_type d)) name (default [] (dc_functionParameters d))
        (dc_functionIsVariadic d) (dc_functionHasPrototype d) attrs
  | _, _ => parse_error "Expected function declarator"
  end.

(** A declarator that is none of the simple ones is skipped, and gives nothing. *)
Definition skip_declarator (returnType : ParsedType) : PM unit :=
  let* stop := on_clone
    (let* _ := c_declarator (parsedTypeClone returnType) (definition_mode false) in
     let* p := the_parser in ret (p_cursor p)) in
  match stop with
  | Some i => update_parser (fun p => set_cursor (Nat.max (p_cursor p) i) p)
  | None =>
      let* _ := while c_fuel (let* stop := current_in [TOKEN_SEMICOLON; TOKEN_LBRACE; TOKEN_EOF] in ret (negb stop)) advance in
      let* here := current_in [TOKEN_SEMICOLON; TOKEN_LBRACE] in
      if (here : bool) then advance else ret tt
  end.

Definition function_name (returnType : ParsedType) : PM ASTNode :=
  let named (tok : Token) := let* n := createIdentifierNode (tok_value tok) in ret (astNodeSetProvenance tok n) in
  let* tok := current in
  let* transparent := declaratorGroupIsTransparentIdentifier in
  if (transparent : bool) then
    let* _ := advance in
    let* name := current in
    let* n := named name in
    let* _ := advance in
    let* _ := advance in
    ret n
  else if negb (tt_eqb (tok_type tok) TOKEN_IDENTIFIER) then let* _ := skip_declarator returnType in fail
  else
    let* n := named tok in
    let* _ := advance in
    ret n.

(** The list between the parentheses: old-style names, or parameters. *)
Definition function_parameters : PM (list KNRParam + list (option ASTNode) * bool) :=
  let* empty := current_is TOKEN_RPAREN in
  if (empty : bool) then ret (inr ([], false))
  else
    let* knr := currentListIsKNR in
    if (knr : bool) then let* l := parseKNRIdentifierList in ret (inl l)
    else
      let* r := c_parameter_list in
      match r with inl _ => fail | inr l => ret (inr l) end.

Definition old_style_parameters (l : list KNRParam) : PM (list (option ASTNode)) :=
  let* l := parseOldStyleParamDeclarations l in
  let* brace := current_is TOKEN_LBRACE in
  if negb brace then parse_error "Expected function body after old-style parameter declarations"
  else buildKNRParamDecls l.

Definition plain_function (returnType : ParsedType) : PM ASTNode :=
  let* chain := parsePointerChain in
  let type := applyPointerChainToType (parsedTypeClone returnType) chain in
  let* name := function_name returnType in
  let* _ := expect_silently TOKEN_LPAREN in
  let* empty := current_is TOKEN_RPAREN in
  let* l := function_parameters in
  let* _ := expect_silently TOKEN_RPAREN in
  let* attrs := attributes in
  match l with
  | inl knr => let* l := old_style_parameters knr in function_tail type name l false false attrs
  | inr (l, variadic) => function_tail type name l variadic (negb empty) attrs
  end.

Definition parseFunctionDefinition (returnType : ParsedType) : PM ASTNode :=
  let* paren := current_is TOKEN_LPAREN in
  if (paren : bool) then grouped_function returnType else plain_function returnType.
End Functions.
