(* ===== verification/ParserDecl.v ===== *)
(** * Declarations (src/Parser/parser_decl.c, parser_decl_typedef.c). *)
From S2P Require Import Prelude StateError Tokens AST ParsedTypes Semantic UnitsTables ParserState AstBuild ParserAttributes ParserCalls ParserTypes.
From S2P Require Import ParserDeclarators ParserInitializers ParserExpr ParserFunc.

(** The declared names so far, with their initializers, types and trailing attributes. *)
Record Declared := mkDeclared {
  de_names : list (option ASTNode);
  de_initializers : list (option (DesignatedInit ASTNode));
  de_types : list ParsedType;
  de_attributes : list ASTAttribute
}.

Definition nothing_declared : Declared := mkDeclared [] [] [] [].

Definition declare (l : Declared) (name : option ASTNode) (init : option (DesignatedInit ASTNode)) (type : ParsedType)
    (attrs : list ASTAttribute) : Declared :=
  mkDeclared (de_names l ++ [name]) (de_initializers l ++ [init]) (de_types l ++ [type]) (de_attributes l ++ attrs).

(** The previous token, once there is one. *)
Definition previous_token (s : PState) : option Token :=
  match p_cursor (ps_parser s) with
  | O => None
  | S i => Some (token_buffer_peek (p_tokenBuffer (ps_parser s)) i)
  end.

(** A tag or a typedef that has a name. *)
Definition record_tag (kind : CCTagKind) (name : string) : PM unit :=
  if String.eqb name "" then ret tt else add_tag kind name.
Definition record_typedef (name : option string) : PM unit :=
  match name with Some n => if String.eqb n "" then ret tt else cc_add_typedef n | None => ret tt end.

(** An array without a size: the last dimension of a type of arrays only. *)
Definition flexible_index (t : ParsedType) : option nat :=
  let i := (length (pt_derivations t) - 1)%nat in
  match parsedTypeGetArrayDerivation t i with
  | Some a => if negb (isVLA a) && negb (hasConstantSize a) && bool_decide (sizeExpr a = None) then Some i else None
  | None => None
  end.

Definition make_flexible (a : ParsedArrayInfo) : ParsedArrayInfo :=
  mkArrayInfo (sizeExpr a) (isVLA a) (hasConstantSize a) (constantSize a) true (hasStatic a) (arrayQualifiers a).

Section Declarations.
Context `{calls : ParserCalls}.

(** ** Variables *)

(** A list in braces, or an expression; one that is wrong is reported and left out. *)
Definition variable_initializer (type : ParsedType) : PM (option (DesignatedInit ASTNode)) :=
  let* brace := current_is TOKEN_LBRACE in
  if (brace : bool) then
    let* entries := c_initializer_list type in
    let* compound := createCompoundInit entries in
    ret (Some (createSimpleInit (Some compound)))
  else
    let* e := attempt parseAssignmentExpression in
    match e with
    | Some e => ret (Some (createSimpleInit (Some e)))
    | None => let* _ := printParseError "Invalid initializer in variable declaration" in ret None
    end.

Definition declarators (one : Declared -> PM Declared) : PM Declared :=
  iterate c_fuel (fun l =>
    let* l := one l in
    let* comma := current_is TOKEN_COMMA in
    if (comma : bool) then let* _ := advance in ret (inl l) else ret (inr l)) nothing_declared.

Definition declared_variable (type : ParsedType) (l : Declared) : PM Declared :=
  let* d := or_error (c_declarator type variable_mode) "invalid declarator" in
  let* assign := current_is TOKEN_ASSIGN in
  let* init := (if (assign : bool) then let* _ := advance in variable_initializer (dc_type d) else ret None) in
  let* attrs := attributes in
  ret (declare l (dc_identifier d) init (parsedTypeAdoptAttributes (dc_type d) attrs) attrs).

(** The node of the declaration; its names hide typedefs from here on. *)
Definition declaration_node (type : ParsedType) (l : Declared) : PM ASTNode :=
  let* n := createVariableDeclarationNode type (Some (de_types l)) (de_names l) (de_initializers l) None in
  let n := astNodeAppendAttributes (de_attributes l) (astNodeCloneTypeAttributes type n) in
  let* _ := note_declaration n in
  let* _ := for_each (fun _ name => record_name name) tt (de_names l) in
  ret n.

Definition expect_declaration_end : PM unit :=
  let* tok := current in
  if tt_eqb (tok_type tok) TOKEN_SEMICOLON then advance
  else
    let* _ := compiler_report_diag (tok_location tok) CDIAG_PARSER_EXPECT_SEMICOLON (Some "did you forget a ';'?")
                "expected ';' after declaration" in
    fail.

Definition parseVariableDeclaration (type : ParsedType) : PM ASTNode :=
  let* l := declarators (declared_variable type) in
  let* _ := expect_declaration_end in
  declaration_node type l.

Definition for_loop_variable (type : ParsedType) (l : Declared) : PM Declared :=
  let* d := or_error (c_declarator type variable_mode) "invalid declarator in for-loop" in
  let* assign := current_is TOKEN_ASSIGN in
  let* init := (if (assign : bool) then let* _ := advance in let* e := parseAssignmentExpression in ret (Some e) else ret None) in
  ret (declare l (dc_identifier d) (Some (createSimpleInit init)) (dc_type d) []).

Definition parseDeclarationForLoop : PM ASTNode :=
  let* type := parseType in
  if is_invalid type then fail
  else
    let* l := declarators (for_loop_variable type) in
    declaration_node type l.

(** ** Typedefs *)

(** Where the declarator fails on the semicolon behind a name, the name is the alias. *)
Definition typedef_fallback (base : ParsedType) (first : bool) : PM ASTNode :=
  let* s := get in
  match previous_token s with
  | Some prev =>
      if first && tt_eqb (at_type 0 s) TOKEN_SEMICOLON && tt_eqb (tok_type prev) TOKEN_IDENTIFIER then
        let* alias := createIdentifierNode (tok_value prev) in
        let* _ := advance in
        let* _ := record_typedef (tok_value prev) in
        createTypedefNode base (Some (astNodeSetProvenance prev alias))
      else parse_error "Invalid typedef declarator"
  | None => parse_error "Invalid typedef declarator"
  end.

(** The typedefs of one declaration, or the only one that the fallback gave. *)
Definition typedef_declarators (base : ParsedType) : PM (list ASTNode + ASTNode) :=
  iterate c_fuel (fun l =>
    let* d := attempt (c_declarator (parsedTypeClone base) variable_mode) in
    match d with
    | None => let* n := typedef_fallback base (bool_decide (l = [])) in ret (inr (inr n))
    | Some d =>
        let* n := createTypedefNode (dc_type d) (dc_identifier d) in
        let* comma := current_is TOKEN_COMMA in
        if (comma : bool) then let* _ := advance in ret (inl (l ++ [n])) else ret (inr (inl (l ++ [n])))
    end) [].

(** The alias becomes a typedef; the attributes of the type and of the declaration go to the node. *)
Definition finish_typedef (attrs : list ASTAttribute) (n : ASTNode) : PM ASTNode :=
  match an_body n with
  | AST_TYPEDEF base alias =>
      let* _ := record_typedef (match alias with Some a => node_value a | None => None end) in
      ret (astNodeAppendAttributes attrs (astNodeCloneTypeAttributes base n))
  | _ => ret n
  end.

Definition parseTypedef : PM ASTNode :=
  let* _ := expect TOKEN_TYPEDEF "Expected 'typedef'" in
  let* base := parseType in
  let* l := typedef_declarators base in
  match l with
  | inr n => ret n
  | inl l =>
      let* attrs := attributes in
      let* _ := expect TOKEN_SEMICOLON "Expected ';' after typedef" in
      let* l := for_each (fun done n => let* n := finish_typedef attrs n in ret (done ++ [n])) [] l in
      match l with
      | [n] => ret n
      | _ => createProgramNode (map Some l)
      end
  end.

(** ** Fields *)

(** The fields so far, whether one is flexible, and whether the list goes on. *)
Definition Fields : Type := list (option ASTNode) * bool.

Definition field_width : PM (option ASTNode) :=
  let* colon := current_is TOKEN_COLON in
  if (colon : bool) then let* _ := advance in attempt parseAssignmentExpression else ret None.

(** One field; its attributes go to its type. *)
Definition field (type : ParsedType) (l : Fields) : PM Fields :=
  let* d := or_error (c_declarator type abstract_mode) "Invalid field declarator" in
  let* width := field_width in
  if bool_decide (dc_identifier d = None) && bool_decide (width = None)
  then parse_error "Expected identifier for struct/union field (unnamed only allowed for bitfields)"
  else
    let* attrs := attributes in
    let t := parsedTypeAdoptAttributes (dc_type d) attrs in
    let flexible := flexible_index t in
    let t := match flexible with Some i => with_array t i make_flexible | None => t end in
    let* id := keep_opt width in
    let* n := single_declaration (dc_identifier d) t id in
    let* _ := note_declaration n in
    ret (l.1 ++ [Some n], l.2 || match flexible with Some _ => true | None => false end).

(** The fields of one type: the semicolon behind them, or an error ([false]). *)
Definition field_declarators (type : ParsedType) (l : Fields) : PM (Fields * bool) :=
  iterate c_fuel (fun l =>
    let* next := attempt (field type l) in
    match next with
    | None => ret (inr (l, false))
    | Some l =>
        let* tok := current in
        match tok_type tok with
        | TOKEN_COMMA => let* _ := advance in ret (inl l)
        | TOKEN_SEMICOLON => let* _ := advance in ret (inr (l, true))
        | _ => let* _ := printParseError "Expected ';' after struct/union field" in ret (inr (l, false))
        end
    end) l.

(** Up to the closing brace, or to an error. *)
Definition parseStructOrUnionFields : PM Fields :=
  iterate c_fuel (fun l =>
    let* stop := current_in [TOKEN_RBRACE; TOKEN_EOF] in
    if (stop : bool) then ret (inr l)
    else
      let* type := parseType in
      if is_invalid type then let* _ := printParseError "Invalid type in field declaration" in ret (inr l)
      else
        let* semicolon := current_is TOKEN_SEMICOLON in
        match pt_inlineStructOrUnionDef type with
        | Some _ =>
            if (semicolon : bool) then
              let* _ := advance in
              let* n := single_declaration None type None in
              ret (inl (l.1 ++ [Some n], l.2))
            else let* '(l, more) := field_declarators type l in ret (if (more : bool) then inl l else inr l)
        | None => let* '(l, more) := field_declarators type l in ret (if (more : bool) then inl l else inr l)
        end) ([], false).

(** ** Definitions of structures, unions and enumerations at file scope *)

(** The name behind the keyword, with its token; the tag is recorded. *)
Definition definition_tag (kind : CCTagKind) : PM (option (string * Token)) :=
  let* tok := current in
  if tt_eqb (tok_type tok) TOKEN_IDENTIFIER then
    let* name := lift (tok_value tok) in
    let* _ := record_tag kind name in
    let* _ := advance in
    ret (Some (name, tok))
  else ret None.

(** The identifier of the definition: its line, or the place of its token. *)
Definition place_tag (tag : option (string * Token)) (line : Z) (n : ASTNode) : ASTNode :=
  let n := set_line line n in match tag with Some (_, tok) => astNodeSetProvenance tok n | None => n end.

(** The name behind the closing brace of a structure: the alias of a typedef, or the missing tag. *)
Definition trailing_name (precededByTypedef : bool) (name : option string) : PM (option string * option Token) :=
  let* tok := current in
  if negb (tt_eqb (tok_type tok) TOKEN_IDENTIFIER) then ret (name, None)
  else if precededByTypedef then let* _ := advance in ret (name, Some tok)
  else
    match name with
    | Some _ => ret (name, None)
    | None => let* n := lift (tok_value tok) in let* _ := advance in ret (Some n, None)
    end.

(** The definition, with the token of its alias. *)
Definition record_definition (isStruct precededByTypedef : bool) (no_brace no_close no_end : string)
    : PM (ASTNode * option string * option Token) :=
  let* _ := advance in
  let* leading := attributes in
  let* tag := definition_tag (if isStruct then CC_TAG_STRUCT else CC_TAG_UNION) in
  let* _ := expect TOKEN_LBRACE no_brace in
  let* '(fields, flexible) := c_fields in
  let* _ := expect TOKEN_RBRACE no_close in
  let* trailing := attributes in
  let* '(name, alias) := (if isStruct then trailing_name precededByTypedef (option_map fst tag)
                          else ret (option_map fst tag, None)) in
  let* _ := expect TOKEN_SEMICOLON no_end in
  let line := match tag with Some (_, tok) => tok_line tok | None => 0 end in
  let* ident := createIdentifierNode name in
  let* n := createStructOrUnionDefinitionNode isStruct (place_tag tag line ident) fields flexible in
  ret (astNodeAppendAttributes (leading ++ trailing) (set_line line n), name, alias).

Definition parseStructDefinition : PM ASTNode :=
  let* here := current_is TOKEN_STRUCT in
  if negb here then parse_error "Expected 'struct'"
  else
    let* s := get in
    let precededByTypedef := match previous_token s with Some t => tt_eqb (tok_type t) TOKEN_TYPEDEF | None => false end in
    let* '(def, name, alias) := record_definition true precededByTypedef "Expected '{' after struct name"
      "Expected '}' to close struct body" "Expected ';' after struct definition" in
    match alias with
    | None => ret def
    | Some tok =>
        let* id := keep_node def in
        let base := pt_set_definitions (Some id) None (pt_set_base TYPE_STRUCT TAG_STRUCT name TOKEN_INT invalid_parsed_type) in
        let* ident := createIdentifierNode (tok_value tok) in
        let* _ := record_typedef (tok_value tok) in
        createTypedefNode base (Some (set_line (tok_line tok) ident))
    end.

Definition parseUnionDefinition : PM ASTNode :=
  let* here := current_is TOKEN_UNION in
  if negb here then parse_error "Expected 'union'"
  else
    let* '(def, _, _) := record_definition false false "Expected '{' after union name"
      "Expected '}' at end of union definition" "Expected ';' after union definition" in
    ret def.

Definition parseEnumDefinition : PM ASTNode :=
  let* keyword := current in
  let* _ := expect TOKEN_ENUM "Expected 'enum'" in
  let* attrs := attributes in
  let* tag := definition_tag CC_TAG_ENUM in
  let line := match tag with Some (_, tok) => tok_line tok | None => tok_line keyword end in
  let* '(members, values) := parseInlineEnumBody in
  let* _ := expect TOKEN_SEMICOLON "Expected ';' after enum declaration" in
  let* name := (match tag with
                | Some (name, _) => ret name
                | None => let* name := anonymous_tag "enum" line in let* _ := add_tag CC_TAG_ENUM name in ret name
                end) in
  let* ident := createIdentifierNode (Some name) in
  let* n := createEnumDefinitionNode (place_tag tag line ident) members values in
  ret (astNodeAppendAttributes attrs (set_line line n)).

(** ** Any declaration *)

(** The definition that a type carries. *)
Definition inline_definition (t : ParsedType) : option NodeId :=
  match pt_inlineStructOrUnionDef t with Some id => Some id | None => pt_inlineEnumDef t end.

Definition the_node (o : option NodeId) : PM ASTNode :=
  match o with Some id => let* s := get in lift (stored_node s id) | None => fail end.

(** A declaration of a tag only: its definition, or nothing. *)
Definition tag_declaration (type : ParsedType) : PM ASTNode :=
  let* _ := advance in
  let* _ := (match pt_userTypeName type with
             | Some name =>
                 add_tag (match pt_tag type with TAG_UNION => CC_TAG_UNION | TAG_ENUM => CC_TAG_ENUM | _ => CC_TAG_STRUCT end) name
             | None => ret tt
             end) in
  the_node (inline_definition type).

Definition probe_function_declarator (type : ParsedType) : PM bool :=
  let* r := on_clone (c_declarator type (definition_mode false)) in
  ret (match r with Some d => dc_declaresFunction d | None => false end).

Definition handleTypeOrFunctionDeclaration : PM ASTNode :=
  let* typedef := current_is TOKEN_TYPEDEF in
  if (typedef : bool) then parseTypedef
  else
    let* type := parseType in
    if is_invalid type then parse_error "Invalid type in declaration"
    else
      let* attrs := attributes in
      let type := parsedTypeAdoptAttributes type attrs in
      let* semicolon := current_is TOKEN_SEMICOLON in
      if semicolon && negb (bool_decide (pt_tag type = TAG_NONE)) then tag_declaration type
      else
        let* function := probe_function_declarator type in
        if (function : bool) then parseFunctionDefinition type else parseVariableDeclaration type.

(** A definition that stands alone: the type of its kind, and a semicolon. *)
Definition probe_definition (pick : ParsedType -> option NodeId) : PM bool :=
  let* r := on_clone
    (let* t := parseType in
     let* semicolon := current_is TOKEN_SEMICOLON in
     ret (semicolon && match pick t with Some _ => true | None => false end)) in
  ret (default false r).

Definition bare_definition (pick : ParsedType -> option NodeId) (invalid no_end : string) : PM ASTNode :=
  let* t := parseType in
  match pick t with
  | None => parse_error invalid
  | Some id => let* _ := expect TOKEN_SEMICOLON no_end in the_node (Some id)
  end.

(** Whether a type and a declarator stand here. *)
Definition probe_declaration : PM bool :=
  let* r := on_clone
    (let* t := parseType in
     let* pointer := at_pointer in
     let* start := current_in [TOKEN_IDENTIFIER; TOKEN_LPAREN] in
     if negb (is_invalid t) && (pointer || start)
     then let* _ := c_declarator t (definition_mode false) in ret true
     else ret false) in
  ret (default false r).

(** The tokens behind the keyword and its attributes. *)
Definition tokens_behind_keyword : PM (option (TokenType * TokenType)) :=
  on_clone
    (let* _ := advance in
     let* _ := attributes in
     let* s := get in
     ret (at_type 0 s, at_type 1 s)).

Definition forward_declaration : PM ASTNode :=
  let* _ := advance in
  let* tok := current in
  if negb (tt_eqb (tok_type tok) TOKEN_IDENTIFIER)
  then parse_error "Expected identifier after 'struct' in forward declaration"
  else
    let* _ := (match tok_value tok with Some name => record_tag CC_TAG_STRUCT name | None => ret tt end) in
    let* _ := advance in
    let* _ := expect TOKEN_SEMICOLON "Expected ';' after struct forward declaration" in
    fail.

Definition handleStructStatements : PM ASTNode :=
  let* definition := probe_definition pt_inlineStructOrUnionDef in
  if (definition : bool)
  then bare_definition pt_inlineStructOrUnionDef "Invalid struct/union definition" "Expected ';' after struct/union definition"
  else
    let* declaration := probe_declaration in
    if (declaration : bool) then handleTypeOrFunctionDeclaration
    else
      let* behind := tokens_behind_keyword in
      match behind with
      | Some (TOKEN_IDENTIFIER, TOKEN_LBRACE) => parseStructDefinition
      | Some (TOKEN_IDENTIFIER, TOKEN_SEMICOLON) => forward_declaration
      | _ => handleTypeOrFunctionDeclaration
      end.
End Declarations.
