(* ===== verification/ParserStmt.v ===== *)
(** * Statements (src/Parser/parser_stmt.c, parser_switch.c, and the statements and blocks of
    parser_main.c).

    [expect_silently] and a plain [fail] are errors that the code prints to stdout only. *)
From S2P Require Import Prelude StateError Tokens AST ParsedTypes Semantic UnitsTables ParserState AstBuild ParserAttributes ParserCalls ParserTypes.
From S2P Require Import ParserDeclarators ParserExpr ParserFunc ParserDecl.

Definition reportParserDiagAtCurrentToken (message : string) : PM unit :=
  let* s := get in
  if p_suppressErrors (ps_parser s) then ret tt
  else compiler_report_diag (error_range (token_ahead 0 s) false) CDIAG_PARSER_GENERIC None message.

(** A node that may be NULL. *)
Definition or_null (m : PM (option ASTNode)) : PM (option ASTNode) := let* r := attempt m in ret (default None r).

Definition placed (tok : Token) (m : PM ASTNode) : PM ASTNode := let* n := m in ret (astNodeSetProvenance tok n).

(** [parser->switchDepth] is one more for the time of [m]. *)
Definition in_switch {A} (m : PM A) : PM A :=
  let* _ := update_parser (fun p => set_switchDepth (p_switchDepth p + 1) p) in
  let* r := attempt m in
  let* _ := update_parser (fun p => set_switchDepth (p_switchDepth p - 1) p) in
  match r with Some a => ret a | None => fail end.

Section Statements.
Context `{calls : ParserCalls}.

Definition body : PM ASTNode :=
  let* brace := current_is TOKEN_LBRACE in if (brace : bool) then c_block else c_statement.

(** ** Tests and loops *)

Definition parseIfStatement : PM ASTNode :=
  let* _ := expect_silently TOKEN_IF in
  let* _ := expect_silently TOKEN_LPAREN in
  let* condition := attempt parseExpression in
  let* _ := expect_silently TOKEN_RPAREN in
  let* thenBody := body in
  let* otherwise := current_is TOKEN_ELSE in
  if (otherwise : bool) then
    let* _ := advance in
    let* chained := current_is TOKEN_IF in
    let* elseBody := (if (chained : bool) then c_if else body) in
    createIfElseStatementNode condition thenBody elseBody
  else createIfStatementNode condition thenBody.

Definition parseWhileLoop : PM ASTNode :=
  let* _ := expect_silently TOKEN_WHILE in
  let* paren := current_is TOKEN_LPAREN in
  if negb paren then let* _ := reportParserDiagAtCurrentToken "expected '(' after 'while'" in fail
  else
    let* _ := advance in
    let* condition := parseExpression in
    let* _ := expect_silently TOKEN_RPAREN in
    let* b := body in
    createWhileLoopNode condition b false.

(** [expect_silently], after a report. *)
Definition expect_reported (type : TokenType) (message : string) : PM unit :=
  let* here := current_is type in
  if (here : bool) then advance else let* _ := reportParserDiagAtCurrentToken message in fail.

Definition parseDoWhileLoop : PM ASTNode :=
  let* _ := expect_silently TOKEN_DO in
  let* b := attempt body in
  match b with
  | None => let* _ := reportParserDiagAtCurrentToken "invalid body in 'do-while' loop" in fail
  | Some b =>
      let* _ := expect_reported TOKEN_WHILE "expected 'while' after 'do' block" in
      let* _ := expect_silently TOKEN_LPAREN in
      let* condition := parseExpression in
      let* _ := expect_silently TOKEN_RPAREN in
      let* _ := expect_reported TOKEN_SEMICOLON "expected ';' after 'do-while' statement" in
      createWhileLoopNode condition b true
  end.

(** A part of the loop's head that is empty, or [m]. *)
Definition optional_clause (stop : TokenType) (m : PM ASTNode) : PM (option ASTNode) :=
  let* empty := current_is stop in if (empty : bool) then ret None else let* n := m in ret (Some n).

Definition parseForLoopInitializer : PM (option ASTNode) :=
  or_null
    (let* init := optional_clause TOKEN_SEMICOLON
       (let* declaration := looksLikeTypeDeclaration in
        if (declaration : bool) then parseDeclarationForLoop else parseExpression) in
     let* _ := expect_reported TOKEN_SEMICOLON "expected ';' after for-loop initializer" in
     ret init).

Definition parseForLoopCondition : PM (option ASTNode) :=
  or_null
    (let* condition := optional_clause TOKEN_SEMICOLON parseAssignmentExpression in
     let* _ := expect_reported TOKEN_SEMICOLON "expected ';' after for-loop condition" in
     ret condition).

Definition parseForLoopIncrement : PM (option ASTNode) := or_null (optional_clause TOKEN_RPAREN parseExpression).

(** A part that is wrong is left out. *)
Definition parseForLoop : PM ASTNode :=
  let* _ := expect_silently TOKEN_FOR in
  let* _ := expect_silently TOKEN_LPAREN in
  let* init := parseForLoopInitializer in
  let* condition := parseForLoopCondition in
  let* increment := parseForLoopIncrement in
  let* _ := expect_silently TOKEN_RPAREN in
  let* brace := current_is TOKEN_LBRACE in
  let* b := (if (brace : bool) then attempt c_block
             else let* single := c_statement in let* n := createBlockNode [Some single] in ret (Some n)) in
  createForLoopNode init condition increment b.

(** ** Jumps *)

(** A comma expression is returned item by item. *)
Definition parseReturnStatement : PM ASTNode :=
  let* returnTok := current in
  let* _ := expect_silently TOKEN_RETURN in
  let* e := optional_clause TOKEN_SEMICOLON parseExpression in
  let* _ := expect_silently TOKEN_SEMICOLON in
  match e with
  | None => placed returnTok (createReturnNode None)
  | Some n =>
      match an_body n with
      | AST_COMMA_EXPRESSION items =>
          let* returns := for_each (fun l item => let* r := createReturnNode item in ret (l ++ [Some r])) [] items in
          createBlockNode returns
      | _ => createReturnNode (Some n)
      end
  end.

Definition parseBreakStatement : PM ASTNode :=
  let* tok := current in
  let* _ := expect_silently TOKEN_BREAK in
  let* _ := expect_silently TOKEN_SEMICOLON in
  placed tok createBreakNode.

Definition parseContinueStatement : PM ASTNode :=
  let* tok := current in
  let* _ := expect_silently TOKEN_CONTINUE in
  let* _ := expect_silently TOKEN_SEMICOLON in
  placed tok createContinueNode.

Definition parseGotoStatement : PM ASTNode :=
  let* tok := current in
  let* _ := expect TOKEN_GOTO "Expected 'goto'" in
  let* label := current in
  let* _ := expect TOKEN_IDENTIFIER "Expected label name after 'goto'" in
  let* _ := expect TOKEN_SEMICOLON "Expected ';' after label in goto statement" in
  placed tok (createGotoStatementNode (tok_value label)).

(** At a name and a colon; the statement behind them may be missing. *)
Definition parseLabel : PM ASTNode :=
  let* tok := current in
  let* _ := advance in
  let* _ := advance in
  let* statement := attempt c_statement in
  placed tok (createLabelDeclarationNode (tok_value tok) statement).

(** ** Assembly *)

(** To the closing parenthesis; the first string is the text. *)
Definition asm_operands : PM (option string) :=
  iterate c_fuel (fun '(depth, text) =>
    let* tok := current in
    match tok_type tok with
    | TOKEN_EOF => ret (inr text)
    | TOKEN_LPAREN => let* _ := advance in ret (inl (depth + 1, text))
    | TOKEN_RPAREN => let* _ := advance in ret (if depth - 1 =? 0 then inr text else inl (depth - 1, text))
    | TOKEN_STRING =>
        let* text := (match text with
                      | Some _ => ret text
                      | None => let* t := lift (tok_value tok) in ret (Some t)
                      end) in
        let* _ := advance in ret (inl (depth, text))
    | _ => let* _ := advance in ret (inl (depth, text))
    end) (0, None).

Definition parseAsmStatement : PM ASTNode :=
  let* _ := advance in
  let* qualifier := current_in [TOKEN_VOLATILE; TOKEN_INLINE] in
  let* _ := (if (qualifier : bool) then advance else ret tt) in
  let* tok := current in
  let* text :=
    (match tok_type tok with
     | TOKEN_LPAREN => asm_operands
     | TOKEN_STRING => let* t := lift (tok_value tok) in let* _ := advance in ret (Some t)
     | _ => parse_error ("Expected asm(" +:+ DQUOTE +:+ "..." +:+ DQUOTE +:+ ") or string literal after 'asm'")
     end) in
  let* _ := expect TOKEN_SEMICOLON "Expected ';' after asm statement" in
  createAsmNode text.

(** ** Switches *)

(** From an opening brace behind the one that closes it. *)
Definition skip_braces : PM unit :=
  iterate c_fuel (fun depth =>
    let* tok := current in
    let depth := match tok_type tok with TOKEN_LBRACE => depth + 1 | TOKEN_RBRACE => depth - 1 | _ => depth end in
    let* _ := advance in
    let* stop := current_is TOKEN_EOF in
    ret (if (0 <? depth) && negb stop then inl depth else inr tt)) 0.

(** The value of a label; none for [default]. *)
Definition case_value (bad_value : string) (no_colon : string) : PM (option ASTNode) :=
  let* labelled := current_is TOKEN_CASE in
  let* _ := advance in
  let* value := (if (labelled : bool) then
                   let* r := attempt parseExpression in
                   match r with
                   | Some v => ret (Some v)
                   | None => if String.eqb bad_value "" then fail else parse_error bad_value
                   end
                 else ret None) in
  let* _ := expect TOKEN_COLON no_colon in
  ret value.

(** A label of the switch body and what follows up to the next. *)
Definition switch_case : PM ASTNode :=
  let* value := case_value "" "':' after case value" in
  let* statements := iterate c_fuel (fun l =>
    let* stop := current_in [TOKEN_CASE; TOKEN_DEFAULT; TOKEN_RBRACE; TOKEN_EOF] in
    if (stop : bool) then ret (inr l) else let* n := c_statement in ret (inl (l ++ [Some n]))) [] in
  createCaseNode value statements.

(** The labels and the other statements of the body, and its closing brace. *)
Definition switch_body : PM (list (option ASTNode)) :=
  let* l := iterate c_fuel (fun l =>
    let* tok := current in
    match tok_type tok with
    | TOKEN_RBRACE | TOKEN_EOF => ret (inr l)
    | TOKEN_CASE | TOKEN_DEFAULT => let* n := switch_case in ret (inl (l ++ [Some n]))
    | _ => let* n := c_statement in ret (inl (l ++ [Some n]))
    end) [] in
  let* _ := expect TOKEN_RBRACE "'}'" in
  ret l.

Definition parseSwitchStatement : PM ASTNode :=
  let* _ := expect TOKEN_SWITCH "'switch'" in
  let* _ := expect TOKEN_LPAREN "'('" in
  let* condition := or_error parseExpression "valid expression" in
  let* close := current_is TOKEN_RPAREN in
  if negb close then
    let* _ := printParseError "expected ')' after switch condition" in
    let* brace := current_is TOKEN_LBRACE in
    if (brace : bool) then let* _ := skip_braces in createBlockNode [] else fail
  else
    let* _ := advance in
    let* tok := current in
    match tok_type tok with
    | TOKEN_LBRACE =>
        let* _ := advance in
        let* l := in_switch switch_body in
        createSwitchNode condition l
    | TOKEN_RBRACE | TOKEN_EOF => parse_error "expected statement after switch condition"
    | _ => let* n := in_switch c_statement in createSwitchNode condition [Some n]
    end.

(** ** Statements *)

Definition union_or_enum (pick : ParsedType -> option NodeId) (invalid no_end : string) : PM ASTNode :=
  let* definition := probe_definition pick in
  if (definition : bool) then bare_definition pick invalid no_end else handleTypeOrFunctionDeclaration.

Definition handleControlStatements : PM ASTNode :=
  let* tok := current in
  match tok_type tok with
  | TOKEN_STRUCT => handleStructStatements
  | TOKEN_UNION => union_or_enum pt_inlineStructOrUnionDef "Invalid union definition" "Expected ';' after union definition"
  | TOKEN_ENUM => union_or_enum pt_inlineEnumDef "Invalid enum definition" "Expected ';' after enum definition"
  | TOKEN_TYPEDEF => parseTypedef
  | TOKEN_IF => parseIfStatement
  | TOKEN_WHILE => parseWhileLoop
  | TOKEN_DO => parseDoWhileLoop
  | TOKEN_FOR => parseForLoop
  | TOKEN_SWITCH => parseSwitchStatement
  | TOKEN_GOTO => parseGotoStatement
  | TOKEN_RETURN => parseReturnStatement
  | TOKEN_BREAK => parseBreakStatement
  | TOKEN_CONTINUE => parseContinueStatement
  | TOKEN_ASM => parseAsmStatement
  | _ => fail
  end.

(** The string behind the comma. *)
Definition assert_message : PM (option ASTNode) :=
  let* comma := current_is TOKEN_COMMA in
  if negb comma then ret None
  else
    let* _ := advance in
    let* tok := current in
    if tt_eqb (tok_type tok) TOKEN_STRING then
      let* n := createStringLiteralNode (tok_value tok) in
      let* _ := advance in
      ret (Some (astNodeSetProvenance tok n))
    else parse_error "Expected string literal in _Static_assert".

Definition static_assertion : PM ASTNode :=
  let* tok := current in
  let* _ := advance in
  let* _ := expect TOKEN_LPAREN "Expected '(' after _Static_assert" in
  let* condition := or_error parseAssignmentExpression "Expected constant expression in _Static_assert" in
  let* message := assert_message in
  let* _ := expect TOKEN_RPAREN "Expected ')' after _Static_assert" in
  let* _ := expect TOKEN_SEMICOLON "Expected ';' after _Static_assert" in
  placed tok (createStaticAssertNode condition message).

(** A label of the enclosing switch, and the statement behind it. *)
Definition nested_case : PM ASTNode :=
  let* tok := current in
  let* value := case_value "case label expression" "':' after case label" in
  let* statement := c_statement in
  placed tok (createCaseNode value [Some statement]).

(** What is no control statement: a label, a declaration or an expression.  A declaration that
    fails is followed by an expression, from where it stopped. *)
Definition plain_statement : PM ASTNode :=
  let* s := get in
  if tt_eqb (at_type 0 s) TOKEN_IDENTIFIER && tt_eqb (at_type 1 s) TOKEN_COLON then parseLabel
  else
    let* declaration := (if tt_eqb (at_type 0 s) TOKEN_LPAREN then ret false else looksLikeTypeDeclaration) in
    if (declaration : bool) then
      let* r := attempt handleTypeOrFunctionDeclaration in
      match r with Some n => ret n | None => handleExpressionOrAssignment end
    else handleExpressionOrAssignment.

(** A control statement that gives nothing is followed by what stands where it stopped. *)
Definition other_statement : PM ASTNode :=
  let* start := current in
  let* control := attempt handleControlStatements in
  match control with
  | Some n => ret n
  | None =>
      let* s := get in
      if (tt_eqb (tok_type start) TOKEN_DO || tt_eqb (tok_type start) TOKEN_SWITCH) && negb (isValidExpressionStart (at_type 0 s))
      then fail
      else if (0 <? p_switchDepth (ps_parser s)) && (tt_eqb (at_type 0 s) TOKEN_CASE || tt_eqb (at_type 0 s) TOKEN_DEFAULT)
      then nested_case
      else plain_statement
  end.

(** The attributes in front of a statement go to its node; the physical overlay, which would
    read them, is off. *)
Definition attributed_statement : PM ASTNode :=
  let* attrs := attributes in
  let* tok := current in
  let* n := (match tok_type tok with
             | TOKEN_LBRACE => c_block
             | TOKEN_SEMICOLON => let* _ := advance in createBlockNode []
             | _ => other_statement
             end) in
  match attrs with [] => ret n | _ => store_node (astNodeAppendAttributes attrs n) end.

Definition parseStatement : PM ASTNode :=
  let* tok := current in
  match tok_type tok with
  | TOKEN_ASM => parseAsmStatement
  | TOKEN_STATIC_ASSERT => static_assertion
  | _ => attributed_statement
  end.

(** ** Blocks *)

(** Behind the semicolon or the closing brace that ends a statement. *)
Definition parserSyncToStatementEnd : PM unit :=
  iterate c_fuel (fun depth =>
    let* tok := current in
    match tok_type tok with
    | TOKEN_EOF => ret (inr tt)
    | TOKEN_LBRACE => let* _ := advance in ret (inl (depth + 1))
    | TOKEN_RBRACE => if depth =? 0 then ret (inr tt) else let* _ := advance in ret (inl (depth - 1))
    | TOKEN_SEMICOLON => let* _ := advance in ret (if depth =? 0 then inr tt else inl depth)
    | _ => let* _ := advance in ret (inl depth)
    end) 0.

(** A statement that is wrong is left out. *)
Definition block_statements : PM (list (option ASTNode)) :=
  iterate c_fuel (fun l =>
    let* stop := current_in [TOKEN_RBRACE; TOKEN_EOF] in
    if (stop : bool) then ret (inr l)
    else
      let* n := attempt c_statement in
      match n with
      | Some n => ret (inl (l ++ [Some n]))
      | None => let* _ := parserSyncToStatementEnd in ret (inl l)
      end) [].

(** The closing brace may be missing at the end of the file. *)
Definition parseBlock : PM ASTNode :=
  let* brace := current_is TOKEN_LBRACE in
  if negb brace then fail
  else
    in_scope
      (let* _ := advance in
       let* l := block_statements in
       let* close := current_is TOKEN_RBRACE in
       let* _ := (if (close : bool) then advance else ret tt) in
       createBlockNode l).
End Statements.
