(* ===== verification/ParserMain.v ===== *)
(** * The program, preserved directives, and the parser itself (src/Parser/parser_main.c,
    parser.c).

    [parser_calls n d]: the parser with [n] passes for each loop and [d] levels of nesting. *)
From S2P Require Import Prelude StateError Tokens AST ParsedTypes Semantic UnitsTables ParserState AstBuild ParserAttributes ParserCalls ParserTypes.
From S2P Require Import ParserDeclarators ParserInitializers ParserExpr ParserFunc ParserDecl ParserStmt.

(** ** Preserved directives *)

Definition DirectivePathMax : nat := 512.

(** The texts of the tokens on a line, from one behind the current one. *)
Fixpoint tokens_on_line (line : Z) (l : list Token) : list string :=
  match l with
  | [] => []
  | t :: rest => if tt_eqb (tok_type t) TOKEN_EOF || negb (tok_line t =? line) then [] else tok_text t :: tokens_on_line line rest
  end.

Definition concat_tokens_on_line (line : Z) : PM string :=
  let* p := the_parser in
  ret (String.concat " " (tokens_on_line line (drop (p_cursor p + 1) (tb_tokens (p_tokenBuffer p))))).

Section Program.
Context `{calls : ParserCalls}.

Definition on_line (line : Z) : PM bool :=
  let* tok := current in ret (negb (tt_eqb (tok_type tok) TOKEN_EOF) && (tok_line tok =? line)).

Definition consume_line (line : Z) : PM unit := while c_fuel (on_line line) advance.

(** The path between angle brackets, as far as there is room for it. *)
Definition system_path (line : Z) : PM string :=
  iterate c_fuel (fun path =>
    let* more := on_line line in
    let* tok := current in
    if negb more || tt_eqb (tok_type tok) TOKEN_GREATER ||
       bool_decide (DirectivePathMax <= String.length path + String.length (tok_text tok) + 1)%nat
    then ret (inr path)
    else let* _ := advance in ret (inl (path +:+ tok_text tok))) ""%string.

Definition parse_preserved_include : PM ASTNode :=
  let* directive := current in
  let line := tok_line directive in
  let* _ := advance in
  let* tok := current in
  match tok_type tok with
  | TOKEN_EOF => fail
  | TOKEN_STRING =>
      let path := String.substring 0 (DirectivePathMax - 1) (tok_text tok) in
      let* _ := advance in
      let* n := createIncludeDirectiveNode path false in
      let* _ := consume_line line in ret n
  | TOKEN_LESS =>
      let* _ := advance in
      let* path := system_path line in
      let* close := current_is TOKEN_GREATER in
      let* _ := (if (close : bool) then advance else ret tt) in
      let* n := createIncludeDirectiveNode path true in
      let* _ := consume_line line in ret n
  | _ => let* _ := consume_line line in fail
  end.

(** The name behind a directive; without one the line is skipped. *)
Definition directive_name : PM (Z * string) :=
  let* directive := current in
  let line := tok_line directive in
  let* _ := advance in
  let* tok := current in
  if tt_eqb (tok_type tok) TOKEN_IDENTIFIER then ret (line, tok_text tok)
  else let* _ := consume_line line in fail.

Definition parse_preserved_define : PM ASTNode :=
  let* '(line, name) := directive_name in
  let* _ := advance in
  let* value := concat_tokens_on_line line in
  let* n := createDefineDirectiveNode name (if String.eqb value "" then None else Some value) in
  let* _ := consume_line line in
  ret n.

Definition parse_preserved_conditional (negate : bool) : PM ASTNode :=
  let* '(line, name) := directive_name in
  let* n := createConditionalDirectiveNode name negate in
  let* _ := consume_line line in
  ret n.

Definition parse_preserved_endif : PM ASTNode :=
  let* directive := current in
  let* _ := advance in
  let* _ := consume_line (tok_line directive) in
  createEndifDirectiveNode.

Definition preserved_directive : PM ASTNode :=
  let* s := get in
  if negb (p_preserveDirectives (ps_parser s)) then fail
  else
    match at_type 0 s with
    | TOKEN_INCLUDE => parse_preserved_include
    | TOKEN_DEFINE => parse_preserved_define
    | TOKEN_IFDEF => parse_preserved_conditional false
    | TOKEN_IFNDEF => parse_preserved_conditional true
    | TOKEN_ENDIF => parse_preserved_endif
    | _ => fail
    end.

(** ** The program *)

(** To behind a semicolon, to a closing brace, or to what starts a declaration. *)
Definition parserSyncToDeclarationStart : PM unit :=
  iterate c_fuel (fun _ =>
    let* tok := current in
    match tok_type tok with
    | TOKEN_EOF | TOKEN_RBRACE | TOKEN_TYPEDEF => ret (inr tt)
    | TOKEN_SEMICOLON => let* _ := advance in ret (inr tt)
    | _ =>
        let* declaration := looksLikeTypeDeclaration in
        if (declaration : bool) then ret (inr tt) else let* _ := advance in ret (inl tt)
    end) tt.

(** A keyword with a body, and a name before it or none. *)
Definition starts_definition (s : PState) (keyword : TokenType) : bool :=
  tt_eqb (at_type 0 s) keyword &&
  (tt_eqb (at_type 1 s) TOKEN_LBRACE || tt_eqb (at_type 1 s) TOKEN_IDENTIFIER && tt_eqb (at_type 2 s) TOKEN_LBRACE).

Definition definition_at (keyword : TokenType) (definition : PM ASTNode) : PM ASTNode :=
  let* s := get in if starts_definition s keyword then definition else fail.

Definition or_sync (m : PM ASTNode) : PM (option ASTNode) :=
  let* n := attempt m in
  match n with
  | Some n => ret (Some n)
  | None => let* _ := parserSyncToDeclarationStart in ret None
  end.

(** What is no definition of a tag. *)
Definition program_declaration : PM (option ASTNode) :=
  let* typedef := current_is TOKEN_TYPEDEF in
  if (typedef : bool) then or_sync parseTypedef
  else
    let* declaration := looksLikeTypeDeclaration in
    if (declaration : bool) then or_sync handleTypeOrFunctionDeclaration
    else
      let* n := attempt c_statement in
      match n with
      | Some n => ret (Some n)
      | None =>
          let* _ := parserSyncToStatementEnd in
          let* close := current_is TOKEN_RBRACE in
          let* _ := (if (close : bool) then advance else ret tt) in
          ret None
      end.

(** One round: directives, the definitions of each kind, then anything else.  What fails is
    followed by the next of them, from where it stopped. *)
Definition program_item : PM (option ASTNode) :=
  let first (m : PM ASTNode) (k : PM (option ASTNode)) : PM (option ASTNode) :=
    let* n := attempt m in match n with Some n => ret (Some n) | None => k end in
  first preserved_directive
    (first (definition_at TOKEN_STRUCT parseStructDefinition)
       (first (definition_at TOKEN_UNION parseUnionDefinition)
          (first (definition_at TOKEN_ENUM parseEnumDefinition) program_declaration))).

Definition parseProgram : PM ASTNode :=
  let* l := iterate c_fuel (fun l =>
    let* stop := current_is TOKEN_EOF in
    if (stop : bool) then ret (inr l)
    else
      let* n := program_item in
      ret (inl (match n with Some n => l ++ [Some n] | None => l end))) [] in
  createProgramNode l.
End Program.

(** ** The parser *)

Definition stuck_calls (n : nat) : ParserCalls :=
  mkCalls n (fun _ => stuck) (fun _ => stuck) (fun _ _ => stuck) (fun _ _ => stuck) (fun _ => stuck) stuck stuck stuck stuck stuck.

Fixpoint parser_calls (n d : nat) : ParserCalls :=
  match d with
  | O => stuck_calls n
  | S d =>
      let calls := parser_calls n d in
      mkCalls n (@parseExpressionPratt calls) (@parseTypeCtx calls) (@parseDeclaratorInternal calls)
        (@parserParseDeclarator calls) (@parseInitializerList calls) (@parseStructOrUnionFields calls)
        (@parseParameterList calls) (@parseBlock calls) (@parseStatement calls) (@parseIfStatement calls)
  end.

(** [parse]. *)
Definition parse (n d : nat) : PM ASTNode := @parseProgram (parser_calls n d).
