(* ===== verification/ParserGrammar.v ===== *)
(** * The grammar of expressions, as a specification.

    [derives L ts e]: the tokens [ts] are an expression of the level [L] of the C grammar with
    the tree [e].  Left out are the forms with a type name (casts, compound literals, [sizeof]
    of a type) and statement expressions; [names] says which tokens are names.  A subscript is
    an assignment expression, as the code reads it: the standard also has a comma expression
    there. *)
From S2P Require Import Prelude Tokens AST ParserState ParserExpr.

(** ** Trees *)

Inductive Expr : Type :=
  | EName (name : option string)
  | ENumber (value : option string)
  | EChar (value : option string)
  | EString (value : option string)
  | EPrefix (op : option string) (e : Expr)
  | EPostfix (op : option string) (e : Expr)
  | ESizeof (e : Expr)
  | EAlignof (e : Expr)
  | EIndex (array index : Expr)
  | ECall (callee : Expr) (arguments : list Expr)
  | EDot (base : Expr) (field : option string)
  | EArrow (base : Expr) (field : option string)
  | EBinary (op : option string) (left right : Expr)
  | ETernary (condition trueExpr falseExpr : Expr)
  | EAssign (op : option string) (target value : Expr)
  | EComma (items : list Expr)
  | EOther.

(** The tree that a node stands for: its places and attributes are left out. *)
Fixpoint expr_of (n : ASTNode) : Expr :=
  let 'mkASTNode _ _ _ _ _ _ body := n in
  let child (o : option ASTNode) := match o with Some n => expr_of n | None => EOther end in
  let children (l : list (option ASTNode)) := map (fun o => match o with Some n => expr_of n | None => EOther end) l in
  match body with
  | AST_IDENTIFIER v => EName v
  | AST_NUMBER_LITERAL v => ENumber v
  | AST_CHAR_LITERAL v => EChar v
  | AST_STRING_LITERAL v => EString v
  | AST_UNARY_EXPRESSION op e false => EPrefix op (child e)
  | AST_UNARY_EXPRESSION op e true => EPostfix op (child e)
  | AST_SIZEOF e => ESizeof (child e)
  | AST_ALIGNOF e => EAlignof (child e)
  | AST_ARRAY_ACCESS a i => EIndex (child a) (child i)
  | AST_FUNCTION_CALL f l => ECall (child f) (children l)
  | AST_DOT_ACCESS b f => EDot (child b) f
  | AST_POINTER_ACCESS b f => EArrow (child b) f
  | AST_BINARY_EXPRESSION op l r => EBinary op (child l) (child r)
  | AST_TERNARY_EXPRESSION c t f => ETernary (child c) (child t) (child f)
  | AST_ASSIGNMENT t op v => EAssign op (child t) (child v)
  | AST_COMMA_EXPRESSION l => EComma (children l)
  | _ => EOther
  end.

(** ** Levels *)

(** The binary operators of the standard's grammar, from logical-OR to multiplicative. *)
Definition binary_level (type : TokenType) : option nat :=
  match type with
  | TOKEN_LOGICAL_OR => Some 1%nat
  | TOKEN_LOGICAL_AND => Some 2%nat
  | TOKEN_BITWISE_OR => Some 3%nat
  | TOKEN_BITWISE_XOR => Some 4%nat
  | TOKEN_BITWISE_AND => Some 5%nat
  | TOKEN_EQUAL | TOKEN_NOT_EQUAL => Some 6%nat
  | TOKEN_LESS | TOKEN_GREATER | TOKEN_LESS_EQUAL | TOKEN_GREATER_EQUAL => Some 7%nat
  | TOKEN_LEFT_SHIFT | TOKEN_RIGHT_SHIFT => Some 8%nat
  | TOKEN_PLUS | TOKEN_MINUS => Some 9%nat
  | TOKEN_ASTERISK | TOKEN_DIVIDE | TOKEN_MODULO => Some 10%nat
  | _ => None
  end.

Definition assignment_operators : list TokenType :=
  [TOKEN_ASSIGN; TOKEN_MULT_ASSIGN; TOKEN_DIV_ASSIGN; TOKEN_MOD_ASSIGN; TOKEN_PLUS_ASSIGN; TOKEN_MINUS_ASSIGN;
   TOKEN_LEFT_SHIFT_ASSIGN; TOKEN_RIGHT_SHIFT_ASSIGN; TOKEN_BITWISE_AND_ASSIGN; TOKEN_BITWISE_XOR_ASSIGN;
   TOKEN_BITWISE_OR_ASSIGN].

Definition prefix_operators : list TokenType :=
  [TOKEN_INCREMENT; TOKEN_DECREMENT; TOKEN_BITWISE_AND; TOKEN_ASTERISK; TOKEN_PLUS; TOKEN_MINUS; TOKEN_BITWISE_NOT;
   TOKEN_LOGICAL_NOT].

Inductive Level : Set := LComma | LAssign | LConditional | LBinary (n : nat) | LUnary | LPostfix.

(** The operands of a binary level, on the right. *)
Definition tighter (n : nat) : Level := if decide (n = 10%nat) then LUnary else LBinary (S n).

(** ** The grammar *)

Definition is_type (type : TokenType) (t : Token) : Prop := tok_type t = type.

(** Comma expressions are flat on the left; parentheses around one make no difference. *)
Definition add_item (l r : Expr) : Expr :=
  match l with EComma items => EComma (items ++ [r]) | _ => EComma [l; r] end.

(** The text of adjacent strings. *)
Definition merged_strings (l : list Token) : string :=
  merged_text (foldl (fun p t => add_piece p (tok_value t)) (mkPieces false false false "") l).

Definition op_text (t : Token) : option string := Some (getOperatorString (tok_type t)).

Section Grammar.
Context (names : Token -> bool).

Inductive derives : Level -> list Token -> Expr -> Prop :=
  | d_name t : is_type TOKEN_IDENTIFIER t -> names t = true -> derives LPostfix [t] (EName (tok_value t))
  | d_number t : is_type TOKEN_NUMBER t \/ is_type TOKEN_FLOAT_LITERAL t -> derives LPostfix [t] (ENumber (tok_value t))
  | d_char t : is_type TOKEN_CHAR_LITERAL t -> derives LPostfix [t] (EChar (tok_value t))
  | d_string l : l <> [] -> Forall (is_type TOKEN_STRING) l -> derives LPostfix l (EString (Some (merged_strings l)))
  | d_group o c ts e : is_type TOKEN_LPAREN o -> is_type TOKEN_RPAREN c -> derives LComma ts e ->
      derives LPostfix (o :: ts ++ [c]) e
  | d_index o c ta tb a b : is_type TOKEN_LBRACKET o -> is_type TOKEN_RBRACKET c -> derives LPostfix ta a -> derives LAssign tb b ->
      derives LPostfix (ta ++ o :: tb ++ [c]) (EIndex a b)
  | d_call o c tf f : is_type TOKEN_LPAREN o -> is_type TOKEN_RPAREN c -> derives LPostfix tf f ->
      derives LPostfix (tf ++ [o; c]) (ECall f [])
  | d_call_args o c tf ta f l : is_type TOKEN_LPAREN o -> is_type TOKEN_RPAREN c -> derives LPostfix tf f -> derives_args ta l ->
      derives LPostfix (tf ++ o :: ta ++ [c]) (ECall f l)
  | d_dot o i ta a : is_type TOKEN_DOT o -> is_type TOKEN_IDENTIFIER i -> derives LPostfix ta a ->
      derives LPostfix (ta ++ [o; i]) (EDot a (tok_value i))
  | d_arrow o i ta a : is_type TOKEN_ARROW o -> is_type TOKEN_IDENTIFIER i -> derives LPostfix ta a ->
      derives LPostfix (ta ++ [o; i]) (EArrow a (tok_value i))
  | d_postfix o ta a : is_type TOKEN_INCREMENT o \/ is_type TOKEN_DECREMENT o -> derives LPostfix ta a ->
      derives LPostfix (ta ++ [o]) (EPostfix (op_text o) a)
  | d_postfix_unary ts e : derives LPostfix ts e -> derives LUnary ts e
  | d_prefix o ts e : tok_type o ∈ prefix_operators -> derives LUnary ts e -> derives LUnary (o :: ts) (EPrefix (op_text o) e)
  | d_sizeof o ts e : is_type TOKEN_SIZEOF o -> derives LUnary ts e -> derives LUnary (o :: ts) (ESizeof e)
  | d_alignof o ts e : is_type TOKEN_ALIGNOF o -> derives LUnary ts e -> derives LUnary (o :: ts) (EAlignof e)
  | d_tighter n ts e : (1 <= n <= 10)%nat -> derives (tighter n) ts e -> derives (LBinary n) ts e
  | d_binary n o ta tb a b : binary_level (tok_type o) = Some n -> derives (LBinary n) ta a -> derives (tighter n) tb b ->
      derives (LBinary n) (ta ++ o :: tb) (EBinary (op_text o) a b)
  | d_binary_conditional ts e : derives (LBinary 1) ts e -> derives LConditional ts e
  | d_ternary q c ta tb td a b d : is_type TOKEN_QUESTION q -> is_type TOKEN_COLON c -> derives (LBinary 1) ta a ->
      derives LComma tb b -> derives LConditional td d -> derives LConditional (ta ++ q :: tb ++ c :: td) (ETernary a b d)
  | d_conditional_assign ts e : derives LConditional ts e -> derives LAssign ts e
  | d_assign o ta tb a b : tok_type o ∈ assignment_operators -> derives LUnary ta a -> derives LAssign tb b ->
      derives LAssign (ta ++ o :: tb) (EAssign (op_text o) a b)
  | d_assign_comma ts e : derives LAssign ts e -> derives LComma ts e
  | d_comma o ta tb a b : is_type TOKEN_COMMA o -> derives LComma ta a -> derives LAssign tb b ->
      derives LComma (ta ++ o :: tb) (add_item a b)
with derives_args : list Token -> list Expr -> Prop :=
  | d_last ts e : derives LAssign ts e -> derives_args ts [e]
  | d_more o ta tb a l : is_type TOKEN_COMMA o -> derives LAssign ta a -> derives_args tb l -> derives_args (ta ++ o :: tb) (a :: l).

Scheme derives_rule := Minimality for derives Sort Prop
with derives_args_rule := Minimality for derives_args Sort Prop.
Combined Scheme derives_both from derives_rule, derives_args_rule.
End Grammar.

(** ** Names *)

Definition reserved_names : list string :=
  ["asm"; "_Nonnull"; "_Nullable"; "_Null_unspecified"; "_Alignas"; "alignas"; "va_arg"; "offsetof"; "VKAPI_ATTR";
   "VKAPI_CALL"; "VKAPI_PTR"; "APIENTRY"; "WINAPI"; "CALLBACK"; "STDMETHODCALLTYPE"]%string.

(** A name that is no type here, has no two underscores in front, and means nothing else to the
    parser. *)
Definition plain_name (s : PState) (t : Token) : bool :=
  match tok_value t with
  | Some v =>
      negb (String.prefix "__" v) && negb (String.prefix "_LIBC_" v) && negb (bool_decide (v ∈ reserved_names)) &&
      negb (parserIsTypedefVisible s (Some v)) && negb (cc_is_builtin_type v)
  | None => false
  end.

(** ** From a tighter level to a looser one *)

Section Loosen.
Context (names : Token -> bool).

Lemma loosen (k j : nat) (ts : list Token) (e : Expr) :
  (1 <= k)%nat -> (k + j <= 10)%nat -> derives names (LBinary (k + j)) ts e -> derives names (LBinary k) ts e.
Proof.
  intros Hk. induction j as [|j IH]; intros Hj H; [by rewrite Nat.add_0_r in H|]. apply IH; [lia|].
  apply d_tighter; [lia|]. unfold tighter. rewrite decide_False by lia. by rewrite <- Nat.add_succ_r.
Qed.

Lemma loosen_unary (k : nat) (ts : list Token) (e : Expr) :
  (1 <= k <= 10)%nat -> derives names LUnary ts e -> derives names (LBinary k) ts e.
Proof.
  intros Hk H. apply (loosen k (10 - k)); [lia..|]. replace (k + (10 - k))%nat with 10%nat by lia. by apply d_tighter; [lia|].
Qed.

Lemma loosen_binary (k : nat) (ts : list Token) (e : Expr) :
  (1 <= k <= 10)%nat -> derives names (LBinary k) ts e -> derives names LAssign ts e.
Proof.
  intros Hk H. apply d_conditional_assign, d_binary_conditional, (loosen 1 (k - 1)); [lia..|].
  by replace (1 + (k - 1))%nat with k by lia.
Qed.
End Loosen.
