(* ===== verification/ParserSpec.v ===== *)
(** * The Pratt parser reads the grammar of expressions.

    [gives m s k Q]: from [s], [m] moves the parser over [k] tokens, without an error, and what
    it returns satisfies [Q]. *)
From S2P Require Import Prelude StateError Tokens AST ParsedTypes Semantic ParserState AstBuild ParserAttributes ParserCalls ParserTypes.
From S2P Require Import ParserDeclarators ParserExpr ParserMain ParserGrammar.

(** ** Moving over tokens *)

(** The tokens from the current one on. *)
Definition at_tokens (s : PState) (ts : list Token) : Prop :=
  drop (p_cursor (ps_parser s)) (tb_tokens (p_tokenBuffer (ps_parser s))) = ts.

(** What the parser reads besides its own fields. *)
Definition surroundings (s : PState) :=
  (ps_dialect s, ps_blockPointers s, ps_relaxedAtomic s, ps_showSystemErrors s, ps_typedefs s, ps_diagnostics s).

(** Only the cursor, and the addresses and contents of nodes, are new. *)
Definition moved (k : nat) (s s' : PState) : Prop :=
  ps_parser s' = set_cursor (k + p_cursor (ps_parser s)) (ps_parser s) /\ surroundings s' = surroundings s.

Lemma moved_refl (s : PState) : moved 0 s s.
Proof. split; [|done]. by destruct s as [[]]. Qed.

Lemma moved_trans (j k : nat) (s s1 s2 : PState) : moved j s s1 -> moved k s1 s2 -> moved (j + k) s s2.
Proof.
  intros [H1 E1] [H2 E2]. split; [|by rewrite E2].
  rewrite H2, H1. cbn. rewrite (Nat.add_comm j k), <- Nat.add_assoc. done.
Qed.

Lemma moved_at (s s' : PState) (a b : list Token) : moved (length a) s s' -> at_tokens s (a ++ b) -> at_tokens s' b.
Proof.
  intros [H _]. unfold at_tokens. rewrite H. cbn. rewrite Nat.add_comm, <- drop_drop. intros ->. apply drop_app_length.
Qed.

Lemma moved_step (s s' : PState) (t : Token) (r : list Token) : moved 1 s s' -> at_tokens s (t :: r) -> at_tokens s' r.
Proof. apply (moved_at s s' [t]). Qed.

Lemma moved_still (s s' : PState) (ts : list Token) : moved 0 s s' -> at_tokens s ts -> at_tokens s' ts.
Proof. apply (moved_at s s' []). Qed.

Lemma plain_name_moved (k : nat) (s s' : PState) (t : Token) : moved k s s' -> plain_name s' t = plain_name s t.
Proof.
  intros [H E]. unfold plain_name, parserIsTypedefVisible, cc_is_typedef. injection E as _ _ _ _ -> _. by rewrite H.
Qed.

Lemma ahead_at (s : PState) (ts : list Token) (k : nat) (t : Token) : at_tokens s ts -> ts !! k = Some t -> token_ahead k s = t.
Proof.
  unfold at_tokens, token_ahead, token_buffer_peek, tb_count. intros <-. rewrite lookup_drop. intros H.
  pose proof (lookup_lt_Some _ _ _ H). rewrite decide_False by lia. rewrite decide_False by lia. by rewrite H.
Qed.

Lemma current_at (s : PState) (t : Token) (r : list Token) : at_tokens s (t :: r) -> token_ahead 0 s = t.
Proof. intros H. by apply (ahead_at s (t :: r)). Qed.

Definition step (s : PState) : PState := set_parser (set_cursor (S (p_cursor (ps_parser s))) (ps_parser s)) s.

Lemma moved_one (s : PState) : moved 1 s (step s).
Proof. done. Qed.

(** ** What a computation gives *)

Definition gives {A} (m : PM A) (s : PState) (k : nat) (Q : A -> Prop) : Prop :=
  exists a s', m s = Some (Some a, s') /\ Q a /\ moved k s s'.

Lemma gives_ret {A} (a : A) (s : PState) (Q : A -> Prop) : Q a -> gives (ret a) s 0 Q.
Proof. intros H. exists a, s. split; [done|]. split; [done|apply moved_refl]. Qed.

Lemma gives_bind {A B} (m : PM A) (k : A -> PM B) (s : PState) (i j l : nat) (P : A -> Prop) (Q : B -> Prop) :
  gives m s i P -> (forall a s', P a -> moved i s s' -> gives (k a) s' j Q) -> l = (i + j)%nat -> gives (bind m k) s l Q.
Proof.
  intros (a & s1 & H1 & Ha & M1) Hk ->. destruct (Hk a s1 Ha M1) as (b & s2 & H2 & Hb & M2).
  exists b, s2. split; [by unfold bind; rewrite H1|]. split; [done|]. by apply (moved_trans i j s s1).
Qed.

Lemma gives_attempt {A} (m : PM A) (s : PState) (i : nat) (P : A -> Prop) :
  gives m s i P -> gives (attempt m) s i (fun r => exists a, r = Some a /\ P a).
Proof.
  intros (a & s1 & H & Ha & M). exists (Some a), s1. split; [by unfold attempt; rewrite H|]. split; [by exists a|done].
Qed.

Lemma gives_or_error {A} (m : PM A) (message : string) (s : PState) (i : nat) (P : A -> Prop) :
  gives m s i P -> gives (or_error m message) s i P.
Proof.
  intros H. unfold or_error. eapply gives_bind; [by apply gives_attempt| |by rewrite Nat.add_0_r].
  intros ? s' (a & -> & Ha) _. by apply gives_ret.
Qed.

Lemma gives_advance (s : PState) : gives advance s 1 (fun _ => True).
Proof. exists tt, (step s). done. Qed.

Lemma gives_expect (s : PState) (t : Token) (r : list Token) (message : string) :
  at_tokens s (t :: r) -> gives (expect (tok_type t) message) s 1 (fun _ => True).
Proof.
  intros H. unfold expect, current_is. exists tt, (step s). split; [|done].
  unfold bind, current, get, ret. cbn. rewrite (current_at s t r H). by rewrite tt_eqb_refl.
Qed.

Lemma gives_is {B} (s : PState) (t : Token) (r : list Token) (type : TokenType) (k : bool -> PM B) (i : nat) (Q : B -> Prop) :
  at_tokens s (t :: r) -> gives (k (tt_eqb (tok_type t) type)) s i Q -> gives (bind (current_is type) k) s i Q.
Proof. intros H. rewrite <- (current_at s t r H). done. Qed.

Lemma run_is (s : PState) (t : Token) (r : list Token) (type : TokenType) :
  at_tokens s (t :: r) -> current_is type s = Some (Some (tt_eqb (tok_type t) type), s).
Proof. intros H. by rewrite <- (current_at s t r H). Qed.

Lemma run_current (s : PState) (t : Token) (r : list Token) : at_tokens s (t :: r) -> current s = Some (Some t, s).
Proof. intros H. by rewrite <- (current_at s t r H). Qed.

Lemma gives_current {B} (s : PState) (t : Token) (r : list Token) (k : Token -> PM B) (i : nat) (Q : B -> Prop) :
  at_tokens s (t :: r) -> gives (k t) s i Q -> gives (bind current k) s i Q.
Proof. intros H. rewrite <- (current_at s t r H). done. Qed.

Lemma gives_get {B} (s : PState) (k : PState -> PM B) (i : nat) (Q : B -> Prop) : gives (k s) s i Q -> gives (bind get k) s i Q.
Proof. done. Qed.

Lemma gives_run {A B} (m : PM A) (k : A -> PM B) (a : A) (s : PState) (i : nat) (Q : B -> Prop) :
  m s = Some (Some a, s) -> gives (k a) s i Q -> gives (bind m k) s i Q.
Proof. intros H G. unfold gives, bind. by rewrite H. Qed.

Lemma gives_mono {A} (m : PM A) (s : PState) (k k' : nat) (P Q : A -> Prop) :
  gives m s k P -> k = k' -> (forall a, P a -> Q a) -> gives m s k' Q.
Proof. intros (a & s' & H & Ha & M) <- HQ. exists a, s'. auto. Qed.

(** ** New nodes *)

Definition reads (e : Expr) (n : ASTNode) : Prop := expr_of n = e.

Lemma expr_of_body (n n' : ASTNode) : an_body n = an_body n' -> expr_of n = expr_of n'.
Proof. destruct n, n'. cbn. by intros ->. Qed.

Lemma inherit_node_body (source : option ASTNode) (n : ASTNode) : an_body (inherit_line_from_node source n) = an_body n.
Proof. by destruct source. Qed.

Lemma inherit_pair_body (a b : option ASTNode) (n : ASTNode) : an_body (inherit_line_from_pair a b n) = an_body n.
Proof. unfold inherit_line_from_pair. destruct (has_line _); by rewrite ?inherit_node_body. Qed.

Lemma inherit_array_body (l : list (option ASTNode)) (n : ASTNode) : an_body (inherit_line_from_array l n) = an_body n.
Proof.
  unfold inherit_line_from_array. revert n. induction l as [|a l IH]; intros n; [done|]. cbn [foldl]. rewrite IH.
  destruct (has_line n); by rewrite ?inherit_node_body.
Qed.

Lemma moved_node (id : NodeId) (s : PState) : moved 0 s (set_nextNode id s).
Proof. split; [|done]. by destruct s as [[]]. Qed.

Lemma gives_make (body : ASTBody ASTNode) (place : ASTNode -> ASTNode) (s : PState) :
  (forall n, an_body (place n) = an_body n) -> gives (make body place) s 0 (reads (expr_of (plain_node 0 body))).
Proof.
  intros Hp. unfold make, new_node, bind, ret, gives. eexists _, _. split; [done|]. split; [|apply moved_node].
  apply expr_of_body. by rewrite Hp.
Qed.

Lemma gives_new (body : ASTBody ASTNode) (s : PState) : gives (new_node body) s 0 (reads (expr_of (plain_node 0 body))).
Proof. eexists _, _. split; [done|]. split; [by apply expr_of_body|apply moved_node]. Qed.

Lemma reads_provenance (tok : Token) (n : ASTNode) (e : Expr) : reads e n -> reads e (astNodeSetProvenance tok n).
Proof. unfold reads. intros <-. by apply expr_of_body. Qed.

(** A node of what was read, placed at a token. *)
Lemma gives_placed (m : PM ASTNode) (tok : Token) (s : PState) (i : nat) (e : Expr) :
  gives m s i (reads e) -> gives (let* n := m in ret (astNodeSetProvenance tok n)) s i (reads e).
Proof.
  intros H. eapply gives_bind; [exact H| |by rewrite Nat.add_0_r]. intros n s' Hn _. apply gives_ret. by apply reads_provenance.
Qed.

(** ** No type starts an expression *)

Definition expression_start (s : PState) (t : Token) : Prop :=
  isValidExpressionStart (tok_type t) = true /\ (tok_type t = TOKEN_IDENTIFIER -> plain_name s t = true).

Lemma plain_not_named (s : PState) (t : Token) (l : list string) :
  plain_name s t = true -> forallb (fun n => String.prefix "__" n || bool_decide (n ∈ reserved_names)) l = true ->
  named_in l t = false.
Proof.
  unfold plain_name, named_in. destruct (tok_value t) as [v|]; [|done]. rewrite !andb_true_iff, !negb_true_iff.
  intros [[[[H1 _] H2] _] _] Hl. apply andb_false_intro2. apply bool_decide_eq_false. intros Hv.
  rewrite forallb_forall in Hl. specialize (Hl v). rewrite <- list_elem_of_In in Hl. specialize (Hl Hv).
  by rewrite H1, H2 in Hl.
Qed.

Lemma prefix_ptrcheck (v : string) : String.prefix "__" v = false -> String.prefix "__ptrcheck_" v = false.
Proof.
  destruct v as [|c1 [|c2 v]]; [done| |]; cbn [String.prefix]; repeat destruct (ascii_dec _ _); try done; by destruct v.
Qed.

Lemma not_named (s : PState) (t : Token) (l : list string) :
  expression_start s t -> forallb (fun n => String.prefix "__" n || bool_decide (n ∈ reserved_names)) l = true ->
  named_in l t = false.
Proof.
  intros [_ H] Hl. unfold named_in, is_name. destruct (tt_eqb (tok_type t) TOKEN_IDENTIFIER) eqn:E; [|done].
  apply tt_eqb_spec in E. pose proof (plain_not_named s t l (H E) Hl) as Hn. unfold named_in, is_name in Hn. by rewrite E in Hn.
Qed.

Lemma start_no_attribute (s : PState) (t : Token) (r : list Token) :
  at_tokens s (t :: r) -> expression_start s t -> starts_attribute s = false.
Proof.
  intros Ht Hs. unfold starts_attribute. rewrite (current_at s t r Ht), (not_named s t _ Hs) by done. cbn [orb].
  assert (looksLikeFallbackAttribute s = false) as ->.
  { unfold looksLikeFallbackAttribute, is_name. rewrite (current_at s t r Ht).
    destruct (tt_eqb (tok_type t) TOKEN_IDENTIFIER) eqn:E; [|done]. apply tt_eqb_spec in E.
    destruct Hs as [_ Hn]. specialize (Hn E). unfold plain_name in Hn. destruct (tok_value t) as [v|]; [|done].
    rewrite !andb_true_iff, !negb_true_iff in Hn. destruct Hn as [[[[H1 H2] _] _] _].
    by rewrite H1, H2, (prefix_ptrcheck v H1). }
  destruct Hs as [Hv _]. by destruct (tok_type t).
Qed.

Lemma iterate_stop {A R} (fuel : nat) (body : A -> PM (A + R)) (a : A) (r : R) (s s' : PState) :
  (0 < fuel)%nat -> body a s = Some (Some (inr r), s') -> iterate fuel body a s = Some (Some r, s').
Proof. destruct fuel; [lia|]. intros _ H. cbn [iterate]. unfold bind. by rewrite H. Qed.

Lemma bind_run {A B} (m : PM A) (k : A -> PM B) (s s' : PState) (a : A) : m s = Some (Some a, s') -> bind m k s = k a s'.
Proof. intros H. unfold bind. by rewrite H. Qed.

Section Probe.
Context `{calls : ParserCalls} (s : PState) (t : Token) (r : list Token).
Hypothesis fuel_positive : (0 < c_fuel)%nat.
Hypothesis here : at_tokens s (t :: r).
Hypothesis start : expression_start s t.

Lemma no_attributes : attributes s = Some (Some [], s).
Proof.
  apply iterate_stop; [done|]. unfold bind, parserLookaheadStartsAttribute, get, ret. cbn.
  by rewrite (start_no_attribute s t r here start).
Qed.

Lemma no_type_attributes (type : ParsedType) : consumeTypeAttributes type s = Some (Some (parsedTypeAdoptAttributes type []), s).
Proof. unfold consumeTypeAttributes. by rewrite (bind_run _ _ _ _ _ no_attributes). Qed.

Lemma no_alignas (type : ParsedType) : consumeAlignasSpecifiers type s = Some (Some type, s).
Proof.
  apply iterate_stop; [done|]. unfold bind, current, get, ret. cbn. rewrite (current_at s t r here).
  unfold isAlignasToken. by rewrite (not_named s t _ start).
Qed.

Lemma no_storage_class (type : ParsedType) :
  storage_specifiers type s = Some (Some (parsedTypeAdoptAttributes type []), s).
Proof.
  unfold storage_specifiers. erewrite bind_run.
  2:{ apply iterate_stop; [done|]. unfold bind, current, get, ret. cbn. rewrite (current_at s t r here).
      destruct start as [Hv _]. by destruct (tok_type t). }
  rewrite (bind_run _ _ _ _ _ (no_type_attributes type)), (bind_run _ _ _ _ _ (no_alignas _)). apply no_alignas.
Qed.

Lemma no_modifiers_here (m : Modifiers) :
  iterate c_fuel modifier_step m s = Some (Some (md_with_type m (parsedTypeAdoptAttributes (md_type m) [])), s).
Proof.
  apply iterate_stop; [done|]. unfold modifier_step, bind at 1, current, bind, get, ret. cbn. rewrite (current_at s t r here).
  replace (type_modifier (tok_type t)) with (@None (ParsedType -> ParsedType)) by (destruct start as [Hv _]; by destruct (tok_type t)).
  replace (is_thread t) with false by (unfold is_thread; destruct start as [Hv _]; by destruct (tok_type t)).
  replace (tt_eqb (tok_type t) TOKEN_THREAD_LOCAL) with false by (destruct start as [Hv _]; by destruct (tok_type t)).
  replace (tt_eqb (tok_type t) TOKEN_ATOMIC) with false by (destruct start as [Hv _]; by destruct (tok_type t)).
  unfold isInteropCallingConventionMarker. rewrite (not_named s t _ start) by done.
  rewrite no_type_attributes, !no_alignas. done.
Qed.

Lemma no_base_type :
  base_type TYPECTX_Strict (mkModState parsedTypeDefault None false false) s =
  Some (if tt_eqb (tok_type t) TOKEN_IDENTIFIER then None else Some (parsedTypeDefault, false), s).
Proof.
  unfold base_type. cbn [md_type md_atomic]. unfold bind at 1, current, bind at 1, get, ret at 1. cbn [md_type].
  rewrite (current_at s t r here). destruct start as [Hv Hn]. destruct (tok_type t) eqn:Et; try discriminate Hv; try reflexivity.
  specialize (Hn eq_refl). cbn -[named_base]. unfold bind at 1.
  assert (named_base TYPECTX_Strict parsedTypeDefault s = Some (None, s)) as ->; [|done].
  unfold named_base, bind, get, ret. rewrite (current_at s t r here). unfold plain_name in Hn.
  destruct (tok_value t) as [v|]; [|done]. rewrite !andb_true_iff, !negb_true_iff in Hn. destruct Hn as [[_ H1] H2].
  unfold identifierMatchesKnownType. rewrite H1, H2. cbn [orb negb andb]. rewrite andb_false_r.
  by destruct (cc_is_typedef s v).
Qed.

(** Read strictly, there is no type here, and nothing is consumed. *)
Lemma no_type : exists type, parseTypeCtx TYPECTX_Strict s = Some (Some type, s) /\ is_invalid type = true.
Proof.
  exists parsedTypeDefault. split; [|done]. unfold parseTypeCtx.
  assert (exists o, parse_type_core TYPECTX_Strict s = Some (o, s) /\ default parsedTypeDefault o = parsedTypeDefault)
    as (o & E & Ho).
  2:{ unfold attempt, bind at 1. rewrite E. unfold ret. by rewrite Ho. }
  unfold parse_type_core. rewrite (bind_run _ _ _ _ _ (no_type_attributes _)), (bind_run _ _ _ _ _ (no_alignas _)),
    (bind_run _ _ _ _ _ (no_storage_class _)), (bind_run _ _ _ _ _ (no_modifiers_here _)).
  change (base_type TYPECTX_Strict _) with (base_type TYPECTX_Strict (mkModState parsedTypeDefault None false false)). unfold bind at 1. rewrite no_base_type.
  destruct (tt_eqb (tok_type t) TOKEN_IDENTIFIER); eexists; by split.
Qed.
End Probe.

(** ** Behind an opening parenthesis *)

Lemma on_clone_still {A} (m : PM A) (s : PState) (o : option A) (p : Parser) :
  m (set_parser (set_suppressErrors true (ps_parser s)) s) = Some (o, set_parser p s) ->
  p_ordinaryScope p = p_ordinaryScope (ps_parser s) -> on_clone m s = Some (Some o, s).
Proof.
  intros H Hp. unfold on_clone. rewrite H. cbn [ps_parser set_parser]. rewrite Hp, decide_False by lia.
  rewrite Nat.sub_diag. cbn [drop]. by destruct s as [[]].
Qed.

(** The first token starts an expression; behind a parenthesis, the second one does. *)
Definition starts (s : PState) (ts : list Token) : Prop :=
  match ts with
  | [] => False
  | t :: r => expression_start s t /\
      (tok_type t = TOKEN_LPAREN -> match r with t2 :: _ => expression_start s t2 | [] => False end)
  end.

Lemma starts_app (s : PState) (ts l : list Token) : starts s ts -> starts s (ts ++ l).
Proof. destruct ts as [|t [|t2 r]]; [done| |done]. intros [H1 H2]. split; [done|]. intros E. by destruct (H2 E). Qed.

Lemma starts_single (s : PState) (t : Token) (r : list Token) :
  isValidExpressionStart (tok_type t) = true -> tok_type t <> TOKEN_LPAREN ->
  (tok_type t = TOKEN_IDENTIFIER -> plain_name s t = true) -> starts s (t :: r).
Proof. by intros H1 H2 H3. Qed.

Lemma derives_starts (names : Token -> bool) (s : PState) (L : Level) (ts : list Token) (e : Expr) :
  (forall t, names t = true -> plain_name s t = true) -> derives names L ts e -> starts s ts.
Proof.
  intros Hn. induction 1 using derives_rule with (P0 := fun _ _ => True); unfold is_type in *; try done;
    try (by apply starts_app).
  - apply starts_single; [by rewrite H|by rewrite H|]. intros _. by apply Hn.
  - apply starts_single; destruct H as [H|H]; by rewrite H.
  - apply starts_single; by rewrite H.
  - destruct l as [|t l]; [done|]. apply Forall_cons in H0 as [H0 _]. apply starts_single; by rewrite H0.
  - split; [split; [by rewrite H|by rewrite H]|]. intros _. destruct ts as [|t r]; [done|]. by destruct IHderives.
  - apply (bool_decide_eq_true_2 _) in H. by apply starts_single; destruct (tok_type o).
  - apply starts_single; by rewrite H.
  - apply starts_single; by rewrite H.
Qed.
