(* ===== verification/ParserComplete.v ===== *)
(** * The Pratt parser is complete for the grammar of expressions (ParserGrammar.v), which
    therefore gives no tokens two trees.

    [enters d m s k e]: from [s] the parser with [d] levels of nesting left, asked for what binds
    tighter than [m], gets over [k] tokens to its loop with a node for [e] on the left. *)
From S2P Require Import Prelude StateError Tokens AST ParsedTypes Semantic ParserState AstBuild ParserAttributes ParserCalls ParserTypes.
From S2P Require Import ParserDeclarators ParserExpr ParserMain ParserGrammar ParserSpec.

(** What binds looser than the operators of a level; what may follow it. *)
Definition floor (L : Level) : Z :=
  match L with LComma => 0 | LAssign | LConditional => 1 | LBinary n => Z.of_nat n | LUnary | LPostfix => 12 end.

Definition cap (L : Level) : Z :=
  match L with LComma | LAssign | LConditional => 0 | LBinary n => Z.of_nat n | LUnary => 11 | LPostfix => 15 end.

(** A name that is called is read with its arguments. *)
Definition follows (L : Level) (ts : list Token) (t : Token) : Prop :=
  tok_type t <> TOKEN_STRING /\ getTokenPrecedence (tok_type t) <= cap L /\
  (tok_type t = TOKEN_LPAREN -> match ts with [i] => tok_type i <> TOKEN_IDENTIFIER | _ => True end).

Lemma follows_operator (L : Level) (ts : list Token) (t : Token) :
  getTokenPrecedence (tok_type t) <= cap L -> tok_type t <> TOKEN_STRING -> tok_type t <> TOKEN_LPAREN -> follows L ts t.
Proof. by intros H1 H2 H3. Qed.

Lemma follows_loose (L L' : Level) (ts ts' : list Token) (t : Token) :
  follows L ts t -> cap L <= cap L' -> cap L < 14 -> follows L' ts' t.
Proof.
  intros (H1 & H2 & _) Hc Hl. split; [done|]. split; [lia|]. intros E. rewrite E in H2. cbn in H2. lia.
Qed.

Lemma cap_tighter (n : nat) : (n <= 10)%nat -> Z.of_nat n <= cap (tighter n) /\ Z.of_nat n < floor (tighter n).
Proof. unfold tighter. intros H. case_decide; cbn; lia. Qed.

Lemma binary_token (type : TokenType) (n : nat) : binary_level type = Some n ->
  (1 <= n <= 10)%nat /\ is_binary_token type = true /\ getTokenPrecedence type = Z.of_nat n /\
  getTokenRightBindingPower type = Z.of_nat n /\ type <> TOKEN_STRING /\ type <> TOKEN_LPAREN.
Proof. destruct type; try discriminate; intros [= <-]; (split; [lia|]); repeat split; discriminate. Qed.

Lemma assignment_token (type : TokenType) : type ∈ assignment_operators ->
  is_binary_token type = false /\ is_assignment_token type = true /\ getTokenPrecedence type = 1 /\
  getTokenRightBindingPower type = 0 /\ type <> TOKEN_STRING /\ type <> TOKEN_LPAREN.
Proof. intros H. apply (bool_decide_eq_true_2 _) in H. destruct type; try discriminate H; by repeat split. Qed.

Section Complete.
Context (n : nat).

Abbreviation at_depth := (parser_calls n).

Lemma depth_fuel (d : nat) : @c_fuel (at_depth d) = n.
Proof. by destruct d. Qed.

(** ** Probes that find no type *)

Lemma probe_no_form (d : nat) (s : PState) (t : Token) (r : list Token) :
  (0 < n)%nat -> at_tokens s (t :: r) -> expression_start s t ->
  @parserProbeParenthesizedTypeForm (at_depth (S d)) s = Some (Some PARENTHESIZED_TYPE_FORM_NONE, s).
Proof.
  intros Hn Ht Hs. destruct (@no_type (at_depth d) (set_parser (set_suppressErrors true (ps_parser s)) s) t r)
    as (type & E & Hi); [by rewrite depth_fuel|done|done|].
  unfold parserProbeParenthesizedTypeForm. erewrite bind_run; [|eapply on_clone_still with (o := Some PARENTHESIZED_TYPE_FORM_NONE) (p := set_suppressErrors true (ps_parser s))];
    [done| |done]. cbn [c_type parser_calls]. rewrite (bind_run _ _ _ _ _ E), Hi. done.
Qed.

Lemma probe_no_operand (d : nat) (closed : bool) (s : PState) (ts rest : list Token) :
  (0 < n)%nat -> at_tokens s (ts ++ rest) -> starts s ts ->
  @probe_type_operand (at_depth (S d)) closed s = Some (Some false, s).
Proof.
  intros Hn Ht Hs. destruct ts as [|t r]; [done|]. destruct Hs as [_ Hp].
  unfold probe_type_operand. rewrite (bind_run _ _ _ _ _ (run_is s t (r ++ rest) _ Ht)).
  destruct (tt_eqb (tok_type t) TOKEN_LPAREN) eqn:E; [|done]. apply tt_eqb_spec in E.
  specialize (Hp E). destruct r as [|t2 r]; [done|]. cbn [negb].
  set (s1 := step (set_parser (set_suppressErrors true (ps_parser s)) s)).
  destruct (@no_type (at_depth d) s1 t2 (r ++ rest)) as (type & Et & Hi); [by rewrite depth_fuel| |done|].
  { by apply (moved_step (set_parser (set_suppressErrors true (ps_parser s)) s) s1 t). }
  erewrite bind_run; [|eapply on_clone_still with (o := None) (p := ps_parser s1)]; [done| |done].
  cbn [c_type parser_calls]. rewrite (bind_run advance _ _ s1 tt) by done. by rewrite (bind_run _ _ _ _ _ Et), Hi.
Qed.
(** ** Reaching the loop *)

Definition led_step (d : nat) (m : Z) (left : ASTNode) : PM (ASTNode + ASTNode) :=
  let* op := current in
  if getTokenPrecedence (tok_type op) <=? m then ret (inr left)
  else
    let* _ := advance in
    let* left := @led (at_depth d) left op in
    ret (inl left).

Definition enters (d : nat) (m : Z) (s : PState) (k : nat) (e : Expr) : Prop :=
  exists left s0 node s' j,
    isValidExpressionStart (tok_type (token_ahead 0 s)) = true /\
    @nud (at_depth d) (token_ahead 0 s) (step s) = Some (Some left, s0) /\
    (forall i, iterate (j + i) (led_step d m) left s0 = iterate i (led_step d m) node s') /\
    (S j <= k)%nat /\ reads e node /\ moved k s s'.

Lemma enters_nud (d : nat) (m : Z) (s : PState) (t : Token) (r : list Token) (k : nat) (e : Expr) :
  at_tokens s (t :: r) -> isValidExpressionStart (tok_type t) = true ->
  (at_tokens (step s) r -> gives (@nud (at_depth d) t) (step s) k (reads e)) -> enters d m s (S k) e.
Proof.
  intros Ht Hv G. destruct (G (moved_step s (step s) t r (moved_one s) Ht)) as (node & s' & H & He & M).
  exists node, s', node, s', 0%nat. rewrite (current_at s t r Ht). do 2 (split; [done|]). split; [done|]. split; [lia|].
  split; [done|]. by apply (moved_trans 1 k s (step s)); [apply moved_one|].
Qed.

Lemma enters_led (d : nat) (m : Z) (s : PState) (ta r : list Token) (o : Token) (k2 k : nat) (a e : Expr) :
  enters d m s (length ta) a -> at_tokens s (ta ++ o :: r) -> m < getTokenPrecedence (tok_type o) ->
  (forall node s2, reads a node -> moved (S (length ta)) s s2 -> at_tokens s2 r ->
    gives (@led (at_depth d) node o) s2 k2 (reads e)) ->
  k = (length ta + S k2)%nat -> enters d m s k e.
Proof.
  intros (left & s0 & node & s1 & j & Hv & Hn & Hj & Hk & Ha & M) Ht Hm G ->.
  pose proof (moved_at _ _ _ _ M Ht) as Ht1. pose proof (moved_step s1 (step s1) o r (moved_one s1) Ht1) as Ht2.
  assert (M2 : moved (S (length ta)) s (step s1)).
  { rewrite <- Nat.add_1_r. by apply (moved_trans _ _ s s1); [|apply moved_one]. }
  destruct (G node (step s1) Ha M2 Ht2) as (node' & s' & Hl & He & M').
  exists left, s0, node', s', (S j). do 2 (split; [done|]). split.
  - intros i. replace (S j + i)%nat with (j + S i)%nat by lia. rewrite Hj. cbn [iterate]. unfold led_step at 1.
    rewrite (bind_run (bind current _) _ s1 s' (inl node')); [done|].
    rewrite (bind_run _ _ _ _ _ (run_current s1 o r Ht1)). rewrite (proj2 (Z.leb_gt _ _)) by lia. rewrite (bind_run advance _ _ (step s1) tt) by done.
    by rewrite (bind_run _ _ _ _ _ Hl).
  - split; [lia|]. split; [done|]. replace (length ta + S k2)%nat with (S (length ta) + k2)%nat by lia.
    by apply (moved_trans _ _ s (step s1)).
Qed.

Lemma enters_done (d : nat) (m : Z) (s : PState) (ts r : list Token) (t : Token) (e : Expr) :
  enters d m s (length ts) e -> at_tokens s (ts ++ t :: r) -> getTokenPrecedence (tok_type t) <= m -> (length ts < n)%nat ->
  gives (@parseExpressionPratt (at_depth d) m) s (length ts) (reads e).
Proof.
  intros (left & s0 & node & s1 & j & Hv & Hn & Hj & Hk & Ha & M) Ht Hm Hl. exists node, s1. split; [|done].
  unfold parseExpressionPratt. rewrite (bind_run current _ s s (token_ahead 0 s)) by done. rewrite Hv. cbn [negb].
  rewrite (bind_run advance _ s (step s) tt) by done. rewrite (bind_run _ _ _ _ _ Hn).
  unfold led_loop. rewrite depth_fuel. change (iterate n (led_step d m) left s0 = Some (Some node, s1)).
  assert (E : n = (j + S (n - j - 1))%nat) by lia. transitivity (iterate (j + S (n - j - 1)) (led_step d m) left s0); [by rewrite <- E|].
  rewrite Hj. cbn [iterate]. unfold led_step at 1. rewrite (bind_run (bind current _) _ s1 s1 (inr node)); [done|].
  rewrite (bind_run _ _ _ _ _ (run_current s1 t r (moved_at _ _ _ _ M Ht))). by rewrite (proj2 (Z.leb_le _ _)).
Qed.
(** ** The cases of the grammar *)

Section Cases.
Context (names : Token -> bool).

Definition sound_names (s : PState) : Prop := forall t, names t = true -> plain_name s t = true.

Lemma sound_moved (k : nat) (s s' : PState) : moved k s s' -> sound_names s -> sound_names s'.
Proof. intros M H t Ht. rewrite (plain_name_moved k s s' t M). by apply H. Qed.

Definition good (L : Level) (ts : list Token) (e : Expr) : Prop :=
  forall d s t r m, at_tokens s (ts ++ t :: r) -> sound_names s -> follows L ts t -> m < floor L ->
    (length ts <= d)%nat -> (length ts < n)%nat -> enters d m s (length ts) e.

(** A nested expression, one level further down. *)
Lemma good_nested (L : Level) (ts r : list Token) (e : Expr) (d : nat) (s : PState) (t : Token) (m : Z) :
  good L ts e -> at_tokens s (ts ++ t :: r) -> sound_names s -> follows L ts t -> m < floor L ->
  getTokenPrecedence (tok_type t) <= m -> (length ts < d)%nat -> (length ts < n)%nat ->
  gives (@c_expression (at_depth d) m) s (length ts) (reads e).
Proof.
  intros G Ht Hs Hf Hm Hp Hd Hl. destruct d as [|d]; [lia|]. cbn [c_expression parser_calls].
  apply (enters_done d m s ts r t); [|done..]. apply (G d s t r); [done..|lia|done].
Qed.

(** Behind a first token [o]. *)
Lemma good_start (o : Token) (ts : list Token) (e' : Expr) (L : Level) :
  isValidExpressionStart (tok_type o) = true ->
  (forall d s t r, at_tokens s (ts ++ t :: r) -> sound_names s -> follows L (o :: ts) t -> (length ts < d)%nat -> (length ts < n)%nat ->
    gives (@nud (at_depth d) o) s (length ts) (reads e')) -> good L (o :: ts) e'.
Proof.
  intros Hv H d s t r m Ht Hs Hf _ Hd Hl. cbn [length] in *. apply (enters_nud d m s o (ts ++ t :: r)); [done..|].
  intros Ht1. apply (H d _ t r Ht1); [|done|lia..]. by apply (sound_moved 1 s).
Qed.

Lemma unary_operand (ts : list Token) (e : Expr) (d : nat) (s : PState) (t : Token) (r : list Token) (o : Token) :
  good LUnary ts e -> at_tokens s (ts ++ t :: r) -> sound_names s -> follows LUnary (o :: ts) t -> (length ts < d)%nat ->
  (length ts < n)%nat -> gives (@c_expression (at_depth d) 11) s (length ts) (reads e).
Proof.
  intros G Ht Hs Hf Hd Hl. apply (good_nested LUnary ts r e d s t 11); try done.
  - by apply (follows_loose LUnary LUnary (o :: ts) ts t Hf).
  - by destruct Hf as (_ & Hf & _).
Qed.

Lemma good_prefix_operator (o : Token) (ts : list Token) (e : Expr) :
  tok_type o ∈ prefix_operators -> good LUnary ts e -> good LUnary (o :: ts) (EPrefix (op_text o) e).
Proof.
  intros Ho G. apply (bool_decide_eq_true_2 _) in Ho. apply good_start; [by destruct (tok_type o)|].
  intros d s t r Ht Hs Hf Hd Hl.
  assert (@nud (at_depth d) o = @prefix_expression (at_depth d) o) as -> by (unfold nud; by destruct (tok_type o)).
  eapply gives_bind; [eapply gives_attempt, (unary_operand ts e d s t r o); done| |by rewrite Nat.add_0_r].
  intros ? s1 (x & -> & Hx) _. apply gives_placed. unfold reads in Hx. rewrite <- Hx.
  by apply gives_make; intros ?; apply inherit_node_body.
Qed.

Lemma good_sizeof (o : Token) (ts : list Token) (e : Expr) :
  is_type TOKEN_SIZEOF o -> (forall s, sound_names s -> starts s ts) -> good LUnary ts e -> good LUnary (o :: ts) (ESizeof e).
Proof.
  intros Ho Hst G. apply good_start; [by rewrite Ho|]. intros d s t r Ht Hs Hf Hd Hl. unfold nud. rewrite Ho.
  unfold parseSizeofExpressionPratt. destruct d as [|d]; [lia|].
  eapply gives_run; [apply (probe_no_operand d false s ts (t :: r)); [lia|done|by apply Hst]|].
  eapply gives_bind; [eapply gives_or_error, (unary_operand ts e (S d) s t r o); done| |by rewrite Nat.add_0_r].
  intros x s1 Hx _. apply gives_placed. rewrite <- Hx. by apply gives_make; intros ?; apply inherit_node_body.
Qed.

Lemma good_alignof (o : Token) (ts : list Token) (e : Expr) :
  is_type TOKEN_ALIGNOF o -> (forall s, sound_names s -> starts s ts) -> good LUnary ts e -> good LUnary (o :: ts) (EAlignof e).
Proof.
  intros Ho Hst G. apply good_start; [by rewrite Ho|]. intros d s t r Ht Hs Hf Hd Hl. unfold nud. rewrite Ho.
  unfold parseAlignofExpressionPratt. destruct d as [|d]; [lia|].
  eapply gives_run; [apply (probe_no_operand d true s ts (t :: r)); [lia|done|by apply Hst]|].
  eapply gives_bind; [eapply gives_or_error, (unary_operand ts e (S d) s t r o); done| |by rewrite Nat.add_0_r].
  intros x s1 Hx _. apply gives_placed. rewrite <- Hx. by apply gives_make; intros ?; apply inherit_node_body.
Qed.

(** *** Primary expressions *)

Lemma good_literal (t : Token) (body : ASTBody ASTNode) :
  isValidExpressionStart (tok_type t) = true ->
  (forall d, @nud (at_depth d) t = (let* x := new_node body in ret (astNodeSetProvenance t x))) ->
  good LPostfix [t] (expr_of (plain_node 0 body)).
Proof.
  intros Hv Hn. apply good_start; [done|]. intros d s t' r Ht Hs Hf Hd Hl. rewrite Hn. apply gives_placed, gives_new.
Qed.

Lemma good_name (t : Token) : is_type TOKEN_IDENTIFIER t -> names t = true -> good LPostfix [t] (EName (tok_value t)).
Proof.
  intros Ho Hn. apply good_start; [by rewrite Ho|]. intros d s t' r Ht Hs (_ & _ & Hf) Hd Hl. unfold nud. rewrite Ho.
  assert (value_is t "__extension__" = false) as ->.
  { specialize (Hs t Hn). unfold plain_name in Hs. unfold value_is. apply bool_decide_eq_false. intros E. by rewrite E in Hs. }
  eapply gives_bind; [apply gives_new| |by instantiate (1 := 0%nat)]. intros x s1 Hx M.
  eapply gives_is; [by apply (moved_still s)|].
  destruct (tt_eqb (tok_type t') TOKEN_LPAREN) eqn:E.
  - apply tt_eqb_spec in E. by destruct (Hf E).
  - apply gives_ret. by apply reads_provenance.
Qed.

Lemma strings_loop (ts : list Token) (p : StringPieces) (t : Token) (r : list Token) (s : PState) (i : nat) :
  Forall (is_type TOKEN_STRING) ts -> at_tokens s (ts ++ t :: r) -> tok_type t <> TOKEN_STRING -> (length ts < i)%nat ->
  gives (iterate i (fun p =>
    let* next := current in
    if tt_eqb (tok_type next) TOKEN_STRING then let* _ := advance in ret (inl (add_piece p (tok_value next)))
    else ret (inr p)) p) s (length ts) (fun p' => p' = foldl (fun p t => add_piece p (tok_value t)) p ts).
Proof.
  intros Hall Ht Hn. revert p s i Hall Ht. induction ts as [|a ts IH]; intros p s i Hall Ht Hi; (destruct i as [|i]; [cbn in Hi; lia|]);
    cbn [iterate].
  - exists p, s. split; [|by split; [|apply moved_refl]]. rewrite (bind_run _ _ s s (inr p)); [done|].
    rewrite (bind_run _ _ _ _ _ (run_current s t r Ht)). destruct (tt_eqb (tok_type t) TOKEN_STRING) eqn:E; [|done].
    by apply tt_eqb_spec in E.
  - apply Forall_cons in Hall as [Ha Hall]. cbn [app] in Ht.
    eapply gives_mono; [eapply gives_bind with (i := 1%nat) (P := fun r => r = inl (add_piece p (tok_value a)))| |]; [| |done| |].
    + exists (inl (add_piece p (tok_value a))), (step s). split; [|done].
      rewrite (bind_run _ _ _ _ _ (run_current s a _ Ht)). unfold is_type in Ha. by rewrite Ha.
    + intros ? s1 -> M. apply (IH (add_piece p (tok_value a)) s1 i Hall); [by apply (moved_step s s1 a)|cbn in Hi; lia].
    + done.
    + done.
Qed.

Lemma good_strings (ts : list Token) :
  ts <> [] -> Forall (is_type TOKEN_STRING) ts -> good LPostfix ts (EString (Some (merged_strings ts))).
Proof.
  intros Hne Hall. destruct ts as [|a ts]; [done|]. apply Forall_cons in Hall as [Ha Hall].
  apply good_start; [by rewrite Ha|]. intros d s t r Ht Hs (Hf & _) Hd Hl. unfold nud. rewrite Ha. unfold string_literal.
  eapply gives_bind; [apply (strings_loop ts _ t r); [done..|rewrite depth_fuel; lia]| |by rewrite Nat.add_0_r].
  intros p s1 -> _. apply gives_placed, gives_new.
Qed.

Lemma good_group (o c : Token) (ts : list Token) (e : Expr) :
  is_type TOKEN_LPAREN o -> is_type TOKEN_RPAREN c -> (forall s, sound_names s -> starts s ts) -> good LComma ts e ->
  good LPostfix (o :: ts ++ [c]) e.
Proof.
  intros Ho Hc Hst G. apply good_start; [by rewrite Ho|]. intros d s t r Ht Hs _ Hd Hl. rewrite <- app_assoc in Ht. cbn [app] in Ht.
  rewrite length_app in *. cbn [length] in *. unfold nud. rewrite Ho. destruct d as [|d]; [lia|].
  destruct ts as [|t1 ts'] eqn:Ets; [by destruct (Hst s Hs)|]. destruct (Hst s Hs) as [Hst1 _].
  eapply gives_run; [eapply (probe_no_form d s t1); [lia|exact Ht|done]|]. unfold group. apply gives_get.
  unfold at_type. rewrite (current_at s t1 _ Ht).
  replace (tt_eqb (tok_type t1) TOKEN_LBRACE) with false by (destruct Hst1 as [Hv _]; by destruct (tok_type t1)).
  eapply gives_bind; [eapply gives_attempt, (good_nested LComma (t1 :: ts') (t :: r) e (S d) s c); try done|..].
  - by apply follows_operator; rewrite Hc.
  - by rewrite Hc.
  - cbn [length] in *. lia.
  - cbn [length] in *. lia.
  - intros ? s1 (x & -> & Hx) M. rewrite <- Hc. eapply gives_bind; [eapply gives_expect, (moved_at s s1 (t1 :: ts')); done| |done].
    intros _ s2 _ _. by apply gives_ret.
  - lia.
Qed.
(** *** Operators behind an operand *)

Lemma good_led (L La : Level) (ta tb : list Token) (o : Token) (a e : Expr) :
  good La ta a -> follows La ta o -> (forall m, m < floor L -> m < floor La /\ m < getTokenPrecedence (tok_type o)) ->
  (forall d s node t r, reads a node -> at_tokens s (tb ++ t :: r) -> sound_names s -> follows L (ta ++ o :: tb) t ->
    (length tb < d)%nat -> (length tb < n)%nat -> gives (@led (at_depth d) node o) s (length tb) (reads e)) ->
  good L (ta ++ o :: tb) e.
Proof.
  intros G Hfa Hm H d s t r m Ht Hs Hf Hl Hd Hn. rewrite length_app in *. cbn [length] in *. rewrite <- app_assoc in Ht. cbn [app] in Ht.
  destruct (Hm m Hl) as [Hma Hmo].
  apply (enters_led d m s ta (tb ++ t :: r) o (length tb) _ a); [|done|done| |lia].
  - apply (G d s o (tb ++ t :: r)); [done..|lia|lia].
  - intros node s2 Hx M Ht2. apply (H d s2 node t r Hx Ht2); [by apply (sound_moved _ _ _ M)|done|lia|lia].
Qed.

(** Both sides of the looser levels are read at 0 or below. *)
Lemma follows_closing (L : Level) (ts : list Token) (t : Token) (m : Z) :
  -1 <= m -> 0 <= cap L -> tok_type t ∈ [TOKEN_RPAREN; TOKEN_RBRACKET; TOKEN_COLON] ->
  follows L ts t /\ getTokenPrecedence (tok_type t) <= m.
Proof.
  intros Hm Hc H. apply (bool_decide_eq_true_2 _) in H.
  assert (getTokenPrecedence (tok_type t) = -1 /\ tok_type t <> TOKEN_STRING /\ tok_type t <> TOKEN_LPAREN) as (Hp & H1 & H2)
    by (destruct (tok_type t); try discriminate H; done).
  split; [|lia]. apply follows_operator; [lia|done|done].
Qed.

Lemma good_index (o c : Token) (ta tb : list Token) (a b : Expr) :
  is_type TOKEN_LBRACKET o -> is_type TOKEN_RBRACKET c -> good LPostfix ta a -> good LAssign tb b ->
  good LPostfix (ta ++ o :: tb ++ [c]) (EIndex a b).
Proof.
  unfold is_type in *.
  intros Ho Hc Ga Gb. apply (good_led LPostfix LPostfix ta (tb ++ [c]) o a); [done| | |].
  - by apply follows_operator; rewrite Ho.
  - rewrite Ho. cbn. lia.
  - intros d s node t r Hx Ht Hs _ Hd Hn. rewrite <- app_assoc in Ht. cbn [app] in Ht. rewrite length_app in *. cbn [length] in *.
    destruct (follows_closing LAssign tb c 0) as [Hf Hp]; [done|done|rewrite Hc; set_solver|].
    assert (@led (at_depth d) node o = @subscript (at_depth d) node) as -> by (unfold led; by rewrite Ho). unfold subscript.
    eapply gives_bind; [eapply gives_attempt, (good_nested LAssign tb (t :: r) b d s c 0); try done; lia| |done].
    intros ? s1 (x & -> & Hi) M. pose proof (moved_at _ _ _ _ M Ht) as Ht1.
    eapply gives_is; [exact Ht1|]. rewrite Hc. cbn [tt_eqb].
    change (tt_eqb TOKEN_RBRACKET TOKEN_RBRACKET) with true. cbn beta iota.
    eapply gives_bind; [apply gives_advance| |done]. intros _ s2 _ _. rewrite <- Hx, <- Hi.
    by apply gives_make; intros ?; apply inherit_pair_body.
Qed.

Lemma good_member (o i : Token) (ta : list Token) (a : Expr) :
  is_type TOKEN_DOT o \/ is_type TOKEN_ARROW o -> is_type TOKEN_IDENTIFIER i -> good LPostfix ta a ->
  good LPostfix (ta ++ [o; i]) (if tt_eqb (tok_type o) TOKEN_ARROW then EArrow a (tok_value i) else EDot a (tok_value i)).
Proof.
  unfold is_type in *.
  intros Ho Hi Ga. apply (good_led LPostfix LPostfix ta [i] o a); [done| | |].
  - by apply follows_operator; destruct Ho as [-> | ->].
  - destruct Ho as [-> | ->]; cbn; lia.
  - intros d s node t r Hx Ht Hs _ Hd Hn. cbn [app length] in *.
    assert (@led (at_depth d) node o = member (tok_type o) node) as -> by (unfold led; by destruct Ho as [-> | ->]).
    unfold member. eapply gives_current; [exact Ht|]. rewrite Hi. eapply gives_bind; [apply gives_advance| |done].
    intros _ s2 _ _. unfold reads in Hx. subst a. unfold createMemberAccessNode.
    eapply gives_mono; [apply gives_make; intros ?; apply inherit_node_body|done|]. unfold reads. intros x ->.
    by destruct (tt_eqb (tok_type o) TOKEN_ARROW).
Qed.

Lemma good_increment (o : Token) (ta : list Token) (a : Expr) :
  is_type TOKEN_INCREMENT o \/ is_type TOKEN_DECREMENT o -> good LPostfix ta a -> good LPostfix (ta ++ [o]) (EPostfix (op_text o) a).
Proof.
  unfold is_type in *.
  intros Ho Ga. apply (good_led LPostfix LPostfix ta [] o a); [done| | |].
  - by apply follows_operator; destruct Ho as [-> | ->].
  - destruct Ho as [-> | ->]; cbn; lia.
  - intros d s node t r Hx Ht Hs _ Hd Hn.
    assert (@led (at_depth d) node o = createUnaryExprNode (getOperatorString (tok_type o)) (Some node) true) as ->
      by (unfold led; by destruct Ho as [-> | ->]).
    rewrite <- Hx. by apply gives_make; intros ?; apply inherit_node_body.
Qed.

Lemma good_binary (k : nat) (o : Token) (ta tb : list Token) (a b : Expr) :
  binary_level (tok_type o) = Some k -> good (LBinary k) ta a -> good (tighter k) tb b ->
  good (LBinary k) (ta ++ o :: tb) (EBinary (op_text o) a b).
Proof.
  intros Ho Ga Gb. destruct (binary_token _ _ Ho) as (Hk & Hb & Hp & Hr & Hs1 & Hs2).
  destruct (cap_tighter k) as [Hc Hfl]; [lia|].
  apply (good_led (LBinary k) (LBinary k) ta tb o a); [done| | |].
  - apply follows_operator; [by rewrite Hp|done|done].
  - rewrite Hp. cbn. lia.
  - intros d s node t r Hx Ht Hs Hf Hd Hn. unfold led. rewrite Hb, Hr.
    eapply gives_bind; [eapply gives_attempt, (good_nested (tighter k) tb r b d s t (Z.of_nat k)); try done| |by rewrite Nat.add_0_r].
    + apply (follows_loose (LBinary k) (tighter k) _ tb t Hf); cbn; lia.
    + by destruct Hf as (_ & Hf & _).
    + intros ? s1 (x & -> & Hi) _. rewrite <- Hx, <- Hi. by apply gives_make; intros ?; apply inherit_pair_body.
Qed.

Lemma good_assign (o : Token) (ta tb : list Token) (a b : Expr) :
  tok_type o ∈ assignment_operators -> good LUnary ta a -> good LAssign tb b ->
  good LAssign (ta ++ o :: tb) (EAssign (op_text o) a b).
Proof.
  intros Ho Ga Gb. destruct (assignment_token _ Ho) as (Hb & Has & Hp & Hr & Hs1 & Hs2).
  apply (good_led LAssign LUnary ta tb o a); [done| | |].
  - apply follows_operator; [by rewrite Hp|done|done].
  - rewrite Hp. cbn. lia.
  - intros d s node t r Hx Ht Hs Hf Hd Hn. unfold led. rewrite Hb, Has, Hr.
    eapply gives_bind; [eapply gives_attempt, (good_nested LAssign tb r b d s t 0); try done| |by rewrite Nat.add_0_r].
    + apply (follows_loose LAssign LAssign _ tb t Hf); cbn; lia.
    + by destruct Hf as (_ & Hf & _).
    + intros ? s1 (x & -> & Hi) _. rewrite <- Hx, <- Hi. by apply gives_make; intros ?; apply inherit_pair_body.
Qed.

Lemma gives_comma_node (l r : ASTNode) (a b : Expr) (s : PState) :
  reads a l -> reads b r -> gives (comma_node l r) s 0 (reads (add_item a b)).
Proof.
  intros <- <-. unfold comma_node.
  assert (Hnew : (forall x, expr_of l <> EComma x) -> gives (createCommaExprNode [Some l; Some r]) s 0 (reads (add_item (expr_of l) (expr_of r)))).
  { intros Hx. eapply gives_mono; [apply gives_make; intros ?; apply inherit_array_body|done|]. unfold reads. intros x ->. cbn. unfold add_item.
    destruct (expr_of l); try done. exfalso. by eapply Hx. }
  destruct l as [lid line l1 l2 l3 attrs body]. cbn [an_body].
  destruct body; try (apply Hnew; intros x; cbn; try done; by destruct isPostfix).
  eexists _, _. split; [done|]. split; [unfold reads; cbn; by rewrite map_app|].
  destruct (stored_node s lid) eqn:E; cbn [an_id set_body]; rewrite ?E; [split; [|done]; by destruct s as [[]]|apply moved_refl].
Qed.

Lemma good_comma (o : Token) (ta tb : list Token) (a b : Expr) :
  is_type TOKEN_COMMA o -> good LComma ta a -> good LAssign tb b -> good LComma (ta ++ o :: tb) (add_item a b).
Proof.
  unfold is_type in *.
  intros Ho Ga Gb. apply (good_led LComma LComma ta tb o a); [done| | |].
  - by apply follows_operator; rewrite Ho.
  - rewrite Ho. cbn. lia.
  - intros d s node t r Hx Ht Hs Hf Hd Hn. 
    assert (@led (at_depth d) node o = (let* right := or_error (@c_expression (at_depth d) 0) "Invalid expression after ','" in comma_node node right))
      as -> by (unfold led; by rewrite Ho).
    eapply gives_bind; [eapply gives_or_error, (good_nested LAssign tb r b d s t 0); try done| |by rewrite Nat.add_0_r].
    + apply (follows_loose LComma LAssign _ tb t Hf); cbn; lia.
    + by destruct Hf as (_ & Hf & _).
    + intros x s1 Hi _. by apply gives_comma_node.
Qed.

Lemma good_ternary (q c : Token) (ta tb td : list Token) (a b e : Expr) :
  is_type TOKEN_QUESTION q -> is_type TOKEN_COLON c -> good (LBinary 1) ta a -> good LComma tb b -> good LConditional td e ->
  good LConditional (ta ++ q :: tb ++ c :: td) (ETernary a b e).
Proof.
  unfold is_type in *.
  intros Hq Hc Ga Gb Ge. apply (good_led LConditional (LBinary 1) ta (tb ++ c :: td) q a); [done| | |].
  - by apply follows_operator; rewrite Hq.
  - rewrite Hq. cbn. lia.
  - intros d s node t r Hx Ht Hs Hf Hd Hn. rewrite <- app_assoc in Ht. cbn [app] in Ht. rewrite length_app in *. cbn [length] in *.
    destruct (follows_closing LComma tb c (-1)) as [Hfc Hp]; [done|done|rewrite Hc; set_solver|].
    assert (@led (at_depth d) node q = @ternary (at_depth d) node) as -> by (unfold led; by rewrite Hq). unfold ternary.
    eapply gives_bind; [apply (good_nested LComma tb (td ++ t :: r) b d s c (-1)); try done; lia| |done].
    intros x s1 Hi M. pose proof (moved_at _ _ _ _ M Ht) as Ht1. pose proof (sound_moved _ _ _ M Hs) as Hs1.
    rewrite <- Hc. eapply gives_bind; [by eapply gives_expect| |done]. intros _ s2 _ M2.
    eapply gives_bind; [apply (good_nested LConditional td r e d s2 t 0); try done| |by rewrite Nat.add_0_r].
    + by apply (moved_step s1 s2 c).
    + by apply (sound_moved 1 s1).
    + apply (follows_loose LConditional LConditional _ td t Hf); cbn; lia.
    + by destruct Hf as (_ & Hf & _).
    + lia.
    + lia.
    + intros y s3 Hy _. rewrite <- Hx, <- Hi, <- Hy. apply gives_make. intros ?. by rewrite !inherit_node_body.
Qed.
(** *** Calls *)

Definition child_expr (o : option ASTNode) : Expr := match o with Some x => expr_of x | None => EOther end.

(** The rounds of the two loops over arguments. *)
Definition led_round (d : nat) (args : list (option ASTNode)) : PM (list (option ASTNode) + list (option ASTNode)) :=
  let* arg := @c_expression (at_depth d) 0 in
  let* comma := current_is TOKEN_COMMA in
  if (comma : bool) then let* _ := advance in ret (inl (args ++ [Some arg])) else ret (inr (args ++ [Some arg])).

Definition call_round (d : nat) (args : list (option ASTNode)) : PM (list (option ASTNode) + list (option ASTNode)) :=
  let* arg := @call_argument (at_depth d) false false (length args) in
  let next := args ++ [Some arg] in
  let* comma := current_is TOKEN_COMMA in
  if negb comma then ret (inr next)
  else
    let* _ := advance in
    let* close := current_is TOKEN_RPAREN in
    ret (if (close : bool) then inr next else inl next).

Definition reads_args (acc : list (option ASTNode)) (l : list Expr) (r : list (option ASTNode)) : Prop :=
  map child_expr r = map child_expr acc ++ l.

Definition good_args (ta : list Token) (l : list Expr) : Prop :=
  forall d s c r acc i, at_tokens s (ta ++ c :: r) -> is_type TOKEN_RPAREN c -> sound_names s -> (length ta < d)%nat ->
    (length ta < n)%nat -> (length ta < i)%nat ->
    gives (iterate i (led_round d) acc) s (length ta) (reads_args acc l) /\
    gives (iterate i (call_round d) acc) s (length ta) (reads_args acc l).

(** A round ends with what the other rounds start from. *)
Lemma gives_iterate {A R} (i k : nat) (body : A -> PM (A + R)) (a : A) (s : PState) (P : A -> Prop) (Q : R -> Prop) (l : nat) :
  gives (body a) s k (fun r => exists a', r = inl a' /\ P a') ->
  (forall a' s', P a' -> moved k s s' -> gives (iterate i body a') s' l Q) ->
  gives (iterate (S i) body a) s (k + l) Q.
Proof.
  intros H K. cbn [iterate]. eapply gives_bind; [exact H| |done]. intros ? s1 (a' & -> & Ha) M. by apply K.
Qed.

Lemma gives_iterate_end {A R} (i k : nat) (body : A -> PM (A + R)) (a : A) (s : PState) (Q : R -> Prop) :
  gives (body a) s k (fun r => exists b, r = inr b /\ Q b) -> gives (iterate (S i) body a) s k Q.
Proof.
  intros H. cbn [iterate]. eapply gives_bind; [exact H| |by rewrite Nat.add_0_r]. intros ? s1 (b & -> & Hb) _. by apply gives_ret.
Qed.

Lemma reads_args_snoc (acc : list (option ASTNode)) (x : ASTNode) (e : Expr) (l : list Expr) (r : list (option ASTNode)) :
  reads e x -> reads_args (acc ++ [Some x]) l r -> reads_args acc (e :: l) r.
Proof. unfold reads_args, reads. intros <- ->. rewrite map_app, <- app_assoc. done. Qed.

Lemma good_last (ts : list Token) (e : Expr) : good LAssign ts e -> good_args ts [e].
Proof.
  intros G d s c r acc i Ht Hc Hs Hd Hn Hi. destruct i as [|i]; [lia|].
  destruct (follows_closing LAssign ts c 0) as [Hf Hp]; [done|done|rewrite Hc; set_solver|].
  assert (Hr : forall x, reads e x -> reads_args acc [e] (acc ++ [Some x])).
  { intros x <-. unfold reads_args. by rewrite map_app. }
  pose proof (good_nested LAssign ts r e d s c 0 G Ht Hs Hf eq_refl Hp Hd Hn) as E.
  split; apply gives_iterate_end; (eapply gives_bind; [exact E| |by rewrite Nat.add_0_r]); intros x s1 Hx M;
    (eapply gives_is; [exact (moved_at _ _ _ _ M Ht)|]); rewrite Hc; apply gives_ret; eexists; (split; [done|by apply Hr]).
Qed.

Lemma good_more (o : Token) (ta tb : list Token) (a : Expr) (l : list Expr) :
  is_type TOKEN_COMMA o -> good LAssign ta a -> good_args tb l -> (forall s, sound_names s -> starts s tb) ->
  good_args (ta ++ o :: tb) (a :: l).
Proof.
  intros Ho Ga Gb Hst d s c r acc i Ht Hc Hs Hd Hn Hi. rewrite length_app in *. cbn [length] in *. rewrite <- app_assoc in Ht. cbn [app] in Ht.
  destruct i as [|i]; [lia|].
  assert (Hf : follows LAssign ta o) by (by apply follows_operator; rewrite Ho).
  assert (Hp : getTokenPrecedence (tok_type o) <= 0) by (by rewrite Ho).
  pose proof (good_nested LAssign ta (tb ++ c :: r) a d s o 0 Ga Ht Hs Hf eq_refl Hp ltac:(lia) ltac:(lia)) as E.
  replace (length ta + S (length tb))%nat with (length ta + 1 + length tb)%nat by lia.
  assert (Hrest : forall x s1, reads a x -> moved (length ta + 1) s s1 ->
    gives (iterate i (led_round d) (acc ++ [Some x])) s1 (length tb) (reads_args acc (a :: l)) /\
    gives (iterate i (call_round d) (acc ++ [Some x])) s1 (length tb) (reads_args acc (a :: l))).
  { intros x s1 Hx M. destruct (Gb d s1 c r (acc ++ [Some x]) i) as [G1 G2]; try done; try lia.
    - apply (moved_at s s1 (ta ++ [o])); [by rewrite length_app|by rewrite <- app_assoc].
    - by apply (sound_moved _ s s1 M).
    - split; [eapply gives_mono; [exact G1|done|]|eapply gives_mono; [exact G2|done|]]; intros r'; by apply reads_args_snoc. }
  split; (eapply gives_iterate with (P := fun acc' => exists x, acc' = acc ++ [Some x] /\ reads a x);
    [|intros ? s1 (x & -> & Hx) M; by apply Hrest]).
  - eapply gives_bind; [exact E| |done]. intros x s1 Hx M.
    eapply gives_is; [exact (moved_at _ _ _ _ M Ht)|]. rewrite Ho.
    eapply gives_bind; [apply gives_advance| |done]. intros _ s2 _ _. apply gives_ret. eauto.
  - eapply gives_bind; [exact E| |done]. intros x s1 Hx M. pose proof (moved_at _ _ _ _ M Ht) as Ht1.
    eapply gives_is; [exact Ht1|]. rewrite Ho. cbn [negb tt_eqb].
    eapply gives_bind; [apply gives_advance| |done]. intros _ s2 _ M2. pose proof (moved_step _ _ _ _ M2 Ht1) as Ht2.
    pose proof (Hst s Hs) as Hstart. destruct tb as [|t1 tb]; [done|]. destruct Hstart as [[Hv _] _].
    eapply gives_is; [exact Ht2|]. replace (tt_eqb (tok_type t1) TOKEN_RPAREN) with false by (by destruct (tok_type t1)).
    apply gives_ret. eauto.
Qed.
Definition good_arguments (ta : list Token) (l : list Expr) : Prop :=
  (ta = [] /\ l = []) \/ (good_args ta l /\ forall s, sound_names s -> starts s ta).

(** What both forms of a call do behind the opening parenthesis. *)
Lemma gives_arguments (round : list (option ASTNode) -> PM (list (option ASTNode) + list (option ASTNode))) (callee : ASTNode)
    (ta : list Token) (l : list Expr) (c : Token) (r : list Token) (s : PState) (d : nat) (f : Expr) :
  (good_args ta l -> gives (iterate n round []) s (length ta) (reads_args [] l)) ->
  good_arguments ta l -> reads f callee -> at_tokens s (ta ++ c :: r) -> is_type TOKEN_RPAREN c -> sound_names s ->
  gives (let* empty := current_is TOKEN_RPAREN in
         let* args := (if (empty : bool) then ret [] else iterate n round []) in
         let* _ := expect TOKEN_RPAREN "Expected ')' to close function call" in
         createFunctionCallNode callee args) s (length ta + 1) (reads (ECall f l)).
Proof.
  intros Hloop Ha Hf Ht Hc Hs.
  assert (Hend : forall args s1, reads_args [] l args -> at_tokens s1 (c :: r) ->
    gives (let* _ := expect TOKEN_RPAREN "Expected ')' to close function call" in createFunctionCallNode callee args) s1 1
      (reads (ECall f l))).
  { intros args s1 Hargs Ht1. unfold is_type in Hc. rewrite <- Hc. eapply gives_bind; [by eapply gives_expect| |done].
    intros _ s2 _ _. rewrite <- Hf. unfold reads_args in Hargs. cbn [map app] in Hargs. rewrite <- Hargs.
    apply gives_make. intros ?. by rewrite inherit_array_body, inherit_node_body. }
  destruct Ha as [[-> ->]|[Ha Hst]].
  - eapply gives_is; [exact Ht|]. rewrite Hc. eapply gives_bind; [by apply (gives_ret [] s (reads_args [] []))| |done].
    intros args s1 Hargs M. apply Hend; [done|]. by apply (moved_still s).
  - pose proof (Hst s Hs) as Hstart. destruct ta as [|t1 ta]; [done|]. destruct Hstart as [[Hv _] _].
    eapply gives_is; [exact Ht|]. replace (tt_eqb (tok_type t1) TOKEN_RPAREN) with false by (by destruct (tok_type t1)).
    eapply gives_bind; [by apply Hloop| |done]. intros args s1 Hargs M. apply Hend; [done|]. exact (moved_at _ _ _ _ M Ht).
Qed.

Lemma good_call (o c : Token) (tf ta : list Token) (f : Expr) (l : list Expr) :
  is_type TOKEN_LPAREN o -> is_type TOKEN_RPAREN c -> (match tf with [i] => tok_type i <> TOKEN_IDENTIFIER | _ => True end) ->
  good LPostfix tf f -> good_arguments ta l -> good LPostfix (tf ++ o :: ta ++ [c]) (ECall f l).
Proof.
  intros Ho Hc Hname Gf Ga. unfold is_type in *. apply (good_led LPostfix LPostfix tf (ta ++ [c]) o f); [done| | |].
  - split; [by rewrite Ho|]. split; [by rewrite Ho|done].
  - rewrite Ho. cbn. lia.
  - intros d s node t r Hx Ht Hs _ Hd Hn. rewrite <- app_assoc in Ht. cbn [app] in Ht. rewrite length_app in *. cbn [length] in *.
    assert (@led (at_depth d) node o = @ledFunctionCall (at_depth d) node) as -> by (unfold led; by rewrite Ho).
    unfold ledFunctionCall. rewrite depth_fuel. apply (gives_arguments (led_round d) node ta l c (t :: r) s d f); try done.
    intros G. apply (G d s c (t :: r)); try done; lia.
Qed.

Lemma plain_callee (s : PState) (t : Token) (v : string) :
  plain_name s t = true -> tok_value t = Some v ->
  bool_decide (v ∈ ["__builtin_va_arg"; "va_arg"]%string) = false /\ bool_decide (v ∈ ["__builtin_offsetof"; "offsetof"]%string) = false /\
  value_is t "__extension__" = false.
Proof.
  unfold plain_name, value_is. intros H E. rewrite E in *. rewrite !andb_true_iff, !negb_true_iff in H.
  destruct H as [[[[H _] Hr] _] _]. apply bool_decide_eq_false in Hr.
  split; [|split]; apply bool_decide_eq_false; intros Hv; [set_unfold in Hv..|]; [| |by injection Hv as ->];
    (destruct Hv as [->|[->|[]]]; [done|]); apply Hr; unfold reserved_names; set_solver.
Qed.

Lemma good_named_call (i o c : Token) (ta : list Token) (l : list Expr) :
  is_type TOKEN_IDENTIFIER i -> names i = true -> is_type TOKEN_LPAREN o -> is_type TOKEN_RPAREN c -> good_arguments ta l ->
  good LPostfix (i :: o :: ta ++ [c]) (ECall (EName (tok_value i)) l).
Proof.
  intros Hi Hn Ho Hc Ga. unfold is_type in *. apply good_start; [by rewrite Hi|]. intros d s t r Ht Hs _ Hd Hl.
  cbn [app] in Ht. rewrite <- app_assoc in Ht. cbn [app length] in *. rewrite length_app in *. cbn [length] in *.
  pose proof (Hs i Hn) as Hp. destruct (tok_value i) as [v|] eqn:Ev; [|unfold plain_name in Hp; by rewrite Ev in Hp].
  destruct (plain_callee s i v Hp Ev) as (H1 & H2 & H3). unfold nud. rewrite Hi, H3, Ev.
  eapply gives_bind with (P := fun x => an_body x = AST_IDENTIFIER (Some v)) (i := 0%nat) (j := S (length ta + 1)); [|..|done].
  { eexists _, _. split; [done|]. split; [done|apply moved_node]. }
  intros x s1 Hx M. pose proof (moved_still _ _ _ M Ht) as Ht1. pose proof (sound_moved _ _ _ M Hs) as Hs1.
  eapply gives_is; [exact Ht1|]. rewrite Ho, tt_eqb_refl. unfold parseFunctionCallPratt.
  rewrite <- Ho at 1. eapply gives_bind; [by eapply gives_expect| |done]. intros _ s2 _ M2.
  cbn [an_body astNodeSetProvenance]. rewrite Hx, H1, H2, depth_fuel.
  apply (gives_arguments (call_round d) _ ta l c (t :: r) s2 d); try done.
  - intros G. apply (G d s2 c (t :: r)); try done; try lia; [exact (moved_step _ _ _ _ M2 Ht1)|exact (sound_moved _ _ _ M2 Hs1)].
  - apply reads_provenance. destruct x. cbn in Hx. by subst.
  - exact (moved_step _ _ _ _ M2 Ht1).
  - exact (sound_moved _ _ _ M2 Hs1).
Qed.
(** *** All of them *)

Lemma good_raise (L L' : Level) (ts : list Token) (e : Expr) :
  cap L <= cap L' -> cap L < 14 -> floor L <= floor L' -> good L' ts e -> good L ts e.
Proof.
  intros Hc Hl Hfl G d s t r m Ht Hs Hf Hm Hd Hn. apply (G d s t r); try done; [by apply (follows_loose L L' ts ts)|lia].
Qed.

Lemma derives_nonempty (L : Level) (ts : list Token) (e : Expr) : derives names L ts e -> ts <> [].
Proof. induction 1 using derives_rule with (P0 := fun _ _ => True); try done; intros E;
  (by destruct ta) || (by destruct tf). Qed.

Lemma derives_args_start (s : PState) (ts : list Token) (l : list Expr) :
  sound_names s -> derives_args names ts l -> starts s ts.
Proof.
  intros Hs H. destruct H as [ts e H|o ta tb a l Ho H _]; [|apply starts_app]; by apply (derives_starts names s _ _ _ Hs H).
Qed.

(** A postfix expression of one token that is a name. *)
Lemma derives_single (L : Level) (ts : list Token) (f : Expr) (i : Token) :
  derives names L ts f -> L = LPostfix -> ts = [i] -> tok_type i = TOKEN_IDENTIFIER -> names i = true /\ f = EName (tok_value i).
Proof.
  intros H. destruct H; intros HL E Hi; try discriminate HL; unfold is_type in *;
    try (apply (f_equal length) in E; rewrite ?length_app in E; cbn in E; rewrite ?length_app in E; cbn in E;
         match goal with D : derives _ LPostfix ?l _ |- _ => apply derives_nonempty in D; destruct l; [done|cbn in E; lia] end).
  - by injection E as ->.
  - injection E as ->. destruct H as [H|H]; by rewrite H in Hi.
  - injection E as ->. by rewrite H in Hi.
  - subst. apply Forall_cons in H0 as [H0 _]. by rewrite H0 in Hi.
  - injection E as -> E. by destruct ts.
Qed.
Lemma starts_of (L : Level) (ts : list Token) (e : Expr) : derives names L ts e -> forall s, sound_names s -> starts s ts.
Proof. intros H s Hs. by apply (derives_starts names s L ts e). Qed.

Lemma good_any_call (o c : Token) (tf ta : list Token) (f : Expr) (l : list Expr) :
  is_type TOKEN_LPAREN o -> is_type TOKEN_RPAREN c -> derives names LPostfix tf f -> good LPostfix tf f -> good_arguments ta l ->
  good LPostfix (tf ++ o :: ta ++ [c]) (ECall f l).
Proof.
  intros Ho Hc Hd Gf Ga.
  destruct tf as [|i [|i2 tf]]; [by destruct (derives_nonempty _ _ _ Hd)| |by apply good_call].
  destruct (decide (tok_type i = TOKEN_IDENTIFIER)) as [Hi|Hi]; [|by apply good_call].
  destruct (derives_single _ _ _ i Hd eq_refl eq_refl Hi) as [Hn ->]. by apply good_named_call.
Qed.

Lemma derives_good :
  (forall L ts e, derives names L ts e -> good L ts e) /\ (forall ts l, derives_args names ts l -> good_args ts l).
Proof.
  apply derives_both.
  - intros t Ht Hn. by apply good_name.
  - intros t Ht. apply (good_literal t (AST_NUMBER_LITERAL (tok_value t))); [by destruct Ht as [-> | ->]|].
    intros d. unfold nud. by destruct Ht as [-> | ->].
  - intros t Ht. apply (good_literal t (AST_CHAR_LITERAL (tok_value t))); [by rewrite Ht|].
    intros d. unfold nud. by rewrite Ht.
  - apply good_strings.
  - intros o c ts e Ho Hc H G. apply good_group; [done|done|by apply (starts_of LComma ts e)|done].
  - intros o c ta tb a b Ho Hc _ Ga _ Gb. by apply good_index.
  - intros o c tf f Ho Hc Hf G. apply (good_any_call o c tf [] f []); try done. by left.
  - intros o c tf ta f l Ho Hc Hf G Ha Ga. apply good_any_call; try done. right. split; [done|].
    intros s Hs. by apply (derives_args_start s ta l).
  - intros o i ta a Ho Hi _ G. unfold is_type in Ho. pose proof (good_member o i ta a (or_introl Ho) Hi G) as H. by rewrite Ho in H.
  - intros o i ta a Ho Hi _ G. unfold is_type in Ho. pose proof (good_member o i ta a (or_intror Ho) Hi G) as H. by rewrite Ho in H.
  - intros o ta a Ho _ G. by apply good_increment.
  - intros ts e _ G. by apply (good_raise LUnary LPostfix).
  - intros o ts e Ho _ G. by apply good_prefix_operator.
  - intros o ts e Ho H G. apply good_sizeof; [done|by apply (starts_of LUnary ts e)|done].
  - intros o ts e Ho H G. apply good_alignof; [done|by apply (starts_of LUnary ts e)|done].
  - intros k ts e Hk _ G. destruct (cap_tighter k) as [Hc Hfl]; [lia|]. apply (good_raise (LBinary k) (tighter k)); cbn; try done; lia.
  - intros k o ta tb a b Ho _ Ga _ Gb. by apply good_binary.
  - intros ts e _ G. by apply (good_raise LConditional (LBinary 1)).
  - intros q c ta tb td a b e Hq Hc _ Ga _ Gb _ Gd. by apply good_ternary.
  - intros ts e _ G. by apply (good_raise LAssign LConditional).
  - intros o ta tb a b Ho _ Ga _ Gb. by apply good_assign.
  - intros ts e _ G. by apply (good_raise LComma LAssign).
  - intros o ta tb a b Ho _ Ga _ Gb. by apply good_comma.
  - intros ts e _ G. by apply good_last.
  - intros o ta tb a l Ho _ Ga Hb Gb. apply good_more; try done. intros s Hs. by apply (derives_args_start s tb l).
Qed.
End Cases.
End Complete.

(** A token that ends an expression: it is no operator, and no string. *)
Definition ends_expression (t : Token) : bool :=
  (getTokenPrecedence (tok_type t) =? -1) && negb (tt_eqb (tok_type t) TOKEN_STRING).

Lemma ends_expression_follows (ts : list Token) (t : Token) : ends_expression t = true ->
  follows LComma ts t /\ getTokenPrecedence (tok_type t) = -1.
Proof.
  unfold ends_expression. rewrite andb_true_iff, Z.eqb_eq, negb_true_iff. intros [H1 H2]. split; [|done].
  apply follows_operator; [cbn; lia| |]; intros E; rewrite E in *; done.
Qed.

(** The parser on the tokens of an expression. *)
Lemma parse_derivation (n d : nat) (s : PState) (ts r : list Token) (t : Token) (e : Expr) :
  derives (plain_name s) LComma ts e -> at_tokens s (ts ++ t :: r) -> ends_expression t = true -> (length ts <= d)%nat ->
  (length ts < n)%nat -> gives (@parseExpressionPratt (parser_calls n d) (-1)) s (length ts) (reads e).
Proof.
  intros H Ht Hend Hd Hn. destruct (ends_expression_follows ts t Hend) as [Hf Hp].
  apply (enters_done n d (-1) s ts r t); [|done|by rewrite Hp|done].
  apply (proj1 (derives_good n (plain_name s)) LComma ts e H d s t r (-1)); try done. by intros x Hx.
Qed.

(** ** The theorems *)

(** C11: the Pratt parser reads the expressions of the grammar of [derives]: C expressions without
    type names (casts, compound literals, [sizeof] and [alignof] of types), statement expressions
    and commas in subscripts, whose names are no types and none the parser has another meaning for
    ([plain_name]).  Standing on the tokens of one, followed by a token that ends it, with room for
    them in its loops and its nesting, it returns a node for the expression's tree, stops behind its
    last token, and reports nothing. *)
Theorem parse_expression_complete (n d : nat) (s : PState) (ts r : list Token) (t : Token) (e : Expr) :
  derives (plain_name s) LComma ts e -> at_tokens s (ts ++ t :: r) -> ends_expression t = true ->
  (length ts <= d)%nat -> (length ts < n)%nat ->
  exists node s', @parseExpressionPratt (parser_calls n d) (-1) s = Some (Some node, s') /\ expr_of node = e /\
    moved (length ts) s s'.
Proof. apply parse_derivation. Qed.
