(* ===== verification/ParserSamples.v ===== *)
(** * The parser on C sources: what it makes of them, and where it is wrong.

    [parsed] lexes a source and parses it; [outline] writes a tree as nested lists. *)
From S2P Require Import Prelude StateError Tokens Lexer AST ParsedTypes Semantic UnitsTables ParserState AstBuild ParserAttributes ParserCalls ParserTypes.
From S2P Require Import ParserExpr ParserMain ParserGrammar ParserSpec ParserComplete.

Definition lexed (source : string) : TokenBuffer :=
  match lex (list_ascii_of_string source) (Some "t.c"%string) with Some (_, l, _) => mkTokenBuffer l 64 | None => token_buffer_init end.

Definition new_state (b : TokenBuffer) (preserve : bool) : PState :=
  mkPState (initParser b preserve None) CC_DIALECT_C11 false false false seeded_typedefs
    (mkExtState (mkSemState ∅ ∅ [] [] [] None []) false false [] [] [] [] [] [] []) [] 1%nat.

Definition text (o : option string) : string := default "?"%string o.

Definition type_text (t : ParsedType) : string :=
  let base := match pt_userTypeName t with Some n => n | None => getTokenTypeName (pt_primitiveType t) end in
  fold_left (fun s d => match d with
     | TYPE_DERIVATION_POINTER _ => s +:+ "*" | TYPE_DERIVATION_ARRAY a => s +:+ "[" +:+ int_text (constantSize a) +:+ "]"
     | TYPE_DERIVATION_FUNCTION f => s +:+ "()" end) (pt_derivations t) ((if isUnsigned (pt_modifiers t) then "unsigned " else "") +:+ base).

Fixpoint outline (n : ASTNode) : string :=
  let 'mkASTNode _ _ _ _ _ _ body := n in
  let o (x : option ASTNode) := match x with Some n => outline n | None => "_"%string end in
  let l (x : list (option ASTNode)) := String.concat " " (map (fun x => match x with Some n => outline n | None => "_"%string end) x) in
  let i (x : list (option (DesignatedInit ASTNode))) :=
    String.concat " " (map (fun x => match x with Some (mkDesignatedInit f ix e _) => 
      (match f with Some f => "." +:+ f +:+ ":" | None => "" end) +:+ (match ix with Some n => "[" +:+ outline n +:+ "]:" | None => "" end) +:+ match e with Some n => outline n | None => "_" end
     | None => "_"%string end) x) in
  match body with
  | AST_PROGRAM x => "(program " +:+ l x +:+ ")"
  | AST_BLOCK x => "{" +:+ l x +:+ "}"
  | AST_IDENTIFIER v | AST_NUMBER_LITERAL v | AST_CHAR_LITERAL v => text v
  | AST_STRING_LITERAL v => "'" +:+ text v +:+ "'"
  | AST_BINARY_EXPRESSION op a b => "(" +:+ text op +:+ " " +:+ o a +:+ " " +:+ o b +:+ ")"
  | AST_ASSIGNMENT a op b => "(" +:+ text op +:+ " " +:+ o a +:+ " " +:+ o b +:+ ")"
  | AST_UNARY_EXPRESSION op a p => if p then "(post" +:+ text op +:+ " " +:+ o a +:+ ")" else "(" +:+ text op +:+ " " +:+ o a +:+ ")"
  | AST_COMMA_EXPRESSION x => "(, " +:+ l x +:+ ")"
  | AST_TERNARY_EXPRESSION a b c => "(? " +:+ o a +:+ " " +:+ o b +:+ " " +:+ o c +:+ ")"
  | AST_FUNCTION_CALL a x => "(call " +:+ o a +:+ " " +:+ l x +:+ ")"
  | AST_ARRAY_ACCESS a b => "([] " +:+ o a +:+ " " +:+ o b +:+ ")"
  | AST_DOT_ACCESS a f => "(. " +:+ o a +:+ " " +:+ text f +:+ ")"
  | AST_POINTER_ACCESS a f => "(-> " +:+ o a +:+ " " +:+ text f +:+ ")"
  | AST_CAST_EXPRESSION t a => "(cast " +:+ type_text t +:+ " " +:+ o a +:+ ")"
  | AST_PARSED_TYPE t => "<" +:+ type_text t +:+ ">"
  | AST_SIZEOF a => "(sizeof " +:+ o a +:+ ")"
  | AST_ALIGNOF a => "(alignof " +:+ o a +:+ ")"
  | AST_COMPOUND_LITERAL t e _ => "(lit " +:+ type_text t +:+ " " +:+ i e +:+ ")"
  | AST_RETURN a => "(return " +:+ o a +:+ ")"
  | AST_BREAK => "break" | AST_CONTINUE => "continue"
  | AST_GOTO_STATEMENT v => "(goto " +:+ text v +:+ ")"
  | AST_LABEL_DECLARATION v a => "(label " +:+ text v +:+ " " +:+ o a +:+ ")"
  | AST_IF_STATEMENT a b c => "(if " +:+ o a +:+ " " +:+ o b +:+ " " +:+ o c +:+ ")"
  | AST_WHILE_LOOP a b d => "(while " +:+ o a +:+ " " +:+ o b +:+ ")"
  | AST_FOR_LOOP a b c d => "(for " +:+ o a +:+ " " +:+ o b +:+ " " +:+ o c +:+ " " +:+ o d +:+ ")"
  | AST_SWITCH a x => "(switch " +:+ o a +:+ " " +:+ l x +:+ ")"
  | AST_CASE a x _ => "(case " +:+ o a +:+ " " +:+ l x +:+ ")"
  | AST_VARIABLE_DECLARATION (mkVarDecl t ts ns inits w) => "(var " +:+ String.concat "," (map type_text (default [] ts)) +:+ " " +:+ l ns +:+ " = " +:+ i inits +:+ ")"
  | AST_FUNCTION_DEFINITION t a p b _ _ => "(fun " +:+ type_text t +:+ " " +:+ o a +:+ " (" +:+ l p +:+ ") " +:+ o b +:+ ")"
  | AST_FUNCTION_DECLARATION t a p _ _ => "(proto " +:+ type_text t +:+ " " +:+ o a +:+ " (" +:+ l p +:+ "))"
  | AST_TYPEDEF t a => "(typedef " +:+ type_text t +:+ " " +:+ o a +:+ ")"
  | AST_STRUCT_DEFINITION a x _ => "(struct " +:+ o a +:+ " " +:+ l x +:+ ")"
  | AST_UNION_DEFINITION a x _ => "(union " +:+ o a +:+ " " +:+ l x +:+ ")"
  | AST_ENUM_DEFINITION a x v => "(enum " +:+ o a +:+ " " +:+ l x +:+ ")"
  | AST_STATEMENT_EXPRESSION a => "(stmtexpr " +:+ o a +:+ ")"
  | AST_STATIC_ASSERT a b => "(assert " +:+ o a +:+ ")"
  | AST_ASM _ => "asm"
  | AST_INCLUDE_DIRECTIVE path _ => "(include " +:+ text path +:+ ")"
  | AST_DEFINE_DIRECTIVE name value => "(define " +:+ text name +:+ " " +:+ text value +:+ ")"
  | _ => "#"
  end%string.

(** The outline, the messages of the diagnostics, and the number of tokens passed; [None]: there
    is no result. *)
Definition parsed (preserve : bool) (source : string) : option (string * list string) :=
  match parse 300 40 (new_state (lexed source) preserve) with
  | None => None
  | Some (r, s) => Some (match r with Some n => outline n | None => "NULL"%string end, map pd_message (ps_diagnostics s))
  end.

#[local] Open Scope string_scope.

Definition NEWLINE : string := String (ascii_of_N 10) "".

(** ** What it reads *)

Example precedences : parsed false "int x = a + b * c - d << 1 < e == f & g ^ h | i && j || k ? l : m = n, y;" =
  Some ("(program (var int,int x y = (? (|| (&& (| (^ (& (== (< (<< (- (+ a (* b c)) d) 1) e) f) g) h) i) j) k) l (= m n)) _))", []).
Proof. by vm_compute. Qed.

Example declarators : parsed false "int (*fp)(int, char); int *arr[3]; int (*pa)[4]; int (*g(int x))(int) { return 0; }" =
  Some ("(program (var int*() fp = _) (var int[3]* arr = _) (var int*[4] pa = _) (fun int*() g ((var int x = _)) {(return 0)}))", []).
Proof. by vm_compute. Qed.

Example statements : parsed false
  "void f(void) { for (int i = 0, j = 1; i < 3; i++) { switch (i) { case 1: case 2: x = y = 3; break; default: if (a) b; else if (c) d; } } do x++; while (x < 3); L: goto L; }" =
  Some ("(program (fun void f ((var void __unnamed_param0 = _)) {(for (var int,int i j = 0 1) (< i 3) (post++ i) {(switch i (case 1 ) (case 2 (= x (= y 3)) break) (case _ (if a b (if c d _))))}) (while (< x 3) (post++ x)) (label L (goto L))}))", []).
Proof. by vm_compute. Qed.

(** A typedef name is a type, until it is declared as something else. *)
Example hidden_typedef : parsed false "typedef int T; void f(void) { x = (T) (1); { int T; T = 2; x = (T) + 1; } }" =
  Some ("(program (typedef int T) (fun void f ((var void __unnamed_param0 = _)) {(= x (cast T 1)) {(var int T = _) (= T 2) (= x (+ T 1))}}))", []).
Proof. by vm_compute. Qed.

(** ** What it reads wrong *)

(** The comma operator behind [return]: the first operand is returned. *)
Example return_of_comma : parsed false "int f(void) { return a, b; }" =
  Some ("(program (fun int f ((var void __unnamed_param0 = _)) {{(return a) (return b)}}))", []).
Proof. by vm_compute. Qed.

(** Errors that give no diagnostic: the statement is lost, or a part of it stays. *)
Example silent_errors : parsed false "void f(void) { return 1 2; if (x y) z = 1; w = 2; }" =
  Some ("(program (fun void f ((var void __unnamed_param0 = _)) {2 (= w 2)}))", []).
Proof. by vm_compute. Qed.

(** A structure that is defined and used at file scope. *)
Example struct_with_declarator : parsed false "struct P { int x; } p;" =
  Some ("(program p)", ["expected 'Expected ';' after struct definition', got 'p' (type 43)"]).
Proof. by vm_compute. Qed.

(** Behind a forward declaration: an assertion is skipped, and the end of the block is an error. *)
Example assertion_lost : parsed false "struct S; _Static_assert(0); int x;" = Some ("(program (var int x = _))", []).
Proof. by vm_compute. Qed.

Example forward_declaration_last : parsed false "void f(void) { struct S; }" =
  Some ("(program (fun void f ((var void __unnamed_param0 = _)) {}))",
        ["expected 'Unexpected token at start of expression', got '}' (type 105)"]).
Proof. by vm_compute. Qed.

Example storage_class_after_qualifier : parsed false "const static int x;" =
  Some ("(program (var int x = _))", ["expected 'Expected type name', got 'static' (type 27)";
                       "expected 'Invalid type in declaration', got 'static' (type 27)"]).
Proof. by vm_compute. Qed.

(** Sizes are read in base ten, up to the first other character. *)
Example array_sizes : parsed false "int a[0x10]; int b[010];" = Some ("(program (var int[0] a = _) (var int[10] b = _))", []).
Proof. by vm_compute. Qed.

(** An array whose elements have a named type is read like a structure. *)
Example initializer_of_named : parsed false "typedef int T; T b[4] = { 1, [3] = 4 };" =
  Some ("(program (typedef int T) {})",
        ["expected 'Unexpected token at start of expression', got '[' (type 106)";
         "expected 'Invalid expression in struct initializer', got '[' (type 106)";
         "expected 'Unexpected token at start of expression', got '}' (type 105)"]).
Proof. by vm_compute. Qed.

(** A label without a statement reads an array that was never written. *)
Example empty_default : parsed false "void f(void) { switch (x) { default: case 1: y; } }" = None.
Proof. by vm_compute. Qed.

(** The first token of a preserved macro's value is left out. *)
Example preserved_define : parsed true ("#define N 10 + 2" +:+ NEWLINE +:+ "int x;") =
  Some ("(program (define N + 2) (var int x = _))", []).
Proof. by vm_compute. Qed.

Example comma_in_subscript : parsed false "int y = a[i, j];" =
  Some ("(program )",
        ["expected 'Expected ']' after subscript expression', got ',' (type 96)";
         "expected 'Invalid initializer in variable declaration', got ',' (type 96)"; "expected ';' after declaration"]).
Proof. by vm_compute. Qed.

Example trailing_comma : parsed false "int y = g(a,);" = Some ("(program (var int y = (call g a)))", []).
Proof. by vm_compute. Qed.

Example lost_modifier : parsed false "unsigned int x; int unsigned y;" =
  Some ("(program (var unsigned int x = _) (var int y = _))", []).
Proof. by vm_compute. Qed.

(** ** The theorems at a source *)

Definition sample : PState := new_state (lexed "x = a + b * c;") false.

Definition sample_token (i : nat) : Token := token_ahead i sample.

Definition sample_tokens : list Token := map sample_token (seq 0 7).

Definition sample_tree : Expr :=
  EAssign (Some "=") (EName (Some "x"))
    (EBinary (Some "+") (EName (Some "a")) (EBinary (Some "*") (EName (Some "b")) (EName (Some "c")))).

Lemma sample_name (i : nat) (name : string) :
  is_type TOKEN_IDENTIFIER (sample_token i) -> plain_name sample (sample_token i) = true -> tok_value (sample_token i) = Some name ->
  derives (plain_name sample) LUnary [sample_token i] (EName (Some name)).
Proof. intros H1 H2 <-. by apply d_postfix_unary, d_name. Qed.

Lemma sample_derives : derives (plain_name sample) LComma sample_tokens sample_tree.
Proof.
  apply d_assign_comma.
  apply (d_assign _ (sample_token 1) [sample_token 0] (map sample_token (seq 2 5))); [by vm_compute; set_solver|by apply sample_name; vm_compute|].
  apply (loosen_binary _ 9); [lia|].
  apply (d_binary _ 9 (sample_token 3) [sample_token 2] (map sample_token (seq 4 3))); [by vm_compute|..].
  - apply loosen_unary; [lia|]. by apply sample_name; vm_compute.
  - apply (d_binary _ 10 (sample_token 5) [sample_token 4] [sample_token 6]); [by vm_compute|..].
    + apply loosen_unary; [lia|]. by apply sample_name; vm_compute.
    + by apply sample_name; vm_compute.
Qed.

Lemma parse_expression_complete_witness :
  exists node s', @parseExpressionPratt (parser_calls 8 7) (-1) sample = Some (Some node, s') /\ expr_of node = sample_tree /\
    moved 7 sample s'.
Proof.
  apply (parse_expression_complete 8 7 sample sample_tokens [sample_token 8] (sample_token 7) sample_tree sample_derives);
    [by vm_compute|by vm_compute|cbn; lia|cbn; lia].
Defined.
