(* ===== verification/Memcheck.v ===== *)
(** * The memory-check runtime (src/runtime/memory_check/fisics_memcheck_runtime.c).

    The static variables are the record [Memcheck].  [g_slots] is a finite map from
    indices to slots; an index without an entry is a slot in its zeroed initial state.
    The capacity is a parameter of the section ([FISICS_MEMCHECK_CAPACITY] is the
    program's).  Pointers and sizes are 64-bit unsigned numbers, [0] is [NULL].

    The C library is outside: an operation takes the pointer [malloc], [calloc] or
    [realloc] answers, and [g_calls] records (newest first) the calls made to it.
    [Env] is what [getenv] and [atexit] answer.  Messages on stderr are the constructors
    of [Message], newest first in [g_stderr]. *)
From S2P Require Import Prelude.

Definition FISICS_MEMCHECK_CAPACITY : Z := 262144.

Inductive FisicsMemcheckSlotState : Set :=
  | FISICS_MEMCHECK_SLOT_EMPTY | FISICS_MEMCHECK_SLOT_ACTIVE | FISICS_MEMCHECK_SLOT_FREED.

#[export] Instance slot_state_eq_dec : EqDecision FisicsMemcheckSlotState.
Proof. solve_decision. Defined.

Record FisicsMemcheckSlot := mkSlot {
  sl_ptr : Z;
  sl_size : Z;
  sl_alloc_file : option string;
  sl_alloc_line : Z;
  sl_state : FisicsMemcheckSlotState
}.

Definition empty_slot : FisicsMemcheckSlot := mkSlot 0 0 None 0 FISICS_MEMCHECK_SLOT_EMPTY.

Inductive FisicsMemcheckReportPolicy : Set :=
  | FISICS_MEMCHECK_REPORT_ALWAYS | FISICS_MEMCHECK_REPORT_ERRORS
  | FISICS_MEMCHECK_REPORT_LEAKS | FISICS_MEMCHECK_REPORT_NEVER.

Record Env := mkEnv {
  env_report : option string;        (* getenv ("FISICS_MEMCHECK_REPORT") *)
  env_atexit_ok : bool               (* atexit (...) == 0 *)
}.

(** The site of a call, when the instrumented code passed one. *)
Abbreviation Site := (option string * Z)%type.

Inductive Message : Type :=
  | MsgAtexitFailed
  | MsgTableFull
  | MsgUnknownRealloc
  | MsgReallocAfterFree
  | MsgUnknownFree
  | MsgDoubleFree
  | MsgFreeSite (file : string) (line : Z)
  | MsgSummary (active leaked allocs frees double_free unknown_free tracker_failures : Z)
  | MsgLeak (size : Z) (site : option (string * Z)).

(** A call to the C library and its answer. *)
Inductive LibcCall : Type :=
  | CallMalloc (size result : Z)
  | CallCalloc (count size result : Z)
  | CallRealloc (ptr size result : Z)
  | CallFree (ptr : Z).

Record Memcheck := mkMemcheck {
  g_slots : gmap Z FisicsMemcheckSlot;
  g_active_count : Z;
  g_total_allocs : Z;
  g_total_frees : Z;
  g_double_frees : Z;
  g_unknown_frees : Z;
  g_tracker_failures : Z;
  g_generation : Z;
  g_last_report_generation : Z;
  g_atexit_registered : bool;
  g_policy_initialized : bool;
  g_report_policy : FisicsMemcheckReportPolicy;
  g_stderr : list Message;
  g_calls : list LibcCall
}.

Definition memcheck_initial : Memcheck :=
  mkMemcheck ∅ 0 0 0 0 0 0 0 0 false false FISICS_MEMCHECK_REPORT_ALWAYS [] [].

(** ** Field updates *)

Definition with_slots (st : Memcheck) (slots : gmap Z FisicsMemcheckSlot) (active : Z) : Memcheck :=
  mkMemcheck slots active (g_total_allocs st) (g_total_frees st) (g_double_frees st)
    (g_unknown_frees st) (g_tracker_failures st) (g_generation st) (g_last_report_generation st)
    (g_atexit_registered st) (g_policy_initialized st) (g_report_policy st) (g_stderr st) (g_calls st).

(** [++] on the counters, in [size_t] ([g_generation] is always one of them). *)
Definition bump (st : Memcheck) (allocs frees double unknown failures : Z) : Memcheck :=
  mkMemcheck (g_slots st) (g_active_count st) (u64 (g_total_allocs st + allocs))
    (u64 (g_total_frees st + frees)) (u64 (g_double_frees st + double))
    (u64 (g_unknown_frees st + unknown)) (u64 (g_tracker_failures st + failures))
    (u64 (g_generation st + 1)) (g_last_report_generation st)
    (g_atexit_registered st) (g_policy_initialized st) (g_report_policy st) (g_stderr st) (g_calls st).

Definition say (st : Memcheck) (msgs : list Message) : Memcheck :=
  mkMemcheck (g_slots st) (g_active_count st) (g_total_allocs st) (g_total_frees st)
    (g_double_frees st) (g_unknown_frees st) (g_tracker_failures st) (g_generation st)
    (g_last_report_generation st) (g_atexit_registered st) (g_policy_initialized st)
    (g_report_policy st) (rev msgs ++ g_stderr st) (g_calls st).

Definition call (st : Memcheck) (c : LibcCall) : Memcheck :=
  mkMemcheck (g_slots st) (g_active_count st) (g_total_allocs st) (g_total_frees st)
    (g_double_frees st) (g_unknown_frees st) (g_tracker_failures st) (g_generation st)
    (g_last_report_generation st) (g_atexit_registered st) (g_policy_initialized st)
    (g_report_policy st) (g_stderr st) (c :: g_calls st).

Definition set_policy (st : Memcheck) (registered initialized : bool)
    (policy : FisicsMemcheckReportPolicy) (last_report : Z) : Memcheck :=
  mkMemcheck (g_slots st) (g_active_count st) (g_total_allocs st) (g_total_frees st)
    (g_double_frees st) (g_unknown_frees st) (g_tracker_failures st) (g_generation st)
    last_report registered initialized policy (g_stderr st) (g_calls st).

(** ** Hash and names *)

Definition ptr_hash (ptr : Z) : Z :=
  let value := Z.lxor ptr (Z.shiftr ptr 33) in
  let value := u64 (value * 18397679294719823053) in
  Z.lxor value (Z.shiftr value 33).

Definition path_separator (c : ascii) : bool :=
  Ascii.eqb c "/"%char || Ascii.eqb c (ascii_of_nat 92).

(** The text after the last separator. *)
Fixpoint base_name (base : list ascii) (s : list ascii) : list ascii :=
  match s with
  | [] => base
  | c :: rest => if path_separator c then base_name rest rest else base_name base rest
  end.

Definition display_file_name (file : option string) : string :=
  match file with
  | None => "<unknown>"
  | Some EmptyString => "<unknown>"
  | Some f => let l := list_ascii_of_string f in string_of_list_ascii (base_name l l)
  end.

Definition memcheck_streq (lhs : option string) (rhs : string) : bool :=
  match lhs with Some s => String.eqb s rhs | None => false end.

(** ** Report policy *)

Definition parse_policy (raw : option string) : FisicsMemcheckReportPolicy :=
  let named s := memcheck_streq raw s in
  if match raw with None => true | Some EmptyString => true | _ => false end ||
     named "always"%string || named "auto"%string || named "1"%string
  then FISICS_MEMCHECK_REPORT_ALWAYS
  else if named "errors"%string || named "error"%string then FISICS_MEMCHECK_REPORT_ERRORS
  else if named "leaks"%string || named "leak"%string then FISICS_MEMCHECK_REPORT_LEAKS
  else if named "never"%string || named "manual"%string || named "0"%string || named "off"%string
  then FISICS_MEMCHECK_REPORT_NEVER
  else FISICS_MEMCHECK_REPORT_ALWAYS.

Definition init_report_policy (env : Env) (st : Memcheck) : Memcheck :=
  if g_policy_initialized st then st
  else set_policy st (g_atexit_registered st) true (parse_policy (env_report env))
         (g_last_report_generation st).

Definition is_never (p : FisicsMemcheckReportPolicy) : bool :=
  match p with FISICS_MEMCHECK_REPORT_NEVER => true | _ => false end.

Definition ensure_atexit_registered (env : Env) (st : Memcheck) : Memcheck :=
  let st := init_report_policy env st in
  if g_atexit_registered st || is_never (g_report_policy st) then st
  else if env_atexit_ok env
  then set_policy st true (g_policy_initialized st) (g_report_policy st) (g_last_report_generation st)
  else say (bump st 0 0 0 0 1) [MsgAtexitFailed].

(** ** The slot table *)

Section Table.
Context (capacity : Z).

Definition get (slots : gmap Z FisicsMemcheckSlot) (j : Z) : FisicsMemcheckSlot :=
  default empty_slot (slots !! j).

(** The [i]-th slot probed for [ptr]. *)
Definition probe (ptr i : Z) : Z := (ptr_hash ptr mod capacity + i) mod capacity.

Definition is_empty (s : FisicsMemcheckSlot) : bool :=
  match sl_state s with FISICS_MEMCHECK_SLOT_EMPTY => true | _ => false end.
Definition is_active (s : FisicsMemcheckSlot) : bool :=
  match sl_state s with FISICS_MEMCHECK_SLOT_ACTIVE => true | _ => false end.
Definition is_freed (s : FisicsMemcheckSlot) : bool :=
  match sl_state s with FISICS_MEMCHECK_SLOT_FREED => true | _ => false end.

(** The index of the slot found; [n] probes remain, the next is number [i]. *)
Fixpoint find_loop (slots : gmap Z FisicsMemcheckSlot) (ptr : Z) (n : nat) (i : Z) : option Z :=
  match n with
  | O => None
  | S n' =>
      let j := probe ptr i in
      let slot := get slots j in
      if is_empty slot then None
      else if sl_ptr slot =? ptr then Some j
      else find_loop slots ptr n' (i + 1)
  end.

Definition find_slot (slots : gmap Z FisicsMemcheckSlot) (ptr : Z) : option Z :=
  if ptr =? 0 then None else find_loop slots ptr (Z.to_nat capacity) 0.

Fixpoint find_insert_loop (slots : gmap Z FisicsMemcheckSlot) (ptr : Z) (first_freed : option Z)
    (n : nat) (i : Z) : option Z :=
  match n with
  | O => first_freed
  | S n' =>
      let j := probe ptr i in
      let slot := get slots j in
      if sl_ptr slot =? ptr then Some j
      else
        let first_freed := if is_freed slot
                           then match first_freed with None => Some j | Some _ => first_freed end
                           else first_freed in
        if is_empty slot then Some j
        else find_insert_loop slots ptr first_freed n' (i + 1)
  end.

Definition find_insert_slot (slots : gmap Z FisicsMemcheckSlot) (ptr : Z) : option Z :=
  if ptr =? 0 then None else find_insert_loop slots ptr None (Z.to_nat capacity) 0.

Definition track_allocation (st : Memcheck) (ptr size : Z) (site : Site) : Memcheck :=
  if ptr =? 0 then st
  else match find_insert_slot (g_slots st) ptr with
       | None => say (bump st 0 0 0 0 1) [MsgTableFull]
       | Some j =>
           let active := if is_active (get (g_slots st) j) then g_active_count st
                         else u64 (g_active_count st + 1) in
           bump (with_slots st
                   (<[j := mkSlot ptr size site.1 site.2 FISICS_MEMCHECK_SLOT_ACTIVE]> (g_slots st))
                   active) 1 0 0 0 0
       end.

Definition mark_released (st : Memcheck) (j : Z) : Memcheck :=
  let slot := get (g_slots st) j in
  if negb (is_active slot) then st
  else
    let active := if 0 <? g_active_count st then g_active_count st - 1 else g_active_count st in
    bump (with_slots st (<[j := mkSlot (sl_ptr slot) 0 None 0 FISICS_MEMCHECK_SLOT_FREED]> (g_slots st))
            active) 0 1 0 0 0.

(** ** The entry points; [answer] is what the C library returns. *)

Definition malloc_site (env : Env) (st : Memcheck) (size : Z) (site : Site) (answer : Z)
    : Memcheck * Z :=
  let st := call (ensure_atexit_registered env st) (CallMalloc size answer) in
  (if answer =? 0 then st else track_allocation st answer size site, answer).

Definition calloc_site (env : Env) (st : Memcheck) (count size : Z) (site : Site) (answer : Z)
    : Memcheck * Z :=
  let st := call (ensure_atexit_registered env st) (CallCalloc count size answer) in
  (if answer =? 0 then st else track_allocation st answer (u64 (count * size)) site, answer).

Definition realloc_site (env : Env) (st : Memcheck) (ptr size : Z) (site : Site) (answer : Z)
    : Memcheck * Z :=
  let st := ensure_atexit_registered env st in
  if ptr =? 0 then
    let st := call st (CallRealloc 0 size answer) in
    (if answer =? 0 then st else track_allocation st answer size site, answer)
  else
    match find_slot (g_slots st) ptr with
    | None => (say (bump st 0 0 0 1 0) [MsgUnknownRealloc], 0)
    | Some j =>
        match sl_state (get (g_slots st) j) with
        | FISICS_MEMCHECK_SLOT_EMPTY => (say (bump st 0 0 0 1 0) [MsgUnknownRealloc], 0)
        | FISICS_MEMCHECK_SLOT_FREED => (say (bump st 0 0 1 0 0) [MsgReallocAfterFree], 0)
        | FISICS_MEMCHECK_SLOT_ACTIVE =>
            let st := call st (CallRealloc ptr size answer) in
            if answer =? 0 then (st, 0)
            else (track_allocation (mark_released st j) answer size site, answer)
        end
    end.

Definition free_site_message (site : Site) : list Message :=
  match site.1 with
  | Some f => if 0 <? site.2 then [MsgFreeSite (display_file_name (Some f)) site.2] else []
  | None => []
  end.

Definition free_site (env : Env) (st : Memcheck) (ptr : Z) (site : Site) : Memcheck :=
  let st := ensure_atexit_registered env st in
  if ptr =? 0 then st
  else
    match find_slot (g_slots st) ptr with
    | None => say (bump st 0 0 0 1 0) (MsgUnknownFree :: free_site_message site)
    | Some j =>
        match sl_state (get (g_slots st) j) with
        | FISICS_MEMCHECK_SLOT_EMPTY =>
            say (bump st 0 0 0 1 0) (MsgUnknownFree :: free_site_message site)
        | FISICS_MEMCHECK_SLOT_FREED =>
            say (bump st 0 0 1 0 0) (MsgDoubleFree :: free_site_message site)
        | FISICS_MEMCHECK_SLOT_ACTIVE => call (mark_released st j) (CallFree ptr)
        end
    end.

Definition no_site : Site := (None, 0).
Definition fisics_memcheck_malloc (env : Env) (st : Memcheck) (size answer : Z) : Memcheck * Z :=
  malloc_site env st size no_site answer.
Definition fisics_memcheck_calloc (env : Env) (st : Memcheck) (count size answer : Z) : Memcheck * Z :=
  calloc_site env st count size no_site answer.
Definition fisics_memcheck_realloc (env : Env) (st : Memcheck) (ptr size answer : Z) : Memcheck * Z :=
  realloc_site env st ptr size no_site answer.
Definition fisics_memcheck_free (env : Env) (st : Memcheck) (ptr : Z) : Memcheck :=
  free_site env st ptr no_site.

(** ** Reports *)

Definition slot_indices : list Z := seqZ 0 capacity.

Definition active_slots (st : Memcheck) : list FisicsMemcheckSlot :=
  filter (fun s => is_active s = true) (get (g_slots st) <$> slot_indices).

Definition compute_leaked_bytes (st : Memcheck) : Z :=
  foldl (fun n s => u64 (n + sl_size s)) 0 (active_slots st).

Definition leak_message (s : FisicsMemcheckSlot) : Message :=
  MsgLeak (sl_size s)
    match sl_alloc_file s with
    | Some f => if 0 <? sl_alloc_line s then Some (display_file_name (Some f), sl_alloc_line s) else None
    | None => None
    end.

Definition emit_leak_sites (st : Memcheck) : Memcheck := say st (leak_message <$> active_slots st).

Definition should_emit_report (st : Memcheck) (leaked_bytes : Z) : bool :=
  match g_report_policy st with
  | FISICS_MEMCHECK_REPORT_NEVER => false
  | FISICS_MEMCHECK_REPORT_ERRORS =>
      (0 <? g_double_frees st) || (0 <? g_unknown_frees st) || (0 <? g_tracker_failures st)
  | FISICS_MEMCHECK_REPORT_LEAKS =>
      (0 <? leaked_bytes) || (0 <? g_double_frees st) || (0 <? g_unknown_frees st) ||
      (0 <? g_tracker_failures st)
  | FISICS_MEMCHECK_REPORT_ALWAYS =>
      (0 <? g_total_allocs st) || (0 <? g_total_frees st) || (0 <? g_double_frees st) ||
      (0 <? g_unknown_frees st) || (0 <? g_tracker_failures st)
  end.

(** The JSON file is written apart, by [emit_json_report]. *)
Definition emit_report (st : Memcheck) : Memcheck :=
  let leaked_bytes := compute_leaked_bytes st in
  let st := say st [MsgSummary (g_active_count st) leaked_bytes (g_total_allocs st) (g_total_frees st)
                      (g_double_frees st) (g_unknown_frees st) (g_tracker_failures st)] in
  let st := if 0 <? leaked_bytes then emit_leak_sites st else st in
  set_policy st (g_atexit_registered st) (g_policy_initialized st) (g_report_policy st) (g_generation st).

Definition fisics_memcheck_report (st : Memcheck) : Memcheck := emit_report st.

Definition fisics_memcheck_report_at_exit (env : Env) (st : Memcheck) : Memcheck :=
  if g_last_report_generation st =? g_generation st then st
  else
    let leaked_bytes := compute_leaked_bytes st in
    let st := init_report_policy env st in
    if negb (should_emit_report st leaked_bytes) then st else emit_report st.

Definition fisics_memcheck_reset (st : Memcheck) : Memcheck :=
  mkMemcheck ∅ 0 0 0 0 0 0 0 0 (g_atexit_registered st) (g_policy_initialized st)
    (g_report_policy st) (g_stderr st) (g_calls st).

End Table.
