(* ===== verification/MemcheckTable.v ===== *)
(** * The slot table of the memory checker: open addressing with tombstones.

    [table_ok] is the invariant of [g_slots]; under it [find_slot] decides whether a
    pointer is known and [find_insert_slot] finds its slot or a free one on its probe
    sequence. *)
From S2P Require Import Prelude Memcheck.

Section TableProofs.
Context (capacity : Z) (Hcap : 0 < capacity).

Abbreviation Slots := (gmap Z FisicsMemcheckSlot).
Abbreviation probe := (probe capacity).

Definition occupied (slots : Slots) (j : Z) : Prop := is_empty (get slots j) = false.

(** Slot [j] is the entry of the pointer [p]. *)
Definition holds (slots : Slots) (p j : Z) : Prop := occupied slots j /\ sl_ptr (get slots j) = p.

(** [j] is on [p]'s probe sequence, behind occupied slots only. *)
Definition on_path (slots : Slots) (p j : Z) : Prop :=
  exists i, 0 <= i < capacity /\ probe p i = j /\ (forall k, 0 <= k < i -> occupied slots (probe p k)).

Record table_ok (slots : Slots) : Prop := {
  tk_unique : forall j1 j2 p, holds slots p j1 -> holds slots p j2 -> j1 = j2;
  tk_path : forall j p, holds slots p j -> p <> 0 /\ on_path slots p j;
  tk_null : forall j, ~ occupied slots j -> sl_ptr (get slots j) = 0
}.

Lemma empty_table_ok : table_ok ∅.
Proof.
  split.
  - intros j1 j2 p [H _]. done.
  - intros j p [H _]. done.
  - done.
Qed.

Lemma get_insert_eq (slots : Slots) (j : Z) (s : FisicsMemcheckSlot) : get (<[j := s]> slots) j = s.
Proof. unfold get. by rewrite lookup_insert_eq. Qed.

Lemma get_insert_ne (slots : Slots) (j k : Z) (s : FisicsMemcheckSlot) :
  j <> k -> get (<[j := s]> slots) k = get slots k.
Proof. intros H. unfold get. by rewrite lookup_insert_ne. Qed.

Lemma probe_range (p i : Z) : 0 <= probe p i < capacity.
Proof. apply Z.mod_pos_bound. lia. Qed.

(** The probe sequence visits every slot. *)
Lemma probe_onto (p j : Z) : 0 <= j < capacity -> exists i, 0 <= i < capacity /\ probe p i = j.
Proof.
  intros Hj. exists ((j - ptr_hash p mod capacity) mod capacity).
  split; [apply Z.mod_pos_bound; lia|]. unfold Memcheck.probe.
  rewrite Zplus_mod_idemp_r. replace (_ + _) with j by lia. by apply Z.mod_small.
Qed.

Lemma holds_occupied_range (slots : Slots) (p j : Z) :
  table_ok slots -> holds slots p j -> 0 <= j < capacity.
Proof. intros Hok Hj. destruct (tk_path _ Hok j p Hj) as [_ (i & _ & <- & _)]. apply probe_range. Qed.

(** ** [find_slot] *)

Lemma find_loop_sound (slots : Slots) (p : Z) (n : nat) (i j : Z) :
  find_loop capacity slots p n i = Some j -> holds slots p j.
Proof.
  revert i. induction n as [|n IH]; intros i; simpl; [done|].
  destruct (is_empty _) eqn:E; [done|]. destruct (Z.eqb_spec (sl_ptr (get slots (probe p i))) p) as [Hp|Hp].
  - intros [= <-]. by split.
  - apply IH.
Qed.

Lemma find_loop_complete (slots : Slots) (p : Z) (n : nat) (i i0 : Z) :
  i <= i0 < i + Z.of_nat n -> holds slots p (probe p i0) ->
  (forall k, i <= k < i0 -> occupied slots (probe p k)) ->
  exists j, find_loop capacity slots p n i = Some j.
Proof.
  revert i. induction n as [|n IH]; intros i Hi Hh Hpath; [lia|]. simpl.
  assert (occupied slots (probe p i)) as Hocc.
  { destruct (decide (i = i0)) as [->|]; [apply Hh|apply Hpath; lia]. }
  rewrite Hocc. destruct (Z.eqb_spec (sl_ptr (get slots (probe p i))) p) as [Hp|Hp]; [eauto|].
  destruct (decide (i = i0)) as [->|]; [by destruct Hh|].
  apply IH; [lia|done|]. intros k Hk. apply Hpath. lia.
Qed.

Lemma find_slot_spec (slots : Slots) (p j : Z) :
  table_ok slots -> find_slot capacity slots p = Some j <-> holds slots p j.
Proof.
  intros Hok. unfold find_slot. destruct (Z.eqb_spec p 0) as [->|Hp].
  - split; [done|]. intros Hj. by destruct (tk_path _ Hok _ _ Hj).
  - split; [apply find_loop_sound|]. intros Hj.
    destruct (tk_path _ Hok _ _ Hj) as [_ (i & Hi & <- & Hpath)].
    destruct (find_loop_complete slots p (Z.to_nat capacity) 0 i) as [j' Hj'];
      [lia|done|done|].
    rewrite Hj'. f_equal. by apply (tk_unique _ Hok _ _ p (find_loop_sound _ _ _ _ _ Hj')).
Qed.

Lemma find_slot_None (slots : Slots) (p : Z) :
  table_ok slots -> find_slot capacity slots p = None <-> forall j, ~ holds slots p j.
Proof.
  intros Hok. split.
  - intros Hn j Hj%(find_slot_spec _ _ _ Hok). congruence.
  - intros Hn. destruct (find_slot capacity slots p) as [j|] eqn:E; [|done].
    apply (find_slot_spec _ _ _ Hok) in E. by destruct (Hn j).
Qed.

(** ** [find_insert_slot] *)

(** Where an unknown pointer may go: an empty slot on its path, or, when no slot of the
    path is empty, a freed one. *)
Definition insertable (slots : Slots) (p j : Z) : Prop :=
  (~ occupied slots j /\ on_path slots p j) \/
  (is_freed (get slots j) = true /\ (exists i, 0 <= i < capacity /\ probe p i = j) /\
   forall k, 0 <= k < capacity -> occupied slots (probe p k)).

Lemma is_freed_occupied (slots : Slots) (j : Z) : is_freed (get slots j) = true -> occupied slots j.
Proof. unfold is_freed, occupied, is_empty. by case_match. Qed.

Lemma not_occupied (slots : Slots) (j : Z) : ~ occupied slots j <-> is_empty (get slots j) = true.
Proof. unfold occupied. destruct (is_empty _); naive_solver. Qed.

Lemma find_insert_loop_spec (slots : Slots) (p : Z) (ff : option Z) (n : nat) (i : Z) :
  table_ok slots -> p <> 0 -> 0 <= i -> i + Z.of_nat n = capacity ->
  (forall k, 0 <= k < i -> occupied slots (probe p k)) ->
  (forall j, ff = Some j -> is_freed (get slots j) = true /\ exists k, 0 <= k < i /\ probe p k = j) ->
  match find_insert_loop capacity slots p ff n i with
  | Some j => holds slots p j \/ insertable slots p j
  | None => ff = None /\ forall k, i <= k < capacity -> is_active (get slots (probe p k)) = true
  end.
Proof.
  intros Hok Hp. revert ff i. induction n as [|n IH]; intros ff i Hi Hn Hpath Hff; simpl.
  { destruct ff as [j|]; [|split; [done|lia]]. right. right.
    destruct (Hff j eq_refl) as [Hf (k & Hk & Hkj)]. split_and!; [done|by exists k; split; [lia|]|].
    intros k' Hk'. apply Hpath. lia. }
  destruct (Z.eqb_spec (sl_ptr (get slots (probe p i))) p) as [Hptr|Hptr].
  { left. split; [|done]. unfold occupied. destruct (is_empty (get slots (probe p i))) eqn:E; [|done].
    apply not_occupied in E. rewrite (tk_null _ Hok _ E) in Hptr. done. }
  destruct (is_empty (get slots (probe p i))) eqn:E.
  { right. left. split; [by apply not_occupied|]. exists i. split_and!; [lia|lia|done|done]. }
  match goal with |- context [find_insert_loop _ _ _ ?ff' _ _] => set (ff1 := ff') end.
  specialize (IH ff1 (i + 1) ltac:(lia) ltac:(lia)).
  destruct (find_insert_loop capacity slots p ff1 n (i + 1)) as [j|].
  - apply IH.
    + intros k Hk. destruct (decide (k = i)) as [->|]; [done|apply Hpath; lia].
    + intros j' Hj'. unfold ff1 in Hj'. destruct (is_freed (get slots (probe p i))) eqn:Ef.
      * destruct ff as [j0|]; simplify_eq.
        -- destruct (Hff j' eq_refl) as [? (k & ? & ?)]. split; [done|]. exists k. split; [lia|done].
        -- split; [done|]. exists i. split; [lia|done].
      * destruct (Hff j' Hj') as [? (k & ? & ?)]. split; [done|]. exists k. split; [lia|done].
  - destruct IH as [Hnone Hact].
    + intros k Hk. destruct (decide (k = i)) as [->|]; [done|apply Hpath; lia].
    + intros j' Hj'. unfold ff1 in Hj'. destruct (is_freed (get slots (probe p i))) eqn:Ef.
      * destruct ff as [j0|]; simplify_eq.
        -- destruct (Hff j' eq_refl) as [? (k & ? & ?)]. split; [done|]. exists k. split; [lia|done].
        -- split; [done|]. exists i. split; [lia|done].
      * destruct (Hff j' Hj') as [? (k & ? & ?)]. split; [done|]. exists k. split; [lia|done].
    + unfold ff1 in Hnone. destruct (is_freed (get slots (probe p i))) eqn:Ef; [by destruct ff|].
      split; [done|]. intros k Hk. destruct (decide (k = i)) as [->|]; [|apply Hact; lia].
      unfold is_freed, is_empty, is_active in *. by case_match.
Qed.

Lemma find_insert_slot_spec (slots : Slots) (p : Z) :
  table_ok slots -> p <> 0 ->
  match find_insert_slot capacity slots p with
  | Some j => holds slots p j \/ (forall k, ~ holds slots p k) /\ insertable slots p j
  | None => (forall k, ~ holds slots p k) /\
            forall k, 0 <= k < capacity -> is_active (get slots k) = true
  end.
Proof.
  intros Hok Hp. unfold find_insert_slot. destruct (Z.eqb_spec p 0) as [|_]; [done|].
  pose proof (find_insert_loop_spec slots p None (Z.to_nat capacity) 0 Hok Hp ltac:(lia) ltac:(lia)
    ltac:(lia) ltac:(done)) as H.
  assert (forall n i ff i0, holds slots p (probe p i0) -> i <= i0 < i + Z.of_nat n ->
    (forall k, i <= k < i0 -> occupied slots (probe p k)) ->
    exists j, find_insert_loop capacity slots p ff n i = Some j /\ holds slots p j) as Hknown.
  { induction n as [|n IH]; intros i ff i0 Hh Hi Hpath; [lia|]. simpl.
    destruct (Z.eqb_spec (sl_ptr (get slots (probe p i))) p) as [Hptr|Hptr].
    { exists (probe p i). split; [done|]. split; [|done].
      unfold occupied. destruct (is_empty (get slots (probe p i))) eqn:E; [|done].
      apply not_occupied in E. rewrite (tk_null _ Hok _ E) in Hptr. done. }
    destruct (decide (i = i0)) as [->|]; [by destruct Hh|].
    assert (is_empty (get slots (probe p i)) = false) as -> by (apply Hpath; lia).
    apply (IH _ _ i0); [done|lia|]. intros k Hk. apply Hpath. lia. }
  destruct (find_slot capacity slots p) as [j|] eqn:Ef.
  - apply (find_slot_spec _ _ _ Hok) in Ef as Hj.
    destruct (tk_path _ Hok _ _ Hj) as [_ (i & Hi & Hpi & Hpath)]. subst j.
    destruct (Hknown (Z.to_nat capacity) 0 None i Hj ltac:(lia) Hpath) as (j' & -> & Hj'). by left.
  - pose proof (proj1 (find_slot_None slots p Hok) Ef) as Hnone.
    destruct (find_insert_loop _ _ _ _ _ _) as [j|].
    + destruct H as [H|H]; [by left|by right].
    + split; [done|]. intros k Hk. destruct (probe_onto p k Hk) as (i & Hi & <-). by apply H.
Qed.

(** ** Writing a slot *)

(** The slot may be written for [p]. *)
Definition writable (slots : Slots) (p j : Z) : Prop :=
  p <> 0 /\ (holds slots p j \/ (forall k, ~ holds slots p k) /\ insertable slots p j).

Lemma find_insert_writable (slots : Slots) (p j : Z) :
  table_ok slots -> p <> 0 -> find_insert_slot capacity slots p = Some j -> writable slots p j.
Proof.
  intros Hok Hp Hj. pose proof (find_insert_slot_spec slots p Hok Hp) as H. rewrite Hj in H. by split.
Qed.

Lemma holds_insert (slots : Slots) (p q j k : Z) (s : FisicsMemcheckSlot) :
  sl_ptr s = p -> is_empty s = false ->
  holds (<[j := s]> slots) q k <-> (k = j /\ q = p) \/ (k <> j /\ holds slots q k).
Proof.
  intros Hs He. unfold holds, occupied. destruct (decide (k = j)) as [->|Hne].
  - rewrite get_insert_eq. naive_solver.
  - rewrite get_insert_ne by done. naive_solver.
Qed.

Lemma occupied_insert (slots : Slots) (j k : Z) (s : FisicsMemcheckSlot) :
  is_empty s = false -> occupied slots k -> occupied (<[j := s]> slots) k.
Proof.
  intros He Hk. unfold occupied in *. destruct (decide (j = k)) as [->|Hne].
  - by rewrite get_insert_eq.
  - by rewrite get_insert_ne.
Qed.

Lemma on_path_insert (slots : Slots) (p j k : Z) (s : FisicsMemcheckSlot) :
  is_empty s = false -> on_path slots p k -> on_path (<[j := s]> slots) p k.
Proof.
  intros He (i & Hi & Hk & Hpath). exists i. split_and!; [lia|lia|done|].
  intros k' Hk'. apply occupied_insert; [done|]. by apply Hpath.
Qed.

Lemma writable_on_path (slots : Slots) (p j : Z) :
  table_ok slots -> writable slots p j -> on_path slots p j.
Proof.
  intros Hok [Hp [Hh|[Hun [[_ Hpath]|(_ & (i & Hi & Hj) & Hocc)]]]].
  - by apply (tk_path _ Hok j p Hh).
  - done.
  - exists i. split_and!; [lia|lia|done|]. intros k Hk. apply Hocc. lia.
Qed.

Lemma table_ok_write (slots : Slots) (p j : Z) (s : FisicsMemcheckSlot) :
  table_ok slots -> writable slots p j -> sl_ptr s = p -> is_empty s = false ->
  table_ok (<[j := s]> slots).
Proof.
  intros Hok Hw Hs He. pose proof (writable_on_path _ _ _ Hok Hw) as Hpath. destruct Hw as [Hp Hw].
  assert (forall k, holds slots p k -> k = j) as Hp_only.
  { intros k Hk. destruct Hw as [Hj|[Hun _]]; [|by destruct (Hun k)].
    by apply (tk_unique _ Hok _ _ p). }
  split.
  - intros j1 j2 q. rewrite !(holds_insert slots p) by done.
    intros [[-> ->]|[Hn1 H1]] [[-> Hq]|[Hn2 H2]]; subst.
    + done.
    + by apply Hp_only in H2.
    + by apply Hp_only in H1.
    + by apply (tk_unique _ Hok _ _ q).
  - intros k q. rewrite (holds_insert slots p) by done. intros [[-> ->]|[_ Hk]].
    + split; [done|]. by apply on_path_insert.
    + destruct (tk_path _ Hok _ _ Hk). split; [done|]. by apply on_path_insert.
  - intros k Hk. unfold occupied in Hk. destruct (decide (j = k)) as [->|Hne].
    + by rewrite get_insert_eq in Hk.
    + rewrite get_insert_ne in * by done. by apply (tk_null _ Hok).
Qed.

(** ** The table as a map from pointers *)

Definition entry (slots : Slots) (p : Z) : option FisicsMemcheckSlot :=
  get slots <$> find_slot capacity slots p.

Lemma entry_Some (slots : Slots) (p : Z) (s : FisicsMemcheckSlot) :
  table_ok slots -> entry slots p = Some s <-> exists j, holds slots p j /\ get slots j = s.
Proof.
  intros Hok. unfold entry. rewrite fmap_Some. split.
  - intros (j & Hj & ->). apply find_slot_spec in Hj; [|done]. eauto.
  - intros (j & Hj & <-). exists j. split; [|done]. by apply find_slot_spec.
Qed.

Lemma entry_None (slots : Slots) (p : Z) :
  table_ok slots -> entry slots p = None <-> forall j, ~ holds slots p j.
Proof. intros Hok. unfold entry. rewrite fmap_None. by apply find_slot_None. Qed.

Lemma entry_write_same (slots : Slots) (p j : Z) (s : FisicsMemcheckSlot) :
  table_ok slots -> writable slots p j -> sl_ptr s = p -> is_empty s = false ->
  entry (<[j := s]> slots) p = Some s.
Proof.
  intros Hok Hw Hs He. apply entry_Some; [by eapply table_ok_write|].
  exists j. split; [apply (holds_insert slots p); naive_solver|apply get_insert_eq].
Qed.

(** Other pointers keep their entries, but the freed entry that the slot had, if any. *)
Lemma entry_write_other (slots : Slots) (p q j : Z) (s : FisicsMemcheckSlot) :
  table_ok slots -> writable slots p j -> sl_ptr s = p -> is_empty s = false -> q <> p ->
  entry (<[j := s]> slots) q =
    if decide (find_slot capacity slots q = Some j) then None else entry slots q.
Proof.
  intros Hok Hw Hs He Hq. pose proof (table_ok_write _ _ _ _ Hok Hw Hs He) as Hok'.
  destruct (decide (find_slot capacity slots q = Some j)) as [Hf|Hf].
  - apply find_slot_spec in Hf; [|done]. apply entry_None; [done|].
    intros k. rewrite (holds_insert slots p) by done. intros [[-> ->]|[Hk Hh]]; [done|].
    by rewrite (tk_unique _ Hok _ _ q Hh Hf) in Hk.
  - destruct (entry slots q) as [s'|] eqn:E.
    + apply entry_Some in E as (k & Hk & <-); [|done]. apply entry_Some; [done|].
      assert (k <> j) as Hne.
      { intros ->. apply Hf. by apply find_slot_spec. }
      exists k. split; [apply (holds_insert slots p); naive_solver|by apply get_insert_ne].
    + rewrite entry_None in E by done. apply entry_None; [done|]. intros k.
      rewrite (holds_insert slots p) by done. intros [[-> ->]|[_ Hh]]; [done|by destruct (E k)].
Qed.

(** With an empty slot in the table nothing is evicted. *)
Definition has_room (slots : Slots) : Prop := exists j, 0 <= j < capacity /\ ~ occupied slots j.

Lemma has_room_not_evicted (slots : Slots) (p q j : Z) :
  table_ok slots -> has_room slots -> writable slots p j -> q <> p ->
  find_slot capacity slots q <> Some j.
Proof.
  intros Hok (j0 & Hj0 & Hempty) [Hp Hw] Hq Hf. apply find_slot_spec in Hf as [Hocc Hptr]; [|done].
  destruct Hw as [[_ Hh]|[_ [[Hno _]|(_ & _ & Hall)]]].
  - congruence.
  - done.
  - destruct (probe_onto p j0 Hj0) as (i & Hi & Hij). apply Hempty. rewrite <- Hij. by apply Hall.
Qed.

(** A table whose pointers are the keys of a map smaller than the capacity has room. *)
Lemma has_room_small {A} (slots : Slots) (m : gmap Z A) :
  table_ok slots -> (forall q, is_Some (entry slots q) -> is_Some (m !! q)) ->
  Z.of_nat (size m) < capacity -> has_room slots.
Proof.
  intros Hok Hm Hsize.
  destruct (decide (Forall (fun j => is_empty (get slots j) = false) (seqZ 0 capacity))) as [Hall|Hex].
  - exfalso.
    assert (NoDup ((fun j => sl_ptr (get slots j)) <$> seqZ 0 capacity)) as Hnd.
    { apply NoDup_fmap_2_strong; [|apply NoDup_seqZ].
      intros j1 j2 Hj1 Hj2 Heq. rewrite Forall_forall in Hall.
      apply (tk_unique _ Hok j1 j2 (sl_ptr (get slots j1))); (split; [by apply Hall|done]). }
    assert (forall q, q ∈ ((fun j => sl_ptr (get slots j)) <$> seqZ 0 capacity) -> q ∈ (map_to_list m).*1) as Hsub.
    { intros q (j & -> & Hj)%list_elem_of_fmap. rewrite Forall_forall in Hall.
      destruct (Hm (sl_ptr (get slots j))) as [x Hx].
      - exists (get slots j). apply entry_Some; [done|]. exists j. split; [|done].
        split; [by apply Hall|done].
      - apply list_elem_of_fmap. exists (sl_ptr (get slots j), x).
        split; [done|]. by apply elem_of_map_to_list. }
    pose proof (NoDup_submseteq _ _ Hnd Hsub) as Hlen%submseteq_length.
    rewrite !length_fmap, length_seqZ, length_map_to_list in Hlen. lia.
  - apply not_Forall_Exists in Hex; [|intros j; solve_decision]. apply Exists_exists in Hex as (j & Hj & Hne).
    exists j. split; [apply elem_of_seqZ in Hj; lia|]. done.
Qed.

End TableProofs.
