(* ===== verification/MemcheckSpec.v ===== *)
(** * What the memory checker promises, and that the runtime keeps it.

    [Ledger] is the abstract checker: a map from every pointer ever handed out to its
    entry, counters without bound, and the calls to make to the C library.  The runtime
    refines it as long as fewer pointers were handed out than the table has slots. *)
From S2P Require Import Prelude Memcheck MemcheckTable.

Inductive Entry : Type := Live (size : Z) (site : Site) | Released.

Record Ledger := mkLedger {
  ld_entries : gmap Z Entry;
  ld_allocs : Z;
  ld_frees : Z;
  ld_double : Z;
  ld_unknown : Z;
  ld_calls : list LibcCall
}.

Definition ledger_initial : Ledger := mkLedger ∅ 0 0 0 0 [].

Inductive Request : Type :=
  | RMalloc (size : Z) (site : Site) (answer : Z)
  | RCalloc (count size : Z) (site : Site) (answer : Z)
  | RRealloc (ptr size : Z) (site : Site) (answer : Z)
  | RFree (ptr : Z) (site : Site).

Definition ld_call (L : Ledger) (c : LibcCall) : Ledger :=
  mkLedger (ld_entries L) (ld_allocs L) (ld_frees L) (ld_double L) (ld_unknown L) (c :: ld_calls L).

Definition ld_track (L : Ledger) (ptr size : Z) (site : Site) : Ledger :=
  mkLedger (<[ptr := Live size site]> (ld_entries L)) (ld_allocs L + 1) (ld_frees L) (ld_double L)
    (ld_unknown L) (ld_calls L).

Definition ld_release (L : Ledger) (ptr : Z) : Ledger :=
  mkLedger (<[ptr := Released]> (ld_entries L)) (ld_allocs L) (ld_frees L + 1) (ld_double L)
    (ld_unknown L) (ld_calls L).

Definition ld_report (L : Ledger) (double unknown : Z) : Ledger :=
  mkLedger (ld_entries L) (ld_allocs L) (ld_frees L) (ld_double L + double) (ld_unknown L + unknown)
    (ld_calls L).

(** A fresh block: tracked unless the allocation failed. *)
Definition ld_answer (L : Ledger) (size : Z) (site : Site) (answer : Z) : Ledger * Z :=
  (if answer =? 0 then L else ld_track L answer size site, answer).

Definition spec_step (L : Ledger) (r : Request) : Ledger * Z :=
  match r with
  | RMalloc size site a => ld_answer (ld_call L (CallMalloc size a)) size site a
  | RCalloc count size site a =>
      ld_answer (ld_call L (CallCalloc count size a)) (u64 (count * size)) site a
  | RRealloc ptr size site a =>
      if ptr =? 0 then ld_answer (ld_call L (CallRealloc 0 size a)) size site a
      else match ld_entries L !! ptr with
           | None => (ld_report L 0 1, 0)
           | Some Released => (ld_report L 1 0, 0)
           | Some (Live _ _) =>
               let L := ld_call L (CallRealloc ptr size a) in
               if a =? 0 then (L, 0) else (ld_track (ld_release L ptr) a size site, a)
           end
  | RFree ptr site =>
      if ptr =? 0 then (L, 0)
      else match ld_entries L !! ptr with
           | None => (ld_report L 0 1, 0)
           | Some Released => (ld_report L 1 0, 0)
           | Some (Live _ _) => (ld_call (ld_release L ptr) (CallFree ptr), 0)
           end
  end.

Fixpoint spec_run (L : Ledger) (rs : list Request) : Ledger * list Z :=
  match rs with
  | [] => (L, [])
  | r :: rest => let '(L, a) := spec_step L r in let '(L, out) := spec_run L rest in (L, a :: out)
  end.

(** The runtime's answer to the same requests. *)
Definition memcheck_step (capacity : Z) (env : Env) (st : Memcheck) (r : Request) : Memcheck * Z :=
  match r with
  | RMalloc size site a => malloc_site capacity env st size site a
  | RCalloc count size site a => calloc_site capacity env st count size site a
  | RRealloc ptr size site a => realloc_site capacity env st ptr size site a
  | RFree ptr site => (free_site capacity env st ptr site, 0)
  end.

Fixpoint memcheck_run (capacity : Z) (env : Env) (st : Memcheck) (rs : list Request) : Memcheck * list Z :=
  match rs with
  | [] => (st, [])
  | r :: rest =>
      let '(st, a) := memcheck_step capacity env st r in
      let '(st, out) := memcheck_run capacity env st rest in (st, a :: out)
  end.

(** ** Counting live entries *)

Definition is_live (e : Entry) : bool := match e with Live _ _ => true | Released => false end.
Definition live_entries (m : gmap Z Entry) : gmap Z Entry := filter (fun kv => is_live kv.2 = true) m.
Definition num_live (m : gmap Z Entry) : nat := size (live_entries m).
Definition live_of (o : option Entry) : nat :=
  match o with Some e => if is_live e then 1 else 0 | None => 0 end.

Lemma num_live_insert_fresh (m : gmap Z Entry) (p : Z) (e : Entry) :
  m !! p = None -> num_live (<[p := e]> m) = (live_of (Some e) + num_live m)%nat.
Proof.
  intros Hp. unfold num_live, live_entries, live_of.
  assert (filter (fun kv => is_live kv.2 = true) m !! p = None) as Hf
    by (apply map_lookup_filter_None; by left).
  destruct (is_live e) eqn:E.
  - rewrite map_filter_insert_True by done. by rewrite map_size_insert_None.
  - rewrite map_filter_insert_False by (simpl; congruence). by rewrite delete_id.
Qed.

Lemma num_live_insert (m : gmap Z Entry) (p : Z) (e : Entry) :
  (num_live (<[p := e]> m) + live_of (m !! p) = num_live m + live_of (Some e))%nat.
Proof.
  destruct (m !! p) as [e0|] eqn:Ep.
  - assert (forall x, num_live (<[p := x]> m) = (live_of (Some x) + num_live (delete p m))%nat) as Hx.
    { intros x. rewrite <- insert_delete_eq. apply num_live_insert_fresh, lookup_delete_eq. }
    pose proof (Hx e0) as H0. rewrite insert_id in H0 by done. rewrite H0, Hx. lia.
  - rewrite num_live_insert_fresh by done. simpl. lia.
Qed.

Lemma num_live_le (m : gmap Z Entry) : (num_live m <= size m)%nat.
Proof. unfold num_live, live_entries. apply map_size_filter. Qed.

Lemma num_live_pos (m : gmap Z Entry) (p : Z) :
  live_of (m !! p) = 1%nat -> (0 < num_live m)%nat.
Proof.
  intros H. destruct (m !! p) as [e|] eqn:Ep; [|done]. simpl in H. destruct (is_live e) eqn:E; [|done].
  pose proof (num_live_insert m p Released) as Hn. rewrite Ep in Hn. simpl in Hn. rewrite E in Hn. lia.
Qed.

(** ** Refinement *)

Section Refinement.
Context (capacity : Z) (Hcap : 0 < capacity < 2 ^ 64) (env : Env).

Definition view (s : FisicsMemcheckSlot) : Entry :=
  if is_active s then Live (sl_size s) (sl_alloc_file s, sl_alloc_line s) else Released.

Record refines (st : Memcheck) (L : Ledger) : Prop := {
  rf_table : table_ok capacity (g_slots st);
  rf_entries : forall q, view <$> entry capacity (g_slots st) q = ld_entries L !! q;
  rf_allocs : g_total_allocs st = u64 (ld_allocs L);
  rf_frees : g_total_frees st = u64 (ld_frees L);
  rf_double : g_double_frees st = u64 (ld_double L);
  rf_unknown : g_unknown_frees st = u64 (ld_unknown L);
  rf_active : g_active_count st = u64 (Z.of_nat (num_live (ld_entries L)));
  rf_calls : g_calls st = ld_calls L
}.

Lemma u64_add (a b : Z) : u64 (u64 a + b) = u64 (a + b).
Proof. unfold wrapU. apply Zplus_mod_idemp_l. Qed.

(** Closes the counter fields after an update. *)
Ltac counters := cbn; rewrite ?u64_add, ?Z.add_0_r; congruence.

Lemma refines_initial : refines memcheck_initial ledger_initial.
Proof.
  split; try done; [apply empty_table_ok|]. intros q. unfold entry.
  assert (find_slot capacity (g_slots memcheck_initial) q = None) as ->; [|done].
  apply find_slot_None; [lia|apply empty_table_ok|]. by intros j [H _].
Qed.

Lemma bump_refines (st : Memcheck) (L : Ledger) (d u f : Z) (msgs : list Message) :
  refines st L -> refines (say (bump st 0 0 d u f) msgs) (ld_report L d u).
Proof. intros [H1 H2 H3 H4 H5 H6 H7 H8]. split; cbn in *; rewrite ?H3, ?H4, ?H5, ?H6; try done; counters. Qed.

Lemma ld_report_none (L : Ledger) : ld_report L 0 0 = L.
Proof. destruct L. unfold ld_report. simpl. by rewrite !Z.add_0_r. Qed.

Lemma set_policy_refines (st : Memcheck) (L : Ledger) (a b : bool) (p : FisicsMemcheckReportPolicy) (g : Z) :
  refines st L -> refines (set_policy st a b p g) L.
Proof. intros [H1 H2 H3 H4 H5 H6 H7 H8]. by split. Qed.

Lemma ensure_refines (st : Memcheck) (L : Ledger) :
  refines st L -> refines (ensure_atexit_registered env st) L.
Proof.
  intros H. unfold ensure_atexit_registered, init_report_policy.
  assert (refines (if g_policy_initialized st then st
    else set_policy st (g_atexit_registered st) true (parse_policy (env_report env))
           (g_last_report_generation st)) L) as H'
    by (case_match; [done|by apply set_policy_refines]).
  destruct (_ || _); [done|]. destruct (env_atexit_ok env); [by apply set_policy_refines|].
  rewrite <- ld_report_none. by apply bump_refines.
Qed.

Lemma call_refines (st : Memcheck) (L : Ledger) (c : LibcCall) :
  refines st L -> refines (call st c) (ld_call L c).
Proof. intros [H1 H2 H3 H4 H5 H6 H7 H8]. split; cbn; try done. by rewrite H8. Qed.

Lemma entry_view_Some (st : Memcheck) (L : Ledger) (p : Z) (e : Entry) :
  refines st L -> ld_entries L !! p = Some e ->
  exists j, find_slot capacity (g_slots st) p = Some j /\ view (get (g_slots st) j) = e.
Proof.
  intros HR He. rewrite <- (rf_entries _ _ HR) in He. unfold entry in He.
  destruct (find_slot capacity (g_slots st) p) as [j|]; [|done]. simplify_eq/=. eauto.
Qed.

Lemma entry_view_None (st : Memcheck) (L : Ledger) (p : Z) :
  refines st L -> ld_entries L !! p = None -> find_slot capacity (g_slots st) p = None.
Proof.
  intros HR He. rewrite <- (rf_entries _ _ HR) in He. unfold entry in He.
  by destruct (find_slot capacity (g_slots st) p).
Qed.

(** Writing the slot [j] for [p] rewrites [p]'s entry and no other. *)
Lemma write_entries (slots : gmap Z FisicsMemcheckSlot) (m : gmap Z Entry) (p j : Z)
    (s : FisicsMemcheckSlot) :
  table_ok capacity slots -> (forall q, view <$> entry capacity slots q = m !! q) ->
  writable capacity slots p j -> sl_ptr s = p -> is_empty s = false ->
  (forall q, q <> p -> find_slot capacity slots q <> Some j) ->
  forall q, view <$> entry capacity (<[j := s]> slots) q = <[p := view s]> m !! q.
Proof.
  intros Hok Hm Hw Hs He Hev q. destruct (decide (q = p)) as [->|Hq].
  - rewrite lookup_insert_eq. rewrite (entry_write_same capacity ltac:(lia) slots p j s) by done. done.
  - rewrite lookup_insert_ne by done. rewrite (entry_write_other capacity ltac:(lia) slots p q j s) by done.
    rewrite decide_False by (by apply Hev). apply Hm.
Qed.

Lemma known_live (st : Memcheck) (L : Ledger) (p j : Z) :
  refines st L -> find_slot capacity (g_slots st) p = Some j ->
  live_of (ld_entries L !! p) = if is_active (get (g_slots st) j) then 1%nat else 0%nat.
Proof.
  intros HR Hj. rewrite <- (rf_entries _ _ HR). unfold entry. rewrite Hj. cbn. unfold view.
  by destruct (is_active _).
Qed.

Lemma track_refines (st : Memcheck) (L : Ledger) (p size' : Z) (site : Site) :
  refines st L -> p <> 0 ->
  Z.of_nat (size (ld_entries (ld_track L p size' site))) <= capacity ->
  refines (track_allocation capacity st p size' site) (ld_track L p size' site).
Proof.
  intros HR Hp Hsize. pose proof (rf_table _ _ HR) as Hok. unfold track_allocation.
  destruct (Z.eqb_spec p 0) as [|_]; [done|].
  assert (ld_entries L !! p = None -> has_room capacity (g_slots st)) as Hroom.
  { intros Hnone. apply (has_room_small capacity ltac:(lia) _ (ld_entries L)); [done| |].
    - intros q [s Hs]. rewrite <- (rf_entries _ _ HR), Hs. by eexists.
    - cbn in Hsize. rewrite map_size_insert_None in Hsize by done. lia. }
  pose proof (find_insert_slot_spec capacity ltac:(lia) (g_slots st) p Hok Hp) as Hins.
  destruct (find_insert_slot capacity (g_slots st) p) as [j|] eqn:Ej.
  2:{ exfalso. destruct Hins as [Hno Hall].
      assert (ld_entries L !! p = None) as Hnone.
      { rewrite <- (rf_entries _ _ HR). apply fmap_None. apply entry_None; [lia|done|done]. }
      destruct (Hroom Hnone) as (j & Hj & Hne). apply Hne. specialize (Hall j Hj).
      unfold occupied, is_empty, is_active in *. by case_match. }
  assert (writable capacity (g_slots st) p j) as Hw by (by apply find_insert_writable; [lia|..]).
  assert (forall q, q <> p -> find_slot capacity (g_slots st) q <> Some j) as Hev.
  { intros q Hq. destruct Hins as [Hh|[Hno Hi]].
    - intros Hf. apply find_slot_spec in Hf; [|lia|done]. destruct Hf, Hh. congruence.
    - apply (has_room_not_evicted capacity ltac:(lia) _ p); [done| |done|done].
      apply Hroom. rewrite <- (rf_entries _ _ HR). apply fmap_None. apply entry_None; [lia|done|done]. }
  assert (live_of (ld_entries L !! p) = if is_active (get (g_slots st) j) then 1%nat else 0%nat) as Hl.
  { destruct Hins as [Hh|[Hno Hi]].
    - apply (known_live st L p j HR). by apply find_slot_spec; [lia|..].
    - rewrite <- (rf_entries _ _ HR).
      assert (entry capacity (g_slots st) p = None) as -> by (apply entry_None; [lia|done|done]).
      destruct Hi as [[Hne _]|(Hf & _ & _)].
      + apply not_occupied in Hne. unfold is_active, is_empty in *. by case_match.
      + unfold is_active, is_freed in *. by case_match. }
  pose proof (num_live_insert (ld_entries L) p (Live size' site)) as Hnum. rewrite Hl in Hnum. cbn in Hnum.
  destruct HR as [H1 H2 H3 H4 H5 H6 H7 H8].
  split; cbn; rewrite ?H3, ?H4, ?H5, ?H6, ?u64_add, ?Z.add_0_r; try done.
  - by apply (table_ok_write capacity _ p).
  - intros q. rewrite (write_entries _ (ld_entries L) p) by done.
    unfold view. cbn. by destruct site.
  - destruct (is_active _); rewrite H7, ?u64_add; f_equal; lia.
Qed.

Lemma release_refines (st : Memcheck) (L : Ledger) (p j : Z) :
  refines st L -> find_slot capacity (g_slots st) p = Some j ->
  is_active (get (g_slots st) j) = true -> (Z.of_nat (size (ld_entries L)) <= capacity) ->
  refines (mark_released st j) (ld_release L p).
Proof.
  intros HR Hj Hact Hsize. pose proof (rf_table _ _ HR) as Hok.
  pose proof (known_live st L p j HR Hj) as Hl. rewrite Hact in Hl.
  pose proof (num_live_pos _ _ Hl) as Hpos. pose proof (num_live_le (ld_entries L)) as Hle.
  pose proof (num_live_insert (ld_entries L) p Released) as Hnum. rewrite Hl in Hnum. cbn in Hnum.
  apply find_slot_spec in Hj as Hh; [|lia|done]. destruct Hh as [Hocc Hptr].
  assert (p <> 0) as Hp by (eapply (tk_path _ _ Hok); by split).
  assert (writable capacity (g_slots st) p j) as Hw by (split; [done|left; by split]).
  unfold mark_released. rewrite Hact. cbn [negb].
  destruct HR as [H1 H2 H3 H4 H5 H6 H7 H8].
  split; cbn; rewrite ?H3, ?H4, ?H5, ?H6, ?u64_add, ?Z.add_0_r; try done.
  - by apply (table_ok_write capacity _ p).
  - intros q. rewrite (write_entries _ (ld_entries L) p) by
      (done || (intros q' Hq' Hf; apply find_slot_spec in Hf; [|lia|done]; destruct Hf; congruence)).
    done.
  - rewrite H7. rewrite !wrapU_small by lia.
    destruct (Z.ltb_spec 0 (Z.of_nat (num_live (ld_entries L)))); lia.
Qed.

Lemma answer_refines (st : Memcheck) (L : Ledger) (size' : Z) (site : Site) (a : Z) :
  refines st L -> Z.of_nat (size (ld_entries (ld_answer L size' site a).1)) <= capacity ->
  refines (if a =? 0 then st else track_allocation capacity st a size' site) (ld_answer L size' site a).1.
Proof.
  unfold ld_answer. destruct (Z.eqb_spec a 0) as [->|Ha]; [done|]. intros HR Hsize.
  by apply track_refines.
Qed.

Lemma size_insert_ge {A} (m : gmap Z A) (p : Z) (x : A) : (size m <= size (<[p := x]> m))%nat.
Proof.
  destruct (m !! p) as [y|] eqn:E.
  - by rewrite map_size_insert_Some by eauto.
  - rewrite map_size_insert_None by done. lia.
Qed.

Lemma spec_step_size (L : Ledger) (r : Request) :
  (size (ld_entries L) <= size (ld_entries (spec_step L r).1))%nat.
Proof.
  destruct r as [s site a|c s site a|p s site a|p site]; cbn [spec_step]; unfold ld_answer.
  - case_match; cbn; [done|]. apply size_insert_ge.
  - case_match; cbn; [done|]. apply size_insert_ge.
  - repeat case_match; cbn; try done; [apply size_insert_ge|].
    etrans; [apply size_insert_ge|apply size_insert_ge].
  - repeat case_match; cbn; try done. apply size_insert_ge.
Qed.

Lemma step_refines (st : Memcheck) (L : Ledger) (r : Request) :
  refines st L -> Z.of_nat (size (ld_entries (spec_step L r).1)) <= capacity ->
  refines (memcheck_step capacity env st r).1 (spec_step L r).1 /\
  (memcheck_step capacity env st r).2 = (spec_step L r).2.
Proof.
  intros HR Hsize. pose proof (spec_step_size L r) as Hmono.
  pose proof (ensure_refines st L HR) as HE.
  destruct r as [s site a|c s site a|p s site a|p site]; cbn [memcheck_step spec_step] in *.
  - split; [|done]. apply answer_refines; [by apply call_refines|done].
  - split; [|done]. apply answer_refines; [by apply call_refines|done].
  - unfold realloc_site. destruct (p =? 0).
    { split; [|done]. apply answer_refines; [by apply call_refines|done]. }
    destruct (ld_entries L !! p) as [e|] eqn:Ee.
    2:{ rewrite (entry_view_None _ L) by done. split; [by apply bump_refines|done]. }
    destruct (entry_view_Some _ L p e HE Ee) as (j & Hj & Hv). rewrite Hj.
    pose proof (find_slot_spec capacity ltac:(lia) _ p j (rf_table _ _ HE)) as Hf.
    pose proof (proj1 Hf Hj) as [Hocc _]. unfold view, is_active in Hv. unfold occupied, is_empty in Hocc.
    destruct (sl_state _) eqn:Est; [done| |].
    + subst e. destruct (Z.eqb_spec a 0) as [->|Ha]; [split; [by apply call_refines|done]|].
      split; [|done]. apply track_refines; [|done|done].
      apply release_refines; [by apply call_refines| | |cbn; lia].
      * exact Hj.
      * unfold is_active. cbn. by rewrite Est.
    + subst e. split; [by apply bump_refines|done].
  - unfold free_site. destruct (p =? 0); [by split|].
    destruct (ld_entries L !! p) as [e|] eqn:Ee.
    2:{ rewrite (entry_view_None _ L) by done. split; [by apply bump_refines|done]. }
    destruct (entry_view_Some _ L p e HE Ee) as (j & Hj & Hv). rewrite Hj.
    pose proof Hj as Hh. apply find_slot_spec in Hh as [Hocc _]; [|lia|apply HE].
    unfold view, is_active in Hv. unfold occupied, is_empty in Hocc.
    destruct (sl_state _) eqn:Est; [done| |].
    + subst e. split; [|done]. apply call_refines, release_refines; [done|done| |cbn in *; lia].
      unfold is_active. by rewrite Est.
    + subst e. split; [by apply bump_refines|done].
Qed.

Lemma spec_run_size (rs : list Request) (L : Ledger) :
  (size (ld_entries L) <= size (ld_entries (spec_run L rs).1))%nat.
Proof.
  revert L. induction rs as [|r rs IH]; intros L; [done|]. cbn [spec_run].
  pose proof (spec_step_size L r) as H1. destruct (spec_step L r) as [L1 a].
  specialize (IH L1). destruct (spec_run L1 rs) as [L2 out]. cbn in *. lia.
Qed.

Lemma run_refines (rs : list Request) (st : Memcheck) (L : Ledger) :
  refines st L -> Z.of_nat (size (ld_entries (spec_run L rs).1)) <= capacity ->
  refines (memcheck_run capacity env st rs).1 (spec_run L rs).1 /\
  (memcheck_run capacity env st rs).2 = (spec_run L rs).2.
Proof.
  revert st L. induction rs as [|r rs IH]; intros st L HR Hsize; [done|]. cbn [memcheck_run spec_run] in *.
  pose proof (step_refines st L r HR) as Hstep. destruct (spec_step L r) as [L1 a].
  pose proof (spec_run_size rs L1) as Hmono. specialize (IH (memcheck_step capacity env st r).1 L1).
  destruct (spec_run L1 rs) as [L2 out]. cbn in *.
  destruct (memcheck_step capacity env st r) as [st1 a1]. cbn in *.
  destruct Hstep as [HR1 ->]; [lia|]. destruct (IH HR1 Hsize) as [HR2 Hout].
  destruct (memcheck_run capacity env st1 rs) as [st2 out1]. cbn in *. by subst.
Qed.

(** C17: the runtime refines the ledger.  As long as the distinct pointers handed out fit the
    table, every sequence of requests gives the same answers, the same calls to the C
    library, the same double-free and unknown-free verdicts and the same entry for every
    pointer; the active count is the number of live blocks. *)
Theorem memcheck_refines_ledger (rs : list Request) :
  Z.of_nat (size (ld_entries (spec_run ledger_initial rs).1)) <= capacity ->
  refines (memcheck_run capacity env memcheck_initial rs).1 (spec_run ledger_initial rs).1 /\
  (memcheck_run capacity env memcheck_initial rs).2 = (spec_run ledger_initial rs).2.
Proof. apply run_refines, refines_initial. Qed.

End Refinement.
