(* ===== verification/MemcheckJson.v ===== *)
(** * The JSON report of the memory checker ([emit_json_string], [emit_json_report]).

    A text is a list of characters.  In the fixed parts an apostrophe stands for the
    double quote ([q]).  [json_read_string] is the grammar of JSON strings (RFC 8259)
    for the characters up to U+00FF, as a reader. *)
From S2P Require Import Prelude Memcheck.

Definition dquote : ascii := ascii_of_nat 34.
Definition backslash : ascii := ascii_of_nat 92.
Definition newline : ascii := ascii_of_nat 10.

(** The text with every apostrophe made a double quote. *)
Definition q (s : string) : list ascii :=
  (fun c => if Ascii.eqb c "'"%char then dquote else c) <$> list_ascii_of_string s.

Definition hex_digit (n : Z) : ascii :=
  ascii_of_N (Z.to_N (if n <? 10 then 48 + n else 87 + n)).

(** [\u%04x] of a byte. *)
Definition unicode_escape (c : Z) : list ascii :=
  [backslash; "u"%char; "0"%char; "0"%char; hex_digit (c / 16); hex_digit (c mod 16)].

Definition escape_char (c : ascii) : list ascii :=
  let n := Z.of_N (N_of_ascii c) in
  if n =? 34 then [backslash; dquote]
  else if n =? 92 then [backslash; backslash]
  else if n =? 8 then [backslash; "b"%char]
  else if n =? 12 then [backslash; "f"%char]
  else if n =? 10 then [backslash; "n"%char]
  else if n =? 13 then [backslash; "r"%char]
  else if n =? 9 then [backslash; "t"%char]
  else if n <? 32 then unicode_escape n
  else [c].

(** [None] is a null pointer. *)
Definition emit_json_string (value : option (list ascii)) : list ascii :=
  dquote :: match value with Some s => s ≫= escape_char | None => [] end ++ [dquote].

Definition size_text (n : Z) : list ascii := decimal_digits 20 n.

Definition json_leak (s : FisicsMemcheckSlot) : list ascii :=
  q "    {'size': " ++ size_text (sl_size s) ++ q ", 'allocated_at': {'file': " ++
  match sl_alloc_file s with
  | Some (String _ _ as f) =>
      emit_json_string (Some (list_ascii_of_string (display_file_name (Some f))))
  | _ => q "null"
  end ++ q ", 'line': " ++
  (if 0 <? sl_alloc_line s then size_text (sl_alloc_line s) else q "null") ++ q "}}".

(** The leaks, separated by a comma and a line break. *)
Fixpoint json_leaks (first : bool) (slots : list FisicsMemcheckSlot) : list ascii :=
  match slots with
  | [] => []
  | s :: rest => (if first then [] else q "," ++ [newline]) ++ json_leak s ++ json_leaks false rest
  end.

Definition line (s : list ascii) : list ascii := s ++ [newline].

(** The file's contents. *)
Definition emit_json_report (capacity : Z) (st : Memcheck) (trigger : string) (leaked_bytes : Z)
    : list ascii :=
  line (q "{") ++
  line (q "  'profile': 'memory_check_report_v1',") ++
  line (q "  'schema_version': 1,") ++
  line (q "  'runtime': 'fisics_memory_check',") ++
  line (q "  'trigger': " ++ emit_json_string (Some (list_ascii_of_string trigger)) ++ q ",") ++
  line (q "  'summary': {") ++
  line (q "    'active': " ++ size_text (g_active_count st) ++ q ",") ++
  line (q "    'leaked_bytes': " ++ size_text leaked_bytes ++ q ",") ++
  line (q "    'allocs': " ++ size_text (g_total_allocs st) ++ q ",") ++
  line (q "    'frees': " ++ size_text (g_total_frees st) ++ q ",") ++
  line (q "    'double_free': " ++ size_text (g_double_frees st) ++ q ",") ++
  line (q "    'unknown_free': " ++ size_text (g_unknown_frees st) ++ q ",") ++
  line (q "    'tracker_failures': " ++ size_text (g_tracker_failures st)) ++
  line (q "  },") ++
  line (q "  'leaks': [") ++
  json_leaks true (active_slots capacity st) ++ [newline] ++
  line (q "  ]") ++
  line (q "}").

(** ** Reading a JSON string *)

Definition hex_value (c : ascii) : option Z :=
  let n := Z.of_N (N_of_ascii c) in
  if (48 <=? n) && (n <=? 57) then Some (n - 48)
  else if (97 <=? n) && (n <=? 102) then Some (n - 87)
  else if (65 <=? n) && (n <=? 70) then Some (n - 55)
  else None.

Definition simple_escape (c : ascii) : option ascii :=
  let n := Z.of_N (N_of_ascii c) in
  if n =? 34 then Some c else if n =? 92 then Some c else if n =? 47 then Some c
  else if n =? 98 then Some (ascii_of_nat 8) else if n =? 102 then Some (ascii_of_nat 12)
  else if n =? 110 then Some (ascii_of_nat 10) else if n =? 114 then Some (ascii_of_nat 13)
  else if n =? 116 then Some (ascii_of_nat 9) else None.

(** The characters up to the closing quote, and the text behind it; a control character
    or a malformed escape is an error. *)
Fixpoint json_read_chars (s : list ascii) : option (list ascii * list ascii) :=
  match s with
  | [] => None
  | c :: rest =>
      if Ascii.eqb c dquote then Some ([], rest)
      else if Ascii.eqb c backslash then
        match rest with
        | [] => None
        | u :: rest1 =>
            if Ascii.eqb u "u"%char then
              match rest1 with
              | h1 :: h2 :: h3 :: h4 :: rest2 =>
                  a ← hex_value h1; b ← hex_value h2; c ← hex_value h3; d ← hex_value h4;
                  if a * 4096 + b * 256 <? 1 then
                    '(cs, tail) ← json_read_chars rest2;
                    Some (ascii_of_N (Z.to_N (c * 16 + d)) :: cs, tail)
                  else None
              | _ => None
              end
            else e ← simple_escape u; '(cs, tail) ← json_read_chars rest1; Some (e :: cs, tail)
        end
      else if Z.of_N (N_of_ascii c) <? 32 then None
      else '(cs, tail) ← json_read_chars rest; Some (c :: cs, tail)
  end.

Definition json_read_string (s : list ascii) : option (list ascii * list ascii) :=
  match s with
  | c :: rest => if Ascii.eqb c dquote then json_read_chars rest else None
  | [] => None
  end.

(** Reading the escape of any one character gives it back. *)
Lemma json_read_escape (c : ascii) (rest : list ascii) :
  json_read_chars (escape_char c ++ rest) =
    '(cs, tail) ← json_read_chars rest; Some (c :: cs, tail).
Proof.
  destruct c as [[] [] [] [] [] [] [] []]; reflexivity.
Qed.

(** C20: a reported string is a well-formed JSON string for its text: reading it by the JSON
    string grammar gives the characters back and stops behind the closing quote. *)
Theorem json_string_roundtrip (s rest : list ascii) :
  json_read_string (emit_json_string (Some s) ++ rest) = Some (s, rest).
Proof.
  unfold emit_json_string. rewrite <- app_comm_cons, <- app_assoc.
  change (json_read_chars ((s ≫= escape_char) ++ dquote :: rest) = Some (s, rest)).
  induction s as [|c s IH]; [done|].
  change ((c :: s) ≫= escape_char) with (escape_char c ++ (s ≫= escape_char)).
  by rewrite <- app_assoc, json_read_escape, IH.
Qed.

Example json_report_of_one_leak :
  emit_json_report 4
    (mkMemcheck {[0 := mkSlot 4096 16 (Some "src/a.c"%string) 3 FISICS_MEMCHECK_SLOT_ACTIVE]}
       1 1 0 0 0 0 1 0 true true FISICS_MEMCHECK_REPORT_ALWAYS [] []) "manual" 16
  = line (q "{") ++ line (q "  'profile': 'memory_check_report_v1',") ++
    line (q "  'schema_version': 1,") ++ line (q "  'runtime': 'fisics_memory_check',") ++
    line (q "  'trigger': 'manual',") ++ line (q "  'summary': {") ++
    line (q "    'active': 1,") ++ line (q "    'leaked_bytes': 16,") ++
    line (q "    'allocs': 1,") ++ line (q "    'frees': 0,") ++ line (q "    'double_free': 0,") ++
    line (q "    'unknown_free': 0,") ++ line (q "    'tracker_failures': 0") ++ line (q "  },") ++
    line (q "  'leaks': [") ++
    line (q "    {'size': 16, 'allocated_at': {'file': 'a.c', 'line': 3}}") ++
    line (q "  ]") ++ line (q "}").
Proof. by vm_compute. Qed.
